(* ===== verification/_CoqProject ===== *)
-Q . S2P
Prelude.v
Rule.v
Classify.v
Prefix.v
Ranges.v
Heap.v
MbNode.v
Double.v
Darray.v
CutInl.v
Redund.v
Push.v
CutBitmap.v
CutSplit.v
CutHi.v
Cut.v
Tree.v
BitmapPath.v
BitmapSpec.v
TraverseSpec.v
Compact.v
LoadRanges.v
HiSweep.v
HiSpec.v
SplitSweep.v
SplitSpec.v
BitmapCount.v
CutSpec.v
CutProps.v
Scanf.v
CString.v
OptHelpers.v
OptValues.v
Opt.v
OptParse.v
OptTable.v
OptRegister.v
OptParseSpec.v
OptUsage.v
OptUsageSpec.v
OptEx.v
FilterFile.v
FilterSpec.v
MainProg.v
Utf8.v
JsonNum.v
JsonStore.v
JsonRep.v
JsonBuf.v
Json.v
JsonRead.v
JsonBuild.v
JsonParse.v
JsonPrint.v
JsonRound.v
JsonText.v
JsonProps.v
Avl.v
AvlSpec.v
Order.v
AvlIter.v
AvlProps.v
Base64.v
Base64Spec.v
Base64Code.v
Base64Props.v
EditDistance.v
EditSpec.v
EditTables.v
EditProps.v
Ilog.v
BitArray.v
BitArraySpec.v
BitArrayProps.v
PrimeGap.v
Sieve.v
Intmap.v
Crc.v
Crcsync.v
Strmap.v
