(* ===== verification/Prelude.v ===== *)
(** * A verification of choose-cut, a packet classifier

    ** The program

    choose-cut reads a list of classification rules, each a range for every one of
    five header fields, builds a decision tree over them and looks packets up in
    it.  At every node of the tree one of three methods cuts the rules into
    children: the bitmap cut (the first six bits of a field, with internal and
    external children), the split cut (one value of a field, each half split once
    more if that helps), the equal-size cut (a span divided into up to 64 segments
    of the same length).  The methods estimate what a cut would bring in every
    field, [cut_node] picks the best one, and the chosen method distributes the
    rules and recurses.  Leaves hold at most [BUCKETSIZE] rules and are searched
    linearly.  main.c takes the rule file from its command line (ccan/opt), reads
    it, cuts the tree, prints its counters, copies it to an array (ccan/darray),
    and compares the tree with the linear search on packets sampled from the
    rules.  The sweeps of two methods use a binary heap (ccan/heap).

    ** The files and the code they model

    - Prelude: results and failures of C code, loops, machine integers, bits,
      arrays; the scopes, tactics and hint databases of the library.
    - Rule: rule.h, param.h, rule sets of rule.c and utils.c, the allocator of
      mem.c as the class [Allocator].  Prefix: the prefix iterator of rule.c.
      Ranges: the weighted ranges of rule.c.  Classify: [lsearch] of cut.c and
      [rule_contained] of utils.c, with the specification [classify].
    - Heap: ccan/heap.  Darray: ccan/darray/darray.h.  MbNode: mb_node.h and
      mb_node.c.  Double: the double arithmetic of the cost functions.
    - CutInl: cut-inl.h and cut-inl.c, the node, the scratch state and what the
      methods share; Redund and Push: the theory of [remove_redund] and
      [append_rules].
    - CutBitmap: cut-bitmap.h and cut-bitmap.c, with the theory in BitmapPath,
      BitmapSpec and BitmapCount.  CutSplit: cut-split.h and cut-split.c, with
      SplitSweep and SplitSpec.  CutHi: cut-hi.h and cut-hi.c, with HiSweep and
      HiSpec.  LoadRanges: what both sweeps start from and use.
    - Cut: cut.h and cut.c (choosing, cutting, searching, traversing, the counters);
      Tree: what a tree promises; TraverseSpec: the traversal as a walk; Compact:
      [compact] of cut.c; CutSpec: the interface [SoundMethod] that the methods
      discharge and the theorems about the tree against it; CutProps: the
      properties of cutting and searching, at a concrete rule set.
    - Scanf: the part of fscanf that utils.c uses; FilterFile: the reader of rule
      files in utils.c; FilterSpec: printed files are read back.
    - CString: strings of the C library; OptHelpers: ccan/opt/helpers.c; Opt and
      OptParse: ccan/opt/opt.c and ccan/opt/parse.c; OptUsage: ccan/opt/usage.c;
      OptValues, OptTable, OptRegister, OptParseSpec, OptUsageSpec: their theory;
      OptEx: concrete inputs.
    - MainProg: main.c, from the command line to the end.
    - The JSON library ccan/json (json.c, json.h), which the Makefile builds beside
      the program.  Utf8: the Unicode helpers.  JsonNum: [parse_number], [strtod] and
      [sprintf] of [%.16g].  JsonStore: the nodes as cells of a store and every
      operation on them.  JsonBuf: the string buffer [SB].  Json: the parser and the
      writers.  JsonRep: trees of linked nodes and the operations on
      lists of children; JsonRead: JSON values and the reader that gives the value
      of a text; JsonBuild and JsonParse: the parser follows the reader; JsonPrint
      and JsonText: the text of a value and the writers; JsonRound: texts are read
      back; JsonProps: the properties, with concrete inputs.
    - Avl: ccan/avl (avl.c, avl.h); AvlSpec: the pairs of a tree in order, balance,
      insertion and removal; Order: ccan/order, which discharges the interface
      [TotalOrder] that the trees expect of a comparison; AvlIter: the iterators;
      AvlProps: the properties.
    - Base64: ccan/base64 (base64.c, base64.h); Base64Spec: the text of RFC 4648;
      Base64Code: the encoder and the decoder on groups of letters; Base64Props.
    - EditDistance: ccan/edit_distance (the four measures); EditSpec: alignments and
      their costs; EditTables: the rows and matrices hold least costs; EditProps.
    - Ilog: ccan/ilog (ilog.c, ilog.h).  BitArray: ccan/bitmap (bitmap.c, bitmap.h)
      with the byte swap of ccan/endian; BitArraySpec: words, ranges, scans and the
      search by the bits of a bitmap; BitArrayProps.
    - PrimeGap: there is a prime between an odd number and its square (with MathComp);
      Sieve: ccan/eratosthenes over bitmaps, and that it finds the primes.
    - Intmap: ccan/intmap (intmap.c, intmap.h), which uses ilog, and its refinement of
      a finite map; Strmap: ccan/strmap (strmap.c, strmap.h), the same over strings.
    - Crc: ccan/crc with its tables; Crcsync: ccan/crcsync, the scan for known blocks
      over crc64, and its properties.

    ** How the code is translated

    A function that may leave the defined behaviour of C, fail an assertion or
    exit returns a [res]; the failure says what happened.  Integers are Z with
    their width written out where the code relies on it ([u8], [u32], [u64],
    [s32]); the counters of [get_tree_info] and the indices are kept unbounded.
    Arrays are lists with their allocated length, so that an access outside is
    [Err EOob].  A function that changes an object returns the new object.
    Memory that is not initialised is a parameter ([junk], [stack]): the theorems
    hold for every content.  [rand()] is a function of the number of calls.  The
    union in [struct cnode] is a sum, and the children of a node are part of the
    node.  The callbacks of ccan/opt are functions on the program's state.

    ** What the theorems show

    - The tree is right (CutProps): [cut_correct], for every tree cut from data
      computed for the node, whatever the rules, the packet and the uninitialised
      memory; [cut_method_sound], the same for each method, proved against the
      interface; [even_cut_counts_exact], [hi_cut_counts_exact] and
      [split_1d_exact], that the counts made before a cut are exact, so that the
      distribution leaves no array and fails no assertion.
    - The program is right (MainProg): [main_reports_nothing], from the command line
      and the text of the file to the end of the sample test; [main_command_line].
    - The reference and the reduction of rules (Classify, Redund), the prefix walk
      (Prefix), the two variants of [tree_function] (MbNode), sorted and merged
      ranges (LoadRanges), heaps (Heap), dynamic arrays (Darray).
    - The tree as data: [traverse_preorder], [get_tree_info_counts],
      [compact_in_bounds], and what [compact] really returns.
    - Rule files: reading ends for every file, and a printed file is read back.
    - The option library: registering keeps the table well-formed, the name loops
      find the right option, parsing ends without leaving an argument, setters keep
      the type of their variable and take back what is shown, the usage buffer
      holds exactly the usage text, line breaking keeps the words.
    - The JSON library (JsonProps): [json_decode_correct], decoding refines the
      reader of values on every text and a failure frees all nodes;
      [json_validate_agrees]; [json_decode_checks], decoded trees pass [json_check]
      and deleting them frees exactly their cells; [json_round_trip], written values
      are read back; [json_elements_refine] and [json_remove_refines], the linked
      nodes implement lists; [utf8_correct], UTF-8 against RFC 3629.
    - AVL trees (AvlProps): [avl_refines_map], every sequence of calls implements an
      ordered map; [avl_always_true], the invariants hold after it and the iterators
      visit the pairs in order within their stack; [avl_check_exact].
    - Base64 (Base64Props): [base64_round_trip] for every alphabet,
      [base64_decode_exact], the bytes or the error of every text.
    - Edit distances (EditProps): [edit_distance_least], the distance is the least cost
      of an alignment for every measure; [edit_distance_operations], for two measures
      it is the least number of single edits.
    - Logarithms (Ilog): [ilog_agree], all variants give the number of bits.  Bitmaps
      (BitArrayProps): [bitmap_refines_bits], sequences of operations act on the bits
      they name; [bitmap_tests_exact].
    - The sieve (Sieve): [eratosthenes_finds_primes], sieving from limit to limit finds
      exactly the primes, and its assertion that primes never run out holds.
    - Integer maps (Intmap): [intmap_refines_map], sequences of operations answer as a
      finite map, in the order of the indices; [sintmap_order] for signed ones.  String
      maps (Strmap): [strmap_refines_map], with iteration and prefixes.
    - Checksums (Crc): [crc_exact], the tables and loops are shift registers of the
      documented polynomials.  The scan (Crcsync): [crcsync_conserves], it is safe and
      accounts for every byte; [crcsync_scans], in step it finds the blocks that
      checksums computed afresh would find; [crc_of_blocks_exact].
    - Flaws that modelling showed are theorems too: the empty rule set in
      [remove_redund], the last child that [hi_traverse] skips, the stale variable
      at the end of a rule file, the pointer that [compact] stores in the wrong
      cell, the control character that the JSON writer does not escape, the letter A
      that the base64 decoder fills up with whatever the alphabet ([base64_needs_A]),
      the successor of an index that is not in an integer map ([after_absent_index]),
      the largest number in [eratosthenes_nextprime] ([nextprime_largest]), the block
      that crcsync misses when buffers end inside a block ([block_missed]) and after a
      flush ([flush_keeps_checksum]).

    ** Bounds and fuel

    [cut_node] takes the number of levels as fuel; that a tree exists is a
    hypothesis of its theorems, because nothing in the code bounds the number of
    levels (a cut may leave all rules of a node in one child).  The other recursions are given
    enough fuel, and that it is enough is proved: [search], [traverse] and
    [preorder] the height of the tree, the bitmap loops 64 rounds, the doublings
    of an array 64, the divisions of the equal-size cut 5, the reader of rule files
    the length of the file, the walks over the option names [walk_fuel], the
    command line [argv_fuel], digits of a number 20, the JSON parser the length of the
    text, the walks over nodes the number of cells, the growth of a string buffer 64
    doublings, the loop over an AVL tree the number of its nodes.  The JSON theorems take texts below 2^58 bytes, for which the sizes of
    the buffers stay in their type; base64 texts below 2^60 bytes, edit distances of
    arrays below 2^30 elements together, bitmaps below 2^62 bits, limits of the sieve
    up to 2^32 (above, the square of a prime can leave 64 bits as far as is proved),
    blocks below 2^32 bytes and buffers below 2^62 for crcsync.  Its loops, those of
    the sieve and of the search in a bitmap have fuel for every bit or byte.

    [cut_checked] is [cut] that stops where a method is chosen that computed no data
    for the node; there the code cuts along data of an earlier node.  The theorems
    about the tree assume memory ([AllocTotal]) where an allocation whose result
    the code does not check would otherwise decide.

    ** Not modelled

    Printing ([show_ruleset], the texts of [get_tree_info] and [sample_perf], the
    exiting functions of ccan/opt) and the clock; [free]; the float and double
    options of ccan/opt, which are conversions of the C library; test.c, which is
    written for an older signature of [get_next_prefix_iter] and does not compile
    against rule.h; of the modules of ccan that the program does not call, which the
    Makefile builds into libccan.a only, all but json, avl, order, base64,
    edit_distance, ilog, bitmap, eratosthenes, intmap, strmap, crc and crcsync.

    ** Next

    The averages that [get_tree_info] prints; bounds on the tree a given number of
    rules can produce; more modules of ccan (strset, htable, charset, tokenizers). *)

From stdpp Require Export base list numbers tactics sets sorting.
From Stdlib Require Export ZArith Lia.

#[global] Open Scope Z_scope.

(** ** Failures and the result monad

    A C function that may stop the program or leave the defined behaviour of
    the language returns a [res].  The failures are the ones the sources can
    produce. *)
Inductive failure :=
  | EOob        (* read or write outside an array *)
  | EAssert     (* a failed [assert] *)
  | EShift      (* a shift by at least the width of the operand *)
  | EPanic      (* PANIC / exit(-1) *)
  | EAbort      (* abort() *)
  | ERange      (* a number that [fscanf] cannot represent in the target *)
  | EOverflow   (* signed overflow *)
  | ENull       (* a null pointer is followed *)
  | EExit (status : Z) (stderr : list Z)  (* exit(status) after the message *)
  | EFuel.      (* the evaluation bound of a recursion was too small *)

#[global] Instance failure_eq_dec : EqDecision failure.
Proof. solve_decision. Defined.

Inductive res (A : Type) :=
  | Ok (a : A)
  | Err (e : failure).
Arguments Ok {_} _.
Arguments Err {_} _.

#[global] Instance res_ret : MRet res := @Ok.
#[global] Instance res_bind : MBind res := λ A B f m,
  match m with Ok a => f a | Err e => Err e end.

(** Notations for the control flow of the sources. *)
Declare Scope c_scope.
Delimit Scope c_scope with c.
Notation "'when' b 'throw' e ; k" := (if b then Err e else k)
  (at level 200, b at level 100, e at level 100, k at level 200, right associativity,
   format "'when'  b  'throw'  e ; '//' k") : c_scope.
Notation "'when' b 'return' r ; k" := (if b then Ok r else k)
  (at level 200, b at level 100, r at level 100, k at level 200, right associativity,
   format "'when'  b  'return'  r ; '//' k") : c_scope.
#[global] Open Scope c_scope.

(** A failed check stops the evaluation. *)
Definition assert_ (b : bool) : res unit := if b then Ok tt else Err EAssert.

Definition is_ok {A} (m : res A) : bool := match m with Ok _ => true | Err _ => false end.

Lemma bind_ret {A B} (x : A) (k : A → res B) : Ok x ≫= k = k x.
Proof. done. Qed.

Lemma bind_Ok {A B} (m : res A) (f : A → res B) b :
  m ≫= f = Ok b ↔ ∃ a, m = Ok a ∧ f a = Ok b.
Proof. destruct m; simpl; naive_solver. Qed.

(** ** Arrays

    A C array is the list of its cells; reading or writing a cell that is not
    there is [EOob]. *)
Definition aget {A} (l : list A) (i : Z) : res A :=
  if bool_decide (0 ≤ i)
  then match l !! Z.to_nat i with Some x => Ok x | None => Err EOob end
  else Err EOob.

Definition aset {A} (l : list A) (i : Z) (x : A) : res (list A) :=
  if bool_decide (0 ≤ i < Z.of_nat (length l))
  then Ok (<[Z.to_nat i := x]> l) else Err EOob.

(** The cells of a constant-size array indexed by a loop variable that is in
    range by construction. *)
Definition anth {A} `{Inhabited A} (l : list A) (i : Z) : A := l !!! Z.to_nat i.

Definition zlen {A} (l : list A) : Z := Z.of_nat (length l).

(** ** Loops *)

(** [for (i = ..) body], over the list of the values the index takes. *)
Fixpoint mfold {A S} (f : A → S → res S) (l : list A) (s : S) : res S :=
  match l with
  | [] => Ok s
  | x :: l => s' ← f x s; mfold f l s'
  end.

(** [for (i = lo; i < hi; i++) body] *)
Definition mfor {S} (lo hi : Z) (f : Z → S → res S) (s : S) : res S :=
  mfold f (seqZ lo (hi - lo)) s.

(** The same loop when the body cannot fail. *)
Definition for_ {S} (lo hi : Z) (f : Z → S → S) (s : S) : S :=
  foldl (λ s i, f i s) s (seqZ lo (hi - lo)).

Lemma mfold_app {A S} (f : A → S → res S) l1 l2 s :
  mfold f (l1 ++ l2) s = (s' ← mfold f l1 s; mfold f l2 s').
Proof.
  revert s. induction l1 as [|x l1 IH]; intros s; simpl; [done|].
  destruct (f x s); simpl; auto.
Qed.

Lemma mfold_ext {A S} (f g : A → S → res S) l s :
  (∀ x s, x ∈ l → f x s = g x s) → mfold f l s = mfold g l s.
Proof.
  revert s. induction l as [|x l IH]; intros s Hfg; simpl; [done|].
  rewrite Hfg by set_solver. destruct (g x s); simpl; [|done].
  apply IH. set_solver.
Qed.

(** A loop nested in a loop, when the inner body does not depend on more than
    the values it runs over, is one loop over the concatenation. *)
Lemma mfold_concat {A B S} (f : B → S → res S) (g : A → list B) l s :
  mfold (λ a s, mfold f (g a) s) l s = mfold f (concat (g <$> l)) s.
Proof.
  revert s. induction l as [|a l IH]; intros s; simpl; [done|].
  rewrite mfold_app. destruct (mfold f (g a) s); simpl; auto.
Qed.

(** Invariant rule for [mfold]. *)
Lemma mfold_inv {A S} (P : list A → S → Prop) (f : A → S → res S) l s :
  P [] s →
  (∀ done x s, P done s → (∃ rest, l = done ++ x :: rest) →
     ∃ s', f x s = Ok s' ∧ P (done ++ [x]) s') →
  ∃ s', mfold f l s = Ok s' ∧ P l s'.
Proof.
  intros H0 Hstep.
  enough (∀ rest pre s, l = pre ++ rest → P pre s →
            ∃ s', mfold f rest s = Ok s' ∧ P l s') as H.
  { apply (H l []); done. }
  induction rest as [|x rest IH]; intros pre t -> Hp; simpl.
  - rewrite app_nil_r. eauto.
  - destruct (Hstep pre x t) as (t' & Hf & Hp'); [done|eauto|].
    rewrite Hf. simpl. apply (IH (pre ++ [x])); [|done].
    by rewrite <- app_assoc.
Qed.

(** Invariant rule for a loop that is known to have succeeded. *)
Lemma mfold_Ok_inv {A S} (P : list A → S → Prop) (f : A → S → res S) l s s' :
  mfold f l s = Ok s' → P [] s →
  (∀ done x s s', P done s → (∃ rest, l = done ++ x :: rest) →
     f x s = Ok s' → P (done ++ [x]) s') → P l s'.
Proof.
  intros Hm H0 Hstep.
  enough (∀ rest pre t, l = pre ++ rest → P pre t →
            mfold f rest t = Ok s' → P l s') as H.
  { apply (H l [] s); done. }
  induction rest as [|x rest IH]; intros pre t -> Hp Hr; simpl in Hr.
  - rewrite app_nil_r. congruence.
  - apply bind_Ok in Hr as (t' & Hf & Hr).
    apply (IH (pre ++ [x]) t'); [by rewrite <- app_assoc| |done].
    eauto.
Qed.

(** ** Machine integers

    An integer of the program is a [Z]; the operations that wrap say so. *)
Definition u8 (z : Z) : Z := z mod 2 ^ 8.
Definition u16 (z : Z) : Z := z mod 2 ^ 16.
Definition u32 (z : Z) : Z := z mod 2 ^ 32.
Definition u64 (z : Z) : Z := z mod 2 ^ 64.
(** Conversion to [int]. *)
Definition s32 (z : Z) : Z := (z + 2 ^ 31) mod 2 ^ 32 - 2 ^ 31.
Definition UINT32_MAX : Z := 2 ^ 32 - 1.

(** [__builtin_clz] family: the argument is not zero. *)
Definition clz32 (x : Z) : Z := 31 - Z.log2 x.
Definition clz64 (x : Z) : Z := 63 - Z.log2 x.

Fixpoint ctz_pos (p : positive) : Z :=
  match p with xO p => 1 + ctz_pos p | _ => 0 end.

(** [__builtin_ctz] as the build's -mbmi compiles it: the TZCNT instruction,
    which gives the operand's width on zero. *)
Definition ctz (width x : Z) : Z :=
  match x with Zpos p => ctz_pos p | _ => width end.

Fixpoint popcount_pos (p : positive) : Z :=
  match p with
  | xH => 1
  | xO p => popcount_pos p
  | xI p => 1 + popcount_pos p
  end.
Definition popcount (x : Z) : Z := match x with Zpos p => popcount_pos p | _ => 0 end.

(** *** Trailing zeros *)
Lemma ctz_pos_nonneg p : 0 ≤ ctz_pos p.
Proof. induction p; simpl; lia. Qed.

(** A positive number is its power of two times an odd number. *)
Lemma ctz_pos_spec p : ∃ q, Zpos p = 2 ^ ctz_pos p * (2 * q + 1) ∧ 0 ≤ q.
Proof.
  induction p as [p _|p (q & IH & Hq)|].
  - exists (Zpos p). simpl ctz_pos. lia.
  - exists q. cbn [ctz_pos].
    rewrite Z.pow_add_r by (auto using ctz_pos_nonneg; lia). lia.
  - exists 0. simpl. lia.
Qed.

Lemma ctz_nonneg w x : 0 ≤ w → 0 ≤ ctz w x.
Proof. destruct x; simpl; auto using ctz_pos_nonneg. Qed.

Lemma ctz_nonneg_pos w x : 0 < x → 0 ≤ ctz w x.
Proof. destruct x; try lia. intros _. apply ctz_pos_nonneg. Qed.

Lemma ctz_spec w x : 0 < x → ∃ q, x = 2 ^ ctz w x * (2 * q + 1) ∧ 0 ≤ q.
Proof. destruct x; try lia. intros _. apply ctz_pos_spec. Qed.

(** Every power of two up to the count divides the number. *)
Lemma ctz_divide w x k : 0 ≤ x → 0 ≤ k ≤ ctz w x → (2 ^ k | x).
Proof.
  intros Hx Hk. destruct (decide (x = 0)) as [->|]; [apply Z.divide_0_r|].
  destruct (ctz_spec w x) as (q & Hq & _); [lia|]. rewrite Hq.
  apply Z.divide_mul_l.
  replace (ctz w x) with (k + (ctz w x - k)) by lia.
  rewrite Z.pow_add_r by lia. apply Z.divide_factor_l.
Qed.

Lemma pow2_divide_odd a b q : 0 ≤ b → (2 ^ a | 2 ^ b * (2 * q + 1)) → a ≤ b.
Proof.
  intros Hb Hd. destruct (Z.le_gt_cases a b) as [|Hlt]; [done|exfalso].
  destruct Hd as [c Hc].
  replace a with (b + (1 + (a - b - 1))) in Hc by lia.
  rewrite !Z.pow_add_r in Hc by lia. change (2 ^ 1) with 2 in Hc.
  assert (0 < 2 ^ b) by (apply Z.pow_pos_nonneg; lia).
  assert (2 * q + 1 = 2 * (c * 2 ^ (a - b - 1))) by nia. lia.
Qed.

(** The count is the largest such power. *)
Lemma divide_ctz w x k : 0 < x → 0 ≤ k → (2 ^ k | x) → k ≤ ctz w x.
Proof.
  intros Hx Hk Hd. destruct (ctz_spec w x Hx) as (q & Hq & _).
  rewrite Hq in Hd. eapply pow2_divide_odd; [|done]. by apply ctz_nonneg_pos.
Qed.

Lemma ctz_pow2 w k : 0 ≤ k → ctz w (2 ^ k) = k.
Proof.
  intros Hk. assert (0 < 2 ^ k) by (apply Z.pow_pos_nonneg; lia).
  destruct (ctz_spec w (2 ^ k)) as (q & Hq & Hq0); [done|].
  assert (Hn := ctz_nonneg_pos w (2 ^ k) ltac:(done)).
  assert (k ≤ ctz w (2 ^ k)) by (apply divide_ctz; auto; apply Z.divide_refl).
  assert (ctz w (2 ^ k) ≤ k); [|lia].
  apply (Z.pow_le_mono_r_iff 2); lia.
Qed.

Lemma ctz_lt_log2 w x : 0 < x → ctz w x ≤ Z.log2 x.
Proof.
  intros Hx. destruct (ctz_spec w x Hx) as (q & Hq & Hq0).
  apply Z.log2_le_pow2; [done|].
  assert (0 < 2 ^ ctz w x).
  { apply Z.pow_pos_nonneg; [lia|]. by apply ctz_nonneg_pos. }
  nia.
Qed.

(** *** Population counts

    [bsum f n] is the number of positions below [n] that satisfy [f]. *)
Fixpoint bsum (f : Z → bool) (n : nat) : Z :=
  match n with O => 0 | S n => bsum f n + Z.b2z (f (Z.of_nat n)) end.

Lemma bsum_ext f g n : (∀ i, 0 ≤ i < Z.of_nat n → f i = g i) → bsum f n = bsum g n.
Proof.
  induction n as [|n IH]; intros H; simpl; [done|].
  rewrite IH by (intros; apply H; lia). by rewrite H by lia.
Qed.

Lemma bsum_bounds f n : 0 ≤ bsum f n ≤ Z.of_nat n.
Proof. induction n as [|n IH]; simpl; [lia|]. destruct (f _); simpl; lia. Qed.

Lemma bsum_shift f n :
  bsum f (S n) = Z.b2z (f 0) + bsum (λ i, f (i + 1)) n.
Proof.
  induction n as [|n IH]; [cbn [bsum]; change (Z.of_nat 0) with 0; lia|].
  change (bsum f (S (S n))) with (bsum f (S n) + Z.b2z (f (Z.of_nat (S n)))).
  rewrite IH. change (bsum (λ i, f (i + 1)) (S n))
    with (bsum (λ i, f (i + 1)) n + Z.b2z (f (Z.of_nat n + 1))).
  replace (Z.of_nat (S n)) with (Z.of_nat n + 1) by lia. lia.
Qed.

Lemma bsum_add f a b :
  bsum f (a + b) = bsum f a + bsum (λ i, f (i + Z.of_nat a)) b.
Proof.
  induction b as [|b IH]; [rewrite Nat.add_0_r; simpl; lia|].
  rewrite Nat.add_succ_r. cbn [bsum]. rewrite IH.
  replace (Z.of_nat (a + b)) with (Z.of_nat b + Z.of_nat a) by lia. lia.
Qed.

Lemma bsum_le f a b : (a ≤ b)%nat → bsum f a ≤ bsum f b.
Proof.
  intros H. replace b with (a + (b - a))%nat by lia. rewrite bsum_add.
  pose proof (bsum_bounds (λ i, f (i + Z.of_nat a)) (b - a)). lia.
Qed.

Lemma bsum_lt f a b : (a < b)%nat → f (Z.of_nat a) = true → bsum f a < bsum f b.
Proof.
  intros H Hf. pose proof (bsum_le f (S a) b ltac:(lia)) as Hle.
  cbn [bsum] in Hle. rewrite Hf in Hle. simpl in Hle. lia.
Qed.

Lemma bsum_false f n : (∀ i, 0 ≤ i < Z.of_nat n → f i = false) → bsum f n = 0.
Proof.
  intros H. rewrite (bsum_ext f (λ _, false)) by done.
  clear H. induction n; simpl; lia.
Qed.

Lemma popcount_div2 x : 0 ≤ x → popcount x = Z.b2z (Z.testbit x 0) + popcount (x / 2).
Proof.
  intros Hx. destruct x as [|[p|p|]|]; try lia; try done; cbn [popcount popcount_pos].
  - replace (Zpos (xI p) / 2) with (Zpos p); [reflexivity|].
    rewrite Pos2Z.inj_xI. rewrite Z.mul_comm, Z.div_add_l by lia.
    change (1 / 2) with 0. lia.
  - replace (Zpos (xO p) / 2) with (Zpos p); [reflexivity|].
    rewrite Pos2Z.inj_xO, Z.mul_comm. by rewrite Z.div_mul by lia.
Qed.

Lemma popcount_bsum n x : 0 ≤ x < 2 ^ Z.of_nat n → popcount x = bsum (Z.testbit x) n.
Proof.
  revert x. induction n as [|n IH]; intros x Hx.
  - assert (x = 0) as -> by (simpl in Hx; lia). done.
  - rewrite bsum_shift, popcount_div2 by lia. f_equal.
    rewrite (IH (x / 2)).
    + apply bsum_ext. intros i Hi. change 2 with (2 ^ 1).
      rewrite Z.div_pow2_bits by lia. done.
    + rewrite Nat2Z.inj_succ, Z.pow_succ_r in Hx by lia.
      split; [apply Z.div_pos; lia|]. apply Z.div_lt_upper_bound; lia.
Qed.

(** The count of the set bits below [i], as the node code computes it with a
    mask. *)
Lemma popcount_mask m i :
  0 ≤ m → 0 ≤ i → popcount (Z.land m (2 ^ i - 1)) = bsum (Z.testbit m) (Z.to_nat i).
Proof.
  intros Hm Hi. replace (2 ^ i - 1) with (Z.ones i) by (rewrite Z.ones_equiv; lia).
  rewrite Z.land_ones by done.
  rewrite (popcount_bsum (Z.to_nat i)).
  - apply bsum_ext. intros j Hj. rewrite Z.mod_pow2_bits_low by lia. done.
  - rewrite Z2Nat.id by done. apply Z.mod_pos_bound. apply Z.pow_pos_nonneg; lia.
Qed.

Lemma bsum_filter f n : bsum f n = zlen (filter (λ i, Is_true (f i)) (seqZ 0 (Z.of_nat n))).
Proof.
  unfold zlen. induction n as [|n IH]; [done|]. cbn [bsum].
  rewrite IH, Nat2Z.inj_succ, <- Z.add_1_r, seqZ_app, filter_app, length_app, Nat2Z.inj_add by lia.
  change (seqZ (0 + Z.of_nat n) 1) with [0 + Z.of_nat n]. rewrite Z.add_0_l. f_equal.
  destruct (f (Z.of_nat n)) eqn:E.
  - by rewrite filter_cons_True by (by rewrite E).
  - by rewrite filter_cons_False by (rewrite E; intros []).
Qed.

Lemma pow2_pos k : 0 ≤ k → 0 < 2 ^ k.
Proof. intros. apply Z.pow_pos_nonneg; lia. Qed.

(** ** Index ranges and array access *)
Lemma seqZ_split lo n pre x post :
  seqZ lo n = pre ++ x :: post → x = lo + zlen pre ∧ lo ≤ x < lo + n.
Proof.
  intros H. assert (Hl : seqZ lo n !! length pre = Some x).
  { rewrite H. by apply list_lookup_middle. }
  apply lookup_seqZ in Hl as [-> Hl]. unfold zlen. lia.
Qed.

Lemma aget_lookup {A} (l : list A) i x :
  0 ≤ i → l !! Z.to_nat i = Some x → aget l i = Ok x.
Proof. intros Hi Hx. unfold aget. rewrite bool_decide_true by done. by rewrite Hx. Qed.

Lemma aget_Ok {A} (l : list A) i x :
  aget l i = Ok x ↔ 0 ≤ i ∧ l !! Z.to_nat i = Some x.
Proof.
  unfold aget. case_bool_decide; [|naive_solver lia].
  destruct (l !! Z.to_nat i); naive_solver.
Qed.

Lemma aset_in {A} (l : list A) i x :
  0 ≤ i < zlen l → aset l i x = Ok (<[Z.to_nat i := x]> l).
Proof. intros. unfold aset. by rewrite bool_decide_true. Qed.

Lemma aset_Ok {A} (l l' : list A) i x :
  aset l i x = Ok l' ↔ 0 ≤ i < zlen l ∧ l' = <[Z.to_nat i := x]> l.
Proof. unfold aset, zlen. case_bool_decide; naive_solver. Qed.

Lemma zlen_app {A} (l k : list A) : zlen (l ++ k) = zlen l + zlen k.
Proof. unfold zlen. rewrite length_app. lia. Qed.

Lemma zlen_nonneg {A} (l : list A) : 0 ≤ zlen l.
Proof. unfold zlen. lia. Qed.

Lemma zlen_insert {A} i (x : A) l : zlen (<[i := x]> l) = zlen l.
Proof. unfold zlen. by rewrite length_insert. Qed.
Lemma anth_insert_eq {A} `{Inhabited A} (l : list A) d x :
  0 ≤ d < zlen l → anth (<[Z.to_nat d := x]> l) d = x.
Proof. intros Hd. unfold anth, zlen in *. apply list_lookup_total_insert_eq. lia. Qed.
Lemma anth_insert_ne {A} `{Inhabited A} (l : list A) d d' x :
  0 ≤ d → 0 ≤ d' → d' ≠ d → anth (<[Z.to_nat d := x]> l) d' = anth l d'.
Proof. intros. unfold anth. apply list_lookup_total_insert_ne. lia. Qed.
Lemma anth_in {A} `{Inhabited A} (l : list A) i : 0 ≤ i < zlen l → aget l i = Ok (anth l i).
Proof. intros Hi. apply aget_lookup; [lia|]. unfold zlen in Hi. apply list_lookup_lookup_total_lt. lia. Qed.

(** Writing the cell just behind a prefix of the array. *)
Lemma take_insert_snoc {A} (l : list A) n x :
  (n < length l)%nat → take (S n) (<[n := x]> l) = take n l ++ [x].
Proof.
  intros Hn. apply list_eq. intros i.
  destruct (decide (i < n)%nat).
  - rewrite lookup_take_lt by lia. rewrite list_lookup_insert_ne by lia.
    rewrite lookup_app_l by (rewrite length_take; lia). by rewrite lookup_take_lt by lia.
  - destruct (decide (i = n)) as [->|].
    + rewrite lookup_take_lt by lia. rewrite list_lookup_insert_eq by lia.
      rewrite lookup_app_r by (rewrite length_take; lia).
      rewrite length_take, Nat.min_l by lia. by rewrite Nat.sub_diag.
    + rewrite !lookup_ge_None_2; [done|..];
        rewrite ?length_app, ?length_take, ?length_insert; cbn [length]; lia.
Qed.

Lemma take_S_snoc {A} (l : list A) n x :
  l !! n = Some x → take (S n) l = take n l ++ [x].
Proof. apply take_S_r. Qed.

(** Arrays indexed by a [size_t], which never goes negative. *)
Definition nget {A} (l : list A) (i : nat) : res A :=
  match l !! i with Some x => Ok x | None => Err EOob end.
Definition nset {A} (l : list A) (i : nat) (x : A) : res (list A) :=
  if bool_decide (i < length l)%nat then Ok (<[i := x]> l) else Err EOob.

Lemma nget_Ok {A} (l : list A) i x : l !! i = Some x → nget l i = Ok x.
Proof. unfold nget. by intros ->. Qed.
Lemma nset_Ok {A} (l : list A) i x : (i < length l)%nat → nset l i x = Ok (<[i := x]> l).
Proof. intros. unfold nset. by rewrite bool_decide_true. Qed.

(** ** More on loops *)
Lemma mfold_fmap {A B S} (f : B → S → res S) (g : A → B) l s :
  mfold f (g <$> l) s = mfold (λ a, f (g a)) l s.
Proof. revert s. induction l as [|a l IH]; intros s; simpl; [done|]. destruct (f (g a) s); simpl; auto. Qed.

Lemma mfor_shift {S} lo n (f : Z → S → res S) s :
  mfor 0 n (λ k, f (lo + k)) s = mfold f (seqZ lo n) s.
Proof.
  unfold mfor. rewrite <- (mfold_fmap f (Z.add lo)), fmap_add_seqZ.
  by replace (n - 0) with n by lia; rewrite Z.add_0_r.
Qed.

(** A loop over the indices of an array that only reads the cell at its index is
    a loop over the cells. *)
Lemma mfor_cells {A T} (l : list A) n (f : A → T → res T) s :
  0 ≤ n ≤ zlen l →
  mfor 0 n (λ i s, x ← aget l i; f x s) s = mfold f (take (Z.to_nat n) l) s.
Proof.
  intros Hn. unfold mfor, zlen in *. rewrite Z.sub_0_r. revert s.
  assert (Hgen : ∀ (m : nat) k s, (Z.to_nat k + m ≤ length l)%nat → 0 ≤ k →
    mfold (λ i s, x ← aget l i; f x s) (seqZ k (Z.of_nat m)) s = mfold f (take m (drop (Z.to_nat k) l)) s).
  { induction m as [|m IH]; intros k s Hm Hk; [done|].
    rewrite seqZ_cons by lia. destruct (lookup_lt_is_Some_2 l (Z.to_nat k)) as [x Hx]; [lia|].
    rewrite (drop_S l x _ Hx). cbn [mfold take].
    rewrite (aget_lookup l k x) by (lia || done). cbn [mbind res_bind].
    destruct (f x s); cbn [mbind res_bind]; [|done].
    replace (Z.pred (Z.of_nat (S m))) with (Z.of_nat m) by lia.
    rewrite IH by lia. by replace (Z.to_nat (Z.succ k)) with (S (Z.to_nat k)) by lia. }
  intros s. specialize (Hgen (Z.to_nat n) 0 s). rewrite drop_0 in Hgen.
  rewrite <- Hgen by lia. by rewrite Z2Nat.id by lia.
Qed.

(** Invariant rule for [for_]. *)
Lemma for_inv {S} (P : Z → S → Prop) lo hi f (s : S) :
  lo ≤ hi → P lo s → (∀ i s, lo ≤ i < hi → P i s → P (i + 1) (f i s)) → P hi (for_ lo hi f s).
Proof.
  intros Hlh H0 Hstep. unfold for_. replace hi with (lo + (hi - lo)) at 1 by lia.
  assert (Hgen : ∀ n k s, lo ≤ k → k + Z.of_nat n ≤ hi → P k s →
    P (k + Z.of_nat n) (foldl (λ s i, f i s) s (seqZ k (Z.of_nat n)))).
  { induction n as [|n IH]; intros k s' Hk Hn Hp; [by rewrite Z.add_0_r|].
    rewrite seqZ_cons by lia. cbn [foldl].
    replace (k + Z.of_nat (Datatypes.S n)) with (Z.succ k + Z.of_nat n) by lia.
    replace (Z.pred (Z.of_nat (Datatypes.S n))) with (Z.of_nat n) by lia.
    apply IH; [lia|lia|]. rewrite <- Z.add_1_r. apply Hstep; [lia|done]. }
  specialize (Hgen (Z.to_nat (hi - lo)) lo s). rewrite Z2Nat.id in Hgen by lia. apply Hgen; lia || done.
Qed.

(** The bits of [m] from [i] on, as the loops over a bitmap see them. *)
Lemma lxor_low_ctz w m i :
  0 ≤ m → 0 ≤ i → Z.testbit m i = true →
  Z.lxor m (m mod 2 ^ i) ≠ 0 ∧ ctz w (Z.lxor m (m mod 2 ^ i)) = i.
Proof.
  intros Hm Hi Hb.
  assert (Hx : Z.lxor m (m mod 2 ^ i) = 2 ^ i * (2 * (m / 2 ^ (i + 1)) + 1)).
  { apply Z.bits_inj'. intros j Hj. rewrite Z.lxor_spec.
    rewrite (Z.mul_comm (2 ^ i)), <- Z.shiftl_mul_pow2 by done. rewrite Z.shiftl_spec by done.
    destruct (decide (j < i)) as [Hlt|Hge].
    - rewrite Z.mod_pow2_bits_low, xorb_nilpotent by done. by rewrite Z.testbit_neg_r by lia.
    - rewrite Z.mod_pow2_bits_high, xorb_false_r by lia.
      destruct (decide (j = i)) as [->|Hne].
      + rewrite Z.sub_diag, Hb. by rewrite Z.testbit_odd_0.
      + replace (j - i) with (Z.succ (j - i - 1)) by lia. rewrite Z.testbit_odd_succ by lia.
        rewrite Z.div_pow2_bits by lia. f_equal. lia. }
  pose proof (pow2_pos i Hi). pose proof (Z.div_pos m (2 ^ (i + 1)) Hm (pow2_pos (i + 1) ltac:(lia))).
  rewrite Hx. split; [nia|]. set (q := m / 2 ^ (i + 1)) in *.
  assert (i ≤ ctz w (2 ^ i * (2 * q + 1))).
  { apply divide_ctz; [nia|done|]. apply Z.divide_factor_l. }
  assert (ctz w (2 ^ i * (2 * q + 1)) ≤ i); [|lia].
  apply (pow2_divide_odd _ _ q); [done|]. apply (ctz_divide w); [nia|]. lia.
Qed.

Lemma filter_ext_in {A} (P Q : A → Prop) `{∀ x, Decision (P x), ∀ x, Decision (Q x)} (l : list A) :
  (∀ x, x ∈ l → P x ↔ Q x) → filter P l = filter Q l.
Proof.
  induction l as [|x l IH]; intros Hpq; [done|]. rewrite !filter_cons.
  rewrite IH by (intros; apply Hpq; by right). pose proof (Hpq x ltac:(left)).
  repeat case_decide; tauto || done.
Qed.

Lemma filter_fmap {A B} (f : A → B) (P : B → Prop) `{∀ x, Decision (P x)} (l : list A) :
  filter P (f <$> l) = f <$> filter (λ a, P (f a)) l.
Proof.
  induction l as [|x l IH]; [done|]. rewrite fmap_cons, !filter_cons, IH. by case_decide.
Qed.

Lemma filter_all {A} (P : A → Prop) `{∀ x, Decision (P x)} (l : list A) :
  (∀ x, x ∈ l → P x) → filter P l = l.
Proof.
  induction l as [|x l IH]; intros Hp; [done|]. rewrite filter_cons_True by (apply Hp; left).
  f_equal. apply IH. intros y Hy. apply Hp. by right.
Qed.

Lemma filter_none {A} (P : A → Prop) `{∀ x, Decision (P x)} (l : list A) :
  (∀ x, x ∈ l → ¬ P x) → filter P l = [].
Proof.
  induction l as [|x l IH]; intros Hp; [done|]. rewrite filter_cons_False by (apply Hp; left).
  apply IH. intros y Hy. apply Hp. by right.
Qed.

(** ** Automation *)

(** Case analysis on the comparisons of a boolean goal. *)
Ltac zbool :=
  repeat match goal with
  | |- context [?a <? ?b] => destruct (Z.ltb_spec a b)
  | |- context [?a <=? ?b] => destruct (Z.leb_spec a b)
  | |- context [?a =? ?b] => destruct (Z.eqb_spec a b)
  end; simpl; try done; try (exfalso; lia).

(** Sizes of arrays: [autorewrite with sizes] computes them, [eauto with sizes]
    proves that they are not negative. *)
Create HintDb sizes.
#[export] Hint Resolve zlen_nonneg pow2_pos ctz_nonneg : sizes.
#[export] Hint Rewrite @zlen_app @zlen_insert @length_app @length_insert @length_take @length_drop : sizes.
Ltac sizes := autorewrite with sizes in *; cbn [length] in *; unfold zlen in *; lia.

(** Steps of the result monad that succeed. *)
Create HintDb steps.
#[export] Hint Rewrite @bind_ret : steps.

(** A computation that is a sequence of steps succeeded: every step did. *)
Ltac res_inv :=
  repeat match goal with
  | H : _ ≫= _ = Ok _ |- _ => apply bind_Ok in H as (? & ? & ?)
  | H : Ok _ = Ok _ |- _ => injection H as H
  | H : Err _ = Ok _ |- _ => discriminate H
  | H : (let '(_, _) := ?p in _) = Ok _ |- _ => destruct p
  end; simplify_eq.

(** [forallb] over an index range. *)
Lemma forallb_seqZ (P : Z → bool) n : forallb P (seqZ 0 n) = true → ∀ i, 0 ≤ i < n → P i = true.
Proof.
  intros Hf i Hi. rewrite forallb_forall in Hf. apply Hf, list_elem_of_In, elem_of_seqZ. lia.
Qed.

(** ** Cells and loops

    A write described by the reads behind it, and the invariant rule of a counting loop. *)
Lemma aset_spec {A} (l : list A) i x : 0 ≤ i < zlen l →
  ∃ l', aset l i x = Ok l' ∧ zlen l' = zlen l ∧ aget l' i = Ok x ∧ ∀ q, q ≠ i → aget l' q = aget l q.
Proof.
  intros Hi. exists (<[Z.to_nat i := x]> l). rewrite aset_in by done. split; [done|]. split; [by rewrite zlen_insert|]. split.
  - apply aget_lookup; [lia|]. apply list_lookup_insert_eq. unfold zlen in Hi. lia.
  - intros q Hq. unfold aget. case_bool_decide; [|done]. by rewrite list_lookup_insert_ne by lia.
Qed.

Lemma mfor_rule {S} (P : Z → S → Prop) lo hi (f : Z → S → res S) s :
  lo ≤ hi → P lo s → (∀ i s, lo ≤ i < hi → P i s → ∃ s', f i s = Ok s' ∧ P (i + 1) s') →
  ∃ s', mfor lo hi f s = Ok s' ∧ P hi s'.
Proof.
  intros Hle H0 Hstep. unfold mfor.
  destruct (mfold_inv (λ pre s, P (lo + zlen pre) s) f (seqZ lo (hi - lo)) s) as (s' & E & Hs).
  - change (zlen []) with 0. by rewrite Z.add_0_r.
  - intros pre i t Ht [rest Hl].
    assert (Hi : seqZ lo (hi - lo) !! length pre = Some i) by (rewrite Hl; by apply list_lookup_middle).
    apply lookup_seqZ in Hi as [Hi Hr]. unfold zlen in *. rewrite length_app. cbn [length].
    destruct (Hstep i t) as (t' & Hf & Ht'); [lia|by rewrite Hi|]. exists t'. split; [done|].
    by replace (lo + Z.of_nat (length pre + 1)) with (i + 1) by lia.
  - exists s'. split; [done|]. unfold zlen in Hs. rewrite length_seqZ in Hs.
    by replace (lo + Z.of_nat (Z.to_nat (hi - lo))) with hi in Hs by lia.
Qed.

Lemma aget_in {A} (l : list A) i : 0 ≤ i < zlen l → ∃ x, aget l i = Ok x.
Proof.
  intros Hi. unfold zlen in Hi. destruct (lookup_lt_is_Some_2 l (Z.to_nat i)) as [x Hx]; [lia|]. exists x. apply aget_lookup; [lia|done].
Qed.
