(* ===== verification/Rule.v ===== *)
(** * Rules, rule sets, ranges and prefixes

    The data of [rule.h] and [param.h] and the operations of [rule.c], with the
    rule comparisons of [utils.c].  A rule set is modelled with its allocated
    array, so that an index past the allocation is visible; the allocator of
    [mem.c] is an interface that says which requests succeed. *)
From S2P Require Import Prelude.
#[local] Open Scope Z_scope.

(** ** Data *)
Definition DIM : Z := 5.
Definition BUCKETSIZE : Z := 16.

(** [range_t *]: a pair of bounds. *)
Definition range_t : Type := Z * Z.

Record rule_t := mk_rule { pri : Z; range : list range_t }.

Record rule_set_t := mk_rs { num : Z; cap : Z; ruleList : list rule_t }.

Record flow := mk_flow { key : list Z }.

#[global] Instance rule_inhabited : Inhabited rule_t := populate (mk_rule 0 (replicate 5 (0, 0))).
#[global] Instance rule_eq_dec : EqDecision rule_t.
Proof. solve_decision. Defined.

(** [calloc]ed rule. *)
Definition zero_rule : rule_t := mk_rule 0 (replicate 5 (0, 0)).

(** [r->range[dim]] *)
Definition rng (r : rule_t) (dim : Z) : range_t := anth (range r) dim.

(** [r->range[dim][0] = lo; r->range[dim][1] = hi] *)
Definition set_rng (r : rule_t) (dim : Z) (b : range_t) : rule_t :=
  mk_rule (pri r) (<[Z.to_nat dim := b]> (range r)).

(** The rules in use: the first [num] cells. *)
Definition live (rs : rule_set_t) : list rule_t := take (Z.to_nat (num rs)) (ruleList rs).

(** ** Allocation (mem.c)

    The [bc_*] functions are weak symbols: a user may override them.  What a
    client can rely on is whether a request of a number of bytes succeeds. *)
Class Allocator := alloc_ok : Z → bool.

(** The machine never runs out of memory. *)
Class AllocTotal `{Allocator} : Prop := alloc_total : ∀ n, alloc_ok n = true.

Definition sizeof_rule_t : Z := 44.

Section rules.
Context `{Allocator}.

Definition bc_calloc {A} (cnt size : Z) (zero : A) : option (list A) :=
  if alloc_ok (cnt * size) then Some (replicate (Z.to_nat cnt) zero) else None.

(** ** Rule sets (rule.c) *)
Definition rule_set_init (ruleset : rule_set_t) (n : Z) : rule_set_t * Z :=
  match bc_calloc n sizeof_rule_t zero_rule with
  | None => (mk_rs (num ruleset) (cap ruleset) [], -1)
  | Some l => (mk_rs 0 n l, 0)
  end.

Definition rule_set_free (ruleset : rule_set_t) : rule_set_t := mk_rs 0 0 [].

Definition rule_set_copy (dest src : rule_set_t) : rule_set_t * Z :=
  if alloc_ok (num src * sizeof_rule_t)
  then (mk_rs (num src) (num src) (live src), 0)
  else (mk_rs (num dest) (cap dest) [], -1).

End rules.

(** [append_rules] of cut-inl.h *)
Definition append_rules (ruleset : rule_set_t) (r : rule_t) : res rule_set_t :=
  _ ← assert_ (bool_decide (num ruleset < cap ruleset));
  l ← aset (ruleList ruleset) (num ruleset) r;
  Ok (mk_rs (num ruleset + 1) (cap ruleset) l).

(** ** Comparisons (utils.c) *)
Definition _rule_pri_compare (r1 r2 : rule_t) : Z :=
  if pri r1 <? pri r2 then -1 else if pri r2 <? pri r1 then 1 else 0.

(** a contains b *)
Definition rule_contained (a b : rule_t) : bool :=
  let count := for_ 0 DIM (λ i count,
    if ((rng a i).1 <=? (rng b i).1) && ((rng b i).2 <=? (rng a i).2)
    then count + 1 else count) 0 in
  count =? DIM.

