(* ===== verification/Classify.v ===== *)
(** * What classification means, and the linear search

    The abstract specification of the classifier, [classify]: the priority of the
    first rule of a list that matches a packet header.  [lsearch] of cut.c, the
    linear search of a leaf, implements it; [rule_contained] of utils.c decides
    when a rule can never be the first match. *)
From S2P Require Import Prelude.
From S2P Require Import Rule.
#[local] Open Scope Z_scope.

(** ** The linear search (cut.c) *)

Definition in_range (k : Z) (b : range_t) : bool := (b.1 <=? k) && (k <=? b.2).

(** The condition of [lsearch], for DIM = 5. *)
Definition lsearch_match (f : flow) (r : rule_t) : bool :=
  in_range (anth (key f) 0) (rng r 0) && in_range (anth (key f) 1) (rng r 1) &&
  in_range (anth (key f) 2) (rng r 2) && in_range (anth (key f) 3) (rng r 3) &&
  in_range (anth (key f) 4) (rng r 4).

(** Reads the cells 0 .. num-1; the result is an [int]. *)
Fixpoint lsearch_loop (l : list rule_t) (f : flow) (i : Z) (n : nat) : res Z :=
  match n with
  | O => Ok (-1)
  | S n =>
    r ← aget l i;
    if lsearch_match f r then Ok (s32 (pri r)) else lsearch_loop l f (i + 1) n
  end.
Definition lsearch (ruleset : rule_set_t) (f : flow) : res Z :=
  lsearch_loop (ruleList ruleset) f 0 (Z.to_nat (num ruleset)).

(** ** The specification *)
Definition matches (f : flow) (r : rule_t) : Prop :=
  ∀ d, 0 ≤ d < DIM → (rng r d).1 ≤ anth (key f) d ≤ (rng r d).2.

Fixpoint classify (l : list rule_t) (f : flow) : option Z :=
  match l with
  | [] => None
  | r :: l => if lsearch_match f r then Some (pri r) else classify l f
  end.

Lemma in_range_spec k b : in_range k b = true ↔ b.1 ≤ k ≤ b.2.
Proof. unfold in_range. rewrite andb_true_iff, !Z.leb_le. done. Qed.

Lemma lsearch_match_spec f r : lsearch_match f r = true ↔ matches f r.
Proof.
  unfold lsearch_match, matches, DIM. rewrite !andb_true_iff, !in_range_spec. split.
  - intros ((((H0 & H1) & H2) & H3) & H4) d Hd.
    assert (d = 0 ∨ d = 1 ∨ d = 2 ∨ d = 3 ∨ d = 4) as [->|[->|[->|[->| ->]]]] by lia; done.
  - intros H. repeat split; apply H; lia.
Qed.

(** The answer of the search as the specification's answer. *)
Definition answer (o : option Z) : Z := match o with Some p => s32 p | None => -1 end.

Lemma lsearch_loop_spec l f i n :
  0 ≤ i → (Z.to_nat i + n ≤ length l)%nat →
  lsearch_loop l f i n = Ok (answer (classify (take n (drop (Z.to_nat i) l)) f)).
Proof.
  revert i. induction n as [|n IH]; intros i Hi Hl; simpl; [done|].
  destruct (lookup_lt_is_Some_2 l (Z.to_nat i)) as [r Hr]; [lia|].
  rewrite (aget_lookup l i r) by done. simpl.
  rewrite (drop_S l r _ Hr). simpl. destruct (lsearch_match f r); [done|].
  rewrite IH by lia. by replace (Z.to_nat (i + 1)) with (S (Z.to_nat i)) by lia.
Qed.

(** A rule set is well formed when its rules are inside the allocation. *)
Definition rs_ok (rs : rule_set_t) : Prop := 0 ≤ num rs ≤ cap rs ∧ zlen (ruleList rs) = cap rs.

Lemma live_length rs : rs_ok rs → zlen (live rs) = num rs.
Proof. intros [? Hl]. unfold live, zlen in *. rewrite length_take. lia. Qed.

Lemma lsearch_spec rs f : rs_ok rs → lsearch rs f = Ok (answer (classify (live rs) f)).
Proof.
  intros [Hn Hl]. unfold lsearch, zlen in *. rewrite lsearch_loop_spec by lia. done.
Qed.

(** ** Algebra of [classify] *)
Lemma classify_app l k f :
  classify (l ++ k) f = match classify l f with Some p => Some p | None => classify k f end.
Proof. induction l as [|r l IH]; simpl; [done|]. by destruct (lsearch_match f r). Qed.

Lemma classify_None l f : classify l f = None ↔ ∀ r, r ∈ l → lsearch_match f r = false.
Proof.
  induction l as [|r l IH]; simpl; [set_solver|].
  destruct (lsearch_match f r) eqn:E; [split; [done|]|].
  - intros H. rewrite H in E; [done|left].
  - rewrite IH. set_solver.
Qed.

(** Rules may be replaced one by one by lists that give the same answer: this is
    how a cut changes the rules of a node into those of a child. *)
Lemma classify_concat l (g : rule_t → list rule_t) f f' :
  (∀ r, r ∈ l → classify (g r) f' = if lsearch_match f r then Some (pri r) else None) →
  classify (concat (g <$> l)) f' = classify l f.
Proof.
  induction l as [|r l IH]; intros Hg; simpl; [done|].
  rewrite classify_app, (Hg r) by left. destruct (lsearch_match f r); [done|].
  apply IH. intros r' Hr'. apply Hg. by right.
Qed.

(** All the rules of a list have the same priority and one of them matches. *)
Lemma classify_const l f p :
  (∀ r, r ∈ l → pri r = p) →
  classify l f = if existsb (lsearch_match f) l then Some p else None.
Proof.
  induction l as [|r l IH]; intros Hp; simpl; [done|].
  destruct (lsearch_match f r); simpl; [by rewrite Hp by left|].
  apply IH. intros r' Hr'. apply Hp. by right.
Qed.

(** ** Containment *)
Lemma rule_contained_spec a b :
  rule_contained a b = true ↔
  ∀ d, 0 ≤ d < DIM → (rng a d).1 ≤ (rng b d).1 ∧ (rng b d).2 ≤ (rng a d).2.
Proof.
  unfold rule_contained, for_, DIM. rewrite Z.sub_0_r. change (seqZ 0 5) with [0; 1; 2; 3; 4].
  cbn [foldl].
  assert (Hc : ∀ d, ((rng a d).1 <=? (rng b d).1) && ((rng b d).2 <=? (rng a d).2) = true ↔
    (rng a d).1 ≤ (rng b d).1 ∧ (rng b d).2 ≤ (rng a d).2)
    by (intros d; by rewrite andb_true_iff, !Z.leb_le).
  split.
  - intros Hcount d Hd. apply Hc. revert Hcount.
    assert (d = 0 ∨ d = 1 ∨ d = 2 ∨ d = 3 ∨ d = 4) as [->|[->|[->|[->| ->]]]] by lia;
      repeat match goal with |- context [if ?b then _ else _] => destruct b end; done.
  - intros H. by rewrite !(proj2 (Hc _)) by (apply H; lia).
Qed.

Lemma rule_contained_matches a b f :
  rule_contained a b = true → lsearch_match f b = true → lsearch_match f a = true.
Proof.
  rewrite rule_contained_spec, !lsearch_match_spec. intros Hc Hm d Hd.
  specialize (Hc d Hd). specialize (Hm d Hd). lia.
Qed.

(** ** Properties *)

(** C9: the linear search of a well-formed rule set stays inside the array and
    returns the priority of the first matching rule, or -1 when none matches. *)
Theorem lsearch_refines_classify rs f :
  rs_ok rs →
  lsearch rs f = Ok (match classify (live rs) f with Some p => s32 p | None => -1 end) ∧
  (classify (live rs) f = None ↔ ∀ r, r ∈ live rs → ¬ matches f r).
Proof.
  intros Hok. split; [by apply lsearch_spec|]. rewrite classify_None.
  setoid_rewrite <- lsearch_match_spec. split; intros H r Hr; specialize (H r Hr);
    destruct (lsearch_match f r); done.
Qed.

Lemma lsearch_refines_classify_witness :
  let rs := mk_rs 1 1 [mk_rule 7 [(0, 9); (0, 9); (0, 9); (0, 9); (3, 3)]] in
  let f := mk_flow [1; 2; 3; 4; 3] in
  lsearch rs f = Ok (match classify (live rs) f with Some p => s32 p | None => -1 end) ∧
  (classify (live rs) f = None ↔ ∀ r, r ∈ live rs → ¬ matches f r).
Proof. apply lsearch_refines_classify. split; [simpl; lia|done]. Defined.
