(* ===== verification/Prefix.v ===== *)
(** * Ranges as prefixes

    The prefix iterator of [rule.c]: a range is walked as a sequence of aligned
    power-of-two blocks.  The theory shows that the blocks cover the range
    exactly, in order, and that the walk ends. *)
From S2P Require Import Prelude.
From S2P Require Import Rule.
#[local] Open Scope Z_scope.

Record prefix_t := mk_prefix { prefix : Z; len : Z }.

Record prefix_iter_t := mk_iter { it_start : Z; it_end : Z; it__end : Z; it__left : Z }.

(** ** Prefix iteration (rule.c) *)

(** The part [range_to_prefix_iter] and [get_next_prefix_iter] share: choose the
    largest aligned block that fits. *)
Definition iter_block (start _end _left : Z) : prefix_iter_t :=
  if Z.land start 1 =? 0 then
    let left_leap := 63 - clz64 _left in
    let self_leap := ctz 32 start in
    let offset := Z.shiftl 1 (if left_leap <? self_leap then left_leap else self_leap) in
    mk_iter start (u32 (start + u32 (offset - 1))) _end (u64 (_left - offset))
  else mk_iter start start _end (u64 (_left - 1)).

Definition range_to_prefix_iter (r : range_t) : prefix_iter_t :=
  iter_block r.1 r.2 (u64 (r.2 - r.1 + 1)).

Definition is_empty_prefix_iter (iter : prefix_iter_t) : bool := it__left iter =? 0.

Definition get_next_prefix_iter (curr : prefix_iter_t) : prefix_iter_t * Z :=
  if is_empty_prefix_iter curr then (mk_iter 0 0 0 0, 0)
  else (iter_block (u32 (it_end curr + 1)) (it__end curr) (it__left curr), 1).

Definition get_prefix (iter : prefix_iter_t) (bits : Z) : prefix_t :=
  let offset := u32 (it_end iter - it_start iter) in
  if offset =? 0 then mk_prefix (it_start iter) bits
  else mk_prefix (it_start iter) (bits - ctz 64 (offset + 1)).

Definition prefix_to_range (p : prefix_t) (bits : Z) : range_t :=
  (prefix p, u32 (prefix p + (Z.shiftl 1 (bits - len p) - 1))).

Definition range_overlap (r1 r2 : range_t) : Z :=
  if (r2.2 <? r1.1) || (r1.2 <? r2.1) then 0 else 1.

Definition range_to_prefix (r : range_t) (bits : Z) : prefix_t :=
  let offset := u32 (r.2 - r.1) in
  mk_prefix r.1 (bits - ctz 64 (offset + 1)).

(** The loop [iter = range_to_prefix_iter(r); do { body } while (flag)] of the
    clients. *)
Fixpoint prefix_loop {S} (fuel : nat) (body : prefix_iter_t → S → res S)
    (iter : prefix_iter_t) (s : S) : res S :=
  match fuel with
  | O => Err EFuel
  | S fuel =>
    s' ← body iter s;
    let '(iter', flag) := get_next_prefix_iter iter in
    if flag =? 0 then Ok s' else prefix_loop fuel body iter' s'
  end.

(** No range needs more blocks than this (see [prefix_loop_iters]). *)
Definition prefix_fuel : nat := 67.

Definition for_prefixes {S} (r : range_t) (body : prefix_iter_t → S → res S) (s : S) : res S :=
  prefix_loop prefix_fuel body (range_to_prefix_iter r) s.


(** ** Theory *)

(** The values the iterator takes on the way. *)
Fixpoint iters (fuel : nat) (iter : prefix_iter_t) : list prefix_iter_t :=
  match fuel with
  | O => []
  | S fuel =>
    iter :: (if is_empty_prefix_iter iter then []
             else iters fuel (get_next_prefix_iter iter).1)
  end.
Definition prefixes (r : range_t) : list prefix_iter_t :=
  iters prefix_fuel (range_to_prefix_iter r).

(** An aligned block of [2 ^ k] addresses. *)
Definition block (it : prefix_iter_t) (k : Z) : Prop :=
  0 ≤ k ≤ 32 ∧ it_end it = it_start it + 2 ^ k - 1 ∧ (2 ^ k | it_start it) ∧
  0 ≤ it_start it ∧ it_end it < 2 ^ 32.

(** A sequence of blocks that covers [lo, hi] in order and without overlap. *)
Fixpoint covers (lo hi : Z) (its : list prefix_iter_t) : Prop :=
  match its with
  | [] => lo = hi + 1
  | it :: its => it_start it = lo ∧ (∃ k, block it k) ∧ covers (it_end it + 1) hi its
  end.

Lemma odd_ctz w s : 0 < s → Z.land s 1 ≠ 0 → ctz w s = 0.
Proof.
  intros Hs Ho. change 1 with (Z.ones 1) in Ho. rewrite Z.land_ones in Ho by lia.
  change (2 ^ 1) with 2 in Ho. pose proof (ctz_nonneg_pos w s Hs).
  destruct (decide (ctz w s = 0)) as [|Hne]; [done|exfalso].
  apply Ho. apply Z.mod_divide; [lia|]. change 2 with (2 ^ 1).
  apply (ctz_divide w); lia.
Qed.

(** What one step of the iterator does. *)
Lemma iter_block_spec s e lft :
  0 ≤ s → 0 < lft → s + lft ≤ 2 ^ 32 →
  let k := Z.min (Z.log2 lft) (ctz 32 s) in
  iter_block s e lft = mk_iter s (s + 2 ^ k - 1) e (lft - 2 ^ k) ∧
  block (mk_iter s (s + 2 ^ k - 1) e (lft - 2 ^ k)) k ∧ 2 ^ k ≤ lft.
Proof.
  intros Hs Hl Hb k.
  pose proof (Z.log2_spec lft Hl) as [HL1 HL2].
  pose proof (Z.log2_nonneg lft) as HL0.
  pose proof (ctz_nonneg 32 s ltac:(lia)) as Hc.
  assert (HL32 : Z.log2 lft ≤ 32).
  { assert (Z.log2 lft < 33); [|lia]. apply Z.log2_lt_pow2; [done|]. lia. }
  assert (Hk : 0 ≤ k ≤ 32) by (unfold k; lia).
  assert (Hpow : 2 ^ k ≤ lft).
  { transitivity (2 ^ Z.log2 lft); [|done]. apply Z.pow_le_mono_r; unfold k; lia. }
  pose proof (pow2_pos k ltac:(lia)) as Hp.
  assert (Heq : iter_block s e lft = mk_iter s (s + 2 ^ k - 1) e (lft - 2 ^ k)).
  { unfold iter_block. destruct (Z.eqb_spec (Z.land s 1) 0) as [He|Ho].
    - replace (63 - clz64 lft) with (Z.log2 lft) by (unfold clz64; lia).
      replace (if Z.log2 lft <? ctz 32 s then Z.log2 lft else ctz 32 s) with k
        by (unfold k; destruct (Z.ltb_spec (Z.log2 lft) (ctz 32 s)); lia).
      rewrite Z.shiftl_1_l. unfold u32, u64.
      rewrite (Z.mod_small (2 ^ k - 1)) by lia.
      rewrite !Z.mod_small by lia. f_equal; lia.
    - assert (k = 0) as Hk0.
      { unfold k. rewrite odd_ctz; [lia| |done].
        destruct (decide (s = 0)) as [->|]; [done|lia]. }
      rewrite Hk0. simpl (2 ^ 0). unfold u64. rewrite Z.mod_small by lia.
      f_equal; lia. }
  split; [done|]. split; [|done].
  unfold block; simpl. split; [done|]. split; [done|]. split; [|lia].
  apply (ctz_divide 32); unfold k in *; lia.
Qed.

(** The measure that decreases along the walk: first the alignment of the start
    grows, then the size of the rest shrinks. *)
Definition iter_measure (s lft : Z) : Z :=
  if ctz 32 s <=? Z.log2 lft then 66 - ctz 32 s else Z.log2 lft + 1.

Lemma iter_measure_bound s lft :
  0 ≤ s → 0 < lft → s + lft ≤ 2 ^ 32 → iter_measure s lft < Z.of_nat prefix_fuel.
Proof.
  intros Hs Hl Hb. unfold iter_measure, prefix_fuel.
  pose proof (ctz_nonneg 32 s ltac:(lia)).
  assert (Z.log2 lft < 33) by (apply Z.log2_lt_pow2; lia).
  destruct (Z.leb_spec (ctz 32 s) (Z.log2 lft)); lia.
Qed.

Lemma iter_measure_decr s lft :
  0 ≤ s → 0 < lft → s + lft ≤ 2 ^ 32 →
  let k := Z.min (Z.log2 lft) (ctz 32 s) in
  0 < lft - 2 ^ k → iter_measure (s + 2 ^ k) (lft - 2 ^ k) < iter_measure s lft.
Proof.
  intros Hs Hl Hb k Hr.
  pose proof (Z.log2_spec lft Hl) as [HL1 HL2].
  pose proof (Z.log2_nonneg lft) as HL0.
  pose proof (ctz_nonneg 32 s ltac:(lia)) as Hc.
  assert (HLr : Z.log2 (lft - 2 ^ k) < 33) by (apply Z.log2_lt_pow2; [done|]; pose proof (pow2_pos k); lia).
  assert (HL32 : Z.log2 lft < 33) by (apply Z.log2_lt_pow2; lia).
  pose proof (pow2_pos k ltac:(unfold k; lia)) as Hp.
  unfold iter_measure. destruct (Z.leb_spec (ctz 32 s) (Z.log2 lft)) as [Hle|Hlt].
  - replace k with (ctz 32 s) in * by (unfold k; lia).
    destruct (decide (s = 0)) as [->|Hs0].
    { exfalso. change (ctz 32 0) with 32 in *.
      assert (2 ^ 32 ≤ 2 ^ Z.log2 lft) by (apply Z.pow_le_mono_r; lia). lia. }
    assert (Hal : ctz 32 s + 1 ≤ ctz 32 (s + 2 ^ ctz 32 s)).
    { apply divide_ctz; [lia|lia|]. destruct (ctz_spec 32 s) as (q & Hq & _); [lia|].
      set (c := ctz 32 s) in *. exists (q + 1). rewrite Hq.
      rewrite Z.pow_add_r by lia. change (2 ^ 1) with 2. lia. }
    destruct (Z.leb_spec (ctz 32 (s + 2 ^ ctz 32 s)) (Z.log2 (lft - 2 ^ ctz 32 s))); lia.
  - replace k with (Z.log2 lft) in * by (unfold k; lia).
    rewrite Z.pow_succ_r in HL2 by lia.
    assert (HLd : Z.log2 (lft - 2 ^ Z.log2 lft) < Z.log2 lft) by (apply Z.log2_lt_pow2; lia).
    assert (Hal : Z.log2 lft ≤ ctz 32 (s + 2 ^ Z.log2 lft)).
    { apply divide_ctz; [lia|lia|]. apply Z.divide_add_r; [|apply Z.divide_refl].
      apply (ctz_divide 32); lia. }
    destruct (Z.leb_spec (ctz 32 (s + 2 ^ Z.log2 lft)) (Z.log2 (lft - 2 ^ Z.log2 lft))); lia.
Qed.

Lemma iters_walk fuel s e lft :
  0 ≤ s → 0 < lft → e = s + lft - 1 → e < 2 ^ 32 → iter_measure s lft < Z.of_nat fuel →
  covers s e (iters fuel (iter_block s e lft)) ∧
  ∀ S (body : prefix_iter_t → S → res S) st,
    prefix_loop fuel body (iter_block s e lft) st
    = mfold body (iters fuel (iter_block s e lft)) st.
Proof.
  revert s lft. induction fuel as [|fuel IH]; intros s lft Hs Hl -> Hb Hm.
  { exfalso. unfold iter_measure in Hm. pose proof (Z.log2_nonneg lft).
    destruct (Z.leb_spec (ctz 32 s) (Z.log2 lft)); [|lia].
    assert (Z.log2 lft < 33) by (apply Z.log2_lt_pow2; lia). lia. }
  destruct (iter_block_spec s (s + lft - 1) lft) as (Heq & Hblk & Hk); [lia..|].
  set (k := Z.min (Z.log2 lft) (ctz 32 s)) in *.
  rewrite Heq. cbn [iters prefix_loop covers].
  unfold is_empty_prefix_iter, get_next_prefix_iter. cbn [it__left it_end it__end it_start].
  unfold is_empty_prefix_iter. cbn [it__left].
  destruct (Z.eqb_spec (lft - 2 ^ k) 0) as [H0|H0].
  { split; [split; [done|]; split; [eauto|cbn [covers]; lia]|].
    intros S body st. simpl. done. }
  assert (Hstart : u32 (s + 2 ^ k - 1 + 1) = s + 2 ^ k).
  { unfold u32. rewrite Z.mod_small; [lia|]. pose proof (pow2_pos k). lia. }
  rewrite Hstart. cbn [fst].
  destruct (IH (s + 2 ^ k) (lft - 2 ^ k)) as [IHc IHm].
  { pose proof (pow2_pos k). lia. } { lia. } { lia. } { lia. }
  { pose proof (iter_measure_decr s lft). fold k in H. cbv zeta in H. lia. }
  replace (s + 2 ^ k - 1 + 1) with (s + 2 ^ k) by lia.
  split; [split; [done|]; split; [eauto|done]|].
  intros S body st. cbn [mfold]. destruct (body _ st); simpl; [|done]. apply IHm.
Qed.

Definition range_ok (bits : Z) (r : range_t) : Prop := 0 ≤ r.1 ≤ r.2 ∧ r.2 < 2 ^ bits.

Lemma range_ok_32 bits r : bits ≤ 32 → range_ok bits r → range_ok 32 r.
Proof.
  intros Hb [H1 H2]. split; [done|]. eapply Z.lt_le_trans; [done|].
  apply Z.pow_le_mono_r; lia.
Qed.

Lemma range_to_prefix_iter_eq r :
  range_ok 32 r → range_to_prefix_iter r = iter_block r.1 r.2 (r.2 - r.1 + 1).
Proof.
  intros [H1 H2]. unfold range_to_prefix_iter, u64. rewrite Z.mod_small by lia. done.
Qed.

Lemma prefixes_cover r : range_ok 32 r → covers r.1 r.2 (prefixes r).
Proof.
  intros Hr. unfold prefixes. rewrite range_to_prefix_iter_eq by done. destruct Hr.
  apply iters_walk; try lia. apply iter_measure_bound; lia.
Qed.

(** The bound on the loop is never reached: a client's loop over a valid range
    runs its body once for every block. *)
Lemma for_prefixes_mfold {S} r (body : prefix_iter_t → S → res S) s :
  range_ok 32 r → for_prefixes r body s = mfold body (prefixes r) s.
Proof.
  intros Hr. unfold for_prefixes, prefixes. rewrite range_to_prefix_iter_eq by done.
  destruct Hr. apply iters_walk; try lia. apply iter_measure_bound; lia.
Qed.

Lemma covers_elem lo hi its it :
  covers lo hi its → it ∈ its →
  (∃ k, block it k) ∧ lo ≤ it_start it ∧ it_end it ≤ hi.
Proof.
  revert lo. induction its as [|a its IH]; intros lo Hc Hin; [set_solver|].
  destruct Hc as (Hst & [k Hk] & Hc). assert (Hk' := Hk).
  destruct Hk' as (Hk0 & He & _). pose proof (pow2_pos k ltac:(lia)).
  assert (Hhi : it_end a + 1 ≤ hi + 1).
  { clear -Hc. revert Hc. generalize (it_end a + 1). induction its as [|b its IH]; intros l Hc.
    - simpl in Hc. lia.
    - destruct Hc as (Hst & [k (Hk0 & He & _)] & Hc). apply IH in Hc.
      pose proof (pow2_pos k ltac:(lia)). lia. }
  apply elem_of_cons in Hin as [->|Hin]; [split; [eauto|lia]|].
  destruct (IH _ Hc Hin) as (? & ? & ?). split; [done|lia].
Qed.

Lemma covers_in lo hi its x :
  covers lo hi its → lo ≤ x ≤ hi ↔ ∃ it, it ∈ its ∧ it_start it ≤ x ≤ it_end it.
Proof.
  intros Hc. split.
  - revert lo Hc. induction its as [|a its IH]; intros lo Hc Hx; [simpl in Hc; lia|].
    destruct Hc as (Hst & _ & Hc).
    destruct (decide (x ≤ it_end a)); [exists a; set_solver by lia|].
    destruct (IH _ Hc ltac:(lia)) as (it & Hin & ?). exists it. set_solver.
  - intros (it & Hin & Hx). destruct (covers_elem _ _ _ _ Hc Hin) as (_ & ? & ?). lia.
Qed.

(** A block of a range of a [bits]-bit field fits the field. *)
Lemma prefixes_block bits r it :
  bits ≤ 32 → range_ok bits r → it ∈ prefixes r →
  ∃ k, block it k ∧ 0 ≤ k ≤ bits ∧ it_end it < 2 ^ bits.
Proof.
  intros Hb Hr Hin. pose proof (range_ok_32 _ _ Hb Hr) as Hr32.
  destruct (covers_elem _ _ _ _ (prefixes_cover _ Hr32) Hin) as ([k Hk] & Hlo & Hhi).
  exists k. split; [done|]. destruct Hr as [? Hr2]. split; [|lia].
  destruct Hk as (? & He & _ & ? & _). split; [lia|].
  apply (Z.pow_le_mono_r_iff 2); try lia.
  destruct (decide (0 ≤ bits)); [lia|]. rewrite Z.pow_neg_r in * by lia. lia.
Qed.

Lemma get_prefix_block it k bits :
  block it k → get_prefix it bits = mk_prefix (it_start it) (bits - k).
Proof.
  intros (Hk & He & _ & ? & ?). unfold get_prefix. rewrite He.
  pose proof (pow2_pos k ltac:(lia)).
  replace (it_start it + 2 ^ k - 1 - it_start it) with (2 ^ k - 1) by lia.
  unfold u32. rewrite Z.mod_small by lia.
  destruct (Z.eqb_spec (2 ^ k - 1) 0) as [Hz|Hz].
  - assert (k = 0) as ->; [|f_equal; lia].
    destruct (decide (k = 0)); [done|exfalso].
    assert (2 ^ 1 ≤ 2 ^ k) by (apply Z.pow_le_mono_r; lia). lia.
  - replace (2 ^ k - 1 + 1) with (2 ^ k) by lia. rewrite ctz_pow2 by lia. done.
Qed.

Lemma prefix_to_range_block it k bits :
  block it k → prefix_to_range (mk_prefix (it_start it) (bits - k)) bits = (it_start it, it_end it).
Proof.
  intros (Hk & He & _ & ? & ?). unfold prefix_to_range; simpl.
  replace (bits - (bits - k)) with k by lia. rewrite Z.shiftl_1_l.
  unfold u32. rewrite Z.mod_small by (pose proof (pow2_pos k); lia). f_equal; lia.
Qed.

(** ** Properties *)

(** C33: walking a range with the prefix iterator, as the do-while loops of the
    bitmap cut do, visits aligned power-of-two blocks that cover the range
    exactly and in order, and the walk ends within the 67 rounds of the model. *)
Theorem prefix_walk_covers r S (body : prefix_iter_t → S → res S) s :
  range_ok 32 r →
  ∃ its, for_prefixes r body s = mfold body its s ∧ (length its ≤ 67)%nat ∧
         covers r.1 r.2 its ∧ ∀ x, r.1 ≤ x ≤ r.2 ↔ ∃ it, it ∈ its ∧ it_start it ≤ x ≤ it_end it.
Proof.
  intros Hr. exists (prefixes r). pose proof (prefixes_cover r Hr).
  split; [by apply for_prefixes_mfold|]. split; [|auto using covers_in].
  unfold prefixes, prefix_fuel. generalize (range_to_prefix_iter r).
  enough (∀ n it, (length (iters n it) ≤ n)%nat) by auto.
  induction n as [|n IH]; intros it; simpl; [lia|].
  destruct (is_empty_prefix_iter it); simpl; [lia|]. specialize (IH (get_next_prefix_iter it).1). lia.
Qed.

Lemma prefix_walk_covers_witness : range_ok 32 (1, 2 ^ 32 - 2) ∧
  ∃ its, for_prefixes (1, 2 ^ 32 - 2) (λ it n, Ok (n + 1)) 0 = mfold (λ it n, Ok (n + 1)) its 0
    ∧ (length its ≤ 67)%nat ∧ covers 1 (2 ^ 32 - 2) its
    ∧ ∀ x, 1 ≤ x ≤ 2 ^ 32 - 2 ↔ ∃ it, it ∈ its ∧ it_start it ≤ x ≤ it_end it.
Proof. split; [split; simpl; lia|]. apply (prefix_walk_covers (1, 2 ^ 32 - 2)). split; simpl; lia. Defined.

(** round trip.  A block of a range of a field of [bits] bits, read as a
    prefix by [get_prefix], has a length between 0 and [bits], and
    [prefix_to_range] gives back exactly the block; reading that range with
    [range_to_prefix] gives the same prefix. *)
Theorem prefix_range_roundtrip bits r it :
  bits ≤ 32 → range_ok bits r → it ∈ prefixes r →
  let p := get_prefix it bits in
  0 ≤ len p ≤ bits ∧ prefix_to_range p bits = (it_start it, it_end it) ∧
  range_to_prefix (prefix_to_range p bits) bits = p.
Proof.
  intros Hb Hr Hin. destruct (prefixes_block _ _ _ Hb Hr Hin) as (k & Hk & Hkb & _).
  rewrite (get_prefix_block _ _ _ Hk). cbv zeta. cbn [len].
  rewrite (prefix_to_range_block _ _ _ Hk). split; [lia|]. split; [done|].
  unfold range_to_prefix. cbn [fst snd]. destruct Hk as (? & He & _ & ? & ?). rewrite He.
  replace (it_start it + 2 ^ k - 1 - it_start it) with (2 ^ k - 1) by lia.
  pose proof (pow2_pos k ltac:(lia)). unfold u32. rewrite Z.mod_small by lia.
  replace (2 ^ k - 1 + 1) with (2 ^ k) by lia. rewrite ctz_pow2 by lia. done.
Qed.

Lemma prefix_range_roundtrip_witness :
  let p := get_prefix (range_to_prefix_iter (4, 11)) 16 in
  0 ≤ len p ≤ 16 ∧ prefix_to_range p 16 = (4, 7) ∧ range_to_prefix (prefix_to_range p 16) 16 = p.
Proof.
  apply (prefix_range_roundtrip 16 (4, 11) (range_to_prefix_iter (4, 11))).
  - lia.
  - split; simpl; lia.
  - left.
Defined.
