(* ===== verification/Ranges.v ===== *)
(** * One-dimensional ranges with weights

    [struct range1d], its order and [unique_ranges] of [rule.c], as the split and
    the segment cut use them: sort the ranges of the rules in one dimension and
    merge equal neighbours, counting them. *)
From S2P Require Import Prelude.
From S2P Require Import Rule.
#[local] Open Scope Z_scope.

Record range1d := mk_r1 { low : Z; high : Z; weight : Z }.

#[global] Instance range1d_inhabited : Inhabited range1d := populate (mk_r1 0 0 0).
#[global] Instance range1d_eq_dec : EqDecision range1d.
Proof. solve_decision. Defined.

Definition _range_compare (r1 r2 : range1d) : Z :=
  if negb (low r1 =? low r2) then (if low r1 <? low r2 then -1 else 1)
  else if negb (high r1 =? high r2) then (if high r1 <? high r2 then -1 else 1)
  else 0.

(** [qsort(ranges, n, .., _range_compare)]: the C library sorts the first [n]
    cells; which sorted permutation it produces is determined because cells
    that compare equal are equal in the programs below. *)
Definition range_le (a b : range1d) : Prop := _range_compare a b ≤ 0.
#[global] Instance range_le_dec : RelDecision range_le := λ a b, Z_le_dec _ _.
Definition qsort_ranges (l : list range1d) (n : Z) : list range1d :=
  merge_sort range_le (take (Z.to_nat n) l) ++ drop (Z.to_nat n) l.

(** The body of the loop of [unique_ranges]. *)
Definition unique_step (i : Z) '(ranges, unique_num) : res (list range1d * Z) :=
  ri ← aget ranges i;
  ru ← aget ranges (unique_num - 1);
  if negb (low ri =? low ru) || negb (high ri =? high ru) then
    rn ← aget ranges unique_num;
    ranges' ← aset ranges unique_num (mk_r1 (low ri) (high ri) (weight rn));
    Ok (ranges', unique_num + 1)
  else
    ranges' ← aset ranges (unique_num - 1) (mk_r1 (low ru) (high ru) (u32 (weight ru + 1)));
    Ok (ranges', unique_num).

Definition unique_ranges (ranges : list range1d) (n : Z) : res (list range1d * Z) :=
  mfor 1 n unique_step (ranges, 1).

(** ** Theory *)

Definition same_range (a b : range1d) : bool := (low a =? low b) && (high a =? high b).

(** The reference for [unique_ranges]: add a range to the (reversed) list of the
    distinct ranges seen so far. *)
Definition merge_range (acc : list range1d) (r : range1d) : list range1d :=
  match acc with
  | u :: us => if same_range r u then mk_r1 (low u) (high u) (weight u + 1) :: us
               else mk_r1 (low r) (high r) 1 :: acc
  | [] => [mk_r1 (low r) (high r) 1]
  end.
Definition uniq (l : list range1d) : list range1d := reverse (foldl merge_range [] l).

(** Total weight of the ranges that satisfy a predicate on the bounds. *)
Definition wsum (P : Z → Z → bool) (l : list range1d) : Z :=
  foldr (λ r n, (if P (low r) (high r) then weight r else 0) + n) 0 l.

Lemma wsum_app P l k : wsum P (l ++ k) = wsum P l + wsum P k.
Proof. induction l; simpl; lia. Qed.

Lemma wsum_perm P l k : l ≡ₚ k → wsum P l = wsum P k.
Proof. induction 1; simpl; lia. Qed.

Lemma wsum_reverse P l : wsum P (reverse l) = wsum P l.
Proof. apply wsum_perm, reverse_Permutation. Qed.

Lemma wsum_ext P Q l :
  (∀ r, r ∈ l → P (low r) (high r) = Q (low r) (high r)) → wsum P l = wsum Q l.
Proof.
  induction l as [|r l IH]; simpl; intros H; [done|].
  rewrite H by set_solver. rewrite IH; [done|set_solver].
Qed.

Lemma wsum_nonneg P l : Forall (λ r, 0 ≤ weight r) l → 0 ≤ wsum P l.
Proof. induction 1; simpl; [lia|]. destruct (P _ _); lia. Qed.

Lemma wsum_filter P Q l : (* restricting the list or the predicate *)
  wsum P (filter (λ r, Is_true (Q (low r) (high r))) l) = wsum (λ a b, Q a b && P a b) l.
Proof.
  induction l as [|r l IH]; simpl; [done|].
  destruct (Q (low r) (high r)) eqn:E.
  - rewrite filter_cons_True by (rewrite E; done). simpl. rewrite IH. done.
  - rewrite filter_cons_False by (rewrite E; auto). rewrite IH. done.
Qed.

Lemma wsum_add P Q R l :
  (∀ a b, Z.b2z (P a b) = Z.b2z (Q a b) + Z.b2z (R a b)) →
  wsum P l = wsum Q l + wsum R l.
Proof.
  intros H. induction l as [|r l IH]; simpl; [done|].
  specialize (H (low r) (high r)).
  destruct (P _ _), (Q _ _), (R _ _); simpl in H; lia.
Qed.

Lemma merge_range_wsum P acc r :
  wsum P (merge_range acc r) = wsum P acc + (if P (low r) (high r) then 1 else 0).
Proof.
  destruct acc as [|u us]; simpl; [lia|].
  destruct (same_range r u) eqn:E; simpl; [|lia].
  apply andb_true_iff in E as [->%Z.eqb_eq ->%Z.eqb_eq]. destruct (P _ _); lia.
Qed.

(** Merging keeps every count. *)
Lemma uniq_wsum P l : Forall (λ r, weight r = 1) l → wsum P (uniq l) = wsum P l.
Proof.
  intros Hw. unfold uniq. rewrite wsum_reverse.
  enough (∀ acc, wsum P (foldl merge_range acc l) = wsum P acc + wsum P l) as H
    by apply (H []).
  induction Hw as [|r l Hr _ IH]; intros acc; simpl; [lia|].
  rewrite IH, merge_range_wsum, Hr. lia.
Qed.

Lemma uniq_snoc l r : uniq (l ++ [r]) = reverse (merge_range (reverse (uniq l)) r).
Proof. unfold uniq. rewrite foldl_app. simpl. by rewrite reverse_involutive. Qed.

Lemma uniq_length l : (length (uniq l) ≤ length l)%nat.
Proof.
  induction l as [|r l IH] using rev_ind; [done|].
  rewrite uniq_snoc, length_reverse, length_app. simpl.
  unfold merge_range. destruct (reverse (uniq l)) eqn:E; simpl; [lia|].
  apply (f_equal length) in E. rewrite length_reverse in E. simpl in E.
  destruct (same_range _ _); simpl; lia.
Qed.

Lemma uniq_weight_bounds l : Forall (λ r, 1 ≤ weight r ≤ zlen l) (uniq l).
Proof.
  induction l as [|r l IH] using rev_ind; [constructor|].
  rewrite uniq_snoc. rewrite zlen_app. change (zlen [r]) with 1.
  apply Forall_reverse. unfold merge_range.
  pose proof (zlen_nonneg l).
  assert (HR : Forall (λ r, 1 ≤ weight r ≤ zlen l) (reverse (uniq l))) by by apply Forall_reverse.
  destruct (reverse (uniq l)) as [|u us]; [constructor; simpl; [lia|constructor]|].
  apply Forall_cons in HR as [Hu Hus].
  assert (Forall (λ r, 1 ≤ weight r ≤ zlen l + 1) us)
    by (eapply Forall_impl; [done|]; simpl; lia).
  destruct (same_range r u); repeat constructor; simpl; try done; lia.
Qed.

(** The bounds that occur are those of the list. *)
Lemma uniq_elem l u : u ∈ uniq l → ∃ r, r ∈ l ∧ low r = low u ∧ high r = high u.
Proof.
  revert u. induction l as [|r l IH] using rev_ind; intros u; [set_solver|].
  rewrite uniq_snoc, elem_of_reverse. unfold merge_range.
  destruct (reverse (uniq l)) as [|v us] eqn:E.
  - rewrite list_elem_of_singleton. intros ->. exists r. set_solver.
  - assert (Hv : ∀ x, x ∈ v :: us → x ∈ uniq l) by (intros x; rewrite <- E; apply elem_of_reverse).
    destruct (same_range r v) eqn:Es; rewrite elem_of_cons; intros [->|Hin].
    + destruct (IH v) as (x & ? & ? & ?); [set_solver|]. exists x. set_solver.
    + destruct (IH u) as (x & ? & ? & ?); [set_solver|]. exists x. set_solver.
    + exists r. set_solver.
    + destruct (IH u) as (x & ? & ? & ?); [set_solver|]. exists x. set_solver.
Qed.

Lemma elem_uniq l r : r ∈ l → ∃ u, u ∈ uniq l ∧ low u = low r ∧ high u = high r.
Proof.
  revert r. induction l as [|s l IH] using rev_ind; intros r; [set_solver|].
  rewrite elem_of_app, list_elem_of_singleton, uniq_snoc. intros Hin.
  setoid_rewrite elem_of_reverse. unfold merge_range.
  destruct (reverse (uniq l)) as [|v us] eqn:E.
  - destruct Hin as [Hin| ->].
    + destruct (IH r Hin) as (u & Hu & _). exfalso.
      apply elem_of_reverse in Hu. rewrite E in Hu. set_solver.
    + eexists. split; [left|done].
  - assert (Hv : ∀ x, x ∈ uniq l → x ∈ v :: us) by (intros x; rewrite <- E; apply elem_of_reverse).
    destruct (same_range s v) eqn:Es.
    + apply andb_true_iff in Es as [Hl%Z.eqb_eq Hh%Z.eqb_eq].
      destruct Hin as [Hin| ->].
      * destruct (IH r Hin) as (u & [->|Hu]%Hv%elem_of_cons & ? & ?);
          [eexists; split; [left|done]|exists u; set_solver].
      * eexists. split; [left|]. simpl. done.
    + destruct Hin as [Hin| ->].
      * destruct (IH r Hin) as (u & Hu%Hv & ? & ?). exists u. set_solver.
      * eexists. split; [left|]. simpl. done.
Qed.

(** *** Order *)
Definition range_lt (a b : range1d) : Prop := low a < low b ∨ low a = low b ∧ high a < high b.

Lemma range_le_alt a b : range_le a b ↔ low a < low b ∨ low a = low b ∧ high a ≤ high b.
Proof.
  unfold range_le, _range_compare.
  destruct (Z.eqb_spec (low a) (low b)), (Z.ltb_spec (low a) (low b)),
    (Z.eqb_spec (high a) (high b)), (Z.ltb_spec (high a) (high b)); simpl; lia.
Qed.

#[global] Instance range_le_trans : Transitive range_le.
Proof. intros a b c. rewrite !range_le_alt. lia. Qed.
#[global] Instance range_le_total : Total range_le.
Proof. intros a b. rewrite !range_le_alt. lia. Qed.

Lemma uniq_sorted l : StronglySorted range_le l → StronglySorted range_lt (uniq l).
Proof.
  induction l as [|r l IH] using rev_ind; intros Hs; [constructor|].
  apply StronglySorted_app in Hs as (Hr & Hl & _). specialize (IH Hl).
  assert (Hle : ∀ u, u ∈ uniq l → low u < low r ∨ low u = low r ∧ high u ≤ high r).
  { intros u Hu. destruct (uniq_elem l u Hu) as (x & Hx & <- & <-).
    apply range_le_alt, Hr; [done|set_solver]. }
  rewrite uniq_snoc. unfold merge_range.
  destruct (reverse (uniq l)) as [|v us] eqn:E; [repeat constructor|].
  assert (E' : uniq l = reverse us ++ [v]).
  { rewrite <- (reverse_involutive (uniq l)), E. by rewrite reverse_cons. }
  rewrite E' in IH, Hle. apply StronglySorted_app in IH as (Hv & Hus & _).
  destruct (same_range r v) eqn:Es; rewrite !reverse_cons.
  - apply StronglySorted_app. split; [|split; [done|repeat constructor]].
    intros x y Hx Hy%list_elem_of_singleton. subst y. unfold range_lt. simpl. apply Hv; set_solver.
  - assert (Hvr : range_lt v r).
    { unfold same_range in Es. unfold range_lt.
      specialize (Hle v ltac:(set_solver)).
      destruct (Z.eqb_spec (low r) (low v)), (Z.eqb_spec (high r) (high v)); simpl in Es; try done; lia. }
    apply StronglySorted_app. split; [|split; [|repeat constructor]].
    + intros x y Hx Hy%list_elem_of_singleton. subst y. unfold range_lt; simpl.
      apply elem_of_app in Hx as [Hx|Hx%list_elem_of_singleton]; [|subst x; exact Hvr].
      specialize (Hv x v Hx ltac:(set_solver)). unfold range_lt in *. lia.
    + apply StronglySorted_app. split; [done|split; [done|repeat constructor]].
Qed.

(** *** [unique_ranges] computes the reference

    The loop invariant after the first [i] ranges: the cells below [un] hold the
    distinct ranges so far, the cells behind them still have weight 1, and the
    cells from [i] on are untouched. *)
Definition uinv (l : list range1d) (n i : nat) (rg : list range1d) (un : Z) : Prop :=
  let u := uniq (take i l) in
  length rg = length l ∧ un = zlen u ∧ take (length u) rg = u ∧
  ∀ j, (length u ≤ j < n)%nat →
    ∃ r, rg !! j = Some r ∧ weight r = 1 ∧ ((i ≤ j)%nat → l !! j = Some r).

Lemma uniq_nonempty r l : uniq (r :: l) ≠ [].
Proof.
  intros Hu. destruct (elem_uniq (r :: l) r) as (u & Hin & _); [set_solver|].
  rewrite Hu in Hin. set_solver.
Qed.

(** The last of the distinct ranges, and the list before it. *)
Lemma uniq_last l i : (0 < i)%nat → l ≠ [] →
  ∃ us v, uniq (take i l) = us ++ [v] ∧ reverse (uniq (take i l)) = v :: reverse us ∧
          1 ≤ weight v ≤ Z.of_nat i.
Proof.
  intros Hi Hl. destruct (reverse (uniq (take i l))) as [|v us] eqn:E.
  { apply (f_equal reverse) in E. rewrite reverse_involutive in E.
    destruct l, i; try done; try lia. by apply uniq_nonempty in E. }
  assert (E' : uniq (take i l) = reverse us ++ [v]).
  { rewrite <- (reverse_involutive (uniq (take i l))), E. by rewrite reverse_cons. }
  exists (reverse us), v. split; [done|]. split; [by rewrite reverse_involutive|].
  pose proof (uniq_weight_bounds (take i l)) as Hb. rewrite E' in Hb.
  apply Forall_app in Hb as [_ Hb]. apply Forall_cons in Hb as [Hb _].
  unfold zlen in Hb. rewrite length_take in Hb. lia.
Qed.

Lemma uinv_step l n i rg un :
  (0 < i < n)%nat → (n ≤ length l)%nat → Z.of_nat n < 2 ^ 32 → uinv l n i rg un →
  ∃ s, unique_step (Z.of_nat i) (rg, un) = Ok s ∧ uinv l n (S i) s.1 s.2.
Proof.
  intros Hi Hnl Hn32 (Hlen & Hun & Htk & Hcells).
  destruct (uniq_last l i) as (us & v & E & Er & Hwv); [lia|by destruct l; simpl in *; try lia|].
  assert (Hm : length (uniq (take i l)) = S (length us)) by (rewrite E, length_app; simpl; lia).
  set (m := length us) in *.
  assert (Hil : (length (uniq (take i l)) ≤ i)%nat).
  { etransitivity; [apply uniq_length|]. rewrite length_take. lia. }
  destruct (Hcells i) as (ri & Hri & Hwi & Hli); [lia|]. specialize (Hli ltac:(lia)).
  assert (Hun' : un - 1 = Z.of_nat m) by (unfold zlen in Hun; lia).
  assert (Hunm : un = Z.of_nat (S m)) by lia.
  rewrite Hm, E in Htk.
  assert (Hv : rg !! m = Some v).
  { rewrite <- (lookup_take_lt rg (S m)) by lia. rewrite Htk. by apply list_lookup_middle. }
  rewrite (take_S_snoc _ _ _ Hv) in Htk. apply app_inj_tail in Htk as [Htk _].
  assert (Hlater : ∀ (u' : list range1d) x r', (m ≤ x)%nat → (x < length u')%nat → (S m ≤ length u')%nat →
    ∀ j, (length u' ≤ j < n)%nat → ∃ r, <[x := r']> rg !! j = Some r ∧ weight r = 1 ∧
      ((S i ≤ j)%nat → l !! j = Some r)).
  { intros u' x r' _ Hx Hu' j Hj. destruct (Hcells j) as (r & Hr & Hwr & Hlr); [lia|].
    exists r. rewrite list_lookup_insert_ne by lia. naive_solver lia. }
  unfold unique_step, uinv.
  rewrite (aget_lookup rg (Z.of_nat i) ri) by (rewrite ?Nat2Z.id; first [done|lia]). cbn [mbind res_bind].
  rewrite (aget_lookup rg (un - 1) v) by (rewrite ?Hun', ?Nat2Z.id; first [done|lia]). cbn [mbind res_bind].
  replace (negb (low ri =? low v) || negb (high ri =? high v)) with (negb (same_range ri v))
    by (unfold same_range; by rewrite negb_andb).
  rewrite (take_S_snoc l i ri Hli), uniq_snoc, Er. unfold merge_range.
  destruct (same_range ri v) eqn:Es; cbn [negb]; rewrite reverse_cons, ?reverse_cons, reverse_involutive.
  - rewrite aset_in by (unfold zlen; lia). cbn [mbind res_bind]. eexists. split; [done|]. cbn [fst snd].
    rewrite length_insert, Hun', Nat2Z.id. split; [done|]. split; [unfold zlen; rewrite length_app; simpl; lia|].
    rewrite length_app, Nat.add_comm. change (length [_] + length us)%nat with (S m).
    split; [|intros j Hj; apply (Hlater (us ++ [v])); rewrite ?length_app; simpl; lia].
    rewrite take_insert_snoc by lia. rewrite Htk. unfold u32. by rewrite Z.mod_small by lia.
  - destruct (Hcells (S m)) as (rn & Hrn & Hwn & _); [lia|].
    rewrite (aget_lookup rg un rn) by (rewrite ?Hunm, ?Nat2Z.id; first [done|lia]). cbn [mbind res_bind].
    rewrite aset_in by (unfold zlen; lia). cbn [mbind res_bind]. eexists. split; [done|]. cbn [fst snd].
    rewrite length_insert, Hunm, Nat2Z.id, Hwn. split; [done|].
    split; [unfold zlen; rewrite !length_app; simpl; lia|].
    rewrite !length_app. replace (length us + length [v] + length [mk_r1 (low ri) (high ri) 1])%nat
      with (S (S m)) by (simpl; lia).
    split; [|intros j Hj; apply (Hlater (us ++ [v; v])); rewrite ?length_app; simpl; lia].
    rewrite take_insert_snoc by lia. by rewrite (take_S_snoc _ _ _ Hv), Htk.
Qed.

Lemma uinv_init l n :
  (0 < n ≤ length l)%nat → Forall (λ r, weight r = 1) (take n l) → uinv l n 1 l 1.
Proof.
  intros Hn Hw.
  assert (Hcell : ∀ j, (j < n)%nat → ∃ r, l !! j = Some r ∧ weight r = 1).
  { intros j Hj. destruct (lookup_lt_is_Some_2 l j) as [r Hr]; [lia|].
    exists r. split; [done|]. rewrite Forall_lookup in Hw. apply (Hw j).
    by rewrite lookup_take_lt by lia. }
  destruct (Hcell 0%nat) as (r0 & Hr0 & Hw0); [lia|]. destruct l as [|x l]; [done|].
  simpl in Hr0. injection Hr0 as ->. unfold uinv. cbn [take]. rewrite firstn_O.
  change (uniq [r0]) with [mk_r1 (low r0) (high r0) 1]. cbn [length take]. rewrite firstn_O.
  split; [done|]. split; [done|]. split; [destruct r0; simpl in *; by subst|].
  intros j Hj. destruct (Hcell j) as (r & Hr & Hwr); [lia|]. exists r. auto.
Qed.

Lemma unique_ranges_spec l n :
  0 < n ≤ zlen l → n < 2 ^ 32 → Forall (λ r, weight r = 1) (take (Z.to_nat n) l) →
  ∃ l', unique_ranges l n = Ok (l', zlen (uniq (take (Z.to_nat n) l))) ∧
        length l' = length l ∧
        take (length (uniq (take (Z.to_nat n) l))) l' = uniq (take (Z.to_nat n) l).
Proof.
  intros Hn Hn32 Hw. unfold zlen in Hn.
  unfold unique_ranges, mfor.
  destruct (mfold_inv (λ (done : list Z) s, uinv l (Z.to_nat n) (S (length done)) s.1 s.2)
    unique_step (seqZ 1 (n - 1)) (l, 1)) as ([l' un] & Hm & Hinv);
    [apply (uinv_init l); [lia|done]| |rewrite Hm].
  - intros done x [rg un] Hi [post Hpost]. apply seqZ_split in Hpost as [Hx Hxn].
    unfold zlen in Hx. rewrite length_app, Nat.add_comm.
    change (length [x] + length done)%nat with (S (length done)).
    replace x with (Z.of_nat (S (length done))) by lia. apply uinv_step; [lia..|done].
  - rewrite length_seqZ in Hinv. replace (S (Z.to_nat (n - 1))) with (Z.to_nat n) in Hinv by lia.
    destruct Hinv as (Hlen & Hun & Htk & _). simpl in Hlen, Hun, Htk.
    exists l'. subst un. done.
Qed.

(** The ranges of the rules of a set in one dimension, as the cut methods load,
    sort and merge them. *)
Lemma sorted_uniq_perm l n :
  let s := merge_sort range_le (take n l) in
  StronglySorted range_lt (uniq s) ∧ merge_sort range_le (take n l) ≡ₚ take n l.
Proof.
  split; [|apply merge_sort_Permutation].
  apply uniq_sorted. apply StronglySorted_merge_sort; apply _.
Qed.
