(* ===== verification/Heap.v ===== *)
(** * The binary heap of ccan/heap

    [struct heap] with its growing array of entries; [heap_push], [heap_pop],
    [heap_peek] and [heap_ify] with the sift loops [__up] and [__down].  An index
    is a [size_t], modelled by [nat]. *)
From S2P Require Import Prelude.
From S2P Require Import Rule.
#[local] Open Scope Z_scope.

(** ** Data and operations *)
Record heap (A : Type) := mk_heap {
  data : list A;          (* the allocated array, [cap] cells *)
  less : A → A → bool;
  hcap : nat;
  hlen : nat
}.
Arguments mk_heap {_} _ _ _ _.
Arguments data {_} _.
Arguments less {_} _.
Arguments hcap {_} _.
Arguments hlen {_} _.

Definition HEAP_MEM_HYSTERESIS : Z := 4096.
Definition sizeof_ptr : Z := 8.

Section heap.
Context {A : Type} `{Allocator}.
Implicit Types (d : list A) (h : heap A) (ls : A → A → bool).

Definition swap d (i j : nat) : res (list A) :=
  foo ← nget d i;
  y ← nget d j;
  d1 ← nset d i y;
  nset d1 j foo.

Fixpoint __up (fuel : nat) ls d (j : nat) : res (list A) :=
  match fuel with
  | O => Err EFuel
  | S fuel =>
    match j with
    | O => Ok d
    | S j' =>
      let i := (j' / 2)%nat in
      dj ← nget d j;
      di ← nget d i;
      if ls dj di then d' ← swap d i j; __up fuel ls d' i else Ok d
    end
  end.

Fixpoint __down (fuel : nat) ls (len : nat) d (i : nat) : res (list A) :=
  match fuel with
  | O => Err EFuel
  | S fuel =>
    let l := (2 * i + 1)%nat in
    if (len <=? l)%nat then Ok d else
    let r := (l + 1)%nat in
    j ← (if (len <=? r)%nat then Ok l
         else dl ← nget d l; dr ← nget d r; Ok (if ls dl dr then l else r));
    dj ← nget d j;
    di ← nget d i;
    if ls dj di then d' ← swap d i j; __down fuel ls len d' j else Ok d
  end.

(** The return value is 0, or -1 when the array cannot grow.  [realloc] gives a
    new last cell, which is the one the entry is stored in. *)
Definition heap_push h (x : A) : res (heap A * Z) :=
  if (hlen h =? hcap h)%nat then
    if alloc_ok (Z.of_nat (hcap h + 1) * sizeof_ptr) then
      d ← nset (data h ++ [x]) (hlen h) x;
      d' ← __up (S (hlen h)) (less h) d (hlen h);
      Ok (mk_heap d' (less h) (hcap h + 1) (hlen h + 1), 0)
    else Ok (h, -1)
  else
    d ← nset (data h) (hlen h) x;
    d' ← __up (S (hlen h)) (less h) d (hlen h);
    Ok (mk_heap d' (less h) (hcap h) (hlen h + 1), 0).

Definition heap_peek h : res A := nget (data h) 0.

(** Returns [None] for NULL. *)
Definition heap_pop h : res (heap A * option A) :=
  ret ← nget (data h) 0;
  match hlen h with
  | O => Err EOob
  | S len =>
    d ← swap (data h) 0 len;
    match len with
    | O => Ok (mk_heap d (less h) (hcap h) len, Some ret)
    | S _ =>
      d' ← __down (S len) (less h) len d 0;
      if (Z.of_nat len =? Z.of_nat (hcap h) - HEAP_MEM_HYSTERESIS) then
        if alloc_ok (Z.of_nat len * sizeof_ptr)
        then Ok (mk_heap (take len d') (less h) len len, Some ret)
        else Ok (mk_heap d' (less h) (hcap h) len, None)
      else Ok (mk_heap d' (less h) (hcap h) len, Some ret)
    end
  end.

(** [None] for NULL. *)
Definition heap_init ls : option (heap A) :=
  if alloc_ok 32 then Some (mk_heap [] ls 0 0) else None.

(** A [None] comparison (NULL) keeps the old one. *)
Definition heap_ify h (oless : option (A → A → bool)) : res (heap A) :=
  let ls := default (less h) oless in
  d ← mfold (λ i d, __down (S (hlen h)) ls (hlen h) d i)
        (reverse (seq 0 (hlen h / 2))) (data h);
  Ok (mk_heap d ls (hcap h) (hlen h)).

End heap.

(** ** Theory

    [less] must be a strict weak order: then "not smaller" is a total preorder. *)
Class StrictWeak {A} (ls : A → A → bool) : Prop := {
  sw_asym : ∀ a b, ls a b = true → ls b a = false;
  sw_trans : ∀ a b c, ls b a = false → ls c b = false → ls c a = false
}.

Section heap_theory.
Context {A : Type} `{Inhabited A} (ls : A → A → bool) `{!StrictWeak ls}.
Implicit Types d : list A.

(** [a] may stand above [b]. *)
Definition hle (a b : A) : Prop := ls b a = false.

Lemma hle_refl a : hle a a.
Proof. unfold hle. destruct (ls a a) eqn:E; [|done]. by rewrite (sw_asym a a E) in E. Qed.
Lemma hle_trans a b c : hle a b → hle b c → hle a c.
Proof. apply sw_trans. Qed.

Definition parent (i : nat) : nat := ((i - 1) / 2)%nat.

Lemma parent_bounds i : (0 < i)%nat → (2 * parent i + 1 ≤ i ≤ 2 * parent i + 2)%nat.
Proof.
  intros. unfold parent. pose proof (Nat.div_mod_eq (i - 1) 2).
  pose proof (Nat.mod_upper_bound (i - 1) 2). lia.
Qed.

(** The heap property of the first [n] cells. *)
Definition heap_ord d (n : nat) : Prop :=
  ∀ i, (0 < i < n)%nat → hle (d !!! parent i) (d !!! i).

(** The root is a minimum. *)
Lemma heap_ord_min d n i : heap_ord d n → (i < n)%nat → hle (d !!! 0%nat) (d !!! i).
Proof.
  intros Ho. induction (lt_wf i) as [i _ IH]. intros Hi.
  destruct (decide (i = 0)%nat) as [->|]; [apply hle_refl|].
  pose proof (parent_bounds i ltac:(lia)).
  eapply hle_trans; [apply (IH (parent i)); lia|]. apply Ho. lia.
Qed.

(** Exchanging two cells. *)
Definition swp d (i j : nat) : list A := <[j := d !!! i]> (<[i := d !!! j]> d).

Lemma swap_Ok d i j :
  (i < length d)%nat → (j < length d)%nat → swap d i j = Ok (swp d i j).
Proof.
  intros Hi Hj. unfold swap, swp.
  rewrite (nget_Ok d i (d !!! i)) by by apply list_lookup_lookup_total_lt. simpl.
  rewrite (nget_Ok d j (d !!! j)) by by apply list_lookup_lookup_total_lt. simpl.
  rewrite nset_Ok by done. simpl. by rewrite nset_Ok by by rewrite length_insert.
Qed.

Lemma swp_lookup d i j k :
  (i < length d)%nat → (j < length d)%nat →
  swp d i j !!! k = if decide (k = j) then d !!! i else if decide (k = i) then d !!! j else d !!! k.
Proof.
  intros Hi Hj. unfold swp. repeat case_decide; subst.
  - by rewrite list_lookup_total_insert_eq by by rewrite length_insert.
  - by rewrite list_lookup_total_insert_ne, list_lookup_total_insert_eq by done.
  - by rewrite !list_lookup_total_insert_ne by done.
Qed.

Lemma insert_Permutation d i x :
  (i < length d)%nat → <[i := x]> d ≡ₚ x :: delete i d.
Proof. intros. rewrite insert_take_drop, delete_take_drop by done. by rewrite Permutation_middle. Qed.

Lemma swp_perm d i j :
  (i < length d)%nat → (j < length d)%nat → i ≠ j → swp d i j ≡ₚ d.
Proof.
  intros Hi Hj Hne. unfold swp. set (d1 := <[i := d !!! j]> d).
  rewrite (insert_Permutation d1) by (unfold d1; by rewrite length_insert).
  assert (Hd1 : d1 ≡ₚ (d !!! j) :: delete i d) by (by apply insert_Permutation).
  rewrite (delete_Permutation d1 j (d !!! j)) in Hd1.
  - apply Permutation_cons_inv in Hd1. rewrite Hd1. symmetry. apply delete_Permutation.
    by apply list_lookup_lookup_total_lt.
  - unfold d1. rewrite list_lookup_insert_ne by done. by apply list_lookup_lookup_total_lt.
Qed.

Lemma swp_take n d i j :
  (i < n)%nat → (j < n)%nat → (n ≤ length d)%nat → i ≠ j →
  take n (swp d i j) ≡ₚ take n d ∧ drop n (swp d i j) = drop n d ∧ length (swp d i j) = length d.
Proof.
  intros Hi Hj Hn Hne. split; [|split].
  - replace (take n (swp d i j)) with (swp (take n d) i j).
    + apply swp_perm; rewrite ?length_take; lia.
    + unfold swp. rewrite !take_insert_lt by done.
      by rewrite !list_lookup_total_alt, !lookup_take_lt by done.
  - unfold swp. by rewrite !drop_insert_lt by done.
  - unfold swp. by rewrite !length_insert.
Qed.

(** What a sift loop guarantees: it returns an array of the same cells in which
    the first [n] are a heap, and does not touch the others. *)
Definition sifted d n d' : Prop :=
  take n d' ≡ₚ take n d ∧ drop n d' = drop n d ∧ length d' = length d ∧ heap_ord d' n.

Lemma sifted_swp d n i j d' :
  (i < n)%nat → (j < n)%nat → (n ≤ length d)%nat → i ≠ j →
  sifted (swp d i j) n d' → sifted d n d'.
Proof.
  intros Hi Hj Hn Hne (Hp & Hd & Hl & Ho).
  destruct (swp_take n d i j) as (Hp' & Hd' & Hl'); [done..|].
  split; [by rewrite Hp|]. split; [by rewrite Hd|]. split; [by rewrite Hl|done].
Qed.

(** The heap property may fail only between [j] and its parent. *)
Lemma up_sifted fuel n d j :
  (j < fuel)%nat → (j < n)%nat → (n ≤ length d)%nat →
  (∀ i, (0 < i < n)%nat → i ≠ j → hle (d !!! parent i) (d !!! i)) →
  (∀ i, (0 < i < n)%nat → parent i = j → (0 < j)%nat → hle (d !!! parent j) (d !!! i)) →
  ∃ d', __up fuel ls d j = Ok d' ∧ sifted d n d'.
Proof.
  revert d j. induction fuel as [|fuel IH]; intros d j Hf Hj Hn Hord Hgp; [lia|].
  cbn [__up]. destruct j as [|j'].
  { exists d. split; [done|]. repeat split; try done. intros i Hi. apply Hord; lia. }
  assert (Hpar : (j' / 2)%nat = parent (S j')) by (unfold parent; f_equal; lia).
  rewrite Hpar. set (j := S j') in *. set (i := parent j).
  assert (Hij : (i < j)%nat) by (pose proof (parent_bounds j ltac:(lia)); unfold i; lia).
  rewrite (nget_Ok d j (d !!! j)) by (apply list_lookup_lookup_total_lt; lia). simpl.
  rewrite (nget_Ok d i (d !!! i)) by (apply list_lookup_lookup_total_lt; lia). simpl.
  destruct (ls (d !!! j) (d !!! i)) eqn:E.
  - rewrite swap_Ok by lia. simpl.
    assert (Hji : hle (d !!! j) (d !!! i)) by by apply sw_asym.
    destruct (IH (swp d i j) i) as (d' & Hd' & Hs); [lia|lia|unfold swp; rewrite !length_insert; lia|..].
    + intros k Hk Hki. rewrite !swp_lookup by lia.
      pose proof (parent_bounds k ltac:(lia)).
      destruct (decide (k = j)) as [->|Hkj].
      { rewrite (decide_False (P := parent j = j)) by lia. by rewrite decide_True by done. }
      rewrite (decide_False (P := k = i)) by done.
      destruct (decide (parent k = j)) as [Hpk|].
      { apply Hgp; [lia|done|lia]. }
      destruct (decide (parent k = i)) as [Hpk|]; [|by apply Hord].
      eapply hle_trans; [done|]. rewrite <- Hpk. by apply Hord.
    + intros k Hk Hpk Hi0. rewrite !swp_lookup by lia.
      pose proof (parent_bounds i ltac:(lia)). pose proof (parent_bounds k ltac:(lia)).
      rewrite (decide_False (P := parent i = j)), (decide_False (P := parent i = i)) by lia.
      assert (Hgi : hle (d !!! parent i) (d !!! i)) by (apply Hord; lia).
      destruct (decide (k = j)) as [->|Hkj]; [done|].
      rewrite (decide_False (P := k = i)) by lia.
      eapply hle_trans; [done|]. rewrite <- Hpk. by apply Hord.
    + exists d'. split; [done|]. by apply (sifted_swp _ _ i j); [lia..|].
  - exists d. split; [done|]. repeat split; try done. intros k Hk.
    destruct (decide (k = j)) as [->|]; [done|by apply Hord].
Qed.

(** The heap property below the nodes from [k] on. *)
Definition heap_from d (n k : nat) : Prop :=
  ∀ i, (0 < i < n)%nat → (k ≤ parent i)%nat → hle (d !!! parent i) (d !!! i).

Definition sifted_from d n k d' : Prop :=
  take n d' ≡ₚ take n d ∧ drop n d' = drop n d ∧ length d' = length d ∧ heap_from d' n k.

(** The child [__down] compares with. *)
Definition min_child d (n i : nat) : nat :=
  let l := (2 * i + 1)%nat in
  if (n <=? l + 1)%nat then l else if ls (d !!! l) (d !!! (l + 1)%nat) then l else (l + 1)%nat.

Lemma min_child_spec d n i :
  (2 * i + 1 < n)%nat →
  (min_child d n i < n)%nat ∧ parent (min_child d n i) = i ∧ (i < min_child d n i)%nat ∧
  ∀ c, (0 < c < n)%nat → parent c = i → hle (d !!! min_child d n i) (d !!! c).
Proof.
  intros Hn. unfold min_child. set (l := (2 * i + 1)%nat) in *.
  assert (Hpl : parent l = i).
  { pose proof (parent_bounds l ltac:(lia)). lia. }
  assert (Hpr : parent (l + 1) = i).
  { pose proof (parent_bounds (l + 1) ltac:(lia)). lia. }
  assert (Hc : ∀ c, (0 < c < n)%nat → parent c = i → c = l ∨ c = (l + 1)%nat).
  { intros c Hc Hp. pose proof (parent_bounds c ltac:(lia)). lia. }
  destruct (Nat.leb_spec n (l + 1)).
  - split; [lia|]. split; [done|]. split; [lia|].
    intros c Hcn Hp. destruct (Hc c Hcn Hp) as [->| ->]; [apply hle_refl|lia].
  - destruct (ls _ _) eqn:E; (split; [lia|]; split; [done|]; split; [lia|]);
      intros c Hcn Hp; destruct (Hc c Hcn Hp) as [->| ->];
      first [apply hle_refl|done|by apply sw_asym].
Qed.

Lemma down_step fuel n d i :
  (2 * i + 1 < n)%nat → (n ≤ length d)%nat →
  __down (S fuel) ls n d i =
    let j := min_child d n i in
    if ls (d !!! j) (d !!! i) then __down fuel ls n (swp d i j) j else Ok d.
Proof.
  intros Hi Hn. cbn [__down]. rewrite (proj2 (Nat.leb_gt _ _)) by lia.
  destruct (min_child_spec d n i Hi) as (Hj & _ & Hij & _). revert Hj Hij. unfold min_child.
  set (l := (2 * i + 1)%nat) in *. intros Hj Hij.
  destruct (Nat.leb_spec n (l + 1)); cbn [mbind res_bind].
  - rewrite (nget_Ok d l (d !!! l)), (nget_Ok d i (d !!! i)) by (apply list_lookup_lookup_total_lt; lia).
    simpl. destruct (ls _ _); [|done]. by rewrite swap_Ok by lia.
  - rewrite (nget_Ok d l (d !!! l)) by (apply list_lookup_lookup_total_lt; lia). cbn [mbind res_bind].
    rewrite (nget_Ok d (l + 1) (d !!! (l + 1)%nat)) by (apply list_lookup_lookup_total_lt; lia).
    cbn [mbind res_bind]. set (j := if ls _ _ then _ else _) in *. clearbody j.
    rewrite (nget_Ok d j (d !!! j)) by (apply list_lookup_lookup_total_lt; lia). cbn [mbind res_bind].
    rewrite (nget_Ok d i (d !!! i)) by (apply list_lookup_lookup_total_lt; lia). cbn [mbind res_bind].
    destruct (ls _ _); [|done]. by rewrite swap_Ok by lia.
Qed.

Lemma down_sifted fuel n k d i :
  (n - i < fuel)%nat → (k ≤ i)%nat → (n ≤ length d)%nat →
  (∀ c, (0 < c < n)%nat → (k ≤ parent c)%nat → parent c ≠ i → hle (d !!! parent c) (d !!! c)) →
  ((0 < i)%nat → (k ≤ parent i)%nat →
     ∀ c, (0 < c < n)%nat → parent c = i → hle (d !!! parent i) (d !!! c)) →
  ∃ d', __down fuel ls n d i = Ok d' ∧ sifted_from d n k d'.
Proof.
  revert d i. induction fuel as [|fuel IH]; intros d i Hf Hk Hn Hord Hgp; [lia|].
  destruct (decide (2 * i + 1 < n)%nat) as [Hi|Hi]; [|exists d; split].
  2: { cbn [__down]. by rewrite (proj2 (Nat.leb_le _ _)) by lia. }
  2: { repeat split; try done. intros c Hc Hkc. apply Hord; [done..|].
       pose proof (parent_bounds c ltac:(lia)). lia. }
  rewrite down_step by done. cbv zeta.
  destruct (min_child_spec d n i Hi) as (Hjn & Hpj & Hij & Hmin).
  set (j := min_child d n i) in *. destruct (ls (d !!! j) (d !!! i)) eqn:E.
  - assert (Hji : hle (d !!! j) (d !!! i)) by by apply sw_asym.
    destruct (IH (swp d i j) j) as (d' & Hd' & Hp & Hdr & Hl & Ho);
      [lia|lia|unfold swp; rewrite !length_insert; lia|..].
    + intros c Hc Hkc Hcj. rewrite !swp_lookup by lia.
      pose proof (parent_bounds c ltac:(lia)).
      rewrite (decide_False (P := parent c = j)) by done.
      destruct (decide (parent c = i)) as [Hci|Hci].
      * destruct (decide (c = j)) as [->|Hne]; [done|].
        rewrite (decide_False (P := c = i)) by lia. by apply Hmin.
      * destruct (decide (c = j)) as [->|]; [lia|].
        destruct (decide (c = i)) as [->|]; [|by apply Hord].
        apply Hgp; [lia..|done].
    + intros _ Hkj c Hc Hpc. rewrite !swp_lookup by lia. rewrite Hpj in *.
      pose proof (parent_bounds c ltac:(lia)).
      rewrite (decide_False (P := i = j)), (decide_True (P := i = i)) by lia.
      rewrite (decide_False (P := c = j)), (decide_False (P := c = i)) by lia.
      rewrite <- Hpc. apply Hord; lia.
    + exists d'. split; [done|]. destruct (swp_take n d i j) as (Hp' & Hd'' & Hl'); [lia..|].
      split; [by rewrite Hp|]. split; [by rewrite Hdr|]. split; [by rewrite Hl|done].
  - exists d. split; [done|]. repeat split; try done. intros c Hc Hkc.
    destruct (decide (parent c = i)) as [Hci|]; [|by apply Hord].
    rewrite Hci. eapply hle_trans; [exact E|by apply Hmin].
Qed.
End heap_theory.

(** ** The heap as a component

    Its invariant, its contents as a multiset, and what the operations do to
    them.  This is the contract the cut methods rely on. *)
Section heap_spec.
Context {A : Type} `{Inhabited A} `{Allocator}.
Implicit Types h : heap A.

Definition contents h : list A := take (hlen h) (data h).

Record heap_ok h : Prop := {
  heap_less : StrictWeak (less h);
  heap_len : (hlen h ≤ hcap h)%nat;
  heap_cap : length (data h) = hcap h;
  heap_prop : heap_ord (less h) (data h) (hlen h)
}.

Lemma contents_length h : heap_ok h → length (contents h) = hlen h.
Proof. intros [? ? Hc ?]. unfold contents. rewrite length_take. lia. Qed.

Lemma heap_init_ok (ls : A → A → bool) h :
  StrictWeak ls → heap_init ls = Some h → heap_ok h ∧ contents h = [] ∧ less h = ls ∧ hlen h = 0%nat.
Proof.
  unfold heap_init. intros Hs Hh. destruct (alloc_ok 32); [|done]. injection Hh as <-.
  split; [|done]. split; simpl; try done. intros i Hi. lia.
Qed.

Lemma heap_push_ok h x :
  heap_ok h → (∀ n, alloc_ok n = true) →
  ∃ h', heap_push h x = Ok (h', 0) ∧ heap_ok h' ∧ less h' = less h ∧
        hlen h' = S (hlen h) ∧ contents h' ≡ₚ x :: contents h.
Proof.
  intros [Hs Hl Hc Ho] Ha. unfold heap_push. rewrite Ha.
  set (d0 := if (hlen h =? hcap h)%nat then data h ++ [x] else data h).
  set (c0 := if (hlen h =? hcap h)%nat then (hcap h + 1)%nat else hcap h).
  assert (Hlen0 : length d0 = c0).
  { unfold d0, c0. destruct (Nat.eqb_spec (hlen h) (hcap h)); rewrite ?length_app; simpl; lia. }
  assert (Hlt : (hlen h < c0)%nat) by (unfold c0; destruct (Nat.eqb_spec (hlen h) (hcap h)); lia).
  assert (Htake : take (hlen h) d0 = contents h).
  { unfold d0, contents. destruct (Nat.eqb_spec (hlen h) (hcap h)); [|done].
    rewrite take_app_le by lia. done. }
  set (d1 := <[hlen h := x]> d0).
  assert (Htk1 : take (S (hlen h)) d1 = contents h ++ [x]).
  { unfold d1. rewrite take_insert_snoc by lia. by rewrite Htake. }
  assert (Hlow : ∀ i, (i < hlen h)%nat → d1 !!! i = data h !!! i).
  { intros i Hi. unfold d1. rewrite list_lookup_total_insert_ne by lia.
    rewrite !list_lookup_total_alt. rewrite <- (lookup_take_lt d0 (hlen h)) by done.
    rewrite Htake. unfold contents. by rewrite lookup_take_lt by done. }
  destruct (up_sifted (less h) (S (hlen h)) (S (hlen h)) d1 (hlen h)) as (d' & Hup & Hp & Hd & Hl' & Ho');
    [lia|lia|unfold d1; rewrite length_insert; lia|..].
  { intros i Hi Hne. pose proof (parent_bounds i ltac:(lia)). rewrite !Hlow by lia. apply Ho. lia. }
  { intros i Hi Hpi. pose proof (parent_bounds i ltac:(lia)). lia. }
  assert (Hd'len : length d' = c0) by (rewrite Hl'; unfold d1; by rewrite length_insert).
  exists (mk_heap d' (less h) c0 (S (hlen h))). split.
  - unfold d1, d0, c0 in *. destruct (Nat.eqb_spec (hlen h) (hcap h));
      rewrite nset_Ok by lia; cbn [mbind res_bind]; rewrite Hup; simpl;
      by replace (hlen h + 1)%nat with (S (hlen h)) by lia.
  - split; [|split; [done|split; [done|]]].
    + split; simpl; [done|lia|lia|done].
    + unfold contents at 1. cbn [hlen data]. rewrite Hp, Htk1. by rewrite <- Permutation_cons_append.
Qed.

Lemma heap_peek_ok h :
  heap_ok h → (0 < hlen h)%nat →
  ∃ x, heap_peek h = Ok x ∧ x ∈ contents h ∧ ∀ y, y ∈ contents h → hle (less h) x y.
Proof.
  intros [Hs Hl Hc Ho] Hn. exists (data h !!! 0%nat).
  assert (Hd0 : data h !! 0%nat = Some (data h !!! 0%nat)) by (apply list_lookup_lookup_total_lt; lia).
  split; [by apply nget_Ok|]. split.
  - apply (list_elem_of_lookup_2 _ 0). unfold contents. by rewrite lookup_take_lt.
  - intros y (i & Hi)%list_elem_of_lookup. unfold contents in Hi.
    apply lookup_take_Some in Hi as [Hi Hin].
    rewrite <- (list_lookup_total_correct _ _ _ Hi). by apply (heap_ord_min _ _ (hlen h)).
Qed.

(** Removing the root: the array after the exchange with the last cell. *)
Lemma pop_swap h len :
  heap_ok h → hlen h = S len →
  take len (swp (data h) 0 len) ++ [data h !!! 0%nat] ≡ₚ contents h.
Proof.
  intros [Hs Hl Hc Ho] Hn. unfold contents. rewrite Hn.
  set (d := swp (data h) 0 len).
  assert (Hd : take (S len) d ≡ₚ take (S len) (data h)).
  { destruct (decide (len = 0)%nat) as [->|].
    - unfold d, swp. rewrite list_insert_insert_eq, list_insert_id; [done|].
      apply list_lookup_lookup_total_lt; lia.
    - apply swp_take; lia. }
  rewrite <- Hd. rewrite (take_S_snoc d len (data h !!! 0%nat)); [done|].
  unfold d, swp. apply list_lookup_insert_eq. rewrite length_insert. lia.
Qed.

Lemma heap_pop_ok h :
  heap_ok h → (∀ n, alloc_ok n = true) → (0 < hlen h)%nat →
  ∃ h' x, heap_pop h = Ok (h', Some x) ∧ heap_peek h = Ok x ∧ heap_ok h' ∧ less h' = less h ∧
          hlen h = S (hlen h') ∧ contents h ≡ₚ x :: contents h'.
Proof.
  intros Hok Ha Hn. destruct (hlen h) as [|len] eqn:Hlen; [lia|].
  pose proof (pop_swap h len Hok Hlen) as Hperm.
  destruct Hok as [Hs Hl Hc Ho]. unfold heap_pop, heap_peek. rewrite Hlen.
  set (x := data h !!! 0%nat) in *.
  rewrite (nget_Ok (data h) 0 x) by (apply list_lookup_lookup_total_lt; lia). cbn [mbind res_bind].
  rewrite swap_Ok by lia. cbn [mbind res_bind]. set (d := swp (data h) 0 len) in *.
  assert (Hdl : length d = hcap h) by (unfold d, swp; rewrite !length_insert; lia).
  destruct len as [|len'].
  { eexists _, x. split; [done|]. split; [done|]. split; [split; simpl; try done; try lia; intros i Hi; lia|].
    split; [done|]. split; [done|]. rewrite <- Hperm. done. }
  set (len := S len') in *.
  destruct (down_sifted (less h) (S len) len 0 d 0) as (d' & Hdn & Hp & Hdr & Hl' & Hfrom); [lia..| | |].
  { intros c Hc' _ Hpc. pose proof (parent_bounds c ltac:(lia)).
    unfold d. rewrite !swp_lookup by lia.
    rewrite (decide_False (P := parent c = len)), (decide_False (P := parent c = 0%nat)),
      (decide_False (P := c = len)), (decide_False (P := c = 0%nat)) by lia.
    apply Ho. lia. }
  { lia. }
  rewrite Hdn. cbn [mbind res_bind]. rewrite Ha.
  assert (Hcont : contents h ≡ₚ x :: take len d').
  { rewrite <- Hperm, Hp. by rewrite Permutation_app_comm. }
  assert (Ho' : heap_ord (less h) d' len) by (intros i Hi; apply Hfrom; lia).
  case_match.
  - eexists _, x. split; [done|]. split; [done|]. split; [split; simpl; try done; try lia|].
    + rewrite length_take. lia.
    + intros i Hi. pose proof (parent_bounds i ltac:(lia)).
      rewrite !list_lookup_total_alt, !lookup_take_lt, <- !list_lookup_total_alt by lia. by apply Ho'.
    + split; [done|]. split; [done|]. unfold contents at 2. simpl. by rewrite take_take, Nat.min_id.
  - eexists _, x. split; [done|]. split; [done|]. split; [split; simpl; try done; lia|].
    split; [done|]. split; [done|]. done.
Qed.

(** [heap_ify] makes a heap of any array. *)
Lemma heap_ify_ok h (oless : option (A → A → bool)) :
  let ls := default (less h) oless in
  StrictWeak ls → (hlen h ≤ hcap h)%nat → length (data h) = hcap h →
  ∃ h', heap_ify h oless = Ok h' ∧ heap_ok h' ∧ less h' = ls ∧ contents h' ≡ₚ contents h.
Proof.
  intros ls Hs Hl Hc. unfold heap_ify. fold ls. set (n := hlen h) in *.
  enough (∀ m d, (m ≤ n)%nat → (n ≤ length d)%nat → heap_from ls d n m →
    ∃ d', mfold (λ i d, __down (S n) ls n d i) (reverse (seq 0 m)) d = Ok d' ∧ sifted_from ls d n 0 d') as Hw.
  { destruct (Hw (n / 2)%nat (data h)) as (d' & Hm & Hp & Hd & Hlen & Hf).
    - pose proof (Nat.Div0.div_le_upper_bound n 2 n). lia.
    - lia.
    - intros i Hi Hpi. pose proof (parent_bounds i ltac:(lia)).
      pose proof (Nat.div_mod_eq n 2). pose proof (Nat.mod_upper_bound n 2). lia.
    - rewrite Hm. eexists. split; [done|]. split; [split; simpl; try done; try lia|].
      + intros i Hi. apply Hf; lia.
      + split; [done|]. unfold contents. simpl. done. }
  induction m as [|m IH]; intros d Hm Hn Hf.
  { exists d. split; [done|]. split; [done|]. done. }
  rewrite seq_S, reverse_snoc, Nat.add_0_l. cbn [mfold].
  destruct (down_sifted ls (S n) n m d m) as (d' & Hdn & Hp & Hd & Hlen & Hf'); [lia..| | |].
  { intros c Hc' Hmc Hne. apply Hf; lia. }
  { intros Hm0 Hpm. pose proof (parent_bounds m ltac:(lia)). lia. }
  rewrite Hdn. simpl. destruct (IH d') as (d2 & Hd2 & Hp2 & Hdr2 & Hl2 & Hf2); [lia|lia|done|].
  exists d2. split; [done|]. split; [by rewrite Hp2|]. split; [by rewrite Hdr2|]. split; [by rewrite Hl2|done].
Qed.
End heap_spec.

(** ** Properties *)

(** The order the cut methods give their heaps ([aux_heap_less] of cut-inl.c
    compares one number of the entry) is of this kind. *)
#[global] Instance less_key_strict_weak {A} (f : A → Z) : StrictWeak (λ a b, f a <? f b).
Proof. split; intros *; rewrite ?Z.ltb_lt, ?Z.ltb_ge; lia. Qed.

(** C36: [heap_push] on a well-formed heap succeeds, returns 0, keeps the heap
    property and adds exactly the new entry. *)
Theorem heap_push_correct {A} `{Inhabited A} `{Allocator} (h : heap A) x :
  heap_ok h → (∀ n, alloc_ok n = true) →
  ∃ h', heap_push h x = Ok (h', 0) ∧ heap_ok h' ∧ less h' = less h ∧
        hlen h' = S (hlen h) ∧ contents h' ≡ₚ x :: contents h.
Proof. apply heap_push_ok. Qed.

Lemma heap_push_correct_witness :
  let H : Allocator := λ _, true in
  ∃ h', heap_push (mk_heap [2; 5; 4] Z.ltb 3 3) 1 = Ok (h', 0) ∧ heap_ok h' ∧ less h' = Z.ltb ∧
        hlen h' = 4%nat ∧ contents h' ≡ₚ 1 :: [2; 5; 4].
Proof.
  intros H. apply (heap_push_correct (mk_heap [2; 5; 4] Z.ltb 3 3) 1); [|done].
  split; simpl; [exact (less_key_strict_weak (λ x : Z, x))|lia|done|].
  intros i Hi. assert (i = 1 ∨ i = 2)%nat as [->| ->] by lia; reflexivity.
Defined.

(** C37: [heap_pop] on a non-empty well-formed heap returns the entry [heap_peek]
    shows, which no other entry precedes, removes exactly that entry, and keeps
    the heap property, also when it gives memory back. *)
Theorem heap_pop_correct {A} `{Inhabited A} `{Allocator} (h : heap A) :
  heap_ok h → (∀ n, alloc_ok n = true) → (0 < hlen h)%nat →
  ∃ h' x, heap_pop h = Ok (h', Some x) ∧ heap_peek h = Ok x ∧ heap_ok h' ∧
          contents h ≡ₚ x :: contents h' ∧ ∀ y, y ∈ contents h → hle (less h) x y.
Proof.
  intros Hok Ha Hn. destruct (heap_pop_ok h Hok Ha Hn) as (h' & x & Hp & Hk & Hok' & _ & _ & Hc).
  destruct (heap_peek_ok h Hok Hn) as (x' & Hk' & _ & Hmin). rewrite Hk in Hk'. injection Hk' as <-.
  exists h', x. done.
Qed.

Lemma heap_pop_correct_witness :
  let H : Allocator := λ _, true in
  ∃ h' x, heap_pop (mk_heap [2; 5; 4] Z.ltb 3 3) = Ok (h', Some x) ∧
    heap_peek (mk_heap [2; 5; 4] Z.ltb 3 3) = Ok x ∧ heap_ok h' ∧
    [2; 5; 4] ≡ₚ x :: contents h' ∧ ∀ y, y ∈ [2; 5; 4] → hle Z.ltb x y.
Proof.
  intros H. apply (heap_pop_correct (mk_heap [2; 5; 4] Z.ltb 3 3)); [|done|simpl; lia].
  split; simpl; [exact (less_key_strict_weak (λ x : Z, x))|lia|done|].
  intros i Hi. assert (i = 1 ∨ i = 2)%nat as [->| ->] by lia; reflexivity.
Defined.

(** [heap_ify] turns any array into a heap of the same entries for the given
    comparison (or the old one when it is NULL). *)
Theorem heap_ify_correct {A} `{Inhabited A} (h : heap A) (oless : option (A → A → bool)) :
  StrictWeak (default (less h) oless) → (hlen h ≤ hcap h)%nat → length (data h) = hcap h →
  ∃ h', heap_ify h oless = Ok h' ∧ heap_ok h' ∧ less h' = default (less h) oless ∧
        contents h' ≡ₚ contents h.
Proof. apply heap_ify_ok. Qed.

Lemma heap_ify_correct_witness :
  ∃ h', heap_ify (mk_heap [5; 4; 2] Z.ltb 3 3) None = Ok h' ∧ heap_ok h' ∧ less h' = Z.ltb ∧
        contents h' ≡ₚ [5; 4; 2].
Proof.
  apply (heap_ify_correct (mk_heap [5; 4; 2] Z.ltb 3 3) None); [|simpl; lia|done].
  exact (less_key_strict_weak (λ x : Z, x)).
Defined.
