(* ===== verification/MbNode.v ===== *)
(** * Multi-bit node bitmaps

    [mb_node.h] and [mb_node.c]: the bit operations, the tables filled by the
    constructor [fast_lookup_init], and the two variants of [tree_function] (the
    table-driven one the build uses and the reference loop under #else). *)
From S2P Require Import Prelude.
#[local] Open Scope Z_scope.

(** ** Operations *)
Definition STRIDE : Z := 6.
Definition BITMAP_BITS : Z := Z.shiftl 1 STRIDE.

Definition count_children (bitmap : Z) : Z := popcount bitmap.

Definition count_inl_bitmap (bit cidr : Z) : Z :=
  let pos := u32 (Z.shiftl 1 cidr + bit) in u32 (pos - 1).

Definition count_enl_bitmap (bits : Z) : Z := bits.

Definition set_bit32 (bitmap pos : Z) : Z := u32 (Z.lor bitmap (Z.shiftl 1 pos)).
Definition clear_bit32 (bitmap pos : Z) : Z := u32 (Z.ldiff bitmap (Z.shiftl 1 pos)).
Definition set_bit (bitmap pos : Z) : Z := u64 (Z.lor bitmap (Z.shiftl 1 pos)).
Definition clear_bit (bitmap pos : Z) : Z := u64 (Z.ldiff bitmap (Z.shiftl 1 pos)).
Definition test_bit (bitmap pos : Z) : Z := Z.land bitmap (Z.shiftl 1 pos).
Definition test_bitmap (bitmap pos : Z) : Z := Z.land bitmap (Z.shiftl 1 pos).

(** The inner loop of [fast_lookup_init]: [j] runs from [STRIDE - 1] down to 0. *)
Definition fast_lookup_row (i : Z) (t : list Z * list Z) : list Z * list Z :=
  let '(fct, pos2cidr, _) :=
    foldl (λ '(fct, pos2cidr, stride) j,
      let pos := count_inl_bitmap stride j in
      (<[Z.to_nat i := set_bit (anth fct i) pos]> fct,
       <[Z.to_nat pos := j + 1]> pos2cidr,
       Z.shiftr stride 1)) (t.1, t.2, i) [5; 4; 3; 2; 1; 0] in
  (fct, pos2cidr).

Definition fast_lookup_init : list Z * list Z :=
  for_ 0 (Z.shiftl 1 (STRIDE - 1)) fast_lookup_row (replicate 32 0, replicate 64 0).

(** The global tables, as the constructor leaves them. *)
Definition fct : list Z := Eval vm_compute in fst fast_lookup_init.
Definition pos2cidr : list Z := Eval vm_compute in snd fast_lookup_init.

(** The result and the new value of the out parameter [*cidr]. *)
Definition tree_function (bitmap stride cidr : Z) : Z * Z :=
  let ret := Z.land (anth fct (Z.shiftr stride 1)) bitmap in
  if negb (ret =? 0) then
    let pos := clz64 ret in
    let pos := BITMAP_BITS - 1 - pos in
    (pos, anth pos2cidr pos)
  else (-1, cidr).

(** The variant without FAST_TREE_FUNCTION. *)
Fixpoint tree_function_loop (ixs : list Z) (bitmap stride cidr : Z) : Z * Z :=
  match ixs with
  | [] => (-1, cidr)
  | i :: ixs =>
    let stride := Z.shiftr stride 1 in
    let pos := count_inl_bitmap stride i in
    if negb (test_bitmap bitmap pos =? 0) then (pos, i)
    else tree_function_loop ixs bitmap stride cidr
  end.
Definition tree_function_ref (bitmap stride cidr : Z) : Z * Z :=
  if bitmap =? 0 then (-1, cidr)
  else tree_function_loop [5; 4; 3; 2; 1; 0] bitmap stride cidr.

(** ** Theory *)
Lemma test_bitmap_testbit m i : 0 ≤ i → negb (test_bitmap m i =? 0) = Z.testbit m i.
Proof.
  intros Hi. unfold test_bitmap. rewrite Z.shiftl_1_l.
  destruct (Z.testbit m i) eqn:E.
  - apply negb_true_iff, Z.eqb_neq. intros H.
    apply (f_equal (λ x, Z.testbit x i)) in H.
    rewrite Z.land_spec, Z.pow2_bits_true, Z.bits_0, E in H by done. done.
  - apply negb_false_iff, Z.eqb_eq. apply Z.bits_inj'. intros j Hj.
    rewrite Z.land_spec, Z.pow2_bits_eqb, Z.bits_0 by done.
    destruct (Z.eqb_spec i j) as [->|]; [rewrite E|]; by rewrite ?andb_false_r.
Qed.

Lemma set_bit_testbit m i j :
  0 ≤ m < 2 ^ 64 → 0 ≤ i < 64 → 0 ≤ j →
  Z.testbit (set_bit m i) j = (j =? i) || Z.testbit m j.
Proof.
  intros Hm Hi Hj. unfold set_bit, u64. rewrite Z.shiftl_1_l.
  destruct (decide (j < 64)).
  - rewrite Z.mod_pow2_bits_low by done. rewrite Z.lor_spec, Z.pow2_bits_eqb by lia.
    rewrite (Z.eqb_sym i j). by rewrite orb_comm.
  - rewrite Z.mod_pow2_bits_high by lia. symmetry.
    rewrite (proj2 (Z.eqb_neq j i)) by lia. simpl.
    rewrite <- (Z.mod_small m (2 ^ 64)) by done. apply Z.mod_pow2_bits_high. lia.
Qed.

Lemma set_bit_bounds m i : 0 ≤ set_bit m i < 2 ^ 64.
Proof. unfold set_bit, u64. apply Z.mod_pos_bound. lia. Qed.

(** The internal nodes are numbered row by row: the node of the prefix of length
    [c] of a 6-bit stride. *)
Definition inl_node (stride c : Z) : Z := 2 ^ c - 1 + Z.shiftr stride (6 - c).

Lemma inl_node_bounds s c : 0 ≤ s < 64 → 0 ≤ c ≤ 6 → 2 ^ c - 1 ≤ inl_node s c < 2 ^ (c + 1) - 1.
Proof.
  intros Hs Hc. unfold inl_node. rewrite Z.shiftr_div_pow2 by lia.
  assert (0 ≤ s / 2 ^ (6 - c) < 2 ^ c).
  { split; [apply Z.div_pos; [lia|apply pow2_pos; lia]|].
    apply Z.div_lt_upper_bound; [apply pow2_pos; lia|].
    rewrite <- Z.pow_add_r by lia. replace (6 - c + c) with 6 by lia. lia. }
  rewrite Z.pow_add_r by lia. lia.
Qed.

Lemma inl_node_lt s c c' : 0 ≤ s < 64 → 0 ≤ c < c' → c' ≤ 6 → inl_node s c < inl_node s c'.
Proof.
  intros Hs Hc Hc'. pose proof (inl_node_bounds s c Hs ltac:(lia)).
  pose proof (inl_node_bounds s c' Hs ltac:(lia)).
  assert (2 ^ (c + 1) ≤ 2 ^ c') by (apply Z.pow_le_mono_r; lia). lia.
Qed.

Lemma count_inl_node s c :
  0 ≤ s < 64 → 0 ≤ c ≤ 6 → count_inl_bitmap (Z.shiftr s (6 - c)) c = inl_node s c.
Proof.
  intros Hs Hc. pose proof (inl_node_bounds s c Hs Hc) as Hb.
  assert (Hp : 2 ^ (c + 1) ≤ 2 ^ 7) by (apply Z.pow_le_mono_r; lia).
  pose proof (pow2_pos c ltac:(lia)).
  unfold count_inl_bitmap, u32. rewrite Z.shiftl_1_l. unfold inl_node in *.
  rewrite (Z.mod_small (2 ^ c + _)) by lia. rewrite Z.mod_small; lia.
Qed.

(** The longest internal prefix of a stride that is present. *)
Definition longest_inl (bitmap stride : Z) : option Z :=
  list_find (λ c, Is_true (Z.testbit bitmap (inl_node stride c))) [5; 4; 3; 2; 1; 0] ≫= λ ic, Some ic.2.

Lemma longest_inl_Some b s c :
  longest_inl b s = Some c →
  0 ≤ c ≤ 5 ∧ Z.testbit b (inl_node s c) = true ∧
  ∀ c', c < c' ≤ 5 → Z.testbit b (inl_node s c') = false.
Proof.
  unfold longest_inl. destruct (list_find _ _) as [[i c0]|] eqn:E; [|done].
  intros [= ->]. simpl. apply list_find_Some in E as (Hi & Hc & Hlt).
  assert (Hic : 0 ≤ c ≤ 5 ∧ i = Z.to_nat (5 - c)).
  { do 6 (destruct i as [|i]; [injection Hi as <-; simpl; lia|]). done. }
  destruct Hic as [Hcb ->]. split; [done|]. split; [by apply Is_true_true|].
  intros c' Hc'. destruct (Z.testbit b (inl_node s c')) eqn:Eb; [|done]. exfalso.
  apply (Hlt (Z.to_nat (5 - c')) c'); [|lia|by rewrite Eb].
  assert (c' = 1 ∨ c' = 2 ∨ c' = 3 ∨ c' = 4 ∨ c' = 5) as [->|[->|[->|[->| ->]]]] by lia; reflexivity.
Qed.

Lemma longest_inl_None b s c :
  longest_inl b s = None → 0 ≤ c ≤ 5 → Z.testbit b (inl_node s c) = false.
Proof.
  unfold longest_inl. destruct (list_find _ _) as [[i c0]|] eqn:E; [done|]. intros _ Hc.
  apply list_find_None in E. rewrite Forall_forall in E.
  destruct (Z.testbit b (inl_node s c)) eqn:Eb; [|done]. exfalso.
  apply (E c); [|by rewrite Eb].
  assert (c = 0 ∨ c = 1 ∨ c = 2 ∨ c = 3 ∨ c = 4 ∨ c = 5) as [->|[->|[->|[->|[->| ->]]]]] by lia;
    set_solver.
Qed.

(** The table row of a stride has exactly the bits of its internal prefixes. *)
Lemma fct_testbit s i :
  0 ≤ s < 64 → 0 ≤ i →
  Z.testbit (anth fct (Z.shiftr s 1)) i = existsb (λ c, i =? inl_node s c) [5; 4; 3; 2; 1; 0].
Proof.
  intros Hs Hi. destruct (decide (i < 64)) as [Hi64|].
  - assert (Hall : forallb (λ s, forallb (λ i,
        eqb (Z.testbit (anth fct (Z.shiftr s 1)) i)
          (existsb (λ c, i =? inl_node s c) [5; 4; 3; 2; 1; 0])) (seqZ 0 64)) (seqZ 0 64) = true)
      by (vm_compute; reflexivity).
    rewrite forallb_forall in Hall. specialize (Hall s).
    rewrite forallb_forall in Hall. apply eqb_prop, Hall; apply list_elem_of_In, elem_of_seqZ; lia.
  - assert (Hrow : forallb (λ s, (0 <=? anth fct (Z.shiftr s 1)) && (anth fct (Z.shiftr s 1) <? 2 ^ 64))
      (seqZ 0 64) = true) by (vm_compute; reflexivity).
    rewrite forallb_forall in Hrow. specialize (Hrow s).
    assert (Hr : 0 ≤ anth fct (Z.shiftr s 1) < 2 ^ 64).
    { assert (Hin : In s (seqZ 0 64)) by (apply list_elem_of_In, elem_of_seqZ; lia).
      specialize (Hrow Hin). apply andb_true_iff in Hrow as [?%Z.leb_le ?%Z.ltb_lt]. done. }
    rewrite <- (Z.mod_small _ _ Hr), Z.mod_pow2_bits_high by lia. symmetry.
    apply not_true_is_false. intros (c & Hc & Heq%Z.eqb_eq)%existsb_exists.
    apply list_elem_of_In in Hc.
    assert (0 ≤ c ≤ 5) by (repeat (apply elem_of_cons in Hc as [->|Hc]; [lia|]); set_solver).
    pose proof (inl_node_bounds s c Hs ltac:(lia)).
    assert (2 ^ (c + 1) ≤ 2 ^ 6) by (apply Z.pow_le_mono_r; lia). lia.
Qed.

Lemma pos2cidr_inl s c : 0 ≤ s < 64 → 0 ≤ c ≤ 5 → anth pos2cidr (inl_node s c) = c + 1.
Proof.
  intros Hs Hc.
  assert (Hall : forallb (λ s, forallb (λ c, anth pos2cidr (inl_node s c) =? c + 1) (seqZ 0 6)) (seqZ 0 64) = true)
    by (vm_compute; reflexivity).
  rewrite forallb_forall in Hall. specialize (Hall s).
  rewrite forallb_forall in Hall. apply Z.eqb_eq, Hall; apply list_elem_of_In, elem_of_seqZ; lia.
Qed.

(** The table-driven search finds the longest internal prefix. *)
Lemma tree_function_spec b s cidr :
  0 ≤ b → 0 ≤ s < 64 →
  tree_function b s cidr =
    match longest_inl b s with Some c => (inl_node s c, c + 1) | None => (-1, cidr) end.
Proof.
  intros Hb Hs. unfold tree_function. set (ret := Z.land _ b).
  assert (Hret : ∀ i, 0 ≤ i → Z.testbit ret i =
      existsb (λ c, i =? inl_node s c) [5; 4; 3; 2; 1; 0] && Z.testbit b i).
  { intros i Hi. unfold ret. by rewrite Z.land_spec, fct_testbit. }
  assert (Hret0 : 0 ≤ ret) by (apply Z.land_nonneg; by right).
  destruct (longest_inl b s) as [c|] eqn:E.
  - apply longest_inl_Some in E as (Hc & Hbit & Hmax).
    pose proof (inl_node_bounds s c Hs ltac:(lia)) as Hnb. pose proof (pow2_pos c ltac:(lia)).
    assert (Htop : Z.testbit ret (inl_node s c) = true).
    { rewrite Hret, Hbit, andb_true_r by lia. apply existsb_exists. exists c.
      split; [|by apply Z.eqb_eq].
      assert (c = 0 ∨ c = 1 ∨ c = 2 ∨ c = 3 ∨ c = 4 ∨ c = 5) as Hcs by lia. simpl; naive_solver. }
    assert (Hlog : Z.log2 ret = inl_node s c).
    { apply Z.log2_bits_unique; [done|]. intros m Hm. rewrite Hret by lia. apply andb_false_iff.
      destruct (existsb _ _) eqn:Ex; [right|by left].
      apply existsb_exists in Ex as (c' & Hin & ->%Z.eqb_eq). apply Hmax.
      apply list_elem_of_In in Hin.
      assert (0 ≤ c' ≤ 5) by (repeat (apply elem_of_cons in Hin as [->|Hin]; [lia|]); set_solver).
      split; [|lia]. apply Z.nle_gt. intros Hle.
      destruct (decide (c = c')) as [->|]; [lia|].
      pose proof (inl_node_lt s c' c Hs). lia. }
    assert (Hnz : ret ≠ 0) by (intros Hz; by rewrite Hz, Z.bits_0 in Htop).
    rewrite (proj2 (Z.eqb_neq ret 0)) by done. cbn [negb].
    change (BITMAP_BITS - 1 - clz64 ret) with (64 - 1 - (63 - Z.log2 ret)).
    replace (64 - 1 - (63 - Z.log2 ret)) with (inl_node s c) by lia.
    by rewrite pos2cidr_inl by (lia || done).
  - assert (ret = 0) as ->; [|done].
    apply Z.bits_inj'. intros i Hi. rewrite Hret, Z.bits_0 by done. apply andb_false_iff.
    destruct (existsb _ _) eqn:Ex; [right|by left].
    apply existsb_exists in Ex as (c' & Hin & ->%Z.eqb_eq). apply list_elem_of_In in Hin.
    apply longest_inl_None; [done|].
    repeat (apply elem_of_cons in Hin as [->|Hin]; [lia|]); set_solver.
Qed.

(** The reference loop looks at the same nodes, longest first. *)
Lemma tree_function_loop_spec b s cidr :
  0 ≤ s < 64 →
  tree_function_loop [5; 4; 3; 2; 1; 0] b s cidr =
    match longest_inl b s with Some c => (inl_node s c, c) | None => (-1, cidr) end.
Proof.
  intros Hs. unfold longest_inl. cbn [tree_function_loop].
  assert (Hstep : ∀ c, 0 ≤ c ≤ 5 → count_inl_bitmap (Z.shiftr s (6 - c)) c = inl_node s c)
    by (intros; apply count_inl_node; lia).
  rewrite !Z.shiftr_shiftr by lia.
  change (1 + 1) with (6 - 4). change (6 - 4 + 1) with (6 - 3). change (6 - 3 + 1) with (6 - 2).
  change (6 - 2 + 1) with (6 - 1). change (6 - 1 + 1) with (6 - 0). change (s ≫ 1)%Z with (s ≫ (6 - 5))%Z.
  rewrite (Hstep 5), (Hstep 4), (Hstep 3), (Hstep 2), (Hstep 1), (Hstep 0) by lia.
  assert (Hnn : ∀ c, 0 ≤ c ≤ 5 → 0 ≤ inl_node s c).
  { intros c Hc. pose proof (inl_node_bounds s c Hs ltac:(lia)). pose proof (pow2_pos c). lia. }
  rewrite !test_bitmap_testbit by (apply Hnn; lia).
  cbn [list_find].
  destruct (Z.testbit b (inl_node s 5)); [done|].
  destruct (Z.testbit b (inl_node s 4)); [done|].
  destruct (Z.testbit b (inl_node s 3)); [done|].
  destruct (Z.testbit b (inl_node s 2)); [done|].
  destruct (Z.testbit b (inl_node s 1)); [done|].
  destruct (Z.testbit b (inl_node s 0)); done.
Qed.

(** ** Properties *)

(** C34: the table-driven [tree_function] and the reference loop return the same
    bit position for every bitmap and stride: that of the longest internal
    prefix of the stride that is present, or -1. *)
Theorem tree_function_equiv b s cidr :
  0 ≤ b → 0 ≤ s < 64 →
  (tree_function b s cidr).1 = (tree_function_ref b s cidr).1 ∧
  (tree_function b s cidr).1 =
    match longest_inl b s with Some c => inl_node s c | None => -1 end.
Proof.
  intros Hb Hs. rewrite tree_function_spec by done. unfold tree_function_ref.
  destruct (Z.eqb_spec b 0) as [->|].
  - assert (longest_inl 0 s = None) as ->; [|done].
    destruct (longest_inl 0 s) eqn:E; [|done].
    apply longest_inl_Some in E as (_ & E & _). by rewrite Z.bits_0 in E.
  - rewrite tree_function_loop_spec by done. by destruct (longest_inl b s).
Qed.

Lemma tree_function_equiv_witness :
  (tree_function 11 37 0).1 = (tree_function_ref 11 37 0).1 ∧
  (tree_function 11 37 0).1 = match longest_inl 11 37 with Some c => inl_node 37 c | None => -1 end.
Proof. apply (tree_function_equiv 11 37 0); lia. Defined.

(** the two variants disagree on the prefix length they report through
    [*cidr]: when a prefix of length [c] is found, the reference loop reports [c]
    and the table-driven variant [c + 1]. *)
Theorem tree_function_cidr_differs b s cidr c :
  0 ≤ b → 0 ≤ s < 64 → longest_inl b s = Some c →
  (tree_function_ref b s cidr).2 = c ∧ (tree_function b s cidr).2 = c + 1.
Proof.
  intros Hb Hs Hc. rewrite tree_function_spec, Hc by done. split; [|done].
  unfold tree_function_ref. destruct (Z.eqb_spec b 0) as [->|].
  - apply longest_inl_Some in Hc as (_ & E & _). by rewrite Z.bits_0 in E.
  - by rewrite tree_function_loop_spec, Hc by done.
Qed.

Lemma tree_function_cidr_differs_witness :
  (tree_function_ref 1 37 0).2 = 0 ∧ (tree_function 1 37 0).2 = 0 + 1.
Proof. apply (tree_function_cidr_differs 1 37 0 0); [lia|lia|reflexivity]. Defined.
