(* ===== verification/Double.v ===== *)
(** * The [double] arithmetic of the cost functions

    A C [double] is an IEEE 754 binary64 number; its operations are those of the
    Standard Library's executable specification of floating point
    (round-to-nearest-even).  [double_equals] of utils.c is here. *)
From S2P Require Import Prelude.
From Stdlib Require Export SpecFloat.
#[local] Open Scope Z_scope.

Definition prec64 : Z := 53.
Definition emax64 : Z := 1024.

Definition double : Type := spec_float.

(** [(double)z] for an integer. *)
Definition d_of_Z (z : Z) : double := binary_normalize prec64 emax64 z 0 false.
Definition dadd : double → double → double := SFadd prec64 emax64.
Definition dsub : double → double → double := SFsub prec64 emax64.
Definition ddiv : double → double → double := SFdiv prec64 emax64.
Definition dlt (a b : double) : bool := SFltb a b.
Definition dle (a b : double) : bool := SFleb a b.

(** The literal 0.0001. *)
Definition d_0_0001 : double := Eval vm_compute in ddiv (d_of_Z 1) (d_of_Z 10000).

Definition double_equals (a b : double) : bool :=
  if dle a b then dlt (dsub b a) d_0_0001 else dlt (dsub a b) d_0_0001.

(** ** Theory *)

Lemma digits2_iter_xO d m : digits2_pos (Pos.iter xO m d) = (digits2_pos m + d)%positive.
Proof.
  induction d as [|d IH] using Pos.peano_ind; [simpl; lia|].
  rewrite Pos.iter_succ. simpl. rewrite IH. lia.
Qed.

Lemma digits2_pos_lower p : 2 ^ (Zpos (digits2_pos p) - 1) ≤ Zpos p.
Proof.
  induction p as [p IH|p IH|]; cbn [digits2_pos]; [..|simpl; lia];
    (replace (Zpos (Pos.succ (digits2_pos p)) - 1) with (1 + (Zpos (digits2_pos p) - 1)) by lia;
     rewrite Z.pow_add_r by lia; change (2 ^ 1) with 2; lia).
Qed.

(** Nothing is shifted out of a mantissa of full length. *)
Lemma shr_fexp_full m e :
  digits2_pos m = 53%positive → -1074 ≤ e →
  shr_fexp prec64 emax64 (Zpos m) e loc_Exact = ({| shr_m := Zpos m; shr_r := false; shr_s := false |}, e).
Proof.
  intros Hd He. unfold shr_fexp, Zdigits2. rewrite Hd. unfold fexp, emin, prec64, emax64.
  replace (Z.max (53 + e - 53) (3 - 1024 - 53) - e) with 0 by lia. done.
Qed.

Lemma iter_xO m d : Zpos (Pos.iter xO m d) = Zpos m * 2 ^ Zpos d.
Proof.
  induction d as [|d IH] using Pos.peano_ind; [simpl; lia|].
  rewrite Pos.iter_succ, Pos2Z.inj_succ, Z.pow_succ_r by lia. change (Zpos (Pos.iter xO m d)~0) with (2 * Zpos (Pos.iter xO m d)). lia.
Qed.

(** A mantissa below [2 ^ 53] is stored exactly. *)
Lemma binary_round_exact neg p :
  Zpos p < 2 ^ 53 → ∃ m e, binary_round prec64 emax64 neg p 0 = S754_finite neg m e ∧ e ≤ 0 ∧ Zpos m = Zpos p * 2 ^ (- e).
Proof.
  intros Hz. unfold binary_round. set (D := digits2_pos p).
  assert (HD : Zpos D ≤ 53).
  { pose proof (digits2_pos_lower p) as Hl. fold D in Hl.
    assert (Zpos D - 1 < 53); [|lia]. apply (Z.pow_lt_mono_r_iff 2); lia. }
  assert (Hf : fexp prec64 emax64 (Zpos D + 0) = Zpos D - 53)
    by (unfold fexp, emin, prec64, emax64; lia).
  rewrite Hf. unfold shl_align. rewrite Z.sub_0_r.
  assert (∃ mz ez, digits2_pos mz = 53%positive ∧ -1074 ≤ ez ≤ 0 ∧ Zpos mz = Zpos p * 2 ^ (- ez) ∧
    (match Zpos D - 53 with Zneg d => (Pos.iter xO p d, Zpos D - 53) | _ => (p, 0) end) = (mz, ez))
    as (mz & ez & Hmz & Hez & Hv & ->).
  { destruct (Zpos D - 53) as [|q|q] eqn:E.
    - exists p, 0. unfold D in E. split; [lia|]. split; [lia|]. split; [simpl; lia|done].
    - lia.
    - eexists _, _. split; [|split; [|split; [|done]]]; [|lia|].
      + rewrite digits2_iter_xO. fold D. lia.
      + rewrite iter_xO. done. }
  unfold binary_round_aux. rewrite shr_fexp_full by lia. simpl shr_m. simpl loc_of_shr_record.
  cbn [round_nearest_even]. rewrite shr_fexp_full by lia. simpl shr_m.
  rewrite (proj2 (Z.leb_le _ _)) by (unfold emax64, prec64; lia). eexists _, _. split; [done|lia].
Qed.

Lemma d_of_Z_value z :
  z ≠ 0 → Z.abs z < 2 ^ 53 → ∃ m e, d_of_Z z = S754_finite (z <? 0) m e ∧ e ≤ 0 ∧ Zpos m = Z.abs z * 2 ^ (- e).
Proof. intros H0 Hz. destruct z as [|p|p]; [done| |]; by apply binary_round_exact. Qed.

(** An integer below [2 ^ 53] is a finite number. *)
Lemma d_of_Z_finite z :
  0 ≤ z < 2 ^ 53 → d_of_Z z = S754_zero false ∨ ∃ m e, d_of_Z z = S754_finite false m e.
Proof.
  intros Hz. destruct (decide (z = 0)) as [->|H0]; [by left|right].
  destruct (d_of_Z_value z H0 ltac:(lia)) as (m & e & He & _). rewrite He. replace (z <? 0) with false by lia. eauto.
Qed.

(** The test the cut code uses to see that a cost did not improve. *)
Lemma double_equals_refl z : 0 ≤ z < 2 ^ 53 → double_equals (d_of_Z z) (d_of_Z z) = true.
Proof.
  intros Hz. unfold double_equals, dle, dlt, dsub.
  destruct (d_of_Z_finite z Hz) as [->|(m & e & ->)]; [reflexivity|].
  assert (SFleb (S754_finite false m e) (S754_finite false m e) = true) as ->.
  { unfold SFleb, SFcompare. rewrite Z.compare_refl.
    change (Pos.compare_cont Eq m m) with (Pos.compare m m). by rewrite Pos.compare_refl. }
  unfold SFsub. rewrite Z.min_id. rewrite Z.sub_diag. reflexivity.
Qed.
