(* ===== verification/Darray.v ===== *)
(** * Dynamic arrays of ccan/darray

    The macros of [darray.h] as functions on [{item, size, alloc}].  [item] lists
    the allocated cells; a cell [realloc] adds is indeterminate, and holds the
    inhabitant of the type here.  When [realloc] fails the macros store NULL, so
    that the next access is outside the array. *)
From S2P Require Import Prelude.
From S2P Require Import Rule.
#[local] Open Scope Z_scope.

(** ** Data and operations *)
Record darray (A : Type) := mk_darray { item : list A; size : Z; alloc : Z }.
Arguments mk_darray {_} _ _ _.
Arguments item {_} _.
Arguments size {_} _.
Arguments alloc {_} _.

(** The loop of [darray_next_alloc]: 64 doublings reach or wrap every [size_t]. *)
Fixpoint next_alloc_loop (fuel : nat) (alloc need : Z) : res Z :=
  if alloc <? need then
    match fuel with
    | O => Err EFuel
    | S fuel => next_alloc_loop fuel (u64 (alloc * 2)) need
    end
  else Ok alloc.

Definition darray_next_alloc (alloc need : Z) : res Z :=
  next_alloc_loop 64 (if alloc =? 0 then 1 else alloc) need.

Section darray.
Context {A : Type} `{Inhabited A} `{Allocator} (sizeof : Z).
Implicit Types arr : darray A.

Definition darray_new : darray A := mk_darray [] 0 0.
Definition darray_init : darray A := mk_darray [] 0 0.

Definition darray_item arr (i : Z) : res A := aget (item arr) i.
Definition darray_set_item arr (i : Z) (x : A) : res (darray A) :=
  l ← aset (item arr) i x; Ok (mk_darray l (size arr) (alloc arr)).
Definition darray_empty arr : bool := size arr =? 0.

(** [realloc] keeps the cells that fit. *)
Definition darray_realloc arr (newAlloc : Z) : darray A :=
  if alloc_ok (newAlloc * sizeof) then
    mk_darray (take (Z.to_nat newAlloc) (item arr) ++
               replicate (Z.to_nat newAlloc - length (item arr)) inhabitant)
      (size arr) newAlloc
  else mk_darray [] (size arr) newAlloc.

Definition darray_growalloc arr (need : Z) : res (darray A) :=
  if alloc arr <? need then
    a ← darray_next_alloc (alloc arr) need; Ok (darray_realloc arr a)
  else Ok arr.

Definition darray_resize arr (newSize : Z) : res (darray A) :=
  darray_growalloc (mk_darray (item arr) newSize (alloc arr)) newSize.

(** [memset(&item[from], 0, ..)] up to [to]. *)
Definition clear_cells (zero : A) (l : list A) (from to : Z) : res (list A) :=
  mfor from to (λ i l, aset l i zero) l.

Definition darray_resize0 (zero : A) arr (newSize : Z) : res (darray A) :=
  let oldSize := size arr in
  let arr := mk_darray (item arr) newSize (alloc arr) in
  if oldSize <? newSize then
    arr ← darray_growalloc arr newSize;
    l ← clear_cells zero (item arr) oldSize newSize;
    Ok (mk_darray l (size arr) (alloc arr))
  else Ok arr.

Definition darray_append arr (x : A) : res (darray A) :=
  arr ← darray_resize arr (size arr + 1);
  darray_set_item arr (size arr - 1) x.

(** [memmove(item + to, item + from, n)] and [memcpy(item + to, items, ..)]. *)
Definition move_cells (l : list A) (to from n : Z) : res (list A) :=
  let src := take (Z.to_nat n) (drop (Z.to_nat from) l) in
  if bool_decide (0 ≤ from ∧ 0 ≤ to ∧ from + n ≤ zlen l ∧ to + n ≤ zlen l)
  then Ok (list_inserts (Z.to_nat to) src l) else Err EOob.
Definition copy_cells (l : list A) (to : Z) (items : list A) : res (list A) :=
  if bool_decide (0 ≤ to ∧ to + zlen items ≤ zlen l)
  then Ok (list_inserts (Z.to_nat to) items l) else Err EOob.

Definition darray_prepend arr (x : A) : res (darray A) :=
  arr ← darray_resize arr (size arr + 1);
  l ← move_cells (item arr) 1 0 (size arr - 1);
  l ← aset l 0 x;
  Ok (mk_darray l (size arr) (alloc arr)).

Definition darray_insert arr (i : Z) (x : A) : res (darray A) :=
  arr ← darray_resize arr (size arr + 1);
  l ← move_cells (item arr) (i + 1) i (size arr - i - 1);
  l ← aset l i x;
  Ok (mk_darray l (size arr) (alloc arr)).

Definition darray_append_items arr (items : list A) : res (darray A) :=
  let oldSize := size arr in
  arr ← darray_resize arr (oldSize + zlen items);
  l ← copy_cells (item arr) oldSize items;
  Ok (mk_darray l (size arr) (alloc arr)).

Definition darray_prepend_items arr (items : list A) : res (darray A) :=
  let oldSize := size arr in
  arr ← darray_resize arr (zlen items + oldSize);
  l ← move_cells (item arr) (zlen items) 0 oldSize;
  l ← copy_cells l 0 items;
  Ok (mk_darray l (size arr) (alloc arr)).

Definition darray_pop arr : res (darray A * A) :=
  x ← aget (item arr) (size arr - 1);
  Ok (mk_darray (item arr) (size arr - 1) (alloc arr), x).

(** [None] for NULL. *)
Definition darray_pop_check arr : res (darray A * option A) :=
  if negb (size arr =? 0) then '(arr, x) ← darray_pop arr; Ok (arr, Some x)
  else Ok (arr, None).

(** [size - 1] is a [size_t]: on an empty array it wraps. *)
Definition darray_remove arr (i : Z) : res (darray A) :=
  l ← (if i <? u64 (size arr - 1)
       then move_cells (item arr) i (i + 1) (size arr - 1 - i) else Ok (item arr));
  Ok (mk_darray l (u64 (size arr - 1)) (alloc arr)).

Definition darray_from_items arr (items : list A) : res (darray A) :=
  arr ← darray_resize arr (zlen items);
  l ← copy_cells (item arr) 0 items;
  Ok (mk_darray l (size arr) (alloc arr)).

(** The position behind the last element and the array with room behind it. *)
Definition darray_make_room arr (room : Z) : darray A * Z :=
  let newAlloc := size arr + room in
  let arr := if alloc arr <? newAlloc then darray_realloc arr newAlloc else arr in
  (arr, size arr).

End darray.

(** ** Theory *)

Lemma next_alloc_loop_Ok fuel a need :
  0 < a → need ≤ a * 2 ^ Z.of_nat fuel → need ≤ 2 ^ 62 → a < 2 ^ 63 →
  ∃ a', next_alloc_loop fuel a need = Ok a' ∧ need ≤ a' ∧ a ≤ a' < 2 ^ 63.
Proof.
  revert a. induction fuel as [|fuel IH]; intros a Ha Hf Hn Hb; simpl.
  - change (2 ^ Z.of_nat 0) with 1 in Hf. destruct (Z.ltb_spec a need); [lia|]. exists a. split; [done|lia].
  - destruct (Z.ltb_spec a need); [|exists a; split; [done|lia]].
    unfold u64. rewrite Z.mod_small by lia.
    destruct (IH (a * 2)) as (a' & Ha' & ?); [lia| |lia|lia|].
    + rewrite Nat2Z.inj_succ, Z.pow_succ_r in Hf by lia. lia.
    + exists a'. split; [done|lia].
Qed.

Lemma darray_next_alloc_Ok a need :
  0 ≤ a < 2 ^ 63 → need ≤ 2 ^ 62 →
  ∃ a', darray_next_alloc a need = Ok a' ∧ need ≤ a' ∧ a ≤ a' < 2 ^ 63.
Proof.
  intros Ha Hn. unfold darray_next_alloc.
  destruct (next_alloc_loop_Ok 64 (if a =? 0 then 1 else a) need) as (a' & H' & ?);
    [destruct (Z.eqb_spec a 0); lia..|].
  exists a'. split; [done|]. destruct (Z.eqb_spec a 0); lia.
Qed.

Section darray_theory.
Context {A : Type} `{Inhabited A} `{Allocator} (sizeof : Z).
Context (Halloc : ∀ n, alloc_ok n = true).
Implicit Types arr : darray A.

(** The invariant: [alloc] cells, of which the first [size] are the elements. *)
Record darray_ok arr : Prop := {
  da_size : 0 ≤ size arr ≤ alloc arr;
  da_alloc : zlen (item arr) = alloc arr;
  da_bound : alloc arr < 2 ^ 63
}.

Definition elements arr : list A := take (Z.to_nat (size arr)) (item arr).

Lemma elements_length arr : darray_ok arr → zlen (elements arr) = size arr.
Proof. intros [? Ha ?]. unfold zlen, elements in *. rewrite length_take. lia. Qed.

Lemma darray_growalloc_Ok arr need :
  0 ≤ alloc arr < 2 ^ 63 → zlen (item arr) = alloc arr → need ≤ 2 ^ 62 →
  ∃ arr', darray_growalloc sizeof arr need = Ok arr' ∧ size arr' = size arr ∧
    need ≤ alloc arr' < 2 ^ 63 ∧ alloc arr ≤ alloc arr' ∧ zlen (item arr') = alloc arr' ∧
    take (length (item arr)) (item arr') = item arr.
Proof.
  intros Ha Hl Hn. unfold darray_growalloc. destruct (Z.ltb_spec (alloc arr) need).
  - destruct (darray_next_alloc_Ok (alloc arr) need) as (a & -> & ?); [done..|]. simpl.
    eexists. split; [done|]. unfold darray_realloc. rewrite Halloc. simpl.
    unfold zlen in *. rewrite length_app, length_take, length_replicate.
    split; [done|]. split; [lia|]. split; [lia|]. split; [lia|].
    rewrite (take_ge (item arr)) by lia. rewrite take_app_le by lia. by rewrite take_ge.
  - exists arr. split; [done|]. split; [done|]. split; [lia|]. split; [lia|]. split; [done|].
    by rewrite take_ge.
Qed.

(** [darray_resize] keeps the elements that stay. *)
Lemma darray_resize_Ok arr n :
  darray_ok arr → 0 ≤ n ≤ 2 ^ 62 →
  ∃ arr', darray_resize sizeof arr n = Ok arr' ∧ size arr' = n ∧ darray_ok arr' ∧
    ∀ k, (k ≤ length (item arr))%nat → take k (item arr') = take k (item arr).
Proof.
  intros [Hs Hl Hb] Hn. unfold darray_resize.
  destruct (darray_growalloc_Ok (mk_darray (item arr) n (alloc arr)) n) as (arr' & Hg & Hsz & ? & ? & Hl' & Htk);
    simpl in *; [lia|done|lia|].
  exists arr'. split; [done|]. split; [done|]. split; [split; lia|].
  intros k Hk. rewrite <- Htk. rewrite take_take. by replace (k `min` length (item arr))%nat with k by lia.
Qed.

(** Room behind the elements. *)
Lemma darray_make_room_Ok arr room :
  darray_ok arr → 0 ≤ room → size arr + room < 2 ^ 63 →
  ∃ arr', darray_make_room sizeof arr room = (arr', size arr) ∧ size arr' = size arr ∧ darray_ok arr' ∧
    size arr + room ≤ alloc arr'.
Proof.
  intros [Hs Hl Hb] Hr Hn. unfold darray_make_room. destruct (Z.ltb_spec (alloc arr) (size arr + room)).
  - eexists. unfold darray_realloc. rewrite Halloc. cbn [size]. split; [done|]. cbn [size alloc].
    split; [done|]. split; [|lia]. split; cbn [size alloc item]; [lia| |lia].
    unfold zlen in *. rewrite length_app, length_take, length_replicate. lia.
  - exists arr. split; [done|]. split; [done|]. split; [done|lia].
Qed.

Lemma darray_append_Ok arr x :
  darray_ok arr → size arr < 2 ^ 62 →
  ∃ arr', darray_append sizeof arr x = Ok arr' ∧ darray_ok arr' ∧ size arr' = size arr + 1 ∧
          elements arr' = elements arr ++ [x].
Proof.
  intros Hok Hs. destruct (darray_resize_Ok arr (size arr + 1)) as (a1 & Hr & Hsz & Hok1 & Htk);
    [done|destruct Hok; lia|].
  unfold darray_append. rewrite Hr. cbn [mbind res_bind]. unfold darray_set_item.
  destruct Hok as [Hs0 Hl0 Hb0], Hok1 as [Hs1 Hl1 Hb1].
  rewrite Hsz. replace (size arr + 1 - 1) with (size arr) by lia.
  rewrite aset_in by lia. cbn [mbind res_bind]. eexists. split; [done|].
  split; [split; simpl; rewrite ?zlen_insert; lia|]. split; [done|].
  unfold elements; simpl. replace (Z.to_nat (size arr + 1)) with (S (Z.to_nat (size arr))) by lia.
  unfold zlen in *. rewrite take_insert_snoc by lia. by rewrite Htk by lia.
Qed.

Lemma darray_pop_Ok arr l x :
  darray_ok arr → elements arr = l ++ [x] →
  ∃ arr', darray_pop arr = Ok (arr', x) ∧ darray_ok arr' ∧ elements arr' = l.
Proof.
  intros Hok He. pose proof (elements_length arr Hok) as Hlen. destruct Hok as [Hs Hl Hb].
  rewrite He, zlen_app in Hlen. change (zlen [x]) with 1 in Hlen.
  assert (Hx : item arr !! Z.to_nat (size arr - 1) = Some x).
  { rewrite <- (lookup_take_lt _ (Z.to_nat (size arr))) by (unfold zlen in *; lia).
    fold (elements arr). rewrite He. apply list_lookup_middle. unfold zlen in Hlen. lia. }
  unfold darray_pop. rewrite (aget_lookup _ _ x) by (done || (pose proof (zlen_nonneg l); lia)).
  eexists. split; [done|]. pose proof (zlen_nonneg l). split; [split; simpl; lia|].
  unfold elements in *. simpl.
  replace (Z.to_nat (size arr)) with (S (Z.to_nat (size arr - 1))) in He by lia.
  rewrite (take_S_snoc _ _ _ Hx) in He. by apply app_inj_tail in He as [? _].
Qed.

End darray_theory.

(** ** Properties *)

(** [darray_append] on a well-formed array keeps it well formed, adds the item
    behind the elements whether or not the array had to grow, and [darray_pop]
    then returns that item and leaves the elements as they were. *)
Theorem darray_append_pop {A} `{Inhabited A} `{Allocator} (sizeof : Z) (arr : darray A) x :
  (∀ n, alloc_ok n = true) → darray_ok arr → size arr < 2 ^ 62 →
  ∃ arr', darray_append sizeof arr x = Ok arr' ∧ darray_ok arr' ∧
    elements arr' = elements arr ++ [x] ∧
    ∃ arr'', darray_pop arr' = Ok (arr'', x) ∧ darray_ok arr'' ∧ elements arr'' = elements arr.
Proof.
  intros Ha Hok Hs. destruct (darray_append_Ok sizeof Ha arr x Hok Hs) as (a' & Hap & Hok' & _ & He).
  exists a'. split; [done|]. split; [done|]. split; [done|]. by apply darray_pop_Ok.
Qed.

Lemma darray_append_pop_witness :
  let H : Allocator := λ _, true in
  ∃ arr', darray_append 8 (mk_darray [7; 8] 2 2) 9 = Ok arr' ∧ darray_ok arr' ∧
    elements arr' = [7; 8] ++ [9] ∧
    ∃ arr'', darray_pop arr' = Ok (arr'', 9) ∧ darray_ok arr'' ∧ elements arr'' = [7; 8].
Proof.
  intros H. apply (darray_append_pop 8 (mk_darray [7; 8] 2 2) 9); [done| |simpl; lia].
  split; simpl; lia || done.
Defined.
