(* ===== verification/CutInl.v ===== *)
(** * The decision-tree node and the code all cut methods share

    [cut-inl.h] and [cut-inl.c]: the tree node [struct cnode], the scratch state
    [struct cut_aux], [remove_redund], [get_match_expect], [roundup_log2] and
    [cut_recursive].

    The children of a node are the array its [child_ptr] points into; a bitmap
    node points into the middle of it.  The union of the three node kinds is a
    sum: which member is valid is decided by the node's [type], and a node that
    was not cut is all zero. *)
From S2P Require Import Prelude.
From S2P Require Import Rule.
From S2P Require Import Ranges.
From S2P Require Import Heap.
From S2P Require Import Double.
From S2P Require Import Darray.
From S2P Require Import MbNode.
#[local] Open Scope Z_scope.

(** ** Data *)
Definition CHILDCOUNT : Z := Z.shiftl 1 STRIDE + Z.shiftl 1 STRIDE - 1.
Definition INL_OFFSET : Z := Z.shiftl 1 STRIDE - 1.
Definition HICHILD : Z := Z.shiftl 1 STRIDE.

Record rule_hist := mk_hist { child_rulecount : list Z; childs : Z; rules : Z }.

Record mb_node := mk_mb { external : Z; internal : Z }.
Record sp_node := mk_sp {
  dim_left : Z; dim_right : Z; shape : Z; root_split : Z; left_split : Z; right_split : Z }.
Record hi_node := mk_hn { hn_start : Z; hn_shift : Z; hn_bitmap : Z }.

Inductive cut_type := BITMAP_CUT | SPLIT_CUT | HI_CUT.
#[global] Instance cut_type_eq_dec : EqDecision cut_type.
Proof. solve_decision. Defined.

(** The union, each member with the array behind its [child_ptr]; the bitmap
    node's pointer is an index into the array. *)
Inductive body (C : Type) :=
  | BZero
  | BMb (mb : mb_node) (cs : list C) (child_ptr : Z)
  | BSp (sp : sp_node) (cs : list C)
  | BHi (hn : hi_node) (cs : list C).
Arguments BZero {_}.
Arguments BMb {_} _ _ _.
Arguments BSp {_} _ _.
Arguments BHi {_} _ _.

Inductive cnode := CNode (u : body cnode) (dim : Z) (leaf : bool) (type : cut_type) (ruleset : rule_set_t).

Definition n_body (n : cnode) : body cnode := let '(CNode u _ _ _ _) := n in u.
Definition n_dim (n : cnode) : Z := let '(CNode _ d _ _ _) := n in d.
Definition n_leaf (n : cnode) : bool := let '(CNode _ _ l _ _) := n in l.
Definition n_type (n : cnode) : cut_type := let '(CNode _ _ _ t _) := n in t.
Definition n_ruleset (n : cnode) : rule_set_t := let '(CNode _ _ _ _ rs) := n in rs.
Definition with_ruleset (n : cnode) (rs : rule_set_t) : cnode :=
  let '(CNode u d l t _) := n in CNode u d l t rs.

(** A [calloc]ed or [memset] node. *)
Definition zero_cnode : cnode := CNode BZero 0 false BITMAP_CUT (mk_rs 0 0 []).
#[global] Instance cnode_inhabited : Inhabited cnode := populate zero_cnode.

(** The array behind [child_ptr]. *)
Definition n_childs (n : cnode) : list cnode :=
  match n_body n with
  | BZero => []
  | BMb _ cs _ | BSp _ cs | BHi _ cs => cs
  end.

Record snode := mk_snode {
  s_dim : Z; s_flags : Z; s_r0 : range1d; s_r1 : range1d; s_ruleset : rule_set_t }.
Record stree := mk_stree { st_root : snode; st_left : snode; st_right : snode }.

(** [d_ranges_t] *)
Definition d_ranges_t : Type := darray range1d.

Record split_aux := mk_split_aux {
  sa_ranges : d_ranges_t; sa_h : heap range1d;
  left_rules : rule_set_t; right_rules : rule_set_t; strees : list stree }.

Record hi_aux := mk_hi_aux {
  ha_ranges : d_ranges_t; ha_h : heap range1d; ha_hist : list rule_hist;
  ha_shift : list Z; ha_start : list Z; ha_node_r : list (list (Z * Z)) }.

Record cut_aux := mk_cut_aux { hist : list rule_hist; ca_split : split_aux; ca_hi : hi_aux }.

#[global] Instance hist_inhabited : Inhabited rule_hist := populate (mk_hist (replicate 127 0) 0 0).
#[global] Instance snode_inhabited : Inhabited snode :=
  populate (mk_snode 0 0 inhabitant inhabitant (mk_rs 0 0 [])).
#[global] Instance stree_inhabited : Inhabited stree := populate (mk_stree inhabitant inhabitant inhabitant).

(** A cleared histogram ([memset]). *)
Definition zero_hist : rule_hist := mk_hist (replicate 127 0) 0 0.

(** ** Operations (cut-inl.c) *)

(** First loop of [remove_redund]: mark the rules that an earlier rule contains. *)
Definition mark_redund (n : Z) (l : list rule_t) : res (list rule_t) :=
  mfor 1 n (λ i l,
    mfor 0 i (λ j l,
      rj ← aget l j;
      ri ← aget l i;
      if rule_contained rj ri then aset l i (mk_rule UINT32_MAX (range ri)) else Ok l) l) l.

(** Second loop: move the rules that are not marked to the front. *)
Definition compact_rules (n : Z) (l : list rule_t) : res (list rule_t * Z) :=
  mfor 1 n (λ i '(l, j),
    ri ← aget l i;
    if negb (pri ri =? UINT32_MAX) then l' ← aset l j ri; Ok (l', j + 1) else Ok (l, j)) (l, 1).

Definition remove_redund (ruleset : rule_set_t) : res rule_set_t :=
  l ← mark_redund (num ruleset) (ruleList ruleset);
  '(l, j) ← compact_rules (num ruleset) l;
  Ok (mk_rs j (cap ruleset) l).

Definition memory_constraints : bool := true.

Definition get_match_expect (h : rule_hist) : double :=
  for_ 0 CHILDCOUNT (λ i ret,
    let c := anth (child_rulecount h) i in
    if negb (c =? 0) then dadd ret (ddiv (d_of_Z (s32 (c * c))) (d_of_Z (rules h))) else ret)
    (d_of_Z 0).

Definition roundup_log2 (n : Z) : res Z :=
  _ ← assert_ (negb (n =? 0));
  let shift := 32 - clz32 n in
  Ok (if n =? Z.shiftl 1 (shift - 1) then shift - 1 else shift).

Definition aux_heap_less (r1 r2 : range1d) : bool := high r1 <? high r2.

(** [cut_node] is passed in: the tree is cut by mutual recursion through the
    table of methods. *)
Definition cut_fun : Type := cnode → cut_aux → res (cnode * cut_aux).

(** [remove_redund(&cn[i].ruleset); cut_node(&cn[i], aux);] *)
Definition cut_child (cut_node : cut_fun) (i : Z) (s : list cnode * cut_aux)
    : res (list cnode * cut_aux) :=
  let '(cn, aux) := s in
  c ← aget cn i;
  rs ← remove_redund (n_ruleset c);
  '(c', aux') ← cut_node (with_ruleset c rs) aux;
  cn' ← aset cn i c';
  Ok (cn', aux').

Definition cut_recursive (cut_node : cut_fun) (cn : list cnode) (n : Z) (aux : cut_aux)
    : res (list cnode * cut_aux) :=
  mfor 0 n (cut_child cut_node) (cn, aux).

(** [append_rules(&childs[i].ruleset, r)] *)
Definition append_child (cs : list cnode) (i : Z) (r : rule_t) : res (list cnode) :=
  c ← aget cs i;
  rs ← append_rules (n_ruleset c) r;
  aset cs i (with_ruleset c rs).

(** The loop both sweep methods start with: one range of weight 1 for every rule,
    written to the scratch array of ranges. *)
Definition load_ranges (ruleset : rule_set_t) (dim : Z) (l : list range1d) : res (list range1d) :=
  mfor 0 (num ruleset) (λ i l,
    r ← aget (ruleList ruleset) i;
    aset l i (mk_r1 (rng r dim).1 (rng r dim).2 1)) l.

(** [for(j = 0; j < h->len; j++) sum += h->data[j]->weight] *)
Definition heap_weight (h : heap range1d) : Z :=
  foldl (λ s r, s + weight r) 0 (take (hlen h) (data h)).

Definition set_ranges (arr : d_ranges_t) (l : list range1d) : d_ranges_t :=
  mk_darray l (size arr) (alloc arr).

Definition sizeof_range1d : Z := 12.
