(* ===== verification/Redund.v ===== *)
(** * Redundancy removal

    [remove_redund] of cut-inl.c: the two loops keep the first rule and every
    later rule that no earlier rule contains, and this does not change the answer
    of any search.  The function assumes at least one rule. *)
From S2P Require Import Prelude.
From S2P Require Import Rule.
From S2P Require Import Classify.
From S2P Require Import CutInl.
#[local] Open Scope Z_scope.

(** ** The reference: the rules that stay *)
Fixpoint kept_from (seen l : list rule_t) : list rule_t :=
  match l with
  | [] => []
  | r :: l =>
    if existsb (λ s, rule_contained s r) seen || (pri r =? UINT32_MAX)
    then kept_from (seen ++ [r]) l else r :: kept_from (seen ++ [r]) l
  end.
Definition kept (l : list rule_t) : list rule_t :=
  match l with [] => [] | r :: l => r :: kept_from [r] l end.

Lemma kept_from_snoc seen l r :
  kept_from seen (l ++ [r]) = kept_from seen l ++
    (if existsb (λ s, rule_contained s r) (seen ++ l) || (pri r =? UINT32_MAX) then [] else [r]).
Proof.
  revert seen. induction l as [|x l IH]; intros seen; simpl.
  - rewrite app_nil_r. by destruct (_ || _).
  - rewrite IH, <- app_assoc. simpl. by destruct (_ || _).
Qed.

Lemma kept_from_subseteq seen l r : r ∈ kept_from seen l → r ∈ l.
Proof.
  revert seen. induction l as [|x l IH]; intros seen; simpl; [done|].
  destruct (_ || _); set_solver.
Qed.

Lemma kept_subseteq l r : r ∈ kept l → r ∈ l.
Proof. destruct l; simpl; [done|]. rewrite !elem_of_cons. intros [->|?%kept_from_subseteq]; auto. Qed.

Lemma kept_from_length seen l : (length (kept_from seen l) ≤ length l)%nat.
Proof. revert seen. induction l as [|x l IH]; intros seen; simpl; [done|]. destruct (_ || _); simpl; specialize (IH (seen ++ [x])); lia. Qed.

(** A contained rule is never the first match. *)
Lemma kept_from_classify seen l f :
  (∀ s, s ∈ seen → lsearch_match f s = false) → (∀ r, r ∈ l → pri r ≠ UINT32_MAX) →
  classify (kept_from seen l) f = classify l f.
Proof.
  revert seen. induction l as [|r l IH]; intros seen Hs Hp; simpl; [done|].
  rewrite (proj2 (Z.eqb_neq (pri r) UINT32_MAX)) by (apply Hp; left). rewrite orb_false_r.
  assert (IH' : lsearch_match f r = false → classify (kept_from (seen ++ [r]) l) f = classify l f).
  { intros Hr. apply IH; [|intros; apply Hp; by right].
    intros s [Hin|Hin%list_elem_of_singleton]%elem_of_app; [auto|by subst]. }
  destruct (existsb _ seen) eqn:E; simpl.
  - apply existsb_exists in E as (s & Hin%list_elem_of_In & Hc).
    destruct (lsearch_match f r) eqn:Er; [|by apply IH'].
    pose proof (rule_contained_matches s r f Hc Er) as Hm. by rewrite (Hs s Hin) in Hm.
  - destruct (lsearch_match f r) eqn:Er; [done|by apply IH'].
Qed.

Lemma kept_classify l f :
  (∀ r, r ∈ l → pri r ≠ UINT32_MAX) → classify (kept l) f = classify l f.
Proof.
  destruct l as [|r l]; intros Hp; simpl; [done|].
  destruct (lsearch_match f r) eqn:Er; [done|].
  apply kept_from_classify; [set_solver|]. intros; apply Hp. by right.
Qed.

(** ** The first loop *)

(** Cell [i] after the first loop. *)
Definition redundant (l : list rule_t) (i : nat) : bool :=
  existsb (λ s, rule_contained s (l !!! i)) (take i l).
Definition marked (l : list rule_t) (n i : nat) (r : rule_t) : rule_t :=
  if bool_decide (0 < i < n)%nat && redundant l i then mk_rule UINT32_MAX (range r) else r.

(** Containment looks at the ranges only. *)
Lemma rule_contained_range a b a' b' :
  range a = range a' → range b = range b' → rule_contained a b = rule_contained a' b'.
Proof. intros Ha Hb. unfold rule_contained, rng. by rewrite Ha, Hb. Qed.

Lemma existsb_take_S {A} (P : A → bool) (l : list A) n x :
  l !! n = Some x → existsb P (take (S n) l) = existsb P (take n l) || P x.
Proof. intros Hx. rewrite (take_S_snoc l n x Hx), existsb_app. simpl. by rewrite orb_false_r. Qed.

(** The inner loop marks cell [i] when one of the cells before it contains it. *)
Lemma mark_inner l s i r :
  length s = length l → (i < length l)%nat → l !! i = Some r →
  (∀ k a b, l !! k = Some a → s !! k = Some b → range b = range a) → s !! i = Some r →
  mfor 0 (Z.of_nat i) (λ j s,
      rj ← aget s j;
      ri ← aget s (Z.of_nat i);
      if rule_contained rj ri then aset s (Z.of_nat i) (mk_rule UINT32_MAX (range ri)) else Ok s) s =
  Ok (<[i := if redundant l i then mk_rule UINT32_MAX (range r) else r]> s).
Proof.
  intros Hlen Hi Hr Hrange Hsi. unfold mfor.
  set (body := λ (j : Z) (s : list rule_t), _).
  set (cell := λ b : bool, if b then mk_rule UINT32_MAX (range r) else r).
  destruct (mfold_inv (λ (done : list Z) st,
    st = <[i := cell (existsb (λ a, rule_contained a r) (take (length done) l))]> s)
    body (seqZ 0 (Z.of_nat i - 0)) s) as (s' & Hm & Hs').
  - simpl. by rewrite list_insert_id.
  - intros pre x st -> [post Hpost]. apply seqZ_split in Hpost as [Hx Hxi].
    unfold zlen in Hx. set (p := length pre) in *.
    destruct (lookup_lt_is_Some_2 l p) as [a Ha]; [lia|].
    destruct (lookup_lt_is_Some_2 s p) as [b Hb]; [lia|].
    unfold body. rewrite length_app, Nat.add_1_r. fold p.
    rewrite (existsb_take_S _ l p a) by done.
    set (e := existsb _ (take p l)).
    rewrite (aget_lookup _ x b)
      by (first [lia|replace (Z.to_nat x) with p by lia; by rewrite list_lookup_insert_ne by lia]).
    cbn [mbind res_bind].
    rewrite (aget_lookup _ (Z.of_nat i) (cell e))
      by (first [lia|rewrite Nat2Z.id; by rewrite list_lookup_insert_eq by lia]).
    cbn [mbind res_bind].
    assert (Hcell : ∀ c, range (cell c) = range r) by (intros []; done).
    rewrite (rule_contained_range b (cell e) a r) by eauto.
    destruct (rule_contained a r).
    + rewrite aset_in by (unfold zlen; rewrite length_insert; lia).
      eexists. split; [done|]. rewrite Nat2Z.id, list_insert_insert_eq, orb_true_r, Hcell. done.
    + eexists. split; [done|]. by rewrite orb_false_r.
  - rewrite Hm, Hs'. rewrite length_seqZ.
    replace (Z.to_nat (Z.of_nat i - 0)) with i by lia. unfold cell, redundant.
    by rewrite (list_lookup_total_correct _ _ _ Hr).
Qed.

Lemma marked_range l n i r : range (marked l n i r) = range r.
Proof. unfold marked. by destruct (_ && _). Qed.

Lemma mark_redund_spec l n :
  0 ≤ n ≤ zlen l → mark_redund n l = Ok (imap (marked l (Z.to_nat n)) l).
Proof.
  intros Hn. unfold mark_redund, mfor, zlen in *. set (body := λ (i : Z) (l : list rule_t), _).
  destruct (mfold_inv (λ (done : list Z) st, st = imap (marked l (S (length done))) l)
    body (seqZ 1 (n - 1)) l) as (s' & Hm & Hs').
  - apply list_eq. intros i. rewrite list_lookup_imap. unfold marked.
    destruct (l !! i) eqn:E; simpl; [|done]. by rewrite bool_decide_false by lia.
  - intros pre x st -> [post Hpost]. apply seqZ_split in Hpost as [Hx Hxn]. unfold zlen in Hx.
    set (i := S (length pre)) in *. rewrite length_app, Nat.add_1_r. fold i.
    assert (Hxi : x = Z.of_nat i) by lia.
    destruct (lookup_lt_is_Some_2 l i) as [r Hr]; [lia|].
    set (st := imap (marked l i) l). exists (imap (marked l (S i)) l). split; [|done].
    unfold body. rewrite Hxi.
    pose proof (mark_inner l st i r) as Hin. unfold mfor in Hin. rewrite Hin; clear Hin.
    + f_equal. apply list_eq. intros k. unfold st. rewrite list_lookup_imap.
      destruct (decide (k = i)) as [->|Hki].
      * rewrite list_lookup_insert_eq by (rewrite length_imap; lia). rewrite Hr. simpl.
        unfold marked. rewrite bool_decide_true by lia. done.
      * rewrite list_lookup_insert_ne by done. rewrite list_lookup_imap.
        destruct (l !! k); simpl; [|done]. unfold marked.
        by rewrite (bool_decide_ext (0 < k < i)%nat (0 < k < S i)%nat) by lia.
    + unfold st. by rewrite length_imap.
    + lia.
    + done.
    + intros k a b Ha Hb. unfold st in Hb. rewrite list_lookup_imap, Ha in Hb. simpl in Hb.
      injection Hb as <-. apply marked_range.
    + unfold st. rewrite list_lookup_imap, Hr. simpl. unfold marked. by rewrite bool_decide_false by lia.
  - rewrite Hm, Hs'. f_equal. rewrite length_seqZ.
    destruct (decide (n = 0)) as [->|]; [|by replace (S (Z.to_nat (n - 1))) with (Z.to_nat n) by lia].
    apply list_eq. intros i. rewrite !list_lookup_imap. destruct (l !! i); simpl; [|done].
    unfold marked. by rewrite !bool_decide_false by (simpl; lia).
Qed.

(** ** The second loop *)
Definition unmarked (r : rule_t) : Prop := pri r ≠ UINT32_MAX.

(** Invariant after [i] rules: the cells below [j] hold the first rule and the
    unmarked ones so far; the cells from [i] on are untouched. *)
Definition cinv (l : list rule_t) (i : nat) (s : list rule_t * Z) : Prop :=
  let k := filter unmarked (drop 1 (take i l)) in
  length s.1 = length l ∧ s.2 = 1 + zlen k ∧ take (S (length k)) s.1 = take 1 l ++ k ∧
  ∀ m, (i ≤ m)%nat → s.1 !! m = l !! m.

Lemma compact_rules_spec l n :
  0 < n ≤ zlen l →
  ∃ l', compact_rules n l = Ok (l', 1 + zlen (filter unmarked (drop 1 (take (Z.to_nat n) l)))) ∧
    length l' = length l ∧
    take (S (length (filter unmarked (drop 1 (take (Z.to_nat n) l))))) l' =
      take 1 l ++ filter unmarked (drop 1 (take (Z.to_nat n) l)).
Proof.
  intros Hn. unfold compact_rules, mfor, zlen in Hn |- *. set (body := λ (i : Z) '(l, j), _).
  destruct (mfold_inv (λ (done : list Z) st, cinv l (S (length done)) st)
    body (seqZ 1 (n - 1)) (l, 1)) as ([l' j] & Hm & Hi).
  - destruct l as [|r l]; [simpl in Hn; lia|]. unfold cinv. simpl. rewrite firstn_O. done.
  - intros pre x [st j] (Hlen & Hj & Htk & Hrest) [post Hpost].
    apply seqZ_split in Hpost as [Hx Hxn]. unfold zlen in Hx. simpl in Hlen, Hj, Htk, Hrest.
    set (i := S (length pre)) in *. assert (Hxi : x = Z.of_nat i) by lia.
    destruct (lookup_lt_is_Some_2 l i) as [r Hr]; [lia|].
    assert (Hki : (length (filter unmarked (drop 1 (take i l))) ≤ i - 1)%nat).
    { etransitivity; [apply length_filter|]. rewrite length_drop, length_take. lia. }
    unfold body. rewrite (aget_lookup st x r)
      by (first [lia|rewrite Hxi, Nat2Z.id, Hrest by lia; done]).
    cbn [mbind res_bind]. rewrite length_app, Nat.add_1_r. fold i.
    unfold cinv. rewrite (take_S_snoc l i r Hr). rewrite drop_app_le by (rewrite length_take; lia).
    rewrite filter_app. set (k := filter unmarked (drop 1 (take i l))) in *.
    destruct (Z.eqb_spec (pri r) UINT32_MAX) as [Hp|Hp]; cbn [negb].
    + eexists. split; [done|]. rewrite (filter_cons_False unmarked) by (unfold unmarked; auto).
      rewrite app_nil_r. split; [done|]. split; [done|]. split; [done|]. intros m Hmi. apply Hrest. lia.
    + rewrite aset_in by (unfold zlen in *; lia). cbn [mbind res_bind]. eexists. split; [done|].
      rewrite (filter_cons_True unmarked) by done. cbn [fst snd]. change (filter unmarked []) with (@nil rule_t).
      unfold zlen in *. rewrite length_app, length_insert. change (length [r]) with 1%nat.
      split; [done|]. split; [lia|].
      replace (Z.to_nat j) with (S (length k)) by lia. rewrite Nat.add_1_r. split.
      * rewrite take_insert_snoc by lia. by rewrite Htk, <- app_assoc.
      * intros m Hmi. rewrite list_lookup_insert_ne by lia. apply Hrest. lia.
  - rewrite length_seqZ in Hi. replace (S (Z.to_nat (n - 1))) with (Z.to_nat n) in Hi by lia.
    destruct Hi as (Hlen & Hj & Htk & _). simpl in *. rewrite Hm. exists l'. subst j. done.
Qed.

(** The marked list without the marked rules is the reference. *)
Lemma filter_marked l n i :
  (1 ≤ i ≤ n)%nat → (n ≤ length l)%nat →
  filter unmarked (drop 1 (take i (imap (marked l n) l))) = kept_from (take 1 l) (drop 1 (take i l)).
Proof.
  intros Hi Hn. induction i as [|i IH]; [lia|].
  destruct (decide (i = 0)%nat) as [->|Hi0].
  { destruct l; [simpl in *; lia|]. done. }
  destruct (lookup_lt_is_Some_2 l i) as [r Hr]; [lia|].
  rewrite (take_S_snoc l i r Hr).
  rewrite (take_S_snoc _ i (marked l n i r)) by (by rewrite list_lookup_imap, Hr).
  rewrite !drop_app_le by (rewrite length_take, ?length_imap; lia).
  rewrite filter_app, kept_from_snoc, IH by lia. f_equal.
  assert (Hsplit : take 1 l ++ drop 1 (take i l) = take i l).
  { destruct l, i; simpl; try lia; rewrite ?firstn_O; done. }
  rewrite Hsplit. unfold marked. rewrite bool_decide_true by lia. simpl.
  unfold redundant. rewrite (list_lookup_total_correct _ _ _ Hr).
  destruct (existsb _ _); simpl; [by rewrite (filter_cons_False unmarked) by (unfold unmarked; auto)|].
  destruct (Z.eqb_spec (pri r) UINT32_MAX).
  - by rewrite (filter_cons_False unmarked) by (unfold unmarked; auto).
  - by rewrite (filter_cons_True unmarked) by done.
Qed.

(** ** [remove_redund] computes the reference *)
Lemma remove_redund_spec rs :
  rs_ok rs → 0 < num rs →
  ∃ rs', remove_redund rs = Ok rs' ∧ rs_ok rs' ∧ live rs' = kept (live rs) ∧
         cap rs' = cap rs ∧ 0 < num rs' ≤ num rs.
Proof.
  intros [Hn Hl] H0. unfold remove_redund. rewrite mark_redund_spec by lia. cbn [mbind res_bind].
  set (n := Z.to_nat (num rs)). set (l := ruleList rs) in *. unfold zlen in Hl.
  destruct (compact_rules_spec (imap (marked l n) l) (num rs)) as (l' & Hc & Hlen & Htk).
  { unfold zlen. rewrite length_imap. lia. }
  fold n in Hc, Htk. rewrite filter_marked in Hc, Htk by (unfold n; lia).
  rewrite Hc. cbn [mbind res_bind]. rewrite length_imap in Hlen.
  set (k := kept_from (take 1 l) (drop 1 (take n l))) in *.
  assert (Hk : (length k ≤ n - 1)%nat).
  { etransitivity; [apply kept_from_length|]. rewrite length_drop, length_take. lia. }
  eexists. split; [done|]. unfold zlen. split; [split; simpl; unfold zlen; lia|].
  split; [|simpl; lia]. unfold live. cbn [num ruleList]. fold l n.
  replace (Z.to_nat (1 + Z.of_nat (length k))) with (S (length k)) by lia. rewrite Htk.
  destruct l as [|r l0] eqn:El; [simpl in *; lia|].
  assert (∃ n', n = S n') as [n' ->] by (exists (n - 1)%nat; unfold n; lia).
  unfold k. cbn [take imap drop]. rewrite ?firstn_O. unfold marked at 1.
  rewrite bool_decide_false by lia. simpl. by rewrite drop_0.
Qed.

(** ** Properties *)

(** C8: [remove_redund] on a non-empty well-formed set runs without leaving the
    array, drops rules only, and the linear search gives the same answer for
    every packet. *)
Theorem remove_redund_correct rs :
  rs_ok rs → 0 < num rs → (∀ r, r ∈ live rs → pri r ≠ UINT32_MAX) →
  ∃ rs', remove_redund rs = Ok rs' ∧ rs_ok rs' ∧ num rs' ≤ num rs ∧
    (∀ r, r ∈ live rs' → r ∈ live rs) ∧ ∀ f, lsearch rs' f = lsearch rs f.
Proof.
  intros Hok H0 Hp. destruct (remove_redund_spec rs Hok H0) as (rs' & Hr & Hok' & Hl & _ & Hn).
  exists rs'. split; [done|]. split; [done|]. split; [lia|]. rewrite Hl.
  split; [apply kept_subseteq|]. intros f. rewrite !lsearch_spec by done. rewrite Hl.
  by rewrite kept_classify.
Qed.

Lemma remove_redund_correct_witness :
  let w := (0, 9) in
  let rs := mk_rs 2 2 [mk_rule 0 [w; w; w; w; w]; mk_rule 1 [(1, 2); w; w; w; w]] in
  ∃ rs', remove_redund rs = Ok rs' ∧ rs_ok rs' ∧ num rs' ≤ num rs ∧
    (∀ r, r ∈ live rs' → r ∈ live rs) ∧ ∀ f, lsearch rs' f = lsearch rs f.
Proof.
  intros w rs. apply (remove_redund_correct rs); [split; [simpl; lia|done]|simpl; lia|].
  intros r Hr. cbn in Hr. repeat (apply elem_of_cons in Hr as [->|Hr]; [simpl; lia|]). set_solver.
Defined.

(** On an empty set [remove_redund] sets [num] to 1: the linear search of the
    result reads one rule past the (empty) array for every packet. *)
Theorem remove_redund_empty_bug f :
  remove_redund (mk_rs 0 0 []) = Ok (mk_rs 1 0 []) ∧
  lsearch (mk_rs 0 0 []) f = Ok (-1) ∧ lsearch (mk_rs 1 0 []) f = Err EOob.
Proof. done. Qed.
