(* ===== verification/Push.v ===== *)
(** * Distributing rules over children

    All cut methods hand the rules of a node to its children with
    [append_rules], in some order.  This file describes the effect of a sequence
    of such calls on an array of children: every child gets, behind the rules it
    has, the rules addressed to it, in order; and no call fails as long as the
    room allocated for a child is enough for them. *)
From S2P Require Import Prelude.
From S2P Require Import Rule.
From S2P Require Import Classify.
From S2P Require Import Heap.
From S2P Require Import CutInl.
#[local] Open Scope Z_scope.

Lemma append_rules_Ok rs r :
  rs_ok rs → num rs < cap rs →
  ∃ rs', append_rules rs r = Ok rs' ∧ rs_ok rs' ∧ live rs' = live rs ++ [r] ∧
         cap rs' = cap rs ∧ num rs' = num rs + 1.
Proof.
  intros [Hn Hl] Hlt. unfold append_rules, assert_. rewrite bool_decide_true by done. simpl.
  rewrite aset_in by lia. simpl. eexists. split; [done|].
  split; [split; simpl; rewrite ?zlen_insert; lia|].
  split; [|simpl; lia]. unfold live; simpl.
  replace (Z.to_nat (num rs + 1)) with (S (Z.to_nat (num rs))) by lia.
  unfold zlen in *. by rewrite take_insert_snoc by lia.
Qed.

(** The rules addressed to child [p]. *)
Definition ops_at (p : Z) (ops : list (Z * rule_t)) : list rule_t :=
  snd <$> filter (λ o, o.1 = p) ops.

Lemma ops_at_app p o1 o2 : ops_at p (o1 ++ o2) = ops_at p o1 ++ ops_at p o2.
Proof. unfold ops_at. by rewrite filter_app, fmap_app. Qed.

Lemma ops_at_cons p o ops :
  ops_at p (o :: ops) = (if decide (o.1 = p) then [o.2] else []) ++ ops_at p ops.
Proof.
  unfold ops_at. case_decide as Hd.
  - by rewrite filter_cons_True.
  - by rewrite filter_cons_False.
Qed.

Definition push_op (o : Z * rule_t) (cs : list cnode) : res (list cnode) := append_child cs o.1 o.2.

(** A child after receiving rules: only its rule set has changed. *)
Definition received (c c' : cnode) (rs : list rule_t) : Prop :=
  c' = with_ruleset c (n_ruleset c') ∧ rs_ok (n_ruleset c') ∧
  live (n_ruleset c') = live (n_ruleset c) ++ rs ∧ cap (n_ruleset c') = cap (n_ruleset c) ∧
  num (n_ruleset c') = num (n_ruleset c) + zlen rs.

Lemma with_ruleset_ruleset c rs : n_ruleset (with_ruleset c rs) = rs.
Proof. by destruct c. Qed.
Lemma with_ruleset_id c : with_ruleset c (n_ruleset c) = c.
Proof. by destruct c. Qed.
Lemma with_ruleset_twice c a b : with_ruleset (with_ruleset c a) b = with_ruleset c b.
Proof. by destruct c. Qed.

Lemma received_nil c : rs_ok (n_ruleset c) → received c c [].
Proof.
  intros Hok. split; [by rewrite with_ruleset_id|]. split; [done|].
  rewrite app_nil_r. change (zlen []) with 0. split; [done|]. split; [done|lia].
Qed.

Lemma received_trans c1 c2 c3 r1 r2 :
  received c1 c2 r1 → received c2 c3 r2 → received c1 c3 (r1 ++ r2).
Proof.
  intros (E1 & O1 & L1 & C1 & N1) (E2 & O2 & L2 & C2 & N2). split.
  { rewrite E2 at 1. rewrite E1 at 1. by rewrite with_ruleset_twice. }
  split; [done|]. split; [by rewrite L2, L1, app_assoc|]. split; [congruence|].
  rewrite zlen_app. lia.
Qed.

(** The effect of a sequence of [append_rules] calls. *)
Lemma push_ops_spec ops cs :
  (∀ o, o ∈ ops → 0 ≤ o.1 < zlen cs) →
  (∀ p c, cs !! p = Some c → rs_ok (n_ruleset c) ∧
     num (n_ruleset c) + zlen (ops_at (Z.of_nat p) ops) ≤ cap (n_ruleset c)) →
  ∃ cs', mfold push_op ops cs = Ok cs' ∧ length cs' = length cs ∧
    ∀ p c, cs !! p = Some c → ∃ c', cs' !! p = Some c' ∧ received c c' (ops_at (Z.of_nat p) ops).
Proof.
  revert cs. induction ops as [|[q r] ops IH]; intros cs Hin Hcap.
  { exists cs. split; [done|]. split; [done|]. intros p c Hc. exists c.
    split; [done|]. apply received_nil. by eapply Hcap. }
  pose proof (Hin (q, r) ltac:(left)) as Hq. simpl in Hq. unfold zlen in Hq.
  destruct (lookup_lt_is_Some_2 cs (Z.to_nat q)) as [c Hc]; [lia|].
  destruct (Hcap _ _ Hc) as [Hok Hn]. rewrite Z2Nat.id, ops_at_cons, decide_True in Hn by (done || lia).
  rewrite zlen_app in Hn. simpl in Hn. change (zlen [r]) with 1 in Hn.
  pose proof (zlen_nonneg (ops_at q ops)).
  destruct (append_rules_Ok (n_ruleset c) r Hok) as (rs' & Hap & Hok' & Hlive & Hcap' & Hnum); [lia|].
  change (mfold push_op ((q, r) :: ops) cs) with (cs' ← append_child cs q r; mfold push_op ops cs').
  unfold append_child at 1.
  rewrite (aget_lookup cs q c) by (lia || done). cbn [mbind res_bind]. rewrite Hap. cbn [mbind res_bind].
  rewrite aset_in by (unfold zlen; lia). cbn [mbind res_bind].
  set (cs1 := <[Z.to_nat q := with_ruleset c rs']> cs).
  assert (Hrec1 : received c (with_ruleset c rs') [r]).
  { unfold received. rewrite with_ruleset_ruleset. done. }
  destruct (IH cs1) as (cs' & Hm & Hlen & Hall).
  { intros o Ho. unfold cs1. rewrite zlen_insert. apply Hin. by right. }
  { intros p c1 Hp. unfold cs1 in Hp. destruct (decide (p = Z.to_nat q)) as [->|Hne].
    - rewrite list_lookup_insert_eq in Hp by lia. injection Hp as <-.
      rewrite with_ruleset_ruleset. split; [done|]. rewrite Z2Nat.id by lia. lia.
    - rewrite list_lookup_insert_ne in Hp by done. destruct (Hcap _ _ Hp) as [? Hcp].
      rewrite ops_at_cons, decide_False in Hcp by (simpl; lia). done. }
  exists cs'. split; [done|]. split; [rewrite Hlen; unfold cs1; by rewrite length_insert|].
  intros p c0 Hp. rewrite ops_at_cons. cbn [fst snd].
  destruct (decide (p = Z.to_nat q)) as [->|Hne].
  - rewrite Hc in Hp. injection Hp as <-. rewrite Z2Nat.id, decide_True by (done || lia).
    destruct (Hall (Z.to_nat q) (with_ruleset c rs')) as (c' & Hc' & Hrec).
    { unfold cs1. by rewrite list_lookup_insert_eq by lia. }
    exists c'. split; [done|]. rewrite Z2Nat.id in Hrec by lia.
    by eapply received_trans.
  - rewrite decide_False by lia. apply Hall. unfold cs1. by rewrite list_lookup_insert_ne by done.
Qed.

(** *** Calls that are known to have succeeded *)
Lemma append_rules_inv rs r rs' :
  rs_ok rs → append_rules rs r = Ok rs' →
  rs_ok rs' ∧ live rs' = live rs ++ [r] ∧ cap rs' = cap rs ∧ num rs' = num rs + 1.
Proof.
  intros Hok Ha. destruct (decide (num rs < cap rs)) as [Hlt|Hge].
  - destruct (append_rules_Ok rs r Hok Hlt) as (? & Ha' & ?). rewrite Ha' in Ha. by injection Ha as <-.
  - unfold append_rules, assert_ in Ha. by rewrite bool_decide_false in Ha.
Qed.

(** Children before and after: child [p] has received the rules [g p]. *)
Definition all_received (cs cs' : list cnode) (g : nat → list rule_t) : Prop :=
  length cs' = length cs ∧
  ∀ p c, cs !! p = Some c → ∃ c', cs' !! p = Some c' ∧ received c c' (g p).

Definition all_rs_ok (cs : list cnode) : Prop := ∀ p c, cs !! p = Some c → rs_ok (n_ruleset c).

Lemma all_received_rs_ok cs cs' g : all_received cs cs' g → all_rs_ok cs'.
Proof.
  intros [Hl Hr] p c' Hp. destruct (lookup_lt_is_Some_2 cs p) as [c Hc].
  { rewrite <- Hl. by eapply lookup_lt_Some. }
  destruct (Hr p c Hc) as (c'' & Hc'' & _ & ? & _). by simplify_eq.
Qed.

Lemma append_child_inv cs q r cs' :
  all_rs_ok cs → append_child cs q r = Ok cs' →
  0 ≤ q < zlen cs ∧ all_received cs cs' (λ p, if decide (q = Z.of_nat p) then [r] else []).
Proof.
  intros Hok Ha. unfold append_child in Ha.
  apply bind_Ok in Ha as (c & [Hq Hc]%aget_Ok & Ha).
  apply bind_Ok in Ha as (rs & Hr & [Hb ->]%aset_Ok). split; [done|].
  apply append_rules_inv in Hr as (? & ? & ? & ?); [|by eapply Hok].
  split; [by rewrite length_insert|]. intros p c0 Hp.
  destruct (decide (q = Z.of_nat p)) as [->|Hne].
  - rewrite Nat2Z.id in *. assert (c0 = c) as -> by congruence. exists (with_ruleset c rs).
    split; [apply list_lookup_insert_eq; by eapply lookup_lt_Some|].
    unfold received. by rewrite with_ruleset_ruleset.
  - exists c0. rewrite list_lookup_insert_ne by lia. split; [done|].
    apply received_nil. by eapply Hok.
Qed.

Lemma push_ops_inv ops cs cs' :
  all_rs_ok cs → mfold push_op ops cs = Ok cs' →
  all_received cs cs' (λ p, ops_at (Z.of_nat p) ops).
Proof.
  intros Hok Hm. apply (mfold_Ok_inv (λ ops st, all_received cs st (λ p, ops_at (Z.of_nat p) ops))
    _ _ _ _ Hm).
  - split; [done|]. intros p c Hc. exists c. split; [done|]. apply received_nil. by eapply Hok.
  - intros pre [q r] st st' [Hl Hr] _ Ha. unfold push_op in Ha.
    apply append_child_inv in Ha as (_ & Hl1 & Hr1); [|by apply (all_received_rs_ok cs _ (λ p, ops_at (Z.of_nat p) pre))].
    split; [congruence|]. intros p c Hp. destruct (Hr p c Hp) as (c1 & Hc1 & Hrec1).
    destruct (Hr1 p c1 Hc1) as (c2 & Hc2 & Hrec2). exists c2. split; [done|].
    rewrite ops_at_app, ops_at_cons, app_nil_r. by eapply received_trans.
Qed.
