(* ===== verification/CutBitmap.v ===== *)
(** * The bitmap cut

    [cut-bitmap.h] and [cut-bitmap.c]: a node is cut into up to 63 internal
    children, one for each prefix shorter than the stride, and up to 64 external
    children, one for each value of the first six bits of a field. *)
From S2P Require Import Prelude.
From S2P Require Import Rule.
From S2P Require Import Classify.
From S2P Require Import Prefix.
From S2P Require Import Heap.
From S2P Require Import Double.
From S2P Require Import Darray.
From S2P Require Import MbNode.
From S2P Require Import CutInl.
#[local] Open Scope Z_scope.

(** ** Search (cut-bitmap.h) *)
Definition dim_bits : list Z := [32; 32; 16; 16; 8].

(** The children are addressed from [child_ptr]: internal ones below it, external
    ones from it on.  The result is an index into the array of children. *)
Definition next_inl (mb : mb_node) (child_ptr idx : Z) : Z :=
  let mask := Z.shiftl 1 idx - 1 in
  let offset := popcount (Z.land (internal mb) mask) in
  child_ptr - offset - 1.

Definition next_exl (mb : mb_node) (child_ptr idx : Z) : Z :=
  let mask := Z.shiftl 1 idx - 1 in
  let offset := popcount (Z.land (external mb) mask) in
  child_ptr + offset.

Definition even_search_lshift (dest bits lshift : Z) : Z :=
  if bits =? 8 then u8 (u32 (Z.shiftl dest lshift))
  else if bits =? 16 then u16 (u32 (Z.shiftl dest lshift))
  else u32 (Z.shiftl dest lshift).

(** [f->key[dim] = k] *)
Definition set_key (f : flow) (dim k : Z) : flow := mk_flow (<[Z.to_nat dim := k]> (key f)).

(** The next node (NULL is [None]) and the packet with the key shifted. *)
Definition even_search (n : cnode) (f : flow) : res (option cnode * flow) :=
  match n_body n with
  | BMb mb cs child_ptr =>
    let bits := anth dim_bits (n_dim n) in
    let k := anth (key f) (n_dim n) in
    let stride := u8 (Z.shiftr k (bits - STRIDE)) in
    if negb (test_bitmap (external mb) (count_enl_bitmap stride) =? 0) then
      let f := set_key f (n_dim n) (even_search_lshift k bits STRIDE) in
      c ← aget cs (next_exl mb child_ptr (count_enl_bitmap stride));
      Ok (Some c, f)
    else
      let '(pos, cidr) := tree_function (internal mb) stride 0 in
      if negb (pos =? -1) then
        let f := set_key f (n_dim n) (even_search_lshift k bits cidr) in
        c ← aget cs (next_inl mb child_ptr pos);
        Ok (Some c, f)
      else Ok (None, f)
  | BZero => Ok (None, f)   (* all bits zero *)
  | _ => Err EOob
  end.

(** ** The cost (cut-bitmap.c) *)

(** The child of a prefix. *)
Definition prefix_idx (p : prefix_t) (bits : Z) : Z :=
  if STRIDE <=? len p then Z.shiftr (prefix p) (bits - STRIDE) + INL_OFFSET
  else count_inl_bitmap (Z.shiftr (prefix p) (bits - len p)) (len p).

(** [child_rulecount[i] += d] *)
Definition add_count (c : list Z) (i d : Z) : res (list Z) :=
  x ← aget c i; aset c i (x + d).

(** First loop of [get_rule_hist]: count the prefixes of every rule. *)
Definition count_prefixes (ruleset : rule_set_t) (dim : Z) : res (list Z) :=
  let bits := anth dim_bits dim in
  mfor 0 (num ruleset) (λ i c,
    r ← aget (ruleList ruleset) i;
    for_prefixes (rng r dim) (λ it c, add_count c (prefix_idx (get_prefix it bits) bits) 1) c)
    (replicate (Z.to_nat CHILDCOUNT) 0).

(** [while(j) { j = (j-1)/2; if(count[j]) { ..; break; } }]: the count of the
    nearest non-empty ancestor. *)
Fixpoint anc_count (fuel : nat) (c : list Z) (j : Z) : res Z :=
  if j =? 0 then Ok 0 else
  match fuel with
  | O => Err EFuel
  | S fuel =>
    let j := (j - 1) / 2 in
    x ← aget c j;
    if negb (x =? 0) then Ok x else anc_count fuel c j
  end.

(** The second loop: push the counts of internal nodes down. *)
Definition hist_step (i : Z) (h : rule_hist) : res rule_hist :=
  x ← aget (child_rulecount h) i;
  if negb (x =? 0) then
    a ← anc_count 7 (child_rulecount h) i;
    c ← aset (child_rulecount h) i (x + a);
    Ok (mk_hist c (childs h + 1) (rules h + (x + a)))
  else Ok h.

Definition get_rule_hist (ruleset : rule_set_t) (dim : Z) : res rule_hist :=
  c ← count_prefixes ruleset dim;
  mfor 0 CHILDCOUNT hist_step (mk_hist c 0 0).

Definition set_hist (aux : cut_aux) (dim : Z) (h : rule_hist) : cut_aux :=
  mk_cut_aux (<[Z.to_nat dim := h]> (hist aux)) (ca_split aux) (ca_hi aux).

Definition even_match_expect (n : cnode) (dim : Z) (aux : cut_aux) : res (double * cut_aux) :=
  h ← get_rule_hist (n_ruleset n) dim;
  Ok (get_match_expect h, set_hist aux dim h).

(** ** Pushing the rules to the children *)

(** The table filled by the constructor [init_tbl_for_inl_idx_to_prefix]. *)
Definition inl_idx_to_prefix : list prefix_t :=
  concat ((λ cidr, (λ i, mk_prefix i cidr) <$> seqZ 0 (Z.shiftl 1 cidr)) <$> seqZ 0 STRIDE).
#[global] Instance prefix_inhabited : Inhabited prefix_t := populate (mk_prefix 0 0).

Definition idx_to_prefix (idx dim : Z) : prefix_t :=
  let bits := anth dim_bits dim in
  if idx <? INL_OFFSET then
    let p := anth inl_idx_to_prefix idx in
    mk_prefix (u32 (Z.shiftl (prefix p) (bits - len p))) (len p)
  else mk_prefix (u32 (Z.shiftl (idx - INL_OFFSET) (bits - STRIDE))) STRIDE.

(** The array index of child [i] (internal below [INL_OFFSET], else external). *)
Definition child_index (mb : mb_node) (child_ptr i : Z) : Z :=
  if i <? INL_OFFSET then next_inl mb child_ptr i else next_exl mb child_ptr (i - INL_OFFSET).

(** [push_inl_rules_even]: row by row, the non-empty descendants of an internal
    child get the rule too.  [start] is the first node of the row of [j] nodes. *)
Fixpoint push_rows (fuel : nat) (mb : mb_node) (child_ptr : Z) (h : rule_hist) (r : rule_t)
    (start j : Z) (cs : list cnode) : res (list cnode) :=
  if start <? CHILDCOUNT then
    match fuel with
    | O => Err EFuel
    | S fuel =>
      cs' ← mfor 0 j (λ k cs,
        x ← aget (child_rulecount h) (start + k);
        if negb (x =? 0) then append_child cs (child_index mb child_ptr (start + k)) r
        else Ok cs) cs;
      push_rows fuel mb child_ptr h r (start * 2 + 1) (j * 2) cs'
    end
  else Ok cs.
Definition push_inl_rules_even (idx : Z) (mb : mb_node) (child_ptr : Z) (r : rule_t) (h : rule_hist)
    (cs : list cnode) : res (list cnode) :=
  push_rows 7 mb child_ptr h r (idx * 2 + 1) 2 cs.

(** The prefix inside the child: the stride is shifted out of an external one, an
    internal one becomes the whole field. *)
Definition child_prefix (p : prefix_t) (bits : Z) : prefix_t :=
  if STRIDE <=? len p then
    mk_prefix (if bits =? 8 then u8 (u32 (Z.shiftl (prefix p) STRIDE))
               else if bits =? 16 then u16 (u32 (Z.shiftl (prefix p) STRIDE))
               else if bits =? 32 then u32 (Z.shiftl (prefix p) STRIDE)
               else prefix p) (len p - STRIDE)
  else mk_prefix 0 0.

(** Body of the inner loop of [push_rules_even]. *)
Definition push_prefix (mb : mb_node) (child_ptr dim : Z) (h : rule_hist) (rule : rule_t)
    (it : prefix_iter_t) (cs : list cnode) : res (list cnode) :=
  let bits := anth dim_bits dim in
  let p := get_prefix it bits in
  let idx := prefix_idx p bits in
  let n := child_index mb child_ptr idx in
  let rule' := set_rng rule dim (prefix_to_range (child_prefix p bits) bits) in
  cs ← append_child cs n rule';
  if idx <? INL_OFFSET then push_inl_rules_even idx mb child_ptr rule' h cs else Ok cs.

Section even_cut.
Context `{Allocator}.

(** First loop of [push_rules_even]: room for the counted rules. *)
Definition alloc_childs (mb : mb_node) (child_ptr : Z) (h : rule_hist) (cs : list cnode)
    : res (list cnode) :=
  mfor 0 CHILDCOUNT (λ i cs,
    n ← aget (child_rulecount h) i;
    if negb (n =? 0) then
      let k := child_index mb child_ptr i in
      c ← aget cs k;
      match bc_calloc n sizeof_rule_t zero_rule with
      | None => Err EPanic
      | Some l => aset cs k (with_ruleset c (mk_rs (num (n_ruleset c)) n l))
      end
    else Ok cs) cs.

Definition push_rules_even (mb : mb_node) (child_ptr dim : Z) (h : rule_hist)
    (ruleset : rule_set_t) (cs : list cnode) : res (list cnode) :=
  cs ← alloc_childs mb child_ptr h cs;
  mfor 0 (num ruleset) (λ i cs,
    r ← aget (ruleList ruleset) i;
    for_prefixes (rng r dim) (push_prefix mb child_ptr dim h r) cs) cs.

(** [while(bitmap ^ mask) { bit_pos = ctz(bitmap ^ mask); ..; set_bit(&mask, bit_pos); }] *)
Fixpoint for_bits {S} (fuel : nat) (bitmap mask : Z) (f : Z → S → res S) (s : S) : res S :=
  if Z.lxor bitmap mask =? 0 then Ok s else
  match fuel with
  | O => Err EFuel
  | S fuel =>
    let bit_pos := ctz 64 (Z.lxor bitmap mask) in
    s' ← f bit_pos s;
    for_bits fuel bitmap (set_bit mask bit_pos) f s'
  end.

Definition even_cut_recursive (cut_node : cut_fun) (mb : mb_node) (child_ptr : Z)
    (cs : list cnode) (aux : cut_aux) : res (list cnode * cut_aux) :=
  s ← for_bits 64 (internal mb) 0 (λ b, cut_child cut_node (next_inl mb child_ptr b)) (cs, aux);
  for_bits 64 (external mb) 0 (λ b, cut_child cut_node (next_exl mb child_ptr b)) s.

(** First loop of [even_cut]: the bitmaps and the numbers of children. *)
Definition even_bitmaps (h : rule_hist) : mb_node * Z * Z :=
  for_ 0 CHILDCOUNT (λ i '(mb, inl_rc, exl_rc),
    if negb (anth (child_rulecount h) i =? 0) then
      if i <? INL_OFFSET then (mk_mb (external mb) (set_bit (internal mb) i), inl_rc + 1, exl_rc)
      else (mk_mb (set_bit (external mb) (i - INL_OFFSET)) (internal mb), inl_rc, exl_rc + 1)
    else (mb, inl_rc, exl_rc)) (mk_mb 0 0, 0, 0).

Definition sizeof_cnode : Z := 48.

(** [n->ruleset] is freed by [push_rules_even]. *)
Definition even_cut (cut_node : cut_fun) (n : cnode) (dim : Z) (aux : cut_aux)
    : res (cnode * cut_aux) :=
  let h := anth (hist aux) dim in
  let '(mb, inl_rc, exl_rc) := even_bitmaps h in
  match bc_calloc (inl_rc + exl_rc) sizeof_cnode zero_cnode with
  | None => Err EPanic
  | Some cs =>
    let child_ptr := inl_rc in
    cs ← push_rules_even mb child_ptr dim h (n_ruleset n) cs;
    '(cs, aux) ← even_cut_recursive cut_node mb child_ptr cs aux;
    Ok (CNode (BMb mb cs child_ptr) (n_dim n) (n_leaf n) (n_type n) (mk_rs 0 0 []), aux)
  end.

End even_cut.

(** ** The other methods of the table *)
Definition even_init (n : cnode) (aux : cut_aux) : res cut_aux := Ok aux.
Definition even_mem_quant (aux : cut_aux) (dim : Z) : Z := childs (anth (hist aux) dim).
Definition even_fits_bs (aux : cut_aux) (dim : Z) : bool :=
  forallb (λ i, let c := anth (child_rulecount (anth (hist aux) dim)) i in
     negb (negb (c =? 0) && (BUCKETSIZE <? c))) (seqZ 0 CHILDCOUNT).

Definition even_count_childs (n : cnode) : Z :=
  if negb (n_leaf n) then
    match n_body n with
    | BMb mb _ _ => popcount (external mb) + popcount (internal mb)
    | _ => 0
    end
  else 0.
