(* ===== verification/CutSplit.v ===== *)
(** * The split cut

    [cut-split.h] and [cut-split.c]: a node is split at one value of one field,
    and each half may be split once more, so that there are two to four children.
    The split value is found by a sweep over the ranges of the rules with a heap
    of the open ranges. *)
From S2P Require Import Prelude.
From S2P Require Import Rule.
From S2P Require Import Classify.
From S2P Require Import Ranges.
From S2P Require Import Heap.
From S2P Require Import Double.
From S2P Require Import Darray.
From S2P Require Import MbNode.
From S2P Require Import CutInl.
From S2P Require Import CutBitmap.
#[local] Open Scope Z_scope.

(** ** Search (cut-split.h) *)
Definition split_next (sp : sp_node) (idx : Z) : Z :=
  let mask := u8 (Z.shiftl 1 idx - 1) in popcount (Z.land (shape sp) mask).

(** The child number [idx] of the packet (0 .. 3). *)
Definition split_idx (sp : sp_node) (dim : Z) (f : flow) : Z :=
  let idx := if root_split sp <? anth (key f) dim then 1 else 0 in
  let idx := Z.shiftl idx 1 in
  let idx := if negb (idx =? 0) && negb (dim_right sp =? DIM) then
               (if right_split sp <? anth (key f) (dim_right sp) then idx + 1 else idx) else idx in
  if (idx =? 0) && negb (dim_left sp =? DIM) then
    (if left_split sp <? anth (key f) (dim_left sp) then idx + 1 else idx) else idx.

Definition split_search (n : cnode) (f : flow) : res (option cnode * flow) :=
  match n_body n with
  | BSp sp cs => c ← aget cs (split_next sp (split_idx sp (n_dim n) f)); Ok (Some c, f)
  | _ => Err EOob
  end.

(** ** The sweep (cut-split.c) *)

Definition split_disable_snode (n : snode) : snode := mk_snode (s_dim n) 0 (s_r0 n) (s_r1 n) (s_ruleset n).
Definition split_enable_snode (n : snode) : snode := mk_snode (s_dim n) 1 (s_r0 n) (s_r1 n) (s_ruleset n).
Definition split_snode_enabled (n : snode) : bool := s_flags n =? 1.

Definition split_match_expect_heuristic (left right : Z) : double :=
  dadd (ddiv (d_of_Z (u32 (right * right))) (d_of_Z (u32 (right + left))))
       (ddiv (d_of_Z (u32 (left * left))) (d_of_Z (u32 (right + left)))).

(** The local state of [split_match_expect_1d]: the heap, the weight of the ranges
    that ended, the best cost with its split and the weights [r[0].weight],
    [r[1].weight] of the halves, and [r[1].high]. *)
Record sweep := mk_sweep {
  w_h : heap range1d; w_left : Z; w_min_me : double; w_split : Z;
  w_weight0 : Z; w_weight1 : Z; w_high : Z }.

Definition find_min_me_do (s : sweep) (curr : double) (scurr left right : Z) : sweep :=
  if dlt curr (w_min_me s) then
    mk_sweep (w_h s) (w_left s) curr scurr left right (w_high s)
  else s.

(** Cost of splitting behind [e]: the [left] and the open ranges against the rest. *)
Definition split_candidate (n : Z) (s : sweep) (e : Z) : sweep :=
  let dup := u32 (heap_weight (w_h s)) in
  let right := u32 (n - w_left s) in
  let lft := u32 (w_left s + dup) in
  find_min_me_do s (split_match_expect_heuristic lft right) e lft right.

Section split.
Context `{Allocator}.

(** [while(h->len != 0 && heap_peek(h)->high == e) { left += ..; heap_pop(h); }] *)
Fixpoint pop_equal (fuel : nat) (e : Z) (s : sweep) : res sweep :=
  if (hlen (w_h s) =? 0)%nat then Ok s else
  match fuel with
  | O => Err EFuel
  | S fuel =>
    top ← heap_peek (w_h s);
    if high top =? e then
      '(h, _) ← heap_pop (w_h s);
      pop_equal fuel e (mk_sweep h (u32 (w_left s + weight top)) (w_min_me s) (w_split s)
                          (w_weight0 s) (w_weight1 s) (w_high s))
    else Ok s
  end.

Definition raise_high (e : Z) (s : sweep) : sweep :=
  mk_sweep (w_h s) (w_left s) (w_min_me s) (w_split s) (w_weight0 s) (w_weight1 s)
    (if w_high s <? e then e else w_high s).

(** The ranges that end before the next range starts. *)
Fixpoint sweep_ends (fuel : nat) (n rlow : Z) (s : sweep) : res sweep :=
  if (hlen (w_h s) =? 0)%nat then Ok s else
  match fuel with
  | O => Err EFuel
  | S fuel =>
    top ← heap_peek (w_h s);
    if high top <? rlow then
      let e := high top in
      s ← pop_equal (hlen (w_h s)) e (raise_high e s);
      sweep_ends fuel n rlow (split_candidate n s e)
    else Ok s
  end.

Definition sweep_push (r : range1d) (s : sweep) : res sweep :=
  '(h, _) ← heap_push (w_h s) r;
  Ok (mk_sweep h (w_left s) (w_min_me s) (w_split s) (w_weight0 s) (w_weight1 s) (w_high s)).

(** The body of the main loop; the second component is [s], the last start. *)
Definition sweep_range (n : Z) (r : range1d) (st : sweep * Z) : res (sweep * Z) :=
  let '(s, last) := st in
  s ← sweep_ends (hlen (w_h s)) n (low r) s;
  if low r =? last then
    s ← sweep_push r s; Ok (s, last)
  else
    let s := split_candidate n s (u32 (low r - 1)) in
    s ← sweep_push r s; Ok (s, low r).

(** [while(h->len > 1) ..] *)
Fixpoint sweep_rest (fuel : nat) (n : Z) (s : sweep) : res sweep :=
  if (hlen (w_h s) <=? 1)%nat then Ok s else
  match fuel with
  | O => Err EFuel
  | S fuel =>
    top ← heap_peek (w_h s);
    let e := high top in
    s ← pop_equal (hlen (w_h s)) e (raise_high e s);
    sweep_rest fuel n (if (hlen (w_h s) =? 0)%nat then s else split_candidate n s e)
  end.

(** [if(h->len) { .. heap_pop(h); } assert(h->len == 0);] *)
Definition sweep_finish (s : sweep) : res sweep :=
  s ← (if (hlen (w_h s) =? 0)%nat then Ok s else
       top ← heap_peek (w_h s);
       '(h, _) ← heap_pop (w_h s);
       let s := raise_high (high top) s in
       Ok (mk_sweep h (w_left s) (w_min_me s) (w_split s) (w_weight0 s) (w_weight1 s) (w_high s)));
  _ ← assert_ (hlen (w_h s) =? 0)%nat;
  Ok s.

Definition set_sa (aux : cut_aux) (sa : split_aux) : cut_aux := mk_cut_aux (hist aux) sa (ca_hi aux).
Definition set_sa_scratch (aux : cut_aux) (rg : d_ranges_t) (h : heap range1d) : cut_aux :=
  let sa := ca_split aux in
  set_sa aux (mk_split_aux rg h (left_rules sa) (right_rules sa) (strees sa)).

(** Returns the cost, the node with its two ranges, and the scratch state. *)
Definition split_match_expect_1d (n : snode) (dim : Z) (aux : cut_aux)
    : res (double * snode * cut_aux) :=
  let sa := ca_split aux in
  let rs := s_ruleset n in
  l ← load_ranges rs dim (item (sa_ranges sa));
  '(l, uniq_num) ← unique_ranges (qsort_ranges l (num rs)) (num rs);
  let rg := set_ranges (sa_ranges sa) l in
  if uniq_num =? 1 then
    Ok (d_of_Z (num rs), n, set_sa_scratch aux rg (sa_h sa))
  else
    r0 ← aget l 0;
    '(h, _) ← heap_push (sa_h sa) r0;
    let s0 := mk_sweep h 0 (d_of_Z (num rs)) (low r0) (weight (s_r0 n)) (weight (s_r1 n)) (high r0) in
    '(s, _) ← mfor 1 uniq_num (λ i st, r ← aget l i; sweep_range (num rs) r st) (s0, low r0);
    s ← sweep_rest (hlen (w_h s)) (num rs) s;
    s ← sweep_finish s;
    let n' := mk_snode (s_dim n) (s_flags n)
                (mk_r1 (low r0) (w_split s) (w_weight0 s))
                (mk_r1 (u32 (w_split s + 1)) (w_high s) (w_weight1 s)) rs in
    Ok (w_min_me s, n', set_sa_scratch aux rg (w_h s)).

(** ** Cutting the rules *)

(** One half: the rules that reach into [b], trimmed to it. *)
Definition trim_to (b : range1d) (dim : Z) (r : rule_t) : rule_t :=
  let hi := if high b <? (rng r dim).2 then high b else (rng r dim).2 in
  let lo := if (rng r dim).1 <? low b then low b else (rng r dim).1 in
  set_rng r dim (lo, hi).
Definition reaches (b : range1d) (dim : Z) (r : rule_t) : bool :=
  negb (((rng r dim).2 <? low b) || (high b <? (rng r dim).1)).

Definition _split_cut_1d (ors : rule_set_t) (dim : Z) (left right : range1d) (lrs rrs : rule_set_t)
    : res (rule_set_t * rule_set_t) :=
  mfor 0 (num ors) (λ i '(lrs, rrs),
    rule ← aget (ruleList ors) i;
    lrs ← (if reaches left dim rule then append_rules lrs (trim_to left dim rule) else Ok lrs);
    rrs ← (if reaches right dim rule then append_rules rrs (trim_to right dim rule) else Ok rrs);
    Ok (lrs, rrs)) (lrs, rrs).

Definition set_s_ruleset (n : snode) (rs : rule_set_t) : snode :=
  mk_snode (s_dim n) (s_flags n) (s_r0 n) (s_r1 n) rs.

Definition split_cut_1d (n : snode) (dim : Z) (left right : snode) : res (snode * snode) :=
  '(lrs, rrs) ← _split_cut_1d (s_ruleset n) dim (s_r0 n) (s_r1 n) (s_ruleset left) (s_ruleset right);
  _ ← assert_ (num lrs =? weight (s_r0 n));
  _ ← assert_ (num rrs =? weight (s_r1 n));
  Ok (set_s_ruleset left lrs, set_s_ruleset right rrs).

(** The best dimension for a half. *)
Definition split_match_build_childs (n : snode) (aux : cut_aux) : res (snode * cut_aux) :=
  if memory_constraints && (num (s_ruleset n) <=? BUCKETSIZE) then
    Ok (split_disable_snode n, aux)
  else
    let n := split_enable_snode n in
    '(n, aux, best) ← mfor 0 DIM (λ i '(n, aux, best),
      '(me, n, aux) ← split_match_expect_1d n i aux;
      Ok (n, aux,
          match best with
          | None => Some (s_r0 n, s_r1 n, i, me)
          | Some (_, _, _, mec) => if dlt me mec then Some (s_r0 n, s_r1 n, i, me) else best
          end)) (n, aux, None);
    match best with
    | None => Err EAssert
    | Some (r0, r1, min_dim, mec) =>
      let n := if double_equals mec (d_of_Z (num (s_ruleset n))) then split_disable_snode n else n in
      Ok (mk_snode min_dim (s_flags n) r0 r1 (s_ruleset n), aux)
    end.

Definition split_match_expect_subtree (t : stree) : double :=
  let '(rules, childs) :=
    if split_snode_enabled (st_left t)
    then (weight (s_r0 (st_left t)) + weight (s_r1 (st_left t)), 3)
    else (weight (s_r0 (st_root t)), 2) in
  let '(rules, childs) :=
    if split_snode_enabled (st_right t)
    then (rules + weight (s_r0 (st_right t)) + weight (s_r1 (st_right t)), childs + 1)
    else (rules + weight (s_r1 (st_root t)), childs) in
  ddiv (d_of_Z rules) (d_of_Z childs).

Definition set_stree (aux : cut_aux) (dim : Z) (t : stree) : cut_aux :=
  let sa := ca_split aux in
  set_sa aux (mk_split_aux (sa_ranges sa) (sa_h sa) (left_rules sa) (right_rules sa)
                (<[Z.to_nat dim := t]> (strees sa))).

(** [rules.num = 0], keeping the array. *)
Definition reset_num (rs : rule_set_t) : rule_set_t := mk_rs 0 (cap rs) (ruleList rs).

Definition split_match_expect (node : cnode) (dim : Z) (aux : cut_aux) : res (double * cut_aux) :=
  let sa := ca_split aux in
  let t := anth (strees sa) dim in
  let sa := mk_split_aux (sa_ranges sa) (sa_h sa) (reset_num (left_rules sa))
              (reset_num (right_rules sa)) (strees sa) in
  let aux := set_sa aux sa in
  let left := set_s_ruleset (st_left t) (left_rules sa) in
  let right := set_s_ruleset (st_right t) (right_rules sa) in
  let n := split_enable_snode (mk_snode dim (s_flags (st_root t)) (s_r0 (st_root t))
             (s_r1 (st_root t)) (n_ruleset node)) in
  '(me, n, aux) ← split_match_expect_1d n dim aux;
  if double_equals me (d_of_Z (num (s_ruleset n))) then
    Ok (me, set_stree aux dim (mk_stree (split_disable_snode n) (split_disable_snode left)
                                 (split_disable_snode right)))
  else if memory_constraints && (weight (s_r0 n) <=? BUCKETSIZE) && (weight (s_r1 n) <=? BUCKETSIZE) then
    Ok (me, set_stree aux dim (mk_stree n (split_disable_snode left) (split_disable_snode right)))
  else
    '(left, right) ← split_cut_1d n dim left right;
    '(left, aux) ← split_match_build_childs left aux;
    '(right, aux) ← split_match_build_childs right aux;
    let t := mk_stree n left right in
    Ok (split_match_expect_subtree t, set_stree aux dim t).

(** On a node that was all zero. *)
Definition split_fill (tree : stree) : sp_node * Z :=
  let '(dl, ls, sh1, c1) :=
    if split_snode_enabled (st_left tree)
    then (u8 (s_dim (st_left tree)), high (s_r0 (st_left tree)), 2, 1) else (DIM, 0, 0, 0) in
  let '(dr, rs, sh2, c2) :=
    if split_snode_enabled (st_right tree)
    then (u8 (s_dim (st_right tree)), high (s_r0 (st_right tree)), 8, 1) else (DIM, 0, 0, 0) in
  (mk_sp dl dr (Z.lor (Z.lor 5 sh1) sh2) (high (s_r0 (st_root tree))) ls rs, 2 + c1 + c2).

(** The one or two children of a half, appended to the array built so far. *)
Definition split_half_childs (t : snode) : res (list rule_set_t) :=
  if split_snode_enabled t then
    let a := (rule_set_init (mk_rs 0 0 []) (weight (s_r0 t))).1 in
    let b := (rule_set_init (mk_rs 0 0 []) (weight (s_r1 t))).1 in
    '(a, b) ← _split_cut_1d (s_ruleset t) (s_dim t) (s_r0 t) (s_r1 t) a b;
    Ok [a; b]
  else Ok [(rule_set_copy (mk_rs 0 0 []) (s_ruleset t)).1].

Definition split_cut (cut_node : cut_fun) (n : cnode) (dim : Z) (aux : cut_aux)
    : res (cnode * cut_aux) :=
  let sa := ca_split aux in
  let tree := anth (strees sa) dim in
  let '(sp, childs) := split_fill tree in
  match bc_calloc childs sizeof_cnode zero_cnode with
  | None => Err EPanic
  | Some cn =>
    let root := set_s_ruleset (st_root tree) (n_ruleset n) in
    let left := set_s_ruleset (st_left tree) (reset_num (left_rules sa)) in
    let right := set_s_ruleset (st_right tree) (reset_num (right_rules sa)) in
    '(left, right) ← split_cut_1d root dim left right;
    ls ← split_half_childs left;
    rs ← split_half_childs right;
    let cn := zip_with with_ruleset cn (ls ++ rs) in
    let aux := set_stree aux dim (mk_stree root left right) in
    '(cn, aux) ← cut_recursive cut_node cn childs aux;
    Ok (CNode (BSp sp cn) (n_dim n) (n_leaf n) (n_type n) (mk_rs 0 0 []), aux)
  end.

(** ** The other methods of the table *)
Definition split_aux_init (n : cnode) (aux : cut_aux) : res cut_aux :=
  match heap_init aux_heap_less with
  | None => Err EOob   (* returns -1; the first use of the NULL heap is outside any object *)
  | Some h =>
    rg ← darray_growalloc sizeof_range1d darray_init (num (n_ruleset n));
    let '(rr, ret1) := rule_set_init (mk_rs 0 0 []) (num (n_ruleset n)) in
    _ ← (if ret1 =? -1 then Err EPanic else Ok tt);
    let '(lr, ret2) := rule_set_init (mk_rs 0 0 []) (num (n_ruleset n)) in
    _ ← (if ret2 =? -1 then Err EPanic else Ok tt);
    Ok (set_sa aux (mk_split_aux rg h lr rr (strees (ca_split aux))))
  end.

End split.

Definition split_mem_quant (aux : cut_aux) (dim : Z) : Z :=
  let tree := anth (strees (ca_split aux)) dim in
  2 + (if split_snode_enabled (st_left tree) then 1 else 0)
    + (if split_snode_enabled (st_right tree) then 1 else 0).

Definition half_fits (half : snode) (root_weight : Z) : bool :=
  if split_snode_enabled half
  then negb ((BUCKETSIZE <? weight (s_r0 half)) || (BUCKETSIZE <? weight (s_r1 half)))
  else negb (BUCKETSIZE <? root_weight).
Definition split_fits_bs (aux : cut_aux) (dim : Z) : bool :=
  let t := anth (strees (ca_split aux)) dim in
  half_fits (st_left t) (weight (s_r0 (st_root t))) &&
  half_fits (st_right t) (weight (s_r1 (st_root t))).

Definition split_count_childs (n : cnode) : Z :=
  if negb (n_leaf n) then match n_body n with BSp sp _ => popcount (shape sp) | _ => 0 end else 0.
