(* ===== verification/CutHi.v ===== *)
(** * The equal-size cut

    [cut-hi.h] and [cut-hi.c]: the span of a field is divided into 4 to 64
    segments of the same power-of-two length; adjacent segments with the same
    rules share a child.  The counts come from a sweep over the ranges with a
    heap of the open ranges. *)
From S2P Require Import Prelude.
From S2P Require Import Rule.
From S2P Require Import Classify.
From S2P Require Import Ranges.
From S2P Require Import Heap.
From S2P Require Import Double.
From S2P Require Import Darray.
From S2P Require Import MbNode.
From S2P Require Import CutInl.
From S2P Require Import CutBitmap.
#[local] Open Scope Z_scope.

(** ** Search (cut-hi.h) *)

(** An index into the array of children. *)
Definition hi_next (hn : hi_node) (idx : Z) : res Z :=
  if 64 <=? idx then Err EShift else
  let mask := Z.shiftl 1 idx - 1 in
  Ok (popcount (Z.land (hn_bitmap hn) mask)).

Definition hi_search (n : cnode) (f : flow) : res (option cnode * flow) :=
  match n_body n with
  | BHi hn cs =>
    let k := anth (key f) (n_dim n) in
    if k <? hn_start hn then Ok (None, f) else
    let idx := Z.shiftr (k - hn_start hn) (hn_shift hn) in
    j ← hi_next hn idx;
    c ← aget cs j;
    Ok (Some c, f)
  | _ => Err EOob
  end.

(** ** The sweep (cut-hi.c) *)

(** The local state of [hi_get_me_1d]. *)
Record hsweep := mk_hsweep {
  hs_i : Z; hs_curr : Z; hs_childs : Z; hs_hist : rule_hist; hs_node_r : list (Z * Z);
  hs_h : heap range1d; hs_prev_new_ends : bool; hs_new_start : bool }.

#[global] Instance pair_inhabited : Inhabited (Z * Z) := populate (0, 0).

(** A segment with new rules opens a child: [child_rulecount[childs] = rules; ..] *)
Definition open_child (rules : Z) (s : hsweep) : res (Z * rule_hist * list (Z * Z)) :=
  let c := hs_childs s in
  h ← aset (child_rulecount (hs_hist s)) c rules;
  start ← (if c =? 0 then Ok 0
           else '(_, e) ← aget (hs_node_r s) (c - 1); Ok (u8 (e + 1)));
  nr ← aset (hs_node_r s) c (start, start);
  Ok (c + 1, mk_hist h (childs (hs_hist s)) (s32 (CutInl.rules (hs_hist s) + rules)), nr).

(** A segment that sees the rules of the previous one: [node_r[childs - 1][1]++] *)
Definition extend_child (s : hsweep) : res (Z * rule_hist * list (Z * Z)) :=
  let c := hs_childs s in
  '(a, e) ← aget (hs_node_r s) (c - 1);
  nr ← aset (hs_node_r s) (c - 1) (a, u8 (e + 1));
  Ok (c, hs_hist s, nr).

Section hi.
Context `{Allocator}.

(** [while(h->len != 0 && heap_peek(h)->high < curr) { rules += ..; heap_pop(h); new_ends = 1; }] *)
Fixpoint pop_below (fuel : nat) (curr : Z) (h : heap range1d) (rules : Z) (new_ends : bool)
    : res (heap range1d * Z * bool) :=
  if (hlen h =? 0)%nat then Ok (h, rules, new_ends) else
  match fuel with
  | O => Err EFuel
  | S fuel =>
    top ← heap_peek h;
    if high top <? curr then
      '(h, _) ← heap_pop h;
      pop_below fuel curr h (s32 (rules + weight top)) true
    else Ok (h, rules, new_ends)
  end.

(** The end of a segment: the second part of the loop body. *)
Definition end_segment (seg : Z) (s : hsweep) : res hsweep :=
  '(h, rules, new_ends) ← pop_below (hlen (hs_h s)) (hs_curr s) (hs_h s) 0 false;
  let rules := s32 (rules + heap_weight h) in
  '(c, hist, nr) ← (if hs_new_start s || hs_prev_new_ends s then open_child rules s
                    else extend_child s);
  Ok (mk_hsweep (hs_i s) (u64 (hs_curr s + seg)) c hist nr h new_ends false).

(** The main loop: each turn takes a range that starts in the segment, or closes
    the segment. *)
Fixpoint hi_loop (fuel : nat) (ranges : list range1d) (n seg : Z) (s : hsweep) : res hsweep :=
  if (hs_i s <? n) || negb (hlen (hs_h s) =? 0)%nat then
    match fuel with
    | O => Err EFuel
    | S fuel =>
      starts ← (if hs_i s <? n then
                  r ← aget ranges (hs_i s);
                  Ok (if low r <? hs_curr s then Some r else None)
                else Ok None);
      match starts with
      | Some r =>
        '(h, _) ← heap_push (hs_h s) r;
        hi_loop fuel ranges n seg
          (mk_hsweep (hs_i s + 1) (hs_curr s) (hs_childs s) (hs_hist s) (hs_node_r s) h
             (hs_prev_new_ends s) true)
      | None => s ← end_segment seg s; hi_loop fuel ranges n seg s
      end
    end
  else Ok s.

(** [n] ranges, the span starts at [lo].  The result: the cost, the histogram, the
    segments of the children and the heap. *)
Definition hi_get_me_1d (ranges : list range1d) (n lo seg : Z) (h : heap range1d) (div : Z)
    : res (double * rule_hist * list (Z * Z) * heap range1d) :=
  r ← aget ranges 0;
  '(h, _) ← heap_push h r;
  let s0 := mk_hsweep 1 (u64 (lo + seg)) 0 zero_hist (replicate 64 (0, 0)) h true false in
  s ← hi_loop (Z.to_nat n + 65) ranges n seg s0;
  let hist := mk_hist (child_rulecount (hs_hist s)) (hs_childs s) (CutInl.rules (hs_hist s)) in
  '(a, _) ← aget (hs_node_r s) (hs_childs s - 1);
  nr ← aset (hs_node_r s) (hs_childs s - 1) (a, u8 (div - 1));
  Ok (get_match_expect hist, hist, nr, hs_h s).

Definition calc_me_ratio (rulenum dup_rules : Z) (me : double) : double :=
  if negb (dup_rules =? rulenum)
  then ddiv (dsub (d_of_Z rulenum) me) (d_of_Z (u32 (dup_rules - rulenum)))
  else dsub (d_of_Z rulenum) me.

(** [aux->shift[dim], aux->node_r[dim], aux->hist[dim]] *)
Definition set_hi (aux : cut_aux) (ha : hi_aux) : cut_aux := mk_cut_aux (hist aux) (ca_split aux) ha.
Definition hi_commit (ha : hi_aux) (dim shift : Z) (nr : list (Z * Z)) (h : rule_hist) : hi_aux :=
  mk_hi_aux (ha_ranges ha) (ha_h ha) (<[Z.to_nat dim := h]> (ha_hist ha))
    (<[Z.to_nat dim := shift]> (ha_shift ha)) (ha_start ha) (<[Z.to_nat dim := nr]> (ha_node_r ha)).
Definition set_start (ha : hi_aux) (dim start : Z) : hi_aux :=
  mk_hi_aux (ha_ranges ha) (ha_h ha) (ha_hist ha) (ha_shift ha)
    (<[Z.to_nat dim := start]> (ha_start ha)) (ha_node_r ha).
Definition set_scratch (ha : hi_aux) (rg : d_ranges_t) (h : heap range1d) : hi_aux :=
  mk_hi_aux rg h (ha_hist ha) (ha_shift ha) (ha_start ha) (ha_node_r ha).

(** The do-while loop over 4, 8, .. 64 segments: commits the last try, and tries
    twice as many segments. *)
Fixpoint try_divs (fuel : nat) (ranges : list range1d) (n rulenum lo len dim : Z)
    (div shift : Z) (me me_ratio : double) (nr : list (Z * Z)) (h : rule_hist) (ha : hi_aux)
    : res (double * hi_aux) :=
  match fuel with
  | O => Err EFuel
  | S fuel =>
    let ha := hi_commit ha dim shift nr h in
    let div := div * 2 in
    shift' ← roundup_log2 ((len + div - 1) / div);
    if (64 <? div) || (len <? div) || (shift' =? shift) then Ok (me, ha) else
    '(me', h', nr', hp) ← hi_get_me_1d ranges n lo (Z.shiftl 1 shift') (ha_h ha) div;
    let ha := set_scratch ha (ha_ranges ha) hp in
    let me_ratio' := calc_me_ratio rulenum (u32 (CutInl.rules h)) me' in
    if (div <=? 64) && dlt me_ratio me_ratio'
    then try_divs fuel ranges n rulenum lo len dim div shift' me' me_ratio' nr' h' ha
    else Ok (me, ha)
  end.

Definition hi_get_rule_hist (ruleset : rule_set_t) (dim : Z) (aux : cut_aux)
    : res (double * cut_aux) :=
  let ha := ca_hi aux in
  l ← load_ranges ruleset dim (item (ha_ranges ha));
  '(l, uniq_num) ← unique_ranges (qsort_ranges l (num ruleset)) (num ruleset);
  let ha := set_scratch ha (set_ranges (ha_ranges ha) l) (ha_h ha) in
  r0 ← aget l 0;
  bhigh ← mfor 1 uniq_num (λ i b, r ← aget l i; Ok (if b <? high r then high r else b)) (high r0);
  let len := u64 (bhigh - low r0 + 1) in
  if len <? 4 then Ok (d_of_Z (num ruleset), set_hi aux ha) else
  shift ← roundup_log2 ((len + 4 - 1) / 4);
  '(me, h, nr, hp) ← hi_get_me_1d l uniq_num (low r0) (Z.shiftl 1 shift) (ha_h ha) 4;
  let ha := set_scratch ha (ha_ranges ha) hp in
  let me_ratio := calc_me_ratio (num ruleset) (u32 (CutInl.rules (anth (ha_hist ha) dim))) me in
  let ha := set_start ha dim (low r0) in
  '(me, ha) ← try_divs 5 l uniq_num (num ruleset) (low r0) len dim 4 shift me me_ratio nr h ha;
  Ok (me, set_hi aux ha).

Definition hi_match_expect (n : cnode) (dim : Z) (aux : cut_aux) : res (double * cut_aux) :=
  hi_get_rule_hist (n_ruleset n) dim aux.

(** ** Cutting *)

(** The first child whose segments hold segment [s], -1 when there is none. *)
Definition find_child (nr : list (Z * Z)) (n s : Z) : res Z :=
  mfor 0 n (λ i c,
    '(a, b) ← aget nr i;
    Ok (if (a <=? s) && (s <=? b) && (c =? -1) then i else c)) (-1).

(** The rule trimmed to the segments [ab] of a child. *)
Definition hi_trim (dim start shift : Z) (ab : Z * Z) (r : rule_t) : rule_t :=
  let trim_s := u64 (start + ab.1 * Z.shiftl 1 shift) in
  let trim_e := u64 (start + (ab.2 + 1) * Z.shiftl 1 shift) in
  let lo := if (rng r dim).1 <? trim_s then u32 trim_s else (rng r dim).1 in
  let hi := if trim_e <=? (rng r dim).2 then u32 (trim_e - 1) else (rng r dim).2 in
  set_rng r dim (lo, hi).

Definition hi_push_rule (r : rule_t) (dim : Z) (ha : hi_aux) (cs : list cnode) : res (list cnode) :=
  let start := anth (ha_start ha) dim in
  let shift := anth (ha_shift ha) dim in
  let nr := anth (ha_node_r ha) dim in
  let n := childs (anth (ha_hist ha) dim) in
  c1 ← find_child nr n (Z.shiftr (u32 ((rng r dim).1 - start)) shift);
  c2 ← find_child nr n (Z.shiftr (u32 ((rng r dim).2 - start)) shift);
  _ ← assert_ (c1 <=? c2);
  mfor c1 (c2 + 1) (λ i cs,
    ab ← aget nr i;
    append_child cs i (hi_trim dim start shift ab r)) cs.

Definition hi_set_bitmap (nr : list (Z * Z)) (n : Z) (bitmap : Z) : res Z :=
  mfor 0 (n - 1) (λ i m, '(_, b) ← aget nr i; Ok (set_bit m b)) bitmap.

(** [hi_set_node] on a node that was all zero. *)
Definition hi_set_node (ha : hi_aux) (dim : Z) : res hi_node :=
  m ← hi_set_bitmap (anth (ha_node_r ha) dim) (childs (anth (ha_hist ha) dim)) 0;
  Ok (mk_hn (anth (ha_start ha) dim) (anth (ha_shift ha) dim) m).

(** The loop of [rule_set_init]s. *)
Definition hi_alloc (h : rule_hist) (cs : list cnode) : res (list cnode) :=
  mfor 0 (childs h) (λ i cs,
    c ← aget cs i;
    k ← aget (child_rulecount h) i;
    aset cs i (with_ruleset c (rule_set_init (n_ruleset c) k).1)) cs.

Definition hi_cut (cut_node : cut_fun) (n : cnode) (dim : Z) (aux : cut_aux)
    : res (cnode * cut_aux) :=
  let ha := ca_hi aux in
  let h := anth (ha_hist ha) dim in
  match bc_calloc (childs h) sizeof_cnode zero_cnode with
  | None => Err EPanic
  | Some cs =>
    cs ← hi_alloc h cs;
    cs ← mfor 0 (num (n_ruleset n)) (λ i cs,
      r ← aget (ruleList (n_ruleset n)) i; hi_push_rule r dim ha cs) cs;
    _ ← mfor 0 (childs h) (λ i _,
      c ← aget cs i; k ← aget (child_rulecount h) i;
      assert_ (num (n_ruleset c) =? k)) tt;
    hn ← hi_set_node ha dim;
    '(cs, aux) ← cut_recursive cut_node cs (childs h) aux;
    Ok (CNode (BHi hn cs) (n_dim n) (n_leaf n) (n_type n) (rule_set_free (n_ruleset n)), aux)
  end.

(** ** The other methods of the table *)
Definition hi_init (n : cnode) (aux : cut_aux) : res cut_aux :=
  rg ← darray_growalloc sizeof_range1d darray_init (num (n_ruleset n));
  match heap_init aux_heap_less with
  | None => Err EOob   (* the first use of the NULL heap is outside any object *)
  | Some h => Ok (set_hi aux (set_scratch (ca_hi aux) rg h))
  end.

End hi.

Definition hi_fits_bs (aux : cut_aux) (dim : Z) : bool :=
  forallb (λ i, let c := anth (child_rulecount (anth (ha_hist (ca_hi aux)) dim)) i in
     negb (negb (c =? 0) && (BUCKETSIZE <? c))) (seqZ 0 CHILDCOUNT).

Definition hi_mem_quant (aux : cut_aux) (dim : Z) : Z := childs (anth (ha_hist (ca_hi aux)) dim).

(** [__builtin_popcount] takes an [unsigned int]. *)
Definition hi_count_childs (n : cnode) : Z :=
  if negb (n_leaf n) then
    match n_body n with BHi hn _ => popcount (u32 (hn_bitmap hn)) | _ => 0 end
  else 0.
