(* ===== verification/Cut.v ===== *)
(** * Building and searching the tree

    [cut.h] and [cut.c]: the table of cut methods, [cut_node], which chooses a
    method and a dimension and cuts a node, [cut], the search through the tree,
    [traverse] and [get_tree_info]. *)
From S2P Require Import Prelude.
From S2P Require Import Rule.
From S2P Require Import Classify.
From S2P Require Import Double.
From S2P Require Import MbNode.
From S2P Require Import CutInl.
From S2P Require Import CutBitmap.
From S2P Require Import CutSplit.
From S2P Require Import CutHi.
#[local] Open Scope Z_scope.

(** ** The table of methods *)

(** [struct cut_method], except [traverse] and [set_child_ptr], which come with
    the traversals below. *)
Record cut_method := mk_method {
  m_aux_init : cnode → cut_aux → res cut_aux;
  m_cut_node : cut_fun → cnode → Z → cut_aux → res (cnode * cut_aux);
  m_match_expect : cnode → Z → cut_aux → res (double * cut_aux);
  m_mem_quant : cut_aux → Z → Z;
  m_all_fits_bs : cut_aux → Z → bool;
  m_count_childs : cnode → Z }.

Definition all_cut_types : list cut_type := [BITMAP_CUT; SPLIT_CUT; HI_CUT].

Section cut.
Context `{Allocator}.

(** As the three constructors [register_cut_method] fill it. *)
Definition cuts (t : cut_type) : cut_method :=
  match t with
  | BITMAP_CUT => mk_method even_init even_cut even_match_expect even_mem_quant even_fits_bs
                    even_count_childs
  | SPLIT_CUT => mk_method split_aux_init split_cut split_match_expect split_mem_quant
                    split_fits_bs split_count_childs
  | HI_CUT => mk_method hi_init hi_cut hi_match_expect hi_mem_quant hi_fits_bs hi_count_childs
  end.

(** ** Choosing a cut *)

(** The inner loop over the dimensions: the least cost of method [t] and its
    dimension ([min[t]], [chose_dim[t]]). *)
Definition best_dim (t : cut_type) (n : cnode) (aux : cut_aux) : res (double * Z * cut_aux) :=
  '(best, aux) ← mfor 0 DIM (λ i '(best, aux),
    '(me, aux) ← m_match_expect (cuts t) n i aux;
    Ok (match best with
        | None => Some (me, i)
        | Some (mn, _) => if dlt me mn then Some (me, i) else best
        end, aux)) (None, aux);
  match best with
  | None => Err EAssert
  | Some (mn, d) => Ok (mn, d, aux)
  end.

(** The loop over the methods: a cost and a dimension for each. *)
Definition best_dims (n : cnode) (aux : cut_aux)
    : res (list (cut_type * double * Z) * cut_aux) :=
  mfold (λ t '(ms, aux),
    '(mn, d, aux) ← best_dim t n aux; Ok (ms ++ [(t, mn, d)], aux)) all_cut_types ([], aux).

(** The method with the least cost below the number of rules, 0 if there is none. *)
Definition chose_min (n : Z) (ms : list (cut_type * double * Z)) : cut_type :=
  (foldl (λ '(chose_t, min_t) '(t, mn, _),
     if dlt mn min_t then (t, mn) else (chose_t, min_t)) (BITMAP_CUT, d_of_Z n) ms).1.

Definition mem_quant_of (aux : cut_aux) (t : cut_type) (d : Z) : Z :=
  if m_all_fits_bs (cuts t) aux d then m_mem_quant (cuts t) aux d else CHILDCOUNT.

(** With [memory_constraints], a method that needs fewer children than method 0
    (whose entry holds the least found so far) replaces the choice. *)
Definition chose_mem (aux : cut_aux) (chose_t : cut_type) (ms : list (cut_type * double * Z)) : cut_type :=
  let quants := (λ '(t, _, d), (t, mem_quant_of aux t d)) <$> ms in
  match quants with
  | [] => chose_t
  | (_, q0) :: _ =>
    (foldl (λ '(chose_t, least) '(t, q), if q <? least then (t, q) else (chose_t, least))
       (chose_t, q0) quants).1
  end.

(** [chose_dim[t]] *)
Definition dim_of (t : cut_type) (ms : list (cut_type * double * Z)) : Z :=
  match list_find (λ m, m.1.1 = t) ms with Some (_, (_, _, d)) => d | None => 0 end.

(** The cut that [cut_node] decides for. *)
Definition choose (n : cnode) (aux : cut_aux) : res (cut_type * Z * cut_aux) :=
  '(ms, aux) ← best_dims n aux;
  let t := chose_min (num (n_ruleset n)) ms in
  let t := if memory_constraints then chose_mem aux t ms else t in
  Ok (t, dim_of t ms, aux).

(** [n->dim = d; n->type = t] *)
Definition set_dim_type (n : cnode) (d : Z) (t : cut_type) : cnode :=
  let '(CNode u _ l _ rs) := n in CNode u d l t rs.
Definition set_leaf (n : cnode) : cnode :=
  let '(CNode u d _ t rs) := n in CNode u d true t rs.

(** One node, the recursive calls passed in. *)
Definition cut_node_F (rec : cut_fun) (n : cnode) (aux : cut_aux) : res (cnode * cut_aux) :=
  if num (n_ruleset n) <=? BUCKETSIZE then Ok (set_leaf n, aux) else
  '(t, d, aux) ← choose n aux;
  m_cut_node (cuts t) rec (set_dim_type n d t) d aux.

(** The tree is cut to at most [fuel] levels. *)
Fixpoint cut_node (fuel : nat) (n : cnode) (aux : cut_aux) : res (cnode * cut_aux) :=
  match fuel with
  | O => Err EFuel
  | S fuel => cut_node_F (cut_node fuel) n aux
  end.

(** [aux] is a local variable that is not initialised: [junk] is what it holds. *)
Definition aux_init (root : cnode) (junk : cut_aux) : res cut_aux :=
  mfold (λ t aux, m_aux_init (cuts t) root aux) all_cut_types junk.

Definition cut (fuel : nat) (junk : cut_aux) (root : cnode) : res cnode :=
  aux ← aux_init root junk;
  '(n, _) ← cut_node fuel root aux;
  Ok n.

End cut.

(** ** Search *)

(** The switch of [search]. *)
Definition search_step (n : cnode) (f : flow) : res (option cnode * flow) :=
  match n_type n with
  | BITMAP_CUT => even_search n f
  | SPLIT_CUT => split_search n f
  | HI_CUT => hi_search n f
  end.

Fixpoint search_loop (fuel : nat) (n : cnode) (f : flow) : res Z :=
  if n_leaf n then lsearch (n_ruleset n) f else
  match fuel with
  | O => Err EFuel
  | S fuel =>
    '(o, f) ← search_step n f;
    match o with
    | Some c => search_loop fuel c f
    | None => Ok (-1)
    end
  end.

(** The number of levels below a node. *)
Fixpoint height (n : cnode) : nat :=
  match n_body n with
  | BZero => 0
  | BMb _ cs _ | BSp _ cs | BHi _ cs => S (list_max (map height cs))
  end.

Definition search (root : cnode) (f : flow) : res Z := search_loop (S (height root)) root f.

(** ** Traversal *)
Section traverse.
Context {S : Type}.
Implicit Types (tf : cnode → S → Z → res S) (self : cnode → S → Z → res S).

(** [self] is [traverse(n, traverse_func, arg, depth)], [st] what [arg] points to. *)
Definition visit self (cs : list cnode) (depth j : Z) (st : S) : res S :=
  c ← aget cs j; self c st (depth + 1).

Definition even_traverse self (curr : cnode) (st : S) (depth : Z) : res S :=
  match n_body curr with
  | BMb mb cs child_ptr =>
    st ← for_bits 64 (internal mb) 0 (λ b, visit self cs depth (next_inl mb child_ptr b)) st;
    for_bits 64 (external mb) 0 (λ b, visit self cs depth (next_exl mb child_ptr b)) st
  | BZero => Ok st
  | _ => Err EOob
  end.

Definition split_traverse self (curr : cnode) (st : S) (depth : Z) : res S :=
  match n_body curr with
  | BSp sp cs => for_bits 8 (shape sp) 0 (λ b, visit self cs depth (split_next sp b)) st
  | BZero => Ok st
  | _ => Err EOob
  end.

Definition hi_traverse self (curr : cnode) (st : S) (depth : Z) : res S :=
  match n_body curr with
  | BHi hn cs => for_bits 64 (hn_bitmap hn) 0 (λ b st, j ← hi_next hn b; visit self cs depth j st) st
  | BZero => Ok st
  | _ => Err EOob
  end.

Fixpoint traverse_loop (fuel : nat) tf (root : cnode) (st : S) (depth : Z) : res S :=
  match fuel with
  | O => Err EFuel
  | Datatypes.S fuel =>
    st ← tf root st depth;
    match n_type root with
    | BITMAP_CUT => even_traverse (traverse_loop fuel tf) root st depth
    | SPLIT_CUT => split_traverse (traverse_loop fuel tf) root st depth
    | HI_CUT => hi_traverse (traverse_loop fuel tf) root st depth
    end
  end.
Definition traverse tf (root : cnode) (st : S) (depth : Z) : res S :=
  traverse_loop (Datatypes.S (height root)) tf root st depth.
End traverse.

(** The counters of [struct ctree_info]. *)
Record ctree_info := mk_info {
  node_cnt : Z; leaf_cnt : Z; rule_cnt : Z; depth_cnt : Z; max_depth : Z; access_cnt : Z;
  ci_cut_type : list Z }.

Definition cut_type_idx (t : cut_type) : nat :=
  match t with BITMAP_CUT => 0 | SPLIT_CUT => 1 | HI_CUT => 2 end.

Definition get_tree_info_traverse (n : cnode) (info : ctree_info) (depth : Z) : res ctree_info :=
  let md := if max_depth info <? depth then depth else max_depth info in
  Ok (if n_leaf n then
        mk_info (node_cnt info + 1) (leaf_cnt info + 1) (rule_cnt info + num (n_ruleset n))
          (depth_cnt info + depth) md (access_cnt info + (depth + num (n_ruleset n)))
          (ci_cut_type info)
      else
        mk_info (node_cnt info + 1) (leaf_cnt info) (rule_cnt info) (depth_cnt info) md
          (access_cnt info) (alter (Z.add 1) (cut_type_idx (n_type n)) (ci_cut_type info))).

(** The counters that [get_tree_info] prints. *)
Definition get_tree_info (root : cnode) : res ctree_info :=
  traverse get_tree_info_traverse root (mk_info 0 0 0 0 0 0 [0; 0; 0]) 0.
