(* ===== verification/Tree.v ===== *)
(** * Trees that answer like their rules

    What a finished tree promises ([good]): for every packet, the search through
    it gives the answer of the linear search over the rules it was cut from, and
    every node has the children its bitmaps say it has ([shaped]).
    The facts on [search] and on [cut_recursive] that all cut methods share. *)
From stdpp Require Import relations.
From S2P Require Import Prelude.
From S2P Require Import Rule.
From S2P Require Import Classify.
From S2P Require Import Prefix.
From S2P Require Import Heap.
From S2P Require Import MbNode.
From S2P Require Import CutInl.
From S2P Require Import Redund.
From S2P Require Import Push.
From S2P Require Import CutBitmap.
From S2P Require Import CutSplit.
From S2P Require Import CutHi.
From S2P Require Import Cut.
#[local] Open Scope Z_scope.

(** ** Well-formed packets and rules *)
Definition bits_of (d : Z) : Z := anth dim_bits d.

Definition flow_ok (f : flow) : Prop :=
  length (key f) = 5%nat ∧ ∀ d, 0 ≤ d < DIM → 0 ≤ anth (key f) d < 2 ^ bits_of d.

Definition rule_ok (r : rule_t) : Prop :=
  length (range r) = 5%nat ∧ (∀ d, 0 ≤ d < DIM → range_ok (bits_of d) (rng r d)) ∧
  0 ≤ pri r < UINT32_MAX.

Definition set_ok (rs : rule_set_t) : Prop := rs_ok rs ∧ Forall rule_ok (live rs).

Lemma bits_of_cases d : 0 ≤ d < DIM → bits_of d = 8 ∨ bits_of d = 16 ∨ bits_of d = 32.
Proof.
  unfold DIM. intros Hd. assert (d = 0 ∨ d = 1 ∨ d = 2 ∨ d = 3 ∨ d = 4) as Hc by lia.
  destruct Hc as [->|[->|[->|[->| ->]]]]; vm_compute; auto.
Qed.

Lemma rng_set_eq r d b : length (range r) = 5%nat → 0 ≤ d < DIM → rng (set_rng r d b) d = b.
Proof.
  intros Hl Hd. unfold rng, set_rng, anth, DIM in *. simpl.
  apply list_lookup_total_insert_eq. lia.
Qed.

Lemma rng_set_ne r d d' b : 0 ≤ d → 0 ≤ d' → d' ≠ d → rng (set_rng r d b) d' = rng r d'.
Proof.
  intros ?? Hd. unfold rng, set_rng, anth. simpl. apply list_lookup_total_insert_ne. lia.
Qed.

Lemma set_rng_ok r d b : rule_ok r → 0 ≤ d < DIM → range_ok (bits_of d) b → rule_ok (set_rng r d b).
Proof.
  intros (Hl & Hr & Hp) Hd Hb. split; [simpl; by rewrite length_insert|]. split; [|done].
  intros d' Hd'. destruct (decide (d' = d)) as [->|].
  - by rewrite rng_set_eq.
  - rewrite rng_set_ne by lia. auto.
Qed.

(** Replacing the range of a dimension and the key: the rule matches when the new
    key is in the new range and the other dimensions match. *)
Definition match_rest (d : Z) (f : flow) (r : rule_t) : Prop :=
  ∀ d', 0 ≤ d' < DIM → d' ≠ d → (rng r d').1 ≤ anth (key f) d' ≤ (rng r d').2.

Lemma matches_split d f r :
  0 ≤ d < DIM →
  lsearch_match f r = true ↔ ((rng r d).1 ≤ anth (key f) d ≤ (rng r d).2) ∧ match_rest d f r.
Proof.
  intros Hd. rewrite lsearch_match_spec. unfold matches. split.
  - intros Hm. split; [by apply Hm|]. intros d' ??. by apply Hm.
  - intros [H1 H2] d' Hd'. destruct (decide (d' = d)) as [->|]; [done|auto].
Qed.

Lemma match_rest_set d f r b : 0 ≤ d → match_rest d f (set_rng r d b) ↔ match_rest d f r.
Proof. intros Hd. unfold match_rest. split; intros Hm d' ??; specialize (Hm d'); rewrite rng_set_ne in * by lia; auto. Qed.

Lemma key_set_eq f d k : length (key f) = 5%nat → 0 ≤ d < DIM → anth (key (set_key f d k)) d = k.
Proof. intros Hl Hd. unfold anth, set_key, DIM in *. simpl. apply list_lookup_total_insert_eq. lia. Qed.
Lemma key_set_ne f d d' k : 0 ≤ d → 0 ≤ d' → d' ≠ d → anth (key (set_key f d k)) d' = anth (key f) d'.
Proof. intros. unfold anth, set_key. simpl. apply list_lookup_total_insert_ne. lia. Qed.

Lemma match_rest_key d f r k : 0 ≤ d → match_rest d (set_key f d k) r ↔ match_rest d f r.
Proof. intros Hd. unfold match_rest. split; intros Hm d' ??; specialize (Hm d'); rewrite key_set_ne in * by lia; auto. Qed.

Lemma set_key_ok f d k : flow_ok f → 0 ≤ d < DIM → 0 ≤ k < 2 ^ bits_of d → flow_ok (set_key f d k).
Proof.
  intros (Hl & Hk) Hd Hb. split; [simpl; by rewrite length_insert|].
  intros d' Hd'. destruct (decide (d' = d)) as [->|].
  - by rewrite key_set_eq.
  - rewrite key_set_ne by lia. auto.
Qed.

(** ** The search *)
Lemma search_step_child n f c f' : search_step n f = Ok (Some c, f') → c ∈ n_childs n.
Proof.
  unfold search_step, even_search, split_search, hi_search, n_childs.
  intros Hs. destruct (n_type n), (n_body n); try done; repeat case_match; simplify_eq;
    repeat (apply bind_Ok in Hs as (? & ? & Hs)); simplify_eq;
    match goal with E : aget _ _ = Ok _ |- _ => apply aget_Ok in E as [_ E] end;
    by eapply list_elem_of_lookup_2.
Qed.

Lemma list_max_elem (l : list nat) x : In x l → (x ≤ list_max l)%nat.
Proof.
  intros Hin. pose proof (proj1 (list_max_le l (list_max l)) (le_n _)) as Hf.
  rewrite Forall_forall in Hf. apply Hf. by apply list_elem_of_In.
Qed.

Lemma height_child n c : c ∈ n_childs n → (height c < height n)%nat.
Proof.
  destruct n as [u d l t rs]. unfold n_childs. simpl. intros Hc.
  destruct u; [set_solver|..]; apply Nat.lt_succ_r, list_max_elem, in_map, list_elem_of_In; done.
Qed.

Lemma search_loop_enough k1 k2 n f :
  (height n < k1)%nat → (height n < k2)%nat → search_loop k1 n f = search_loop k2 n f.
Proof.
  revert k2 n f. induction k1 as [|k1 IH]; intros k2 n f H1 H2; [lia|].
  destruct k2 as [|k2]; [lia|]. cbn [search_loop]. destruct (n_leaf n); [done|].
  destruct (search_step n f) as [[[c|] f']|] eqn:E; cbn [mbind res_bind]; try done.
  apply search_step_child, height_child in E. apply IH; lia.
Qed.

(** The search never runs out of levels: it is the loop of the source. *)
Lemma search_unfold n f :
  search n f =
    if n_leaf n then lsearch (n_ruleset n) f else
    '(o, f) ← search_step n f;
    match o with Some c => search c f | None => Ok (-1) end.
Proof.
  unfold search at 1. cbn [search_loop]. destruct (n_leaf n); [done|].
  destruct (search_step n f) as [[[c|] f']|] eqn:E; cbn [mbind res_bind]; try done.
  apply search_step_child, height_child in E. apply search_loop_enough; lia.
Qed.

(** ** Good trees *)

(** The answer of a search: the right one, or, for a packet that no rule matches,
    possibly a run that left the defined behaviour of C. *)
Definition result_ok (r : res Z) (o : option Z) : Prop :=
  match o with
  | Some p => r = Ok (s32 p)
  | None => r = Ok (-1) ∨ ∃ e, r = Err e
  end.

(** The shape of a node: the bitmaps, the kind of the cut and the array of children
    belong together.  A node of the equal-size cut has one bit less than children. *)
Definition shape_ok (n : cnode) : Prop :=
  match n_body n with
  | BZero => True
  | BMb mb cs child_ptr =>
    n_type n = BITMAP_CUT ∧ 0 ≤ internal mb < 2 ^ 64 ∧ 0 ≤ external mb < 2 ^ 64 ∧
    child_ptr = popcount (internal mb) ∧ zlen cs = popcount (internal mb) + popcount (external mb)
  | BSp sp cs => n_type n = SPLIT_CUT ∧ ∃ t, split_fill t = (sp, zlen cs)
  | BHi hn cs => n_type n = HI_CUT ∧ 0 ≤ hn_bitmap hn < 2 ^ 64 ∧ popcount (hn_bitmap hn) + 1 = zlen cs
  end.

Definition child_of (n c : cnode) : Prop := c ∈ n_childs n.
Definition shaped (n : cnode) : Prop := ∀ m, rtc child_of n m → shape_ok m.

Lemma shaped_node n : shape_ok n → Forall shaped (n_childs n) → shaped n.
Proof.
  intros Hn Hcs m Hm. apply rtc_inv in Hm as [<-|(c & Hc & Hm)]; [done|].
  rewrite Forall_forall in Hcs. by apply (Hcs c Hc).
Qed.

Lemma shaped_child n c : shaped n → c ∈ n_childs n → shaped c.
Proof. intros Hn Hc m Hm. apply Hn. by eapply rtc_l. Qed.

Lemma shaped_zero d lf t rs : shaped (CNode BZero d lf t rs).
Proof. apply shaped_node; [done|constructor]. Qed.

Definition good (n : cnode) (l : list rule_t) : Prop :=
  shaped n ∧ ∀ f, flow_ok f → result_ok (search n f) (classify l f).

Lemma good_leaf d t rs : rs_ok rs → good (CNode BZero d true t rs) (live rs).
Proof.
  intros Hok. split; [apply shaped_zero|]. intros f _. rewrite search_unfold. cbn [n_leaf n_ruleset].
  rewrite lsearch_spec by done. destruct (classify _ f); simpl; eauto.
Qed.

Lemma good_ext n l k : (∀ f, classify l f = classify k f) → good n l → good n k.
Proof. intros He [Hs Hg]. split; [done|]. intros f Hf. rewrite <- He. auto. Qed.

(** A node that was cut: each packet goes to a child that is good for rules which
    give the packet the same answer. *)
Lemma good_cut n l :
  shape_ok n → Forall shaped (n_childs n) → n_leaf n = false →
  (∀ f, flow_ok f →
     (∃ c f' k, search_step n f = Ok (Some c, f') ∧ flow_ok f' ∧ good c k ∧ classify k f' = classify l f)
     ∨ (classify l f = None ∧ ((∃ f', search_step n f = Ok (None, f')) ∨ ∃ e, search_step n f = Err e))) →
  good n l.
Proof.
  intros Hn Hcs Hl Hs. split; [by apply shaped_node|]. intros f Hf. rewrite search_unfold, Hl.
  destruct (Hs f Hf) as [(c & f' & k & -> & Hf' & [_ Hg] & <-)|[-> [[f' ->]|[e ->]]]]; simpl; eauto.
Qed.

(** The children after the recursive calls. *)
Lemma good_children (ixs : list Z) (cs cs' : list cnode) :
  length cs' = length cs → (∀ p, (p < length cs)%nat → Z.of_nat p ∈ ixs) →
  (∀ p c, cs !! p = Some c →
    if decide (Z.of_nat p ∈ ixs) then ∃ c', cs' !! p = Some c' ∧ good c' (live (n_ruleset c)) else cs' !! p = Some c) →
  Forall shaped cs'.
Proof.
  intros Hl Hall Hcs. apply Forall_lookup. intros p c' Hp.
  assert (Hlt : (p < length cs)%nat) by (rewrite <- Hl; by eapply lookup_lt_Some).
  destruct (lookup_lt_is_Some_2 cs p Hlt) as [c Hc]. specialize (Hcs p c Hc).
  rewrite decide_True in Hcs by auto. destruct Hcs as (c1 & Hc1 & [Hs _]). by assert (c' = c1) as -> by congruence.
Qed.

(** ** The recursive calls *)

(** What the recursive calls promise; [I] is the invariant of the scratch state. *)
Record rec_ok (I : cut_aux → Prop) (rec : cut_fun) : Prop := {
  rec_leaf n aux res : num (n_ruleset n) ≤ BUCKETSIZE → rec n aux = Ok res → res = (set_leaf n, aux);
  rec_good rs aux n' aux' : I aux → set_ok rs → 0 < num rs →
    rec (with_ruleset zero_cnode rs) aux = Ok (n', aux') → good n' (live rs) ∧ I aux' }.

(** A child as the cuts build it: the rules of an empty one have no room. *)
Definition child_ok (c : cnode) : Prop :=
  c = with_ruleset zero_cnode (n_ruleset c) ∧ set_ok (n_ruleset c) ∧
  (num (n_ruleset c) = 0 → cap (n_ruleset c) = 0).

Lemma cut_child_good I rec i cn aux cn' aux' c :
  rec_ok I rec → cn !! i = Some c → child_ok c → I aux →
  cut_child rec (Z.of_nat i) (cn, aux) = Ok (cn', aux') →
  ∃ c', cn' = <[i := c']> cn ∧ good c' (live (n_ruleset c)) ∧ I aux'.
Proof.
  intros [Hleaf Hgood] Hc (Hz & [Hok Hrules] & Hempty) HI Hcut. unfold cut_child in Hcut.
  rewrite (aget_lookup cn (Z.of_nat i) c) in Hcut by (lia || by rewrite Nat2Z.id).
  cbn [mbind res_bind] in Hcut. apply bind_Ok in Hcut as (rs & Hr & Hcut).
  apply bind_Ok in Hcut as ([c' aux1] & Hrec & Hcut). apply bind_Ok in Hcut as (cn1 & [_ ->]%aset_Ok & Hcut).
  injection Hcut as <- <-. rewrite Nat2Z.id. exists c'. split; [done|].
  assert (Hok' := Hok). destruct Hok' as [Hn Hl].
  rewrite Hz, with_ruleset_twice in Hrec.
  destruct (decide (num (n_ruleset c) = 0)) as [H0|H0].
  - assert (n_ruleset c = mk_rs 0 0 []) as Hrs.
    { specialize (Hempty H0). destruct (n_ruleset c) as [nn cc ll]; simpl in *. subst.
      f_equal. unfold zlen in Hl. destruct ll; [done|simpl in Hl; lia]. }
    rewrite Hrs in Hr. simpl in Hr. injection Hr as <-.
    apply Hleaf in Hrec; [|done]. injection Hrec as -> ->. split; [|done]. split; [apply shaped_zero|].
    intros f _. rewrite Hrs, search_unfold. simpl. right. by exists EOob.
  - destruct (remove_redund_spec (n_ruleset c) Hok) as (rs' & Hr' & Hok' & Hlive & _ & Hn'); [lia|].
    rewrite Hr' in Hr. injection Hr as <-.
    assert (Hset : set_ok rs').
    { split; [done|]. rewrite Hlive. rewrite Forall_forall in Hrules |- *.
      intros r Hin%kept_subseteq. auto. }
    destruct (Hgood rs' aux c' aux1) as [Hg HI']; [done..|lia|done|].
    split; [|done]. eapply good_ext; [|done]. intros f. rewrite Hlive. apply kept_classify.
    intros r Hin. rewrite Forall_forall in Hrules. destruct (Hrules r Hin) as (_ & _ & ?). lia.
Qed.

(** Cutting children one after the other, in any order. *)
Lemma cut_children_good I rec ixs cs cs' aux aux' :
  rec_ok I rec → I aux → (∀ p c, Z.of_nat p ∈ ixs → cs !! p = Some c → child_ok c) → NoDup ixs →
  mfold (cut_child rec) ixs (cs, aux) = Ok (cs', aux') →
  I aux' ∧ length cs' = length cs ∧
  ∀ p c, cs !! p = Some c →
    if decide (Z.of_nat p ∈ ixs) then ∃ c', cs' !! p = Some c' ∧ good c' (live (n_ruleset c))
    else cs' !! p = Some c.
Proof.
  intros Hrec HI Hcs Hnd Hm.
  pose (P := λ (ixs : list Z) (st : list cnode * cut_aux),
    NoDup ixs → I st.2 ∧ length st.1 = length cs ∧ ∀ p c, cs !! p = Some c →
      if decide (Z.of_nat p ∈ ixs) then ∃ c', st.1 !! p = Some c' ∧ good c' (live (n_ruleset c))
      else st.1 !! p = Some c).
  cut (P ixs (cs', aux')); [intros HP; by apply HP|].
  apply (mfold_Ok_inv P _ _ _ _ Hm).
  { intros _. split; [done|]. split; [done|]. intros p c Hc. rewrite decide_False by set_solver. done. }
  intros pre i [st a] [st' a'] HP [rest Hrest] Hc Hnd'.
  apply NoDup_app in Hnd' as (Hnd1 & Hni & _). destruct (HP Hnd1) as (HIa & Hlen & Hst); simpl in *.
  assert (Hnotin : i ∉ pre) by (intros Hin; by apply (Hni i Hin); left).
  assert (Hi : 0 ≤ i).
  { unfold cut_child in Hc. by apply bind_Ok in Hc as (? & [? _]%aget_Ok & _). }
  assert (Hex : ∃ c, st !! Z.to_nat i = Some c).
  { unfold cut_child in Hc. apply bind_Ok in Hc as (? & [_ ?]%aget_Ok & _). eauto. }
  destruct Hex as [c Hci].
  destruct (lookup_lt_is_Some_2 cs (Z.to_nat i)) as [c0 Hc0].
  { rewrite <- Hlen. by eapply lookup_lt_Some. }
  pose proof (Hst _ _ Hc0) as Hsame. rewrite Z2Nat.id, decide_False in Hsame by done.
  assert (c0 = c) as -> by congruence.
  rewrite <- (Z2Nat.id i) in Hc by done.
  destruct (cut_child_good I rec (Z.to_nat i) st a st' a' c) as (c' & -> & Hg & HI'); eauto.
  { eapply Hcs; [|done]. rewrite Z2Nat.id by done. set_solver. }
  split; [done|]. split; [by rewrite length_insert|]. intros p c1 Hp.
  destruct (decide (p = Z.to_nat i)) as [->|Hne].
  - assert (c1 = c) as -> by congruence. rewrite Z2Nat.id by done. rewrite decide_True by set_solver.
    exists c'. split; [|done]. apply list_lookup_insert_eq. by eapply lookup_lt_Some.
  - rewrite list_lookup_insert_ne by done. specialize (Hst p c1 Hp).
    destruct (decide (Z.of_nat p ∈ pre)).
    + by rewrite decide_True by set_solver.
    + rewrite decide_False; [done|]. rewrite elem_of_app, list_elem_of_singleton. intros [|]; [done|lia].
Qed.
