(* ===== verification/BitmapPath.v ===== *)
(** * The prefix tree of the bitmap cut

    The 127 children of a bitmap node are the nodes of the complete binary tree
    of the prefixes of a six-bit stride, numbered row by row.  The blocks of a
    rule are sent to the node of their prefix and to the nodes below it; the
    facts here relate a block, its node and the path of a packet. *)
From S2P Require Import Prelude.
From S2P Require Import Rule.
From S2P Require Import Classify.
From S2P Require Import Prefix.
From S2P Require Import MbNode.
From S2P Require Import CutInl.
From S2P Require Import CutBitmap.
From S2P Require Import Cut.
From S2P Require Import Tree.
#[local] Open Scope Z_scope.

(** ** The tree *)

(** A node and its ancestors, up to the root. *)
Fixpoint ancs (fuel : nat) (c : Z) : list Z :=
  c :: match fuel with O => [] | S fuel => if c =? 0 then [] else ancs fuel ((c - 1) / 2) end.
Definition path (c : Z) : list Z := ancs 7 c.

(** The rows of nodes below a node that [push_inl_rules_even] visits. *)
Fixpoint rows (fuel : nat) (start j : Z) : list Z :=
  match fuel with
  | O => []
  | S fuel => if start <? CHILDCOUNT then seqZ start j ++ rows fuel (start * 2 + 1) (j * 2) else []
  end.
Definition subtree (c : Z) : list Z := c :: (if c <? INL_OFFSET then rows 7 (c * 2 + 1) 2 else []).

Lemma path_inl_node s m :
  0 ≤ s < 64 → 0 ≤ m ≤ 6 → path (inl_node s m) = (λ i, inl_node s (m - i)) <$> seqZ 0 (m + 1).
Proof.
  intros Hs Hm.
  assert (Hall : forallb (λ s, forallb (λ m, bool_decide (path (inl_node s m) =
    (λ i, inl_node s (m - i)) <$> seqZ 0 (m + 1))) (seqZ 0 7)) (seqZ 0 64) = true)
    by (vm_compute; reflexivity).
  pose proof (forallb_seqZ _ _ (forallb_seqZ _ _ Hall s Hs) m ltac:(lia)) as H.
  by apply bool_decide_eq_true in H.
Qed.

Lemma elem_of_path s m i :
  0 ≤ s < 64 → 0 ≤ m ≤ 6 → i ∈ path (inl_node s m) ↔ ∃ c, 0 ≤ c ≤ m ∧ i = inl_node s c.
Proof.
  intros Hs Hm. rewrite path_inl_node, list_elem_of_fmap by done. setoid_rewrite elem_of_seqZ. split.
  - intros (j & -> & Hj). exists (m - j). split; [lia|done].
  - intros (c & Hc & ->). exists (m - c). split; [f_equal; lia|lia].
Qed.

Lemma path_self c : c ∈ path c.
Proof. unfold path. simpl. destruct (c =? 0); left. Qed.

(** The nodes that get the rules of node [i] are those with [i] on their path. *)
Lemma elem_of_subtree i c :
  0 ≤ i < CHILDCOUNT → 0 ≤ c < CHILDCOUNT → c ∈ subtree i ↔ i ∈ path c.
Proof.
  intros Hi Hc.
  assert (Hall : forallb (λ i, forallb (λ c, Bool.eqb (bool_decide (c ∈ subtree i))
    (bool_decide (i ∈ path c))) (seqZ 0 127)) (seqZ 0 127) = true) by (vm_compute; reflexivity).
  pose proof (forallb_seqZ _ _ (forallb_seqZ _ _ Hall i Hi) c Hc) as H.
  apply eqb_prop in H. split; intros Hin.
  - eapply bool_decide_eq_true_1. rewrite <- H. by apply bool_decide_eq_true_2.
  - eapply bool_decide_eq_true_1. rewrite H. by apply bool_decide_eq_true_2.
Qed.

Lemma subtree_bounds i c : 0 ≤ i < CHILDCOUNT → c ∈ subtree i → 0 ≤ c < CHILDCOUNT.
Proof.
  intros Hi Hc.
  assert (Hall : forallb (λ i, forallb (λ c, (0 <=? c) && (c <? 127)) (subtree i)) (seqZ 0 127) = true)
    by (vm_compute; reflexivity).
  pose proof (forallb_seqZ _ _ Hall i Hi) as H. rewrite forallb_forall in H.
  specialize (H c ltac:(by apply list_elem_of_In)). change CHILDCOUNT with 127. lia.
Qed.

Lemma subtree_NoDup i : 0 ≤ i < CHILDCOUNT → NoDup (subtree i).
Proof.
  intros Hi.
  assert (Hall : forallb (λ i, bool_decide (NoDup (subtree i))) (seqZ 0 127) = true)
    by (vm_compute; reflexivity).
  pose proof (forallb_seqZ _ _ Hall i Hi) as H. by apply bool_decide_eq_true in H.
Qed.

(** ** Blocks *)
Lemma in_block_shiftr it k x :
  block it k → it_start it ≤ x ≤ it_end it ↔ Z.shiftr x k = Z.shiftr (it_start it) k.
Proof.
  intros (Hk & He & [q Hq] & Hs & _). pose proof (pow2_pos k ltac:(lia)) as Hp.
  rewrite !Z.shiftr_div_pow2 by lia. rewrite He, Hq. rewrite Z.div_mul by lia. split.
  - intros Hx. symmetry. apply (Z.div_unique_pos _ _ _ (x - q * 2 ^ k)); lia.
  - intros Hx. pose proof (Z.div_mod x (2 ^ k) ltac:(lia)) as Hdm.
    pose proof (Z.mod_pos_bound x (2 ^ k) ltac:(lia)). rewrite Hx in Hdm. lia.
Qed.

Section dim.
Context (d : Z) (Hd : 0 ≤ d < DIM).
Abbreviation B := (bits_of d).

Lemma B_bounds : 8 ≤ B ≤ 32.
Proof. destruct (bits_of_cases d Hd) as [->|[->| ->]]; lia. Qed.

(** The first six bits of a key. *)
Definition stride_of (k : Z) : Z := Z.shiftr k (B - 6).

Lemma stride_of_bounds k : 0 ≤ k < 2 ^ B → 0 ≤ stride_of k < 64.
Proof.
  pose proof B_bounds. intros Hk. unfold stride_of. rewrite Z.shiftr_div_pow2 by lia.
  split; [apply Z.div_pos; [lia|apply pow2_pos; lia]|].
  apply Z.div_lt_upper_bound; [apply pow2_pos; lia|].
  change 64 with (2 ^ 6). rewrite <- Z.pow_add_r by lia. replace (B - 6 + 6) with B by lia. lia.
Qed.

Lemma stride_of_shiftr k c : 0 ≤ c ≤ 6 → Z.shiftr (stride_of k) (6 - c) = Z.shiftr k (B - c).
Proof.
  pose proof B_bounds. intros Hc. unfold stride_of. rewrite Z.shiftr_shiftr by lia. f_equal. lia.
Qed.

(** The child of a block of the field. *)
Definition block_idx (it : prefix_iter_t) : Z := prefix_idx (get_prefix it B) B.

(** A block of the field: aligned, of [2 ^ k] values. *)
Definition field_block (it : prefix_iter_t) (k : Z) : Prop :=
  block it k ∧ 0 ≤ k ≤ B ∧ it_end it < 2 ^ B.

Lemma block_idx_eq it k :
  field_block it k → block_idx it = inl_node (stride_of (it_start it)) (Z.min (B - k) 6).
Proof.
  intros (Hb & Hk & He). pose proof B_bounds. unfold block_idx, prefix_idx.
  rewrite (get_prefix_block _ _ _ Hb). cbn [len prefix].
  assert (Hb' := Hb). destruct Hb' as (_ & He' & _ & Hs & _). pose proof (pow2_pos k ltac:(lia)).
  change STRIDE with 6. destruct (Z.leb_spec 6 (B - k)).
  - rewrite Z.min_r by lia. unfold inl_node. change (6 - 6) with 0. rewrite Z.shiftr_0_r.
    change INL_OFFSET with 63. change (2 ^ 6) with 64. fold (stride_of (it_start it)). lia.
  - rewrite Z.min_l by lia. rewrite <- stride_of_shiftr by lia.
    rewrite count_inl_node; [done| |lia]. apply stride_of_bounds. lia.
Qed.

Lemma block_idx_bounds it k : field_block it k → 0 ≤ block_idx it < CHILDCOUNT.
Proof.
  intros Hb. rewrite (block_idx_eq _ _ Hb). destruct Hb as ((_ & He' & _ & Hs & _) & Hk & He).
  pose proof (pow2_pos k ltac:(lia)).
  pose proof (inl_node_bounds (stride_of (it_start it)) (Z.min (B - k) 6)
    (stride_of_bounds (it_start it) ltac:(lia)) ltac:(lia)).
  pose proof (pow2_pos (Z.min (B - k) 6) ltac:(lia)).
  assert (2 ^ (Z.min (B - k) 6 + 1) ≤ 2 ^ 7) by (apply Z.pow_le_mono_r; lia).
  change CHILDCOUNT with 127. lia.
Qed.

(** The range of the rule in the child. *)
Definition child_range (it : prefix_iter_t) : range_t :=
  prefix_to_range (child_prefix (get_prefix it B) B) B.

(** The key after a shift, as [even_search] computes it. *)
Lemma lshift_mod k n : 0 ≤ n → even_search_lshift k B n = (k * 2 ^ n) mod 2 ^ B.
Proof.
  intros Hn. unfold even_search_lshift. rewrite Z.shiftl_mul_pow2 by done.
  assert (Hm : ∀ x b, 0 ≤ b ≤ 32 → (x mod 2 ^ 32) mod 2 ^ b = x mod 2 ^ b).
  { intros x b Hb. apply Z.mod_mod_divide. exists (2 ^ (32 - b)). rewrite <- Z.pow_add_r by lia. f_equal; lia. }
  destruct (bits_of_cases d Hd) as [->|[->| ->]]; simpl Z.eqb; cbv iota; unfold u8, u16, u32;
    first [apply Hm; lia|done].
Qed.

Lemma child_prefix_ext it k :
  field_block it k → k ≤ B - 6 →
  child_range it = ((it_start it * 64) mod 2 ^ B, (it_start it * 64) mod 2 ^ B + 64 * 2 ^ k - 1).
Proof.
  intros (Hb & Hk & He) Hk6. pose proof B_bounds. unfold child_range, child_prefix.
  rewrite (get_prefix_block _ _ _ Hb). cbn [len prefix]. change STRIDE with 6.
  rewrite (proj2 (Z.leb_le 6 (B - k))) by lia.
  assert (Hpre : (if B =? 8 then u8 (u32 (it_start it ≪ 6)) else
     if B =? 16 then u16 (u32 (it_start it ≪ 6)) else
     if B =? 32 then u32 (it_start it ≪ 6) else it_start it) = (it_start it * 64) mod 2 ^ B).
  { change 64 with (2 ^ 6). rewrite <- lshift_mod by lia. unfold even_search_lshift.
    destruct (bits_of_cases d Hd) as [->|[->| ->]]; done. }
  rewrite Hpre. unfold prefix_to_range. cbn [prefix len]. f_equal.
  replace (B - (B - k - 6)) with (k + 6) by lia. rewrite Z.shiftl_1_l, Z.pow_add_r by lia.
  change (2 ^ 6) with 64. unfold u32.
  destruct Hb as (_ & He' & [q Hq] & Hs & _). pose proof (pow2_pos k ltac:(lia)).
  rewrite Z.mod_small; [lia|]. rewrite Hq.
  assert (HB : 2 ^ B = 2 ^ (B - 6 - k) * (64 * 2 ^ k)).
  { replace (64 * 2 ^ k) with (2 ^ (6 + k)) by (rewrite Z.pow_add_r by lia; lia).
    rewrite <- Z.pow_add_r by lia. f_equal; lia. }
  pose proof (pow2_pos (B - 6 - k) ltac:(lia)).
  replace (q * 2 ^ k * 64) with (q * (64 * 2 ^ k)) by lia. rewrite HB.
  rewrite Zmult_mod_distr_r. pose proof (Z.mod_pos_bound q (2 ^ (B - 6 - k)) ltac:(lia)).
  assert (2 ^ B ≤ 2 ^ 32) by (apply Z.pow_le_mono_r; lia). nia.
Qed.

Lemma child_prefix_inl it k : field_block it k → B - 6 < k → child_range it = (0, 2 ^ B - 1).
Proof.
  intros (Hb & Hk & He) Hk6. pose proof B_bounds. unfold child_range, child_prefix.
  rewrite (get_prefix_block _ _ _ Hb). cbn [len]. change STRIDE with 6.
  rewrite (proj2 (Z.leb_gt 6 (B - k))) by lia. unfold prefix_to_range. cbn [prefix len].
  rewrite Z.sub_0_r, Z.shiftl_1_l, Z.add_0_l. unfold u32.
  assert (2 ^ B ≤ 2 ^ 32) by (apply Z.pow_le_mono_r; lia). pose proof (pow2_pos B ltac:(lia)).
  by rewrite Z.mod_small by lia.
Qed.

Lemma child_range_ok it k : field_block it k → range_ok B (child_range it).
Proof.
  intros Hb. pose proof B_bounds. destruct (decide (k ≤ B - 6)) as [Hk|Hk].
  - rewrite (child_prefix_ext _ k) by done. destruct Hb as ((_ & _ & [q Hq] & Hs & _) & Hkb & _).
    pose proof (pow2_pos k ltac:(lia)). pose proof (pow2_pos B ltac:(lia)).
    pose proof (Z.mod_pos_bound (it_start it * 64) (2 ^ B) ltac:(lia)).
    split; simpl; [lia|]. rewrite Hq.
    assert (HB : 2 ^ B = 2 ^ (B - 6 - k) * (64 * 2 ^ k)).
    { replace (64 * 2 ^ k) with (2 ^ (6 + k)) by (rewrite Z.pow_add_r by lia; lia).
      rewrite <- Z.pow_add_r by lia. f_equal; lia. }
    pose proof (pow2_pos (B - 6 - k) ltac:(lia)).
    replace (q * 2 ^ k * 64) with (q * (64 * 2 ^ k)) by lia. rewrite HB.
    rewrite Zmult_mod_distr_r. pose proof (Z.mod_pos_bound q (2 ^ (B - 6 - k)) ltac:(lia)). nia.
  - rewrite (child_prefix_inl _ k) by (done || lia). pose proof (pow2_pos B ltac:(lia)).
    split; simpl; lia.
Qed.

(** A key is in an internal block when the block's node is on the key's path. *)
Lemma in_inl_block it k x :
  field_block it k → B - 6 < k → 0 ≤ x < 2 ^ B →
  it_start it ≤ x ≤ it_end it ↔ block_idx it ∈ path (inl_node (stride_of x) 6).
Proof.
  intros Hf Hk Hx. pose proof B_bounds. assert (Hf' := Hf).
  destruct Hf' as (Hb & Hkb & He). rewrite (in_block_shiftr it k x Hb).
  pose proof (stride_of_bounds x Hx) as Hsx.
  assert (Hs0 : 0 ≤ stride_of (it_start it) < 64).
  { apply stride_of_bounds. destruct Hb as (_ & ? & _ & ? & _). pose proof (pow2_pos k ltac:(lia)). lia. }
  rewrite elem_of_path by lia. rewrite (block_idx_eq it k Hf), Z.min_l by lia.
  replace k with (B - (B - k)) at 1 2 by lia. rewrite <- !stride_of_shiftr by lia. split.
  - intros Heq. exists (B - k). split; [lia|]. unfold inl_node. by rewrite Heq.
  - intros (c & Hc & Heq). assert (c = B - k) as ->.
    { pose proof (inl_node_bounds _ c Hsx ltac:(lia)) as H1.
      pose proof (inl_node_bounds _ (B - k) Hs0 ltac:(lia)) as H2. rewrite Heq in H2.
      destruct (Z.lt_trichotomy c (B - k)) as [Hlt|[|Hlt]]; [exfalso|done|exfalso].
      - assert (2 ^ (c + 1) ≤ 2 ^ (B - k)) by (apply Z.pow_le_mono_r; lia). lia.
      - assert (2 ^ (B - k + 1) ≤ 2 ^ c) by (apply Z.pow_le_mono_r; lia). lia. }
    unfold inl_node in Heq. lia.
Qed.

(** A key is in a long block when it goes to the block's external child and the
    shifted key is in the shifted block. *)
Lemma in_ext_block it k x :
  field_block it k → k ≤ B - 6 → 0 ≤ x < 2 ^ B →
  it_start it ≤ x ≤ it_end it ↔
  block_idx it = inl_node (stride_of x) 6 ∧
  (child_range it).1 ≤ (x * 64) mod 2 ^ B ≤ (child_range it).2.
Proof.
  intros Hf Hk Hx. pose proof B_bounds. rewrite (child_prefix_ext it k) by done. cbn [fst snd].
  assert (Hf' := Hf). destruct Hf' as (Hb & Hkb & He).
  rewrite (block_idx_eq it k Hf), Z.min_r by lia.
  assert (Hinl : ∀ s, inl_node s 6 = 63 + s).
  { intros s. unfold inl_node. rewrite Z.sub_diag, Z.shiftr_0_r. lia. }
  rewrite !Hinl.
  assert (Hmod : ∀ y, (y * 64) mod 2 ^ B = 64 * (y mod 2 ^ (B - 6))).
  { intros y. replace (2 ^ B) with (2 ^ (B - 6) * 64)
      by (change 64 with (2 ^ 6); rewrite <- Z.pow_add_r by lia; f_equal; lia).
    rewrite Zmult_mod_distr_r. lia. }
  rewrite !Hmod.
  assert (Hdm : ∀ y, y = 2 ^ (B - 6) * stride_of y + y mod 2 ^ (B - 6)).
  { intros y. unfold stride_of. rewrite Z.shiftr_div_pow2 by lia. apply Z.div_mod.
    pose proof (pow2_pos (B - 6) ltac:(lia)). lia. }
  assert (Hsame : it_start it ≤ x ≤ it_end it → stride_of x = stride_of (it_start it)).
  { intros Hin. apply (in_block_shiftr it k x Hb) in Hin. unfold stride_of.
    replace (B - 6) with (k + (B - 6 - k)) by lia. rewrite <- !Z.shiftr_shiftr by lia. by rewrite Hin. }
  destruct Hb as (_ & He' & _ & Hs & _). pose proof (pow2_pos k ltac:(lia)).
  pose proof (Hdm x). pose proof (Hdm (it_start it)).
  split.
  - intros Hin. specialize (Hsame Hin). rewrite Hsame in *. split; [lia|].
    set (P := 2 ^ (B - 6) * stride_of (it_start it)) in *. lia.
  - intros [Hidx Hin]. assert (Hsx : stride_of x = stride_of (it_start it)) by lia. rewrite Hsx in *.
    set (P := 2 ^ (B - 6) * stride_of (it_start it)) in *. lia.
Qed.

End dim.
