(* ===== verification/BitmapSpec.v ===== *)
(** * The bitmap cut is correct

    The histogram is non-zero exactly at the children that get a block; the
    bitmaps, the numbering of the children and the pushed rules follow from it;
    the search goes to a child whose rules give the packet the same answer. *)
From S2P Require Import Prelude.
From S2P Require Import Rule.
From S2P Require Import Classify.
From S2P Require Import Prefix.
From S2P Require Import MbNode.
From S2P Require Import Heap.
From S2P Require Import CutInl.
From S2P Require Import Push.
From S2P Require Import CutBitmap.
From S2P Require Import Cut.
From S2P Require Import Tree.
From S2P Require Import BitmapPath.
#[local] Open Scope Z_scope.

(** ** The blocks of the rules *)

(** The blocks of the rules of a list, in the order of the loops. *)
Definition pieces (d : Z) (l : list rule_t) : list (rule_t * prefix_iter_t) :=
  concat ((λ r, (λ it, (r, it)) <$> prefixes (rng r d)) <$> l).

Lemma elem_of_pieces d l r it : (r, it) ∈ pieces d l ↔ r ∈ l ∧ it ∈ prefixes (rng r d).
Proof.
  unfold pieces. rewrite list_elem_of_In, in_concat. setoid_rewrite <- list_elem_of_In.
  setoid_rewrite list_elem_of_fmap. split.
  - intros (k & (r' & -> & Hr) & Hin). apply list_elem_of_fmap in Hin as (it' & [= -> ->] & Hit). done.
  - intros [Hr Hit]. eexists. split; [by exists r|]. apply list_elem_of_fmap. eauto.
Qed.

(** The double loop over the rules and their blocks is one loop. *)
Lemma piece_loop {S} d rs (body : rule_t → prefix_iter_t → S → res S) s :
  0 ≤ d < DIM → set_ok rs →
  mfor 0 (num rs) (λ i s, r ← aget (ruleList rs) i; for_prefixes (rng r d) (body r) s) s =
  mfold (λ p, body p.1 p.2) (pieces d (live rs)) s.
Proof.
  intros Hd [[Hn Hl] Hr]. rewrite (mfor_cells (ruleList rs)) by lia. unfold pieces.
  rewrite <- mfold_concat. apply mfold_ext. intros r s0 Hin.
  rewrite for_prefixes_mfold.
  - by rewrite mfold_fmap.
  - rewrite Forall_forall in Hr. destruct (Hr r Hin) as (_ & Hrng & _).
    eapply range_ok_32; [|by apply Hrng]. destruct (bits_of_cases d Hd) as [->|[->| ->]]; lia.
Qed.

Lemma piece_field_block d rs r it :
  0 ≤ d < DIM → set_ok rs → (r, it) ∈ pieces d (live rs) → ∃ k, field_block d it k.
Proof.
  intros Hd [_ Hr] [Hin Hit]%elem_of_pieces. rewrite Forall_forall in Hr.
  destruct (Hr r Hin) as (_ & Hrng & _).
  destruct (prefixes_block (bits_of d) (rng r d) it) as (k & Hb & Hk & He); auto.
  { destruct (bits_of_cases d Hd) as [->|[->| ->]]; lia. }
  by exists k.
Qed.

(** ** The histogram *)
Definition cnt (d : Z) (ps : list (rule_t * prefix_iter_t)) (c : Z) : Z :=
  zlen (filter (λ p, block_idx d p.2 = c) ps).

Lemma cnt_snoc d ps p c :
  cnt d (ps ++ [p]) c = cnt d ps c + (if decide (block_idx d p.2 = c) then 1 else 0).
Proof.
  unfold cnt. rewrite filter_app, zlen_app. f_equal. case_decide.
  - by rewrite filter_cons_True.
  - by rewrite filter_cons_False.
Qed.

Lemma cnt_nonneg d ps c : 0 ≤ cnt d ps c.
Proof. apply zlen_nonneg. Qed.

Lemma cnt_pos d ps c : cnt d ps c ≠ 0 ↔ ∃ p, p ∈ ps ∧ block_idx d p.2 = c.
Proof.
  unfold cnt. split.
  - intros Hn. destruct (filter _ ps) as [|p k] eqn:E; [done|]. exists p.
    assert (Hin : p ∈ filter (λ p, block_idx d p.2 = c) ps) by (rewrite E; left).
    apply list_elem_of_filter in Hin as [? ?]. done.
  - intros (p & Hin & Hp) Hz.
    assert (Hf : p ∈ filter (λ p, block_idx d p.2 = c) ps) by (by apply list_elem_of_filter).
    destruct (filter _ ps); [set_solver|]. unfold zlen in Hz. simpl in Hz. lia.
Qed.

Lemma add_count_Ok c i x :
  zlen c = CHILDCOUNT → 0 ≤ i < CHILDCOUNT →
  add_count c i x = Ok (<[Z.to_nat i := anth c i + x]> c).
Proof.
  intros Hl Hi. unfold add_count, zlen in *.
  rewrite (aget_lookup c i (anth c i)) by (lia || (apply list_lookup_lookup_total_lt; lia)).
  cbn [mbind res_bind]. apply aset_in. unfold zlen. lia.
Qed.

Lemma count_prefixes_spec d rs :
  0 ≤ d < DIM → set_ok rs →
  ∃ c, count_prefixes rs d = Ok c ∧ zlen c = CHILDCOUNT ∧
    ∀ i, 0 ≤ i < CHILDCOUNT → anth c i = cnt d (pieces d (live rs)) i.
Proof.
  intros Hd Hok. unfold count_prefixes.
  rewrite (piece_loop d rs (λ _ it c, add_count c (block_idx d it) 1)) by done.
  apply (mfold_inv (λ ps c, zlen c = CHILDCOUNT ∧ ∀ i, 0 ≤ i < CHILDCOUNT → anth c i = cnt d ps i)).
  - split; [done|]. intros i Hi. unfold anth. change CHILDCOUNT with 127 in *.
    rewrite lookup_total_replicate_2 by lia. done.
  - intros ps [r it] c [Hl Hc] [rest Heq]. cbn [fst snd].
    assert (Hin : (r, it) ∈ pieces d (live rs)) by (rewrite Heq; set_solver).
    destruct (piece_field_block d rs r it Hd Hok Hin) as [k Hk].
    pose proof (block_idx_bounds d Hd it k Hk) as Hb. rewrite add_count_Ok by done.
    eexists. split; [done|]. split; [by rewrite zlen_insert|]. intros i Hi.
    rewrite cnt_snoc. cbn [snd]. case_decide as He.
    + subst i. unfold anth at 1. rewrite list_lookup_total_insert_eq by (unfold zlen in Hl; lia).
      by rewrite Hc.
    + unfold anth at 1. rewrite list_lookup_total_insert_ne by lia. rewrite Z.add_0_r. by apply Hc.
Qed.

(** The nearest non-empty ancestor, as the while loop finds it. *)
Lemma anc_count_nonneg fuel c j x :
  zlen c = CHILDCOUNT → (∀ i, 0 ≤ i < CHILDCOUNT → 0 ≤ anth c i) → 0 ≤ j < CHILDCOUNT →
  anc_count fuel c j = Ok x → 0 ≤ x.
Proof.
  intros Hl Hnn. revert j. induction fuel as [|fuel IH]; intros j Hj Ha; simpl in Ha.
  - destruct (j =? 0); by simplify_eq.
  - destruct (Z.eqb_spec j 0); [by simplify_eq|]. change CHILDCOUNT with 127 in *.
    assert (0 ≤ (j - 1) / 2 < 127) by (split; [apply Z.div_pos; lia|apply Z.div_lt_upper_bound; lia]).
    apply bind_Ok in Ha as (y & [? Hy]%aget_Ok & Ha). case_match.
    + simplify_eq. rewrite <- (list_lookup_total_correct _ _ _ Hy). by apply Hnn.
    + eapply IH; [|done]. lia.
Qed.

(** The histogram is non-zero at the children that get a block of their own. *)
Lemma get_rule_hist_nonzero d rs h :
  0 ≤ d < DIM → set_ok rs → get_rule_hist rs d = Ok h →
  zlen (child_rulecount h) = CHILDCOUNT ∧
  ∀ i, 0 ≤ i < CHILDCOUNT → 0 ≤ anth (child_rulecount h) i ∧
    (anth (child_rulecount h) i ≠ 0 ↔ ∃ p, p ∈ pieces d (live rs) ∧ block_idx d p.2 = i).
Proof.
  intros Hd Hok Hg. unfold get_rule_hist in Hg.
  destruct (count_prefixes_spec d rs Hd Hok) as (c & Hc & Hl & Hcnt). rewrite Hc in Hg.
  cbn [mbind res_bind] in Hg.
  cut (zlen (child_rulecount h) = CHILDCOUNT ∧ ∀ i, 0 ≤ i < CHILDCOUNT →
    0 ≤ anth (child_rulecount h) i ∧ (anth (child_rulecount h) i ≠ 0 ↔ anth c i ≠ 0)).
  { intros [? Hi]. split; [done|]. intros i Hb. rewrite <- cnt_pos, <- Hcnt by done. by apply Hi. }
  refine (mfold_Ok_inv (λ _ h, zlen (child_rulecount h) = CHILDCOUNT ∧ ∀ i, 0 ≤ i < CHILDCOUNT →
    0 ≤ anth (child_rulecount h) i ∧ (anth (child_rulecount h) i ≠ 0 ↔ anth c i ≠ 0)) _ _ _ _ Hg _ _).
  { split; [done|]. intros i Hi. simpl. split; [|done]. rewrite Hcnt by done. apply cnt_nonneg. }
  intros pre j h1 h2 [Hl1 H1] [rest Hrest] Hs. destruct (seqZ_split _ _ _ _ _ Hrest) as [_ Hj].
  rewrite Z.sub_0_r, Z.add_0_l in Hj. unfold hist_step in Hs.
  apply bind_Ok in Hs as (x & [? Hx]%aget_Ok & Hs). apply list_lookup_total_correct in Hx.
  fold (anth (child_rulecount h1) j) in Hx.
  destruct (Z.eqb_spec x 0); cbn [negb] in Hs; [by injection Hs as <-|].
  apply bind_Ok in Hs as (a & Ha & Hs). apply bind_Ok in Hs as (c' & [_ ->]%aset_Ok & Hs).
  injection Hs as <-. cbn [child_rulecount]. rewrite zlen_insert. split; [done|].
  apply anc_count_nonneg in Ha; [|done|intros i Hi; by apply H1|done].
  intros i Hi. destruct (decide (i = j)) as [->|].
  - unfold anth at 1 2. rewrite list_lookup_total_insert_eq by (unfold zlen in Hl1; lia).
    destruct (H1 j Hi) as [? Hj1]. rewrite Hx in *. split; [lia|].
    split; [intros _; by apply Hj1|lia].
  - unfold anth at 1 2. rewrite list_lookup_total_insert_ne by lia. by apply H1.
Qed.

(** ** Loops over a bitmap *)
Definition set_bits (m : Z) : list Z := filter (λ i, Is_true (Z.testbit m i)) (seqZ 0 64).

Lemma mod_pow2_succ m i :
  0 ≤ m → 0 ≤ i < 64 →
  m mod 2 ^ (i + 1) = if Z.testbit m i then set_bit (m mod 2 ^ i) i else m mod 2 ^ i.
Proof.
  intros Hm Hi. pose proof (Z.mod_pos_bound m (2 ^ i) (pow2_pos i ltac:(lia))).
  assert (2 ^ i ≤ 2 ^ 64) by (apply Z.pow_le_mono_r; lia).
  apply Z.bits_inj'. intros j Hj. destruct (decide (j < i)) as [Hlt|Hge].
  - rewrite Z.mod_pow2_bits_low by lia. case_match.
    + rewrite set_bit_testbit by lia. rewrite (proj2 (Z.eqb_neq j i)) by lia. simpl.
      by rewrite Z.mod_pow2_bits_low by lia.
    + by rewrite Z.mod_pow2_bits_low by lia.
  - destruct (decide (j = i)) as [->|Hne].
    + rewrite Z.mod_pow2_bits_low by lia. destruct (Z.testbit m i) eqn:E.
      * rewrite set_bit_testbit by lia. by rewrite Z.eqb_refl.
      * by rewrite Z.mod_pow2_bits_high by lia.
    + rewrite Z.mod_pow2_bits_high by lia. case_match.
      * rewrite set_bit_testbit by lia. rewrite (proj2 (Z.eqb_neq j i)) by done. simpl.
        by rewrite Z.mod_pow2_bits_high by lia.
      * by rewrite Z.mod_pow2_bits_high by lia.
Qed.

Lemma for_bits_from {S} (n fuel : nat) m (f : Z → S → res S) s :
  (n ≤ 64)%nat → (n ≤ fuel)%nat → 0 ≤ m < 2 ^ 64 →
  for_bits fuel m (m mod 2 ^ (64 - Z.of_nat n)) f s =
  mfold f (filter (λ i, Is_true (Z.testbit m i)) (seqZ (64 - Z.of_nat n) (Z.of_nat n))) s.
Proof.
  revert fuel s. induction n as [|n IH]; intros fuel s Hn Hfuel Hm.
  - change (64 - Z.of_nat 0) with 64. rewrite Z.mod_small by done.
    destruct fuel; simpl; by rewrite Z.lxor_nilpotent.
  - set (i := 64 - Z.of_nat (Datatypes.S n)).
    assert (Hi : 0 ≤ i < 64) by (unfold i; lia).
    replace (seqZ i (Z.of_nat (Datatypes.S n))) with (i :: seqZ (64 - Z.of_nat n) (Z.of_nat n)).
    2:{ symmetry. rewrite seqZ_cons by lia. f_equal. f_equal; unfold i; lia. }
    specialize (IH (match Z.testbit m i with true => pred fuel | false => fuel end)).
    replace (64 - Z.of_nat n) with (i + 1) in * by (unfold i; lia).
    rewrite (mod_pow2_succ m i) in IH by lia. destruct (Z.testbit m i) eqn:E.
    + destruct fuel as [|fuel]; [lia|]. destruct (lxor_low_ctz 64 m i ltac:(lia) ltac:(lia) E) as [Hnz Hctz].
      cbn [for_bits]. rewrite (proj2 (Z.eqb_neq _ _)) by done. rewrite Hctz.
      rewrite filter_cons_True by (by rewrite E). cbn [mfold].
      destruct (f i s); cbn [mbind res_bind]; [|done]. apply IH; simpl; lia.
    + rewrite filter_cons_False by (rewrite E; intros []). apply IH; lia.
Qed.

(** The loop [while(bitmap ^ mask)] visits the set bits in order. *)
Lemma for_bits_set_bits {S} m (f : Z → S → res S) s :
  0 ≤ m < 2 ^ 64 → for_bits 64 m 0 f s = mfold f (set_bits m) s.
Proof.
  intros Hm. pose proof (for_bits_from 64 64 m f s) as H. change (64 - Z.of_nat 64) with 0 in H.
  change (2 ^ 0) with 1 in H. rewrite Z.mod_1_r in H. apply H; lia.
Qed.

(** ** The layout of the children *)
Section layout.
Context (h : rule_hist).

Definition ne (c : Z) : bool := negb (anth (child_rulecount h) c =? 0).

Lemma even_bitmaps_spec :
  let '(mb, inl_rc, exl_rc) := even_bitmaps h in
  0 ≤ internal mb < 2 ^ 64 ∧ 0 ≤ external mb < 2 ^ 64 ∧
  (∀ i, 0 ≤ i → Z.testbit (internal mb) i = (i <? 63) && ne i) ∧
  (∀ i, 0 ≤ i → Z.testbit (external mb) i = (i <? 64) && ne (63 + i)) ∧
  inl_rc = bsum ne 63 ∧ inl_rc + exl_rc = bsum ne 127.
Proof.
  pose (P := λ m (s : mb_node * Z * Z), let '(mb, a, b) := s in
    0 ≤ internal mb < 2 ^ 64 ∧ 0 ≤ external mb < 2 ^ 64 ∧
    (∀ i, 0 ≤ i → Z.testbit (internal mb) i = (i <? Z.min m 63) && ne i) ∧
    (∀ i, 0 ≤ i → Z.testbit (external mb) i = (63 + i <? m) && ne (63 + i)) ∧
    a = bsum ne (Z.to_nat (Z.min m 63)) ∧ a + b = bsum ne (Z.to_nat m)).
  assert (HP : P CHILDCOUNT (even_bitmaps h)).
  - apply (for_inv P); [done|..].
    { cbn [P internal external]. repeat split; try lia; intros i Hi; rewrite Z.bits_0.
      - destruct (Z.ltb_spec i (Z.min 0 63)); [lia|done].
      - by rewrite (proj2 (Z.ltb_ge (63 + i) 0)) by lia. }
    intros i [[mb a] b] Hi (Hib & Heb & Hti & Hte & Ha & Hb).
    change CHILDCOUNT with 127 in Hi. change INL_OFFSET with 63.
    assert (Hsum : bsum ne (Z.to_nat (i + 1)) = bsum ne (Z.to_nat i) + Z.b2z (ne i)).
    { replace (Z.to_nat (i + 1)) with (S (Z.to_nat i)) by lia. cbn [bsum]. by rewrite Z2Nat.id by lia. }
    fold (ne i). destruct (ne i) eqn:En.
    + destruct (Z.ltb_spec i 63); cbn [P internal external].
      * split; [apply set_bit_bounds|]. split; [done|]. split; [|split].
        -- intros j Hj. rewrite set_bit_testbit, Hti by lia.
           destruct (Z.eqb_spec j i) as [->|].
           ++ rewrite En. zbool.
           ++ zbool.
        -- intros j Hj. rewrite Hte by lia. zbool.
        -- replace (Z.min (i + 1) 63) with (i + 1) by lia. rewrite Z.min_l in Ha by lia.
           rewrite Hsum. cbn [Z.b2z]. split; lia.
      * split; [done|]. split; [apply set_bit_bounds|]. split; [|split].
        -- intros j Hj. rewrite Hti by lia. by rewrite (Z.min_r i 63), (Z.min_r (i + 1) 63) by lia.
        -- intros j Hj. rewrite set_bit_testbit, Hte by lia.
           destruct (Z.eqb_spec j (i - 63)) as [->|].
           ++ replace (63 + (i - 63)) with i by lia. rewrite En. zbool.
           ++ zbool.
        -- rewrite (Z.min_r (i + 1) 63) by lia. rewrite (Z.min_r i 63) in Ha by lia.
           rewrite Hsum. cbn [Z.b2z]. split; [done|lia].
    + cbn [P]. split; [done|]. split; [done|]. split; [|split].
      * intros j Hj. rewrite Hti by lia. destruct (decide (j = i)) as [->|]; [by rewrite En, !andb_false_r|].
        zbool.
      * intros j Hj. rewrite Hte by lia. destruct (decide (63 + j = i)) as [->|]; [by rewrite En, !andb_false_r|].
        zbool.
      * rewrite Hsum. cbn [Z.b2z]. split; [|lia]. destruct (decide (i < 63)).
        -- rewrite (Z.min_l (i + 1) 63) by lia. rewrite (Z.min_l i 63) in Ha by lia.
           rewrite Hsum, Ha. cbn [Z.b2z]. lia.
        -- rewrite (Z.min_r (i + 1) 63) by lia. by rewrite (Z.min_r i 63) in Ha by lia.
  - destruct (even_bitmaps h) as [[mb a] b]. destruct HP as (? & ? & Hti & Hte & ? & ?).
    repeat split; try done; try lia. intros i Hi. rewrite Hte by done. f_equal.
    change CHILDCOUNT with 127. apply eq_true_iff_eq. rewrite !Z.ltb_lt. lia.
Qed.

(** The position of a child in the array: internal children from the end of
    their part down, then the external ones. *)
Definition child_pos (c : Z) : Z :=
  if c <? 63 then bsum ne 63 - bsum ne (Z.to_nat c) - 1 else bsum ne (Z.to_nat c).

Lemma child_index_pos mb inl_rc exl_rc c :
  even_bitmaps h = (mb, inl_rc, exl_rc) → 0 ≤ c < CHILDCOUNT → child_index mb inl_rc c = child_pos c.
Proof.
  intros He Hc. pose proof even_bitmaps_spec as Hs. rewrite He in Hs.
  destruct Hs as (Hib & Heb & Hti & Hte & -> & Hex). change CHILDCOUNT with 127 in Hc.
  unfold child_index, child_pos, next_inl, next_exl. change INL_OFFSET with 63.
  destruct (Z.ltb_spec c 63); rewrite Z.shiftl_1_l, popcount_mask by lia.
  - rewrite (bsum_ext (Z.testbit (internal mb)) ne); [done|]. intros i Hi. rewrite Hti by lia.
    by rewrite (proj2 (Z.ltb_lt i 63)) by lia.
  - rewrite (bsum_ext (Z.testbit (external mb)) (λ i, ne (i + Z.of_nat 63))).
    + rewrite <- (bsum_add ne 63). by replace (63 + Z.to_nat (c - 63))%nat with (Z.to_nat c) by lia.
    + intros i Hi. rewrite Hte by lia. rewrite (proj2 (Z.ltb_lt i 64)) by lia. simpl. f_equal. lia.
Qed.

Lemma child_pos_bounds c : 0 ≤ c < 127 → ne c = true → 0 ≤ child_pos c < bsum ne 127.
Proof.
  intros Hc Hn. unfold child_pos.
  assert (Hlt : ∀ b, (Z.to_nat c < b)%nat → bsum ne (Z.to_nat c) < bsum ne b).
  { intros b Hb. apply bsum_lt; [done|]. by rewrite Z2Nat.id by lia. }
  pose proof (bsum_bounds ne (Z.to_nat c)). pose proof (bsum_le ne 63 127 ltac:(lia)).
  destruct (Z.ltb_spec c 63).
  - specialize (Hlt 63%nat ltac:(lia)). lia.
  - specialize (Hlt 127%nat ltac:(lia)). lia.
Qed.

Lemma child_pos_inj c c' :
  0 ≤ c < 127 → 0 ≤ c' < 127 → ne c = true → ne c' = true → child_pos c = child_pos c' → c = c'.
Proof.
  assert (Hmono : ∀ a b, 0 ≤ a < b → ne a = true → bsum ne (Z.to_nat a) < bsum ne (Z.to_nat b)).
  { intros a b Hab Ha. apply bsum_lt; [lia|]. by rewrite Z2Nat.id by lia. }
  assert (Hge : ∀ a, 63 ≤ a → bsum ne 63 ≤ bsum ne (Z.to_nat a)) by (intros; apply bsum_le; lia).
  intros Hc Hc' Hn Hn'. unfold child_pos. pose proof (bsum_bounds ne (Z.to_nat c)).
  pose proof (bsum_bounds ne (Z.to_nat c')).
  destruct (Z.ltb_spec c 63), (Z.ltb_spec c' 63); intros He.
  - destruct (Z.lt_trichotomy c c') as [Hl|[|Hl]]; [|done|];
      [specialize (Hmono c c' ltac:(lia) Hn)|specialize (Hmono c' c ltac:(lia) Hn')]; lia.
  - specialize (Hge c'). lia.
  - specialize (Hge c). lia.
  - destruct (Z.lt_trichotomy c c') as [Hl|[|Hl]]; [|done|];
      [specialize (Hmono c c' ltac:(lia) Hn)|specialize (Hmono c' c ltac:(lia) Hn')]; lia.
Qed.

(** The non-empty children. *)
Definition nodes : list Z := filter (λ c, Is_true (ne c)) (seqZ 0 127).

Lemma elem_of_nodes c : c ∈ nodes ↔ 0 ≤ c < 127 ∧ ne c = true.
Proof. unfold nodes. rewrite list_elem_of_filter, elem_of_seqZ, Is_true_true. naive_solver lia. Qed.

(** The children are cut in the order of their numbers. *)
Lemma even_cut_recursive_nodes mb inl_rc exl_rc rec cs aux :
  even_bitmaps h = (mb, inl_rc, exl_rc) →
  even_cut_recursive rec mb inl_rc cs aux = mfold (cut_child rec) (child_pos <$> nodes) (cs, aux).
Proof.
  intros He. pose proof even_bitmaps_spec as Hs. rewrite He in Hs.
  destruct Hs as (Hib & Heb & Hti & Hte & _).
  assert (Hin : set_bits (internal mb) = filter (λ c, Is_true (ne c)) (seqZ 0 63)).
  { unfold set_bits. change 64 with (63 + 1). rewrite seqZ_app, filter_app by lia.
    change (seqZ (0 + 63) 1) with [63].
    rewrite filter_cons_False by (rewrite Hti by lia; simpl; intros []).
    rewrite app_nil_r. apply filter_ext_in. intros i ?%elem_of_seqZ.
    rewrite Hti by lia. by rewrite (proj2 (Z.ltb_lt i 63)) by lia. }
  assert (Hex : Z.add 63 <$> set_bits (external mb) = filter (λ c, Is_true (ne c)) (seqZ 63 64)).
  { unfold set_bits. change (seqZ 63 64) with (seqZ (63 + 0) 64). rewrite <- (fmap_add_seqZ 63 0 64). rewrite filter_fmap. f_equal.
    apply filter_ext_in. intros i ?%elem_of_seqZ. unfold compose.
    rewrite Hte by lia. by rewrite (proj2 (Z.ltb_lt i 64)) by lia. }
  assert (Hpos : ∀ c, 0 ≤ c < CHILDCOUNT → child_index mb inl_rc c = child_pos c).
  { intros. by eapply child_index_pos. }
  unfold even_cut_recursive. rewrite !for_bits_set_bits, Hin by done.
  unfold nodes. change 127 with (63 + 64). rewrite seqZ_app, filter_app, fmap_app, mfold_app by lia.
  change (0 + 63) with 63. rewrite <- Hex, !mfold_fmap.
  rewrite (mfold_ext (λ b, cut_child rec (next_inl mb inl_rc b)) (λ c, cut_child rec (child_pos c))).
  2:{ intros c st [_ Hc%elem_of_seqZ]%list_elem_of_filter.
      rewrite <- (Hpos c) by (change CHILDCOUNT with 127; lia).
      unfold child_index. by rewrite (proj2 (Z.ltb_lt c _)) by (change INL_OFFSET with 63; lia). }
  destruct (mfold _ _ _) as [st|]; cbn [mbind res_bind]; [|done].
  rewrite for_bits_set_bits, !mfold_fmap by done. apply mfold_ext. intros i st' [_ Hi%elem_of_seqZ]%list_elem_of_filter.
  rewrite <- (Hpos (63 + i)) by (change CHILDCOUNT with 127; lia).
  unfold child_index. rewrite (proj2 (Z.ltb_ge (63 + i) _)) by (change INL_OFFSET with 63; lia).
  by replace (63 + i - INL_OFFSET) with i by (change INL_OFFSET with 63; lia).
Qed.
End layout.

(** ** Pushing the rules *)
Lemma push_rows_mfold fuel mb child_ptr h r start j cs :
  0 ≤ start → 127 ≤ (start + 1) * 2 ^ Z.of_nat fuel - 1 →
  push_rows fuel mb child_ptr h r start j cs =
  mfold (λ c cs, x ← aget (child_rulecount h) c;
           if negb (x =? 0) then append_child cs (child_index mb child_ptr c) r else Ok cs)
    (rows fuel start j) cs.
Proof.
  revert start j cs. induction fuel as [|fuel IH]; intros start j cs Hs Hf; cbn [push_rows rows].
  - change CHILDCOUNT with 127. rewrite (proj2 (Z.ltb_ge start 127)) by (simpl in Hf; lia). done.
  - destruct (start <? CHILDCOUNT); [|done]. rewrite mfold_app.
    rewrite (mfor_shift start j (λ c cs, x ← aget (child_rulecount h) c;
      if negb (x =? 0) then append_child cs (child_index mb child_ptr c) r else Ok cs)).
    destruct (mfold _ _ _); cbn [mbind res_bind]; [|done].
    rewrite IH; [done|lia|]. rewrite Nat2Z.inj_succ, Z.pow_succ_r in Hf by lia. lia.
Qed.

(** The rule a block becomes in the child. *)
Definition piece_rule (d : Z) (p : rule_t * prefix_iter_t) : rule_t := set_rng p.1 d (child_range d p.2).

(** The appends a block causes: to its own child and to the non-empty ones below. *)
Definition piece_ops (d : Z) (h : rule_hist) (p : rule_t * prefix_iter_t) : list (Z * rule_t) :=
  (λ c, (child_pos h c, piece_rule d p)) <$>
    filter (λ c, Is_true (ne h c)) (subtree (block_idx d p.2)).

Lemma filter_mfold {A S} (P : A → bool) (f : A → S → res S) l s :
  mfold (λ x s, if P x then f x s else Ok s) l s = mfold f (filter (λ x, Is_true (P x)) l) s.
Proof.
  revert s. induction l as [|x l IH]; intros s; [done|]. cbn [mfold]. rewrite filter_cons.
  destruct (P x) eqn:E.
  - rewrite decide_True by done. cbn [mfold]. destruct (f x s); cbn [mbind res_bind]; auto.
  - rewrite decide_False by (intros []). cbn [mbind res_bind]. auto.
Qed.

Lemma push_prefix_ops d h mb inl_rc exl_rc p k cs :
  0 ≤ d < DIM → even_bitmaps h = (mb, inl_rc, exl_rc) → zlen (child_rulecount h) = CHILDCOUNT →
  field_block d p.2 k → ne h (block_idx d p.2) = true →
  push_prefix mb inl_rc d h p.1 p.2 cs = mfold push_op (piece_ops d h p) cs.
Proof.
  intros Hd He Hl Hb Hne. pose proof (block_idx_bounds d Hd _ _ Hb) as Hidx.
  unfold push_prefix. fold (bits_of d). fold (block_idx d p.2).
  fold (child_range d p.2). fold (piece_rule d p).
  rewrite (child_index_pos h mb inl_rc exl_rc) by done.
  unfold piece_ops. rewrite mfold_fmap. unfold subtree.
  rewrite filter_cons_True by (by rewrite Hne). cbn [mfold].
  change (push_op (child_pos h (block_idx d p.2), piece_rule d p) cs)
    with (append_child cs (child_pos h (block_idx d p.2)) (piece_rule d p)).
  destruct (append_child _ _ _) as [cs'|]; cbn [mbind res_bind]; [|done].
  destruct (Z.ltb_spec (block_idx d p.2) INL_OFFSET); [|done].
  unfold push_inl_rules_even. rewrite push_rows_mfold by (simpl; lia).
  rewrite <- (filter_mfold (ne h) (λ c, push_op (child_pos h c, piece_rule d p))).
  apply mfold_ext. intros c st Hc.
  assert (Hcb : 0 ≤ c < CHILDCOUNT).
  { apply (subtree_bounds (block_idx d p.2)); [done|]. unfold subtree.
    rewrite (proj2 (Z.ltb_lt _ _)) by done. by right. }
  change CHILDCOUNT with 127 in *. unfold zlen in Hl.
  rewrite (aget_lookup _ c (anth (child_rulecount h) c)) by (lia || (apply list_lookup_lookup_total_lt; lia)).
  cbn [mbind res_bind]. fold (ne h c). destruct (ne h c); [|done].
  by rewrite (child_index_pos h mb inl_rc exl_rc).
Qed.

(** The rules of child [c]: the blocks whose node is on the path of [c]. *)
Definition child_rules (d c : Z) (l : list rule_t) : list rule_t :=
  concat ((λ r, (λ it, piece_rule d (r, it)) <$>
    filter (λ it, block_idx d it ∈ path c) (prefixes (rng r d))) <$> l).

Lemma ops_at_child d h c p k :
  0 ≤ d < DIM → 0 ≤ c < CHILDCOUNT → ne h c = true → field_block d p.2 k →
  ops_at (child_pos h c) (piece_ops d h p) =
    if decide (block_idx d p.2 ∈ path c) then [piece_rule d p] else [].
Proof.
  intros Hd Hc Hn Hb. pose proof (block_idx_bounds d Hd _ _ Hb) as Hi.
  unfold ops_at, piece_ops. rewrite filter_fmap. cbn [fst].
  rewrite list_filter_filter.
  rewrite (filter_ext_in _ (λ x, x = c)).
  2:{ intros x Hx. pose proof (subtree_bounds _ x Hi Hx) as Hxb. change CHILDCOUNT with 127 in *. split.
      - intros [Hp Hnx]. apply (child_pos_inj h); auto. by apply Is_true_true.
      - intros ->. split; [done|by rewrite Hn]. }
  pose proof (subtree_NoDup _ Hi) as Hnd.
  destruct (decide (block_idx d p.2 ∈ path c)) as [Hin|Hin].
  - apply elem_of_subtree in Hin; [|done..]. clear -Hnd Hin.
    induction (subtree (block_idx d p.2)) as [|x l IH]; [set_solver|].
    apply NoDup_cons in Hnd as [Hx Hnd]. apply elem_of_cons in Hin as [<-|Hin].
    + rewrite filter_cons_True by done. cbn [fmap list_fmap]. f_equal.
      assert (filter (λ x, x = c) l = []) as ->; [|done].
      destruct (filter (λ x, x = c) l) as [|y k] eqn:E; [done|].
      assert (Hy : y ∈ filter (λ x, x = c) l) by (rewrite E; left).
      apply list_elem_of_filter in Hy as [-> ?]. done.
    + rewrite filter_cons_False by (intros ->; done). auto.
  - assert (filter (λ x, x = c) (subtree (block_idx d p.2)) = []) as ->; [|done].
    destruct (filter _ _) as [|y kk] eqn:E; [done|]. exfalso. apply Hin.
    assert (Hy : y ∈ filter (λ x, x = c) (subtree (block_idx d p.2))) by (rewrite E; left).
    apply list_elem_of_filter in Hy as [-> ?]. by apply elem_of_subtree.
Qed.

Lemma ops_at_pieces d h c rs :
  0 ≤ d < DIM → 0 ≤ c < CHILDCOUNT → ne h c = true → set_ok rs →
  ops_at (child_pos h c) (concat (piece_ops d h <$> pieces d (live rs))) = child_rules d c (live rs).
Proof.
  intros Hd Hc Hn Hok.
  assert (Hp : ∀ p, p ∈ pieces d (live rs) → ∃ k, field_block d p.2 k).
  { intros [r it] Hin. by eapply piece_field_block. }
  unfold child_rules. revert Hp. unfold pieces. generalize (live rs) as l.
  induction l as [|r l IH]; intros Hp; [done|]. cbn [fmap list_fmap concat] in *.
  rewrite fmap_app, concat_app, ops_at_app. f_equal; [|apply IH; intros p0 Hp0; apply Hp, elem_of_app; by right].
  assert (Hp' : ∀ it, it ∈ prefixes (rng r d) → ∃ k, field_block d it k).
  { intros it Hit. apply (Hp (r, it)). apply elem_of_app. left. apply list_elem_of_fmap. eauto. }
  clear -Hp' Hd Hc Hn. induction (prefixes (rng r d)) as [|it its IH]; [done|].
  cbn [fmap list_fmap concat]. rewrite ops_at_app.
  destruct (Hp' it ltac:(left)) as [k Hk]. rewrite (ops_at_child d h c (r, it) k) by done. cbn [snd].
  rewrite filter_cons. rewrite IH by (intros; apply Hp'; by right). by case_decide.
Qed.

(** ** The children *)

(** Children that have room but no rules yet. *)
Definition fresh_childs (cs : list cnode) : Prop :=
  ∀ p c, cs !! p = Some c → c = with_ruleset zero_cnode (n_ruleset c) ∧ rs_ok (n_ruleset c) ∧ num (n_ruleset c) = 0.

Lemma fresh_live c : num (n_ruleset c) = 0 → live (n_ruleset c) = [].
Proof. intros H. unfold live. by rewrite H. Qed.

Lemma fresh_replicate n : fresh_childs (replicate n zero_cnode).
Proof. intros p c [-> _]%lookup_replicate. split; [done|]. split; [split; simpl; [lia|done]|done]. Qed.

Lemma fresh_insert cs i rs :
  fresh_childs cs → rs_ok rs → num rs = 0 → fresh_childs (<[i := with_ruleset zero_cnode rs]> cs).
Proof.
  intros Hf Hok H0 p c Hp. destruct (decide (p = i)) as [->|].
  - apply list_lookup_insert_Some in Hp as [(_ & <- & _)|[? _]]; [|done].
    by rewrite with_ruleset_ruleset.
  - rewrite list_lookup_insert_ne in Hp by done. eauto.
Qed.

Lemma alloc_childs_fresh `{Allocator} mb child_ptr h cs cs' :
  (∀ i, 0 ≤ i < CHILDCOUNT → 0 ≤ anth (child_rulecount h) i) →
  fresh_childs cs → alloc_childs mb child_ptr h cs = Ok cs' →
  fresh_childs cs' ∧ length cs' = length cs.
Proof.
  intros Hnn Hf Ha.
  apply (mfold_Ok_inv (λ _ st, fresh_childs st ∧ length st = length cs) _ _ _ _ Ha); [done|].
  intros pre i st st' [Hfs Hls] [rest Hrest] Hs. destruct (seqZ_split _ _ _ _ _ Hrest) as [_ Hi].
  apply bind_Ok in Hs as (n & [Hi0 Hn]%aget_Ok & Hs). apply list_lookup_total_correct in Hn.
  fold (anth (child_rulecount h) i) in Hn. specialize (Hnn i ltac:(lia)). rewrite Hn in Hnn.
  destruct (negb (n =? 0)); [|by injection Hs as <-].
  apply bind_Ok in Hs as (c & [Hk Hc]%aget_Ok & Hs). unfold bc_calloc in Hs.
  destruct (alloc_ok _); [|done]. apply aset_Ok in Hs as [_ ->].
  destruct (Hfs _ _ Hc) as (Hz & _ & H0). rewrite Hz, with_ruleset_twice.
  split; [|by rewrite length_insert]. apply fresh_insert; [done| |by rewrite with_ruleset_ruleset].
  rewrite with_ruleset_ruleset, H0. split; simpl; [lia|]. unfold zlen. rewrite length_replicate. lia.
Qed.

(** The children after [push_rules_even]. *)
Lemma push_rules_even_childs `{Allocator} d h rs mb inl_rc exl_rc cs cs' :
  0 ≤ d < DIM → set_ok rs → get_rule_hist rs d = Ok h → even_bitmaps h = (mb, inl_rc, exl_rc) →
  fresh_childs cs → zlen cs = bsum (ne h) 127 → push_rules_even mb inl_rc d h rs cs = Ok cs' →
  zlen cs' = zlen cs ∧
  ∀ c, 0 ≤ c < 127 → ne h c = true → ∃ n, cs' !! Z.to_nat (child_pos h c) = Some n ∧
    child_ok n ∧ live (n_ruleset n) = child_rules d c (live rs).
Proof.
  intros Hd Hok Hg He Hf Hlen Hp.
  destruct (get_rule_hist_nonzero d rs h Hd Hok Hg) as [Hl Hnz].
  unfold push_rules_even in Hp. apply bind_Ok in Hp as (cs1 & Ha & Hp).
  apply alloc_childs_fresh in Ha as [Hf1 Hlen1]; [|intros; by apply Hnz|done].
  rewrite piece_loop in Hp by done.
  rewrite (mfold_ext _ (λ p, mfold push_op (piece_ops d h p))) in Hp.
  2:{ intros [r it] st Hin. destruct (piece_field_block d rs r it Hd Hok Hin) as [k Hk].
      apply (push_prefix_ops d h mb inl_rc exl_rc (r, it) k); auto.
      apply negb_true_iff, Z.eqb_neq. apply Hnz; [by eapply block_idx_bounds|]. by exists (r, it). }
  rewrite mfold_concat in Hp. apply push_ops_inv in Hp as [Hl2 Hr2].
  2:{ intros p c Hc. by destruct (Hf1 p c Hc) as (_ & ? & _). }
  split; [unfold zlen; congruence|]. intros c Hc Hn.
  pose proof (child_pos_bounds h c Hc Hn) as Hpos.
  destruct (lookup_lt_is_Some_2 cs1 (Z.to_nat (child_pos h c))) as [c1 Hc1]; [unfold zlen in *; lia|].
  destruct (Hr2 _ _ Hc1) as (n & Hn' & Hz & Hrs & Hlive & Hcap & Hnum). exists n. split; [done|].
  destruct (Hf1 _ _ Hc1) as (Hz1 & _ & H0). rewrite Z2Nat.id, ops_at_pieces in Hlive, Hnum by (done || lia).
  rewrite (fresh_live c1 H0) in Hlive. split; [|done].
  split; [rewrite Hz1, with_ruleset_twice in Hz; done|]. split; [split; [done|]|].
  - rewrite Hlive. simpl. apply Forall_forall. intros r' Hr'. unfold child_rules in Hr'.
    apply list_elem_of_In, in_concat in Hr' as (k & Hk%list_elem_of_In & Hr'%list_elem_of_In).
    apply list_elem_of_fmap in Hk as (r & -> & Hr). apply list_elem_of_fmap in Hr' as (it & -> & Hit).
    apply list_elem_of_filter in Hit as [_ Hit].
    destruct (piece_field_block d rs r it Hd Hok) as [k Hk]; [by apply elem_of_pieces|].
    destruct Hok as [_ Hrules]. rewrite Forall_forall in Hrules.
    apply set_rng_ok; [by apply Hrules|done|]. by eapply child_range_ok.
  - intros Hn0. exfalso. rewrite Hn0, H0 in Hnum.
    apply negb_true_iff, Z.eqb_neq in Hn. apply Hnz in Hn as ([r it] & [Hr Hit]%elem_of_pieces & Hidx); [|done].
    assert (Hin : piece_rule d (r, it) ∈ child_rules d c (live rs)).
    { unfold child_rules. apply list_elem_of_In, in_concat. eexists. split.
      - apply list_elem_of_In, list_elem_of_fmap. by exists r.
      - apply list_elem_of_In, list_elem_of_fmap. exists it. split; [done|].
        apply list_elem_of_filter. split; [|done]. cbn [snd] in Hidx. rewrite Hidx. apply path_self. }
    unfold zlen in Hnum. destruct (child_rules d c (live rs)); [by apply elem_of_nil in Hin|simpl in Hnum; lia].
Qed.

(** ** The search goes to the right child *)
Lemma classify_child d c l f k' :
  0 ≤ d < DIM → flow_ok f → Forall rule_ok l →
  (∀ r it, r ∈ l → it ∈ prefixes (rng r d) →
     it_start it ≤ anth (key f) d ≤ it_end it ↔
     block_idx d it ∈ path c ∧ (child_range d it).1 ≤ k' ≤ (child_range d it).2) →
  classify (child_rules d c l) (set_key f d k') = classify l f.
Proof.
  intros Hd [Hfl Hfk] Hrules Hiff. unfold child_rules. rewrite Forall_forall in Hrules.
  apply classify_concat. intros r Hr. destruct (Hrules r Hr) as (Hlen & Hrng & _).
  rewrite (classify_const _ _ (pri r)).
  2:{ intros r' (it & -> & _)%list_elem_of_fmap. done. }
  assert (Hpiece : ∀ it, lsearch_match (set_key f d k') (piece_rule d (r, it)) = true ↔
    (child_range d it).1 ≤ k' ≤ (child_range d it).2 ∧ match_rest d f r).
  { intros it. rewrite (matches_split d) by done. unfold piece_rule. cbn [fst snd].
    rewrite rng_set_eq, key_set_eq, match_rest_set, match_rest_key by (done || lia). done. }
  assert (Hcov : covers (rng r d).1 (rng r d).2 (prefixes (rng r d))).
  { apply prefixes_cover. eapply range_ok_32; [|by apply Hrng].
    destruct (bits_of_cases d Hd) as [->|[->| ->]]; lia. }
  match goal with |- (if ?a then _ else _) = (if ?b then _ else _) => assert (a = b) as ->; [|done] end.
  apply eq_true_iff_eq. rewrite existsb_exists, (matches_split d) by done. split.
  - intros (r' & Hin%list_elem_of_In & Hm). apply list_elem_of_fmap in Hin as (it & -> & Hit).
    apply list_elem_of_filter in Hit as [Hpath Hit]. apply Hpiece in Hm as [Hk Hrest].
    split; [|done]. apply (covers_in _ _ _ _ Hcov). exists it. split; [done|]. by apply (Hiff r it).
  - intros [Hin Hrest]. apply (covers_in _ _ _ _ Hcov) in Hin as (it & Hit & Hin).
    apply (Hiff r it Hr Hit) in Hin as [Hpath Hk]. exists (piece_rule d (r, it)).
    split; [|by apply Hpiece]. apply list_elem_of_In, list_elem_of_fmap. exists it. split; [done|].
    by apply list_elem_of_filter.
Qed.

Lemma ext_block_on_path d it k s m :
  0 ≤ d < DIM → field_block d it k → k ≤ bits_of d - 6 → 0 ≤ s < 64 → 0 ≤ m ≤ 6 →
  block_idx d it ∈ path (inl_node s m) ↔ m = 6 ∧ block_idx d it = inl_node s 6.
Proof.
  intros Hd Hb Hk Hs Hm. rewrite elem_of_path by done. split.
  - intros (c & Hc & He). rewrite (block_idx_eq d Hd it k Hb), Z.min_r in He |- * by lia.
    assert (Hs0 : 0 ≤ stride_of d (it_start it) < 64).
    { apply (stride_of_bounds d Hd). destruct Hb as ((_ & ? & _ & ? & _) & ? & ?).
      pose proof (pow2_pos k ltac:(lia)). lia. }
    pose proof (inl_node_bounds _ 6 Hs0 ltac:(lia)). pose proof (inl_node_bounds s c Hs ltac:(lia)).
    assert (c = 6) as ->; [|by split; [lia|]].
    destruct (decide (c = 6)); [done|]. assert (2 ^ (c + 1) ≤ 2 ^ 6) by (apply Z.pow_le_mono_r; lia). lia.
  - intros [-> ->]. exists 6. split; [lia|done].
Qed.

(** A packet goes to the external child of its stride. *)
Lemma classify_child_ext d l f :
  0 ≤ d < DIM → flow_ok f → Forall rule_ok l →
  let x := anth (key f) d in
  classify (child_rules d (inl_node (stride_of d x) 6) l)
    (set_key f d (even_search_lshift x (bits_of d) 6)) = classify l f.
Proof.
  intros Hd Hf Hrules x. pose proof (proj2 Hf d Hd) as Hx. fold x in Hx.
  rewrite lshift_mod by (done || lia). change (2 ^ 6) with 64.
  apply classify_child; [done..|]. intros r it Hr Hit. fold x.
  rewrite Forall_forall in Hrules. destruct (Hrules r Hr) as (_ & Hrng & _).
  destruct (prefixes_block (bits_of d) (rng r d) it) as (k & Hb & Hk & He); auto.
  { destruct (bits_of_cases d Hd) as [->|[->| ->]]; lia. }
  assert (Hfb : field_block d it k) by done.
  pose proof (stride_of_bounds d Hd x Hx) as Hs.
  destruct (decide (k ≤ bits_of d - 6)).
  - rewrite (in_ext_block d Hd it k) by done.
    rewrite (ext_block_on_path d it k) by (done || lia). naive_solver.
  - rewrite (in_inl_block d Hd it k) by (done || lia).
    rewrite (child_prefix_inl d Hd it k) by (done || lia). cbn [fst snd].
    pose proof (Z.mod_pos_bound (x * 64) (2 ^ bits_of d) ltac:(apply pow2_pos; pose proof (B_bounds d Hd); lia)).
    split; [intros ?; split; [done|lia]|by intros [? _]].
Qed.

(** A packet without external child goes to the longest internal one. *)
Lemma classify_child_inl d l f m n :
  0 ≤ d < DIM → flow_ok f → Forall rule_ok l → 0 ≤ m ≤ 5 → 0 ≤ n →
  let x := anth (key f) d in
  (∀ p, p ∈ pieces d l → block_idx d p.2 ∈ path (inl_node (stride_of d x) 6) →
     block_idx d p.2 ∈ path (inl_node (stride_of d x) m)) →
  classify (child_rules d (inl_node (stride_of d x) m) l)
    (set_key f d (even_search_lshift x (bits_of d) n)) = classify l f.
Proof.
  intros Hd Hf Hrules Hm Hn x Hlong. pose proof (proj2 Hf d Hd) as Hx. fold x in Hx.
  rewrite lshift_mod by done.
  apply classify_child; [done..|]. intros r it Hr Hit. fold x.
  specialize (Hlong (r, it)). rewrite elem_of_pieces in Hlong. specialize (Hlong (conj Hr Hit)).
  cbn [snd] in Hlong.
  rewrite Forall_forall in Hrules. destruct (Hrules r Hr) as (_ & Hrng & _).
  destruct (prefixes_block (bits_of d) (rng r d) it) as (k & Hb & Hk & He); auto.
  { destruct (bits_of_cases d Hd) as [->|[->| ->]]; lia. }
  assert (Hfb : field_block d it k) by done.
  pose proof (stride_of_bounds d Hd x Hx) as Hs.
  destruct (decide (k ≤ bits_of d - 6)).
  - rewrite (in_ext_block d Hd it k) by done.
    rewrite (ext_block_on_path d it k _ 6) in Hlong by (done || lia).
    rewrite (ext_block_on_path d it k _ m) in Hlong |- * by (done || lia).
    split; [intros [? _]; destruct Hlong as [-> _]; [done|lia]|]. intros [[-> _] _]. lia.
  - rewrite (in_inl_block d Hd it k) by (done || lia).
    rewrite (child_prefix_inl d Hd it k) by (done || lia). cbn [fst snd].
    pose proof (Z.mod_pos_bound (x * 2 ^ n) (2 ^ bits_of d) ltac:(apply pow2_pos; pose proof (B_bounds d Hd); lia)).
    split; [intros ?; split; [auto|lia]|]. intros [Hp _].
    rewrite !elem_of_path in * by lia. destruct Hp as (c & ? & ->). exists c. split; [lia|done].
Qed.

(** ** The method *)
Lemma stride_u8 d x :
  0 ≤ d < DIM → 0 ≤ x < 2 ^ bits_of d → u8 (Z.shiftr x (bits_of d - STRIDE)) = stride_of d x.
Proof.
  intros Hd Hx. pose proof (stride_of_bounds d Hd x Hx). change STRIDE with 6.
  fold (stride_of d x). unfold u8. apply Z.mod_small. lia.
Qed.

(** The search of a finished bitmap node. *)
Lemma even_search_child d h rs mb inl_rc exl_rc cs n f :
  0 ≤ d < DIM → set_ok rs → get_rule_hist rs d = Ok h → even_bitmaps h = (mb, inl_rc, exl_rc) →
  n_body n = BMb mb cs inl_rc → n_dim n = d → flow_ok f →
  zlen cs = bsum (ne h) 127 →
  (∃ c ch f', 0 ≤ c < 127 ∧ ne h c = true ∧ cs !! Z.to_nat (child_pos h c) = Some ch ∧
     even_search n f = Ok (Some ch, f') ∧ flow_ok f' ∧
     classify (child_rules d c (live rs)) f' = classify (live rs) f)
  ∨ (classify (live rs) f = None ∧ ∃ f', even_search n f = Ok (None, f')).
Proof.
  intros Hd Hok Hg He Hbody Hdim Hf Hlen.
  pose proof (even_bitmaps_spec h) as Hs. rewrite He in Hs.
  destruct Hs as (Hib & Heb & Hti & Hte & _).
  destruct (get_rule_hist_nonzero d rs h Hd Hok Hg) as [_ Hnz].
  pose proof (proj2 Hf d Hd) as Hx. set (x := anth (key f) d) in *.
  pose proof (stride_of_bounds d Hd x Hx) as Hsx. set (s := stride_of d x) in *.
  assert (Hrules := proj2 Hok).
  assert (Hinl6 : inl_node s 6 = 63 + s).
  { unfold inl_node. rewrite Z.sub_diag, Z.shiftr_0_r. lia. }
  assert (Hnode : ∀ c, 0 ≤ c < 127 → ne h c = true →
    ∃ ch, cs !! Z.to_nat (child_pos h c) = Some ch ∧ aget cs (child_index mb inl_rc c) = Ok ch).
  { intros c Hc Hn. pose proof (child_pos_bounds h c Hc Hn).
    destruct (lookup_lt_is_Some_2 cs (Z.to_nat (child_pos h c))) as [ch Hch]; [unfold zlen in *; lia|].
    exists ch. split; [done|]. rewrite (child_index_pos h mb inl_rc exl_rc) by done.
    apply aget_lookup; [lia|done]. }
  assert (Hkey : ∀ k, 0 ≤ k → flow_ok (set_key f d (even_search_lshift x (bits_of d) k))).
  { intros k Hk. apply set_key_ok; [done..|]. rewrite lshift_mod by done. apply Z.mod_pos_bound.
    apply pow2_pos. pose proof (B_bounds d Hd). lia. }
  unfold even_search. rewrite Hbody, Hdim. fold (bits_of d). fold x. cbv zeta.
  rewrite stride_u8 by done. fold s. unfold count_enl_bitmap.
  rewrite test_bitmap_testbit, Hte by lia. rewrite (proj2 (Z.ltb_lt s 64)) by lia. cbn [andb].
  destruct (ne h (63 + s)) eqn:En.
  - left. destruct (Hnode (63 + s)) as (ch & Hch & Hget); [lia|done|].
    unfold child_index in Hget. change INL_OFFSET with 63 in Hget.
    rewrite (proj2 (Z.ltb_ge (63 + s) 63)) in Hget by lia.
    replace (63 + s - 63) with s in Hget by lia. rewrite Hget. cbn [mbind res_bind].
    exists (63 + s), ch, (set_key f d (even_search_lshift x (bits_of d) 6)).
    split; [lia|]. split; [done|]. split; [done|]. split; [done|]. split; [apply Hkey; lia|].
    rewrite <- Hinl6. by apply classify_child_ext.
  - assert (Hbit : ∀ c, 0 ≤ c ≤ 5 → Z.testbit (internal mb) (inl_node s c) = ne h (inl_node s c)).
    { intros c Hc. pose proof (inl_node_bounds s c Hsx ltac:(lia)). pose proof (pow2_pos c ltac:(lia)).
      assert (2 ^ (c + 1) ≤ 2 ^ 6) by (apply Z.pow_le_mono_r; lia).
      rewrite Hti by lia. by rewrite (proj2 (Z.ltb_lt _ 63)) by lia. }
    (* a block on the packet's path is internal and present *)
    assert (Hpath : ∀ p, p ∈ pieces d (live rs) → block_idx d p.2 ∈ path (inl_node s 6) →
      ∃ c, 0 ≤ c ≤ 5 ∧ block_idx d p.2 = inl_node s c ∧ Z.testbit (internal mb) (inl_node s c) = true).
    { intros p Hp Hin. apply elem_of_path in Hin as (c & Hc & Hidx); [|lia..].
      assert (Hne : ne h (inl_node s c) = true).
      { rewrite <- Hidx. destruct p as [r it]. destruct (piece_field_block d rs r it Hd Hok Hp) as [k Hk].
        apply negb_true_iff, Z.eqb_neq, Hnz; [by eapply block_idx_bounds|eauto]. }
      assert (c ≠ 6) by (intros ->; rewrite Hinl6, En in Hne; done).
      exists c. split; [lia|]. split; [done|]. rewrite Hbit; [done|lia]. }
    rewrite tree_function_spec by lia. destruct (longest_inl (internal mb) s) as [m|] eqn:El.
    + left. apply longest_inl_Some in El as (Hm & Hbm & Hmax).
      pose proof (inl_node_bounds s m Hsx ltac:(lia)) as Hnb. pose proof (pow2_pos m ltac:(lia)).
      assert (2 ^ (m + 1) ≤ 2 ^ 6) by (apply Z.pow_le_mono_r; lia).
      rewrite (proj2 (Z.eqb_neq _ _)) by lia. cbn [negb].
      destruct (Hnode (inl_node s m)) as (ch & Hch & Hget); [lia|by rewrite <- Hbit by lia|].
      unfold child_index in Hget. change INL_OFFSET with 63 in Hget.
      rewrite (proj2 (Z.ltb_lt _ 63)) in Hget by lia. rewrite Hget. cbn [mbind res_bind].
      exists (inl_node s m), ch, (set_key f d (even_search_lshift x (bits_of d) (m + 1))).
      split; [lia|]. split; [by rewrite <- Hbit by lia|]. split; [done|]. split; [done|].
      split; [apply Hkey; lia|]. apply classify_child_inl; [done|done|done|lia|lia|].
      intros p Hp Hin. destruct (Hpath p Hp Hin) as (c & Hc & -> & Hbc).
      apply elem_of_path; [done|lia|]. exists c. split; [|done]. split; [lia|].
      destruct (Z.le_gt_cases c m) as [|Hgt]; [done|]. rewrite (Hmax c) in Hbc by lia. done.
    + right. split; [|by eexists]. apply classify_None. intros r Hr.
      apply not_true_is_false. intros [Hin _]%(matches_split d); [|done]. fold x in Hin.
      rewrite Forall_forall in Hrules. destruct (Hrules r Hr) as (_ & Hrng & _).
      assert (Hcov : covers (rng r d).1 (rng r d).2 (prefixes (rng r d))).
      { apply prefixes_cover. eapply range_ok_32; [|by apply Hrng].
        destruct (bits_of_cases d Hd) as [->|[->| ->]]; lia. }
      apply (covers_in _ _ _ _ Hcov) in Hin as (it & Hit & Hin).
      assert (Hp : (r, it) ∈ pieces d (live rs)) by (by apply elem_of_pieces).
      destruct (piece_field_block d rs r it Hd Hok Hp) as [k Hk].
      destruct (Hpath (r, it) Hp) as (c & Hc & _ & Hbc).
      { cbn [snd]. destruct (decide (k ≤ bits_of d - 6)).
        - apply (in_ext_block d Hd it k) in Hin as [-> _]; [|done..]. apply path_self.
        - apply (in_inl_block d Hd it k) in Hin; [done|done|lia|done]. }
      rewrite (longest_inl_None _ _ c) in Hbc by done. done.
Qed.

(** The bitmaps have one bit per child. *)
Lemma even_bitmaps_popcount h mb inl_rc exl_rc :
  even_bitmaps h = (mb, inl_rc, exl_rc) →
  0 ≤ internal mb < 2 ^ 64 ∧ 0 ≤ external mb < 2 ^ 64 ∧
  inl_rc = popcount (internal mb) ∧ bsum (ne h) 127 = popcount (internal mb) + popcount (external mb).
Proof.
  intros He. pose proof (even_bitmaps_spec h) as Hs. rewrite He in Hs.
  destruct Hs as (Hib & Heb & Hti & Hte & -> & _). split; [done|]. split; [done|].
  rewrite (popcount_bsum 64 (internal mb)), (popcount_bsum 64 (external mb)) by done.
  assert (Hi : bsum (Z.testbit (internal mb)) 64 = bsum (ne h) 63).
  { change 64%nat with (63 + 1)%nat. rewrite bsum_add, (bsum_ext (Z.testbit (internal mb)) (ne h) 63).
    - change (Z.of_nat 63) with 63. rewrite (bsum_false (λ i, Z.testbit (internal mb) (i + 63))); [lia|].
      intros i Hi. rewrite Hti by lia. by rewrite (proj2 (Z.ltb_ge (i + 63) 63)) by lia.
    - intros i Hi. rewrite Hti by lia. by rewrite (proj2 (Z.ltb_lt i 63)) by lia. }
  rewrite Hi. split; [done|]. change 127%nat with (63 + 64)%nat. rewrite bsum_add. f_equal.
  apply bsum_ext. intros i Hi'. rewrite Hte by lia. rewrite (proj2 (Z.ltb_lt i 64)) by lia. simpl. f_equal. lia.
Qed.

(** Every place of the array belongs to a child. *)
Lemma child_pos_all h p : 0 ≤ p < bsum (ne h) 127 → p ∈ child_pos h <$> nodes h.
Proof.
  intros Hp. assert (Hperm : child_pos h <$> nodes h ≡ₚ seqZ 0 (bsum (ne h) 127)).
  { apply submseteq_length_Permutation.
    - apply NoDup_submseteq.
      + apply NoDup_fmap_2_strong; [|apply NoDup_filter, NoDup_seqZ].
        intros x y [??]%elem_of_nodes [??]%elem_of_nodes. by apply child_pos_inj.
      + intros x (c & -> & [Hc Hn]%elem_of_nodes)%list_elem_of_fmap. apply elem_of_seqZ.
        pose proof (child_pos_bounds h c Hc Hn). lia.
    - rewrite length_fmap, length_seqZ, bsum_filter. unfold zlen. rewrite Nat2Z.id. done. }
  rewrite Hperm. apply elem_of_seqZ. lia.
Qed.

(** Cutting a node with the bitmap method gives a tree that answers like the
    node's rules. *)
Lemma even_cut_good `{Allocator} I rec n d h aux n' aux' :
  0 ≤ d < DIM → rec_ok I rec → I aux → set_ok (n_ruleset n) →
  n_leaf n = false → n_type n = BITMAP_CUT → n_dim n = d →
  anth (hist aux) d = h → get_rule_hist (n_ruleset n) d = Ok h →
  even_cut rec n d aux = Ok (n', aux') → good n' (live (n_ruleset n)) ∧ I aux'.
Proof.
  intros Hd Hrec HI Hok Hleaf Htype Hdim Hh Hg Hc. unfold even_cut in Hc. rewrite Hh in Hc.
  destruct (even_bitmaps h) as [[mb inl_rc] exl_rc] eqn:He.
  pose proof (even_bitmaps_spec h) as Hs. rewrite He in Hs. destruct Hs as (_ & _ & _ & _ & Hinl & Htot).
  unfold bc_calloc in Hc. destruct (alloc_ok _); [|done].
  apply bind_Ok in Hc as (cs & Hp & Hc). apply bind_Ok in Hc as ([cs' aux1] & Hr & Hc).
  injection Hc as <- <-. pose proof (bsum_bounds (ne h) 127).
  apply (push_rules_even_childs d h _ mb inl_rc exl_rc) in Hp as [Hlen Hch]; try done.
  2:{ apply fresh_replicate. }
  2:{ unfold zlen. rewrite length_replicate. lia. }
  assert (Hlen' : zlen cs = bsum (ne h) 127).
  { rewrite Hlen. unfold zlen. rewrite length_replicate. lia. }
  rewrite (even_cut_recursive_nodes h mb inl_rc exl_rc) in Hr by done.
  apply (cut_children_good I) in Hr as (HI' & Hl & Hgood); [|done|done|..].
  2:{ intros p c Hp Hcp. apply list_elem_of_fmap in Hp as (x & Hx & [Hxb Hxn]%elem_of_nodes).
      destruct (Hch x Hxb Hxn) as (n0 & Hn0 & Hcok & _).
      assert (p = Z.to_nat (child_pos h x)) as -> by lia. congruence. }
  2:{ apply NoDup_fmap_2_strong.
      - intros x y [??]%elem_of_nodes [??]%elem_of_nodes. by apply child_pos_inj.
      - apply NoDup_filter, NoDup_seqZ. }
  split; [|done]. apply good_cut; [| |done|].
  { cbn [shape_ok n_body n_type]. assert (Hs := even_bitmaps_popcount h mb inl_rc exl_rc He).
    destruct Hs as (H1 & H2 & H3 & H4). unfold zlen in *. rewrite Hl, Hlen'. repeat split; try done; lia. }
  { eapply good_children; [exact Hl| |exact Hgood]. intros p Hp. apply child_pos_all. unfold zlen in Hlen'. lia. }
  intros f Hf.
  match goal with |- context [search_step ?n0 f] => set (nd := n0) end.
  assert (Hstep : search_step nd f = even_search nd f) by (unfold search_step, nd; simpl; by rewrite Htype).
  rewrite Hstep.
  destruct (even_search_child d h (n_ruleset n) mb inl_rc exl_rc cs' nd f) as
    [(c & ch & f' & Hc & Hn & Hlk & Hsr & Hf' & Hcl)|[Hnone [f' Hsr]]]; try done.
  { unfold zlen in *. congruence. }
  - left. exists ch, f', (child_rules d c (live (n_ruleset n))). split; [done|]. split; [done|]. split; [|done].
    destruct (Hch c Hc Hn) as (n0 & Hn0 & _ & Hlive). specialize (Hgood _ _ Hn0).
    rewrite decide_True in Hgood.
    + destruct Hgood as (c' & Hc' & Hg'). rewrite <- Hlive. by assert (ch = c') as -> by congruence.
    + apply list_elem_of_fmap. exists c. split; [|by apply elem_of_nodes].
      pose proof (child_pos_bounds h c Hc Hn). lia.
  - right. split; [done|]. left. eauto.
Qed.
