(* ===== verification/TraverseSpec.v ===== *)
(** * The traversal of the tree

    Which children the per-method traversals visit.  The traversal of a node
    walks the set bits of its bitmap and turns each bit into a child by counting
    the set bits below it, as the search does.  Over a whole tree the traversal is
    a walk in pre-order, which gives the counters of [get_tree_info] their
    meaning. *)
From stdpp Require Import relations.
From S2P Require Import Prelude.
From S2P Require Import Rule.
From S2P Require Import Heap.
From S2P Require Import MbNode.
From S2P Require Import CutInl.
From S2P Require Import CutBitmap.
From S2P Require Import CutSplit.
From S2P Require Import CutHi.
From S2P Require Import Cut.
From S2P Require Import Tree.
From S2P Require Import BitmapSpec.
#[local] Open Scope Z_scope.

(** The ranks of the set bits of a bitmap are [0, 1, 2, ..]. *)
Lemma rank_set_bits (t : Z → bool) n :
  (λ b, bsum t (Z.to_nat b)) <$> filter (λ b, Is_true (t b)) (seqZ 0 (Z.of_nat n)) = seqZ 0 (bsum t n).
Proof.
  induction n as [|n IH]; [done|]. rewrite Nat2Z.inj_succ, <- Z.add_1_r, seqZ_app, filter_app, fmap_app, IH by lia.
  change (seqZ (0 + Z.of_nat n) 1) with [0 + Z.of_nat n]. rewrite Z.add_0_l. cbn [bsum].
  pose proof (bsum_bounds t n). destruct (t (Z.of_nat n)) eqn:E; cbn [Z.b2z].
  - rewrite filter_cons_True by (by rewrite E). rewrite seqZ_app by lia. f_equal.
    cbn. by rewrite Nat2Z.id.
  - rewrite filter_cons_False by (rewrite E; intros []). by rewrite app_nil_r, Z.add_0_r.
Qed.

(** Visiting children by their positions in the array. *)
Lemma visit_list {S} (self : cnode → S → Z → res S) cs depth l st :
  (∀ j, j ∈ l → 0 ≤ j < zlen cs) →
  mfold (visit self cs depth) l st = mfold (λ c st, self c st (depth + 1)) ((λ j, anth cs j) <$> l) st.
Proof.
  intros Hl. rewrite mfold_fmap. apply mfold_ext. intros j s Hj. unfold visit. by rewrite anth_in, bind_ret by auto.
Qed.

Lemma anth_seqZ {A} `{Inhabited A} (l : list A) n : 0 ≤ n ≤ zlen l → (λ j, anth l j) <$> seqZ 0 n = take (Z.to_nat n) l.
Proof.
  intros Hn. apply list_eq. intros i. rewrite list_lookup_fmap. unfold zlen in Hn.
  destruct (decide (Z.of_nat i < n)).
  - rewrite lookup_seqZ_lt, lookup_take_lt by lia. cbn. rewrite Z.add_0_l. unfold anth. rewrite Nat2Z.id.
    symmetry. apply list_lookup_lookup_total_lt. lia.
  - by rewrite lookup_seqZ_ge, lookup_take_ge by lia.
Qed.

Lemma anth_seqZ_drop {A} `{Inhabited A} (l : list A) k n :
  0 ≤ k → 0 ≤ n → k + n = zlen l → (λ j, anth l j) <$> seqZ k n = drop (Z.to_nat k) l.
Proof.
  intros Hk Hn Hl. assert (He := anth_seqZ l (k + n) ltac:(lia)).
  rewrite seqZ_app, fmap_app, anth_seqZ, (take_ge l (Z.to_nat (k + n))), Z.add_0_l in He by (unfold zlen in *; lia).
  apply (app_inv_head (take (Z.to_nat k) l)). by rewrite take_drop.
Qed.

Lemma visit_prefix {S} (self : cnode → S → Z → res S) cs depth n st :
  0 ≤ n ≤ zlen cs →
  mfold (visit self cs depth) (seqZ 0 n) st = mfold (λ c st, self c st (depth + 1)) (take (Z.to_nat n) cs) st.
Proof. intros Hn. rewrite visit_list, anth_seqZ; [done|lia|]. intros j Hj%elem_of_seqZ. lia. Qed.

(** A loop over the bits of a bitmap that visits [g] of the rank of each bit. *)
Lemma for_bits_ranks {S} m (f : Z → S → res S) (g : Z → S → res S) st :
  0 ≤ m < 2 ^ 64 → (∀ b s, 0 ≤ b < 64 → f b s = g (bsum (Z.testbit m) (Z.to_nat b)) s) →
  for_bits 64 m 0 f st = mfold g (seqZ 0 (popcount m)) st.
Proof.
  intros Hm Hfg. rewrite for_bits_set_bits by done.
  rewrite (mfold_ext _ (λ b, g (bsum (Z.testbit m) (Z.to_nat b)))).
  2:{ intros b s [_ Hb%elem_of_seqZ]%list_elem_of_filter. apply Hfg. lia. }
  rewrite <- (mfold_fmap g (λ b, bsum (Z.testbit m) (Z.to_nat b))). unfold set_bits. change 64 with (Z.of_nat 64).
  rewrite rank_set_bits. by rewrite <- (popcount_bsum 64).
Qed.

Lemma hi_children {S} (self : cnode → S → Z → res S) hn cs dm lf ty rs st depth :
  0 ≤ hn_bitmap hn < 2 ^ 64 → popcount (hn_bitmap hn) + 1 = zlen cs →
  hi_traverse self (CNode (BHi hn cs) dm lf ty rs) st depth =
  mfold (λ c st, self c st (depth + 1)) (removelast cs) st.
Proof.
  intros Hb Hc. unfold hi_traverse. cbn [n_body]. rewrite (for_bits_ranks _ _ (visit self cs depth)); [|done|].
  - pose proof (bsum_bounds (Z.testbit (hn_bitmap hn)) 64). rewrite <- popcount_bsum in H by done.
    rewrite visit_prefix by lia. f_equal. rewrite removelast_firstn_len. f_equal. unfold zlen in Hc. lia.
  - intros b s Hr. unfold hi_next. rewrite (proj2 (Z.leb_gt 64 b)) by lia.
    by rewrite bind_ret, Z.shiftl_1_l, popcount_mask by lia.
Qed.

Lemma split_children {S} (self : cnode → S → Z → res S) t cs dm lf ty rs st depth :
  zlen cs = (split_fill t).2 →
  split_traverse self (CNode (BSp (split_fill t).1 cs) dm lf ty rs) st depth =
  mfold (λ c st, self c st (depth + 1)) cs st.
Proof.
  intros Hc. rewrite <- (take_ge cs (Z.to_nat (zlen cs))) at 2 by (unfold zlen; lia).
  rewrite <- visit_prefix by (unfold zlen; lia). rewrite Hc. unfold split_traverse, split_fill. cbn [n_body].
  destruct (split_snode_enabled (st_left t)), (split_snode_enabled (st_right t)); cbn [fst snd]; reflexivity.
Qed.

(** The internal children lie before [child_ptr], the last one first. *)
Lemma even_children {S} (self : cnode → S → Z → res S) mb cs dm lf ty rs st depth :
  0 ≤ internal mb < 2 ^ 64 → 0 ≤ external mb < 2 ^ 64 →
  zlen cs = popcount (internal mb) + popcount (external mb) →
  let k := Z.to_nat (popcount (internal mb)) in
  even_traverse self (CNode (BMb mb cs (popcount (internal mb))) dm lf ty rs) st depth =
  mfold (λ c st, self c st (depth + 1)) (reverse (take k cs) ++ drop k cs) st.
Proof.
  intros Hi He Hc k. unfold even_traverse. cbn [n_body]. set (ni := popcount (internal mb)) in *. set (nx := popcount (external mb)) in *.
  assert (Hni : 0 ≤ ni) by (unfold ni; rewrite (popcount_bsum 64) by done; apply bsum_bounds).
  assert (Hnx : 0 ≤ nx) by (unfold nx; rewrite (popcount_bsum 64) by done; apply bsum_bounds).
  rewrite mfold_app, (for_bits_ranks _ _ (λ r, visit self cs depth (ni - r - 1))); [|done|].
  2:{ intros b s Hb. unfold next_inl. by rewrite Z.shiftl_1_l, popcount_mask by lia. }
  fold ni. rewrite <- (mfold_fmap (visit self cs depth) (λ r, ni - r - 1)), visit_list.
  2:{ intros j (r & -> & Hr%elem_of_seqZ)%list_elem_of_fmap. lia. }
  assert (Hrev : (λ r, ni - r - 1) <$> seqZ 0 ni = reverse (seqZ 0 ni)).
  { apply list_eq. intros i. rewrite list_lookup_fmap. destruct (decide (Z.of_nat i < ni)).
    - rewrite reverse_lookup by (rewrite length_seqZ; lia). rewrite length_seqZ, !lookup_seqZ_lt by lia. cbn. f_equal. lia.
    - rewrite lookup_seqZ_ge by lia. symmetry. apply lookup_ge_None. rewrite length_reverse, length_seqZ. lia. }
  rewrite Hrev, fmap_reverse, anth_seqZ by lia. fold k. destruct (mfold _ (reverse _) st) as [s|e]; [|done]. rewrite !bind_ret.
  rewrite (for_bits_ranks _ _ (λ r, visit self cs depth (ni + r))); [|done|].
  2:{ intros b s' Hb. unfold next_exl. by rewrite Z.shiftl_1_l, popcount_mask by lia. }
  fold nx. rewrite <- (mfold_fmap (visit self cs depth) (Z.add ni)), fmap_add_seqZ, Z.add_0_r, visit_list.
  2:{ intros j Hj%elem_of_seqZ. lia. }
  by rewrite anth_seqZ_drop by lia.
Qed.

(** ** The traversal of a tree *)

(** The children in the order in which they are visited. *)
Definition walk_order (n : cnode) : list cnode :=
  match n_body n with
  | BZero => []
  | BMb _ cs child_ptr => reverse (take (Z.to_nat child_ptr) cs) ++ drop (Z.to_nat child_ptr) cs
  | BSp _ cs => cs
  | BHi _ cs => removelast cs
  end.

Lemma children_walk {S} (self : cnode → S → Z → res S) n st depth :
  shape_ok n →
  match n_type n with
  | BITMAP_CUT => even_traverse self n st depth
  | SPLIT_CUT => split_traverse self n st depth
  | HI_CUT => hi_traverse self n st depth
  end = mfold (λ c st, self c st (depth + 1)) (walk_order n) st.
Proof.
  destruct n as [[|mb cs cp|sp cs|hn cs] dm lf ty rs]; unfold shape_ok, walk_order; cbn [n_body n_type].
  - by destruct ty.
  - intros (-> & Hi & He & -> & Hl). by apply even_children.
  - intros (-> & t & Ht). assert (sp = (split_fill t).1) as -> by (by rewrite Ht).
    apply split_children. by rewrite Ht.
  - intros (-> & Hb & Hl). by apply hi_children.
Qed.

Lemma walk_order_child n c : c ∈ walk_order n → c ∈ n_childs n.
Proof.
  unfold walk_order, n_childs. destruct (n_body n) as [|mb cs cp|sp cs|hn cs]; try done.
  - rewrite elem_of_app, elem_of_reverse. intros [Hc|Hc].
    + by eapply elem_of_take in Hc as (i & Hc%list_elem_of_lookup_2 & _).
    + apply list_elem_of_lookup in Hc as [i Hi]. rewrite lookup_drop in Hi. by eapply list_elem_of_lookup_2.
  - rewrite removelast_firstn_len. intros Hc. by eapply elem_of_take in Hc as (i & Hc%list_elem_of_lookup_2 & _).
Qed.

(** The nodes below [n], itself included, in pre-order and with their depths. *)
Fixpoint preorder_loop (fuel : nat) (n : cnode) (depth : Z) : list (cnode * Z) :=
  match fuel with
  | O => []
  | S fuel => (n, depth) :: concat ((λ c, preorder_loop fuel c (depth + 1)) <$> walk_order n)
  end.
Definition preorder (n : cnode) (depth : Z) : list (cnode * Z) := preorder_loop (S (height n)) n depth.

Lemma preorder_enough k1 k2 n depth :
  (height n < k1)%nat → (height n < k2)%nat → preorder_loop k1 n depth = preorder_loop k2 n depth.
Proof.
  revert k2 n depth. induction k1 as [|k1 IH]; intros k2 n depth H1 H2; [lia|]. destruct k2 as [|k2]; [lia|].
  cbn [preorder_loop]. do 2 f_equal. apply list_fmap_ext. intros _ c Hc%list_elem_of_lookup_2%walk_order_child.
  apply height_child in Hc. apply IH; lia.
Qed.

(** The levels of the tree are enough. *)
Lemma preorder_unfold n depth :
  preorder n depth = (n, depth) :: concat ((λ c, preorder c (depth + 1)) <$> walk_order n).
Proof.
  unfold preorder at 1. cbn [preorder_loop]. do 2 f_equal. apply list_fmap_ext.
  intros _ c Hc%list_elem_of_lookup_2%walk_order_child. apply height_child in Hc. apply preorder_enough; lia.
Qed.

Lemma traverse_walk {S} fuel (tf : cnode → S → Z → res S) n st depth :
  (height n < fuel)%nat → shaped n →
  traverse_loop fuel tf n st depth = mfold (λ x st, tf x.1 st x.2) (preorder_loop fuel n depth) st.
Proof.
  revert n st depth. induction fuel as [|fuel IH]; intros n st depth Hf Hn; [lia|].
  cbn [traverse_loop preorder_loop mfold fst snd]. destruct (tf n st depth) as [st'|e]; [|done]. rewrite !bind_ret.
  rewrite children_walk by (apply Hn; apply rtc_refl). rewrite <- mfold_concat. apply mfold_ext.
  intros c s Hc%walk_order_child. apply IH; [apply height_child in Hc; lia|by eapply shaped_child].
Qed.

Lemma preorder_shape n depth x : shaped n → x ∈ preorder n depth → shape_ok x.1.
Proof.
  intros Hn Hx. unfold preorder in Hx. revert Hx. generalize (S (height n)). intros fuel. revert n depth Hn.
  induction fuel as [|fuel IH]; intros n depth Hn Hx; cbn [preorder_loop] in Hx; [by apply elem_of_nil in Hx|].
  apply elem_of_cons in Hx as [->|Hx]; [apply Hn, rtc_refl|].
  apply list_elem_of_In, in_concat in Hx as (l & Hl%list_elem_of_In & Hx%list_elem_of_In).
  apply list_elem_of_fmap in Hl as (c & -> & Hc%walk_order_child). eapply IH; [|exact Hx]. by eapply shaped_child.
Qed.

(** ** The counters of the tree *)
Definition zsum {A} (f : A → Z) (l : list A) : Z := foldr (λ x s, f x + s) 0 l.

Lemma zsum_snoc {A} (f : A → Z) l x : zsum f (l ++ [x]) = zsum f l + f x.
Proof. unfold zsum. induction l as [|y l IH]; cbn in *; [lia|]. rewrite IH. lia. Qed.

Definition leaves (l : list (cnode * Z)) : list (cnode * Z) := filter (λ x, n_leaf x.1 = true) l.
Definition inner (t : cut_type) (l : list (cnode * Z)) : list (cnode * Z) :=
  filter (λ x, n_leaf x.1 = false ∧ n_type x.1 = t) l.

(** What the counters say of the nodes visited so far. *)
Record counted (l : list (cnode * Z)) (info : ctree_info) : Prop := {
  cnt_node : node_cnt info = zlen l;
  cnt_leaf : leaf_cnt info = zlen (leaves l);
  cnt_rule : rule_cnt info = zsum (λ x, num (n_ruleset x.1)) (leaves l);
  cnt_depth : depth_cnt info = zsum snd (leaves l);
  cnt_access : access_cnt info = zsum (λ x, x.2 + num (n_ruleset x.1)) (leaves l);
  cnt_type t : ci_cut_type info !! cut_type_idx t = Some (zlen (inner t l)) }.

Definition deepest (l : list (cnode * Z)) (m : Z) : Prop :=
  (∀ x, x ∈ l → x.2 ≤ m) ∧ ∃ x, x ∈ l ∧ x.2 = m.

Lemma cut_type_idx_inj t t' : cut_type_idx t = cut_type_idx t' → t = t'.
Proof. by destruct t, t'. Qed.

Lemma counted_step l info x :
  counted l info → ∃ info', get_tree_info_traverse x.1 info x.2 = Ok info' ∧ counted (l ++ [x]) info' ∧
    max_depth info' = Z.max (max_depth info) x.2.
Proof.
  intros [H1 H2 H3 H4 H5 H6]. unfold get_tree_info_traverse. eexists. split; [done|].
  assert (Hmax : (if max_depth info <? x.2 then x.2 else max_depth info) = Z.max (max_depth info) x.2)
    by (destruct (Z.ltb_spec (max_depth info) x.2); lia).
  assert (Hz : zlen (l ++ [x]) = zlen l + 1) by (by rewrite zlen_app).
  destruct (n_leaf x.1) eqn:El; (split; [|done]).
  - assert (Hl : leaves (l ++ [x]) = leaves l ++ [x]).
    { unfold leaves. rewrite filter_app. by rewrite filter_cons_True by done. }
    split; cbn [node_cnt leaf_cnt rule_cnt depth_cnt access_cnt ci_cut_type]; rewrite ?Hl, ?zlen_app, ?zsum_snoc; change (zlen [x]) with 1; cbn [fst snd]; try lia.
    intros t. rewrite H6. unfold inner. rewrite filter_app, filter_cons_False by (rewrite El; naive_solver).
    by rewrite app_nil_r.
  - assert (Hl : leaves (l ++ [x]) = leaves l).
    { unfold leaves. rewrite filter_app, filter_cons_False by (by rewrite El). apply app_nil_r. }
    split; cbn [node_cnt leaf_cnt rule_cnt depth_cnt access_cnt ci_cut_type]; rewrite ?Hl, ?Hz; try lia.
    intros t. unfold inner. rewrite filter_app. destruct (decide (n_type x.1 = t)) as [<-|Ht].
    + rewrite list_lookup_alter_eq, H6, filter_cons_True by done.
      rewrite filter_nil, zlen_app. change (zlen [x]) with 1. cbn [fmap option_fmap option_map]. f_equal. unfold inner. lia.
    + rewrite list_lookup_alter_ne, H6 by (intros E; by apply cut_type_idx_inj in E).
      rewrite filter_cons_False by (intros [_ ?]; done). by rewrite app_nil_r.
Qed.

Lemma tree_info root : shaped root →
  ∃ info, get_tree_info root = Ok info ∧ counted (preorder root 0) info ∧ deepest (preorder root 0) (max_depth info).
Proof.
  intros Hr. unfold get_tree_info, traverse. rewrite traverse_walk by (done || lia).
  fold (preorder root 0). set (l := preorder root 0).
  destruct (mfold_inv (λ pre info, counted pre info ∧ (∀ x, x ∈ pre → x.2 ≤ max_depth info) ∧
      0 ≤ max_depth info ∧ (max_depth info = 0 ∨ ∃ x, x ∈ pre ∧ x.2 = max_depth info))
    (λ x st, get_tree_info_traverse x.1 st x.2) l (mk_info 0 0 0 0 0 0 [0; 0; 0])) as (info & Hm & Hc & Hd1 & _ & Hd2).
  - split; [split; try done; by intros []|]. cbn. split; [set_solver|]. split; [done|by left].
  - intros pre x info (Hc & Hd1 & H0 & Hd2) _. destruct (counted_step pre info x Hc) as (info' & Hi & Hc' & Hmax).
    exists info'. split; [done|]. split; [done|]. rewrite Hmax. split; [|split; [lia|]].
    + intros y [Hy| ->%list_elem_of_singleton]%elem_of_app; [specialize (Hd1 y Hy)|]; lia.
    + destruct (Z.max_spec (max_depth info) x.2) as [[? ->]|[? ->]]; [right; exists x; set_solver|].
      destruct Hd2 as [?|(y & Hy & ?)]; [by left|]. right. exists y. set_solver.
  - exists info. split; [done|]. split; [done|]. split; [done|]. destruct Hd2 as [H0|?]; [|done].
    exists (root, 0). split; [|done]. unfold l. rewrite preorder_unfold. by left.
Qed.

(** ** Properties *)

(** [hi_traverse] visits, in order, as many children as its bitmap has bits.
    A node of [N] children has [N - 1] bits, so the last child is never visited:
    [get_tree_info] does not count it and [compact] does not copy it. *)
Theorem hi_traverse_skips_last {S} (self : cnode → S → Z → res S) hn cs dm lf ty rs st depth :
  0 ≤ hn_bitmap hn < 2 ^ 64 → popcount (hn_bitmap hn) + 1 = zlen cs →
  hi_traverse self (CNode (BHi hn cs) dm lf ty rs) st depth =
  mfold (λ c st, self c st (depth + 1)) (removelast cs) st.
Proof. apply hi_children. Qed.

Lemma hi_traverse_skips_last_witness :
  hi_traverse (λ c l d, Ok (l ++ [n_dim c])) (CNode (BHi (mk_hn 0 0 5) [zero_cnode; zero_cnode; zero_cnode]) 0 false
    HI_CUT (mk_rs 0 0 [])) [] 0 = mfold (λ c l, Ok (l ++ [n_dim c])) [zero_cnode; zero_cnode] [].
Proof.
  rewrite (hi_traverse_skips_last (λ c l d, Ok (l ++ [n_dim c]))) by first [reflexivity|split; [discriminate|reflexivity]].
  reflexivity.
Defined.

(** C38: [traverse] over a tree with proper bitmaps is a walk in pre-order: it calls
    the function on the node, then on the subtrees of its children one level
    deeper, the internal children of a bitmap node from the last to the first and
    before the external ones, and without the last child of an equal-size node.
    It leaves no array, and fails only where the function does. *)
Theorem traverse_preorder {S} (tf : cnode → S → Z → res S) root st depth :
  shaped root → traverse tf root st depth = mfold (λ x st, tf x.1 st x.2) (preorder root depth) st.
Proof. intros Hr. apply traverse_walk; [lia|done]. Qed.

(** A bitmap node with an internal and two external children, one of them cut into
    equal parts. *)
Definition small_leaf (d : Z) : cnode := CNode BZero d true BITMAP_CUT (mk_rs 0 0 []).
Definition small_tree : cnode :=
  CNode (BMb (mk_mb 5 1) [small_leaf 1; small_leaf 2;
    CNode (BHi (mk_hn 0 0 2) [small_leaf 3; small_leaf 4]) 0 false HI_CUT (mk_rs 0 0 [])] 1) 0 false BITMAP_CUT (mk_rs 0 0 []).

Lemma small_tree_shaped : shaped small_tree.
Proof.
  apply shaped_node; [by cbn; repeat split; try lia|]. repeat constructor; try apply shaped_zero.
  apply shaped_node; [by cbn; repeat split; try lia|]. repeat constructor; apply shaped_zero.
Qed.

Lemma traverse_preorder_witness :
  traverse (λ n l d, Ok (l ++ [(n_dim n, d)])) small_tree [] 0 = Ok [(0, 0); (1, 1); (2, 1); (0, 1); (3, 2)].
Proof. rewrite (traverse_preorder _ small_tree [] 0 small_tree_shaped). reflexivity. Defined.
