(* ===== verification/Compact.v ===== *)
(** * Copying a tree into one array (cut.c, [compact])

    The nodes are appended to a dynamic array while the tree is traversed.  A cell
    of the array is a bytewise copy of a node: its [child_ptr] still points to the
    children of the original tree unless [set_child_ptr] stores the place of the
    room that was reserved in the array. *)
From S2P Require Import Prelude.
From S2P Require Import Rule.
From S2P Require Import Darray.
From S2P Require Import CutInl.
From S2P Require Import CutBitmap.
From S2P Require Import CutSplit.
From S2P Require Import CutHi.
From S2P Require Import Cut.
From S2P Require Import Tree.
From S2P Require Import TraverseSpec.
#[local] Open Scope Z_scope.

(** A cell: the node copied, and the [child_ptr] stored over it, as an index. *)
Record cell := mk_cell { c_node : cnode; c_child_ptr : option Z }.
(** What [realloc] adds is indeterminate. *)
#[global] Instance cell_inhabited : Inhabited cell := populate (mk_cell zero_cnode None).

Definition even_set_child_ptr (n : cnode) (c : cell) (childs : Z) : cell :=
  mk_cell (c_node c) (Some (childs + match n_body n with BMb mb _ _ => popcount (internal mb) | _ => 0 end)).
Definition split_set_child_ptr (n : cnode) (c : cell) (childs : Z) : cell := mk_cell (c_node c) (Some childs).
Definition hi_set_child_ptr (n : cnode) (c : cell) (childs : Z) : cell := mk_cell (c_node c) (Some childs).

Definition set_child_ptr (t : cut_type) : cnode → cell → Z → cell :=
  match t with
  | BITMAP_CUT => even_set_child_ptr
  | SPLIT_CUT => split_set_child_ptr
  | HI_CUT => hi_set_child_ptr
  end.

Section compact.
Context `{Allocator}.

(** [struct ct_info] *)
Record ct_info := mk_ct { ct : darray cell; copied : Z }.

(** Room for the children of a node that is not a leaf. *)
Definition compact_reserve (n : cnode) (arr : darray cell) (copied : Z) : res ct_info :=
  let childs := m_count_childs (cuts (n_type n)) n in
  let '(arr, dest) := darray_make_room sizeof_cnode arr childs in
  c ← darray_item arr copied;
  arr ← darray_set_item arr copied (set_child_ptr (n_type n) n c dest);
  Ok (mk_ct (mk_darray (item arr) (size arr + childs) (alloc arr)) copied).

Definition compact_traverse (n : cnode) (ci : ct_info) (depth : Z) : res ct_info :=
  arr ← darray_append sizeof_cnode (ct ci) (mk_cell n None);
  let copied := copied ci + 1 in
  if n_leaf n then Ok (mk_ct arr copied) else compact_reserve n arr copied.

Definition compact (root : cnode) : res (darray cell) :=
  ci ← traverse compact_traverse root (mk_ct darray_init 0) 0;
  Ok (ct ci).

(** ** The traversal keeps what its callback keeps *)
Section preserve.
Context {S : Type} (P : S → Prop) (tf : cnode → S → Z → res S).

Lemma for_bits_preserve fuel m mask (f : Z → S → res S) s s' :
  (∀ b s s', f b s = Ok s' → P s → P s') → for_bits fuel m mask f s = Ok s' → P s → P s'.
Proof.
  intros Hf. revert mask s. induction fuel as [|fuel IH]; intros mask s; cbn [for_bits];
    (destruct (Z.lxor m mask =? 0); [by intros [= <-]|]); [done|].
  intros Hb Hs. apply bind_Ok in Hb as (s1 & H1 & Hb). eauto.
Qed.

Lemma visit_preserve self cs depth j s s' :
  (∀ n s d s', self n s d = Ok s' → P s → P s') → visit self cs depth j s = Ok s' → P s → P s'.
Proof. intros Hs Hv. apply bind_Ok in Hv as (c & _ & Hv). by eapply Hs. Qed.

(** The children, whatever kind of node it is. *)
Lemma children_preserve self root s depth s' :
  (∀ n s d s', self n s d = Ok s' → P s → P s') →
  match n_type root with
  | BITMAP_CUT => even_traverse self root s depth
  | SPLIT_CUT => split_traverse self root s depth
  | HI_CUT => hi_traverse self root s depth
  end = Ok s' → P s → P s'.
Proof.
  intros Hself Ht Hs. assert (Hv : ∀ cs j s s', visit self cs depth j s = Ok s' → P s → P s').
  { intros cs j u u'. by apply visit_preserve. }
  destruct (n_type root); unfold even_traverse, split_traverse, hi_traverse in Ht; destruct (n_body root); try done;
    try (by injection Ht as <-).
  - apply bind_Ok in Ht as (s2 & H2 & Ht). eapply for_bits_preserve; [|exact Ht|]; [intros b; apply Hv|].
    eapply for_bits_preserve; [|exact H2|done]. intros b. apply Hv.
  - eapply for_bits_preserve; [|exact Ht|done]. intros b. apply Hv.
  - eapply for_bits_preserve; [|exact Ht|done]. intros b u u' Hb. apply bind_Ok in Hb as (j & _ & Hb). by eapply Hv.
Qed.

Lemma traverse_preserve fuel root s depth s' :
  (∀ n s d s', tf n s d = Ok s' → P s → P s') → traverse_loop fuel tf root s depth = Ok s' → P s → P s'.
Proof.
  intros Htf. revert root s depth s'. induction fuel as [|fuel IH]; intros root s depth s' Ht Hs; cbn [traverse_loop] in Ht; [done|].
  apply bind_Ok in Ht as (s1 & H1 & Ht). eapply children_preserve; [|exact Ht|by eapply Htf]. intros n v d v'. apply IH.
Qed.
End preserve.

(** ** The copy of the root *)
Lemma next_alloc_loop_ge fuel a need r : next_alloc_loop fuel a need = Ok r → need ≤ r.
Proof.
  revert a. induction fuel as [|fuel IH]; intros a; cbn [next_alloc_loop]; destruct (Z.ltb_spec a need);
    try done; try (intros [= <-]; lia). apply IH.
Qed.

(** The first cell, once it is there, survives what leaves the array usable. *)
Definition first_is (c : cell) (arr : darray cell) : Prop := 1 ≤ size arr ∧ item arr !! 0%nat = Some c.

Lemma realloc_first (arr : darray cell) a c :
  0 < a → item arr !! 0%nat = Some c →
  item (darray_realloc sizeof_cnode arr a) = [] ∨ item (darray_realloc sizeof_cnode arr a) !! 0%nat = Some c.
Proof.
  intros Ha Hc. unfold darray_realloc. destruct (alloc_ok _); cbn [item]; [right|by left].
  destruct (item arr) as [|x l]; [done|]. destruct (Z.to_nat a) eqn:E; [lia|]. done.
Qed.

Lemma set_item_first (arr arr' : darray cell) i x c :
  0 < i → item arr = [] ∨ item arr !! 0%nat = Some c → darray_set_item arr i x = Ok arr' →
  item arr' !! 0%nat = Some c ∧ size arr' = size arr.
Proof.
  intros Hi Hc Hs. apply bind_Ok in Hs as (l & Hl & E). injection E as <-. apply aset_Ok in Hl as [Hin ->].
  cbn [item size]. split; [|done]. destruct Hc as [Hc|Hc]; [unfold zlen in Hin; rewrite Hc in Hin; cbn in Hin; lia|].
  by rewrite list_lookup_insert_ne by lia.
Qed.

Lemma append_first (arr arr' : darray cell) x c :
  first_is c arr → darray_append sizeof_cnode arr x = Ok arr' → first_is c arr'.
Proof.
  intros [Hs Hc] Ha. apply bind_Ok in Ha as (arr1 & H1 & Ha). unfold darray_resize, darray_growalloc in H1. cbn [alloc] in H1.
  assert (Harr1 : (item arr1 = [] ∨ item arr1 !! 0%nat = Some c) ∧ size arr1 = size arr + 1).
  { destruct (alloc arr <? size arr + 1).
    - apply bind_Ok in H1 as (a & Hn & E). injection E as <-. apply next_alloc_loop_ge in Hn.
      split; [by apply realloc_first; [lia|]|]. unfold darray_realloc. by destruct (alloc_ok _).
    - injection H1 as <-. split; [by right|done]. }
  destruct Harr1 as [Hi Hs1]. rewrite Hs1 in Ha.
  destruct (set_item_first arr1 arr' (size arr + 1 - 1) x c ltac:(lia) Hi Ha) as [? Hs']. split; [lia|done].
Qed.

Lemma popcount_nonneg x : 0 ≤ popcount x.
Proof. destruct x as [|p|p]; cbn [popcount]; try lia. induction p; cbn [popcount_pos] in *; lia. Qed.

Lemma count_childs_nonneg n : 0 ≤ m_count_childs (cuts (n_type n)) n.
Proof.
  destruct (n_type n); cbn; unfold even_count_childs, split_count_childs, hi_count_childs;
    destruct (negb _); try lia; destruct (n_body n) as [|mb ? ?|sp ?|hn ?]; try lia; try apply popcount_nonneg.
  pose proof (popcount_nonneg (external mb)). pose proof (popcount_nonneg (internal mb)). lia.
Qed.

Lemma reserve_first c n arr k ci' :
  0 < k → first_is c arr → compact_reserve n arr k = Ok ci' → 1 ≤ copied ci' ∧ first_is c (ct ci').
Proof.
  intros Hk0 [Hs Hi] Hc. unfold compact_reserve, darray_make_room in Hc. pose proof (count_childs_nonneg n) as Hk.
  set (m := m_count_childs (cuts (n_type n)) n) in *.
  set (arr1 := if alloc arr <? size arr + m then darray_realloc sizeof_cnode arr (size arr + m) else arr) in *.
  assert (H1 : (item arr1 = [] ∨ item arr1 !! 0%nat = Some c) ∧ size arr1 = size arr).
  { unfold arr1. destruct (alloc arr <? size arr + m); [|split; [by right|done]].
    split; [by apply realloc_first; [lia|]|]. unfold darray_realloc. by destruct (alloc_ok _). }
  destruct H1 as [H1 Hs1]. apply bind_Ok in Hc as (x & _ & Hc). apply bind_Ok in Hc as (arr2 & Ha2 & Hc). injection Hc as <-.
  destruct (set_item_first arr1 arr2 k _ c Hk0 H1 Ha2) as [Hi2 Hs2]. cbn [copied ct]. split; [lia|].
  split; cbn [size item]; [lia|done].
Qed.

Lemma compact_traverse_first c n ci depth ci' :
  compact_traverse n ci depth = Ok ci' → 1 ≤ copied ci ∧ first_is c (ct ci) → 1 ≤ copied ci' ∧ first_is c (ct ci').
Proof.
  intros Hc [Hcop Hf]. apply bind_Ok in Hc as (arr & Ha & Hc). pose proof (append_first _ _ _ _ Hf Ha) as Hf'.
  destruct (n_leaf n); [injection Hc as <-; cbn [copied ct]; split; [lia|done]|]. eapply reserve_first; [|done|done]. lia.
Qed.

(** The first node goes into the first cell of the empty array. *)
Lemma compact_traverse_root n ci depth :
  compact_traverse n (mk_ct darray_init 0) depth = Ok ci → 1 ≤ copied ci ∧ first_is (mk_cell n None) (ct ci).
Proof.
  intros Hc. apply bind_Ok in Hc as (arr & Ha & Hc). cbn [ct copied] in *.
  assert (Hf : first_is (mk_cell n None) arr).
  { apply bind_Ok in Ha as (arr1 & H1 & Ha). unfold darray_resize, darray_growalloc, darray_init in H1. cbn [alloc size item] in H1.
    change (0 <? 0 + 1) with true in H1. cbv iota in H1. apply bind_Ok in H1 as (a & Hn & E). injection E as <-.
    apply bind_Ok in Ha as (l & Hl & E). injection E as <-. apply aset_Ok in Hl as [Hin ->].
    unfold darray_realloc in *. destruct (alloc_ok _); cbn [item size alloc] in *; [|unfold zlen in Hin; cbn in Hin; lia].
    split; cbn [size item]; [lia|]. apply list_lookup_insert_eq. unfold zlen in Hin. lia. }
  destruct (n_leaf n); [injection Hc as <-; cbn [copied ct]; split; [lia|done]|]. eapply reserve_first; [|done|done]. lia.
Qed.

Lemma compact_first root arr : compact root = Ok arr → darray_item arr 0 = Ok (mk_cell root None).
Proof.
  intros Hc. apply bind_Ok in Hc as (ci & Ht & E). injection E as <-. unfold traverse in Ht. cbn [traverse_loop] in Ht.
  apply bind_Ok in Ht as (ci1 & H1 & Ht). pose proof (compact_traverse_root _ _ _ H1) as Hf.
  set (P := λ ci, 1 ≤ copied ci ∧ first_is (mk_cell root None) (ct ci)).
  assert (HP : P ci).
  { eapply (children_preserve P); [|exact Ht|exact Hf]. intros n s d s'. apply traverse_preserve.
    intros m v e v'. apply compact_traverse_first. }
  destruct HP as (_ & _ & Hi). unfold darray_item. by apply aget_lookup.
Qed.
End compact.

(** ** The array is not left *)

(** The children that [compact] counts of a node. *)
Definition counted_childs `{Allocator} (n : cnode) : Z := if n_leaf n then 0 else m_count_childs (cuts (n_type n)) n.

Lemma popcount64 x : 0 ≤ x < 2 ^ 64 → popcount x ≤ 64.
Proof. intros Hx. rewrite (popcount_bsum 64) by done. apply bsum_bounds. Qed.

Lemma count_childs_le `{Allocator} n : shape_ok n → m_count_childs (cuts (n_type n)) n ≤ 128.
Proof.
  destruct n as [[|mb cs cp|sp cs|hn cs] dm lf ty rs]; unfold shape_ok; cbn [n_body n_type].
  - intros _. by destruct ty, lf.
  - intros (-> & Hi%popcount64 & He%popcount64 & _). cbn [cuts m_count_childs]. unfold even_count_childs. cbn [n_leaf n_body]. destruct (negb lf); lia.
  - intros (-> & t & Ht). cbn [cuts m_count_childs]. unfold split_count_childs. cbn [n_leaf n_body]. destruct (negb lf); [|lia].
    unfold split_fill in Ht.
    destruct (split_snode_enabled (st_left t)), (split_snode_enabled (st_right t)); injection Ht as <- _; by vm_compute.
  - intros (-> & Hb & _). cbn [cuts m_count_childs]. unfold hi_count_childs. cbn [n_leaf n_body]. destruct (negb lf); [|lia].
    pose proof (popcount64 (u32 (hn_bitmap hn))) as Hp. unfold u32 in *.
    pose proof (Z.mod_pos_bound (hn_bitmap hn) (2 ^ 32) ltac:(lia)). lia.
Qed.

(** A tree of less than [2 ^ 50] visited nodes in which every inner node counts a child. *)
Definition compactable `{Allocator} (root : cnode) : Prop :=
  zlen (preorder root 0) < 2 ^ 50 ∧
  ∀ x, x ∈ preorder root 0 → n_leaf x.1 = false → 0 < counted_childs x.1.

Definition compactable_b `{Allocator} (root : cnode) : bool :=
  (zlen (preorder root 0) <? 2 ^ 50) && forallb (λ x, n_leaf x.1 || (0 <? counted_childs x.1)) (preorder root 0).

Lemma compactable_check `{Allocator} root : compactable_b root = true → compactable root.
Proof.
  intros [H1%Z.ltb_lt H2]%andb_true_iff. split; [done|]. intros x Hx Hl. rewrite forallb_forall in H2.
  apply list_elem_of_In, H2 in Hx. rewrite Hl in Hx. by apply Z.ltb_lt.
Qed.

Section bounds.
Context `{AllocTotal}.

(** Between the calls: every node of [l] has a cell, and room for its children. *)
Record ct_ok (l : list (cnode * Z)) (ci : ct_info) : Prop := {
  ct_arr : darray_ok (ct ci);
  ct_copied : copied ci = zlen l;
  ct_size : size (ct ci) = zlen l + zsum (λ x, counted_childs x.1) l }.

Lemma zsum_bounds l : (∀ x, x ∈ l → shape_ok x.1) → 0 ≤ zsum (λ x : cnode * Z, counted_childs x.1) l ≤ 128 * zlen l.
Proof.
  unfold zlen, zsum. induction l as [|x l IH]; intros Hl; cbn [foldr length]; [lia|].
  specialize (IH ltac:(set_solver)). assert (Hx : 0 ≤ counted_childs x.1 ≤ 128).
  { unfold counted_childs. destruct (n_leaf x.1); [lia|]. split; [apply count_childs_nonneg|apply count_childs_le; set_solver]. }
  lia.
Qed.

Lemma compact_step l ci x :
  ct_ok l ci → (∀ y, y ∈ l ++ [x] → shape_ok y.1) → zlen l < 2 ^ 50 → (n_leaf x.1 = false → 0 < counted_childs x.1) →
  ∃ ci', compact_traverse x.1 ci x.2 = Ok ci' ∧ ct_ok (l ++ [x]) ci'.
Proof.
  intros [Hok Hc Hs] Hsh Hl Hcnt. pose proof (zsum_bounds l ltac:(set_solver)) as Hz.
  destruct (darray_append_Ok sizeof_cnode alloc_total (ct ci) (mk_cell x.1 None) Hok ltac:(lia)) as (arr & Ha & Hok1 & Hs1 & _).
  unfold compact_traverse. rewrite Ha, bind_ret. pose proof (zlen_nonneg l).
  destruct (n_leaf x.1) eqn:El.
  - eexists. split; [done|]. split; cbn [ct copied]; [done|rewrite zlen_app; change (zlen [x]) with 1; lia|].
    rewrite zlen_app, zsum_snoc. change (zlen [x]) with 1. unfold counted_childs at 2. rewrite El. lia.
  - unfold counted_childs in Hcnt. rewrite El in Hcnt. specialize (Hcnt eq_refl).
    pose proof (count_childs_le x.1 ltac:(set_solver)) as Hle. unfold compact_reserve.
    set (k := m_count_childs (cuts (n_type x.1)) x.1) in *.
    destruct (darray_make_room_Ok sizeof_cnode alloc_total arr k Hok1 ltac:(lia) ltac:(lia)) as (arr2 & -> & Hs2 & [Hb2 Hl2 Hm2] & Hroom).
    unfold darray_item, darray_set_item. rewrite anth_in, bind_ret, aset_in, !bind_ret by lia.
    eexists. split; [done|]. split; cbn [ct copied size].
    + split; cbn [size alloc item]; [lia| |done]. unfold zlen in *. rewrite length_insert. lia.
    + rewrite zlen_app. change (zlen [x]) with 1. lia.
    + rewrite zlen_app, zsum_snoc. change (zlen [x]) with 1. unfold counted_childs at 2. rewrite El. fold k. lia.
Qed.

Lemma compact_Ok root :
  shaped root → compactable root →
  ∃ arr, compact root = Ok arr ∧ darray_ok arr ∧
    size arr = zlen (preorder root 0) + zsum (λ x, counted_childs x.1) (preorder root 0).
Proof.
  intros Hsh [Hlen Hcnt]. unfold compact, traverse. rewrite traverse_walk by (done || lia). fold (preorder root 0).
  destruct (mfold_inv ct_ok (λ x st, compact_traverse x.1 st x.2) (preorder root 0) (mk_ct darray_init 0)) as (ci & -> & Hok).
  - split; cbn; [split; cbn; lia || done|done..].
  - intros pre x ci Hok [rest Hrest]. rewrite Hrest in *. rewrite zlen_app in Hlen. pose proof (zlen_nonneg (x :: rest)).
    apply compact_step; [done| |lia|apply Hcnt; set_solver]. intros y Hy. apply (preorder_shape root 0); [done|].
    rewrite Hrest. set_solver.
  - destruct Hok. rewrite bind_ret. eauto.
Qed.
End bounds.

(** ** Properties *)

(** C40: [compact] stays in its array.  When the machine has memory, the tree has less
    than [2 ^ 50] visited nodes and every inner node counts a child, it returns
    an array with one cell per visited node and one more for every child counted:
    the room reserved for the children is never used, each of them is appended
    again when it is visited. *)
Theorem compact_in_bounds `{AllocTotal} root :
  shaped root → compactable root →
  ∃ arr, compact root = Ok arr ∧ darray_ok arr ∧
    size arr = zlen (preorder root 0) + zsum (λ x, counted_childs x.1) (preorder root 0).
Proof. apply compact_Ok. Qed.

(** The condition on the inner nodes is needed: the equal-size cut counts the lower 32
    bits of its bitmap only. *)
Example compact_leaves_array : let H : Allocator := λ _, true in
  compact (CNode (BHi (mk_hn 0 0 (2 ^ 40)) [small_leaf 1; small_leaf 2]) 0 false HI_CUT (mk_rs 0 0 [])) = Err EOob.
Proof. vm_compute. reflexivity. Qed.

(** The array that compact returns is not a copy of the tree.  Its first cell, the
    root that main searches from, is a copy of the root with its [child_ptr] as it
    was: it points to the children of the original tree, because the cell whose
    pointer is set is the one behind the node just copied.  So a search from it is
    a search in the original tree. *)
Theorem compact_root_points_back `{Allocator} root arr :
  compact root = Ok arr → darray_item arr 0 = Ok (mk_cell root None).
Proof. apply compact_first. Qed.

#[local] Instance memory : Allocator := λ _, true.
#[local] Instance memory_total : AllocTotal.
Proof. done. Qed.

Lemma compact_in_bounds_witness : ∃ arr, compact small_tree = Ok arr ∧ size arr = 9.
Proof.
  destruct (compact_in_bounds small_tree small_tree_shaped) as (arr & H1 & _ & H2).
  - apply compactable_check. reflexivity.
  - exists arr. split; [exact H1|exact H2].
Defined.

Lemma compact_root_points_back_witness :
  ∃ arr, compact small_tree = Ok arr ∧ darray_item arr 0 = Ok (mk_cell small_tree None).
Proof.
  destruct (compact small_tree) as [arr|e] eqn:E; [|vm_compute in E; discriminate].
  exists arr. split; [reflexivity|]. apply (compact_root_points_back small_tree arr E).
Defined.
