(* ===== verification/LoadRanges.v ===== *)
(** * The ranges of a rule set in one dimension

    Both sweeps start by copying the ranges of the rules to a scratch array,
    sorting them and merging equal ones; what the array then holds. *)
From S2P Require Import Prelude.
From S2P Require Import Rule.
From S2P Require Import Classify.
From S2P Require Import Prefix.
From S2P Require Import Ranges.
From S2P Require Import Heap.
From S2P Require Import CutInl.
From S2P Require Import CutBitmap.
From S2P Require Import Cut.
From S2P Require Import Tree.
#[local] Open Scope Z_scope.

Definition rule_range (d : Z) (r : rule_t) : range1d := mk_r1 (rng r d).1 (rng r d).2 1.

(** The distinct ranges in order, each with the number of its rules. *)
Definition uranges (rs : rule_set_t) (d : Z) : list range1d :=
  uniq (merge_sort range_le (rule_range d <$> live rs)).

Lemma load_ranges_len rs d l l' : rs_ok rs → load_ranges rs d l = Ok l' → num rs ≤ zlen l.
Proof.
  intros [Hn _] Hl. destruct (decide (num rs = 0)) as [->|H0]; [apply zlen_nonneg|].
  assert (Hlast : ∃ pre, seqZ 0 (num rs - 0) = pre ++ [num rs - 1]).
  { exists (seqZ 0 (num rs - 1)). rewrite Z.sub_0_r. replace (num rs) with ((num rs - 1) + 1) at 1 by lia.
    by rewrite seqZ_app by lia. }
  destruct Hlast as [pre Hpre]. unfold load_ranges, mfor in Hl. rewrite Hpre, mfold_app in Hl.
  apply bind_Ok in Hl as (l1 & Hl1 & Hl).
  assert (Hlen : zlen l1 = zlen l).
  { apply (mfold_Ok_inv (λ _ st, zlen st = zlen l) _ _ _ _ Hl1); [done|].
    intros ? ? ? ? Hs _ Hb. apply bind_Ok in Hb as (? & _ & [_ ->]%aset_Ok). by rewrite zlen_insert. }
  cbn [mfold] in Hl. apply bind_Ok in Hl as (l2 & Hl2 & _).
  apply bind_Ok in Hl2 as (? & _ & [? _]%aset_Ok). lia.
Qed.

Lemma load_ranges_spec rs d l :
  rs_ok rs → num rs ≤ zlen l →
  load_ranges rs d l = Ok ((rule_range d <$> live rs) ++ drop (Z.to_nat (num rs)) l).
Proof.
  intros [Hn Hl] Hle. unfold load_ranges, mfor. rewrite Z.sub_0_r.
  destruct (mfold_inv (λ (ixs : list Z) st, length st = length l ∧
      st = (rule_range d <$> take (length ixs) (ruleList rs)) ++ drop (length ixs) l)
    (λ i l, r ← aget (ruleList rs) i; aset l i (mk_r1 (rng r d).1 (rng r d).2 1)) (seqZ 0 (num rs)) l)
    as (st & -> & _ & ->).
  - split; [done|]. simpl. done.
  - intros pre i st [Hlen Hst] [rest Hrest]. destruct (seqZ_split _ _ _ _ _ Hrest) as [Hi Hib].
    unfold zlen in *. destruct (lookup_lt_is_Some_2 (ruleList rs) (length pre)) as [r Hr]; [lia|].
    replace i with (Z.of_nat (length pre)) by lia.
    rewrite (aget_lookup (ruleList rs) _ r) by (lia || by rewrite Nat2Z.id). cbn [mbind res_bind].
    rewrite aset_in by (unfold zlen; lia). rewrite Nat2Z.id. eexists. split; [done|].
    rewrite length_insert. split; [done|]. rewrite length_app, Nat.add_comm. cbn [length Nat.add].
    rewrite (take_S_snoc _ _ _ Hr), fmap_app, <- app_assoc, Hst.
    assert (Hpl : length (rule_range d <$> take (length pre) (ruleList rs)) = length pre)
      by (rewrite length_fmap, length_take; lia).
    rewrite insert_app_r_alt by lia. f_equal. rewrite Hpl, Nat.sub_diag.
    destruct (lookup_lt_is_Some_2 l (length pre)) as [x Hx]; [lia|]. by rewrite (drop_S l x _ Hx).
  - rewrite length_seqZ. done.
Qed.

Lemma uranges_load rs d l l1 :
  set_ok rs → 0 < num rs → zlen l < 2 ^ 31 → load_ranges rs d l = Ok l1 →
  ∃ l2, unique_ranges (qsort_ranges l1 (num rs)) (num rs) = Ok (l2, zlen (uranges rs d)) ∧
    length l2 = length l ∧ take (length (uranges rs d)) l2 = uranges rs d.
Proof.
  intros [Hok _] H0 Hb Hl. pose proof (load_ranges_len _ _ _ _ Hok Hl) as Hle.
  rewrite (load_ranges_spec rs d l Hok Hle) in Hl. injection Hl as <-.
  pose proof (live_length rs Hok) as Hlv. unfold zlen in *.
  assert (Hlen : length (rule_range d <$> live rs) = Z.to_nat (num rs)) by (rewrite length_fmap; lia).
  assert (Hms : length (merge_sort range_le (rule_range d <$> live rs)) = Z.to_nat (num rs)).
  { by rewrite merge_sort_Permutation. }
  set (q := qsort_ranges _ _).
  assert (Hq : take (Z.to_nat (num rs)) q = merge_sort range_le (rule_range d <$> live rs)).
  { unfold q, qsort_ranges. rewrite (take_app_length' (rule_range d <$> live rs)) by lia.
    rewrite take_app_length' by lia. done. }
  assert (Hql : length q = length l).
  { unfold q, qsort_ranges. rewrite (take_app_length' (rule_range d <$> live rs)), drop_app_length' by lia.
    rewrite length_app, length_drop. lia. }
  destruct (unique_ranges_spec q (num rs)) as (l2 & Hu & Hl2 & Htk).
  { unfold zlen. lia. } { lia. }
  { rewrite Hq, merge_sort_Permutation. apply Forall_fmap, Forall_true. done. }
  rewrite Hq in Hu, Htk. exists l2. split; [done|]. split; [congruence|done].
Qed.

Lemma uranges_sorted rs d : StronglySorted range_lt (uranges rs d).
Proof. apply uniq_sorted. apply StronglySorted_merge_sort; apply _. Qed.

(** The weights count rules. *)
Lemma uranges_wsum P rs d :
  wsum P (uranges rs d) = zlen (filter (λ r, Is_true (P (rng r d).1 (rng r d).2)) (live rs)).
Proof.
  unfold uranges. rewrite uniq_wsum.
  2:{ rewrite merge_sort_Permutation. apply Forall_fmap, Forall_true. done. }
  rewrite (wsum_perm _ _ _ (merge_sort_Permutation _ _)).
  induction (live rs) as [|r l IH]; [done|]. rewrite fmap_cons, filter_cons. simpl. rewrite IH.
  destruct (P _ _).
  - rewrite decide_True by done. unfold zlen. simpl length. lia.
  - rewrite decide_False by (intros []). lia.
Qed.

Lemma uranges_elem rs d u :
  u ∈ uranges rs d → ∃ r, r ∈ live rs ∧ low u = (rng r d).1 ∧ high u = (rng r d).2.
Proof.
  intros (v & Hv & <- & <-)%uniq_elem. rewrite merge_sort_Permutation in Hv.
  apply list_elem_of_fmap in Hv as (r & -> & Hr). eauto.
Qed.

Lemma elem_uranges rs d r :
  r ∈ live rs → ∃ u, u ∈ uranges rs d ∧ low u = (rng r d).1 ∧ high u = (rng r d).2.
Proof.
  intros Hr. apply (elem_uniq _ (rule_range d r)). rewrite merge_sort_Permutation.
  apply list_elem_of_fmap. eauto.
Qed.

Lemma uranges_weight rs d :
  rs_ok rs → Forall (λ u, 1 ≤ weight u) (uranges rs d) ∧ wsum (λ _ _, true) (uranges rs d) = num rs.
Proof.
  intros Hok. split.
  - eapply Forall_impl; [apply uniq_weight_bounds|]. simpl. lia.
  - rewrite uranges_wsum, <- (live_length rs Hok). f_equal.
    induction (live rs) as [|r l IH]; [done|]. rewrite filter_cons_True by done. by rewrite IH.
Qed.

(** The first range starts where the span starts. *)
Lemma uranges_first rs d :
  0 < num rs → rs_ok rs →
  ∃ u U, uranges rs d = u :: U ∧ ∀ r, r ∈ live rs → low u ≤ (rng r d).1.
Proof.
  intros H0 Hok. pose proof (live_length rs Hok) as Hl. destruct (live rs) as [|r0 l0] eqn:El.
  { unfold zlen in Hl. simpl in Hl. lia. }
  destruct (elem_uranges rs d r0) as (u0 & Hu0 & _); [rewrite El; left|].
  destruct (uranges rs d) as [|u U] eqn:EU; [by apply elem_of_nil in Hu0|]. exists u, U. split; [done|].
  intros r Hr. rewrite <- El in Hr. destruct (elem_uranges rs d r Hr) as (v & Hv & <- & _).
  pose proof (uranges_sorted rs d) as Hs. rewrite EU in Hs, Hv.
  apply elem_of_cons in Hv as [->|Hv]; [lia|]. apply StronglySorted_cons in Hs as [Hs _].
  rewrite Forall_forall in Hs. specialize (Hs v Hv). unfold range_lt in Hs. lia.
Qed.

(** ** Property *)

(** C35: loading, sorting and merging the ranges of a rule set (the start of both
    sweeps) stays inside the scratch array and leaves at its front the distinct
    ranges of the rules, strictly increasing, each weighted with the number of
    rules that have it. *)
Theorem scratch_ranges_exact rs d l :
  set_ok rs → 0 < num rs ≤ zlen l → zlen l < 2 ^ 31 →
  ∃ l1 l2 k, load_ranges rs d l = Ok l1 ∧
    unique_ranges (qsort_ranges l1 (num rs)) (num rs) = Ok (l2, k) ∧ length l2 = length l ∧
    let us := take (Z.to_nat k) l2 in
    StronglySorted range_lt us ∧
    (∀ b, b ∈ ((λ u, (low u, high u)) <$> us) ↔ ∃ r, r ∈ live rs ∧ rng r d = b) ∧
    ∀ P, wsum P us = zlen (filter (λ r, Is_true (P (rng r d).1 (rng r d).2)) (live rs)).
Proof.
  intros Hok [Hpos Hle] Hb. pose proof (load_ranges_spec rs d l (proj1 Hok) Hle) as Hl.
  destruct (uranges_load rs d l _ Hok Hpos Hb Hl) as (l2 & Hu & Hlen & Htk).
  eexists _, l2, _. split; [exact Hl|]. split; [exact Hu|]. split; [done|].
  unfold zlen. rewrite Nat2Z.id, Htk. cbv zeta. split; [apply uranges_sorted|]. split.
  - intros b. rewrite list_elem_of_fmap. split.
    + intros (u & -> & Hu'). destruct (uranges_elem rs d u Hu') as (r & Hr & -> & ->). exists r. by destruct (rng r d).
    + intros (r & Hr & <-). destruct (elem_uranges rs d r Hr) as (u & Hin & E1 & E2). exists u. rewrite E1, E2.
      by destruct (rng r d).
  - intros P. apply uranges_wsum.
Qed.

Definition two_rules : rule_set_t :=
  mk_rs 2 2 (replicate 2 (mk_rule 3 [(4, 9); (0, 5); (7, 7); (8, 8); (6, 6)])).

Lemma scratch_ranges_exact_witness :
  ∃ l1 l2 k, load_ranges two_rules 0 (replicate 3 (mk_r1 0 0 0)) = Ok l1 ∧
    unique_ranges (qsort_ranges l1 2) 2 = Ok (l2, k) ∧ length l2 = 3%nat ∧
    wsum (λ _ _, true) (take (Z.to_nat k) l2) = 2.
Proof.
  destruct (scratch_ranges_exact two_rules 0 (replicate 3 (mk_r1 0 0 0))) as (l1 & l2 & k & H1 & H2 & H3 & _ & _ & H4).
  - split; [split; [split; [discriminate|discriminate]|reflexivity]|].
    apply Forall_forall. intros r Hr. change (r ∈ replicate 2 (mk_rule 3 [(4, 9); (0, 5); (7, 7); (8, 8); (6, 6)])) in Hr.
    apply elem_of_replicate_inv in Hr as ->.
    split; [reflexivity|]. split; [|split; [discriminate|reflexivity]].
    intros d Hd. unfold DIM in Hd.
    assert (d = 0 ∨ d = 1 ∨ d = 2 ∨ d = 3 ∨ d = 4) as [->|[->|[->|[->| ->]]]] by lia;
      (split; [split; discriminate|reflexivity]).
  - split; [reflexivity|discriminate].
  - reflexivity.
  - exists l1, l2, k. split; [exact H1|]. split; [exact H2|]. split; [exact H3|].
    rewrite H4. reflexivity.
Defined.

(** * Heaps of ranges

    Both sweeps keep the open ranges in a heap ordered by the end of the range
    ([aux_heap_less]); the heap operations on them, with memory always available. *)

#[global] Instance aux_heap_less_strict_weak : StrictWeak aux_heap_less.
Proof. exact (less_key_strict_weak high). Qed.

(** A heap of open ranges between the calls: well formed, ordered by the end. *)
Definition range_heap (h : heap range1d) : Prop := heap_ok h ∧ less h = aux_heap_less.

Section pop.
Context `{AllocTotal}.

Lemma range_heap_push h r :
  range_heap h → ∃ h', heap_push h r = Ok (h', 0) ∧ range_heap h' ∧
    hlen h' = S (hlen h) ∧ contents h' ≡ₚ r :: contents h.
Proof.
  intros [Hok Hl]. destruct (heap_push_ok h r Hok alloc_total) as (h' & Hp & Hok' & Hl' & Hn & Hc).
  exists h'. split; [done|]. split; [split; [done|congruence]|]. done.
Qed.

Lemma range_heap_pop h :
  range_heap h → hlen h ≠ 0%nat → ∃ h' x, heap_peek h = Ok x ∧ heap_pop h = Ok (h', Some x) ∧
    range_heap h' ∧ hlen h = S (hlen h') ∧ contents h ≡ₚ x :: contents h' ∧
    ∀ y, y ∈ contents h → high x ≤ high y.
Proof.
  intros [Hok Hl] Hn. destruct (heap_pop_ok h Hok alloc_total) as (h' & x & Hp & Hk & Hok' & Hl' & Hn' & Hc); [lia|].
  destruct (heap_peek_ok h Hok) as (x' & Hk' & _ & Hmin); [lia|].
  assert (x' = x) as -> by congruence. exists h', x.
  split; [done|]. split; [done|]. split; [split; [done|congruence]|]. split; [done|]. split; [done|].
  intros y Hy. specialize (Hmin y Hy). unfold hle in Hmin. rewrite Hl in Hmin.
  unfold aux_heap_less in Hmin. by apply Z.ltb_ge in Hmin.
Qed.

Lemma range_heap_empty h : range_heap h → hlen h = 0%nat ↔ contents h = [].
Proof.
  intros [Hok _]. rewrite <- (contents_length h Hok). split; [apply nil_length_inv|by intros ->].
Qed.

Lemma heap_weight_wsum h : heap_weight h = wsum (λ _ _, true) (contents h).
Proof.
  unfold heap_weight, contents. rewrite <- (Z.add_0_l (wsum _ _)). generalize 0.
  induction (take (hlen h) (data h)) as [|r l IH]; intros z; simpl.
  - unfold wsum. simpl. lia.
  - rewrite IH. unfold wsum. simpl. lia.
Qed.
End pop.
