(* ===== verification/HiSweep.v ===== *)
(** * The sweep of the equal-size cut

    [hi_get_me_1d] divides the span of the ranges into segments and closes them
    from left to right.  The theory shows that the sweep ends, that the children
    it opens partition the segments, and that the counts of the histogram are
    exact: the weight of the ranges that meet the segments of a child. *)
From S2P Require Import Prelude.
From S2P Require Import Rule.
From S2P Require Import Ranges.
From S2P Require Import Heap.
From S2P Require Import Double.
From S2P Require Import CutInl.
From S2P Require Import CutBitmap.
From S2P Require Import LoadRanges.
From S2P Require Import CutHi.
#[local] Open Scope Z_scope.

Section pop.
Context `{AllocTotal}.

(** [wsum] of a filtered list never exceeds the whole. *)
Lemma wsum_le P l : Forall (λ r, 0 ≤ weight r) l → wsum P l ≤ wsum (λ _ _, true) l.
Proof. induction 1; simpl; [lia|]. destruct (P _ _); lia. Qed.

Lemma s32_small z : - 2 ^ 31 ≤ z < 2 ^ 31 → s32 z = z.
Proof. intros Hz. unfold s32. rewrite Z.mod_small; lia. Qed.

Lemma wsum_cons P r l : wsum P (r :: l) = (if P (low r) (high r) then weight r else 0) + wsum P l.
Proof. done. Qed.

Definition ends_below (curr : Z) (a b : Z) : bool := b <? curr.

(** The inner while loop: pops exactly the ranges that end before [curr]. *)
Lemma pop_below_spec fuel curr h rl nw :
  range_heap h → (hlen h ≤ fuel)%nat → Forall (λ r, 0 ≤ weight r) (contents h) →
  0 ≤ rl → rl + wsum (λ _ _, true) (contents h) < 2 ^ 31 →
  ∃ h', pop_below fuel curr h rl nw =
      Ok (h', rl + wsum (ends_below curr) (contents h), nw || existsb (λ r, high r <? curr) (contents h)) ∧
    range_heap h' ∧ contents h' ≡ₚ filter (λ r, curr ≤ high r) (contents h).
Proof.
  revert h rl nw. induction fuel as [|fuel IH]; intros h rl nw Hh Hf Hw Hr Hb; cbn [pop_below].
  - assert (Hz : hlen h = 0%nat) by lia. rewrite Hz. cbn [Nat.eqb].
    apply (range_heap_empty h Hh) in Hz. rewrite Hz. exists h. simpl. rewrite orb_false_r, Z.add_0_r.
    by rewrite Hz.
  - destruct (Nat.eqb_spec (hlen h) 0) as [Hz|Hz].
    { apply (range_heap_empty h Hh) in Hz. rewrite Hz. exists h. simpl. rewrite orb_false_r, Z.add_0_r.
      by rewrite Hz. }
    destruct (range_heap_pop h Hh Hz) as (h1 & x & Hpk & Hpop & Hh1 & Hn & Hc & Hmin).
    rewrite Hpk. cbn [mbind res_bind]. destruct (Z.ltb_spec (high x) curr) as [Hlt|Hge].
    + rewrite Hpop. cbn [mbind res_bind].
      assert (Hw1 : Forall (λ r, 0 ≤ weight r) (x :: contents h1)) by (by rewrite <- Hc).
      apply Forall_cons in Hw1 as [Hwx Hw1].
      rewrite (wsum_perm _ _ _ Hc) in Hb. rewrite wsum_cons in Hb.
      pose proof (wsum_nonneg (λ _ _, true) _ Hw1).
      rewrite s32_small by lia.
      destruct (IH h1 (rl + weight x) true) as (h' & Hp & Hh' & Hc'); [done|lia|done|lia|lia|].
      exists h'. rewrite Hp. split; [|split; [done|]].
      * f_equal. f_equal; [f_equal|].
        -- rewrite (wsum_perm _ _ _ Hc). rewrite wsum_cons.
           unfold ends_below at 2. rewrite (proj2 (Z.ltb_lt _ _)) by done. lia.
        -- symmetry. simpl. apply orb_true_iff. right. apply existsb_exists. exists x.
           split; [|by apply Z.ltb_lt]. apply list_elem_of_In. rewrite Hc. left.
      * rewrite Hc', Hc. rewrite filter_cons_False by lia. done.
    + exists h. assert (Hall : ∀ y, y ∈ contents h → curr ≤ high y).
      { intros y Hy. specialize (Hmin y Hy). lia. }
      split; [|split; [done|]].
      * f_equal. f_equal; [f_equal|].
        -- rewrite (wsum_ext _ (λ _ _, false)).
           2:{ intros y Hy. apply Z.ltb_ge. by apply Hall. }
           clear. induction (contents h); simpl; lia.
        -- assert (existsb (λ r, high r <? curr) (contents h) = false) as ->; [|by rewrite orb_false_r].
           apply not_true_is_false. intros (y & Hy%list_elem_of_In & Hlt%Z.ltb_lt)%existsb_exists.
           specialize (Hall y Hy). lia.
      * by rewrite filter_all.
Qed.
End pop.

(** ** Segments

    [R] are the distinct ranges in order, [lo] is where the span starts, [seg] the
    length and [div] the number of the segments. *)
Record sweep_input (R : list range1d) (lo seg div : Z) : Prop := {
  si_sorted : StronglySorted range_lt R;
  si_first : ∃ r0 R', R = r0 :: R' ∧ low r0 = lo;
  si_bounds : ∀ r, r ∈ R → lo ≤ low r ≤ high r ∧ high r < lo + div * seg ∧ high r < 2 ^ 32;
  si_weights : Forall (λ r, 0 ≤ weight r) R;
  si_total : wsum (λ _ _, true) R < 2 ^ 31;
  si_lo : 0 ≤ lo;
  si_seg : 1 ≤ seg ≤ 2 ^ 32;
  si_div : 1 ≤ div ≤ 64 }.

Section segments.
Context (R : list range1d) (lo seg div : Z) (Hin : sweep_input R lo seg div).

(** The segment of a value. *)
Definition sidx (x : Z) : Z := (x - lo) / seg.

Lemma sidx_le x j : x < lo + (j + 1) * seg ↔ sidx x ≤ j.
Proof.
  destruct Hin. unfold sidx. split; intros Hx.
  - assert ((x - lo) / seg < j + 1); [|lia]. apply Z.div_lt_upper_bound; lia.
  - pose proof (Z.div_mod (x - lo) seg ltac:(lia)) as Hdm.
    pose proof (Z.mod_pos_bound (x - lo) seg ltac:(lia)). nia.
Qed.

Lemma sidx_mono x y : x ≤ y → sidx x ≤ sidx y.
Proof. destruct Hin. intros. apply Z.div_le_mono; lia. Qed.

Lemma sidx_range r : r ∈ R → 0 ≤ sidx (low r) ≤ sidx (high r) ∧ sidx (high r) < div.
Proof.
  intros Hr. destruct (si_bounds _ _ _ _ Hin r Hr) as (? & Hh & _). split; [split|].
  - apply Z.div_pos; destruct Hin; lia.
  - apply sidx_mono. lia.
  - assert (sidx (high r) ≤ div - 1); [|lia]. apply sidx_le. lia.
Qed.

(** The range meets the segments [a .. b]; it meets segment [j]. *)
Definition meets (a b : Z) (l h : Z) : bool := (sidx l <=? b) && (a <=? sidx h).
Definition ov (j : Z) : Z → Z → bool := meets j j.

(** The children opened so far: [c] of them, over the segments up to [last]. *)
Record parts (nr : list (Z * Z)) (c last : Z) : Prop := {
  parts_len : zlen nr = 64;
  parts_c : 0 ≤ c ≤ last + 1;
  parts_none : c = 0 → last = -1;
  parts_seg k : 0 ≤ k < c → (anth nr k).1 ≤ (anth nr k).2 ∧
    (anth nr k).1 = if k =? 0 then 0 else (anth nr (k - 1)).2 + 1;
  parts_last : 0 < c → (anth nr (c - 1)).2 = last }.

(** The counts are exact, and all segments of a child see the same ranges. *)
Definition counts_ok (cnts : list Z) (nr : list (Z * Z)) (c : Z) : Prop :=
  zlen cnts = 127 ∧ ∀ k, 0 ≤ k < c →
    anth cnts k = wsum (ov (anth nr k).1) R ∧
    ∀ s r, r ∈ R → (anth nr k).1 ≤ s ≤ (anth nr k).2 →
      ov s (low r) (high r) = ov (anth nr k).1 (low r) (high r).

Definition still_open (j : Z) (l h : Z) : bool := j <=? sidx h.

(** Invariant of the loop: [j] segments are closed. *)
Record hinv (j : Z) (s : hsweep) : Prop := {
  hv_j : 0 ≤ j ≤ div;
  hv_curr : hs_curr s = lo + (j + 1) * seg;
  hv_i : 1 ≤ hs_i s ≤ zlen R;
  hv_heap : range_heap (hs_h s);
  hv_cont : contents (hs_h s) ≡ₚ
    filter (λ r, Is_true (still_open j (low r) (high r))) (take (Z.to_nat (hs_i s)) R);
  hv_low r : r ∈ take (Z.to_nat (hs_i s)) R → sidx (low r) ≤ j;
  hv_rest r : r ∈ drop (Z.to_nat (hs_i s)) R → j ≤ sidx (low r);
  hv_start r : hs_new_start s = false → 1 ≤ j → r ∈ take (Z.to_nat (hs_i s)) R → sidx (low r) ≤ j - 1;
  hv_ends : hs_prev_new_ends s = false →
    1 ≤ j ∧ ∀ r, r ∈ R → sidx (low r) ≤ j - 1 → sidx (high r) ≠ j - 1;
  hv_parts : parts (hs_node_r s) (hs_childs s) (j - 1);
  hv_counts : counts_ok (child_rulecount (hs_hist s)) (hs_node_r s) (hs_childs s) }.

Lemma take_drop_elem (i : nat) r : r ∈ R → r ∈ take i R ∨ r ∈ drop i R.
Proof. intros Hr. rewrite <- (take_drop i R) in Hr. by apply elem_of_app in Hr. Qed.

(** The ranges in the heap are those that meet the current segment. *)
Lemma open_weight j i :
  (∀ r, r ∈ take i R → sidx (low r) ≤ j) → (∀ r, r ∈ drop i R → j + 1 ≤ sidx (low r)) →
  wsum (λ _ _, true) (filter (λ r, Is_true (still_open j (low r) (high r))) (take i R)) = wsum (ov j) R.
Proof.
  intros Hl Hd. rewrite wsum_filter. rewrite <- (take_drop i R) at 2. rewrite wsum_app.
  rewrite (wsum_ext (ov j) (λ _ _, false) (drop i R)).
  2:{ intros r Hr. specialize (Hd r Hr). unfold ov, meets. zbool. }
  assert (wsum (λ _ _, false) (drop i R) = 0) as ->.
  { clear. induction (drop i R); simpl; lia. }
  rewrite Z.add_0_r. apply wsum_ext. intros r Hr. specialize (Hl r Hr). unfold ov, meets, still_open.
  zbool.
Qed.

(** ** Closing a segment *)

(** A child is opened. *)
Lemma open_child_inv j s rl :
  0 ≤ j < 64 → parts (hs_node_r s) (hs_childs s) (j - 1) →
  counts_ok (child_rulecount (hs_hist s)) (hs_node_r s) (hs_childs s) → rl = wsum (ov j) R →
  ∃ c hst nr, open_child rl s = Ok (c, hst, nr) ∧ parts nr c j ∧ counts_ok (child_rulecount hst) nr c ∧ 0 < c.
Proof.
  intros Hj [Hlen Hc Hnone Hseg Hlast] [Hcl Hcn] ->. unfold open_child.
  set (nr := hs_node_r s) in *. set (c := hs_childs s) in *. set (cnts := child_rulecount (hs_hist s)) in *.
  rewrite aset_in by lia. cbn [mbind res_bind].
  assert (Hst : (if c =? 0 then Ok 0 else '(_, e) ← aget nr (c - 1); Ok (u8 (e + 1))) = Ok j).
  { destruct (Z.eqb_spec c 0) as [H0|H0]; [specialize (Hnone H0); f_equal; lia|].
    rewrite (aget_lookup nr (c - 1) (anth nr (c - 1)))
      by (lia || (apply list_lookup_lookup_total_lt; unfold zlen in Hlen; lia)).
    cbn [mbind res_bind]. specialize (Hlast ltac:(lia)). destruct (anth nr (c - 1)) as [a e]; simpl in *.
    unfold u8. rewrite Z.mod_small by lia. f_equal; lia. }
  rewrite Hst. cbn [mbind res_bind]. rewrite aset_in by lia. cbn [mbind res_bind].
  eexists _, _, _. split; [done|]. cbn [child_rulecount].
  assert (Hself : anth (<[Z.to_nat c := (j, j)]> nr) c = (j, j)).
  { apply list_lookup_total_insert_eq. unfold zlen in Hlen. lia. }
  assert (Hother : ∀ k, 0 ≤ k < c → anth (<[Z.to_nat c := (j, j)]> nr) k = anth nr k).
  { intros k Hk. apply list_lookup_total_insert_ne. lia. }
  split; [split|split; [split|lia]].
  - by rewrite zlen_insert.
  - lia.
  - lia.
  - intros k Hk. destruct (decide (k = c)) as [->|Hne].
    + rewrite Hself. cbn [fst snd]. split; [lia|]. destruct (Z.eqb_spec c 0) as [H0|H0]; [specialize (Hnone H0); lia|].
      rewrite Hother by lia. rewrite Hlast by lia. lia.
    + rewrite Hother by lia. destruct (Hseg k ltac:(lia)) as [? Hk1]. split; [done|]. rewrite Hk1.
      destruct (Z.eqb_spec k 0); [done|]. by rewrite Hother by lia.
  - intros _. replace (c + 1 - 1) with c by lia. by rewrite Hself.
  - by rewrite zlen_insert.
  - intros k Hk. destruct (decide (k = c)) as [->|Hne].
    + rewrite Hself. cbn [fst snd]. unfold anth. rewrite list_lookup_total_insert_eq by (unfold zlen in Hcl; lia).
      split; [done|]. intros s' r Hr Hs. by replace s' with j by lia.
    + rewrite Hother by lia. unfold anth at 1. rewrite list_lookup_total_insert_ne by lia. apply Hcn. lia.
Qed.

(** The last child is extended: the segment sees the same ranges. *)
Lemma extend_child_inv j s :
  1 ≤ j < 64 → parts (hs_node_r s) (hs_childs s) (j - 1) →
  counts_ok (child_rulecount (hs_hist s)) (hs_node_r s) (hs_childs s) →
  (∀ r, r ∈ R → ov j (low r) (high r) = ov (j - 1) (low r) (high r)) →
  ∃ c hst nr, extend_child s = Ok (c, hst, nr) ∧ parts nr c j ∧ counts_ok (child_rulecount hst) nr c ∧ 0 < c.
Proof.
  intros Hj [Hlen Hc Hnone Hseg Hlast] [Hcl Hcn] Hsame. unfold extend_child.
  set (nr := hs_node_r s) in *. set (c := hs_childs s) in *. set (cnts := child_rulecount (hs_hist s)) in *.
  assert (Hc1 : 0 < c) by (destruct (decide (c = 0)) as [H0|]; [specialize (Hnone H0)|]; lia).
  rewrite (aget_lookup nr (c - 1) (anth nr (c - 1)))
    by (lia || (apply list_lookup_lookup_total_lt; unfold zlen in Hlen; lia)).
  cbn [mbind res_bind]. specialize (Hlast Hc1).
  destruct (Hseg (c - 1) ltac:(lia)) as [Hab Hstart]. destruct (Hcn (c - 1) ltac:(lia)) as [Hcnt Hall].
  destruct (anth nr (c - 1)) as [a e] eqn:Elast; simpl in Hlast, Hab, Hstart, Hcnt, Hall.
  rewrite aset_in by lia. cbn [mbind res_bind]. unfold u8. rewrite Z.mod_small by lia.
  replace (e + 1) with j by lia. eexists _, _, _. split; [done|].
  assert (Hself : anth (<[Z.to_nat (c - 1) := (a, j)]> nr) (c - 1) = (a, j)).
  { apply list_lookup_total_insert_eq. unfold zlen in Hlen. lia. }
  assert (Hother : ∀ k, 0 ≤ k < c - 1 → anth (<[Z.to_nat (c - 1) := (a, j)]> nr) k = anth nr k).
  { intros k Hk. apply list_lookup_total_insert_ne. lia. }
  split; [split|split; [split; [done|]|done]].
  - by rewrite zlen_insert.
  - lia.
  - lia.
  - intros k Hk. destruct (decide (k = c - 1)) as [->|Hne].
    + rewrite Hself. cbn [fst snd]. split; [lia|]. etrans; [apply Hstart|].
      destruct (Z.eqb_spec (c - 1) 0); [done|]. by rewrite Hother by lia.
    + rewrite Hother by lia. destruct (Hseg k ltac:(lia)) as [? Hk1]. split; [done|]. rewrite Hk1.
      destruct (Z.eqb_spec k 0); [done|]. by rewrite Hother by lia.
  - intros _. by rewrite Hself.
  - intros k Hk. destruct (decide (k = c - 1)) as [->|Hne].
    + rewrite Hself. cbn [fst snd]. split; [done|]. intros s' r Hr Hs.
      destruct (decide (s' = j)) as [->|]; [|apply Hall; [done|lia]].
      rewrite Hsame by done. apply Hall; [done|lia].
    + rewrite Hother by lia. apply Hcn. lia.
Qed.

Context `{AllocTotal}.

(** All the ranges behind a given one start at least as late. *)
Lemma sorted_rest (i : nat) r r' : R !! i = Some r → r' ∈ drop i R → low r ≤ low r'.
Proof.
  intros Hr Hd. pose proof (si_sorted _ _ _ _ Hin) as Hs.
  rewrite (drop_S R r i Hr) in Hd. apply elem_of_cons in Hd as [->|Hd]; [lia|].
  rewrite <- (take_drop i R), (drop_S R r i Hr) in Hs.
  apply StronglySorted_app in Hs as (_ & _ & Hs). apply StronglySorted_cons in Hs as [Hs _].
  rewrite Forall_forall in Hs. specialize (Hs r' Hd). unfold range_lt in Hs. lia.
Qed.

Lemma push_inv j s r :
  hinv j s → j < div → R !! Z.to_nat (hs_i s) = Some r → low r < hs_curr s →
  ∃ h, heap_push (hs_h s) r = Ok (h, 0) ∧
    hinv j (mk_hsweep (hs_i s + 1) (hs_curr s) (hs_childs s) (hs_hist s) (hs_node_r s) h
              (hs_prev_new_ends s) true).
Proof.
  intros [Hj Hcurr Hi Hh Hc Hl Hr Hst He Hp Hcn] Hjd Hri Hlt.
  destruct (range_heap_push (hs_h s) r Hh) as (h & Hpush & Hh' & _ & Hc'). exists h. split; [done|].
  assert (Hn : (Z.to_nat (hs_i s) < length R)%nat) by (by eapply lookup_lt_Some).
  rewrite Hcurr in Hlt. apply sidx_le in Hlt.
  assert (HrR : r ∈ R) by (by eapply list_elem_of_lookup_2).
  pose proof (Hr r) as Hjr. rewrite (drop_S R r _ Hri) in Hjr. specialize (Hjr ltac:(left)).
  pose proof (sidx_range r HrR).
  assert (Htk : take (Z.to_nat (hs_i s + 1)) R = take (Z.to_nat (hs_i s)) R ++ [r]).
  { replace (Z.to_nat (hs_i s + 1)) with (S (Z.to_nat (hs_i s))) by lia. by apply take_S_snoc. }
  split; cbn [hs_curr hs_i hs_h hs_new_start hs_prev_new_ends hs_node_r hs_childs hs_hist]; try done.
  - unfold zlen. lia.
  - rewrite Hc', Htk, filter_app, filter_cons_True, Hc.
    + by rewrite Permutation_app_comm.
    + unfold still_open. rewrite (proj2 (Z.leb_le _ _)); [done|lia].
  - intros r'. rewrite Htk. intros [?| ->%list_elem_of_singleton]%elem_of_app; auto.
  - intros r' Hr'. apply Hr. rewrite (drop_S R r _ Hri). right.
    by replace (S (Z.to_nat (hs_i s))) with (Z.to_nat (hs_i s + 1)) by lia.
Qed.

Lemma end_segment_inv j s :
  hinv j s → j < div → (∀ r, r ∈ drop (Z.to_nat (hs_i s)) R → j + 1 ≤ sidx (low r)) →
  ∃ s', end_segment seg s = Ok s' ∧ hinv (j + 1) s' ∧ hs_i s' = hs_i s.
Proof.
  intros [Hj Hcurr Hi Hh Hc Hl Hr Hst He Hp Hcn] Hjd Hrest.
  pose proof (si_weights _ _ _ _ Hin) as Hw. destruct (si_div _ _ _ _ Hin) as [_ Hd64].
  destruct (si_seg _ _ _ _ Hin). pose proof (si_lo _ _ _ _ Hin).
  set (i := Z.to_nat (hs_i s)) in *.
  pose proof (open_weight j i Hl Hrest) as Hov. rewrite <- (wsum_perm _ _ _ Hc) in Hov.
  assert (Hwc : Forall (λ r, 0 ≤ weight r) (contents (hs_h s))).
  { rewrite Hc. apply Forall_forall. intros r [_ Hr1]%list_elem_of_filter.
    rewrite Forall_forall in Hw. apply Hw. by eapply elem_of_take in Hr1 as (?&?&?); eapply list_elem_of_lookup_2. }
  pose proof (wsum_le (ov j) R Hw) as Hle. pose proof (si_total _ _ _ _ Hin) as Htot.
  unfold end_segment.
  destruct (pop_below_spec (hlen (hs_h s)) (hs_curr s) (hs_h s) 0 false) as (h' & Hpop & Hh' & Hc');
    [done|lia|done|lia|lia|].
  rewrite Hpop. cbn [mbind res_bind orb].
  (* the popped and the open ranges together *)
  assert (Hsum : wsum (ends_below (hs_curr s)) (contents (hs_h s)) + heap_weight h' = wsum (ov j) R).
  { rewrite heap_weight_wsum, (wsum_perm _ _ _ Hc'), <- Hov.
    rewrite (filter_ext_in _ (λ r, Is_true (negb (ends_below (hs_curr s) (low r) (high r))))).
    2:{ intros r _. unfold ends_below. rewrite Is_true_true, negb_true_iff, Z.ltb_ge. done. }
    rewrite (wsum_filter _ (λ a b, negb (ends_below (hs_curr s) a b))). symmetry.
    apply wsum_add. intros a b. by destruct (ends_below _ a b). }
  rewrite Z.add_0_l, Hsum.
  assert (Hov0 : 0 ≤ wsum (ov j) R) by (by apply wsum_nonneg). rewrite s32_small by lia.
  assert (Hchild : ∃ c hst nr,
    (if hs_new_start s || hs_prev_new_ends s then open_child (wsum (ov j) R) s else extend_child s) =
      Ok (c, hst, nr) ∧ parts nr c j ∧ counts_ok (child_rulecount hst) nr c ∧ 0 < c).
  { destruct (hs_new_start s || hs_prev_new_ends s) eqn:Enew.
    - apply open_child_inv; [lia|done..].
    - apply orb_false_iff in Enew as [En1 En2]. destruct (He En2) as [Hj1 Hnoend].
      apply extend_child_inv; [lia|done..|]. intros r HrR. apply eq_true_iff_eq. unfold ov, meets.
      rewrite !andb_true_iff, !Z.leb_le. split.
      + intros [Ha1 Ha2]. destruct (take_drop_elem i r HrR) as [Htk|Hdr].
        * specialize (Hst r En1 Hj1 Htk). lia.
        * specialize (Hrest r Hdr). lia.
      + intros [Ha1 Ha2]. specialize (Hnoend r HrR Ha1). lia. }
  destruct Hchild as (c & hst & nr & -> & Hp' & Hcn' & Hc0). cbn [mbind res_bind].
  eexists. split; [done|]. split; [|done].
  split; cbn [hs_curr hs_i hs_h hs_new_start hs_prev_new_ends hs_node_r hs_childs hs_hist]; try done.
  - lia.
  - rewrite Hcurr. unfold u64. rewrite Z.mod_small; [lia|].
    pose proof (si_first _ _ _ _ Hin) as (r0 & R' & HR0 & Hr0).
    destruct (si_bounds _ _ _ _ Hin r0) as (? & _ & ?); [rewrite HR0; left|]. nia.
  - rewrite Hc', Hc, list_filter_filter. apply Permutation_refl'. apply filter_ext_in. intros r Hr1.
    rewrite !Is_true_true. unfold still_open. rewrite !Z.leb_le, Hcurr.
    pose proof (sidx_le (high r) j) as Hsl. fold i. lia.
  - fold i. intros r Hr1. specialize (Hl r Hr1). lia.
  - fold i. intros r _ _ Hr1. specialize (Hl r Hr1). lia.
  - intros Hnone. split; [lia|]. intros r HrR Hlr Hhr.
    replace (j + 1 - 1) with j in * by lia.
    destruct (take_drop_elem i r HrR) as [Htk|Hdr]; [|specialize (Hrest r Hdr); lia].
    assert (Hex : existsb (λ r, high r <? hs_curr s) (contents (hs_h s)) = true); [|congruence].
    apply existsb_exists. exists r. split.
    + apply list_elem_of_In. rewrite Hc. apply list_elem_of_filter. split; [|done].
      unfold still_open. rewrite (proj2 (Z.leb_le _ _)); [done|lia].
    + apply Z.ltb_lt. rewrite Hcurr. apply sidx_le. lia.
  - by replace (j + 1 - 1) with j by lia.
Qed.

(** ** The loop ends *)
Context (ranges : list range1d) (Hranges : take (length R) ranges = R).

Lemma ranges_get i : 0 ≤ i < zlen R → ∃ r, aget ranges i = Ok r ∧ R !! Z.to_nat i = Some r.
Proof.
  intros Hi. unfold zlen in Hi. destruct (lookup_lt_is_Some_2 R (Z.to_nat i)) as [r Hr]; [lia|].
  exists r. split; [|done]. apply aget_lookup; [lia|]. rewrite <- Hranges in Hr.
  by apply lookup_take_Some in Hr as [? _].
Qed.

Lemma hi_loop_spec fuel j s :
  hinv j s → zlen R - hs_i s + (div - j) < Z.of_nat fuel →
  ∃ j' s', hi_loop fuel ranges (zlen R) seg s = Ok s' ∧ hinv j' s' ∧
    (∀ r, r ∈ R → sidx (high r) < j') ∧ contents (hs_h s') = [].
Proof.
  revert j s. induction fuel as [|fuel IH]; intros j s Hv Hf.
  { destruct (hv_j _ _ Hv). pose proof (hv_i _ _ Hv). lia. }
  pose proof (hv_i _ _ Hv) as Hi. pose proof (hv_j _ _ Hv) as Hj.
  pose proof (hv_heap _ _ Hv) as Hh. pose proof (hv_cont _ _ Hv) as Hcont.
  cbn [hi_loop]. destruct ((hs_i s <? zlen R) || negb (hlen (hs_h s) =? 0)%nat) eqn:Econd.
  - assert (Hjd : j < div).
    { destruct (decide (j = div)) as [->|]; [exfalso|lia].
      apply orb_true_iff in Econd as [Hlt%Z.ltb_lt|Hne%negb_true_iff%Nat.eqb_neq].
      - destruct (lookup_lt_is_Some_2 R (Z.to_nat (hs_i s))) as [r Hr]; [unfold zlen in *; lia|].
        pose proof (hv_rest _ _ Hv r) as Hrest. rewrite (drop_S R r _ Hr) in Hrest.
        specialize (Hrest ltac:(left)). pose proof (sidx_range r ltac:(by eapply list_elem_of_lookup_2)). lia.
      - apply Hne. apply (range_heap_empty _ Hh). destruct (contents (hs_h s)) as [|r k]; [done|exfalso].
        assert (Hr : r ∈ r :: k) by left. rewrite Hcont in Hr.
        apply list_elem_of_filter in Hr as [Ho Hr]. apply Is_true_true, Z.leb_le in Ho.
        assert (HrR : r ∈ R) by (apply elem_of_take in Hr as (? & ? & _); by eapply list_elem_of_lookup_2).
        pose proof (sidx_range r HrR). lia. }
    assert (Hclose : (∀ r, r ∈ drop (Z.to_nat (hs_i s)) R → j + 1 ≤ sidx (low r)) →
      ∃ j' s', (s' ← end_segment seg s; hi_loop fuel ranges (zlen R) seg s') = Ok s' ∧ hinv j' s' ∧
        (∀ r, r ∈ R → sidx (high r) < j') ∧ contents (hs_h s') = []).
    { intros Hrest. destruct (end_segment_inv j s Hv Hjd Hrest) as (s' & -> & Hv' & Hi'). cbn [mbind res_bind].
      apply (IH (j + 1)); [done|lia]. }
    destruct (Z.ltb_spec (hs_i s) (zlen R)) as [Hlt|Hge].
    + destruct (ranges_get (hs_i s)) as (r & -> & Hr); [lia|]. cbn [mbind res_bind].
      destruct (Z.ltb_spec (low r) (hs_curr s)) as [Hlow|Hlow].
      * destruct (push_inv j s r Hv Hjd Hr Hlow) as (h & -> & Hv'). cbn [mbind res_bind].
        apply (IH j); [done|]. cbn [hs_i]. lia.
      * apply Hclose. intros r' Hr'. pose proof (sorted_rest _ _ _ Hr Hr') as Hrr.
        rewrite (hv_curr _ _ Hv) in Hlow. pose proof (sidx_le (low r') j). lia.
    + cbn [mbind res_bind]. apply Hclose. intros r'.
      rewrite drop_ge by (unfold zlen in *; lia). by intros ?%elem_of_nil.
  - apply orb_false_iff in Econd as [Hge%Z.ltb_ge Hz%negb_false_iff%Nat.eqb_eq].
    exists j, s. split; [done|]. split; [done|]. apply (range_heap_empty _ Hh) in Hz. split; [|done].
    intros r Hr. rewrite Hz in Hcont. symmetry in Hcont. apply Permutation_nil_r in Hcont.
    assert (Hn : r ∉ filter (λ r, Is_true (still_open j (low r) (high r))) (take (Z.to_nat (hs_i s)) R)).
    { rewrite Hcont. apply not_elem_of_nil. }
    rewrite list_elem_of_filter, take_ge in Hn by (unfold zlen in *; lia).
    apply Z.nle_gt. intros Hle. apply Hn. split; [|done]. apply Is_true_true. by apply Z.leb_le.
Qed.

(** The ranges that meet the segments of a child are those that meet its first one. *)
Lemma wsum_meets a b :
  a ≤ b → (∀ s r, r ∈ R → a ≤ s ≤ b → ov s (low r) (high r) = ov a (low r) (high r)) →
  wsum (ov a) R = wsum (meets a b) R.
Proof.
  intros Hab Hall. apply wsum_ext. intros r Hr. pose proof (sidx_range r Hr).
  specialize (Hall (Z.max a (sidx (low r))) r Hr). unfold ov, meets in *.
  destruct (decide (sidx (low r) ≤ b)); [specialize (Hall ltac:(lia))|]; revert Hall; zbool.
Qed.

Lemma sweep_start h r0 :
  range_heap h → contents h ≡ₚ [r0] → (∃ R', R = r0 :: R') → low r0 = lo →
  hinv 0 (mk_hsweep 1 (u64 (lo + seg)) 0 zero_hist (replicate 64 (0, 0)) h true false).
Proof.
  intros Hh Hc [R' HR] Hlo. assert (Hr0 : r0 ∈ R) by (rewrite HR; left).
  pose proof (sidx_range r0 Hr0) as Hs0. destruct (si_seg _ _ _ _ Hin). pose proof (si_lo _ _ _ _ Hin).
  destruct (si_bounds _ _ _ _ Hin r0 Hr0) as (? & _ & ?). destruct (si_div _ _ _ _ Hin).
  split; cbn [hs_curr hs_i hs_h hs_new_start hs_prev_new_ends hs_node_r hs_childs hs_hist]; try done.
  - lia.
  - unfold u64. rewrite Z.mod_small; lia.
  - rewrite HR. unfold zlen. simpl. lia.
  - rewrite Hc, HR. change (Z.to_nat 1) with 1%nat. simpl take. rewrite take_0.
    rewrite filter_cons_True; [done|]. unfold still_open. rewrite (proj2 (Z.leb_le _ _)); [done|lia].
  - rewrite HR. change (Z.to_nat 1) with 1%nat. simpl take. rewrite take_0.
    intros r ->%list_elem_of_singleton. unfold sidx. rewrite Hlo, Z.sub_diag, Zdiv_0_l. done.
  - intros r Hr. apply sidx_range. rewrite <- (take_drop (Z.to_nat 1) R). apply elem_of_app. by right.
  - split; try done; try lia.
  - split; [done|]. lia.
Qed.

(** [hi_get_me_1d] succeeds; its children partition the segments and the counts
    are exact. *)
Lemma hi_get_me_1d_spec h :
  range_heap h → contents h = [] →
  ∃ me hst nr h', hi_get_me_1d ranges (zlen R) lo seg h div = Ok (me, hst, nr, h') ∧
    range_heap h' ∧ contents h' = [] ∧ 0 < childs hst ∧ parts nr (childs hst) (div - 1) ∧
    zlen (child_rulecount hst) = 127 ∧
    ∀ k, 0 ≤ k < childs hst →
      anth (child_rulecount hst) k = wsum (meets (anth nr k).1 (anth nr k).2) R.
Proof.
  intros Hh Hc. destruct (si_first _ _ _ _ Hin) as (r0 & R' & HR & Hlo).
  destruct (si_div _ _ _ _ Hin) as [Hd1 Hd64].
  assert (Hr0 : r0 ∈ R) by (rewrite HR; left).
  unfold hi_get_me_1d. destruct (ranges_get 0) as (r & -> & Hr); [rewrite HR; unfold zlen; simpl; lia|].
  assert (r = r0) as -> by (rewrite HR in Hr; simpl in Hr; congruence). cbn [mbind res_bind].
  destruct (range_heap_push h r0 Hh) as (h1 & -> & Hh1 & _ & Hc1). cbn [mbind res_bind]. rewrite Hc in Hc1.
  destruct (hi_loop_spec (Z.to_nat (zlen R) + 65) 0
    (mk_hsweep 1 (u64 (lo + seg)) 0 zero_hist (replicate 64 (0, 0)) h1 true false))
    as (j & s & -> & Hv & Hend & Hcs).
  { eapply sweep_start; eauto. } { cbn [hs_i]. unfold zlen. lia. }
  cbn [mbind res_bind]. destruct Hv as [Hj _ _ Hhs _ _ _ _ _ [Hlen Hcb Hnone Hseg Hlast] [Hcl Hcn]].
  set (nr := hs_node_r s) in *. set (c := hs_childs s) in *. set (cnts := child_rulecount (hs_hist s)) in *.
  pose proof (sidx_range r0 Hr0). specialize (Hend r0 Hr0) as Hj1.
  assert (Hc0 : 0 < c) by (destruct (decide (c = 0)) as [Hz|]; [specialize (Hnone Hz)|]; lia).
  specialize (Hlast Hc0).
  rewrite (aget_lookup nr (c - 1) (anth nr (c - 1)))
    by (lia || (apply list_lookup_lookup_total_lt; unfold zlen in Hlen; lia)).
  cbn [mbind res_bind]. destruct (Hseg (c - 1) ltac:(lia)) as [Hab Hstart].
  destruct (Hcn (c - 1) ltac:(lia)) as [Hcnt Hall].
  destruct (anth nr (c - 1)) as [a e] eqn:Elast; simpl in Hlast, Hab, Hstart, Hcnt, Hall.
  rewrite aset_in by lia. cbn [mbind res_bind]. unfold u8. rewrite (Z.mod_small (div - 1)) by lia.
  assert (Hself : anth (<[Z.to_nat (c - 1) := (a, div - 1)]> nr) (c - 1) = (a, div - 1)).
  { apply list_lookup_total_insert_eq. unfold zlen in Hlen. lia. }
  assert (Hother : ∀ k, 0 ≤ k < c - 1 → anth (<[Z.to_nat (c - 1) := (a, div - 1)]> nr) k = anth nr k).
  { intros k Hk. apply list_lookup_total_insert_ne. lia. }
  eexists _, _, _, _. split; [done|]. cbn [childs child_rulecount].
  split; [done|]. split; [done|]. split; [done|]. split; [split|split; [done|]].
  - by rewrite zlen_insert.
  - lia.
  - lia.
  - intros k Hk. destruct (decide (k = c - 1)) as [->|Hne].
    + rewrite Hself. cbn [fst snd]. split; [lia|]. etrans; [apply Hstart|].
      destruct (Z.eqb_spec (c - 1) 0); [done|]. by rewrite Hother by lia.
    + rewrite Hother by lia. destruct (Hseg k ltac:(lia)) as [? Hk1]. split; [done|]. rewrite Hk1.
      destruct (Z.eqb_spec k 0); [done|]. by rewrite Hother by lia.
  - intros _. by rewrite Hself.
  - intros k Hk. destruct (decide (k = c - 1)) as [->|Hne].
    + rewrite Hself. cbn [fst snd]. rewrite Hcnt, (wsum_meets a e) by done.
      apply wsum_ext. intros r Hr'. pose proof (sidx_range r Hr'). specialize (Hend r Hr').
      unfold meets. zbool.
    + rewrite Hother by lia. destruct (Hcn k ltac:(lia)) as [Hck Hak].
      destruct (Hseg k ltac:(lia)) as [Habk _]. rewrite Hck. by apply wsum_meets.
Qed.
End segments.
