(* ===== verification/HiSpec.v ===== *)
(** * The equal-size cut is correct

    The cost routine leaves a division of the span whose children and counts
    describe the rules; cutting along it never fails an assertion, and the
    bitmap of boundaries leads a packet to the child of its segment. *)
From S2P Require Import Prelude.
From S2P Require Import Rule.
From S2P Require Import Classify.
From S2P Require Import Prefix.
From S2P Require Import Ranges.
From S2P Require Import Heap.
From S2P Require Import Double.
From S2P Require Import Darray.
From S2P Require Import MbNode.
From S2P Require Import CutInl.
From S2P Require Import Push.
From S2P Require Import CutBitmap.
From S2P Require Import CutHi.
From S2P Require Import Cut.
From S2P Require Import Tree.
From S2P Require Import LoadRanges.
From S2P Require Import HiSweep.
#[local] Open Scope Z_scope.

Lemma roundup_log2_spec n :
  0 < n < 2 ^ 31 → ∃ s, roundup_log2 n = Ok s ∧ 0 ≤ s ≤ 31 ∧ n ≤ 2 ^ s.
Proof.
  intros Hn. unfold roundup_log2, assert_. rewrite (proj2 (Z.eqb_neq n 0)) by lia. cbn [negb mbind res_bind].
  unfold clz32. pose proof (Z.log2_spec n ltac:(lia)) as [Hl1 Hl2]. pose proof (Z.log2_nonneg n).
  assert (Z.log2 n < 31) by (apply Z.log2_lt_pow2; lia).
  replace (32 - (31 - Z.log2 n)) with (Z.log2 n + 1) by lia.
  replace (Z.log2 n + 1 - 1) with (Z.log2 n) by lia. rewrite Z.shiftl_1_l.
  eexists. split; [done|]. destruct (Z.eqb_spec n (2 ^ Z.log2 n)); [lia|].
  rewrite <- Z.add_1_r in Hl2. lia.
Qed.

(** ** What the cost routine leaves for a dimension *)

(** The segments of child [k]. *)
Definition seg_lo (nr : list (Z * Z)) (k : Z) : Z := (anth nr k).1.
Definition seg_hi (nr : list (Z * Z)) (k : Z) : Z := (anth nr k).2.

(** The rules that reach into the segments of child [k]. *)
Definition meeting (d start shift : Z) (nr : list (Z * Z)) (k : Z) (l : list rule_t) : list rule_t :=
  filter (λ r, Is_true (meets start (2 ^ shift) (seg_lo nr k) (seg_hi nr k) (rng r d).1 (rng r d).2)) l.

Record hi_entry (rs : rule_set_t) (d start shift div : Z) (nr : list (Z * Z)) (h : rule_hist) : Prop := {
  he_start : 0 ≤ start;
  he_shift : 0 ≤ shift ≤ 31;
  he_div : 1 ≤ div ≤ 64;
  he_rules r : r ∈ live rs → start ≤ (rng r d).1 ∧ (rng r d).2 < start + div * 2 ^ shift;
  he_childs : 0 < childs h;
  he_parts : parts nr (childs h) (div - 1);
  he_len : zlen (child_rulecount h) = 127;
  he_counts k : 0 ≤ k < childs h →
    anth (child_rulecount h) k = zlen (meeting d start shift nr k (live rs)) }.

(** The scratch state of the method between calls. *)
Record hi_inv (aux : cut_aux) : Prop := {
  hai_heap : range_heap (ha_h (ca_hi aux));
  hai_empty : contents (ha_h (ca_hi aux)) = [];
  hai_room : zlen (item (ha_ranges (ca_hi aux))) < 2 ^ 31;
  hai_hist : length (ha_hist (ca_hi aux)) = 5%nat;
  hai_shift : length (ha_shift (ca_hi aux)) = 5%nat;
  hai_start : length (ha_start (ca_hi aux)) = 5%nat;
  hai_node_r : length (ha_node_r (ca_hi aux)) = 5%nat }.

(** The state holds a division for dimension [d]. *)
Definition hi_fresh (rs : rule_set_t) (d : Z) (ha : hi_aux) : Prop :=
  ∃ div, hi_entry rs d (anth (ha_start ha) d) (anth (ha_shift ha) d) div
           (anth (ha_node_r ha) d) (anth (ha_hist ha) d).

(** Two states with the same entry for dimension [d]. *)
Definition same_entry (d : Z) (a b : hi_aux) : Prop :=
  anth (ha_start a) d = anth (ha_start b) d ∧ anth (ha_shift a) d = anth (ha_shift b) d ∧
  anth (ha_node_r a) d = anth (ha_node_r b) d ∧ anth (ha_hist a) d = anth (ha_hist b) d.

Lemma same_entry_fresh rs d a b : same_entry d a b → hi_fresh rs d a → hi_fresh rs d b.
Proof. intros (E1 & E2 & E3 & E4) [div He]. exists div. by rewrite <- E1, <- E2, <- E3, <- E4. Qed.


Section hist.
Context `{AllocTotal}.
Context (rs : rule_set_t) (d : Z) (Hd : 0 ≤ d < DIM) (Hok : set_ok rs) (Hpos : 0 < num rs < 2 ^ 31).

Abbreviation U := (uranges rs d).

Lemma rule_bounds r : r ∈ live rs → 0 ≤ (rng r d).1 ≤ (rng r d).2 ∧ (rng r d).2 < 2 ^ 32.
Proof.
  intros Hr. destruct Hok as [_ Hrules]. rewrite Forall_forall in Hrules.
  destruct (Hrules r Hr) as (_ & Hrng & _). apply (range_ok_32 (bits_of d)).
  - destruct (bits_of_cases d Hd) as [->|[->| ->]]; lia.
  - by apply Hrng.
Qed.

(** Where the span of the rules starts and ends. *)
Definition span_ok (lo hi : Z) : Prop :=
  0 ≤ lo ≤ hi ∧ hi < 2 ^ 32 ∧ (∃ u U', U = u :: U' ∧ low u = lo) ∧
  ∀ r, r ∈ live rs → lo ≤ (rng r d).1 ∧ (rng r d).2 ≤ hi.

Lemma span_input lo hi shift div :
  span_ok lo hi → 0 ≤ shift ≤ 31 → 1 ≤ div ≤ 64 → hi < lo + div * 2 ^ shift →
  sweep_input U lo (2 ^ shift) div.
Proof.
  intros (Hlo & Hhi & (u & U' & HU & Hu) & Hall) Hs Hdiv Hspan.
  destruct (uranges_weight rs d (proj1 Hok)) as [Hw Htot].
  pose proof (pow2_pos shift ltac:(lia)). assert (2 ^ shift ≤ 2 ^ 31) by (apply Z.pow_le_mono_r; lia).
  split; try lia.
  - apply uranges_sorted.
  - eauto.
  - intros v Hv. destruct (uranges_elem rs d v Hv) as (r & Hr & -> & ->).
    pose proof (rule_bounds r Hr). destruct (Hall r Hr). lia.
  - eapply Forall_impl; [done|]. simpl. lia.
Qed.

(** The histogram of one division. *)
Lemma hi_get_me_1d_entry l lo hi shift div h :
  span_ok lo hi → 0 ≤ shift ≤ 31 → 1 ≤ div ≤ 64 → hi < lo + div * 2 ^ shift →
  take (length U) l = U → range_heap h → contents h = [] →
  ∃ me hst nr h', hi_get_me_1d l (zlen U) lo (Z.shiftl 1 shift) h div = Ok (me, hst, nr, h') ∧
    range_heap h' ∧ contents h' = [] ∧ hi_entry rs d lo shift div nr hst.
Proof.
  intros Hsp Hs Hdiv Hspan Htk Hh Hc. rewrite Z.shiftl_1_l.
  destruct (hi_get_me_1d_spec U lo (2 ^ shift) div (span_input _ _ _ _ Hsp Hs Hdiv Hspan) l Htk h Hh Hc)
    as (me & hst & nr & h' & Hme & Hh' & Hc' & Hch & Hp & Hl & Hcn).
  exists me, hst, nr, h'. split; [done|]. split; [done|]. split; [done|].
  destruct Hsp as (Hlo & _ & _ & Hall). split; try done; try lia.
  - intros r Hr. destruct (Hall r Hr). lia.
  - intros k Hk. rewrite Hcn by done. apply uranges_wsum.
Qed.

(** The do-while loop ends, with the last division it committed. *)
Lemma try_divs_spec fuel l lo hi div shift me ratio nr h ha :
  span_ok lo hi → take (length U) l = U → 4 ≤ hi - lo + 1 → 4 ≤ div ≤ 64 →
  64 < div * 2 ^ Z.of_nat fuel →
  hi_entry rs d lo shift div nr h → range_heap (ha_h ha) → contents (ha_h ha) = [] →
  (length (ha_hist ha) = 5 ∧ length (ha_shift ha) = 5 ∧ length (ha_start ha) = 5 ∧ length (ha_node_r ha) = 5)%nat →
  anth (ha_start ha) d = lo →
  ∃ me' ha', try_divs fuel l (zlen U) (num rs) lo (hi - lo + 1) d div shift me ratio nr h ha = Ok (me', ha') ∧
    hi_fresh rs d ha' ∧ range_heap (ha_h ha') ∧ contents (ha_h ha') = [] ∧ ha_ranges ha' = ha_ranges ha ∧
    (length (ha_hist ha') = 5 ∧ length (ha_shift ha') = 5 ∧ length (ha_start ha') = 5 ∧ length (ha_node_r ha') = 5)%nat ∧
    ∀ d', 0 ≤ d' < DIM → d' ≠ d → same_entry d' ha ha'.
Proof.
  intros Hsp Htk Hlen4. unfold DIM in *.
  revert div shift me ratio nr h ha. induction fuel as [|fuel IH];
    intros div shift me ratio nr h ha Hdiv Hfuel He Hh Hc Hlens Hst; [simpl in Hfuel; lia|].
  cbn [try_divs]. set (ha1 := hi_commit ha d shift nr h).
  destruct Hsp as (Hlo & Hhi & Hsp').
  destruct (roundup_log2_spec ((hi - lo + 1 + div * 2 - 1) / (div * 2))) as (shift' & Hr & Hs' & Hle).
  { split; [apply Z.div_str_pos; lia|apply Z.div_lt_upper_bound; lia]. }
  assert (Hdone : hi_fresh rs d ha1 ∧ range_heap (ha_h ha1) ∧ contents (ha_h ha1) = [] ∧
    ha_ranges ha1 = ha_ranges ha ∧
    (length (ha_hist ha1) = 5 ∧ length (ha_shift ha1) = 5 ∧ length (ha_start ha1) = 5 ∧ length (ha_node_r ha1) = 5)%nat ∧
    ∀ d', 0 ≤ d' < 5 → d' ≠ d → same_entry d' ha ha1).
  { destruct Hlens as (L1 & L2 & L3 & L4). unfold ha1, hi_commit, hi_fresh, same_entry. cbn.
    split; [|split; [done|split; [done|split; [done|split; [by rewrite !length_insert|]]]]].
    - exists div. rewrite !anth_insert_eq by (unfold zlen; lia). by rewrite Hst.
    - intros d' Hd' Hne. by rewrite !anth_insert_ne by lia. }
  rewrite Hr. cbn [mbind res_bind].
  destruct ((64 <? div * 2) || (hi - lo + 1 <? div * 2) || (shift' =? shift)) eqn:Estop; [eauto 10|].
  apply orb_false_iff in Estop as [Estop _]. apply orb_false_iff in Estop as [E64%Z.ltb_ge _].
  assert (Hspan : hi < lo + div * 2 * 2 ^ shift').
  { pose proof (Z.div_mod (hi - lo + 1 + div * 2 - 1) (div * 2) ltac:(lia)) as Hdm.
    pose proof (Z.mod_pos_bound (hi - lo + 1 + div * 2 - 1) (div * 2) ltac:(lia)). nia. }
  destruct Hdone as (Hf1 & Hh1 & Hc1 & Hrg1 & Hl1 & Hsame1).
  destruct (hi_get_me_1d_entry l lo hi shift' (div * 2) (ha_h ha1)) as (me1 & h1 & nr1 & hp & Hme & Hhp & Hcp & He1);
    [done|lia|lia|done|done|done|done|].
  rewrite Hme. cbn [mbind res_bind]. case_match.
  - destruct (IH (div * 2) shift' me1 (calc_me_ratio (num rs) (u32 (CutInl.rules h)) me1) nr1 h1
      (set_scratch ha1 (ha_ranges ha1) hp)) as (me' & ha' & Htry & Hf' & Hh' & Hc' & Hrg' & Hl' & Hsame'); try done.
    { lia. } { rewrite Nat2Z.inj_succ, Z.pow_succ_r in Hfuel by lia. lia. }
    exists me', ha'. split; [done|]. split; [done|]. split; [done|]. split; [done|].
    split; [by rewrite Hrg'|]. split; [done|]. intros d' Hd' Hne.
    destruct (Hsame1 d' Hd' Hne) as (A1 & A2 & A3 & A4). destruct (Hsame' d' Hd' Hne) as (B1 & B2 & B3 & B4).
    unfold same_entry. simpl in B1, B2, B3, B4. rewrite A1, A2, A3, A4. done.
  - exists me, (set_scratch ha1 (ha_ranges ha1) hp). split; [done|]. split; [done|]. split; [done|].
    split; [done|]. split; [done|]. split; done.
Qed.

(** The loop that finds where the span ends. *)
Lemma span_high l :
  take (length U) l = U → U ≠ [] →
  ∃ b, mfor 1 (zlen U) (λ i b, r ← aget l i; Ok (if b <? high r then high r else b)) (high (U !!! 0%nat)) = Ok b ∧
    (∀ u, u ∈ U → high u ≤ b) ∧ ∃ u, u ∈ U ∧ high u = b.
Proof.
  intros Htk Hne. assert (Hl0 : (0 < length U)%nat) by (destruct U; [done|simpl; lia]).
  destruct (mfold_inv (λ (ixs : list Z) b, (∀ u, u ∈ take (S (length ixs)) U → high u ≤ b) ∧
      ∃ u, u ∈ U ∧ high u = b)
    (λ i b, r ← aget l i; Ok (if b <? high r then high r else b)) (seqZ 1 (zlen U - 1)) (high (U !!! 0%nat)))
    as (b & Hm & Hb1 & Hb2).
  - destruct U as [|u U'] eqn:EU; [done|]. simpl. split.
    + rewrite firstn_O. intros v ->%list_elem_of_singleton. lia.
    + exists u. split; [left|done].
  - intros pre i b [Hall (w & Hw & Hwb)] [rest Hrest]. destruct (seqZ_split _ _ _ _ _ Hrest) as [Hi Hib].
    unfold zlen in *. destruct (lookup_lt_is_Some_2 U (S (length pre))) as [u Hu]; [lia|].
    assert (Hl : l !! S (length pre) = Some u) by (rewrite <- Htk in Hu; by apply lookup_take_Some in Hu as [? _]).
    rewrite (aget_lookup l i u) by (lia || by replace (Z.to_nat i) with (S (length pre)) by lia).
    cbn [mbind res_bind]. eexists. split; [done|]. rewrite length_app, Nat.add_comm. cbn [length Nat.add]. split.
    + intros v Hv. rewrite (take_S_snoc U _ u Hu) in Hv. apply elem_of_app in Hv as [Hv| ->%list_elem_of_singleton].
      * specialize (Hall v Hv). destruct (Z.ltb_spec b (high u)); lia.
      * destruct (Z.ltb_spec b (high u)); lia.
    + destruct (b <? high u); [|eauto]. exists u. split; [by eapply list_elem_of_lookup_2|done].
  - exists b. split; [done|]. split; [|done]. intros u Hu. apply Hb1. rewrite length_seqZ.
    rewrite take_ge; [done|]. unfold zlen. lia.
Qed.

(** The division of this dimension is fresh when the span has at least 4 values. *)
Definition hi_usable : bool :=
  existsb (λ r, existsb (λ r', 4 <=? (rng r d).2 - (rng r' d).1 + 1) (live rs)) (live rs).

Lemma hi_get_rule_hist_spec aux :
  hi_inv aux → num rs ≤ zlen (item (ha_ranges (ca_hi aux))) →
  ∃ me aux', hi_get_rule_hist rs d aux = Ok (me, aux') ∧ hi_inv aux' ∧
    hist aux' = hist aux ∧ ca_split aux' = ca_split aux ∧
    zlen (item (ha_ranges (ca_hi aux'))) = zlen (item (ha_ranges (ca_hi aux))) ∧
    (hi_usable = true → hi_fresh rs d (ca_hi aux')) ∧
    ∀ d', 0 ≤ d' < DIM → d' ≠ d → same_entry d' (ca_hi aux) (ca_hi aux').
Proof.
  intros [Hh Hc Hroom L1 L2 L3 L4] Hnum. unfold hi_get_rule_hist.
  rewrite (load_ranges_spec rs d _ (proj1 Hok) Hnum). cbn [mbind res_bind].
  destruct (uranges_load rs d _ _ Hok (proj1 Hpos) Hroom (load_ranges_spec rs d _ (proj1 Hok) Hnum))
    as (l2 & -> & Hl2 & Htk). cbn [mbind res_bind].
  destruct (uranges_first rs d (proj1 Hpos) (proj1 Hok)) as (u0 & U' & HU & Hmin).
  assert (Hu0 : aget l2 0 = Ok u0).
  { apply aget_lookup; [lia|]. rewrite HU in Htk. destruct l2; [done|]. simpl in *. congruence. }
  rewrite Hu0. cbn [mbind res_bind].
  destruct (span_high l2 Htk) as (b & Hb & Hball & ub & Hub & Hubb); [by rewrite HU|].
  replace (high (U !!! 0%nat)) with (high u0) in Hb by (by rewrite HU). rewrite Hb. cbn [mbind res_bind].
  set (ha := ca_hi aux) in *. set (rg := set_ranges (ha_ranges ha) l2).
  assert (Hrg : zlen (item rg) = zlen (item (ha_ranges ha))) by (unfold rg, zlen; simpl; by rewrite Hl2). clearbody rg.
  assert (Hu0e : u0 ∈ U) by (rewrite HU; left).
  destruct (uranges_elem rs d u0 Hu0e) as (r0 & Hr0 & Hl0 & Hh0). pose proof (rule_bounds r0 Hr0) as Hr0b.
  destruct (uranges_elem rs d ub Hub) as (rb & Hrb & Hlb & Hhb). pose proof (rule_bounds rb Hrb) as Hrbb.
  assert (Hsp : span_ok (low u0) b).
  { pose proof (Hball u0 Hu0e). split; [lia|]. split; [lia|]. split; [eauto|].
    intros r Hr. split; [by apply Hmin|]. destruct (elem_uranges rs d r Hr) as (v & Hv & _ & <-). auto. }
  destruct Hsp as (Hlob & Hb32 & Hsp').
  unfold u64. rewrite Z.mod_small by lia. destruct (Z.ltb_spec (b - low u0 + 1) 4) as [Hshort|Hlong].
  { eexists _, _. split; [done|]. unfold set_hi, set_scratch. cbn.
    split; [split; cbn; try done; lia|]. split; [done|]. split; [done|]. split; [done|].
    split; [|by intros].
    intros (r & Hr%list_elem_of_In & (r' & Hr'%list_elem_of_In & Hs%Z.leb_le)%existsb_exists)%existsb_exists.
    destruct Hsp' as [_ Hall]. destruct (Hall r Hr). destruct (Hall r' Hr'). lia. }
  destruct (roundup_log2_spec ((b - low u0 + 1 + 4 - 1) / 4)) as (shift & -> & Hs & Hle).
  { split; [apply Z.div_str_pos; lia|apply Z.div_lt_upper_bound; lia]. }
  cbn [mbind res_bind].
  assert (Hspan : b < low u0 + 4 * 2 ^ shift).
  { pose proof (Z.div_mod (b - low u0 + 1 + 4 - 1) 4 ltac:(lia)) as Hdm.
    pose proof (Z.mod_pos_bound (b - low u0 + 1 + 4 - 1) 4 ltac:(lia)). nia. }
  destruct (hi_get_me_1d_entry l2 (low u0) b shift 4 (ha_h ha)) as (me & h1 & nr & hp & Hme & Hhp & Hcp & He);
    [done|lia|lia|done|done|done|done|].
  cbn [ha_h set_scratch]. rewrite Hme. cbn [mbind res_bind].
  match goal with |- context [try_divs 5 _ _ _ _ _ _ _ _ _ ?ratio _ _ ?ha2] =>
    destruct (try_divs_spec 5 l2 (low u0) b 4 shift me ratio nr h1 ha2)
      as (me' & ha' & Htry & Hf' & Hh' & Hc' & Hrg' & (L1' & L2' & L3' & L4') & Hsame) end; try done.
  { cbn. by rewrite length_insert. }
  { cbn. apply anth_insert_eq. unfold zlen, DIM in *. lia. }
  cbn [ha_ranges set_scratch] in Htry |- *. rewrite Htry. cbn [mbind res_bind]. eexists _, _. split; [done|].
  cbn in Hrg'. unfold set_hi. cbn. split; [split; cbn; try done; rewrite Hrg'; cbn; lia|].
  split; [done|]. split; [done|]. split; [by rewrite Hrg'|]. split; [done|].
  intros d' Hd' Hne. destruct (Hsame d' Hd' Hne) as (A1 & A2 & A3 & A4). cbn in A1, A2, A3, A4.
  rewrite anth_insert_ne in A1 by (unfold DIM in *; lia). done.
Qed.
End hist.

(** ** Finding the child of a segment *)
Section parts_facts.
Context (nr : list (Z * Z)) (c last : Z) (Hp : parts nr c last) (Hc : 0 < c).
Abbreviation a k := (seg_lo nr k).
Abbreviation b k := (seg_hi nr k).

Lemma seg_order k k' : 0 ≤ k < k' → k' < c → b k < a k'.
Proof.
  intros Hk Hk'. remember (Z.to_nat (k' - k - 1)) as n eqn:En. revert k' Hk Hk' En.
  induction n as [|n IH]; intros k' Hk Hk' En; destruct (parts_seg _ _ _ Hp k' ltac:(lia)) as [_ Ha];
    rewrite (proj2 (Z.eqb_neq k' 0)) in Ha by lia; unfold seg_lo, seg_hi in *.
  - assert (k' - 1 = k) as Hk1 by lia. rewrite Hk1 in Ha. lia.
  - specialize (IH (k' - 1) ltac:(lia) ltac:(lia) ltac:(lia)).
    destruct (parts_seg _ _ _ Hp (k' - 1) ltac:(lia)) as [? _]. lia.
Qed.

Lemma seg_first : a 0 = 0.
Proof. by destruct (parts_seg _ _ _ Hp 0 ltac:(lia)) as [_ ?]. Qed.

Lemma seg_le k : 0 ≤ k < c → a k ≤ b k.
Proof. intros Hk. by destruct (parts_seg _ _ _ Hp k Hk). Qed.

Lemma seg_next k : 0 < k < c → a k = b (k - 1) + 1.
Proof. intros Hk. destruct (parts_seg _ _ _ Hp k ltac:(lia)) as [_ Ha]. by rewrite (proj2 (Z.eqb_neq k 0)) in Ha by lia. Qed.

Lemma seg_last : b (c - 1) = last.
Proof. by apply (parts_last _ _ _ Hp). Qed.

Lemma seg_bounds k : 0 ≤ k < c → 0 ≤ a k ∧ b k ≤ last.
Proof.
  intros Hk. pose proof seg_first. pose proof seg_last. pose proof (seg_le 0 ltac:(lia)).
  pose proof (seg_le k Hk). pose proof (seg_le (c - 1) ltac:(lia)). split.
  - destruct (decide (k = 0)) as [->|]; [lia|]. pose proof (seg_order 0 k ltac:(lia) ltac:(lia)). lia.
  - destruct (decide (k = c - 1)) as [->|]; [lia|]. pose proof (seg_order k (c - 1) ltac:(lia) ltac:(lia)). lia.
Qed.

(** A bitmap with the last segments of all children but one. *)
Lemma seg_popcount m :
  0 ≤ m < 2 ^ 64 → last < 64 → (∀ x, 0 ≤ x → Z.testbit m x = true ↔ ∃ k, 0 ≤ k < c - 1 ∧ x = b k) → popcount m = c - 1.
Proof.
  intros Hm Hl Hbits. rewrite (popcount_bsum 64), bsum_filter by done.
  assert (Hperm : filter (λ i, Is_true (Z.testbit m i)) (seqZ 0 (Z.of_nat 64)) ≡ₚ (λ k, b k) <$> seqZ 0 (c - 1)).
  { apply NoDup_Permutation.
    - apply NoDup_filter, NoDup_seqZ.
    - apply NoDup_fmap_2_strong; [|apply NoDup_seqZ]. intros x y Hx%elem_of_seqZ Hy%elem_of_seqZ E.
      destruct (Z.lt_trichotomy x y) as [H|[H|H]]; [|done|]; exfalso;
        [pose proof (seg_order x y ltac:(lia) ltac:(lia)); pose proof (seg_le y ltac:(lia))
        |pose proof (seg_order y x ltac:(lia) ltac:(lia)); pose proof (seg_le x ltac:(lia))]; lia.
    - intros x. rewrite list_elem_of_filter, list_elem_of_fmap, elem_of_seqZ, Is_true_true. split.
      + intros [Hx Hr]. apply Hbits in Hx as (k & Hk & ->); [|lia]. exists k. split; [done|]. apply elem_of_seqZ. lia.
      + intros (k & -> & Hk%elem_of_seqZ). destruct (seg_bounds k ltac:(lia)). pose proof (seg_le k ltac:(lia)).
        split; [|lia]. apply Hbits; [lia|]. exists k. lia. }
  unfold zlen. rewrite Hperm, length_fmap, length_seqZ. lia.
Qed.

(** Every segment belongs to a child. *)
Lemma seg_child s : 0 ≤ s ≤ last → ∃ k, 0 ≤ k < c ∧ a k ≤ s ≤ b k.
Proof.
  intros Hs. assert (Hgen : ∀ n : nat, Z.of_nat n < c → s ≤ b (Z.of_nat n) → ∃ k, 0 ≤ k < c ∧ a k ≤ s ≤ b k).
  { induction n as [|n IH]; intros Hn Hsb.
    - change (Z.of_nat 0) with 0 in Hsb. exists 0. pose proof seg_first. lia.
    - destruct (decide (s ≤ b (Z.of_nat n))); [apply IH; [lia|done]|].
      exists (Z.of_nat (S n)). pose proof (seg_next (Z.of_nat (S n)) ltac:(lia)) as Hnx.
      replace (Z.of_nat (S n) - 1) with (Z.of_nat n) in Hnx by lia. lia. }
  apply (Hgen (Z.to_nat (c - 1))); [lia|]. rewrite Z2Nat.id by lia. rewrite seg_last. lia.
Qed.

(** The children of the segments [s .. e] are those between the child of [s] and
    the child of [e]. *)
Lemma seg_between s e k1 k2 k :
  0 ≤ k1 < c → a k1 ≤ s ≤ b k1 → 0 ≤ k2 < c → a k2 ≤ e ≤ b k2 → 0 ≤ k < c →
  k1 ≤ k ≤ k2 ↔ s ≤ b k ∧ a k ≤ e.
Proof.
  intros H1 Hs H2 He Hk. split.
  - intros [Hl Hr]. split.
    + destruct (decide (k = k1)) as [->|]; [lia|]. pose proof (seg_order k1 k ltac:(lia) ltac:(lia)).
      pose proof (seg_le k Hk). lia.
    + destruct (decide (k = k2)) as [->|]; [lia|]. pose proof (seg_order k k2 ltac:(lia) ltac:(lia)).
      pose proof (seg_le k Hk). lia.
  - intros [Hl Hr]. split.
    + destruct (Z.le_gt_cases k1 k); [done|]. pose proof (seg_order k k1 ltac:(lia) ltac:(lia)). lia.
    + destruct (Z.le_gt_cases k k2); [done|]. pose proof (seg_order k2 k ltac:(lia) ltac:(lia)). lia.
Qed.

Lemma nr_get k : 0 ≤ k < c → c ≤ 64 → aget nr k = Ok (anth nr k).
Proof.
  intros Hk H64. apply aget_lookup; [lia|]. apply list_lookup_lookup_total_lt.
  pose proof (parts_len _ _ _ Hp) as Hl. unfold zlen in Hl. lia.
Qed.

Lemma find_child_spec s :
  c ≤ 64 → 0 ≤ s ≤ last → ∃ k, find_child nr c s = Ok k ∧ 0 ≤ k < c ∧ a k ≤ s ≤ b k.
Proof.
  intros H64 Hs. destruct (seg_child s Hs) as (k & Hk & Hks). exists k. split; [|done].
  unfold find_child, mfor.
  destruct (mfold_inv (λ (ixs : list Z) cur, cur = if decide (k < zlen ixs) then k else -1)
    (λ i c0, '(x, y) ← aget nr i; Ok (if (x <=? s) && (s <=? y) && (c0 =? -1) then i else c0))
    (seqZ 0 (c - 0)) (-1)) as (cur & Hm & Hcur).
  - rewrite decide_False; [done|]. unfold zlen. simpl. lia.
  - intros pre i cur -> [rest Hrest]. destruct (seqZ_split _ _ _ _ _ Hrest) as [Hi Hib].
    rewrite nr_get by lia. cbn [mbind res_bind]. destruct (anth nr i) as [x y] eqn:Exy.
    eexists. split; [done|]. rewrite zlen_app. change (zlen [i]) with 1. rewrite Z.add_0_l in Hi.
    assert (Hax : x = a i) by (unfold seg_lo; by rewrite Exy).
    assert (Hby : y = b i) by (unfold seg_hi; by rewrite Exy).
    destruct (decide (i = k)) as [->|Hne].
    + rewrite decide_False, decide_True by lia. rewrite Hax, Hby. zbool.
    + assert (Hnot : (x <=? s) && (s <=? y) = false).
      { rewrite Hax, Hby. apply andb_false_iff. rewrite !Z.leb_gt.
        destruct (Z.lt_trichotomy i k) as [Hlt|[|Hlt]]; [|done|].
        - right. pose proof (seg_order i k ltac:(lia) ltac:(lia)). lia.
        - left. pose proof (seg_order k i ltac:(lia) ltac:(lia)). lia. }
      rewrite Hnot. cbn [andb]. repeat case_decide; lia.
  - rewrite Hm, Hcur. rewrite decide_True; [done|]. unfold zlen. rewrite length_seqZ. lia.
Qed.

(** ** The bitmap of boundaries *)
Lemma hi_set_bitmap_spec :
  c ≤ 64 → last < 64 → ∃ m, hi_set_bitmap nr c 0 = Ok m ∧ 0 ≤ m < 2 ^ 64 ∧
    ∀ x, 0 ≤ x → Z.testbit m x = true ↔ ∃ k, 0 ≤ k < c - 1 ∧ x = b k.
Proof.
  intros H64 Hl64. unfold hi_set_bitmap, mfor.
  destruct (mfold_inv (λ (ixs : list Z) m, 0 ≤ m < 2 ^ 64 ∧
      ∀ x, 0 ≤ x → Z.testbit m x = true ↔ ∃ k, 0 ≤ k < zlen ixs ∧ x = b k)
    (λ i m, '(_, y) ← aget nr i; Ok (set_bit m y)) (seqZ 0 (c - 1 - 0)) 0) as (m & Hm & Hb & Ht).
  - split; [lia|]. intros x Hx. rewrite Z.bits_0. split; [done|]. intros (k & Hk & _).
    change (zlen []) with 0 in Hk. lia.
  - intros pre i m [Hb Ht] [rest Hrest]. destruct (seqZ_split _ _ _ _ _ Hrest) as [Hi Hib].
    rewrite nr_get by lia. cbn [mbind res_bind]. destruct (anth nr i) as [x y] eqn:Exy.
    assert (Hby : y = b i) by (unfold seg_hi; by rewrite Exy).
    pose proof (seg_bounds i ltac:(lia)). pose proof (seg_le i ltac:(lia)).
    eexists. split; [done|]. split; [apply set_bit_bounds|]. intros z Hz.
    rewrite set_bit_testbit, orb_true_iff, Z.eqb_eq, Ht by lia. rewrite zlen_app. change (zlen [i]) with 1.
    rewrite Z.add_0_l in Hi. split.
    + intros [->|(k & Hk & ->)]; [exists i; split; [lia|done]|exists k; split; [lia|done]].
    + intros (k & Hk & ->). destruct (decide (k = i)) as [->|]; [by left|right].
      exists k. split; [lia|done].
  - exists m. split; [done|]. split; [done|]. intros x Hx. rewrite Ht by done.
    unfold zlen. rewrite length_seqZ. rewrite Z2Nat.id by lia. by rewrite Z.sub_0_r.
Qed.

(** The number of boundaries below a segment is the number of its child. *)
Lemma boundaries_below m k idx :
  (∀ x, 0 ≤ x → Z.testbit m x = true ↔ ∃ k, 0 ≤ k < c - 1 ∧ x = b k) →
  0 ≤ k < c → a k ≤ idx → (idx ≤ b k ∨ k = c - 1) → bsum (Z.testbit m) (Z.to_nat idx) = k.
Proof.
  intros Ht Hk Ha Hidx.
  (* no boundary inside a child *)
  assert (Hin : ∀ j n, 0 ≤ j < c → (∀ x, a j ≤ x < a j + Z.of_nat n → x < b j ∨ j = c - 1) →
    bsum (Z.testbit m) (Z.to_nat (a j) + n) = bsum (Z.testbit m) (Z.to_nat (a j))).
  { intros j n Hj Hn. pose proof (seg_bounds j Hj). rewrite bsum_add. rewrite (bsum_false _ n); [lia|].
    intros i Hi. rewrite Z2Nat.id by lia. apply not_true_is_false. rewrite Ht by lia.
    intros (j' & Hj' & Hx). specialize (Hn (i + a j) ltac:(lia)).
    destruct (Z.lt_trichotomy j j') as [Hlt|[->|Hlt]].
    - pose proof (seg_order j j' ltac:(lia) ltac:(lia)). pose proof (seg_le j' ltac:(lia)). lia.
    - lia.
    - pose proof (seg_order j' j ltac:(lia) ltac:(lia)). lia. }
  assert (Hstart : ∀ n : nat, Z.of_nat n < c → bsum (Z.testbit m) (Z.to_nat (a (Z.of_nat n))) = Z.of_nat n).
  { induction n as [|n IH]; intros Hn.
    - change (Z.of_nat 0) with 0. rewrite seg_first. done.
    - specialize (IH ltac:(lia)). set (j := Z.of_nat n) in *.
      pose proof (seg_next (Z.of_nat (S n)) ltac:(lia)) as Hnx.
      replace (Z.of_nat (S n) - 1) with j in Hnx by lia. pose proof (seg_le j ltac:(lia)).
      pose proof (seg_bounds j ltac:(lia)).
      rewrite Hnx. replace (Z.to_nat (b j + 1)) with (S (Z.to_nat (b j))) by lia. cbn [bsum].
      rewrite Z2Nat.id by lia.
      replace (Z.to_nat (b j)) with (Z.to_nat (a j) + Z.to_nat (b j - a j))%nat by lia.
      rewrite Hin, IH by (try lia; intros; lia).
      rewrite (proj2 (Ht (b j) ltac:(lia))) by (exists j; split; [lia|done]). simpl. lia. }
  pose proof (seg_bounds k Hk).
  replace (Z.to_nat idx) with (Z.to_nat (a k) + Z.to_nat (idx - a k))%nat by lia.
  rewrite Hin by (try done; intros; lia).
  specialize (Hstart (Z.to_nat k) ltac:(lia)). by rewrite Z2Nat.id in Hstart by lia.
Qed.
End parts_facts.

(** ** The rules of the children *)
Section hi_cut.
Context `{AllocTotal}.
Context (rs : rule_set_t) (d : Z) (Hd : 0 ≤ d < DIM) (Hok : set_ok rs).
Context (ha : hi_aux) (div : Z).
Abbreviation start := (anth (ha_start ha) d).
Abbreviation shift := (anth (ha_shift ha) d).
Abbreviation nr := (anth (ha_node_r ha) d).
Abbreviation h := (anth (ha_hist ha) d).
Context (He : hi_entry rs d start shift div nr h).
Abbreviation c := (childs h).
Abbreviation seg := (2 ^ shift).

Lemma seg_pos : 0 < seg.
Proof. destruct (he_shift _ _ _ _ _ _ _ He). apply pow2_pos. lia. Qed.

Lemma c_bounds : 0 < c ≤ 64.
Proof.
  pose proof (he_childs _ _ _ _ _ _ _ He). destruct (he_div _ _ _ _ _ _ _ He).
  pose proof (parts_c _ _ _ (he_parts _ _ _ _ _ _ _ He)). lia.
Qed.

(** The segment of a value of a rule. *)
Lemma rule_seg r x :
  r ∈ live rs → (rng r d).1 ≤ x ≤ (rng r d).2 →
  Z.shiftr (u32 (x - start)) shift = sidx start seg x ∧ 0 ≤ sidx start seg x ≤ div - 1.
Proof.
  intros Hr Hx. destruct (he_rules _ _ _ _ _ _ _ He r Hr) as [Hlo Hhi].
  pose proof (rule_bounds rs d Hd Hok r Hr). pose proof (he_start _ _ _ _ _ _ _ He). pose proof seg_pos.
  destruct (he_shift _ _ _ _ _ _ _ He).
  unfold u32, sidx. rewrite Z.mod_small by lia. rewrite Z.shiftr_div_pow2 by lia. split; [done|].
  split; [apply Z.div_pos; lia|]. assert ((x - start) / seg < div); [|lia]. apply Z.div_lt_upper_bound; lia.
Qed.

(** The child's part of a rule. *)
Definition trimmed (k : Z) (r : rule_t) : rule_t := hi_trim d start shift (anth nr k) r.
Definition hi_child_rules (k : Z) : list rule_t := trimmed k <$> meeting d start shift nr k (live rs).

Lemma trimmed_range r k :
  r ∈ live rs → 0 ≤ k < c →
  meets start seg (seg_lo nr k) (seg_hi nr k) (rng r d).1 (rng r d).2 = true →
  trimmed k r = set_rng r d (Z.max (rng r d).1 (start + seg_lo nr k * seg),
                             Z.min (rng r d).2 (start + (seg_hi nr k + 1) * seg - 1)) ∧
  Z.max (rng r d).1 (start + seg_lo nr k * seg) ≤ Z.min (rng r d).2 (start + (seg_hi nr k + 1) * seg - 1).
Proof.
  intros Hr Hk [Hm1%Z.leb_le Hm2%Z.leb_le]%andb_true_iff.
  pose proof (rule_bounds rs d Hd Hok r Hr) as Hrb. destruct (he_rules _ _ _ _ _ _ _ He r Hr) as [Hlo Hhi].
  pose proof (he_start _ _ _ _ _ _ _ He). pose proof seg_pos as Hsp.
  destruct (he_shift _ _ _ _ _ _ _ He). pose proof c_bounds. destruct (he_div _ _ _ _ _ _ _ He).
  pose proof (seg_bounds _ _ _ (he_parts _ _ _ _ _ _ _ He) ltac:(lia) k Hk).
  pose proof (seg_le _ _ _ (he_parts _ _ _ _ _ _ _ He) k Hk).
  assert (seg ≤ 2 ^ 31) by (apply Z.pow_le_mono_r; lia).
  unfold sidx in Hm1, Hm2.
  unfold trimmed, hi_trim. fold (seg_lo nr k). fold (seg_hi nr k). rewrite !Z.shiftl_1_l.
  set (A := seg_lo nr k) in *. set (E := seg_hi nr k) in *. set (S := seg) in *.
  set (x := (rng r d).1) in *. set (y := (rng r d).2) in *. set (st := start) in *.
  clearbody A E S x y st.
  pose proof (Z.div_mod (x - st) S ltac:(lia)). pose proof (Z.mod_pos_bound (x - st) S ltac:(lia)).
  pose proof (Z.div_mod (y - st) S ltac:(lia)). pose proof (Z.mod_pos_bound (y - st) S ltac:(lia)).
  assert (HA : st + A * S ≤ y) by nia.
  assert (HE : x < st + (E + 1) * S) by nia.
  assert (0 ≤ A * S) by nia. assert (A * S < (E + 1) * S) by nia.
  assert ((E + 1) * S ≤ 64 * 2 ^ 31) by nia.
  unfold u64. rewrite !(Z.mod_small _ (2 ^ 64)) by lia. unfold u32. split; [|lia]. f_equal. f_equal.
  - destruct (Z.ltb_spec x (st + A * S)); [rewrite Z.mod_small by lia|]; lia.
  - destruct (Z.leb_spec (st + (E + 1) * S) y); [rewrite Z.mod_small by lia|]; lia.
Qed.

Lemma trimmed_ok r k :
  r ∈ live rs → 0 ≤ k < c →
  meets start seg (seg_lo nr k) (seg_hi nr k) (rng r d).1 (rng r d).2 = true → rule_ok (trimmed k r).
Proof.
  intros Hr Hk Hm. destruct (trimmed_range r k Hr Hk Hm) as [-> Hle].
  destruct Hok as [_ Hrules]. rewrite Forall_forall in Hrules. apply set_rng_ok; [by apply Hrules|done|].
  destruct (Hrules r Hr) as (_ & Hrng & _). destruct (Hrng d Hd) as [? ?].
  pose proof (he_start _ _ _ _ _ _ _ He). split; cbn [fst snd]; lia.
Qed.

(** The calls of [append_rules] for one rule. *)
Definition hi_ops (r : rule_t) : list (Z * rule_t) :=
  (λ k, (k, trimmed k r)) <$>
    filter (λ k, Is_true (meets start seg (seg_lo nr k) (seg_hi nr k) (rng r d).1 (rng r d).2)) (seqZ 0 c).

Lemma filter_interval (P : Z → bool) k1 k2 :
  0 ≤ k1 → k1 ≤ k2 < c → (∀ k, 0 ≤ k < c → P k = true ↔ k1 ≤ k ≤ k2) →
  filter (λ k, Is_true (P k)) (seqZ 0 c) = seqZ k1 (k2 + 1 - k1).
Proof.
  intros H1 H2 HP.
  assert (Hsplit : seqZ 0 c = seqZ 0 k1 ++ seqZ k1 (k2 + 1 - k1) ++ seqZ (k2 + 1) (c - (k2 + 1))).
  { replace (k2 + 1) with (k1 + (k2 + 1 - k1)) at 2 by lia. rewrite <- seqZ_app by lia.
    change k1 with (0 + k1) at 2. rewrite <- seqZ_app by lia. f_equal. lia. }
  rewrite Hsplit, !filter_app.
  assert (Hno : ∀ lo n, 0 ≤ lo → lo + n ≤ c → (∀ k, lo ≤ k < lo + n → ¬ k1 ≤ k ≤ k2) →
    filter (λ k, Is_true (P k)) (seqZ lo n) = []).
  { intros lo n Hlo Hn Hk. apply filter_none. intros k ?%elem_of_seqZ.
    rewrite Is_true_true, HP by lia. apply Hk. lia. }
  rewrite (Hno 0 k1), (Hno (k2 + 1) (c - (k2 + 1))) by (intros; lia). rewrite app_nil_r. cbn [app].
  apply filter_all. intros k ?%elem_of_seqZ. apply Is_true_true, HP; lia.
Qed.

Lemma hi_push_rule_ops r cs :
  r ∈ live rs → hi_push_rule r d ha cs = mfold push_op (hi_ops r) cs.
Proof.
  intros Hr. pose proof (rule_bounds rs d Hd Hok r Hr) as Hrb. pose proof c_bounds as Hcb.
  pose proof (he_parts _ _ _ _ _ _ _ He) as Hp. unfold hi_push_rule.
  destruct (rule_seg r (rng r d).1 Hr ltac:(lia)) as [-> Hs1].
  destruct (rule_seg r (rng r d).2 Hr ltac:(lia)) as [-> Hs2].
  destruct (find_child_spec nr c (div - 1) Hp ltac:(lia) (sidx start seg (rng r d).1)) as (k1 & -> & Hk1 & Ha1); [lia|lia|].
  cbn [mbind res_bind].
  destruct (find_child_spec nr c (div - 1) Hp ltac:(lia) (sidx start seg (rng r d).2)) as (k2 & -> & Hk2 & Ha2); [lia|lia|].
  cbn [mbind res_bind].
  assert (Hmono : sidx start seg (rng r d).1 ≤ sidx start seg (rng r d).2).
  { apply Z.div_le_mono; [apply seg_pos|lia]. }
  assert (Hk12 : k1 ≤ k2).
  { apply (seg_between nr c (div - 1) Hp (sidx start seg (rng r d).1)
      (sidx start seg (rng r d).2) k1 k2 k1); try done; lia. }
  unfold assert_. rewrite (proj2 (Z.leb_le k1 k2)) by done. cbn [mbind res_bind].
  unfold hi_ops. rewrite (filter_interval _ k1 k2); [|lia|lia|].
  2:{ intros k Hk. unfold meets. rewrite andb_true_iff, !Z.leb_le. symmetry.
      apply (seg_between nr c (div - 1) Hp); done. }
  unfold mfor. rewrite mfold_fmap. apply mfold_ext. intros k st Hk%elem_of_seqZ.
  rewrite (nr_get nr c (div - 1) Hp) by lia. done.
Qed.

Lemma ops_at_hi k r :
  0 ≤ k < c → ops_at k (hi_ops r) =
    if meets start seg (seg_lo nr k) (seg_hi nr k) (rng r d).1 (rng r d).2 then [trimmed k r] else [].
Proof.
  intros Hk. unfold ops_at, hi_ops. rewrite filter_fmap. cbn [fst]. rewrite list_filter_filter.
  set (P := λ k, meets start seg (seg_lo nr k) (seg_hi nr k) (rng r d).1 (rng r d).2).
  rewrite (filter_ext_in _ (λ x, Is_true ((x =? k) && P k))).
  2:{ intros x _. unfold P. rewrite !Is_true_true, andb_true_iff, Z.eqb_eq. split; [by intros [-> ?]|by intros [-> ?]]. }
  fold (P k). destruct (P k) eqn:EP.
  - rewrite (filter_interval (λ x, (x =? k) && true) k k).
    + by replace (k + 1 - k) with 1 by lia.
    + lia.
    + lia.
    + intros x _. rewrite andb_true_r, Z.eqb_eq. lia.
  - rewrite filter_none; [done|]. intros x _. rewrite andb_false_r. intros [].
Qed.

Lemma ops_at_hi_all k :
  0 ≤ k < c → ops_at k (concat (hi_ops <$> live rs)) = hi_child_rules k.
Proof.
  intros Hk. unfold hi_child_rules, meeting. induction (live rs) as [|r l IH]; [done|].
  rewrite fmap_cons, filter_cons. cbn [concat]. rewrite ops_at_app, (ops_at_hi k r Hk), IH.
  case_match eqn:Em.
  - by rewrite decide_True.
  - rewrite decide_False; [done|intros []].
Qed.

(** ** Cutting never fails by itself *)
Definition roomy (k : Z) : cnode :=
  with_ruleset zero_cnode (mk_rs 0 (anth (child_rulecount h) k)
    (replicate (Z.to_nat (anth (child_rulecount h) k)) zero_rule)).

Lemma hi_alloc_spec :
  ∃ cs, hi_alloc h (replicate (Z.to_nat c) zero_cnode) = Ok cs ∧ zlen cs = c ∧
    ∀ k, 0 ≤ k < c → cs !! Z.to_nat k = Some (roomy k).
Proof.
  pose proof c_bounds as Hcb. pose proof (he_len _ _ _ _ _ _ _ He) as Hl. unfold hi_alloc, mfor.
  destruct (mfold_inv (λ (ixs : list Z) cs, zlen cs = c ∧ ∀ k, 0 ≤ k < c →
      cs !! Z.to_nat k = Some (if decide (k < zlen ixs) then roomy k else zero_cnode))
    (λ i cs, c0 ← aget cs i; k ← aget (child_rulecount h) i;
       aset cs i (with_ruleset c0 (rule_set_init (n_ruleset c0) k).1))
    (seqZ 0 (c - 0)) (replicate (Z.to_nat c) zero_cnode)) as (cs & Hm & Hlen & Hcs).
  - split; [unfold zlen; rewrite length_replicate; lia|]. intros k Hk.
    rewrite lookup_replicate_2 by lia. rewrite decide_False; [done|]. unfold zlen. simpl. lia.
  - intros pre i cs [Hlen Hcs] [rest Hrest]. destruct (seqZ_split _ _ _ _ _ Hrest) as [Hi Hib].
    rewrite Z.add_0_l in Hi. rewrite (aget_lookup cs i zero_cnode).
    2:{ lia. } 2:{ rewrite Hcs by lia. by rewrite decide_False by lia. }
    cbn [mbind res_bind]. rewrite (aget_lookup _ i (anth (child_rulecount h) i))
      by (lia || (apply list_lookup_lookup_total_lt; unfold zlen in Hl; lia)).
    cbn [mbind res_bind]. unfold rule_set_init, bc_calloc. rewrite alloc_total. cbn [fst].
    rewrite aset_in by lia. eexists. split; [done|]. split; [by rewrite zlen_insert|].
    intros k Hk. rewrite zlen_app. change (zlen [i]) with 1. destruct (decide (k = i)) as [->|].
    + rewrite list_lookup_insert_eq by (unfold zlen in Hlen; lia). by rewrite decide_True by lia.
    + rewrite list_lookup_insert_ne, Hcs by lia. f_equal. repeat case_decide; lia || done.
  - exists cs. split; [done|]. split; [done|]. intros k Hk. rewrite Hcs by done.
    rewrite decide_True; [done|]. unfold zlen. rewrite length_seqZ. lia.
Qed.

(** All rules find room, and every child gets exactly the counted rules. *)
Lemma hi_push_all cs :
  zlen cs = c → (∀ k, 0 ≤ k < c → cs !! Z.to_nat k = Some (roomy k)) →
  ∃ cs', mfor 0 (num rs) (λ i cs, r ← aget (ruleList rs) i; hi_push_rule r d ha cs) cs = Ok cs' ∧ zlen cs' = c ∧
    ∀ k, 0 ≤ k < c → ∃ ch, cs' !! Z.to_nat k = Some ch ∧ child_ok ch ∧
      live (n_ruleset ch) = hi_child_rules k ∧ num (n_ruleset ch) = anth (child_rulecount h) k.
Proof.
  intros Hlen Hcs. destruct Hok as [[Hn Hl] _].
  rewrite (mfor_cells (ruleList rs)) by lia. fold (live rs).
  rewrite (mfold_ext _ (λ r, mfold push_op (hi_ops r))) by (intros r st Hr; by apply hi_push_rule_ops).
  rewrite mfold_concat.
  assert (Hcell : ∀ p ch, cs !! p = Some ch → 0 ≤ Z.of_nat p < c ∧ ch = roomy (Z.of_nat p)).
  { intros p ch Hp. assert (0 ≤ Z.of_nat p < c) by (apply lookup_lt_Some in Hp; unfold zlen in Hlen; lia).
    split; [done|]. specialize (Hcs (Z.of_nat p) ltac:(done)). rewrite Nat2Z.id in Hcs. congruence. }
  assert (Hcount : ∀ k, 0 ≤ k < c → zlen (hi_child_rules k) = anth (child_rulecount h) k).
  { intros k Hk. unfold hi_child_rules, zlen. rewrite length_fmap.
    symmetry. apply (he_counts _ _ _ _ _ _ _ He k Hk). }
  assert (Hroomy : ∀ k, 0 ≤ k < c → rs_ok (n_ruleset (roomy k))).
  { intros k Hk. unfold roomy. rewrite with_ruleset_ruleset. specialize (Hcount k Hk).
    pose proof (zlen_nonneg (hi_child_rules k)). split; simpl; [lia|]. unfold zlen. rewrite length_replicate. lia. }
  destruct (push_ops_spec (concat (hi_ops <$> live rs)) cs) as (cs' & Hm & Hlen' & Hrec).
  - intros o Ho. apply list_elem_of_In, in_concat in Ho as (ops & Hops%list_elem_of_In & Ho%list_elem_of_In).
    apply list_elem_of_fmap in Hops as (r & -> & Hr). apply list_elem_of_fmap in Ho as (k & -> & Hk).
    apply list_elem_of_filter in Hk as [_ Hk%elem_of_seqZ]. cbn [fst]. lia.
  - intros p ch Hp. destruct (Hcell p ch Hp) as [Hpb ->]. split; [by apply Hroomy|].
    rewrite ops_at_hi_all, Hcount by done. unfold roomy. rewrite with_ruleset_ruleset. simpl. lia.
  - exists cs'. split; [done|]. split; [unfold zlen in *; congruence|]. intros k Hk.
    destruct (Hrec (Z.to_nat k) (roomy k)) as (ch & Hch & Hz & Hrs & Hlive & Hcap & Hnum); [by apply Hcs|].
    rewrite Z2Nat.id, ops_at_hi_all in Hlive, Hnum by (done || lia). exists ch. split; [done|].
    unfold roomy in Hz, Hlive, Hcap, Hnum. rewrite with_ruleset_ruleset in Hlive, Hcap, Hnum.
    rewrite with_ruleset_twice in Hz. cbn [num cap] in Hnum, Hcap. rewrite Hcount in Hnum by done.
    assert (Hlive' : live (n_ruleset ch) = hi_child_rules k) by done.
    split; [|split; [done|lia]]. split; [done|]. split; [split; [done|]|lia].
    rewrite Hlive'. unfold hi_child_rules. apply Forall_fmap, Forall_forall.
    intros r [Hm'%Is_true_true Hr]%list_elem_of_filter. by apply trimmed_ok.
Qed.

Lemma hi_cut_eq rec n aux :
  n_ruleset n = rs → ca_hi aux = ha →
  ∃ cs hn, hi_cut rec n d aux =
      ('(cs, aux) ← cut_recursive rec cs c aux;
       Ok (CNode (BHi hn cs) (n_dim n) (n_leaf n) (n_type n) (mk_rs 0 0 []), aux)) ∧
    hn_start hn = start ∧ hn_shift hn = shift ∧ 0 ≤ hn_bitmap hn < 2 ^ 64 ∧
    (∀ x, 0 ≤ x → Z.testbit (hn_bitmap hn) x = true ↔ ∃ k, 0 ≤ k < c - 1 ∧ x = seg_hi nr k) ∧
    zlen cs = c ∧
    ∀ k, 0 ≤ k < c → ∃ ch, cs !! Z.to_nat k = Some ch ∧ child_ok ch ∧
      live (n_ruleset ch) = hi_child_rules k ∧ num (n_ruleset ch) = anth (child_rulecount h) k.
Proof.
  intros Hrs Hha. pose proof c_bounds as Hcb. pose proof (he_parts _ _ _ _ _ _ _ He) as Hp.
  destruct (he_div _ _ _ _ _ _ _ He).
  destruct hi_alloc_spec as (cs1 & Ha & Hl1 & Hc1). destruct (hi_push_all cs1 Hl1 Hc1) as (cs2 & Hpush & Hl2 & Hc2).
  destruct (hi_set_bitmap_spec nr c (div - 1) Hp ltac:(lia)) as (m & Hm & Hmb & Hmt); [lia|lia|].
  exists cs2, (mk_hn start shift m). split; [|done].
  unfold hi_cut, bc_calloc. rewrite alloc_total, Hrs, Hha, Ha. cbn [mbind res_bind]. rewrite Hpush. cbn [mbind res_bind].
  assert (Hassert : mfor 0 c (λ i _, c0 ← aget cs2 i; k ← aget (child_rulecount h) i;
    assert_ (num (n_ruleset c0) =? k)) tt = Ok tt).
  { unfold mfor. destruct (mfold_inv (λ _ _, True) (λ i (_ : ()), c0 ← aget cs2 i; k ← aget (child_rulecount h) i;
      assert_ (num (n_ruleset c0) =? k)) (seqZ 0 (c - 0)) tt) as ([] & Hr & _); [done| |done].
    intros pre i [] _ [rest Hrest]. destruct (seqZ_split _ _ _ _ _ Hrest) as [_ Hib].
    destruct (Hc2 i ltac:(lia)) as (ch & Hch & _ & _ & Hnum).
    rewrite (aget_lookup cs2 i ch) by (lia || done). cbn [mbind res_bind].
    pose proof (he_len _ _ _ _ _ _ _ He) as Hl.
    rewrite (aget_lookup _ i (anth (child_rulecount h) i))
      by (lia || (apply list_lookup_lookup_total_lt; unfold zlen in Hl; lia)).
    cbn [mbind res_bind]. exists tt. split; [|done]. unfold assert_. by rewrite Hnum, Z.eqb_refl. }
  rewrite Hassert. cbn [mbind res_bind]. unfold hi_set_node. rewrite Hm. done.
Qed.

(** ** The search goes to the right child *)
Lemma classify_hi_child f k :
  flow_ok f → 0 ≤ k < c → start ≤ anth (key f) d →
  (seg_lo nr k ≤ sidx start seg (anth (key f) d) ≤ seg_hi nr k ∨
   k = c - 1 ∧ seg_hi nr k < sidx start seg (anth (key f) d)) →
  classify (hi_child_rules k) f = classify (live rs) f.
Proof.
  intros [Hfl Hfk] Hk Hst Hseg. set (x := anth (key f) d) in *.
  assert (Hrules := proj2 Hok). rewrite Forall_forall in Hrules.
  assert (Hg : hi_child_rules k = concat ((λ r, if meets start seg (seg_lo nr k) (seg_hi nr k) (rng r d).1 (rng r d).2
    then [trimmed k r] else []) <$> live rs)).
  { unfold hi_child_rules, meeting. clear. induction (live rs) as [|r l IH]; [done|]. rewrite filter_cons, fmap_cons.
    cbn [concat]. rewrite <- IH.
    destruct (meets _ _ _ _ _ _); [by rewrite decide_True|]. by rewrite decide_False by (intros []). }
  rewrite Hg. apply classify_concat. intros r Hr. pose proof seg_pos as Hsp.
  destruct (Hrules r Hr) as (Hlen & _ & _). pose proof (rule_bounds rs d Hd Hok r Hr).
  destruct (he_rules _ _ _ _ _ _ _ He r Hr) as [Hlo Hhi].
  assert (Hlast : seg_hi nr (c - 1) = div - 1).
  { pose proof c_bounds. apply (parts_last _ _ _ (he_parts _ _ _ _ _ _ _ He)). lia. }
  assert (Hxin : (rng r d).1 ≤ x ≤ (rng r d).2 → seg_lo nr k ≤ sidx start seg x ≤ seg_hi nr k).
  { intros Hx. destruct Hseg as [?|[-> Hgt]]; [done|]. rewrite Hlast in Hgt.
    destruct (rule_seg r x Hr Hx) as [_ ?]. lia. }
  destruct (meets _ _ _ _ _ _) eqn:Em.
  - destruct (trimmed_range r k Hr Hk Em) as [Htr _]. cbn [classify].
    match goal with |- (if ?a then _ else _) = (if ?b then _ else _) => assert (a = b) as -> end.
    2:{ rewrite Htr. done. }
    apply eq_true_iff_eq. rewrite !(matches_split d), Htr by done. fold x.
    rewrite rng_set_eq, match_rest_set by (done || lia). cbn [fst snd].
    split; [intros [? ?]; split; [lia|done]|]. intros [Hx Hrest]. split; [|done].
    specialize (Hxin Hx). unfold sidx in Hxin.
    pose proof (Z.div_mod (x - start) seg (Z.neq_sym _ _ (Z.lt_neq _ _ Hsp))) as Hdm.
    pose proof (Z.mod_pos_bound (x - start) seg Hsp).
    set (q := (x - start) / seg) in *. clearbody q. split; nia.
  - cbn [classify]. assert (lsearch_match f r = false) as ->; [|done].
    apply not_true_is_false. intros [Hx _]%(matches_split d); [|done]. fold x in Hx. specialize (Hxin Hx).
    apply andb_false_iff in Em. rewrite !Z.leb_gt in Em.
    assert (sidx start seg (rng r d).1 ≤ sidx start seg x) by (apply Z.div_le_mono; lia).
    assert (sidx start seg x ≤ sidx start seg (rng r d).2) by (apply Z.div_le_mono; lia). lia.
Qed.

Lemma hi_search_child hn cs n f :
  hn_start hn = start → hn_shift hn = shift → 0 ≤ hn_bitmap hn < 2 ^ 64 →
  (∀ x, 0 ≤ x → Z.testbit (hn_bitmap hn) x = true ↔ ∃ k, 0 ≤ k < c - 1 ∧ x = seg_hi nr k) →
  n_body n = BHi hn cs → n_dim n = d → zlen cs = c → flow_ok f →
  (∃ k ch, 0 ≤ k < c ∧ cs !! Z.to_nat k = Some ch ∧ hi_search n f = Ok (Some ch, f) ∧
     classify (hi_child_rules k) f = classify (live rs) f)
  ∨ (classify (live rs) f = None ∧ (hi_search n f = Ok (None, f) ∨ hi_search n f = Err EShift)).
Proof.
  intros Hst Hsh Hb Ht Hbody Hdim Hlen Hf. pose proof c_bounds as Hcb. pose proof seg_pos as Hsp.
  destruct (he_shift _ _ _ _ _ _ _ He) as [Hsh0 _]. destruct (he_div _ _ _ _ _ _ _ He).
  pose proof (he_parts _ _ _ _ _ _ _ He) as Hp. set (x := anth (key f) d).
  pose proof (seg_last _ _ _ Hp ltac:(lia)) as Hlast.
  assert (Hnone : ∀ P : Prop, ((∀ r, r ∈ live rs → (rng r d).1 ≤ x ≤ (rng r d).2 → P)) → (P → False) →
    classify (live rs) f = None).
  { intros P Hr HP. apply classify_None. intros r Hin. apply not_true_is_false.
    intros [Hx _]%(matches_split d); [|done]. apply HP. by eapply Hr. }
  unfold hi_search. rewrite Hbody, Hdim, Hst, Hsh. fold x. destruct (Z.ltb_spec x start) as [Hlt|Hge].
  { right. split; [|by left]. apply (Hnone False); [|done]. intros r Hr Hx.
    destruct (he_rules _ _ _ _ _ _ _ He r Hr). lia. }
  rewrite Z.shiftr_div_pow2 by lia. fold (sidx start seg x).
  assert (Hidx0 : 0 ≤ sidx start seg x) by (apply Z.div_pos; lia).
  unfold hi_next. destruct (Z.leb_spec 64 (sidx start seg x)) as [H64|H64].
  { right. split; [|by right]. apply (Hnone False); [|done]. intros r Hr Hx.
    destruct (rule_seg r x Hr Hx) as [_ ?]. lia. }
  assert (Hk : ∃ k, 0 ≤ k < c ∧ seg_lo nr k ≤ sidx start seg x ∧
    (sidx start seg x ≤ seg_hi nr k ∨ k = c - 1 ∧ seg_hi nr k < sidx start seg x)).
  { destruct (decide (sidx start seg x ≤ div - 1)).
    - destruct (seg_child nr c (div - 1) Hp ltac:(lia) (sidx start seg x)) as (k & Hk & ? & ?); [lia|].
      exists k. split; [done|]. split; [done|by left].
    - exists (c - 1). assert (seg_lo nr (c - 1) ≤ seg_hi nr (c - 1)) by (apply (seg_le nr c (div - 1) Hp); lia). split; [lia|]. split; [lia|]. right. split; [done|lia]. }
  destruct Hk as (k & Hk & Hka & Hkb). left.
  destruct (lookup_lt_is_Some_2 cs (Z.to_nat k)) as [ch Hch]; [unfold zlen in Hlen; lia|].
  exists k, ch. split; [done|]. split; [done|].
  cbn [mbind res_bind]. rewrite Z.shiftl_1_l, popcount_mask by lia.
  rewrite (boundaries_below nr c (div - 1) Hp ltac:(lia) _ k) by (try done; naive_solver lia).
  rewrite (aget_lookup cs k ch) by (lia || done). split; [done|].
  apply classify_hi_child; [done|done|done|]. fold x. lia.
Qed.
End hi_cut.

(** Cutting a node along a fresh division gives a tree that answers like the
    node's rules. *)
Lemma hi_cut_good `{AllocTotal} I rec n d aux n' aux' :
  0 ≤ d < DIM → rec_ok I rec → I aux → set_ok (n_ruleset n) →
  n_leaf n = false → n_type n = HI_CUT → n_dim n = d → hi_fresh (n_ruleset n) d (ca_hi aux) →
  hi_cut rec n d aux = Ok (n', aux') → good n' (live (n_ruleset n)) ∧ I aux'.
Proof.
  intros Hd Hrec HI Hok Hleaf Htype Hdim [div He] Hc.
  destruct (hi_cut_eq (n_ruleset n) d Hd Hok (ca_hi aux) div He rec n aux)
    as (cs & hn & Heq & Hst & Hsh & Hb & Ht & Hlen & Hcs); [done..|].
  rewrite Heq in Hc. apply bind_Ok in Hc as ([cs' aux1] & Hr & Hc). injection Hc as <- <-.
  unfold cut_recursive, mfor in Hr. rewrite Z.sub_0_r in Hr. set (cc := childs _) in *.
  apply (cut_children_good I) in Hr as (HI' & Hl & Hgood); [|done|done| |apply NoDup_seqZ].
  2:{ intros p ch [Hp1 Hp2]%elem_of_seqZ Hch. destruct (Hcs (Z.of_nat p)) as (ch' & Hch' & Hok' & _); [lia|].
      rewrite Nat2Z.id in Hch'. congruence. }
  split; [|done]. apply good_cut; [| |done|].
  { cbn [shape_ok n_body n_type]. split; [done|]. split; [done|].
    pose proof (he_div _ _ _ _ _ _ _ He). rewrite (seg_popcount _ _ _ (he_parts _ _ _ _ _ _ _ He)) by
      (done || lia || by eapply he_childs). unfold zlen in *. rewrite Hl. lia. }
  { eapply good_children; [exact Hl| |exact Hgood]. intros p Hp. apply elem_of_seqZ. unfold zlen in Hlen. lia. }
  intros f Hf.
  match goal with |- context [search_step ?n0 f] => set (nd := n0) end.
  assert (Hstep : search_step nd f = hi_search nd f) by (unfold search_step, nd; simpl; by rewrite Htype).
  rewrite Hstep.
  destruct (hi_search_child (n_ruleset n) d Hd Hok (ca_hi aux) div He hn cs' nd f) as
    [(k & ch & Hk & Hlk & Hsr & Hcl)|[Hnone Hsr]]; try done.
  { unfold zlen in *. by rewrite Hl. }
  - left. eexists ch, f, _. split; [done|]. split; [done|]. split; [|exact Hcl].
    destruct (Hcs k Hk) as (ch0 & Hch0 & _ & Hlive & _). specialize (Hgood _ _ Hch0).
    rewrite decide_True in Hgood by (apply elem_of_seqZ; lia).
    destruct Hgood as (c' & Hc' & Hg). rewrite <- Hlive. by assert (ch = c') as -> by congruence.
  - right. split; [done|]. destruct Hsr as [->| ->]; eauto.
Qed.
