(* ===== verification/SplitSweep.v ===== *)
(** * The sweep of the split cut

    [split_match_expect_1d] walks the distinct ranges in order, with a heap of the
    open ones, and tries a split behind every end and before every start.  The
    theory shows that the sweep succeeds and that the split it reports divides the
    span, with the exact numbers of rules on both sides. *)
From S2P Require Import Prelude.
From S2P Require Import Rule.
From S2P Require Import Ranges.
From S2P Require Import Heap.
From S2P Require Import Double.
From S2P Require Import CutInl.
From S2P Require Import CutBitmap.
From S2P Require Import CutSplit.
From S2P Require Import LoadRanges.
From S2P Require Import HiSweep.
#[local] Open Scope Z_scope.

(** Distinct ranges in order; [n] is the number of rules. *)
Record split_input (R : list range1d) (n : Z) : Prop := {
  pi_sorted : StronglySorted range_lt R;
  pi_bounds : ∀ r, r ∈ R → 0 ≤ low r ≤ high r ∧ high r < 2 ^ 32;
  pi_weights : Forall (λ r, 0 ≤ weight r) R;
  pi_total : wsum (λ _ _, true) R = n;
  pi_n : n < 2 ^ 31 }.

Section sweep.
Context `{AllocTotal} (R : list range1d) (n : Z) (Hin : split_input R n).
Context (lo : Z) (Hlo : ∀ r, r ∈ R → lo ≤ low r) (Hlo0 : 0 ≤ lo).

(** The split found so far is inside the span and its counts are exact. *)
Definition best_ok (me : double) (split w0 w1 : Z) : Prop :=
  me = d_of_Z n ∨
  (lo ≤ split ∧ (∃ r, r ∈ R ∧ split < high r) ∧ (∃ r, r ∈ R ∧ low r ≤ split) ∧
   w0 = wsum (λ a _, a <=? split) R ∧ w1 = wsum (λ _ b, split <? b) R).

(** The state after the first [i] ranges were pushed, [P] of them closed. *)
Record sinv (i : nat) (s : sweep) : Prop := {
  sv_heap : range_heap (w_h s);
  sv_best : best_ok (w_min_me s) (w_split s) (w_weight0 s) (w_weight1 s);
  sv_high : ∃ r, r ∈ R ∧ high r = w_high s;
  sv_closed : ∃ P, P ++ contents (w_h s) ≡ₚ take i R ∧ w_left s = wsum (λ _ _, true) P ∧
    (∀ p, p ∈ P → high p ≤ w_high s) ∧
    (∀ p q, p ∈ P → q ∈ contents (w_h s) → high p < high q) ∧
    (∀ p q, p ∈ P → q ∈ drop i R → high p < low q);
  sv_open : ∀ p q, p ∈ take i R → q ∈ contents (w_h s) → low p ≤ high q }.

Lemma take_in_R i r : r ∈ take i R → r ∈ R.
Proof. intros Hr. rewrite <- (take_drop i R). apply elem_of_app. by left. Qed.
Lemma drop_in_R i r : r ∈ drop i R → r ∈ R.
Proof. intros Hr. rewrite <- (take_drop i R). apply elem_of_app. by right. Qed.

(** ** Trying a split *)
Lemma split_candidate_inv i s e P :
  sinv i s → P ++ contents (w_h s) ≡ₚ take i R → w_left s = wsum (λ _ _, true) P →
  (∀ p, p ∈ P → high p ≤ e) → (∀ q, q ∈ contents (w_h s) → e < high q) →
  (∀ p, p ∈ take i R → low p ≤ e) → (∀ q, q ∈ drop i R → e < low q) →
  (0 < i)%nat → (contents (w_h s) ≠ [] ∨ drop i R ≠ []) → R ≠ [] →
  sinv i (split_candidate n s e) ∧ w_h (split_candidate n s e) = w_h s.
Proof.
  intros [Hh Hb Hhi Hcl Hop] HP Hleft HPe Hce Hte Hde Hi Hrest HRne.
  pose proof (pi_weights _ _ Hin) as Hw. pose proof (pi_total _ _ Hin) as Htot. pose proof (pi_n _ _ Hin) as Hn.
  unfold split_candidate. rewrite heap_weight_wsum.
  assert (Hall : wsum (λ _ _, true) P + wsum (λ _ _, true) (contents (w_h s)) = wsum (λ a _, a <=? e) R).
  { rewrite <- wsum_app, (wsum_perm _ _ _ HP). rewrite <- (take_drop i R) at 2. rewrite wsum_app.
    rewrite (wsum_ext (λ a _, a <=? e) (λ _ _, true) (take i R)) by (intros r Hr; specialize (Hte r Hr); zbool).
    rewrite (wsum_ext (λ a _, a <=? e) (λ _ _, false) (drop i R)) by (intros r Hr; specialize (Hde r Hr); zbool).
    assert (wsum (λ _ _, false) (drop i R) = 0) as ->; [|lia]. clear. induction (drop i R); simpl; lia. }
  assert (Hright : n - wsum (λ _ _, true) P = wsum (λ _ b, e <? b) R).
  { rewrite <- Htot. rewrite <- (take_drop i R), !wsum_app, <- !(wsum_perm _ _ _ HP), !wsum_app.
    rewrite (wsum_ext (λ _ b, e <? b) (λ _ _, false) P) by (intros r Hr; specialize (HPe r Hr); zbool).
    rewrite (wsum_ext (λ _ b, e <? b) (λ _ _, true) (contents (w_h s))) by (intros r Hr; specialize (Hce r Hr); zbool).
    rewrite (wsum_ext (λ _ b, e <? b) (λ _ _, true) (drop i R)).
    2:{ intros r Hr. specialize (Hde r Hr). destruct (pi_bounds _ _ Hin r (drop_in_R i r Hr)). zbool. }
    assert (wsum (λ _ _, false) P = 0) as ->; [|lia]. clear. induction P; simpl; lia. }
  assert (Hbounds : ∀ Q, 0 ≤ wsum Q R < 2 ^ 31).
  { intros Q. split; [by apply wsum_nonneg|]. pose proof (wsum_le Q R Hw). lia. }
  assert (HwP : 0 ≤ wsum (λ _ _, true) P).
  { apply wsum_nonneg. rewrite Forall_forall in Hw |- *. intros r Hr. apply Hw, (take_in_R i).
    rewrite <- HP. apply elem_of_app. by left. }
  assert (HwC : 0 ≤ wsum (λ _ _, true) (contents (w_h s))).
  { apply wsum_nonneg. rewrite Forall_forall in Hw |- *. intros r Hr. apply Hw, (take_in_R i).
    rewrite <- HP. apply elem_of_app. by right. }
  pose proof (Hbounds (λ a _, a <=? e)). pose proof (Hbounds (λ _ b, e <? b)).
  rewrite Hleft. unfold u32. rewrite (Z.mod_small (wsum _ (contents _))) by lia.
  rewrite (Z.mod_small (wsum _ P + _)), (Z.mod_small (n - _)) by lia. rewrite Hall, Hright.
  unfold find_min_me_do. destruct (dlt _ _); [|split; [split; eauto|done]].
  split; [|done]. split; cbn; try done. right.
  assert (Hfirst : ∃ r, r ∈ take i R) by (destruct R as [|r ?]; [done|]; destruct i; [lia|]; exists r; left).
  destruct Hfirst as [r0 Hr0]. pose proof (Hlo r0 (take_in_R _ _ Hr0)). specialize (Hte r0 Hr0).
  split; [lia|]. split; [|split; [exists r0; eauto using take_in_R|done]].
  destruct Hrest as [Hc|Hc].
  - destruct (contents (w_h s)) as [|q k] eqn:Ek; [done|]. exists q. split; [|apply Hce; left].
    apply (take_in_R i). rewrite <- HP. apply elem_of_app. right. left.
  - destruct (drop i R) as [|q k] eqn:Ek; [done|]. exists q. assert (Hq : q ∈ drop i R) by (rewrite Ek; left).
    pose proof (drop_in_R _ _ Hq) as HqR. split; [done|]. destruct (pi_bounds _ _ Hin q HqR) as [? _].
    specialize (Hde q ltac:(left)). lia.
Qed.

(** ** Closing the ranges with the least end *)
Lemma pop_equal_spec fuel e s :
  range_heap (w_h s) → (hlen (w_h s) ≤ fuel)%nat → (∀ q, q ∈ contents (w_h s) → e ≤ high q) →
  Forall (λ r, 0 ≤ weight r) (contents (w_h s)) → 0 ≤ w_left s →
  w_left s + wsum (λ _ _, true) (contents (w_h s)) < 2 ^ 32 →
  ∃ s', pop_equal fuel e s = Ok s' ∧ range_heap (w_h s') ∧
    contents (w_h s') ≡ₚ filter (λ r, high r ≠ e) (contents (w_h s)) ∧
    w_left s' = w_left s + wsum (λ _ b, b =? e) (contents (w_h s)) ∧
    w_min_me s' = w_min_me s ∧ w_split s' = w_split s ∧ w_weight0 s' = w_weight0 s ∧
    w_weight1 s' = w_weight1 s ∧ w_high s' = w_high s.
Proof.
  revert s. induction fuel as [|fuel IH]; intros s Hh Hf He Hw Hl Hb; cbn [pop_equal].
  - assert (Hz : hlen (w_h s) = 0%nat) by lia. rewrite Hz. cbn [Nat.eqb].
    apply (range_heap_empty _ Hh) in Hz. exists s. rewrite Hz. simpl. rewrite Z.add_0_r. by split_and!.
  - destruct (Nat.eqb_spec (hlen (w_h s)) 0) as [Hz|Hz].
    { apply (range_heap_empty _ Hh) in Hz. exists s. rewrite Hz. simpl. rewrite Z.add_0_r. by split_and!. }
    destruct (range_heap_pop _ Hh Hz) as (h1 & x & Hpk & Hpop & Hh1 & Hn1 & Hc & Hmin).
    rewrite Hpk. cbn [mbind res_bind]. destruct (Z.eqb_spec (high x) e) as [Hx|Hx].
    + rewrite Hpop. cbn [mbind res_bind].
      assert (Hw1 : Forall (λ r, 0 ≤ weight r) (x :: contents h1)) by (by rewrite <- Hc).
      apply Forall_cons in Hw1 as [Hwx Hw1]. pose proof (wsum_nonneg (λ _ _, true) _ Hw1).
      rewrite (wsum_perm _ _ _ Hc), wsum_cons in Hb.
      match goal with |- context [pop_equal fuel e ?s1] => destruct (IH s1) as (s' & -> & Hh' & Hc' & Hl' & Hrest) end;
        cbn; try done.
      { lia. } { intros q Hq. apply He. rewrite Hc. by right. }
      { unfold u32. rewrite Z.mod_small; lia. } { unfold u32. rewrite Z.mod_small; lia. }
      exists s'. split; [done|]. split; [done|]. cbn in Hc', Hl', Hrest. split.
      { rewrite Hc', Hc. by rewrite filter_cons_False by (intros Hne; done). }
      split; [|done]. rewrite Hl', (wsum_perm _ _ _ Hc), wsum_cons. rewrite (proj2 (Z.eqb_eq _ _)) by done.
      unfold u32. rewrite Z.mod_small; lia.
    + exists s. split; [done|]. split; [done|].
      assert (Hne : ∀ q, q ∈ contents (w_h s) → high q ≠ e).
      { intros q Hq. specialize (Hmin q Hq). assert (Hxin : x ∈ contents (w_h s)) by (rewrite Hc; left).
        specialize (He x Hxin). lia. }
      split; [by rewrite filter_all|]. split; [|done].
      rewrite (wsum_ext _ (λ _ _, false)) by (intros r Hr; apply Z.eqb_neq; auto).
      assert (wsum (λ _ _, false) (contents (w_h s)) = 0) as ->; [|lia]. clear. induction (contents _); simpl; lia.
Qed.

(** The whole group: the least end [e] becomes closed. *)
Lemma close_group i s x :
  sinv i s → hlen (w_h s) ≠ 0%nat → heap_peek (w_h s) = Ok x → (∀ q, q ∈ drop i R → high x < low q) →
  ∃ s' P, pop_equal (hlen (w_h s)) (high x) (raise_high (high x) s) = Ok s' ∧ sinv i s' ∧
    P ++ contents (w_h s') ≡ₚ take i R ∧ w_left s' = wsum (λ _ _, true) P ∧
    (∀ p, p ∈ P → high p ≤ high x) ∧ (∀ q, q ∈ contents (w_h s') → high x < high q) ∧
    (∀ p, p ∈ take i R → low p ≤ high x) ∧ (hlen (w_h s') < hlen (w_h s))%nat.
Proof.
  intros [Hh Hb (rm & HrmR & Hrm) (P & HP & Hleft & HPh & HPc & HPd) Hop] Hz Hpk Hd.
  pose proof (pi_weights _ _ Hin) as Hw. pose proof (pi_total _ _ Hin) as Htot. pose proof (pi_n _ _ Hin) as Hn.
  destruct (range_heap_pop _ Hh Hz) as (h1 & x' & Hpk' & _ & _ & Hlen1 & Hc & Hmin).
  assert (x' = x) as -> by congruence. clear Hpk'.
  assert (Hx : x ∈ contents (w_h s)) by (rewrite Hc; left).
  assert (HinR : ∀ q, q ∈ P ++ contents (w_h s) → q ∈ R) by (intros q Hq; rewrite HP in Hq; by eapply take_in_R).
  assert (HxR : x ∈ R) by (apply HinR, elem_of_app; by right).
  rewrite Forall_forall in Hw.
  assert (HwC : Forall (λ r, 0 ≤ weight r) (contents (w_h s)))
    by (apply Forall_forall; intros q Hq; apply Hw, HinR, elem_of_app; by right).
  assert (HwP : 0 ≤ wsum (λ _ _, true) P)
    by (apply wsum_nonneg, Forall_forall; intros q Hq; apply Hw, HinR, elem_of_app; by left).
  assert (Hsum : wsum (λ _ _, true) P + wsum (λ _ _, true) (contents (w_h s)) < 2 ^ 32).
  { rewrite <- wsum_app, (wsum_perm _ _ _ HP). assert (wsum (λ _ _, true) (take i R) ≤ n); [|lia].
    rewrite <- Htot. rewrite <- (take_drop i R) at 2. rewrite wsum_app.
    assert (0 ≤ wsum (λ _ _, true) (drop i R)); [|lia]. apply wsum_nonneg, Forall_forall.
    intros q Hq. by eapply Hw, drop_in_R. }
  destruct (pop_equal_spec (hlen (w_h s)) (high x) (raise_high (high x) s)) as
    (s' & Hpop & Hh' & Hc' & Hl' & E1 & E2 & E3 & E4 & E5); cbn in *; try done; try lia.
  set (G := filter (λ r, high r = high x) (contents (w_h s))).
  assert (Hsplit : G ++ contents (w_h s') ≡ₚ contents (w_h s)).
  { rewrite Hc'. unfold G. clear. induction (contents (w_h s)) as [|q l IH]; [done|].
    destruct (decide (high q = high x)).
    - rewrite filter_cons_True, (filter_cons_False (λ r, high r ≠ high x)) by auto. simpl. by rewrite IH.
    - rewrite filter_cons_False, (filter_cons_True (λ r, high r ≠ high x)) by done.
      rewrite <- Permutation_middle. by rewrite IH. }
  assert (HG : wsum (λ _ b, b =? high x) (contents (w_h s)) = wsum (λ _ _, true) G).
  { unfold G. rewrite (filter_ext_in _ (λ r, Is_true (high r =? high x))).
    - rewrite (wsum_filter _ (λ _ b, b =? high x)). apply wsum_ext. intros. by rewrite andb_true_r.
    - intros r _. by rewrite Is_true_true, Z.eqb_eq. }
  assert (HinC' : ∀ q, q ∈ contents (w_h s') → q ∈ contents (w_h s) ∧ high q ≠ high x).
  { intros q Hq. rewrite Hc' in Hq. by apply list_elem_of_filter in Hq as [? ?]. }
  assert (HPG : ∀ p, p ∈ P ++ G → high p ≤ high x).
  { intros p [Hp|Hp]%elem_of_app; [specialize (HPc p x Hp Hx); lia|].
    apply list_elem_of_filter in Hp as [-> _]. lia. }
  assert (HC' : ∀ q, q ∈ contents (w_h s') → high x < high q).
  { intros q [Hq Hne]%HinC'. specialize (Hmin q Hq). lia. }
  assert (HPGperm : (P ++ G) ++ contents (w_h s') ≡ₚ take i R) by (rewrite <- app_assoc, Hsplit; done).
  exists s', (P ++ G). split; [done|].
  assert (Hleft' : w_left s' = wsum (λ _ _, true) (P ++ G)) by (rewrite wsum_app, Hl', HG, Hleft; done).
  assert (Hlen' : (hlen (w_h s') < hlen (w_h s))%nat).
  { rewrite <- !contents_length by (apply Hh || apply Hh'). apply Permutation_length in Hsplit.
    rewrite length_app in Hsplit. assert (G ≠ []) by (intros HG0; assert (x ∈ G) as Hxg
      by (by apply list_elem_of_filter); rewrite HG0 in Hxg; by apply elem_of_nil in Hxg).
    destruct G; [done|]. simpl in Hsplit. lia. }
  split; [|split; [done|]; split; [done|]; split; [done|]; split; [done|]; split; [|done]].
  2:{ intros p Hp. apply (Hop p x Hp Hx). }
  split.
  - done.
  - by rewrite E1, E2, E3, E4.
  - rewrite E5. destruct (Z.ltb_spec (w_high s) (high x)); eauto.
  - exists (P ++ G). split; [done|]. split; [done|]. split; [|split].
    + intros p Hp. rewrite E5. specialize (HPG p Hp). destruct (Z.ltb_spec (w_high s) (high x)); lia.
    + intros p q Hp Hq. specialize (HPG p Hp). specialize (HC' q Hq). lia.
    + intros p q Hp Hq. specialize (HPG p Hp). specialize (Hd q Hq). lia.
  - intros p q Hp Hq. apply Hop; [done|]. by apply HinC'.
Qed.

(** ** The loops *)
Lemma sorted_drop (i : nat) r q : R !! i = Some r → q ∈ drop i R → low r ≤ low q.
Proof.
  intros Hr Hd. pose proof (pi_sorted _ _ Hin) as Hs.
  rewrite (drop_S R r i Hr) in Hd. apply elem_of_cons in Hd as [->|Hd]; [lia|].
  rewrite <- (take_drop i R), (drop_S R r i Hr) in Hs.
  apply StronglySorted_app in Hs as (_ & _ & Hs). apply StronglySorted_cons in Hs as [Hs _].
  rewrite Forall_forall in Hs. specialize (Hs q Hd). unfold range_lt in Hs. lia.
Qed.

Lemma sorted_take (i : nat) r p : R !! i = Some r → p ∈ take i R → low p ≤ low r.
Proof.
  intros Hr Hp. pose proof (pi_sorted _ _ Hin) as Hs.
  rewrite <- (take_drop i R), (drop_S R r i Hr) in Hs.
  apply StronglySorted_app in Hs as (Hs & _ & _). specialize (Hs p r Hp ltac:(left)).
  unfold range_lt in Hs. lia.
Qed.

Lemma sweep_ends_spec fuel i s r :
  sinv i s → R !! i = Some r → (0 < i)%nat → (hlen (w_h s) ≤ fuel)%nat →
  ∃ s', sweep_ends fuel n (low r) s = Ok s' ∧ sinv i s' ∧ ∀ q, q ∈ contents (w_h s') → low r ≤ high q.
Proof.
  intros Hv Hr Hi. revert s Hv.
  assert (Hdrop : drop i R ≠ []) by (rewrite (drop_S R r i Hr); done).
  assert (HRne : R ≠ []) by (intros HR; by rewrite HR in Hr).
  induction fuel as [|fuel IH]; intros s Hv Hf; cbn [sweep_ends].
  - assert (Hz : hlen (w_h s) = 0%nat) by lia. rewrite Hz. cbn [Nat.eqb]. exists s.
    split; [done|]. split; [done|]. apply (range_heap_empty _ (sv_heap _ _ Hv)) in Hz. rewrite Hz. by intros q ?%elem_of_nil.
  - destruct (Nat.eqb_spec (hlen (w_h s)) 0) as [Hz|Hz].
    { exists s. split; [done|]. split; [done|]. apply (range_heap_empty _ (sv_heap _ _ Hv)) in Hz. rewrite Hz.
      by intros q ?%elem_of_nil. }
    destruct (range_heap_pop _ (sv_heap _ _ Hv) Hz) as (_ & x & Hpk & _ & _ & _ & _ & Hmin).
    rewrite Hpk. cbn [mbind res_bind]. destruct (Z.ltb_spec (high x) (low r)) as [Hlt|Hge].
    + assert (Hd : ∀ q, q ∈ drop i R → high x < low q) by (intros q Hq; pose proof (sorted_drop i r q Hr Hq); lia).
      destruct (close_group i s x Hv Hz Hpk Hd) as (s1 & P & -> & Hv1 & HP & Hl & HPe & Hce & Hte & Hlen).
      cbn [mbind res_bind].
      destruct (split_candidate_inv i s1 (high x) P) as [Hv2 Hh2]; try done; [by right|].
      apply IH; [done|]. rewrite Hh2. lia.
    + exists s. split; [done|]. split; [done|]. intros q Hq. specialize (Hmin q Hq). lia.
Qed.

Lemma sweep_range_spec i s r last :
  sinv i s → R !! i = Some r → (0 < i)%nat → (∀ p, p ∈ take i R → low p ≤ last) →
  (∃ p, p ∈ take i R ∧ low p = last) →
  ∃ s', sweep_range n r (s, last) = Ok (s', low r) ∧ sinv (S i) s'.
Proof.
  intros Hv Hr Hi Hlast (p0 & Hp0 & Hp0l). unfold sweep_range.
  destruct (sweep_ends_spec (hlen (w_h s)) i s r Hv Hr Hi (le_n _)) as (s1 & -> & Hv1 & Hopen). cbn [mbind res_bind].
  assert (HrR : r ∈ R) by (by eapply list_elem_of_lookup_2).
  destruct (pi_bounds _ _ Hin r HrR) as [Hrb _].
  assert (Hrd : r ∈ drop i R) by (rewrite (drop_S R r i Hr); left).
  assert (Hll : last ≤ low r) by (rewrite <- Hp0l; by eapply sorted_take).
  assert (HRne : R ≠ []) by (intros HR; by rewrite HR in Hr).
  assert (Htk : take (S i) R = take i R ++ [r]) by (by apply take_S_snoc).
  (* pushing the range *)
  assert (Hpush : ∀ s2, sinv i s2 → (∀ q, q ∈ contents (w_h s2) → low r ≤ high q) →
    ∃ s', sweep_push r s2 = Ok s' ∧ sinv (S i) s').
  { intros s2 [Hh Hb Hhi (P & HP & Hleft & HPh & HPc & HPd) Hop] Hop2. unfold sweep_push.
    destruct (range_heap_push (w_h s2) r Hh) as (h' & -> & Hh' & _ & Hc'). cbn [mbind res_bind].
    eexists. split; [done|]. split; cbn [w_h w_left w_min_me w_split w_weight0 w_weight1 w_high]; try done.
    - exists P. split; [rewrite Hc', Htk, <- HP; by rewrite <- Permutation_middle, Permutation_cons_append|].
      split; [done|]. split; [done|]. split.
      + intros p q Hp Hq. rewrite Hc' in Hq. apply elem_of_cons in Hq as [->|Hq]; [|auto].
        specialize (HPd p r Hp Hrd). lia.
      + intros p q Hp Hq. apply HPd; [done|]. rewrite (drop_S R r i Hr). by right.
    - intros p q Hp Hq. rewrite Htk in Hp. rewrite Hc' in Hq.
      apply elem_of_app in Hp as [Hp| ->%list_elem_of_singleton]; apply elem_of_cons in Hq as [->|Hq]; auto; [|lia].
      pose proof (sorted_take i r p Hr Hp). lia. }
  destruct (Z.eqb_spec (low r) last) as [He|He].
  - destruct (Hpush s1 Hv1 Hopen) as (s' & -> & Hv'). cbn [mbind res_bind]. exists s'. by rewrite He.
  - assert (Hu : u32 (low r - 1) = low r - 1).
    { destruct (pi_bounds _ _ Hin r HrR). pose proof (Hlo p0 (take_in_R _ _ Hp0)). unfold u32. rewrite Z.mod_small; lia. }
    rewrite Hu. destruct (sv_closed _ _ Hv1) as (P & HP & Hleft & _ & _ & HPd).
    destruct (split_candidate_inv i s1 (low r - 1) P) as [Hv2 Hh2]; try done.
    + intros p Hp. specialize (HPd p r Hp Hrd). lia.
    + intros q Hq. specialize (Hopen q Hq). lia.
    + intros p Hp. specialize (Hlast p Hp). lia.
    + intros q Hq. pose proof (sorted_drop i r q Hr Hq). lia.
    + right. rewrite (drop_S R r i Hr). done.
    + destruct (Hpush (split_candidate n s1 (low r - 1)) Hv2) as (s' & -> & Hv').
      { rewrite Hh2. done. }
      cbn [mbind res_bind]. by exists s'.
Qed.

Lemma sweep_rest_spec fuel s :
  sinv (length R) s → R ≠ [] → (hlen (w_h s) ≤ fuel)%nat →
  ∃ s', sweep_rest fuel n s = Ok s' ∧ sinv (length R) s' ∧ (hlen (w_h s') ≤ 1)%nat.
Proof.
  intros Hv HRne. revert s Hv. induction fuel as [|fuel IH]; intros s Hv Hf; cbn [sweep_rest].
  - rewrite (proj2 (Nat.leb_le _ _)) by lia. exists s. split; [done|]. split; [done|lia].
  - destruct (Nat.leb_spec (hlen (w_h s)) 1) as [Hz|Hz]; [by exists s|].
    destruct (range_heap_pop _ (sv_heap _ _ Hv)) as (_ & x & Hpk & _); [lia|].
    rewrite Hpk. cbn [mbind res_bind].
    destruct (close_group (length R) s x Hv) as (s1 & P & -> & Hv1 & HP & Hl & HPe & Hce & Hte & Hlen); [lia|done| |].
    { rewrite drop_all. by intros q ?%elem_of_nil. }
    cbn [mbind res_bind]. destruct (Nat.eqb_spec (hlen (w_h s1)) 0) as [Hz0|Hz0].
    + apply IH; [done|lia].
    + destruct (split_candidate_inv (length R) s1 (high x) P) as [Hv2 Hh2]; try done.
      * rewrite drop_all. by intros q ?%elem_of_nil.
      * destruct R; [done|simpl; lia].
      * left. intros Hc. apply Hz0. by apply (range_heap_empty _ (sv_heap _ _ Hv1)).
      * apply IH; [done|]. rewrite Hh2. lia.
Qed.

Lemma sweep_finish_spec s :
  sinv (length R) s → (hlen (w_h s) ≤ 1)%nat →
  ∃ s', sweep_finish s = Ok s' ∧ range_heap (w_h s') ∧ contents (w_h s') = [] ∧
    best_ok (w_min_me s') (w_split s') (w_weight0 s') (w_weight1 s') ∧
    (∃ r, r ∈ R ∧ high r = w_high s') ∧ ∀ r, r ∈ R → high r ≤ w_high s'.
Proof.
  intros [Hh Hb Hhi (P & HP & _ & HPh & _ & _) _] Hlen. unfold sweep_finish. rewrite take_ge in HP by done.
  destruct (Nat.eqb_spec (hlen (w_h s)) 0) as [Hz|Hz]; cbn [mbind res_bind].
  - rewrite Hz. cbn [Nat.eqb assert_ mbind res_bind]. exists s. apply (range_heap_empty _ Hh) in Hz.
    split_and!; try done. intros r Hr. apply HPh. rewrite <- HP, Hz, app_nil_r in Hr. done.
  - destruct (range_heap_pop _ Hh Hz) as (h1 & x & Hpk & Hpop & Hh1 & Hn1 & Hc & _).
    rewrite Hpk. cbn [mbind res_bind]. rewrite Hpop. cbn [mbind res_bind].
    assert (Hz1 : hlen h1 = 0%nat) by lia.
    cbn [w_h raise_high]. rewrite Hz1. cbn [Nat.eqb assert_ mbind res_bind].
    apply (range_heap_empty _ Hh1) in Hz1. rewrite Hz1 in Hc.
    assert (HxR : x ∈ R) by (rewrite <- HP, Hc; set_solver).
    eexists. split; [done|]. cbn [w_h w_min_me w_split w_weight0 w_weight1 w_high raise_high].
    split; [done|]. split; [done|]. split; [done|]. split.
    + destruct (Z.ltb_spec (w_high s) (high x)); eauto.
    + intros r Hr. rewrite <- HP, Hc in Hr. apply elem_of_app in Hr as [Hr| ->%list_elem_of_singleton].
      * specialize (HPh r Hr). destruct (Z.ltb_spec (w_high s) (high x)); lia.
      * destruct (Z.ltb_spec (w_high s) (high x)); lia.
Qed.

(** The state before the main loop. *)
Lemma sweep_init h r0 w0 w1 :
  range_heap h → contents h ≡ₚ [r0] → R !! 0%nat = Some r0 →
  sinv 1 (mk_sweep h 0 (d_of_Z n) (low r0) w0 w1 (high r0)).
Proof.
  intros Hh Hc Hr0. assert (HrR : r0 ∈ R) by (by eapply list_elem_of_lookup_2).
  assert (Htk : take 1 R = [r0]) by (destruct R; [done|]; simpl in *; rewrite firstn_O; congruence).
  split; cbn; try done.
  - by left.
  - eauto.
  - exists []. rewrite Htk. split; [done|]. split; [done|].
    split; [by intros ? ?%elem_of_nil|]. split; by intros ? ? ?%elem_of_nil.
  - intros p q Hp Hq. rewrite Htk in Hp. rewrite Hc in Hq. apply list_elem_of_singleton in Hp as ->.
    apply list_elem_of_singleton in Hq as ->. destruct (pi_bounds _ _ Hin r0 HrR). lia.
Qed.

(** The main loop. *)
Lemma sweep_loop_spec l s0 r0 :
  take (length R) l = R → R !! 0%nat = Some r0 → sinv 1 s0 →
  ∃ s last, mfor 1 (zlen R) (λ i st, r ← aget l i; sweep_range n r st) (s0, low r0) = Ok (s, last) ∧
    sinv (length R) s.
Proof.
  intros Htk Hr0 Hv0. pose proof (lookup_lt_Some _ _ _ Hr0) as Hl0. unfold mfor.
  destruct (mfold_inv (λ (ixs : list Z) st, sinv (S (length ixs)) st.1 ∧
      (∀ p, p ∈ take (S (length ixs)) R → low p ≤ st.2) ∧ ∃ p, p ∈ take (S (length ixs)) R ∧ low p = st.2)
    (λ i st, r ← aget l i; sweep_range n r st) (seqZ 1 (zlen R - 1)) (s0, low r0)) as ([s last] & Hm & Hv & _).
  - cbn [length fst snd]. assert (take 1 R = [r0]) as -> by (destruct R; [done|]; simpl in *; rewrite firstn_O; congruence).
    split; [done|]. split; [intros p ->%list_elem_of_singleton; lia|]. exists r0. set_solver.
  - intros pre i [s last] (Hv & Hle & Hex) [rest Hrest]. destruct (seqZ_split _ _ _ _ _ Hrest) as [Hi Hib].
    cbn [fst snd] in *. unfold zlen in *. destruct (lookup_lt_is_Some_2 R (S (length pre))) as [r Hr]; [lia|].
    assert (Hl : l !! S (length pre) = Some r) by (rewrite <- Htk in Hr; by apply lookup_take_Some in Hr as [? _]).
    rewrite (aget_lookup l i r) by (lia || by replace (Z.to_nat i) with (S (length pre)) by lia).
    cbn [mbind res_bind].
    destruct (sweep_range_spec (S (length pre)) s r last Hv Hr ltac:(lia) Hle Hex) as (s' & -> & Hv').
    eexists. split; [done|]. cbn [fst snd]. rewrite length_app, Nat.add_comm. cbn [length Nat.add]. split; [done|].
    rewrite (take_S_snoc R _ r Hr). split.
    + intros p [Hp| ->%list_elem_of_singleton]%elem_of_app; [|lia]. by eapply sorted_take.
    + exists r. split; [apply elem_of_app; right; left|done].
  - exists s, last. split; [done|]. rewrite length_seqZ in Hv. cbn [fst] in Hv.
    replace (length R) with (S (Z.to_nat (zlen R - 1))) by (unfold zlen; lia). done.
Qed.
End sweep.
