(* ===== verification/SplitSpec.v ===== *)
(** * The split cut is correct

    The cost routine leaves, for a dimension it could split, a tree of one to
    three splits that divide the rules; cutting along it gives two to four
    children, and the comparisons of the search lead a packet to its child. *)
From S2P Require Import Prelude.
From S2P Require Import Rule.
From S2P Require Import Classify.
From S2P Require Import Prefix.
From S2P Require Import Ranges.
From S2P Require Import Heap.
From S2P Require Import Double.
From S2P Require Import Darray.
From S2P Require Import MbNode.
From S2P Require Import CutInl.
From S2P Require Import Push.
From S2P Require Import CutBitmap.
From S2P Require Import CutSplit.
From S2P Require Import Cut.
From S2P Require Import Tree.
From S2P Require Import LoadRanges.
From S2P Require Import HiSweep.
From S2P Require Import HiSpec.
From S2P Require Import SplitSweep.
#[local] Open Scope Z_scope.

(** ** Halves *)

(** The rules that reach into [b], trimmed to it. *)
Definition half_rules (d : Z) (b : range1d) (l : list rule_t) : list rule_t :=
  trim_to b d <$> filter (λ r, Is_true (reaches b d r)) l.

(** Two ranges that divide the span of the rules in dimension [d]; the weights
    are the numbers of the rules of the halves. *)
Record half_ok (l : list rule_t) (d : Z) (r0 r1 : range1d) : Prop := {
  ho_low : 0 ≤ low r0 ≤ high r0;
  ho_split : low r1 = high r0 + 1;
  ho_high : high r0 < high r1 ∧ high r1 < 2 ^ 32;
  ho_lo r : r ∈ l → low r0 ≤ (rng r d).1;
  ho_hi r : r ∈ l → (rng r d).2 ≤ high r1;
  ho_left : ∃ r, r ∈ l ∧ (rng r d).1 ≤ high r0;
  ho_right : ∃ r, r ∈ l ∧ high r0 < (rng r d).2;
  ho_w0 : weight r0 = zlen (half_rules d r0 l);
  ho_w1 : weight r1 = zlen (half_rules d r1 l) }.

Lemma trim_to_ok b d r :
  0 ≤ d < DIM → rule_ok r → 0 ≤ low b ≤ high b → reaches b d r = true → rule_ok (trim_to b d r).
Proof.
  intros Hd Hr Hb Hre. unfold trim_to, reaches in *. apply negb_true_iff, orb_false_iff in Hre as [H1%Z.ltb_ge H2%Z.ltb_ge].
  apply set_rng_ok; [done|done|]. destruct Hr as (_ & Hrng & _). destruct (Hrng d Hd) as [Ha Hbb].
  split; simpl; repeat case_match; lia.
Qed.

Lemma half_rules_ok b d l :
  0 ≤ d < DIM → Forall rule_ok l → 0 ≤ low b ≤ high b → Forall rule_ok (half_rules d b l).
Proof.
  intros Hd Hl Hb. unfold half_rules. apply Forall_fmap, Forall_forall.
  intros r [Hre%Is_true_true Hr]%list_elem_of_filter. rewrite Forall_forall in Hl. simpl. apply trim_to_ok; auto.
Qed.

(** A packet whose matching rules are inside [b] gets the same answer from the half. *)
Lemma classify_half b d l f :
  0 ≤ d < DIM → Forall rule_ok l → low b ≤ high b →
  (∀ r, r ∈ l → (rng r d).1 ≤ anth (key f) d ≤ (rng r d).2 → low b ≤ anth (key f) d ≤ high b) →
  classify (half_rules d b l) f = classify l f.
Proof.
  intros Hd Hl Hb Hin. rewrite Forall_forall in Hl. set (x := anth (key f) d) in *.
  assert (Hg : half_rules d b l = concat ((λ r, if reaches b d r then [trim_to b d r] else []) <$> l)).
  { unfold half_rules. clear. induction l as [|r l IH]; [done|]. rewrite filter_cons, fmap_cons. cbn [concat].
    rewrite <- IH. destruct (reaches b d r); [by rewrite decide_True|]. by rewrite decide_False by (intros []). }
  rewrite Hg. apply classify_concat. intros r Hr. specialize (Hin r Hr).
  destruct (Hl r Hr) as (Hlen & Hrng & _). destruct (Hrng d Hd) as [Hrb _].
  destruct (reaches b d r) eqn:Ere; unfold reaches in Ere.
  - cbn [classify].
    match goal with |- (if ?a then _ else _) = (if ?c then _ else _) => assert (a = c) as ->; [|done] end.
    apply eq_true_iff_eq. unfold trim_to. rewrite !(matches_split d) by done. fold x.
    rewrite rng_set_eq, match_rest_set by (done || lia). cbn [fst snd].
    apply negb_true_iff, orb_false_iff in Ere as [H1%Z.ltb_ge H2%Z.ltb_ge].
    split; intros [Hx Hrest]; (split; [|done]); repeat case_match; lia.
  - cbn [classify]. assert (lsearch_match f r = false) as ->; [|done].
    apply not_true_is_false. intros [Hx _]%(matches_split d); [|done]. fold x in Hx. specialize (Hin Hx).
    apply negb_false_iff, orb_true_iff in Ere as [H1%Z.ltb_lt|H1%Z.ltb_lt]; lia.
Qed.

Lemma half_nonempty b d l r : r ∈ l → reaches b d r = true → half_rules d b l ≠ [].
Proof.
  intros Hr Hre Hn. unfold half_rules in Hn. apply fmap_nil_inv in Hn.
  assert (Hin : r ∈ filter (λ r, Is_true (reaches b d r)) l) by (apply list_elem_of_filter; by rewrite Hre).
  rewrite Hn in Hin. by apply elem_of_nil in Hin.
Qed.

Section halves.
Context (l : list rule_t) (d : Z) (r0 r1 : range1d) (Hd : 0 ≤ d < DIM) (Hl : Forall rule_ok l)
  (Hh : half_ok l d r0 r1).

Lemma half_left_nonempty : half_rules d r0 l ≠ [].
Proof.
  destruct (ho_left _ _ _ _ Hh) as (r & Hr & Hx). apply (half_nonempty _ _ _ r Hr). unfold reaches.
  rewrite Forall_forall in Hl. destruct (Hl r Hr) as (_ & Hrng & _). destruct (Hrng d Hd).
  pose proof (ho_lo _ _ _ _ Hh r Hr). apply negb_true_iff, orb_false_iff. rewrite !Z.ltb_ge. lia.
Qed.
Lemma half_right_nonempty : half_rules d r1 l ≠ [].
Proof.
  destruct (ho_right _ _ _ _ Hh) as (r & Hr & Hx). apply (half_nonempty _ _ _ r Hr). unfold reaches.
  rewrite Forall_forall in Hl. destruct (Hl r Hr) as (_ & Hrng & _). destruct (Hrng d Hd).
  pose proof (ho_hi _ _ _ _ Hh r Hr). pose proof (ho_split _ _ _ _ Hh).
  apply negb_true_iff, orb_false_iff. rewrite !Z.ltb_ge. lia.
Qed.

Lemma classify_left f : anth (key f) d ≤ high r0 → classify (half_rules d r0 l) f = classify l f.
Proof.
  intros Hx. destruct (ho_low _ _ _ _ Hh). apply classify_half; [done|done|lia|].
  intros r Hr ?. pose proof (ho_lo _ _ _ _ Hh r Hr). lia.
Qed.
Lemma classify_right f : high r0 < anth (key f) d → classify (half_rules d r1 l) f = classify l f.
Proof.
  intros Hx. destruct (ho_high _ _ _ _ Hh). pose proof (ho_split _ _ _ _ Hh).
  apply classify_half; [done|done|lia|]. intros r Hr ?. pose proof (ho_hi _ _ _ _ Hh r Hr). lia.
Qed.
End halves.

(** ** The cost of a split in one dimension *)
Record split_inv (aux : cut_aux) : Prop := {
  sai_heap : range_heap (sa_h (ca_split aux));
  sai_empty : contents (sa_h (ca_split aux)) = [];
  sai_room : zlen (item (sa_ranges (ca_split aux))) < 2 ^ 31;
  sai_strees : length (strees (ca_split aux)) = 5%nat;
  sai_left : rs_ok (left_rules (ca_split aux));
  sai_right : rs_ok (right_rules (ca_split aux)) }.

(** Only the scratch array and the heap differ. *)
Definition scratch_only (a b : cut_aux) : Prop :=
  hist b = hist a ∧ ca_hi b = ca_hi a ∧ left_rules (ca_split b) = left_rules (ca_split a) ∧
  right_rules (ca_split b) = right_rules (ca_split a) ∧ strees (ca_split b) = strees (ca_split a).

Lemma scratch_only_trans a b c : scratch_only a b → scratch_only b c → scratch_only a c.
Proof. unfold scratch_only. naive_solver congruence. Qed.

Section me1d.
Context `{AllocTotal}.

Lemma split_input_uranges rs d :
  0 ≤ d < DIM → set_ok rs → num rs < 2 ^ 31 → split_input (uranges rs d) (num rs).
Proof.
  intros Hd Hok Hn. destruct (uranges_weight rs d (proj1 Hok)) as [Hw Htot]. split; try done.
  - apply uranges_sorted.
  - intros u Hu. destruct (uranges_elem rs d u Hu) as (r & Hr & -> & ->).
    pose proof (rule_bounds rs d Hd Hok r Hr). lia.
  - eapply Forall_impl; [done|]. simpl. lia.
Qed.

Lemma split_match_expect_1d_spec n d aux :
  0 ≤ d < DIM → set_ok (s_ruleset n) → 0 < num (s_ruleset n) → split_inv aux →
  num (s_ruleset n) ≤ zlen (item (sa_ranges (ca_split aux))) →
  ∃ me n' aux', split_match_expect_1d n d aux = Ok (me, n', aux') ∧ split_inv aux' ∧ scratch_only aux aux' ∧
    zlen (item (sa_ranges (ca_split aux'))) = zlen (item (sa_ranges (ca_split aux))) ∧
    s_dim n' = s_dim n ∧ s_flags n' = s_flags n ∧ s_ruleset n' = s_ruleset n ∧
    (me = d_of_Z (num (s_ruleset n)) ∨ half_ok (live (s_ruleset n)) d (s_r0 n') (s_r1 n')).
Proof.
  intros Hd Hok Hpos [Hh Hc Hroom Hst Hlr Hrr] Hnum. set (rs := s_ruleset n) in *.
  unfold split_match_expect_1d. fold rs.
  rewrite (load_ranges_spec rs d _ (proj1 Hok) Hnum). cbn [mbind res_bind].
  destruct (uranges_load rs d _ _ Hok Hpos Hroom (load_ranges_spec rs d _ (proj1 Hok) Hnum))
    as (l2 & -> & Hl2 & Htk). cbn [mbind res_bind]. set (U := uranges rs d) in *.
  assert (Hn31 : num rs < 2 ^ 31) by lia.
  pose proof (split_input_uranges rs d Hd Hok Hn31) as Hin. fold U in Hin.
  destruct (uranges_first rs d Hpos (proj1 Hok)) as (u0 & U' & HU & Hmin). fold U in HU.
  set (rg := set_ranges (sa_ranges (ca_split aux)) l2).
  assert (Hrg : zlen (item rg) = zlen (item (sa_ranges (ca_split aux)))) by (unfold rg, zlen; simpl; by rewrite Hl2).
  clearbody rg. destruct (Z.eqb_spec (zlen U) 1) as [H1|H1].
  { eexists _, n, _. split; [done|]. split; [split; cbn; try done; lia|]. split; [done|]. split; [done|].
    split; [done|]. split; [done|]. split; [done|]. by left. }
  assert (Hu0 : aget l2 0 = Ok u0).
  { apply aget_lookup; [lia|]. rewrite HU in Htk. destruct l2; [done|]. simpl in *. congruence. }
  rewrite Hu0. cbn [mbind res_bind].
  destruct (range_heap_push _ u0 Hh) as (h1 & -> & Hh1 & _ & Hc1). cbn [mbind res_bind]. rewrite Hc in Hc1.
  assert (HU0 : U !! 0%nat = Some u0) by (by rewrite HU).
  assert (Hlo : ∀ u, u ∈ U → low u0 ≤ low u).
  { intros u Hu. destruct (uranges_elem rs d u Hu) as (r & Hr & -> & _). auto. }
  assert (Hu0U : u0 ∈ U) by (rewrite HU; left). destruct (pi_bounds _ _ Hin u0 Hu0U) as [Hu0b _].
  match goal with |- context [mfor 1 _ _ (?s0, _)] =>
    destruct (sweep_loop_spec U (num rs) Hin (low u0) Hlo (proj1 Hu0b) l2 s0 u0 Htk HU0) as (s1 & last & -> & Hv1) end.
  { by apply sweep_init. }
  cbn [mbind res_bind].
  destruct (sweep_rest_spec U (num rs) Hin (low u0) Hlo (hlen (w_h s1)) s1 Hv1) as (s2 & -> & Hv2 & Hlen2);
    [by rewrite HU|done|]. cbn [mbind res_bind].
  destruct (sweep_finish_spec U (num rs) Hin (low u0) Hlo (proj1 Hu0b) s2 Hv2 Hlen2)
    as (s3 & -> & Hh3 & Hc3 & Hbest & (um & Hum & Humh) & Hmax). cbn [mbind res_bind].
  eexists _, _, _. split; [done|]. split; [split; cbn; try done; lia|]. split; [done|]. split; [done|].
  split; [done|]. split; [done|]. split; [done|]. cbn [s_r0 s_r1].
  destruct Hbest as [Hme|(Hb1 & (ur & Hur & Hurh) & (ul & Hul & Hulh) & Hw0 & Hw1)]; [by left|right].
  destruct (pi_bounds _ _ Hin um Hum) as [_ Hum32]. specialize (Hmax ur Hur) as Hmaxr.
  assert (Hu32 : u32 (w_split s3 + 1) = w_split s3 + 1) by (unfold u32; rewrite Z.mod_small; lia).
  assert (Hall : ∀ r, r ∈ live rs → low u0 ≤ (rng r d).1 ∧ (rng r d).2 ≤ w_high s3).
  { intros r Hr. split; [by apply Hmin|]. destruct (elem_uranges rs d r Hr) as (u & Hu & _ & <-). auto. }
  rewrite Hu32. split; cbn [low high weight]; try lia.
  - intros r Hr. by apply Hall.
  - intros r Hr. by apply Hall.
  - destruct (uranges_elem rs d ul Hul) as (r & Hr & E1 & _). exists r. split; [done|]. congruence.
  - destruct (uranges_elem rs d ur Hur) as (r & Hr & _ & E1). exists r. split; [done|]. congruence.
  - rewrite Hw0. unfold U. rewrite uranges_wsum. unfold half_rules, zlen. rewrite length_fmap. f_equal. f_equal.
    apply filter_ext_in. intros r Hr. rewrite !Is_true_true. unfold reaches. cbn [low high].
    pose proof (rule_bounds rs d Hd Hok r Hr). destruct (Hall r Hr).
    rewrite negb_true_iff, orb_false_iff, Z.leb_le, !Z.ltb_ge. lia.
  - rewrite Hw1. unfold U. rewrite uranges_wsum. unfold half_rules, zlen. rewrite length_fmap. f_equal. f_equal.
    apply filter_ext_in. intros r Hr. rewrite !Is_true_true. unfold reaches. cbn [low high].
    pose proof (rule_bounds rs d Hd Hok r Hr). destruct (Hall r Hr).
    rewrite negb_true_iff, orb_false_iff, Z.ltb_lt, !Z.ltb_ge. lia.
Qed.
End me1d.

(** ** Cutting the rules into halves *)
Definition cut_step (d : Z) (b : range1d) (r : rule_t) (rs : rule_set_t) : res rule_set_t :=
  if reaches b d r then append_rules rs (trim_to b d r) else Ok rs.

Lemma half_rules_snoc d b l r :
  half_rules d b (l ++ [r]) = half_rules d b l ++ (if reaches b d r then [trim_to b d r] else []).
Proof.
  unfold half_rules. rewrite filter_app, fmap_app. f_equal. rewrite filter_cons.
  destruct (reaches b d r); [by rewrite decide_True|]. by rewrite decide_False by (intros []).
Qed.

(** What a rule set holds after receiving the rules of a half. *)
Definition has_half (d : Z) (b : range1d) (l : list rule_t) (rs rs' : rule_set_t) : Prop :=
  rs_ok rs' ∧ live rs' = live rs ++ half_rules d b l ∧ cap rs' = cap rs.

Lemma cut_step_inv d b l r rs rs1 rs2 :
  has_half d b l rs rs1 → cut_step d b r rs1 = Ok rs2 → has_half d b (l ++ [r]) rs rs2.
Proof.
  intros (Hok & Hl & Hc) Hs. unfold cut_step, has_half in *. rewrite half_rules_snoc.
  destruct (reaches b d r).
  - apply append_rules_inv in Hs as (? & Hl' & Hc' & _); [|done]. split; [done|].
    split; [by rewrite Hl', Hl, app_assoc|congruence].
  - injection Hs as <-. by rewrite app_nil_r.
Qed.

(** The loop over the rules. *)
Definition cut_both (d : Z) (left right : range1d) (rule : rule_t) (st : rule_set_t * rule_set_t)
    : res (rule_set_t * rule_set_t) :=
  let '(lrs, rrs) := st in
  lrs ← cut_step d left rule lrs; rrs ← cut_step d right rule rrs; Ok (lrs, rrs).

Lemma split_cut_loop ors d left right lrs rrs :
  rs_ok ors →
  _split_cut_1d ors d left right lrs rrs = mfold (cut_both d left right) (live ors) (lrs, rrs).
Proof.
  intros [Hn Hl]. unfold live. rewrite <- (mfor_cells (ruleList ors)) by lia. unfold _split_cut_1d, mfor.
  apply mfold_ext. by intros i [a b] _.
Qed.

Lemma split_cut_1d_inv ors d left right lrs rrs lrs' rrs' :
  rs_ok ors → rs_ok lrs → rs_ok rrs → _split_cut_1d ors d left right lrs rrs = Ok (lrs', rrs') →
  has_half d left (live ors) lrs lrs' ∧ has_half d right (live ors) rrs rrs'.
Proof.
  intros Hok Hl Hr Hc. rewrite split_cut_loop in Hc by done.
  apply (mfold_Ok_inv (λ l st, has_half d left l lrs st.1 ∧ has_half d right l rrs st.2) _ _ _ _ Hc).
  - split; unfold has_half; cbn; by rewrite app_nil_r.
  - intros pre r [a b] [a' b'] [Ha Hb] _ Hs. apply bind_Ok in Hs as (a1 & Ha1 & Hs).
    apply bind_Ok in Hs as (b1 & Hb1 & Hs). injection Hs as <- <-. split; cbn; by eapply cut_step_inv.
Qed.

(** With room for the counted rules, the cut succeeds. *)
Lemma split_cut_1d_total ors d left right lrs rrs :
  rs_ok ors → rs_ok lrs → rs_ok rrs →
  num lrs + zlen (half_rules d left (live ors)) ≤ cap lrs →
  num rrs + zlen (half_rules d right (live ors)) ≤ cap rrs →
  ∃ lrs' rrs', _split_cut_1d ors d left right lrs rrs = Ok (lrs', rrs').
Proof.
  intros Hok Hl Hr Hcl Hcr. rewrite split_cut_loop by done.
  assert (Hstep : ∀ b pre r rest rs rs1, live ors = pre ++ r :: rest → rs_ok rs →
    num rs + zlen (half_rules d b (live ors)) ≤ cap rs → has_half d b pre rs rs1 →
    ∃ rs2, cut_step d b r rs1 = Ok rs2).
  { intros b pre r rest rs rs1 Heq Hrs Hcap (Hok1 & Hl1 & Hc1). unfold cut_step.
    destruct (reaches b d r) eqn:Ere; [|eauto].
    destruct (append_rules_Ok rs1 (trim_to b d r) Hok1) as (rs2 & -> & _); [|eauto].
    pose proof (live_length _ Hok1) as HL1. pose proof (live_length _ Hrs) as HL.
    rewrite Hl1, zlen_app in HL1. rewrite Heq in Hcap. rewrite cons_middle, app_assoc in Hcap.
    unfold half_rules in Hcap at 1. rewrite filter_app, fmap_app in Hcap.
    fold (half_rules d b (pre ++ [r])) in Hcap. rewrite zlen_app, half_rules_snoc, Ere, zlen_app in Hcap.
    change (zlen [trim_to b d r]) with 1 in Hcap.
    pose proof (zlen_nonneg (trim_to b d <$> filter (λ r, Is_true (reaches b d r)) rest)). lia. }
  destruct (mfold_inv (λ l st, has_half d left l lrs st.1 ∧ has_half d right l rrs st.2)
    (cut_both d left right) (live ors) (lrs, rrs)) as ([a b] & Hm & _); [| |eauto].
  - split; unfold has_half; cbn; by rewrite app_nil_r.
  - intros pre r [a b] [Ha Hb] [rest Heq].
    destruct (Hstep left pre r rest lrs a Heq Hl Hcl Ha) as [a' Ha'].
    destruct (Hstep right pre r rest rrs b Heq Hr Hcr Hb) as [b' Hb'].
    exists (a', b'). unfold cut_both. rewrite Ha'. cbn [mbind res_bind]. rewrite Hb'. split; [done|].
    split; cbn; by eapply cut_step_inv.
Qed.

(** ** What the cost routine leaves for a dimension *)

(** A half that is to be split again. *)
Definition half_entry (l : list rule_t) (n : snode) : Prop :=
  split_snode_enabled n = true → 0 ≤ s_dim n < DIM ∧ half_ok l (s_dim n) (s_r0 n) (s_r1 n).

Definition split_entry (rs : rule_set_t) (d : Z) (t : stree) : Prop :=
  split_snode_enabled (st_root t) = true →
  half_ok (live rs) d (s_r0 (st_root t)) (s_r1 (st_root t)) ∧
  half_entry (half_rules d (s_r0 (st_root t)) (live rs)) (st_left t) ∧
  half_entry (half_rules d (s_r1 (st_root t)) (live rs)) (st_right t).

Definition split_fresh (rs : rule_set_t) (d : Z) (sa : split_aux) : Prop :=
  split_entry rs d (anth (strees sa) d).

Section expect.
Context `{AllocTotal}.

Lemma me1d_inv n d aux me n' aux' :
  0 ≤ d < DIM → set_ok (s_ruleset n) → 0 < num (s_ruleset n) → split_inv aux →
  split_match_expect_1d n d aux = Ok (me, n', aux') →
  split_inv aux' ∧ scratch_only aux aux' ∧ s_dim n' = s_dim n ∧ s_flags n' = s_flags n ∧
  s_ruleset n' = s_ruleset n ∧
  (me = d_of_Z (num (s_ruleset n)) ∨ half_ok (live (s_ruleset n)) d (s_r0 n') (s_r1 n')) ∧
  num (s_ruleset n) < 2 ^ 31.
Proof.
  intros Hd Hok Hpos Hinv Hm.
  assert (Hnum : num (s_ruleset n) ≤ zlen (item (sa_ranges (ca_split aux)))).
  { unfold split_match_expect_1d in Hm. apply bind_Ok in Hm as (l & Hl & _).
    by eapply load_ranges_len in Hl; [|apply Hok]. }
  destruct (split_match_expect_1d_spec n d aux Hd Hok Hpos Hinv Hnum)
    as (me1 & n1 & aux1 & Hm1 & ? & ? & _ & ? & ? & ? & ?).
  rewrite Hm in Hm1. simplify_eq. destruct Hinv. split_and!; try done. lia.
Qed.

Lemma build_childs_inv n aux n' aux' :
  set_ok (s_ruleset n) → split_inv aux → split_match_build_childs n aux = Ok (n', aux') →
  split_inv aux' ∧ scratch_only aux aux' ∧ half_entry (live (s_ruleset n)) n'.
Proof.
  intros Hok Hinv Hb. unfold split_match_build_childs in Hb. set (rs := s_ruleset n) in *.
  destruct (memory_constraints && (num rs <=? BUCKETSIZE)) eqn:Esmall.
  { injection Hb as <- <-. split; [done|]. split; [done|]. intros He. done. }
  assert (Hpos : 0 < num rs).
  { simpl in Esmall. apply Z.leb_gt in Esmall. unfold BUCKETSIZE in Esmall. lia. }
  apply bind_Ok in Hb as ([[n1 aux1] best] & Hl & Hb).
  assert (Hloop : split_inv aux1 ∧ scratch_only aux aux1 ∧ s_flags n1 = 1 ∧ s_ruleset n1 = rs ∧
    match best with
    | None => True
    | Some (r0, r1, i, me) => 0 ≤ i < DIM ∧ num rs < 2 ^ 31 ∧ (me = d_of_Z (num rs) ∨ half_ok (live rs) i r0 r1)
    end).
  { refine (mfold_Ok_inv (λ _ '(n1, aux1, best), split_inv aux1 ∧ scratch_only aux aux1 ∧ s_flags n1 = 1 ∧
      s_ruleset n1 = rs ∧ match best with None => True | Some (r0, r1, i, me) => 0 ≤ i < DIM ∧ num rs < 2 ^ 31 ∧
        (me = d_of_Z (num rs) ∨ half_ok (live rs) i r0 r1) end) _ _ _ _ Hl _ _); [done|].
    intros pre i [[n2 aux2] best2] [[n3 aux3] best3] (Hi2 & Hsc2 & Hf2 & Hr2 & Hb2) [rest Hrest] Hs.
    destruct (seqZ_split _ _ _ _ _ Hrest) as [_ Hi]. rewrite Z.sub_0_r, Z.add_0_l in Hi.
    apply bind_Ok in Hs as ([[me n4] aux4] & Hme & Hs). injection Hs as <- <- <-.
    apply me1d_inv in Hme as (Hi4 & Hsc4 & _ & Hf4 & Hr4 & Hor & H31); try done; try (rewrite Hr2; done).
    rewrite Hr2 in Hr4, Hor, H31.
    split; [done|]. split; [by eapply scratch_only_trans|]. split; [congruence|]. split; [done|].
    destruct best2 as [[[[r0 r1] j] mec]|]; [|done]. destruct (dlt me mec); done. }
  destruct Hloop as (Hi1 & Hsc1 & Hf1 & Hr1 & Hbest). destruct best as [[[[r0 r1] j] mec]|]; [|done].
  injection Hb as <- <-. split; [done|]. split; [done|]. intros He. cbn [s_dim s_r0 s_r1].
  destruct Hbest as (Hj & H31 & Hor). split; [done|]. destruct Hor as [->|]; [exfalso|done].
  rewrite Hr1, double_equals_refl in He; [done|]. assert (2 ^ 31 ≤ 2 ^ 53) by (apply Z.pow_le_mono_r; lia). lia.
Qed.

Lemma reset_num_ok rs : rs_ok rs → rs_ok (reset_num rs) ∧ live (reset_num rs) = [].
Proof. intros [? ?]. split; [split; simpl; [lia|done]|done]. Qed.

(** Only the scratch parts and the tree of dimension [d] differ. *)
Definition stree_only (d : Z) (a b : cut_aux) : Prop :=
  hist b = hist a ∧ ca_hi b = ca_hi a ∧
  ∀ d', 0 ≤ d' < DIM → d' ≠ d → anth (strees (ca_split b)) d' = anth (strees (ca_split a)) d'.

Lemma set_stree_spec aux d t :
  0 ≤ d < DIM → split_inv aux →
  split_inv (set_stree aux d t) ∧ stree_only d aux (set_stree aux d t) ∧
  anth (strees (ca_split (set_stree aux d t))) d = t.
Proof.
  intros Hd [? ? ? Hst ? ?]. unfold DIM in *. split; [split; cbn; try done; by rewrite length_insert|]. split.
  - split; [done|]. split; [done|]. intros d' Hd' Hne. cbn. apply anth_insert_ne; lia.
  - cbn. apply anth_insert_eq. unfold zlen. lia.
Qed.

Lemma stree_only_scratch d a b c : scratch_only a b → stree_only d b c → stree_only d a c.
Proof.
  intros (A1 & A2 & _ & _ & A5) (B1 & B2 & B3). split; [congruence|]. split; [congruence|].
  intros d' Hd' Hne. by rewrite B3, A5.
Qed.

Lemma split_match_expect_inv node d aux me aux' :
  0 ≤ d < DIM → set_ok (n_ruleset node) → 0 < num (n_ruleset node) → split_inv aux →
  split_match_expect node d aux = Ok (me, aux') →
  split_inv aux' ∧ stree_only d aux aux' ∧ split_fresh (n_ruleset node) d (ca_split aux').
Proof.
  intros Hd Hok Hpos Hinv Hm. unfold split_match_expect in Hm. set (rs := n_ruleset node) in *.
  set (t := anth (strees (ca_split aux)) d) in *.
  destruct (reset_num_ok _ (sai_left _ Hinv)) as [Hlo Hll]. destruct (reset_num_ok _ (sai_right _ Hinv)) as [Hro Hrl].
  match type of Hm with context [set_sa aux ?sa] => set (sa0 := sa) in * end.
  assert (Hinv0 : split_inv (set_sa aux sa0)) by (destruct Hinv; split; done).
  apply bind_Ok in Hm as ([[me1 n1] aux1] & Hme & Hm).
  apply me1d_inv in Hme as (Hi1 & Hsc1 & Hdim1 & Hf1 & Hr1 & Hor & H31); [|done..]. cbn in Hdim1, Hf1, Hr1, Hor, H31.
  assert (Hso : ∀ c, stree_only d aux1 c → stree_only d aux c).
  { intros c Hc. apply (stree_only_scratch d (set_sa aux sa0)) in Hc; [|done]. done. }
  rewrite Hr1 in Hm. destruct (double_equals me1 (d_of_Z (num rs))) eqn:Eme.
  { injection Hm as <- <-. match goal with |- context [set_stree aux1 d ?t1] =>
      destruct (set_stree_spec aux1 d t1 Hd Hi1) as (? & ? & Ht) end.
    split; [done|]. split; [by apply Hso|]. unfold split_fresh. rewrite Ht. intros He. done. }
  destruct Hor as [->|Hhalf].
  { rewrite double_equals_refl in Eme; [done|]. assert (2 ^ 31 ≤ 2 ^ 53) by (apply Z.pow_le_mono_r; lia). lia. }
  destruct (memory_constraints && (weight (s_r0 n1) <=? BUCKETSIZE) && (weight (s_r1 n1) <=? BUCKETSIZE)).
  { injection Hm as <- <-. match goal with |- context [set_stree aux1 d ?t1] =>
      destruct (set_stree_spec aux1 d t1 Hd Hi1) as (? & ? & Ht) end.
    split; [done|]. split; [by apply Hso|]. unfold split_fresh. rewrite Ht. intros He. cbn. done. }
  apply bind_Ok in Hm as ([left right] & Hcut & Hm). unfold split_cut_1d in Hcut.
  apply bind_Ok in Hcut as ([lrs rrs] & Hcut & Hcut2). rewrite Hr1 in Hcut.
  apply split_cut_1d_inv in Hcut as [(Hlok & Hlive & _) (Hrok & Hrive & _)]; [|apply Hok|done|done].
  cbn [s_ruleset set_s_ruleset] in Hlive, Hrive. unfold sa0 in Hlive, Hrive. cbn [left_rules right_rules] in Hlive, Hrive.
  rewrite Hll in Hlive. rewrite Hrl in Hrive. cbn [app] in Hlive, Hrive.
  apply bind_Ok in Hcut2 as (_ & _ & Hcut2). apply bind_Ok in Hcut2 as (_ & _ & Hcut2). injection Hcut2 as <- <-.
  apply bind_Ok in Hm as ([left' aux2] & Hbl & Hm). apply bind_Ok in Hm as ([right' aux3] & Hbr & Hm).
  injection Hm as <- <-. destruct (ho_low _ _ _ _ Hhalf). destruct (ho_high _ _ _ _ Hhalf). pose proof (ho_split _ _ _ _ Hhalf).
  apply build_childs_inv in Hbl as (Hi2 & Hsc2 & Hel); [|split; [done|]; cbn; rewrite Hlive; apply half_rules_ok; [done|apply Hok|lia]|done].
  apply build_childs_inv in Hbr as (Hi3 & Hsc3 & Her); [|split; [done|]; cbn; rewrite Hrive; apply half_rules_ok; [done|apply Hok|lia]|done].
  cbn in Hel, Her. rewrite Hlive in Hel. rewrite Hrive in Her.
  match goal with |- context [set_stree aux3 d ?t1] =>
    destruct (set_stree_spec aux3 d t1 Hd Hi3) as (? & Hso3 & Ht) end.
  split; [done|]. split.
  - apply Hso. eapply stree_only_scratch; [|exact Hso3]. by eapply scratch_only_trans.
  - unfold split_fresh. rewrite Ht. intros _. cbn. done.
Qed.
End expect.

(** ** The children *)
Section split_cut.
Context `{AllocTotal}.

(** A rule set that a child gets: well formed and not empty. *)
Definition child_rs (rs : rule_set_t) (l : list rule_t) : Prop := set_ok rs ∧ num rs ≠ 0 ∧ live rs = l.

Lemma child_rs_intro rs l : rs_ok rs → live rs = l → Forall rule_ok l → l ≠ [] → child_rs rs l.
Proof.
  intros Hok <- Hl Hne. split; [done|]. split; [|done]. intros Hz. apply Hne. unfold live. by rewrite Hz.
Qed.

(** The rules of the children of a half. *)
Definition half_lists (t : snode) (l : list rule_t) : list (list rule_t) :=
  if split_snode_enabled t then [half_rules (s_dim t) (s_r0 t) l; half_rules (s_dim t) (s_r1 t) l] else [l].

Lemma init_ok n : 0 ≤ n → let rs := (rule_set_init (mk_rs 0 0 []) n).1 in rs_ok rs ∧ live rs = [] ∧ num rs = 0 ∧ cap rs = n.
Proof.
  intros Hn. unfold rule_set_init, bc_calloc. rewrite alloc_total. cbn [fst]. split; [|done].
  split; cbn; [lia|]. unfold zlen. rewrite length_replicate. lia.
Qed.

Lemma split_half_childs_spec t :
  set_ok (s_ruleset t) → live (s_ruleset t) ≠ [] → half_entry (live (s_ruleset t)) t →
  ∃ ls, split_half_childs t = Ok ls ∧ Forall2 child_rs ls (half_lists t (live (s_ruleset t))).
Proof.
  intros [Hok Hrules] Hne He. unfold split_half_childs, half_lists, half_entry in *.
  set (l := live (s_ruleset t)) in *. destruct (split_snode_enabled t).
  - destruct (He eq_refl) as [Hd Hh].
    pose proof (ho_w0 _ _ _ _ Hh) as Hw0. pose proof (ho_w1 _ _ _ _ Hh) as Hw1.
    destruct (init_ok (weight (s_r0 t)) ltac:(rewrite Hw0; apply zlen_nonneg)) as (Ha & La & Na & Ca).
    destruct (init_ok (weight (s_r1 t)) ltac:(rewrite Hw1; apply zlen_nonneg)) as (Hb & Lb & Nb & Cb).
    destruct (split_cut_1d_total (s_ruleset t) (s_dim t) (s_r0 t) (s_r1 t) _ _ Hok Ha Hb) as (a & b & Hc).
    { rewrite Na, Ca, Hw0. fold l. lia. } { rewrite Nb, Cb, Hw1. fold l. lia. }
    rewrite Hc. cbn [mbind res_bind]. exists [a; b]. split; [done|].
    apply split_cut_1d_inv in Hc as [(Hoa & Hla & _) (Hob & Hlb & _)]; [|done..].
    rewrite La in Hla. rewrite Lb in Hlb. fold l in Hla, Hlb.
    destruct (ho_low _ _ _ _ Hh). destruct (ho_high _ _ _ _ Hh). pose proof (ho_split _ _ _ _ Hh).
    constructor; [|constructor; [|done]].
    + apply child_rs_intro; [done|done|apply half_rules_ok; [done|done|lia]|by eapply half_left_nonempty].
    + apply child_rs_intro; [done|done|apply half_rules_ok; [done|done|lia]|by eapply half_right_nonempty].
  - unfold rule_set_copy. rewrite alloc_total. cbn [fst]. eexists. split; [done|]. constructor; [|done].
    pose proof (live_length _ Hok) as Hll. destruct Hok as [Hn Hl].
    apply child_rs_intro; [|unfold live at 1; cbn; apply take_ge|done|done].
    + split; cbn; [lia|]. done.
    + fold l. unfold zlen in Hll. fold l in Hll. lia.
Qed.

(** The number of the packet's child among the children of both halves. *)
Lemma split_next_fill t d f :
  (split_snode_enabled (st_left t) = true → 0 ≤ s_dim (st_left t) < DIM) →
  (split_snode_enabled (st_right t) = true → 0 ≤ s_dim (st_right t) < DIM) →
  let sp := (split_fill t).1 in
  let el := split_snode_enabled (st_left t) in
  let er := split_snode_enabled (st_right t) in
  let lcnt := if el then 2 else 1 in
  split_next sp (split_idx sp d f) =
    if anth (key f) d <=? high (s_r0 (st_root t)) then
      (if el && (high (s_r0 (st_left t)) <? anth (key f) (s_dim (st_left t))) then 1 else 0)
    else lcnt + (if er && (high (s_r0 (st_right t)) <? anth (key f) (s_dim (st_right t))) then 1 else 0).
Proof.
  intros Hl Hr. unfold split_fill, split_idx, split_next.
  destruct (split_snode_enabled (st_left t)), (split_snode_enabled (st_right t)); cbn [fst dim_left dim_right shape root_split left_split right_split andb];
    try (specialize (Hl eq_refl)); try (specialize (Hr eq_refl)); unfold DIM in *;
    unfold u8; rewrite ?(Z.mod_small (s_dim _)) by lia;
    rewrite ?(proj2 (Z.eqb_neq (s_dim _) 5)) by lia;
    destruct (Z.ltb_spec (high (s_r0 (st_root t))) (anth (key f) d)) as [Hx|Hx];
    rewrite ?(proj2 (Z.leb_gt (anth (key f) d) _)) by lia; rewrite ?(proj2 (Z.leb_le (anth (key f) d) _)) by lia;
    cbn; repeat match goal with |- context [?a <? ?b] => destruct (a <? b) end; reflexivity.
Qed.

(** The search's comparisons lead to a child that answers like the rules. *)
Lemma classify_split t rs d f :
  0 ≤ d < DIM → Forall rule_ok (live rs) → split_snode_enabled (st_root t) = true → split_entry rs d t →
  let sp := (split_fill t).1 in
  let ks := half_lists (st_left t) (half_rules d (s_r0 (st_root t)) (live rs)) ++
            half_lists (st_right t) (half_rules d (s_r1 (st_root t)) (live rs)) in
  ∃ k, ks !! Z.to_nat (split_next sp (split_idx sp d f)) = Some k ∧ classify k f = classify (live rs) f ∧
       0 ≤ split_next sp (split_idx sp d f) < (split_fill t).2 ∧ zlen ks = (split_fill t).2.
Proof.
  intros Hd Hrules Hroot He. destruct (He Hroot) as (Hh & Hel & Her). cbv zeta.
  rewrite split_next_fill by (intros E; (by apply Hel) || (by apply Her)).
  destruct (ho_low _ _ _ _ Hh). destruct (ho_high _ _ _ _ Hh). pose proof (ho_split _ _ _ _ Hh).
  assert (HrL : Forall rule_ok (half_rules d (s_r0 (st_root t)) (live rs))) by (apply half_rules_ok; [done|done|lia]).
  assert (HrR : Forall rule_ok (half_rules d (s_r1 (st_root t)) (live rs))) by (apply half_rules_ok; [done|done|lia]).
  (* inside a half *)
  assert (Hsub : ∀ s l, half_entry l s → Forall rule_ok l →
    ∃ k, half_lists s l !! Z.to_nat (if split_snode_enabled s && (high (s_r0 s) <? anth (key f) (s_dim s)) then 1 else 0)
      = Some k ∧ classify k f = classify l f).
  { intros s l Hs Hl. unfold half_lists, half_entry in *. destruct (split_snode_enabled s); cbn [andb]; [|by exists l].
    destruct (Hs eq_refl) as [Hsd Hsh]. destruct (Z.ltb_spec (high (s_r0 s)) (anth (key f) (s_dim s))).
    - eexists. split; [done|]. by eapply classify_right.
    - eexists. split; [done|]. by eapply classify_left. }
  set (L := half_rules d (s_r0 (st_root t)) (live rs)) in *. set (R := half_rules d (s_r1 (st_root t)) (live rs)) in *.
  assert (Hlen : ∀ s l, zlen (half_lists s l) = if split_snode_enabled s then 2 else 1)
    by (intros s l; unfold half_lists; by destruct (split_snode_enabled s)).
  assert (Hfill : (split_fill t).2 = (if split_snode_enabled (st_left t) then 2 else 1) +
    (if split_snode_enabled (st_right t) then 2 else 1)).
  { unfold split_fill. by destruct (split_snode_enabled (st_left t)), (split_snode_enabled (st_right t)). }
  rewrite zlen_app, !Hlen, Hfill.
  destruct (Hsub (st_left t) L Hel HrL) as (kl & Hkl & Hcl). destruct (Hsub (st_right t) R Her HrR) as (kr & Hkr & Hcr).
  pose proof (Hlen (st_left t) L) as HlenL.
  destruct (Z.leb_spec (anth (key f) d) (high (s_r0 (st_root t)))) as [Hx|Hx].
  - exists kl. split; [by apply lookup_app_l_Some|]. split.
    + rewrite Hcl. by eapply classify_left.
    + split; [|done]. destruct (split_snode_enabled (st_left t)), (split_snode_enabled (st_right t)); cbn [andb];
        repeat case_match; lia.
  - exists kr. split.
    { rewrite lookup_app_r; [|unfold zlen in HlenL; destruct (split_snode_enabled (st_left t)); repeat case_match; lia].
      rewrite <- Hkr. f_equal. unfold zlen in HlenL.
      destruct (split_snode_enabled (st_left t)); repeat case_match; lia. }
    split.
    + rewrite Hcr. by eapply classify_right.
    + split; [|done]. destruct (split_snode_enabled (st_left t)), (split_snode_enabled (st_right t)); cbn [andb];
        repeat case_match; lia.
Qed.

(** Cutting a node along a fresh split gives a tree that answers like the node's
    rules. *)
Lemma split_cut_good I rec n d aux n' aux' :
  0 ≤ d < DIM → rec_ok I rec → (∀ t, I aux → I (set_stree aux d t)) → I aux → split_inv aux → set_ok (n_ruleset n) →
  n_leaf n = false → n_type n = SPLIT_CUT → n_dim n = d →
  split_snode_enabled (st_root (anth (strees (ca_split aux)) d)) = true →
  split_fresh (n_ruleset n) d (ca_split aux) →
  split_cut rec n d aux = Ok (n', aux') → good n' (live (n_ruleset n)) ∧ I aux'.
Proof.
  intros Hd Hrec HIset HI Hinv Hok Hleaf Htype Hdim Hroot Hfresh Hc. unfold split_cut in Hc.
  unfold split_fresh in Hfresh. set (t := anth (strees (ca_split aux)) d) in *.
  destruct (split_fill t) as [sp cnt] eqn:Efill. unfold bc_calloc in Hc. rewrite alloc_total in Hc.
  destruct (Hfresh Hroot) as (Hh & Hel & Her).
  destruct (ho_low _ _ _ _ Hh). destruct (ho_high _ _ _ _ Hh). pose proof (ho_split _ _ _ _ Hh).
  apply bind_Ok in Hc as ([left right] & Hcut & Hc). unfold split_cut_1d in Hcut.
  apply bind_Ok in Hcut as ([lrs rrs] & Hcut & Hcut2). cbn [s_ruleset set_s_ruleset] in Hcut.
  destruct (reset_num_ok _ (sai_left _ Hinv)) as [Hlo Hll]. destruct (reset_num_ok _ (sai_right _ Hinv)) as [Hro Hrl].
  apply split_cut_1d_inv in Hcut as [(Hlok & Hlive & _) (Hrok & Hrive & _)]; [|apply Hok|done|done].
  rewrite Hll in Hlive. rewrite Hrl in Hrive. cbn [app s_r0 s_r1 set_s_ruleset] in Hlive, Hrive.
  apply bind_Ok in Hcut2 as (_ & _ & Hcut2). apply bind_Ok in Hcut2 as (_ & _ & Hcut2). injection Hcut2 as <- <-.
  apply bind_Ok in Hc as (ls & Hls & Hc). apply bind_Ok in Hc as (rr & Hrr & Hc).
  apply bind_Ok in Hc as ([cs' aux1] & Hr & Hc). injection Hc as <- <-.
  destruct (split_half_childs_spec (set_s_ruleset (set_s_ruleset (st_left t) (reset_num (left_rules (ca_split aux)))) lrs))
    as (ls' & Hls' & Hfl).
  { cbn. split; [done|]. rewrite Hlive. apply half_rules_ok; [done|apply Hok|lia]. }
  { cbn. rewrite Hlive. eapply half_left_nonempty; [done|apply Hok|done]. }
  { cbn [s_ruleset set_s_ruleset]. rewrite Hlive. exact Hel. }
  rewrite Hls in Hls'. injection Hls' as <-.
  destruct (split_half_childs_spec (set_s_ruleset (set_s_ruleset (st_right t) (reset_num (right_rules (ca_split aux)))) rrs))
    as (rr' & Hrr' & Hfr).
  { cbn. split; [done|]. rewrite Hrive. apply half_rules_ok; [done|apply Hok|lia]. }
  { cbn. rewrite Hrive. eapply half_right_nonempty; [done|apply Hok|done]. }
  { cbn [s_ruleset set_s_ruleset]. rewrite Hrive. exact Her. }
  rewrite Hrr in Hrr'. injection Hrr' as <-. cbn [s_ruleset set_s_ruleset] in Hfl, Hfr.
  rewrite Hlive in Hfl. rewrite Hrive in Hfr.
  pose proof (Forall2_app Hfl Hfr) as Hall. clear Hfl Hfr.
  match type of Hall with Forall2 _ _ ?k => set (ks := k) in Hall end.
  assert (Hks : ks = half_lists (st_left t) (half_rules d (s_r0 (st_root t)) (live (n_ruleset n))) ++
            half_lists (st_right t) (half_rules d (s_r1 (st_root t)) (live (n_ruleset n)))) by reflexivity.
  clearbody ks.
  pose proof (Forall2_length _ _ _ Hall) as Hlen.
  assert (Hcnt : zlen ks = cnt).
  { destruct (classify_split t (n_ruleset n) d (mk_flow []) Hd (proj2 Hok) Hroot Hfresh) as (? & _ & _ & _ & Hz).
    rewrite <- Hks, Efill in Hz. done. }
  assert (Hcell : ∀ p c, zip_with with_ruleset (replicate (Z.to_nat cnt) zero_cnode) (ls ++ rr) !! p = Some c →
    ∃ r k, (ls ++ rr) !! p = Some r ∧ ks !! p = Some k ∧ child_rs r k ∧ c = with_ruleset zero_cnode r).
  { intros p c Hp. apply lookup_zip_with_Some in Hp as (z & r & -> & [-> _]%lookup_replicate & Hr0).
    destruct (Forall2_lookup_l _ _ _ _ _ Hall Hr0) as (k & Hk & Hck). exists r, k. done. }
  unfold cut_recursive, mfor in Hr. rewrite Z.sub_0_r in Hr.
  apply (cut_children_good I) in Hr as (HI' & Hl & Hgood); [|done|by apply HIset| |apply NoDup_seqZ].
  2:{ intros p c _ Hp. destruct (Hcell p c Hp) as (r & k & _ & _ & (Hset & Hn0 & _) & ->).
      split; [by rewrite with_ruleset_ruleset|]. rewrite with_ruleset_ruleset. split; [done|lia]. }
  assert (Hl' : length cs' = length (zip_with with_ruleset (replicate (Z.to_nat cnt) zero_cnode) (ls ++ rr))) by exact Hl.
  assert (Hcs' : zlen cs' = cnt).
  { unfold zlen in *. rewrite Hl', length_zip_with, length_replicate. lia. }
  split; [|done]. apply good_cut; [| |done|].
  { cbn [shape_ok n_body n_type]. split; [done|]. exists t. by rewrite Hcs'. }
  { eapply good_children; [exact Hl| |exact Hgood]. intros p Hp. apply elem_of_seqZ. rewrite <- Hl' in Hp. unfold zlen in Hcs'. lia. }
  intros f Hf. left.
  match goal with |- context [search_step ?n0 f] => set (nd := n0) end.
  assert (Hstep : search_step nd f = split_search nd f) by (unfold search_step, nd; simpl; by rewrite Htype).
  rewrite Hstep. unfold split_search, nd. cbn [n_body n_dim]. rewrite Hdim.
  destruct (classify_split t (n_ruleset n) d f Hd (proj2 Hok) Hroot Hfresh) as (k & Hk & Hcl & Hb & _).
  rewrite Efill in Hk, Hb. cbn [fst snd] in Hk, Hb. rewrite <- Hks in Hk. set (p := split_next _ _) in *.
  assert (Hp : ∃ c, zip_with with_ruleset (replicate (Z.to_nat cnt) zero_cnode) (ls ++ rr) !! Z.to_nat p = Some c).
  { apply lookup_lt_is_Some_2. rewrite length_zip_with, length_replicate. unfold zlen in Hcnt. lia. }
  destruct Hp as [c Hc]. destruct (Hcell _ _ Hc) as (r & k' & _ & Hk' & (_ & _ & Hlr) & ->).
  specialize (Hgood _ _ Hc). rewrite decide_True in Hgood by (apply elem_of_seqZ; lia).
  destruct Hgood as (c' & Hc' & Hg). rewrite with_ruleset_ruleset, Hlr in Hg.
  exists c', f, k. rewrite (aget_lookup cs' p c') by (lia || done). cbn [mbind res_bind].
  split; [done|]. split; [done|]. split; [|done]. by assert (k = k') as -> by congruence.
Qed.
End split_cut.
