(* ===== verification/BitmapCount.v ===== *)
(** * The bitmap cut counts what it pushes

    [get_rule_hist] computes, for every child that gets a block of its own, the
    number of blocks on the child's path in the prefix tree; [push_rules_even]
    then appends exactly that many rules.  So the room allocated for a child is
    used up exactly, and no assertion of [append_rules] fails. *)
From S2P Require Import Prelude.
From S2P Require Import Rule.
From S2P Require Import Classify.
From S2P Require Import Prefix.
From S2P Require Import MbNode.
From S2P Require Import Heap.
From S2P Require Import CutInl.
From S2P Require Import Push.
From S2P Require Import CutBitmap.
From S2P Require Import Cut.
From S2P Require Import Tree.
From S2P Require Import BitmapPath.
From S2P Require Import BitmapSpec.
From S2P Require Import LoadRanges.
#[local] Open Scope Z_scope.

(** ** Paths *)
Lemma path_parent c : 0 < c < 127 → path c = c :: path ((c - 1) / 2).
Proof.
  intros Hc.
  assert (Hall : forallb (λ c, (c =? 0) || bool_decide (path c = c :: path ((c - 1) / 2))) (seqZ 0 127) = true)
    by (vm_compute; reflexivity).
  pose proof (forallb_seqZ _ _ Hall c ltac:(lia)) as H.
  apply orb_true_iff in H as [H|H]; [lia|]. by apply bool_decide_eq_true in H.
Qed.

Lemma path_NoDup c : 0 ≤ c < 127 → NoDup (path c).
Proof.
  intros Hc. assert (Hall : forallb (λ c, bool_decide (NoDup (path c))) (seqZ 0 127) = true)
    by (vm_compute; reflexivity).
  pose proof (forallb_seqZ _ _ Hall c Hc) as H. by apply bool_decide_eq_true in H.
Qed.

Lemma node_parent_bounds c : 0 < c < 127 → 0 ≤ (c - 1) / 2 < c.
Proof. intros Hc. split; [apply Z.div_pos; lia|apply Z.div_lt_upper_bound; lia]. Qed.

(** ** The number of blocks on the path of a child *)
Definition on_path (d : Z) (ps : list (rule_t * prefix_iter_t)) (c : Z) : Z :=
  zlen (filter (λ p, block_idx d p.2 ∈ path c) ps).

Lemma zlen_filter_or {A} (P Q R : A → Prop) `{∀ x, Decision (P x)} `{∀ x, Decision (Q x)} `{∀ x, Decision (R x)} l :
  (∀ x, R x ↔ P x ∨ Q x) → (∀ x, P x → Q x → False) →
  zlen (filter R l) = zlen (filter P l) + zlen (filter Q l).
Proof.
  intros Hor Hdis. unfold zlen. induction l as [|x l IH]; [done|]. rewrite !filter_cons.
  specialize (Hor x). specialize (Hdis x). repeat case_decide; simpl; naive_solver lia.
Qed.

Lemma on_path_root d ps : on_path d ps 0 = cnt d ps 0.
Proof.
  unfold on_path, cnt. f_equal. apply filter_ext_in. intros p _. change (path 0) with [0].
  by rewrite list_elem_of_singleton.
Qed.

Lemma on_path_parent d ps c : 0 < c < 127 → on_path d ps c = cnt d ps c + on_path d ps ((c - 1) / 2).
Proof.
  intros Hc. unfold on_path, cnt. rewrite (path_parent c Hc). apply zlen_filter_or.
  - intros p. by rewrite elem_of_cons.
  - intros p -> Hin. pose proof (path_NoDup c ltac:(lia)) as Hnd. rewrite (path_parent c Hc) in Hnd.
    by apply NoDup_cons in Hnd as [? _].
Qed.

Lemma on_path_nonneg d ps c : 0 ≤ on_path d ps c.
Proof. apply zlen_nonneg. Qed.

Lemma cnt_le_on_path d ps c : 0 ≤ c < 127 → cnt d ps c ≤ on_path d ps c.
Proof.
  intros Hc. destruct (decide (c = 0)) as [->|]; [rewrite on_path_root; lia|].
  rewrite (on_path_parent d ps c) by lia. pose proof (on_path_nonneg d ps ((c - 1) / 2)). lia.
Qed.

(** The rules of a child are the blocks on its path. *)
Lemma child_rules_length d c l : zlen (child_rules d c l) = on_path d (pieces d l) c.
Proof.
  unfold child_rules, on_path, pieces. induction l as [|r l IH]; [done|]. cbn [fmap list_fmap concat].
  rewrite filter_app, !zlen_app, IH. f_equal. rewrite filter_fmap. unfold zlen. by rewrite !length_fmap.
Qed.

(** ** The histogram is exact *)
Section hist.
Context (d : Z) (ps : list (rule_t * prefix_iter_t)).

(** What the second loop leaves at a child. *)
Definition final (c : Z) : Z := if cnt d ps c =? 0 then 0 else on_path d ps c.

(** The while loop finds the count of the nearest non-empty ancestor: the blocks
    on the path of the parent. *)
Lemma anc_count_spec fuel cs j :
  zlen cs = CHILDCOUNT → 0 ≤ j < 127 → j + 1 < 2 ^ Z.of_nat (S fuel) →
  (∀ a, 0 ≤ a < j → anth cs a = final a) →
  anc_count fuel cs j = Ok (on_path d ps j - cnt d ps j).
Proof.
  intros Hl. revert j. induction fuel as [|fuel IH]; intros j Hj Hf Hp.
  - assert (j = 0) as -> by (simpl in Hf; lia). simpl. rewrite on_path_root. f_equal. lia.
  - cbn [anc_count]. destruct (Z.eqb_spec j 0) as [->|Hne]; [rewrite on_path_root; f_equal; lia|].
    pose proof (node_parent_bounds j ltac:(lia)) as Hpb. rewrite (on_path_parent d ps j) by lia.
    set (p := (j - 1) / 2) in *. change CHILDCOUNT with 127 in Hl. unfold zlen in Hl.
    rewrite (aget_lookup cs p (anth cs p)) by (lia || (apply list_lookup_lookup_total_lt; lia)).
    cbn [mbind res_bind]. rewrite Hp by lia. unfold final.
    destruct (Z.eqb_spec (cnt d ps p) 0) as [H0|H0]; cbn [negb Z.eqb].
    + rewrite IH; [f_equal; lia|lia| |intros a Ha; apply Hp; lia].
      rewrite Nat2Z.inj_succ, Z.pow_succ_r in Hf by lia. unfold p.
      assert ((j - 1) / 2 * 2 ≤ j - 1) by (pose proof (Z.mul_div_le (j - 1) 2); lia). lia.
    + pose proof (cnt_le_on_path d ps p ltac:(lia)).
      pose proof (cnt_nonneg d ps p). rewrite (proj2 (Z.eqb_neq _ 0)) by lia. cbn [negb]. f_equal. lia.
Qed.
End hist.


(** The second loop after [n] children: those before [n] have their final count. *)
Definition hist_inv (d : Z) (ps : list (rule_t * prefix_iter_t)) (n : Z) (h : rule_hist) : Prop :=
  zlen (child_rulecount h) = 127 ∧
  (∀ i, 0 ≤ i < 127 → anth (child_rulecount h) i = if i <? n then final d ps i else cnt d ps i) ∧
  childs h = bsum (λ i, negb (cnt d ps i =? 0)) (Z.to_nat n).

Lemma hist_step_inv d ps i h :
  0 ≤ i < 127 → hist_inv d ps i h → ∃ h', hist_step i h = Ok h' ∧ hist_inv d ps (i + 1) h'.
Proof.
  intros Hi (Hl & Hv & Hch).
  assert (Hsum : bsum (λ i, negb (cnt d ps i =? 0)) (Z.to_nat (i + 1)) =
    bsum (λ i, negb (cnt d ps i =? 0)) (Z.to_nat i) + Z.b2z (negb (cnt d ps i =? 0))).
  { replace (Z.to_nat (i + 1)) with (S (Z.to_nat i)) by lia. cbn [bsum]. by rewrite Z2Nat.id by lia. }
  unfold hist_step. rewrite anth_in by lia. cbn [mbind res_bind].
  rewrite Hv, Z.ltb_irrefl by lia. destruct (Z.eqb_spec (cnt d ps i) 0) as [H0|H0]; cbn [negb Z.b2z] in *.
  - exists h. split; [done|]. split; [done|]. split; [|lia]. intros j Hj. rewrite Hv by done.
    destruct (decide (j = i)) as [->|]; [|zbool].
    rewrite Z.ltb_irrefl. zbool. unfold final. by rewrite H0.
  - rewrite (anc_count_spec d ps 7); [|done|lia|simpl; lia|].
    2:{ intros a Ha. rewrite Hv by lia. zbool. }
    cbn [mbind res_bind]. rewrite aset_in by lia. cbn [mbind res_bind].
    eexists. split; [done|]. split; [cbn [child_rulecount]; by rewrite zlen_insert|].
    split; cbn [child_rulecount childs]; [|lia]. intros j Hj. destruct (decide (j = i)) as [->|Hne].
    + rewrite anth_insert_eq by lia. zbool. unfold final. rewrite (proj2 (Z.eqb_neq _ 0)) by done. lia.
    + rewrite anth_insert_ne by lia. rewrite Hv by done. zbool.
Qed.

(** [get_rule_hist] succeeds; its counts are the numbers of blocks on the paths,
    and [childs] is the number of non-empty children. *)
Lemma get_rule_hist_exact d rs :
  0 ≤ d < DIM → set_ok rs →
  ∃ h, get_rule_hist rs d = Ok h ∧ zlen (child_rulecount h) = 127 ∧
    (∀ c, 0 ≤ c < 127 → anth (child_rulecount h) c = final d (pieces d (live rs)) c) ∧
    childs h = bsum (ne h) 127.
Proof.
  intros Hd Hok. destruct (count_prefixes_spec d rs Hd Hok) as (c & Hc & Hl & Hcnt).
  unfold get_rule_hist. rewrite Hc. cbn [mbind res_bind]. set (ps := pieces d (live rs)) in *.
  unfold mfor. change (CHILDCOUNT - 0) with 127.
  destruct (mfold_inv (λ pre h, hist_inv d ps (zlen pre) h) hist_step (seqZ 0 127) (mk_hist c 0 0))
    as (h & -> & Hl1 & Hv & Hch).
  - split; [done|]. split; [|done]. intros i Hi. cbn [child_rulecount]. change (zlen []) with 0.
    rewrite (proj2 (Z.ltb_ge i 0)) by lia. by apply Hcnt.
  - intros pre i h Hinv [rest Hrest]. destruct (seqZ_split _ _ _ _ _ Hrest) as [Hi Hib].
    rewrite Z.add_0_l in Hi. subst i. rewrite zlen_app. by apply hist_step_inv.
  - unfold zlen in Hv, Hch. rewrite length_seqZ in Hv, Hch. exists h. split; [done|]. split; [done|].
    assert (Hfin : ∀ i, 0 ≤ i < 127 → anth (child_rulecount h) i = final d ps i).
    { intros i Hi. rewrite Hv by done. zbool. }
    split; [done|]. rewrite Hch. apply bsum_ext. intros i Hi. unfold ne. rewrite Hfin by lia. unfold final.
    destruct (Z.eqb_spec (cnt d ps i) 0) as [H0|H0]; [done|]. pose proof (cnt_nonneg d ps i).
    pose proof (cnt_le_on_path d ps i ltac:(lia)). by rewrite (proj2 (Z.eqb_neq (on_path d ps i) 0)) by lia.
Qed.

(** ** The rules fit *)
Section push.
Context `{AllocTotal}.
Context (d : Z) (Hd : 0 ≤ d < DIM) (rs : rule_set_t) (Hok : set_ok rs).
Context (h : rule_hist) (Hh : get_rule_hist rs d = Ok h).
Context (mb : mb_node) (inl_rc exl_rc : Z) (Hb : even_bitmaps h = (mb, inl_rc, exl_rc)).

Lemma hist_len : zlen (child_rulecount h) = 127.
Proof. by destruct (get_rule_hist_nonzero d rs h Hd Hok Hh). Qed.

(** The count of a non-empty child is the number of rules it will get. *)
Lemma hist_child c :
  0 ≤ c < 127 → ne h c = true → anth (child_rulecount h) c = zlen (child_rules d c (live rs)).
Proof.
  intros Hc Hn. destruct (get_rule_hist_exact d rs Hd Hok) as (h' & Hh' & _ & Hex & _).
  rewrite Hh in Hh'. injection Hh' as <-. unfold ne in Hn. rewrite child_rules_length.
  rewrite Hex in Hn |- * by done. unfold final in *. by destruct (cnt d _ c =? 0).
Qed.

(** The children after [alloc_childs]: each has room for its count. *)
Lemma alloc_childs_total cs :
  fresh_childs cs → zlen cs = bsum (ne h) 127 →
  ∃ cs', alloc_childs mb inl_rc h cs = Ok cs' ∧ fresh_childs cs' ∧ zlen cs' = zlen cs ∧
    ∀ c, 0 ≤ c < 127 → ne h c = true → ∃ n, cs' !! Z.to_nat (child_pos h c) = Some n ∧
      cap (n_ruleset n) = anth (child_rulecount h) c.
Proof.
  intros Hf Hlen. unfold alloc_childs, mfor. change (CHILDCOUNT - 0) with 127.
  match goal with |- ∃ _, mfold ?f _ _ = _ ∧ _ => set (body := f) end.
  destruct (mfold_inv (λ pre st, fresh_childs st ∧ zlen st = zlen cs ∧
    ∀ c, 0 ≤ c < zlen pre → ne h c = true → ∃ n, st !! Z.to_nat (child_pos h c) = Some n ∧
      cap (n_ruleset n) = anth (child_rulecount h) c) body (seqZ 0 127) cs) as (cs' & Hm & Hfs & Hl & Hc).
  - split; [done|]. split; [done|]. intros c Hc. change (zlen []) with 0 in Hc. lia.
  - intros pre i st (Hfs & Hls & Hdone) [rest Hrest]. destruct (seqZ_split _ _ _ _ _ Hrest) as [Hi Hib].
    rewrite Z.add_0_l in Hi. rewrite zlen_app. change (zlen [i]) with 1. unfold body. cbv beta.
    rewrite (anth_in (child_rulecount h) i) by (rewrite hist_len; lia). cbn [mbind res_bind]. fold (ne h i).
    destruct (ne h i) eqn:En.
    2:{ exists st. split; [done|]. split; [done|]. split; [done|]. intros c Hc Hn. apply Hdone; [|done].
        destruct (decide (c = i)) as [->|]; [congruence|lia]. }
    rewrite (child_index_pos h mb inl_rc exl_rc) by done.
    pose proof (child_pos_bounds h i ltac:(lia) En) as Hpos.
    destruct (lookup_lt_is_Some_2 st (Z.to_nat (child_pos h i))) as [x Hx]; [unfold zlen in *; lia|].
    rewrite (aget_lookup st _ x) by (done || lia). cbn [mbind res_bind]. unfold bc_calloc. rewrite alloc_total.
    rewrite aset_in by (unfold zlen in *; lia). eexists. split; [done|].
    destruct (Hfs _ _ Hx) as (Hz & _ & Hnum). rewrite Hz, with_ruleset_twice, with_ruleset_ruleset, Hnum.
    destruct (get_rule_hist_nonzero d rs h Hd Hok Hh) as [_ Hnn].
    destruct (Hnn i ltac:(change CHILDCOUNT with 127; lia)) as [Hnn0 _].
    split; [|split; [by rewrite zlen_insert|]].
    + apply fresh_insert; [done| |done]. split; cbn [num cap ruleList]; [lia|]. unfold zlen. rewrite length_replicate. lia.
    + intros c Hc Hn. destruct (decide (c = i)) as [->|Hne].
      * eexists. split; [apply list_lookup_insert_eq; unfold zlen in *; lia|]. by rewrite with_ruleset_ruleset.
      * pose proof (child_pos_bounds h c ltac:(lia) Hn). destruct (Hdone c ltac:(lia) Hn) as (n & Hn1 & Hn2).
        exists n. split; [|done]. rewrite list_lookup_insert_ne; [done|]. intros E.
        apply Hne. symmetry. apply (child_pos_inj h); (done || lia).
  - exists cs'. split; [done|]. split; [done|]. split; [done|]. intros c Hc0. apply Hc.
    unfold zlen. by rewrite length_seqZ.
Qed.

(** [push_rules_even] never runs out of room, and every child is full. *)
Lemma push_rules_even_total cs :
  fresh_childs cs → zlen cs = bsum (ne h) 127 →
  ∃ cs', push_rules_even mb inl_rc d h rs cs = Ok cs' ∧
    ∀ c, 0 ≤ c < 127 → ne h c = true → ∃ n, cs' !! Z.to_nat (child_pos h c) = Some n ∧
      live (n_ruleset n) = child_rules d c (live rs) ∧ num (n_ruleset n) = cap (n_ruleset n) ∧
      cap (n_ruleset n) = anth (child_rulecount h) c.
Proof.
  intros Hf Hlen. destruct (alloc_childs_total cs Hf Hlen) as (cs1 & Ha & Hf1 & Hlen1 & Hcap).
  destruct (get_rule_hist_nonzero d rs h Hd Hok Hh) as [Hl Hnz].
  assert (Hne : ∀ r it, (r, it) ∈ pieces d (live rs) → ne h (block_idx d it) = true).
  { intros r it Hin. destruct (piece_field_block d rs r it Hd Hok Hin) as [k Hk].
    apply negb_true_iff, Z.eqb_neq. apply Hnz; [by eapply block_idx_bounds|]. by exists (r, it). }
  unfold push_rules_even. rewrite Ha. cbn [mbind res_bind]. rewrite piece_loop by done.
  rewrite (mfold_ext _ (λ p, mfold push_op (piece_ops d h p))).
  2:{ intros [r it] st Hin. destruct (piece_field_block d rs r it Hd Hok Hin) as [k Hk].
      apply (push_prefix_ops d h mb inl_rc exl_rc (r, it) k); eauto. }
  rewrite mfold_concat. set (ops := concat _).
  assert (Hpos : ∀ o, o ∈ ops → ∃ c, 0 ≤ c < 127 ∧ ne h c = true ∧ o.1 = child_pos h c).
  { intros o Ho. unfold ops in Ho. apply list_elem_of_In, in_concat in Ho as (k & Hk%list_elem_of_In & Ho%list_elem_of_In).
    apply list_elem_of_fmap in Hk as ([r it] & -> & Hin). apply list_elem_of_fmap in Ho as (c & -> & Hc).
    apply list_elem_of_filter in Hc as [Hn%Is_true_true Hc]. exists c. split; [|done].
    destruct (piece_field_block d rs r it Hd Hok Hin) as [k Hk].
    apply (subtree_bounds (block_idx d it)); [by eapply block_idx_bounds|done]. }
  assert (Hat : ∀ p c, 0 ≤ c < 127 → ne h c = true → Z.of_nat p = child_pos h c →
    ops_at (Z.of_nat p) ops = child_rules d c (live rs)).
  { intros p c Hc Hn ->. by apply ops_at_pieces. }
  destruct (push_ops_spec ops cs1) as (cs2 & -> & Hl2 & Hrec).
  - intros o Ho. destruct (Hpos o Ho) as (c & Hc & Hn & ->). rewrite Hlen1, Hlen. by apply child_pos_bounds.
  - intros p x Hx. destruct (Hf1 p x Hx) as (_ & Hrs & Hnum0). split; [done|]. rewrite Hnum0.
    destruct (decide (ops_at (Z.of_nat p) ops = [])) as [->|Hno]; [destruct Hrs; change (zlen []) with 0; lia|].
    unfold ops_at in Hno. destruct (filter _ ops) as [|o rest] eqn:Eo; [done|].
    assert (Ho : o ∈ filter (λ o, o.1 = Z.of_nat p) ops) by (rewrite Eo; left).
    apply list_elem_of_filter in Ho as [Hop Ho]. destruct (Hpos o Ho) as (c & Hc & Hn & Hoc).
    rewrite (Hat p c) by congruence. destruct (Hcap c Hc Hn) as (n & Hn1 & Hn2).
    rewrite <- Hoc, Hop, Nat2Z.id in Hn1. assert (x = n) as -> by congruence.
    rewrite Hn2, hist_child by done. lia.
  - exists cs2. split; [done|]. intros c Hc Hn. destruct (Hcap c Hc Hn) as (x & Hx & Hxc).
    pose proof (child_pos_bounds h c Hc Hn). destruct (Hrec _ _ Hx) as (n & Hn1 & _ & _ & Hlive & Hcp & Hnum).
    destruct (Hf1 _ _ Hx) as (_ & _ & Hnum0). exists n. split; [done|].
    rewrite (Hat _ c) in Hlive, Hnum by (done || lia). rewrite (fresh_live x Hnum0) in Hlive.
    rewrite Hcp, Hxc, Hnum, Hnum0, hist_child by done. done.
Qed.
End push.

(** ** The cut itself never fails *)

(** [even_cut] along the node's own histogram is the recursion over full children. *)
Lemma even_cut_eq `{AllocTotal} d n aux h rec :
  0 ≤ d < DIM → set_ok (n_ruleset n) → anth (hist aux) d = h → get_rule_hist (n_ruleset n) d = Ok h →
  ∃ mb cs inl_rc, even_cut rec n d aux =
      ('(cs, aux) ← mfold (cut_child rec) (child_pos h <$> nodes h) (cs, aux);
       Ok (CNode (BMb mb cs inl_rc) (n_dim n) (n_leaf n) (n_type n) (mk_rs 0 0 []), aux)) ∧
    childs h = zlen cs ∧
    ∀ c, 0 ≤ c < 127 → ne h c = true → ∃ ch, cs !! Z.to_nat (child_pos h c) = Some ch ∧
      child_ok ch ∧ live (n_ruleset ch) = child_rules d c (live (n_ruleset n)) ∧
      num (n_ruleset ch) = cap (n_ruleset ch) ∧ cap (n_ruleset ch) = anth (child_rulecount h) c.
Proof.
  intros Hd Hok Hh Hg. unfold even_cut. rewrite Hh.
  destruct (even_bitmaps h) as [[mb inl_rc] exl_rc] eqn:Eb.
  pose proof (even_bitmaps_spec h) as Hs. rewrite Eb in Hs. destruct Hs as (_ & _ & _ & _ & Hinl & Htot).
  pose proof (bsum_bounds (ne h) 127). unfold bc_calloc. rewrite alloc_total.
  assert (Hlen : zlen (replicate (Z.to_nat (inl_rc + exl_rc)) zero_cnode) = bsum (ne h) 127).
  { unfold zlen. rewrite length_replicate. lia. }
  destruct (push_rules_even_total d Hd (n_ruleset n) Hok h Hg mb inl_rc exl_rc Eb _ (fresh_replicate _) Hlen)
    as (cs & Hp & Hfull).
  destruct (push_rules_even_childs d h (n_ruleset n) mb inl_rc exl_rc _ cs Hd Hok Hg Eb (fresh_replicate _) Hlen Hp)
    as [Hlcs Hch].
  exists mb, cs, inl_rc. split; [|split].
  { rewrite Hp, bind_ret. by rewrite (even_cut_recursive_nodes h mb inl_rc exl_rc) by done. }
  { destruct (get_rule_hist_exact d (n_ruleset n) Hd Hok) as (h' & Hh' & _ & _ & Hc).
    rewrite Hg in Hh'. injection Hh' as <-. rewrite Hc, Hlcs. symmetry. exact Hlen. }
  intros c Hc Hn. destruct (Hch c Hc Hn) as (ch & Hch1 & Hch2 & _). destruct (Hfull c Hc Hn) as (ch' & Hch' & Hrest).
  assert (ch = ch') as -> by congruence. eauto.
Qed.
