(* ===== verification/CutSpec.v ===== *)
(** * The tree answers like the rules

    What a cut method promises to [cut_node] is an interface; the three methods
    discharge it.  From the interface alone: every tree that is built from data
    computed for the node answers every packet like the linear search. *)
From S2P Require Import Prelude.
From S2P Require Import Rule.
From S2P Require Import Classify.
From S2P Require Import Prefix.
From S2P Require Import Ranges.
From S2P Require Import Heap.
From S2P Require Import Double.
From S2P Require Import Darray.
From S2P Require Import MbNode.
From S2P Require Import CutInl.
From S2P Require Import Push.
From S2P Require Import CutBitmap.
From S2P Require Import CutSplit.
From S2P Require Import CutHi.
From S2P Require Import Cut.
From S2P Require Import Tree.
From S2P Require Import BitmapSpec.
From S2P Require Import LoadRanges.
From S2P Require Import HiSweep.
From S2P Require Import HiSpec.
From S2P Require Import SplitSweep.
From S2P Require Import SplitSpec.
#[local] Open Scope Z_scope.

(** ** The interface *)

(** The part of the scratch state that belongs to a method. *)
Definition same_part (t : cut_type) (a b : cut_aux) : Prop :=
  match t with
  | BITMAP_CUT => hist a = hist b
  | SPLIT_CUT => ca_split a = ca_split b
  | HI_CUT => ca_hi a = ca_hi b
  end.

(** The scratch state holds a cut of these rules in dimension [d]: a split exists,
    or the span is long enough to be divided. *)
Definition usable (t : cut_type) (rs : rule_set_t) (d : Z) (aux : cut_aux) : bool :=
  match t with
  | BITMAP_CUT => true
  | SPLIT_CUT => split_snode_enabled (st_root (anth (strees (ca_split aux)) d))
  | HI_CUT => hi_usable rs d
  end.

Class SoundMethod `{Allocator} (t : cut_type) := {
  sm_inv : cut_aux → Prop;
  sm_fresh : rule_set_t → Z → cut_aux → Prop;
  sm_inv_part a b : same_part t a b → sm_inv a → sm_inv b;
  sm_fresh_part rs d a b : same_part t a b → sm_fresh rs d a → sm_fresh rs d b;
  sm_expect n d aux me aux' :
    0 ≤ d < DIM → set_ok (n_ruleset n) → 0 < num (n_ruleset n) → sm_inv aux →
    m_match_expect (cuts t) n d aux = Ok (me, aux') →
    sm_inv aux' ∧ sm_fresh (n_ruleset n) d aux' ∧
    (∀ d', 0 ≤ d' < DIM → d' ≠ d → sm_fresh (n_ruleset n) d' aux → sm_fresh (n_ruleset n) d' aux') ∧
    ∀ t', t' ≠ t → same_part t' aux aux';
  sm_cut I rec n d aux n' aux' :
    0 ≤ d < DIM → rec_ok I rec → I aux → sm_inv aux →
    (∀ b, sm_inv b → (∀ t', t' ≠ t → same_part t' aux b) → I b) →
    set_ok (n_ruleset n) → n_leaf n = false → n_type n = t → n_dim n = d →
    usable t (n_ruleset n) d aux = true → sm_fresh (n_ruleset n) d aux →
    m_cut_node (cuts t) rec n d aux = Ok (n', aux') → good n' (live (n_ruleset n)) ∧ I aux' }.

(** ** The methods discharge it *)
Section instances.
Context `{AllocTotal}.

Lemma even_match_expect_inv n d aux me aux' :
  0 ≤ d < DIM → length (hist aux) = 5%nat → even_match_expect n d aux = Ok (me, aux') →
  length (hist aux') = 5%nat ∧ get_rule_hist (n_ruleset n) d = Ok (anth (hist aux') d) ∧
  (∀ d', 0 ≤ d' < DIM → d' ≠ d → anth (hist aux') d' = anth (hist aux) d') ∧
  ca_split aux' = ca_split aux ∧ ca_hi aux' = ca_hi aux.
Proof.
  intros Hd Hinv Hm. unfold even_match_expect in Hm. apply bind_Ok in Hm as (h & Hh & Hm).
  injection Hm as _ <-. unfold set_hist. cbn [hist ca_split ca_hi]. rewrite length_insert. split; [done|].
  unfold DIM in *. split; [by rewrite anth_insert_eq by (unfold zlen; lia)|]. split; [|done].
  intros d' Hd' Hne. by rewrite anth_insert_ne by lia.
Qed.

#[export] Program Instance bitmap_sound : SoundMethod BITMAP_CUT := {|
  sm_inv aux := length (hist aux) = 5%nat;
  sm_fresh rs d aux := get_rule_hist rs d = Ok (anth (hist aux) d) |}.
Next Obligation. cbn [same_part]. intros a b E Hl. by rewrite <- E. Qed.
Next Obligation. cbn [same_part]. intros rs d a b E Hl. by rewrite <- E. Qed.
Next Obligation.
  cbn [m_match_expect cuts]. intros n d aux me aux' Hd Hok Hpos Hinv Hm.
  destruct (even_match_expect_inv n d aux me aux' Hd Hinv Hm) as (Hl & Hg & Hsame & Es & Eh).
  split; [done|]. split; [done|]. split.
  - intros d' Hd' Hne Hf. by rewrite Hsame.
  - intros [] Hne; cbn [same_part]; done.
Qed.
Next Obligation.
  cbn [m_cut_node cuts]. intros I rec n d aux n' aux' Hd Hrec HI _ _ Hok Hl Ht Hdim _ Hf Hc.
  by apply (even_cut_good I rec n d (anth (hist aux) d) aux).
Qed.

#[export] Program Instance split_sound : SoundMethod SPLIT_CUT := {|
  sm_inv := split_inv; sm_fresh rs d aux := split_fresh rs d (ca_split aux) |}.
Next Obligation. cbn [same_part]. intros a b E [? ? ? ? ? ?]. split; by rewrite <- E. Qed.
Next Obligation. cbn [same_part]. intros rs d a b E Hl. by rewrite <- E. Qed.
Next Obligation.
  cbn [m_match_expect cuts]. intros n d aux me aux' Hd Hok Hpos Hinv Hm.
  apply split_match_expect_inv in Hm as (Hinv' & (E1 & E2 & E3) & Hf); [|done..].
  split; [done|]. split; [done|]. split; [|intros []; cbn [same_part]; done].
  intros d' Hd' Hne Hf'. unfold split_fresh. rewrite E3 by done. done.
Qed.
Next Obligation.
  cbn [m_cut_node cuts usable]. intros I rec n d aux n' aux' Hd Hrec HI Hinv HIp Hok Hl Ht Hdim Hu Hf Hc.
  eapply (split_cut_good I rec n d aux); eauto. intros t _. apply HIp.
  - by apply set_stree_spec.
  - intros [] Hne; cbn [same_part]; done.
Qed.

#[export] Program Instance hi_sound : SoundMethod HI_CUT := {|
  sm_inv := hi_inv; sm_fresh rs d aux := hi_usable rs d = true → hi_fresh rs d (ca_hi aux) |}.
Next Obligation. cbn [same_part]. intros a b E [? ? ? ? ? ? ?]. split; by rewrite <- E. Qed.
Next Obligation. cbn [same_part]. intros rs d a b E Hl. by rewrite <- E. Qed.
Next Obligation.
  cbn [m_match_expect cuts]. intros n d aux me aux' Hd Hok Hpos Hinv Hm. unfold hi_match_expect in Hm.
  assert (Hnum : num (n_ruleset n) ≤ zlen (item (ha_ranges (ca_hi aux)))).
  { unfold hi_get_rule_hist in Hm. apply bind_Ok in Hm as (l & Hl & _).
    by eapply load_ranges_len in Hl; [|apply Hok]. }
  assert (Hn31 : num (n_ruleset n) < 2 ^ 31) by (pose proof (hai_room _ Hinv); lia).
  destruct (hi_get_rule_hist_spec (n_ruleset n) d Hd Hok (conj Hpos Hn31) aux Hinv Hnum)
    as (me1 & aux1 & Hm1 & Hinv1 & E1 & E2 & _ & Hf & Hsame).
  rewrite Hm in Hm1. injection Hm1 as -> ->. split; [done|]. split; [done|]. split.
  - intros d' Hd' Hne Hf' Hu. eapply same_entry_fresh; [by apply Hsame|auto].
  - intros []; cbn [same_part]; done.
Qed.
Next Obligation.
  cbn [m_cut_node cuts usable]. intros I rec n d aux n' aux' Hd Hrec HI Hinv HIp Hok Hl Ht Hdim Hu Hf Hc.
  eapply (hi_cut_good I rec n d aux); eauto.
Qed.

#[export] Instance method_sound t : SoundMethod t :=
  match t with BITMAP_CUT => bitmap_sound | SPLIT_CUT => split_sound | HI_CUT => hi_sound end.
End instances.

(** ** Choosing a cut *)
Section choose.
Context `{Allocator} `{Hsound : ∀ t, SoundMethod t}.

Definition all_inv (aux : cut_aux) : Prop := ∀ t, sm_inv (t := t) aux.

Context (n : cnode) (Hok : set_ok (n_ruleset n)) (Hpos : 0 < num (n_ruleset n)).
Abbreviation rs := (n_ruleset n).

Lemma match_expect_all t d aux me aux' :
  0 ≤ d < DIM → all_inv aux → m_match_expect (cuts t) n d aux = Ok (me, aux') →
  all_inv aux' ∧ sm_fresh (t := t) rs d aux' ∧
  ∀ t' d', 0 ≤ d' < DIM → (t', d') ≠ (t, d) → sm_fresh (t := t') rs d' aux → sm_fresh (t := t') rs d' aux'.
Proof.
  intros Hd Hinv Hm. destruct (sm_expect (t := t) n d aux me aux' Hd Hok Hpos (Hinv t) Hm)
    as (Hinv' & Hf & Hsame & Hother).
  split; [|split; [done|]].
  - intros t'. destruct (decide (t' = t)) as [->|Hne]; [done|]. eapply sm_inv_part; [by apply Hother|done].
  - intros t' d' Hd' Hne Hf'. destruct (decide (t' = t)) as [->|Hnt].
    + apply Hsame; [done|congruence|done].
    + eapply sm_fresh_part; [by apply Hother|done].
Qed.

(** After the inner loop every dimension of the method is fresh. *)
Lemma best_dim_spec t aux mn d aux' :
  all_inv aux → best_dim t n aux = Ok (mn, d, aux') →
  all_inv aux' ∧ 0 ≤ d < DIM ∧ sm_fresh (t := t) rs d aux' ∧
  ∀ t' d', 0 ≤ d' < DIM → t' ≠ t → sm_fresh (t := t') rs d' aux → sm_fresh (t := t') rs d' aux'.
Proof.
  intros Hinv Hb. unfold best_dim in Hb. apply bind_Ok in Hb as ([best aux1] & Hl & Hb).
  assert (Hloop : all_inv aux1 ∧
    match best with None => True | Some (_, i) => 0 ≤ i < DIM ∧ sm_fresh (t := t) rs i aux1 end ∧
    ∀ t' d', 0 ≤ d' < DIM → t' ≠ t → sm_fresh (t := t') rs d' aux → sm_fresh (t := t') rs d' aux1).
  { cut ((λ (ixs : list Z) '(best, aux1), all_inv aux1 ∧
      match best with None => True | Some (_, i) => (0 ≤ i < DIM ∧ i < zlen ixs) ∧ sm_fresh (t := t) rs i aux1 end ∧
      ∀ t' d', 0 ≤ d' < DIM → t' ≠ t → sm_fresh (t := t') rs d' aux → sm_fresh (t := t') rs d' aux1)
      (seqZ 0 (DIM - 0)) (best, aux1)).
    { intros (? & Hb1 & ?). split; [done|]. split; [|done]. destruct best as [[? ?]|]; [|done]. naive_solver. }
    refine (mfold_Ok_inv _ _ _ _ _ Hl _ _); [done|].
    intros pre i [best2 aux2] [best3 aux3] (Hi2 & Hb2 & Ho2) [rest Hrest] Hs.
    destruct (seqZ_split _ _ _ _ _ Hrest) as [Hi Hib]. rewrite Z.sub_0_r, Z.add_0_l in *.
    apply bind_Ok in Hs as ([me aux4] & Hme & Hs). injection Hs as <- <-.
    apply match_expect_all in Hme as (Hi4 & Hf4 & Hkeep); [|done..].
    rewrite zlen_app. change (zlen [i]) with 1. split; [done|]. split.
    - destruct best2 as [[m j]|]; [|split; [lia|done]]. destruct Hb2 as [Hj Hfj].
      destruct (dlt me m); (split; [lia|]); [done|]. apply Hkeep; [lia| |done]. intros [= ->]. lia.
    - intros t' d' Hd' Hne Hf'. apply Hkeep; [done|congruence|]. by apply Ho2. }
  destruct Hloop as (Hi & Hb1 & Ho). destruct best as [[m i]|]; [|done]. injection Hb as <- <- <-.
  destruct Hb1. done.
Qed.

Lemma choose_spec aux t d aux' :
  all_inv aux → choose n aux = Ok (t, d, aux') →
  all_inv aux' ∧ 0 ≤ d < DIM ∧ sm_fresh (t := t) rs d aux'.
Proof.
  intros Hinv Hc. unfold choose in Hc. apply bind_Ok in Hc as ([ms aux1] & Hb & Hc). injection Hc as Ht Hd <-.
  unfold best_dims, all_cut_types in Hb. cbn [mfold] in Hb.
  apply bind_Ok in Hb as ([ms0 aux2] & Hb0 & Hb). apply bind_Ok in Hb0 as ([[m0 d0] a0] & Hb0 & E0). injection E0 as <- <-.
  apply bind_Ok in Hb as ([ms1 aux3] & Hb1 & Hb). apply bind_Ok in Hb1 as ([[m1 d1] a1] & Hb1 & E1). injection E1 as <- <-.
  apply bind_Ok in Hb as ([ms2 aux4] & Hb2 & Hb). apply bind_Ok in Hb2 as ([[m2 d2] a2] & Hb2 & E2). injection E2 as <- <-.
  injection Hb as <- <-. cbn [app] in *.
  apply best_dim_spec in Hb0 as (Hi0 & Hd0 & Hf0 & _); [|done].
  apply best_dim_spec in Hb1 as (Hi1 & Hd1 & Hf1 & Ho1); [|done].
  apply best_dim_spec in Hb2 as (Hi2 & Hd2 & Hf2 & Ho2); [|done].
  apply Ho1 in Hf0; [|done|done]. apply Ho2 in Hf0; [|done|done]. apply Ho2 in Hf1; [|done|done].
  split; [done|]. rewrite <- Hd, Ht. destruct t; cbn; done.
Qed.
End choose.

(** ** Cutting with fresh data only

    [cut_node] may choose a method that left no data for the node (a span shorter
    than four values, or no split that helps) and then cuts along what the
    scratch state held before.  The checked variant stops there; where it
    succeeds it does what [cut_node] does. *)
Section checked.
Context `{Allocator}.

Definition cut_node_checked_F (rec : cut_fun) (n : cnode) (aux : cut_aux) : res (cnode * cut_aux) :=
  if num (n_ruleset n) <=? BUCKETSIZE then Ok (set_leaf n, aux) else
  '(t, d, aux) ← choose n aux;
  if usable t (n_ruleset n) d aux
  then m_cut_node (cuts t) rec (set_dim_type n d t) d aux
  else Err EAssert.

Fixpoint cut_node_checked (fuel : nat) (n : cnode) (aux : cut_aux) : res (cnode * cut_aux) :=
  match fuel with
  | O => Err EFuel
  | S fuel => cut_node_checked_F (cut_node_checked fuel) n aux
  end.

Definition cut_checked (fuel : nat) (junk : cut_aux) (root : cnode) : res cnode :=
  aux ← aux_init root junk;
  '(n, _) ← cut_node_checked fuel root aux;
  Ok n.

(** Success does not depend on which of two functions that agree on success is
    used for the recursive calls. *)
Definition refines (rec rec' : cut_fun) : Prop := ∀ n aux r, rec n aux = Ok r → rec' n aux = Ok r.

Lemma mfold_mono {A S} (f g : A → S → res S) l s r :
  (∀ x s r, f x s = Ok r → g x s = Ok r) → mfold f l s = Ok r → mfold g l s = Ok r.
Proof.
  intros Hfg. revert s. induction l as [|x l IH]; intros s Hm; [done|]. cbn [mfold] in *.
  apply bind_Ok in Hm as (s' & Hf & Hm). rewrite (Hfg _ _ _ Hf). cbn [mbind res_bind]. auto.
Qed.

Lemma for_bits_mono {S} (f g : Z → S → res S) fuel m mask s r :
  (∀ x s r, f x s = Ok r → g x s = Ok r) → for_bits fuel m mask f s = Ok r → for_bits fuel m mask g s = Ok r.
Proof.
  intros Hfg. revert mask s. induction fuel as [|fuel IH]; intros mask s Hm; cbn [for_bits] in *;
    destruct (Z.lxor m mask =? 0); try done.
  apply bind_Ok in Hm as (s' & Hf & Hm). rewrite (Hfg _ _ _ Hf). cbn [mbind res_bind]. auto.
Qed.

Lemma cut_child_mono rec rec' i s r :
  refines rec rec' → cut_child rec i s = Ok r → cut_child rec' i s = Ok r.
Proof.
  intros Hr Hc. unfold cut_child in *. destruct s as [cn aux].
  apply bind_Ok in Hc as (c & -> & Hc). cbn [mbind res_bind]. apply bind_Ok in Hc as (rs & -> & Hc). cbn [mbind res_bind].
  apply bind_Ok in Hc as ([c' aux'] & Hrec & Hc). by rewrite (Hr _ _ _ Hrec).
Qed.

Lemma bind_mono {A B} (m m' : res A) (k k' : A → res B) r :
  (∀ a, m = Ok a → m' = Ok a) → (∀ a r, k a = Ok r → k' a = Ok r) →
  m ≫= k = Ok r → m' ≫= k' = Ok r.
Proof. intros Hm Hk (a & Ha & Hr)%bind_Ok. apply bind_Ok. eauto. Qed.

Lemma even_cut_recursive_mono rec rec' mb cp cs aux r :
  refines rec rec' → even_cut_recursive rec mb cp cs aux = Ok r → even_cut_recursive rec' mb cp cs aux = Ok r.
Proof.
  intros Hr. unfold even_cut_recursive. apply bind_mono.
  - intros a. apply for_bits_mono. intros x s r'. by apply cut_child_mono.
  - intros a r'. apply for_bits_mono. intros x s r''. by apply cut_child_mono.
Qed.

Lemma cut_recursive_mono rec rec' cs n aux r :
  refines rec rec' → cut_recursive rec cs n aux = Ok r → cut_recursive rec' cs n aux = Ok r.
Proof. intros Hr. apply mfold_mono. intros x s r'. by apply cut_child_mono. Qed.

Lemma even_cut_mono rec rec' n d aux r :
  refines rec rec' → even_cut rec n d aux = Ok r → even_cut rec' n d aux = Ok r.
Proof.
  intros Hr. unfold even_cut. destruct (even_bitmaps _) as [[mb inl] exl]. destruct (bc_calloc _ _ _); [|done].
  apply bind_mono; [done|]. intros cs r'. apply bind_mono; [|done].
  intros a. by apply even_cut_recursive_mono.
Qed.

Lemma split_cut_mono rec rec' n d aux r :
  refines rec rec' → split_cut rec n d aux = Ok r → split_cut rec' n d aux = Ok r.
Proof.
  intros Hr. unfold split_cut. destruct (split_fill _) as [sp c]. destruct (bc_calloc _ _ _); [|done].
  apply bind_mono; [done|]. intros [left right] r'. apply bind_mono; [done|]. intros ls r1.
  apply bind_mono; [done|]. intros rr r2. apply bind_mono; [|done]. intros a. by apply cut_recursive_mono.
Qed.

Lemma hi_cut_mono rec rec' n d aux r :
  refines rec rec' → hi_cut rec n d aux = Ok r → hi_cut rec' n d aux = Ok r.
Proof.
  intros Hr. unfold hi_cut. destruct (bc_calloc _ _ _); [|done].
  apply bind_mono; [done|]. intros cs r'. apply bind_mono; [done|]. intros cs1 r1.
  apply bind_mono; [done|]. intros u r2. apply bind_mono; [done|]. intros hn r3.
  apply bind_mono; [|done]. intros a. by apply cut_recursive_mono.
Qed.

Lemma cut_method_mono rec rec' t n d aux r :
  refines rec rec' → m_cut_node (cuts t) rec n d aux = Ok r → m_cut_node (cuts t) rec' n d aux = Ok r.
Proof.
  intros Hr. destruct t; cbn [m_cut_node cuts];
    [by apply even_cut_mono|by apply split_cut_mono|by apply hi_cut_mono].
Qed.

Lemma cut_node_checked_refines fuel : refines (cut_node_checked fuel) (cut_node fuel).
Proof.
  induction fuel as [|fuel IH]; intros n aux r Hc; [done|]. cbn [cut_node cut_node_checked] in *.
  unfold cut_node_checked_F in Hc. unfold cut_node_F. destruct (num (n_ruleset n) <=? BUCKETSIZE); [done|].
  apply bind_Ok in Hc as ([[t d] aux'] & -> & Hc). cbn [mbind res_bind]. destruct (usable t _ d aux'); [|done].
  by eapply cut_method_mono.
Qed.
End checked.

(** ** The tree *)
Section tree.
Context `{Allocator} `{Hsound : ∀ t, SoundMethod t}.

Lemma cut_node_checked_ok fuel : rec_ok all_inv (cut_node_checked fuel).
Proof.
  induction fuel as [|fuel IH]; [split; done|]. split.
  - intros n aux r Hn Hc. cbn [cut_node_checked] in Hc. unfold cut_node_checked_F in Hc.
    rewrite (proj2 (Z.leb_le _ _)) in Hc by done. by injection Hc as <-.
  - intros rs aux n' aux' HI Hset Hpos Hc. cbn [cut_node_checked] in Hc. unfold cut_node_checked_F in Hc.
    rewrite with_ruleset_ruleset in Hc. destruct (num rs <=? BUCKETSIZE).
    + injection Hc as <- <-. split; [|done]. apply good_leaf, Hset.
    + apply bind_Ok in Hc as ([[t d] aux1] & Hch & Hc).
      apply choose_spec in Hch as (HI1 & Hd & Hf); [|by rewrite with_ruleset_ruleset..|done].
      rewrite with_ruleset_ruleset in Hf. destruct (usable t rs d aux1) eqn:Eu; [|done].
      apply (sm_cut (t := t) all_inv _ (CNode BZero d false t rs)) in Hc; try done.
      intros b Hb Hsame t'. destruct (decide (t' = t)) as [->|Hne]; [done|].
      eapply sm_inv_part; [by apply Hsame|done].
Qed.
End tree.

(** ** The scratch state *)

(** The arrays of [struct cut_aux] have their declared lengths, whatever they hold. *)
Definition aux_shape (a : cut_aux) : Prop :=
  (length (hist a) = 5 ∧ length (strees (ca_split a)) = 5 ∧ length (ha_hist (ca_hi a)) = 5 ∧
   length (ha_shift (ca_hi a)) = 5 ∧ length (ha_start (ca_hi a)) = 5 ∧ length (ha_node_r (ca_hi a)) = 5)%nat.

(** The scratch arrays hold [n] rules. *)
Definition has_room (n : Z) (aux : cut_aux) : Prop :=
  n ≤ zlen (item (sa_ranges (ca_split aux))) ∧ n ≤ zlen (item (ha_ranges (ca_hi aux))) ∧
  n ≤ cap (left_rules (ca_split aux)) ∧ n ≤ cap (right_rules (ca_split aux)).

Lemma next_alloc_loop_bound fuel a need a' :
  0 < a ≤ 2 ^ 41 → need ≤ 2 ^ 40 → next_alloc_loop fuel a need = Ok a' → a' ≤ Z.max a (2 * need).
Proof.
  revert a. induction fuel as [|fuel IH]; intros a Ha Hn Hl; cbn [next_alloc_loop] in Hl;
    destruct (Z.ltb_spec a need); simplify_eq; try lia.
  unfold u64 in Hl. rewrite Z.mod_small in Hl by lia. apply IH in Hl; lia.
Qed.

Section init.
Context `{AllocTotal}.

Lemma scratch_room (sizeof need : Z) :
  0 ≤ need < 2 ^ 30 → ∃ arr : darray range1d, darray_growalloc sizeof darray_init need = Ok arr ∧
    need ≤ zlen (item arr) < 2 ^ 31.
Proof.
  intros Hn. destruct (darray_growalloc_Ok sizeof alloc_total (darray_init (A := range1d)) need)
    as (arr & Hg & _ & Hb & _ & Hl & _); [cbn; lia|done|lia|]. exists arr. split; [done|]. rewrite Hl. split; [lia|].
  unfold darray_growalloc in Hg. cbn [alloc darray_init] in Hg. destruct (0 <? need).
  - apply bind_Ok in Hg as (a & Ha & Hg). injection Hg as <-. unfold darray_realloc. rewrite alloc_total.
    cbn [alloc]. unfold darray_next_alloc in Ha. rewrite Z.eqb_refl in Ha.
    apply next_alloc_loop_bound in Ha; lia.
  - injection Hg as <-. cbn. lia.
Qed.

Lemma aux_init_spec root junk :
  0 ≤ num (n_ruleset root) < 2 ^ 30 → aux_shape junk →
  ∃ aux, aux_init root junk = Ok aux ∧ all_inv aux ∧ has_room (num (n_ruleset root)) aux.
Proof.
  intros Hn (L1 & L2 & L3 & L4 & L5 & L6). unfold aux_init, all_cut_types. cbn [mfold].
  cbn [m_aux_init cuts]. unfold even_init, split_aux_init, hi_init, heap_init. rewrite alloc_total.
  cbn [mbind res_bind].
  destruct (scratch_room sizeof_range1d _ Hn) as (arr & -> & Hroom). cbn [mbind res_bind].
  unfold rule_set_init, bc_calloc. rewrite !alloc_total. cbn [mbind res_bind].
  eexists. split; [done|]. split; [|split; cbn; done || lia].
  assert (Hh : range_heap (mk_heap [] aux_heap_less 0 0)).
  { split; [|done]. split; cbn; [apply _|lia|done|]. intros i Hi. lia. }
  assert (Hrs : rs_ok (mk_rs 0 (num (n_ruleset root)) (replicate (Z.to_nat (num (n_ruleset root))) zero_rule))).
  { split; cbn; [lia|]. unfold zlen. rewrite length_replicate. lia. }
  intros []; cbn [sm_inv method_sound bitmap_sound split_sound hi_sound].
  - done.
  - split; cbn [ca_split set_hi set_sa sa_h sa_ranges strees left_rules right_rules]; try done. lia.
  - split; cbn [ca_hi set_hi set_scratch ha_h ha_ranges ha_hist ha_shift ha_start ha_node_r set_sa]; try done. lia.
Qed.
End init.

(** ** The answers of the tree *)
Lemma cut_good `{AllocTotal} fuel junk rs n :
  set_ok rs → 0 < num rs < 2 ^ 30 → aux_shape junk →
  cut_checked fuel junk (with_ruleset zero_cnode rs) = Ok n →
  cut fuel junk (with_ruleset zero_cnode rs) = Ok n ∧ good n (live rs).
Proof.
  intros Hok Hn Hj Hc. unfold cut_checked in Hc. apply bind_Ok in Hc as (aux & Ha & Hc).
  apply bind_Ok in Hc as ([n1 aux1] & Hcut & Hc). injection Hc as <-. split.
  { unfold cut. rewrite Ha. cbn [mbind res_bind]. by rewrite (cut_node_checked_refines _ _ _ _ Hcut). }
  destruct (aux_init_spec (with_ruleset zero_cnode rs) junk) as (aux' & Ha' & Hinv & _);
    [rewrite with_ruleset_ruleset; lia|done|]. rewrite Ha in Ha'. injection Ha' as <-.
  by destruct (rec_good _ _ (cut_node_checked_ok fuel) rs aux n1 aux1 Hinv Hok (proj1 Hn) Hcut) as [Hg _].
Qed.

Lemma cut_answers `{AllocTotal} fuel junk rs n :
  set_ok rs → 0 < num rs < 2 ^ 30 → aux_shape junk →
  cut_checked fuel junk (with_ruleset zero_cnode rs) = Ok n →
  cut fuel junk (with_ruleset zero_cnode rs) = Ok n ∧
  ∀ f, flow_ok f →
    (∀ r, r ∈ live rs → matches f r → search n f = lsearch rs f) ∧
    (∀ v, search n f = Ok v → lsearch rs f = Ok v).
Proof.
  intros Hok Hn Hj Hc. destruct (cut_good fuel junk rs n Hok Hn Hj Hc) as [Hcut [_ Hg]]. split; [done|].
  intros f Hf. specialize (Hg f Hf). rewrite (lsearch_spec rs f (proj1 Hok)).
  destruct (classify (live rs) f) as [p|] eqn:Ec; cbn [result_ok answer] in *.
  - rewrite Hg. done.
  - split.
    + intros r Hr Hm. apply lsearch_match_spec in Hm. by rewrite (proj1 (classify_None _ _) Ec r Hr) in Hm.
    + intros v Hv. destruct Hg as [Hg|[e Hg]]; congruence.
Qed.
