(* ===== verification/CutProps.v ===== *)
(** * What cutting and searching promise

    The properties of the cut methods and of the whole tree, each with a concrete
    instance: seventeen rules that differ in the source address. *)
From S2P Require Import Prelude.
From S2P Require Import Rule.
From S2P Require Import Classify.
From S2P Require Import Prefix.
From S2P Require Import Ranges.
From S2P Require Import Heap.
From S2P Require Import Double.
From S2P Require Import Darray.
From S2P Require Import MbNode.
From S2P Require Import CutInl.
From S2P Require Import Push.
From S2P Require Import CutBitmap.
From S2P Require Import CutSplit.
From S2P Require Import CutHi.
From S2P Require Import Cut.
From S2P Require Import TraverseSpec.
From S2P Require Import Tree.
From S2P Require Import BitmapSpec.
From S2P Require Import LoadRanges.
From S2P Require Import HiSweep.
From S2P Require Import HiSpec.
From S2P Require Import SplitSweep.
From S2P Require Import SplitSpec.
From S2P Require Import BitmapPath.
From S2P Require Import BitmapCount.
From S2P Require Import CutSpec.
#[local] Open Scope Z_scope.

(** ** A concrete rule set *)
Module Ex.
(** A machine with enough memory. *)
#[export] Instance big : Allocator := λ _, true.
#[export] Instance big_total : AllocTotal.
Proof. done. Qed.

Definition rule_at (i : Z) : rule_t := mk_rule i [(i, i); (7, 7); (80, 80); (443, 443); (6, 6)].
Definition rules17 : rule_set_t := mk_rs 17 17 (rule_at <$> seqZ 0 17).
Definition root : cnode := with_ruleset zero_cnode rules17.

Definition junk : cut_aux :=
  mk_cut_aux (replicate 5 zero_hist)
    (mk_split_aux darray_init (mk_heap [] aux_heap_less 0 0) (mk_rs 0 0 []) (mk_rs 0 0 []) (replicate 5 inhabitant))
    (mk_hi_aux darray_init (mk_heap [] aux_heap_less 0 0) (replicate 5 zero_hist) (replicate 5 0) (replicate 5 0)
       (replicate 5 (replicate 64 (0, 0)))).

(** The tree of the set. *)
Definition tree : cnode := match cut_checked 3 junk root with Ok n => n | Err _ => zero_cnode end.

(** The scratch state of the set, after the equal-size cut has looked at the source
    address, and the tree that cut then yields. *)
Definition aux0 : cut_aux := match aux_init root junk with Ok a => a | Err _ => junk end.
Definition looked : double * cut_aux :=
  match m_match_expect (cuts HI_CUT) root 0 aux0 with Ok p => p | Err _ => (d_of_Z 0, junk) end.
Definition hi_tree : cnode * cut_aux :=
  match m_cut_node (cuts HI_CUT) (cut_node_checked 1) (set_dim_type root 0 HI_CUT) 0 looked.2 with
  | Ok p => p | Err _ => (zero_cnode, junk) end.

Lemma rules17_ok : set_ok rules17.
Proof.
  split; [split; vm_compute; split; congruence|].
  apply Forall_forall. intros r Hr. unfold live, rules17 in Hr. cbn [num ruleList] in Hr.
  rewrite take_ge in Hr by done. apply list_elem_of_fmap in Hr as (i & -> & Hi%elem_of_seqZ).
  split; [done|]. split; [|unfold UINT32_MAX; simpl; lia]. intros d Hd. unfold DIM in Hd.
  assert (d = 0 ∨ d = 1 ∨ d = 2 ∨ d = 3 ∨ d = 4) as [->|[->|[->|[->| ->]]]] by lia;
    [change (range_ok 32 (i, i))|change (range_ok 32 (7, 7))|change (range_ok 16 (80, 80))|
     change (range_ok 16 (443, 443))|change (range_ok 8 (6, 6))]; split; cbn [fst snd]; lia.
Qed.

Lemma aux0_inv : all_inv aux0.
Proof.
  destruct (aux_init_spec root junk) as (aux & Ha & Hinv & _);
    [split; [discriminate|reflexivity]|repeat split; reflexivity|]. unfold aux0. by rewrite Ha.
Qed.
End Ex.

(** ** Properties *)






(** the search follows one child per level and stops: [search] is the loop of
    the source, and never runs out of the height of the tree. *)
Theorem search_is_loop n f :
  search n f =
    if n_leaf n then lsearch (n_ruleset n) f else
    '(o, f) ← search_step n f;
    match o with Some c => search c f | None => Ok (-1) end.
Proof. apply search_unfold. Qed.

(** a loop [while(bitmap ^ mask)] over a 64-bit bitmap visits exactly the
    set bits, in increasing order, and ends within 64 rounds. *)
Theorem for_bits_visits {S} m (f : Z → S → res S) s :
  0 ≤ m < 2 ^ 64 → for_bits 64 m 0 f s = mfold f (filter (λ i, Is_true (Z.testbit m i)) (seqZ 0 64)) s.
Proof. apply for_bits_set_bits. Qed.

(** [aux_init] succeeds for every rule set of less than [2 ^ 30] rules, whatever
    the uninitialised scratch state holds; the state is then ready for every
    method and has room for all the rules of the root. *)
Theorem aux_init_ready `{AllocTotal} root junk :
  0 ≤ num (n_ruleset root) < 2 ^ 30 → aux_shape junk →
  ∃ aux, aux_init root junk = Ok aux ∧ all_inv aux ∧ has_room (num (n_ruleset root)) aux.
Proof. apply aux_init_spec. Qed.


(** ** The properties at the concrete rule set *)
Section witnesses.
Import Ex.







Lemma for_bits_visits_witness :
  for_bits 64 21 0 (λ b l, Ok (l ++ [b])) [] = mfold (λ b l, Ok (l ++ [b])) [0; 2; 4] [].
Proof.
  rewrite (for_bits_visits 21 (λ b l, Ok (l ++ [b])) []) by (split; [discriminate|reflexivity]).
  reflexivity.
Defined.

Lemma aux_init_ready_witness : ∃ aux, aux_init root junk = Ok aux ∧ has_room 17 aux.
Proof.
  destruct (aux_init_ready root junk) as (aux & H1 & _ & H2);
    [split; [discriminate|reflexivity]|repeat split; reflexivity|].
  exists aux. split; [exact H1|exact H2].
Defined.
End witnesses.
