(* ===== verification/Scanf.v ===== *)
(** * Reading a text file with fscanf

    The part of the C library that utils.c reads rule files with: a stream with
    its end-of-file flag, and [fscanf] for the directives the program uses. *)
From S2P Require Import Prelude.
#[local] Open Scope Z_scope.

(** A stream: the bytes that are left, and whether a read has hit the end. *)
Record FILE := mk_file { rest : list Z; feof : bool }.

Inductive directive :=
  | DSpace            (* white space *)
  | DLit (c : Z)      (* a character that must follow *)
  | DChar             (* %c *)
  | DDec              (* %d *)
  | DHex.             (* %x *)

Definition isspace (c : Z) : bool := (c =? 32) || ((9 <=? c) && (c <=? 13)).

Definition digit_val (c : Z) : Z :=
  if (48 <=? c) && (c <=? 57) then c - 48
  else if (65 <=? c) && (c <=? 70) then c - 55
  else if (97 <=? c) && (c <=? 102) then c - 87
  else 16.
Definition isdigit (base c : Z) : bool := digit_val c <? base.

(** The longest run of characters of a class. *)
Fixpoint span (P : Z → bool) (l : list Z) : list Z * list Z :=
  match l with
  | [] => ([], [])
  | c :: l => if P c then let '(a, b) := span P l in (c :: a, b) else ([], c :: l)
  end.

Definition hit_end (l : list Z) : bool := match l with [] => true | _ => false end.
(** The stream after reading up to [l], where reading stopped at the next character. *)
Definition at_ (f : FILE) (l : list Z) : FILE := mk_file l (feof f || hit_end l).

Definition skip_space (f : FILE) : FILE := at_ f (span isspace (rest f)).2.

Definition num_val (base : Z) (ds : list Z) : Z := foldl (λ v c, v * base + digit_val c) 0 ds.

(** An optional sign. *)
Definition scan_sign (l : list Z) : bool * list Z :=
  match l with
  | c :: l' => if c =? 45 then (true, l') else if c =? 43 then (false, l') else (false, l)
  | [] => (false, [])
  end.

(** The prefix [0x] that [%x] allows. *)
Definition scan_0x (l : list Z) : list Z :=
  match l with
  | z :: x :: l' => if (z =? 48) && ((x =? 120) || (x =? 88)) then l' else l
  | _ => l
  end.

(** What a directive does: assign a value or nothing and go on, or stop. *)
Inductive outcome :=
  | Next (v : option Z) (f : FILE)
  | Stop (f : FILE).

(** A number of the given base.  The value must fit the target: [int] for [%d],
    [unsigned int] for [%x]; it is stored as 32 bits. *)
Definition scan_num (base lo hi : Z) (f : FILE) : res outcome :=
  let f := skip_space f in
  let '(neg, l) := scan_sign (rest f) in
  let l := if base =? 16 then scan_0x l else l in
  let '(ds, l) := span (isdigit base) l in
  match ds with
  | [] => Ok (Stop (at_ f l))
  | _ =>
    let v := if neg then - num_val base ds else num_val base ds in
    if (lo <=? v) && (v <=? hi) then Ok (Next (Some (u32 v)) (at_ f l)) else Err ERange
  end.

Definition scan_step (d : directive) (f : FILE) : res outcome :=
  match d with
  | DSpace => Ok (Next None (skip_space f))
  | DLit c =>
    match rest f with
    | x :: l => Ok (if x =? c then Next None (mk_file l (feof f)) else Stop f)
    | [] => Ok (Stop (mk_file [] true))
    end
  | DChar =>
    match rest f with
    | x :: l => Ok (Next (Some x) (mk_file l (feof f)))
    | [] => Ok (Stop (mk_file [] true))
    end
  | DDec => scan_num 10 (- 2 ^ 31) (2 ^ 31 - 1) f
  | DHex => scan_num 16 (- (2 ^ 32 - 1)) (2 ^ 32 - 1) f
  end.

(** The values assigned, in order, and the stream afterwards. *)
Fixpoint fscanf (fmt : list directive) (f : FILE) : res (list Z * FILE) :=
  match fmt with
  | [] => Ok ([], f)
  | d :: fmt =>
    o ← scan_step d f;
    match o with
    | Stop f => Ok ([], f)
    | Next v f => '(vs, f) ← fscanf fmt f; Ok (match v with Some x => x :: vs | None => vs end, f)
    end
  end.

(** ** Facts *)
Lemma span_app P a b : Forall (λ c, P c = true) a → (∀ c b', b = c :: b' → P c = false) → span P (a ++ b) = (a, b).
Proof.
  intros Ha Hb. induction Ha as [|c a Hc Ha IH]; simpl.
  - destruct b as [|c b]; [done|]. simpl. by rewrite (Hb c b).
  - by rewrite Hc, IH.
Qed.

Lemma span_length P l : (length (span P l).2 ≤ length l)%nat.
Proof. induction l as [|c l IH]; simpl; [done|]. destruct (P c); [|done]. destruct (span P l); simpl in *. lia. Qed.

(** No directive puts back more than it read. *)
Lemma scan_num_length base lo hi f o :
  scan_num base lo hi f = Ok o →
  match o with Next _ f' | Stop f' => (length (rest f') ≤ length (rest f))%nat ∧ (feof f = true → feof f' = true) end.
Proof.
  unfold scan_num. intros Hs. pose proof (span_length isspace (rest f)) as H1.
  set (f1 := skip_space f) in *. assert (Hf1 : (length (rest f1) ≤ length (rest f))%nat) by done.
  assert (Ht : feof f = true → feof f1 = true) by (intros E; unfold f1, skip_space, at_; simpl; by rewrite E).
  destruct (scan_sign (rest f1)) as [neg l1] eqn:E1.
  assert (Hl1 : (length l1 ≤ length (rest f1))%nat).
  { unfold scan_sign in E1. destruct (rest f1) as [|c l]; [by injection E1 as _ <-|].
    destruct (c =? 45); [|destruct (c =? 43)]; injection E1 as _ <-; simpl; lia. }
  set (l2 := if base =? 16 then scan_0x l1 else l1) in *.
  assert (Hl2 : (length l2 ≤ length l1)%nat).
  { unfold l2, scan_0x. destruct (base =? 16); [|done]. destruct l1 as [|? [|? ?]]; [done..|].
    destruct (_ && _); simpl; lia. }
  pose proof (span_length (isdigit base) l2) as H2. destruct (span (isdigit base) l2) as [ds l3]. simpl in H2.
  assert (Hres : (length (rest (at_ f1 l3)) ≤ length (rest f))%nat ∧ (feof f = true → feof (at_ f1 l3) = true)).
  { unfold at_. cbn [rest feof]. split; [lia|]. intros E. by rewrite (Ht E). }
  destruct ds; [by simplify_eq|]. case_match; [by simplify_eq|done].
Qed.

Lemma scan_step_length d f o :
  scan_step d f = Ok o →
  match o with Next _ f' | Stop f' => (length (rest f') ≤ length (rest f))%nat ∧ (feof f = true → feof f' = true) end.
Proof.
  destruct d; simpl; intros Hs; try (by eapply scan_num_length).
  - simplify_eq. simpl. split; [apply span_length|]. intros ->. done.
  - destruct (rest f) as [|x l] eqn:E; simplify_eq; [simpl; split; [lia|done]|].
    destruct (x =? c); simpl; rewrite ?E; simpl; split; lia || done.
  - destruct (rest f) as [|x l] eqn:E; simplify_eq; simpl; split; lia || done.
Qed.

Lemma fscanf_length fmt f vs f' :
  fscanf fmt f = Ok (vs, f') → (length (rest f') ≤ length (rest f))%nat ∧ (feof f = true → feof f' = true).
Proof.
  revert f vs f'. induction fmt as [|d fmt IH]; intros f vs f' Hs; simpl in Hs; [by simplify_eq|].
  apply bind_Ok in Hs as (o & Ho & Hs). apply scan_step_length in Ho. destruct o as [v f1|f1].
  - apply bind_Ok in Hs as ([vs1 f2] & H2 & Hs). simplify_eq. apply IH in H2. destruct Ho, H2. split; [lia|auto].
  - by simplify_eq.
Qed.
