(* ===== verification/CString.v ===== *)
(** * C strings

    A C string is the list of its characters, without the terminating null; the
    functions of string.h and stdlib.h that ccan/opt uses, on this
    representation. *)
From Stdlib Require Import Strings.String Strings.Ascii.
From S2P Require Import Prelude.
From S2P Require Import Scanf.
#[local] Open Scope Z_scope.

Abbreviation str := (list Z).

(** A string literal. *)
Definition lit (s : string) : str := (λ a, Z.of_N (N_of_ascii a)) <$> list_ascii_of_string s.

(** [s[i]]: the terminating null is readable, what lies behind it is not. *)
Definition char_at (s : str) (i : nat) : res Z :=
  if (i =? length s)%nat then Ok 0 else nget s i.
(** [s + i] as a string. *)
Definition str_from (s : str) (i : nat) : res str :=
  if (i <=? length s)%nat then Ok (drop i s) else Err EOob.

(** [*s] *)
Definition head_char (s : str) : Z := match s with [] => 0 | c :: _ => c end.

Definition mem (c : Z) (set : str) : bool := existsb (Z.eqb c) set.
(** [strcspn], [strspn]: sizes, so natural numbers. *)
Definition strcspn (s set : str) : nat := length (span (λ c, negb (mem c set)) s).1.
Definition strspn (s set : str) : nat := length (span (λ c, mem c set) s).1.
Definition strchr (s : str) (c : Z) : bool := mem c s.

(** [strncmp(a, b, n) == 0] *)
Fixpoint strncmp_eq (a b : str) (n : nat) {struct n} : bool :=
  match n with
  | O => true
  | S n =>
    match a, b with
    | [], [] => true
    | x :: a, y :: b => (x =? y) && strncmp_eq a b n
    | _, _ => false
    end
  end.

Definition str_eqb (a b : str) : bool := bool_decide (a = b).

Definition tolower (c : Z) : Z := if (65 <=? c) && (c <=? 90) then c + 32 else c.
(** [strcasecmp(a, b) == 0] *)
Definition strcasecmp_eq (a b : str) : bool := str_eqb (tolower <$> a) (tolower <$> b).

(** ** Numbers *)
Definition LONG_MIN : Z := - 2 ^ 63.
Definition LONG_MAX : Z := 2 ^ 63 - 1.

(** The base that [strtol(.., 0)] reads from the prefix, and the digits. *)
Definition detect_base (s : str) : Z * str :=
  match s with
  | z :: x :: d :: s' =>
    if (z =? 48) && ((x =? 120) || (x =? 88)) && isdigit 16 d then (16, d :: s')
    else if z =? 48 then (8, s) else (10, s)
  | z :: _ => if z =? 48 then (8, s) else (10, s)
  | [] => (10, [])
  end.

(** [strtol(s, &endp, 0)]: the value, what [endp] points to, and whether [errno]
    was set to [ERANGE].  Without digits nothing is converted. *)
Definition strtol (s : str) : Z * str * bool :=
  let '(neg, s1) := scan_sign (span isspace s).2 in
  let '(base, s2) := detect_base s1 in
  let '(ds, rest) := span (isdigit base) s2 in
  match ds with
  | [] => (0, s, false)
  | _ =>
    let v := if neg : bool then - num_val base ds else num_val base ds in
    if v <? LONG_MIN then (LONG_MIN, rest, true)
    else if LONG_MAX <? v then (LONG_MAX, rest, true)
    else (v, rest, false)
  end.

(** [atoi(s)]: the conversion of [strtol(s, NULL, 10)] to [int]. *)
Definition atoi (s : str) : Z :=
  let '(neg, s1) := scan_sign (span isspace s).2 in
  let v := num_val 10 (span (isdigit 10) s1).1 in
  s32 (Z.max LONG_MIN (Z.min LONG_MAX (if neg : bool then - v else v))).

(** [%d], [%li] and the like. *)
Definition digit_char (d : Z) : Z := if d <? 10 then 48 + d else 55 + d.
Fixpoint digits (base : Z) (fuel : nat) (n : Z) : str :=
  match fuel with
  | O => []
  | S fuel => if n <? base then [digit_char n] else digits base fuel (n / base) ++ [digit_char (n mod base)]
  end.
Definition print_u64 (n : Z) : str := digits 10 20 n.
Definition print_s64 (n : Z) : str := if n <? 0 then 45 :: print_u64 (- n) else print_u64 n.

(** [sprintf(.., fmt, arg)] for a format whose only directives are [%s]. *)
Fixpoint sprintf_s (fmt arg : str) : str :=
  match fmt with
  | p :: ((s :: fmt') as rest) =>
    if (p =? 37) && (s =? 115) then arg ++ sprintf_s fmt' arg else p :: sprintf_s rest arg
  | _ => fmt
  end.

(** ** Buffers

    A [char buf[n]] is the list of its cells. *)

(** [memcpy(buf + off, cs, ..)] *)
Definition put (buf : list Z) (off : nat) (cs : list Z) : res (list Z) :=
  if (off + length cs <=? length buf)%nat
  then Ok (take off buf ++ cs ++ drop (off + length cs) buf) else Err EOob.

(** What [snprintf(buf, n, ..)] writes: at most [n - 1] characters, and the null. *)
Definition snprintf (n : nat) (s : str) : list Z := take (n - 1) s ++ [0].
(** What [strncpy(buf, s, n)] writes: [n] characters, filled up with nulls. *)
Definition strncpy (n : nat) (s : str) : list Z := take n s ++ replicate (n - length s) 0.

(** The string in a buffer; a buffer without a null is read past its end. *)
Definition c_str (buf : list Z) : res str :=
  let '(s, rest) := span (λ c, negb (c =? 0)) buf in
  match rest with [] => Err EOob | _ => Ok s end.

(** The characters of a C string are not null. *)
Definition no_null (s : str) : Prop := Forall (λ c, (c =? 0) = false) s.

(** ** Facts *)
Lemma digit_val_char d : 0 ≤ d < 16 → digit_val (digit_char d) = d.
Proof.
  intros Hd. unfold digit_char, digit_val. destruct (Z.ltb_spec d 10).
  - by replace ((48 <=? 48 + d) && (48 + d <=? 57)) with true by lia; lia.
  - replace ((48 <=? 55 + d) && (55 + d <=? 57)) with false by lia.
    replace ((65 <=? 55 + d) && (55 + d <=? 70)) with true by lia. lia.
Qed.

Lemma digits_value base fuel n :
  1 < base ≤ 16 → 0 ≤ n < base ^ Z.of_nat fuel → (0 < fuel)%nat →
  Forall (λ c, isdigit base c = true) (digits base fuel n) ∧ digits base fuel n ≠ [] ∧
  num_val base (digits base fuel n) = n.
Proof.
  intros Hb. revert n. induction fuel as [|fuel IH]; intros n Hn Hf; [lia|]. cbn [digits].
  destruct (Z.ltb_spec n base).
  - split; [|split; [done|]].
    + apply Forall_singleton. unfold isdigit. rewrite digit_val_char by lia. lia.
    + cbn. rewrite digit_val_char; lia.
  - rewrite Nat2Z.inj_succ, Z.pow_succ_r in Hn by lia.
    assert (Hq : 0 ≤ n / base < base ^ Z.of_nat fuel)
      by (split; [apply Z.div_pos; lia|apply Z.div_lt_upper_bound; lia]).
    assert (Hfuel : (0 < fuel)%nat) by (destruct fuel; [simpl in Hn; lia|lia]).
    destruct (IH _ Hq Hfuel) as (Hd & Hne & Hv). pose proof (Z.mod_pos_bound n base ltac:(lia)).
    split; [|split; [by destruct (digits base fuel (n / base))|]].
    + apply Forall_app. split; [done|]. apply Forall_singleton. unfold isdigit. rewrite digit_val_char by lia. lia.
    + unfold num_val in *. rewrite foldl_app, Hv. cbn. rewrite digit_val_char by lia.
      pose proof (Z.div_mod n base ltac:(lia)). lia.
Qed.

(** A digit is neither white space nor a sign. *)
Lemma digit_plain c : isdigit 16 c = true → isspace c = false ∧ (c =? 45) = false ∧ (c =? 43) = false.
Proof.
  unfold isdigit, digit_val, isspace. intros Hc.
  destruct (Z.leb_spec 48 c), (Z.leb_spec c 57), (Z.leb_spec 65 c), (Z.leb_spec c 70), (Z.leb_spec 97 c), (Z.leb_spec c 102);
    cbn [andb] in Hc; try lia; repeat split; lia.
Qed.

Lemma isdigit_mono b c : b ≤ 16 → isdigit b c = true → isdigit 16 c = true.
Proof. unfold isdigit. lia. Qed.

(** The text of a positive number does not start with a zero. *)
Lemma digits_head base fuel n c s :
  1 < base ≤ 10 → 0 < n < base ^ Z.of_nat fuel → digits base fuel n = c :: s → c ≠ 48.
Proof.
  intros Hb. revert n c s. induction fuel as [|fuel IH]; intros n c s Hn Hd; cbn [digits] in Hd; [done|].
  destruct (Z.ltb_spec n base) as [Hlt|Hge].
  - injection Hd as <- _. unfold digit_char. destruct (Z.ltb_spec n 10); lia.
  - rewrite Nat2Z.inj_succ, Z.pow_succ_r in Hn by lia.
    assert (Hq : 0 < n / base < base ^ Z.of_nat fuel)
      by (split; [apply Z.div_str_pos; lia|apply Z.div_lt_upper_bound; lia]).
    assert (Hfuel : (0 < fuel)%nat) by (destruct fuel; [simpl in Hn; lia|lia]).
    destruct (digits_value base fuel (n / base) ltac:(lia) ltac:(lia) Hfuel) as (_ & Hne & _).
    destruct (digits base fuel (n / base)) as [|c' s'] eqn:E; [done|]. injection Hd as <- _. by eapply IH.
Qed.

(** What follows a printed number does not continue it. *)
Definition ends_number (tail : str) : Prop :=
  ∀ c t, tail = c :: t → isdigit 10 c = false ∧ c ≠ 120 ∧ c ≠ 88.

Lemma span_digits base ds tail :
  base ≤ 10 → Forall (λ c, isdigit base c = true) ds → ends_number tail → span (isdigit base) (ds ++ tail) = (ds, tail).
Proof.
  intros Hb Hd Ht. apply span_app; [done|]. intros c t ->. destruct (Ht c t eq_refl) as [Hc _].
  unfold isdigit in *. lia.
Qed.

(** The prefix of a printed number says how it is to be read. *)
Lemma detect_print m tail :
  0 ≤ m < 2 ^ 64 → ends_number tail →
  print_u64 m ≠ [] ∧ Forall (λ c, isdigit 10 c = true) (print_u64 m) ∧
  let '(base, s2) := detect_base (print_u64 m ++ tail) in
  span (isdigit base) s2 = (print_u64 m, tail) ∧ num_val base (print_u64 m) = m.
Proof.
  intros Hm Htail. assert (H20 : 10 ^ Z.of_nat 20 = 100000000000000000000) by done.
  destruct (digits_value 10 20 m ltac:(lia) ltac:(lia) ltac:(lia)) as (Hd & Hne & Hv).
  split; [done|]. split; [done|]. destruct (decide (m = 0)) as [->|Hm0].
  - change (print_u64 0) with [48].
    assert (Hdb : detect_base ([48] ++ tail) = (8, [48] ++ tail)).
    { destruct tail as [|x [|y t]]; [done..|]. destruct (Htail x (y :: t) eq_refl) as (_ & Hx1 & Hx2).
      cbn [detect_base app]. by replace ((x =? 120) || (x =? 88)) with false by lia. }
    rewrite Hdb. clear - Htail. split; [|done]. apply (span_digits 8 [48] tail); [lia|by apply Forall_singleton|done].
  - fold (print_u64 m) in Hd, Hne, Hv. destruct (print_u64 m) as [|d ds] eqn:E; [by destruct Hne|].
    pose proof (digits_head 10 20 m d ds ltac:(lia)) as Hd48. rewrite H20 in Hd48. specialize (Hd48 ltac:(lia) E).
    assert (Hdb : detect_base ((d :: ds) ++ tail) = (10, (d :: ds) ++ tail)).
    { cbn [app]. unfold detect_base. rewrite (proj2 (Z.eqb_neq d 48)) by done. cbn [andb].
      by destruct (ds ++ tail) as [|? [|? ?]]. }
    rewrite Hdb. split; [|done]. by apply (span_digits 10 (d :: ds) tail ltac:(lia)).
Qed.

(** [strtol] reads the digits that [%lu] prints, as far as a [long] goes. *)
Lemma strtol_print_u n tail :
  0 ≤ n < 2 ^ 64 → ends_number tail →
  strtol (print_u64 n ++ tail) = if n <=? LONG_MAX then (n, tail, false) else (LONG_MAX, tail, true).
Proof.
  intros Hn Htail. unfold strtol.
  destruct (detect_print n tail Hn Htail) as (Hne & Hd & Hdb). destruct (print_u64 n) as [|d ds]; [done|].
  assert (Hd16 : isdigit 16 d = true) by (apply Forall_cons in Hd as [Hd _]; eapply isdigit_mono; [|done]; lia).
  destruct (digit_plain d Hd16) as (Hs & H45 & H43).
  assert (Hsp : (span isspace ((d :: ds) ++ tail)).2 = (d :: ds) ++ tail) by (cbn [app span]; by rewrite Hs).
  rewrite Hsp. cbn [app scan_sign]. rewrite H45, H43. cbn [app] in Hdb.
  destruct (detect_base (d :: ds ++ tail)) as [base s2]. destruct Hdb as [-> Hv]. rewrite Hv.
  unfold LONG_MIN, LONG_MAX. zbool.
Qed.

(** [strtol] reads back what [%li] prints. *)
Lemma strtol_print n tail :
  LONG_MIN ≤ n ≤ LONG_MAX → ends_number tail → strtol (print_s64 n ++ tail) = (n, tail, false).
Proof.
  unfold LONG_MIN, LONG_MAX. intros Hn Htail. unfold print_s64. destruct (Z.ltb_spec n 0) as [Hneg|Hpos].
  - unfold strtol. destruct (detect_print (- n) tail ltac:(lia) Htail) as (Hne & Hd & Hdb).
    change ((span isspace ((45 :: print_u64 (- n)) ++ tail)).2) with ((45 :: print_u64 (- n)) ++ tail).
    cbn [app scan_sign Z.eqb Pos.eqb].
    destruct (detect_base (print_u64 (- n) ++ tail)) as [base s2]. destruct Hdb as [-> Hv].
    rewrite Hv. destruct (print_u64 (- n)); [done|]. replace (- - n) with n by lia. unfold LONG_MIN, LONG_MAX. zbool.
  - rewrite strtol_print_u by (done || lia). unfold LONG_MAX. by rewrite (proj2 (Z.leb_le _ _)) by lia.
Qed.

(** ** Buffers hold what was written *)
Lemma put_Ok buf off cs :
  (off + length cs ≤ length buf)%nat → put buf off cs = Ok (take off buf ++ cs ++ drop (off + length cs) buf).
Proof. intros Hl. unfold put. by rewrite (proj2 (Nat.leb_le _ _) Hl). Qed.

Lemma c_str_app s rest : no_null s → c_str (s ++ 0 :: rest) = Ok s.
Proof.
  intros Hs. unfold c_str. rewrite span_app; [done| |by intros ?? [= <- <-]].
  eapply Forall_impl; [exact Hs|]. simpl. by intros ? ->.
Qed.

(** A text that fits is read back from the buffer [snprintf] wrote it to. *)
Lemma put_snprintf buf n s :
  no_null s → (length s < n ≤ length buf)%nat →
  ∃ buf', put buf 0 (snprintf n s) = Ok buf' ∧ length buf' = length buf ∧ c_str buf' = Ok s.
Proof.
  intros Hs Hn. unfold snprintf. rewrite take_ge by lia.
  rewrite put_Ok by (rewrite length_app; simpl; lia). eexists. split; [done|].
  split; [sizes|].
  rewrite take_0, app_nil_l, <- app_assoc. by apply c_str_app.
Qed.

Lemma digits_length base fuel n : (length (digits base fuel n) ≤ fuel)%nat.
Proof.
  revert n. induction fuel as [|fuel IH]; intros n; cbn [digits]; [done|].
  destruct (n <? base); [simpl; lia|]. rewrite length_app. specialize (IH (n / base)). simpl. lia.
Qed.

Lemma isdigit_no_null s : Forall (λ c, isdigit 10 c = true) s → no_null s.
Proof.
  intros Hs. eapply Forall_impl; [exact Hs|]. intros c Hc. apply Z.eqb_neq. intros ->. by vm_compute in Hc.
Qed.

Lemma print_u64_text m : 0 ≤ m < 2 ^ 64 →
  no_null (print_u64 m) ∧ (length (print_u64 m) ≤ 20)%nat ∧ print_u64 m ≠ [].
Proof.
  intros Hm. assert (Hnil : ends_number []) by (intros ?? [=]). destruct (detect_print m [] Hm Hnil) as (? & ? & _).
  split; [by apply isdigit_no_null|]. split; [apply digits_length|done].
Qed.

Lemma print_s64_text n : LONG_MIN ≤ n ≤ LONG_MAX →
  no_null (print_s64 n) ∧ (length (print_s64 n) ≤ 21)%nat ∧ print_s64 n ≠ [].
Proof.
  unfold LONG_MIN, LONG_MAX. intros Hn. unfold print_s64. destruct (Z.ltb_spec n 0).
  - destruct (print_u64_text (- n) ltac:(lia)) as (Hd & Hl & _). repeat split; [by apply Forall_cons|simpl; lia|done].
  - destruct (print_u64_text n ltac:(lia)) as (? & ? & ?). repeat split; [done|lia|done].
Qed.
