(* ===== verification/OptHelpers.v ===== *)
(** * Option values (ccan/opt/helpers.c)

    The callbacks that set a variable from the argument of an option, and those
    that show its value.  A setter returns the message of the error, if there is
    one, and the new content of the variable; a [char buf[OPT_SHOW_LEN]] is the
    list of its cells. *)
From Stdlib Require Import Strings.String.
From S2P Require Import Prelude.
From S2P Require Import Scanf.
From S2P Require Import CString.
#[local] Open Scope Z_scope.

(** A [char *] result: [None] for NULL. *)
Abbreviation problem := (option str).

Definition OPT_SHOW_LEN : nat := 80.

(** The message [fmt] with the argument filled in.  The buffer has
    [strlen(fmt) + strlen(arg)] bytes; see [arg_bad_fits]. *)
Definition arg_bad (fmt arg : str) : str := sprintf_s fmt arg.

Definition opt_invalid_argument (arg : str) : str := sprintf_s (lit "Invalid argument '%s'") arg.

(** ** Setting a flag or a string *)
Definition opt_set_bool (b : bool) : problem * bool := (None, true).
Definition opt_set_invbool (b : bool) : problem * bool := (None, false).

Definition opt_set_bool_arg (arg : str) (b : bool) : problem * bool :=
  if strcasecmp_eq arg (lit "yes") || strcasecmp_eq arg (lit "true") then opt_set_bool b
  else if strcasecmp_eq arg (lit "no") || strcasecmp_eq arg (lit "false") then opt_set_invbool b
  else (Some (opt_invalid_argument arg), b).

Definition opt_set_invbool_arg (arg : str) (b : bool) : problem * bool :=
  let '(err, b) := opt_set_bool_arg arg b in
  (err, if err is None then negb b else b).

Definition opt_set_charp (arg : str) (p : option str) : problem * option str := (None, Some arg).

(** ** Setting an integer *)
Definition opt_set_longval (arg : str) (l : Z) : problem * Z :=
  let '(l, endp, erange) := strtol arg in
  if negb (head_char endp =? 0) || (head_char arg =? 0) then (Some (arg_bad (lit "'%s' is not a number") arg), l)
  else if erange then (Some (arg_bad (lit "'%s' is out of range") arg), l)
  else (None, l).

(** The local [l] is written before it is read. *)
Definition opt_set_intval (arg : str) (i : Z) : problem * Z :=
  let '(err, l) := opt_set_longval arg 0 in
  match err with
  | Some _ => (err, i)
  | None =>
    let i := s32 l in
    if negb (i =? l) then (Some (arg_bad (lit "value '%s' does not fit into an integer") arg), i) else (err, i)
  end.

Definition opt_set_uintval (arg : str) (ui : Z) : problem * Z :=
  let '(err, i) := opt_set_intval arg 0 in
  match err with
  | Some _ => (err, ui)
  | None =>
    if i <? 0 then (Some (arg_bad (lit "'%s' is negative but destination is unsigned") arg), ui)
    else (None, u32 i)
  end.

Definition opt_set_ulongval (arg : str) (ul : Z) : problem * Z :=
  let '(err, l) := opt_set_longval arg 0 in
  match err with
  | Some _ => (err, ul)
  | None =>
    let ul := u64 l in
    if l <? 0 then (Some (arg_bad (lit "'%s' is negative but destination is unsigned") arg), ul) else (None, ul)
  end.

Definition INT_MAX : Z := 2 ^ 31 - 1.
Definition INT_MIN : Z := - 2 ^ 31.

Definition opt_inc_intval (i : Z) : res (problem * Z) :=
  when i =? INT_MAX throw EOverflow;
  Ok (None, i + 1).
Definition opt_dec_intval (i : Z) : res (problem * Z) :=
  when i =? INT_MIN throw EOverflow;
  Ok (None, i - 1).

(** ** Suffixes *)

(** A product in [long long]. *)
Definition mul_s64 (a b : Z) : res Z :=
  if (LONG_MIN <=? a * b) && (a * b <=? LONG_MAX) then Ok (a * b) else Err EOverflow.

(** [base * base * ..], [n + 1] factors *)
Fixpoint mul_base (base : Z) (n : nat) : res Z :=
  match n with O => Ok base | S n => m ← mul_base base n; mul_s64 m base end.

(** The [switch] on the suffix: the number of factors, less one. *)
Definition suffix_factors (c : Z) : option nat :=
  if (c =? 75) || (c =? 107) then Some 0%nat
  else if (c =? 77) || (c =? 109) then Some 1%nat
  else if (c =? 71) || (c =? 103) then Some 2%nat
  else if (c =? 84) || (c =? 116) then Some 3%nat
  else if c =? 80 then Some 4%nat
  else if c =? 69 then Some 5%nat
  else None.

Definition set_llong_with_suffix (arg : str) (ll : Z) (base : Z) : res (problem * Z) :=
  when head_char arg =? 0 return (Some (arg_bad (lit "'%s' (an empty string) is not a number") arg), 0);
  let '(ll, endp, erange) := strtol arg in
  when erange : bool return (Some (arg_bad (lit "'%s' is out of range") arg), ll);
  match endp with
  | [] => Ok (None, ll)
  | c :: endp' =>
    when negb (head_char endp' =? 0) return (Some (arg_bad (lit "'%s' is not a number (suffix too long)") arg), ll);
    match suffix_factors c with
    | None => Ok (Some (arg_bad (lit "'%s' is not a number (unknown suffix)") arg), ll)
    | Some n =>
      mul ← mul_base base n;
      when (Z.quot LONG_MAX mul <? ll) || (ll <? Z.quot LONG_MIN mul)
      return (Some (arg_bad (lit "'%s' is out of range") arg), ll);
      ll ← mul_s64 ll mul;
      Ok (None, ll)
    end
  end.

(** The middle layer: the local [ll] is written before it is read. *)
Definition set_ulonglong_with_suffix (arg : str) (ull base : Z) : res (problem * Z) :=
  '(err, ll) ← set_llong_with_suffix arg 0 base;
  match err with
  | Some _ => Ok (err, ull)
  | None =>
    when ll <? 0 return (Some (arg_bad (lit "'%s' is negative but destination is unsigned") arg), ull);
    Ok (None, u64 ll)
  end.

(** [long] and [long long] have the same size: the test for truncation is
    compiled away. *)
Definition set_long_with_suffix (arg : str) (l base : Z) : res (problem * Z) :=
  '(err, ll) ← set_llong_with_suffix arg 0 base;
  match err with Some _ => Ok (err, l) | None => Ok (None, ll) end.

Definition set_ulong_with_suffix (arg : str) (ul base : Z) : res (problem * Z) :=
  '(err, ll) ← set_llong_with_suffix arg 0 base;
  match err with
  | Some _ => Ok (err, ul)
  | None =>
    when ll <? 0 return (Some (arg_bad (lit "'%s' is negative but destination is unsigned") arg), ul);
    Ok (None, u64 ll)
  end.

Definition set_int_with_suffix (arg : str) (i base : Z) : res (problem * Z) :=
  '(err, ll) ← set_llong_with_suffix arg 0 base;
  match err with
  | Some _ => Ok (err, i)
  | None =>
    let i := s32 ll in
    when negb (i =? ll) return (Some (arg_bad (lit "value '%s' does not fit into an int") arg), i);
    Ok (None, i)
  end.

Definition set_uint_with_suffix (arg : str) (u base : Z) : res (problem * Z) :=
  '(err, ll) ← set_llong_with_suffix arg 0 base;
  match err with
  | Some _ => Ok (err, u)
  | None =>
    when ll <? 0 return (Some (arg_bad (lit "'%s' is negative but destination is unsigned") arg), u);
    let u := u32 ll in
    when negb (u =? ll) return (Some (arg_bad (lit "value '%s' does not fit into an unsigned int") arg), u);
    Ok (None, u)
  end.

Definition opt_set_ulonglongval_bi (arg : str) (ll : Z) := set_ulonglong_with_suffix arg ll 1024.
Definition opt_set_ulonglongval_si (arg : str) (ll : Z) := set_ulonglong_with_suffix arg ll 1000.
Definition opt_set_longlongval_bi (arg : str) (ll : Z) := set_llong_with_suffix arg ll 1024.
Definition opt_set_longlongval_si (arg : str) (ll : Z) := set_llong_with_suffix arg ll 1000.
Definition opt_set_longval_bi (arg : str) (l : Z) := set_long_with_suffix arg l 1024.
Definition opt_set_longval_si (arg : str) (l : Z) := set_long_with_suffix arg l 1000.
Definition opt_set_ulongval_bi (arg : str) (ul : Z) := set_ulong_with_suffix arg ul 1024.
Definition opt_set_ulongval_si (arg : str) (ul : Z) := set_ulong_with_suffix arg ul 1000.
Definition opt_set_intval_bi (arg : str) (i : Z) := set_int_with_suffix arg i 1024.
Definition opt_set_intval_si (arg : str) (i : Z) := set_int_with_suffix arg i 1000.
Definition opt_set_uintval_bi (arg : str) (u : Z) := set_uint_with_suffix arg u 1024.
Definition opt_set_uintval_si (arg : str) (u : Z) := set_uint_with_suffix arg u 1000.

(** ** Showing values *)
Definition opt_show_bool (buf : list Z) (b : bool) : res (list Z) :=
  put buf 0 (strncpy OPT_SHOW_LEN (if b then lit "true" else lit "false")).
Definition opt_show_invbool (buf : list Z) (b : bool) : res (list Z) :=
  put buf 0 (strncpy OPT_SHOW_LEN (if b then lit "false" else lit "true")).

(** A string in quotes; a long one is cut, and then there is no null. *)
Definition opt_show_charp (buf : list Z) (p : option str) : res (list Z) :=
  match p with
  | Some s =>
    let len := length s in
    buf ← put buf 0 [34];
    let len := if (OPT_SHOW_LEN - 2 <? len)%nat then (OPT_SHOW_LEN - 2)%nat else len in
    buf ← put buf 1 (strncpy len s);
    buf ← put buf (1 + len) [34];
    if (len <? OPT_SHOW_LEN - 2)%nat then put buf (2 + len) [0] else Ok buf
  | None => put buf 0 (strncpy OPT_SHOW_LEN (lit "(nil)"))
  end.

Definition opt_show_intval (buf : list Z) (i : Z) := put buf 0 (snprintf OPT_SHOW_LEN (print_s64 i)).
Definition opt_show_uintval (buf : list Z) (ui : Z) := put buf 0 (snprintf OPT_SHOW_LEN (print_u64 ui)).
Definition opt_show_longval (buf : list Z) (l : Z) := put buf 0 (snprintf OPT_SHOW_LEN (print_s64 l)).
Definition opt_show_ulongval (buf : list Z) (ul : Z) := put buf 0 (snprintf OPT_SHOW_LEN (print_u64 ul)).

Definition suffixes : str := lit "kMGTPE".

(** The loop that divides out the base while the division is exact; C division
    truncates. *)
Fixpoint divide_out (base : Z) (todo i : nat) (ll : Z) : nat * Z :=
  match todo with
  | O => (i, ll)
  | S todo =>
    let tmp := Z.quot ll base in
    if negb (tmp * base =? ll) then (i, ll) else divide_out base todo (S i) tmp
  end.

Definition show_llong_with_suffix (buf : list Z) (ll base : Z) : res (list Z) :=
  if ll =? 0 then put buf 0 (snprintf OPT_SHOW_LEN (lit "0")) else
  let '(i, ll) := divide_out base (length suffixes) 0 ll in
  if (i =? 0)%nat then put buf 0 (snprintf OPT_SHOW_LEN (print_s64 ll)) else
  c ← nget suffixes (i - 1);
  put buf 0 (snprintf OPT_SHOW_LEN (print_s64 ll ++ [c])).

Definition show_ullong_with_suffix (buf : list Z) (ull base : Z) : res (list Z) :=
  if ull =? 0 then put buf 0 (snprintf OPT_SHOW_LEN (lit "0")) else
  let '(i, ull) := divide_out base (length suffixes) 0 ull in
  if (i =? 0)%nat then put buf 0 (snprintf OPT_SHOW_LEN (print_u64 ull)) else
  c ← nget suffixes (i - 1);
  put buf 0 (snprintf OPT_SHOW_LEN (print_u64 ull ++ [c])).

Definition opt_show_intval_bi (buf : list Z) (x : Z) := show_llong_with_suffix buf x 1024.
Definition opt_show_longval_bi (buf : list Z) (x : Z) := show_llong_with_suffix buf x 1024.
Definition opt_show_longlongval_bi (buf : list Z) (x : Z) := show_llong_with_suffix buf x 1024.
Definition opt_show_uintval_bi (buf : list Z) (x : Z) := show_ullong_with_suffix buf x 1024.
Definition opt_show_ulongval_bi (buf : list Z) (x : Z) := show_ullong_with_suffix buf x 1024.
Definition opt_show_ulonglongval_bi (buf : list Z) (x : Z) := show_ullong_with_suffix buf x 1024.
Definition opt_show_intval_si (buf : list Z) (x : Z) := show_llong_with_suffix buf x 1000.
Definition opt_show_longval_si (buf : list Z) (x : Z) := show_llong_with_suffix buf x 1000.
Definition opt_show_longlongval_si (buf : list Z) (x : Z) := show_llong_with_suffix buf x 1000.
Definition opt_show_uintval_si (buf : list Z) (x : Z) := show_ullong_with_suffix buf x 1000.
Definition opt_show_ulongval_si (buf : list Z) (x : Z) := show_ullong_with_suffix buf x 1000.
Definition opt_show_ulonglongval_si (buf : list Z) (x : Z) := show_ullong_with_suffix buf x 1000.
