(* ===== verification/OptValues.v ===== *)
(** * Option values: what can be set and shown

    Every pair of a setter and a shower of integers is one [int_opt]; the theorems
    hold for all of them at once: a setter never overflows and only stores values
    of the type of its variable, and what is shown can be set again. *)
From Stdlib Require Import Strings.String.
From S2P Require Import Prelude.
From S2P Require Import Scanf.
From S2P Require Import CString.
From S2P Require Import OptHelpers.
#[local] Open Scope Z_scope.

(** A kind of integer option: the type of the variable, the largest value that
    can be set, the setter and the shower. *)
Record int_opt := mk_int_opt {
  io_lo : Z; io_hi : Z; io_settable : Z;
  io_set : str → Z → res (problem * Z);
  io_show : list Z → Z → res (list Z) }.

Definition UINT_MAX : Z := 2 ^ 32 - 1.
Definition ULONG_MAX : Z := 2 ^ 64 - 1.

Definition plain (f : str → Z → problem * Z) : str → Z → res (problem * Z) := λ arg v, Ok (f arg v).

Definition int_opts : list int_opt := [
  mk_int_opt INT_MIN INT_MAX INT_MAX (plain opt_set_intval) opt_show_intval;
  mk_int_opt 0 UINT_MAX INT_MAX (plain opt_set_uintval) opt_show_uintval;
  mk_int_opt LONG_MIN LONG_MAX LONG_MAX (plain opt_set_longval) opt_show_longval;
  mk_int_opt 0 ULONG_MAX LONG_MAX (plain opt_set_ulongval) opt_show_ulongval;
  mk_int_opt INT_MIN INT_MAX INT_MAX opt_set_intval_bi opt_show_intval_bi;
  mk_int_opt INT_MIN INT_MAX INT_MAX opt_set_intval_si opt_show_intval_si;
  mk_int_opt 0 UINT_MAX UINT_MAX opt_set_uintval_bi opt_show_uintval_bi;
  mk_int_opt 0 UINT_MAX UINT_MAX opt_set_uintval_si opt_show_uintval_si;
  mk_int_opt LONG_MIN LONG_MAX LONG_MAX opt_set_longval_bi opt_show_longval_bi;
  mk_int_opt LONG_MIN LONG_MAX LONG_MAX opt_set_longval_si opt_show_longval_si;
  mk_int_opt 0 ULONG_MAX LONG_MAX opt_set_ulongval_bi opt_show_ulongval_bi;
  mk_int_opt 0 ULONG_MAX LONG_MAX opt_set_ulongval_si opt_show_ulongval_si;
  mk_int_opt LONG_MIN LONG_MAX LONG_MAX opt_set_longlongval_bi opt_show_longlongval_bi;
  mk_int_opt LONG_MIN LONG_MAX LONG_MAX opt_set_longlongval_si opt_show_longlongval_si;
  mk_int_opt 0 ULONG_MAX LONG_MAX opt_set_ulonglongval_bi opt_show_ulonglongval_bi;
  mk_int_opt 0 ULONG_MAX LONG_MAX opt_set_ulonglongval_si opt_show_ulonglongval_si ].

Ltac bounds := unfold INT_MIN, INT_MAX, UINT_MAX, LONG_MIN, LONG_MAX, ULONG_MAX, u32, u64, s32 in *.

(** ** Parsing a number *)
Lemma strtol_range s v r e : strtol s = (v, r, e) → LONG_MIN ≤ v ≤ LONG_MAX.
Proof.
  unfold strtol. destruct (scan_sign _) as [neg s1], (detect_base s1) as [base s2], (span _ s2) as [ds rest].
  destruct ds; [intros [= <- <- <-]; bounds; lia|].
  destruct (Z.ltb_spec (if neg : bool then - num_val base (z :: ds) else num_val base (z :: ds)) LONG_MIN);
    [intros [= <- <- <-]; bounds; lia|].
  destruct (Z.ltb_spec LONG_MAX (if neg : bool then - num_val base (z :: ds) else num_val base (z :: ds)));
    intros [= <- <- <-]; bounds; lia.
Qed.

(** ** Multiplying out the suffix *)
Definition base_ok (base : Z) : Prop := base = 1000 ∨ base = 1024.

Lemma mul_base_ok base n : base_ok base → (n < 6)%nat → mul_base base n = Ok (base ^ (Z.of_nat n + 1)).
Proof. intros [->| ->] Hn; do 6 (destruct n as [|n]; [vm_compute; reflexivity|]); lia. Qed.

Lemma base_pow_range base n : base_ok base → (n < 6)%nat → 1 < base ^ (Z.of_nat n + 1) ≤ LONG_MAX.
Proof. intros [->| ->] Hn; do 6 (destruct n as [|n]; [by vm_compute|]); lia. Qed.

Lemma suffix_factors_lt c n : suffix_factors c = Some n → (n < 6)%nat.
Proof. unfold suffix_factors. repeat case_match; intros; simplify_eq; lia. Qed.

(** The range check before the product is exact. *)
Lemma mul_check v m :
  1 < m → (Z.quot LONG_MAX m <? v) || (v <? Z.quot LONG_MIN m) = false ↔ LONG_MIN ≤ v * m ≤ LONG_MAX.
Proof.
  intros Hm. rewrite orb_false_iff, !Z.ltb_ge. bounds.
  pose proof (Z.quot_rem (2 ^ 63 - 1) m ltac:(lia)) as H1. pose proof (Z.rem_bound_pos (2 ^ 63 - 1) m ltac:(lia) ltac:(lia)).
  pose proof (Z.quot_rem (- 2 ^ 63) m ltac:(lia)) as H2. pose proof (Z.rem_bound_pos_neg (- 2 ^ 63) m ltac:(lia) ltac:(lia)).
  split; nia.
Qed.

(** The outcome of a setter is at hand. *)
Ltac outcome := do 2 eexists; split; [reflexivity|]; split; [|first [discriminate|intros _]]; bounds; lia.

Lemma set_llong_total arg old base : base_ok base →
  ∃ err v, set_llong_with_suffix arg old base = Ok (err, v) ∧ LONG_MIN ≤ v ≤ LONG_MAX.
Proof.
  intros Hb. unfold set_llong_with_suffix. destruct (head_char arg =? 0); [by do 2 eexists; split; [reflexivity|]; bounds; lia|].
  destruct (strtol arg) as [[v endp] e] eqn:Hv. pose proof (strtol_range _ _ _ _ Hv) as Hr.
  destruct e; [by do 2 eexists; split; [reflexivity|]; bounds; lia|]. destruct endp as [|c endp]; [by do 2 eexists; split; [reflexivity|]; bounds; lia|].
  destruct (negb _); [by do 2 eexists; split; [reflexivity|]; bounds; lia|]. destruct (suffix_factors c) as [n|] eqn:Hc; [|by do 2 eexists; split; [reflexivity|]; bounds; lia].
  pose proof (suffix_factors_lt _ _ Hc) as Hn. rewrite mul_base_ok by done. rewrite bind_ret.
  pose proof (base_pow_range base n Hb Hn) as Hm. destruct (_ || _) eqn:Hck; [by do 2 eexists; split; [reflexivity|]; bounds; lia|].
  apply mul_check in Hck; [|lia]. unfold mul_s64. rewrite (proj2 (andb_true_iff _ _)) by lia.
  rewrite bind_ret. by do 2 eexists; split; [reflexivity|]; bounds; lia.
Qed.

(** What is shown: the digits, and the suffix of the power that was divided out. *)
Lemma divide_out_spec base todo i ll j v :
  1 < base → divide_out base todo i ll = (j, v) →
  (i ≤ j ≤ i + todo)%nat ∧ ll = v * base ^ (Z.of_nat j - Z.of_nat i).
Proof.
  intros Hb. revert i ll. induction todo as [|todo IH]; intros i ll Hd; cbn [divide_out] in Hd.
  - injection Hd as <- <-. rewrite Z.sub_diag, Z.pow_0_r. lia.
  - destruct (Z.eqb_spec (Z.quot ll base * base) ll) as [He|]; cbn [negb] in Hd;
      [|injection Hd as <- <-; rewrite Z.sub_diag, Z.pow_0_r; lia].
    destruct (IH _ _ Hd) as [Hj Hv]. split; [lia|]. rewrite <- He, Hv at 1.
    replace (Z.of_nat j - Z.of_nat i) with (Z.succ (Z.of_nat j - Z.of_nat (S i))) by lia.
    rewrite Z.pow_succ_r by lia. lia.
Qed.

Lemma suffixes_factors n : (n < 6)%nat →
  ∃ c, nget suffixes n = Ok c ∧ suffix_factors c = Some n ∧ ends_number [c] ∧ (c =? 0) = false.
Proof.
  intros Hn. do 6 (destruct n as [|n]; [eexists; split; [done|]; split; [done|];
    split; [intros ?? [= <- <-]; by repeat split|done]|]). lia.
Qed.

Lemma head_no_null s t : no_null s → s ≠ [] → (head_char (s ++ t) =? 0) = false.
Proof. by intros [|]. Qed.

Lemma ends_nil : ends_number [].
Proof. by intros ?? [=]. Qed.

(** A number, and a number with a suffix, are set as they are written. *)
Lemma set_llong_plain v old base :
  LONG_MIN ≤ v ≤ LONG_MAX → set_llong_with_suffix (print_s64 v) old base = Ok (None, v).
Proof.
  intros Hv. destruct (print_s64_text v Hv) as (Hnn & _ & Hne). unfold set_llong_with_suffix.
  rewrite <- (app_nil_r (print_s64 v)), head_no_null, strtol_print by (done || apply ends_nil). done.
Qed.

Lemma set_llong_suffix v c n old base :
  base_ok base → suffix_factors c = Some n → ends_number [c] →
  LONG_MIN ≤ v ≤ LONG_MAX → LONG_MIN ≤ v * base ^ (Z.of_nat n + 1) ≤ LONG_MAX →
  set_llong_with_suffix (print_s64 v ++ [c]) old base = Ok (None, v * base ^ (Z.of_nat n + 1)).
Proof.
  intros Hb Hc He Hv Hp. destruct (print_s64_text v Hv) as (Hnn & _ & Hne). unfold set_llong_with_suffix.
  rewrite head_no_null, strtol_print by done. cbn [head_char Z.eqb negb]. rewrite Hc.
  pose proof (suffix_factors_lt _ _ Hc) as Hn. rewrite mul_base_ok, bind_ret by done.
  pose proof (base_pow_range base n Hb Hn) as Hm. rewrite (proj2 (mul_check v _ (proj1 Hm)) Hp).
  unfold mul_s64. by rewrite (proj2 (andb_true_iff _ _)) by lia.
Qed.

(** Setting gives back [x] when it is at most [limit], and an error otherwise. *)
Definition read_back (o : res (problem * Z)) (limit x : Z) : Prop :=
  ∃ err w, o = Ok (err, w) ∧ if x <=? limit then err = None ∧ w = x else err ≠ None.

Lemma read_back_Ok limit x : x ≤ limit → read_back (Ok (None, x)) limit x.
Proof. intros Hx. do 2 eexists. split; [done|]. by rewrite (proj2 (Z.leb_le _ _) Hx). Qed.
Lemma read_back_err limit x msg w : limit < x → read_back (Ok (Some msg, w)) limit x.
Proof. intros Hx. do 2 eexists. split; [done|]. by rewrite (proj2 (Z.leb_gt _ _) Hx). Qed.

Lemma set_llong_plain_u v old base :
  0 ≤ v ≤ ULONG_MAX → read_back (set_llong_with_suffix (print_u64 v) old base) LONG_MAX v.
Proof.
  unfold ULONG_MAX. intros Hv. destruct (print_u64_text v ltac:(lia)) as (Hnn & _ & Hne). unfold set_llong_with_suffix.
  rewrite <- (app_nil_r (print_u64 v)), head_no_null, strtol_print_u by (done || apply ends_nil || lia).
  destruct (Z.leb_spec v LONG_MAX); [by apply read_back_Ok|by apply read_back_err].
Qed.

Lemma set_llong_suffix_u v c n old base :
  base_ok base → suffix_factors c = Some n → ends_number [c] →
  0 ≤ v ≤ ULONG_MAX →
  read_back (set_llong_with_suffix (print_u64 v ++ [c]) old base) LONG_MAX (v * base ^ (Z.of_nat n + 1)).
Proof.
  unfold ULONG_MAX. intros Hb Hc He Hv. destruct (print_u64_text v ltac:(lia)) as (Hnn & _ & Hne).
  unfold set_llong_with_suffix. rewrite head_no_null, strtol_print_u by (done || lia).
  pose proof (suffix_factors_lt _ _ Hc) as Hn. pose proof (base_pow_range base n Hb Hn) as Hm.
  destruct (Z.leb_spec v LONG_MAX); [|apply read_back_err; nia]. cbn [head_char Z.eqb negb]. rewrite Hc.
  rewrite mul_base_ok, bind_ret by done. pose proof (mul_check v _ (proj1 Hm)) as Hck. destruct (_ || _).
  - apply read_back_err. apply Z.nle_gt. intros Hle. assert (true = false) by (apply Hck; bounds; nia). done.
  - apply proj1 in Hck. specialize (Hck eq_refl). unfold mul_s64. rewrite (proj2 (andb_true_iff _ _)), bind_ret by lia.
    apply read_back_Ok. lia.
Qed.

(** ** Showing a value, and setting it again *)
Definition shown (buf : list Z) (o : res (list Z)) (s : str) : Prop :=
  ∃ buf', o = Ok buf' ∧ length buf' = length buf ∧ c_str buf' = Ok s.

Lemma shown_text buf s :
  (OPT_SHOW_LEN ≤ length buf)%nat → no_null s → (length s ≤ 22)%nat →
  shown buf (put buf 0 (snprintf OPT_SHOW_LEN s)) s.
Proof. intros Hb Hs Hl. apply put_snprintf; [done|]. unfold OPT_SHOW_LEN in *. lia. Qed.

Lemma no_null_snoc s c : no_null s → (c =? 0) = false → no_null (s ++ [c]).
Proof. intros Hs Hc. apply Forall_app. split; [done|]. by apply Forall_singleton. Qed.

Lemma factor_bound x v p : 0 < p → x = v * p → Z.abs v ≤ Z.abs x.
Proof. intros Hp ->. rewrite Z.abs_mul. nia. Qed.

Lemma show_llong_back buf x base : (OPT_SHOW_LEN ≤ length buf)%nat → base_ok base → LONG_MIN ≤ x ≤ LONG_MAX →
  ∃ s, shown buf (show_llong_with_suffix buf x base) s ∧
  ∀ old, set_llong_with_suffix s old base = Ok (None, x).
Proof.
  intros Hbuf Hb Hx. unfold show_llong_with_suffix. destruct (Z.eqb_spec x 0) as [->|Hx0].
  { exists (lit "0"). split; [apply shown_text; [done|by apply Forall_singleton|simpl; lia]|done]. }
  destruct (divide_out base (length suffixes) 0 x) as [i v] eqn:Hd.
  apply divide_out_spec in Hd as [Hi Hv]; [|destruct Hb; lia]. change (length suffixes) with 6%nat in Hi. rewrite Z.sub_0_r in Hv.
  assert (Hp : 0 < base ^ Z.of_nat i) by (apply Z.pow_pos_nonneg; destruct Hb; lia).
  pose proof (factor_bound _ _ _ Hp Hv) as Hvx.
  assert (Hvr : LONG_MIN ≤ v ≤ LONG_MAX) by (bounds; nia).
  destruct (print_s64_text v Hvr) as (Hnn & Hlen & Hne).
  destruct i as [|i]; cbn [Nat.eqb].
  - exists (print_s64 v). split; [apply shown_text; [done|done|lia]|]. intros old.
    rewrite set_llong_plain by done. rewrite Hv, Z.pow_0_r. do 3 f_equal. lia.
  - destruct (suffixes_factors i ltac:(lia)) as (c & Hc & Hf & He & Hc0).
    rewrite Nat.sub_succ, Nat.sub_0_r, Hc, bind_ret. exists (print_s64 v ++ [c]).
    split; [apply shown_text; [done|by apply no_null_snoc|rewrite length_app; simpl; lia]|]. intros old.
    replace (Z.of_nat (S i)) with (Z.of_nat i + 1) in Hv by lia. rewrite Hv in *. by apply set_llong_suffix.
Qed.

Lemma show_ullong_back buf x base : (OPT_SHOW_LEN ≤ length buf)%nat → base_ok base → 0 ≤ x ≤ ULONG_MAX →
  ∃ s, shown buf (show_ullong_with_suffix buf x base) s ∧
  ∀ old, read_back (set_llong_with_suffix s old base) LONG_MAX x.
Proof.
  intros Hbuf Hb Hx. unfold show_ullong_with_suffix. destruct (Z.eqb_spec x 0) as [->|Hx0].
  { exists (lit "0"). split; [apply shown_text; [done|by apply Forall_singleton|simpl; lia]|]. intros old. by apply (read_back_Ok LONG_MAX 0). }
  destruct (divide_out base (length suffixes) 0 x) as [i v] eqn:Hd.
  apply divide_out_spec in Hd as [Hi Hv]; [|destruct Hb; lia]. change (length suffixes) with 6%nat in Hi. rewrite Z.sub_0_r in Hv.
  assert (Hp : 0 < base ^ Z.of_nat i) by (apply Z.pow_pos_nonneg; destruct Hb; lia).
  assert (Hvr : 0 ≤ v ≤ ULONG_MAX) by (unfold ULONG_MAX in *; nia).
  destruct (print_u64_text v ltac:(unfold ULONG_MAX in *; lia)) as (Hnn & Hlen & Hne).
  destruct i as [|i]; cbn [Nat.eqb].
  - exists (print_u64 v). split; [apply shown_text; [done|done|lia]|]. intros old.
    rewrite Z.pow_0_r, Z.mul_1_r in Hv. subst x. by apply set_llong_plain_u.
  - destruct (suffixes_factors i ltac:(lia)) as (c & Hc & Hf & He & Hc0).
    rewrite Nat.sub_succ, Nat.sub_0_r, Hc, bind_ret. exists (print_u64 v ++ [c]).
    split; [apply shown_text; [done|by apply no_null_snoc|rewrite length_app; simpl; lia]|]. intros old.
    replace (Z.of_nat (S i)) with (Z.of_nat i + 1) in Hv by lia. rewrite Hv. by apply set_llong_suffix_u.
Qed.

(** ** All the integer options *)
Definition typed (o : int_opt) : Prop := ∀ arg old, io_lo o ≤ old ≤ io_hi o →
  ∃ err v, io_set o arg old = Ok (err, v) ∧ io_lo o ≤ v ≤ io_hi o ∧ (err = None → v ≤ io_settable o).

Lemma longval_range arg old : LONG_MIN ≤ (opt_set_longval arg old).2 ≤ LONG_MAX.
Proof.
  unfold opt_set_longval. destruct (strtol arg) as [[v endp] e] eqn:Hv. apply strtol_range in Hv.
  destruct (_ || _), e; simpl; lia.
Qed.

Lemma s32_range x : INT_MIN ≤ s32 x ≤ INT_MAX.
Proof. bounds. pose proof (Z.mod_pos_bound (x + 2 ^ 31) (2 ^ 32) ltac:(lia)). lia. Qed.
Lemma u32_range x : 0 ≤ u32 x ≤ UINT_MAX.
Proof. bounds. pose proof (Z.mod_pos_bound x (2 ^ 32) ltac:(lia)). lia. Qed.
Lemma u64_range x : 0 ≤ u64 x ≤ ULONG_MAX.
Proof. bounds. pose proof (Z.mod_pos_bound x (2 ^ 64) ltac:(lia)). lia. Qed.
Lemma s32_int x : INT_MIN ≤ x ≤ INT_MAX → s32 x = x.
Proof. bounds. intros. rewrite Z.mod_small by lia. lia. Qed.
Lemma u64_small x : 0 ≤ x ≤ ULONG_MAX → u64 x = x.
Proof. bounds. intros. apply Z.mod_small. lia. Qed.
Lemma u32_small x : 0 ≤ x ≤ UINT_MAX → u32 x = x.
Proof. bounds. intros. apply Z.mod_small. lia. Qed.

Lemma intval_typed arg old : INT_MIN ≤ old ≤ INT_MAX → INT_MIN ≤ (opt_set_intval arg old).2 ≤ INT_MAX.
Proof.
  intros Ho. unfold opt_set_intval. destruct (opt_set_longval arg 0) as [[e|] l]; [done|].
  pose proof (s32_range l). by destruct (negb _).
Qed.

(** A setter with a suffix first reads a [long long]. *)
Ltac suffix_outcome :=
  repeat first
    [ match goal with
      | |- context [set_llong_with_suffix ?a ?o ?b ≫= _] =>
        let H := fresh in
        destruct (set_llong_total a o b) as (? & ? & H & ?); [solve [unfold base_ok; tauto]|]; rewrite H, bind_ret; clear H
      | |- context [match ?e with Some _ => _ | None => _ end] => is_var e; destruct e
      | |- context [if ?a <? ?b then _ else _] => destruct (Z.ltb_spec a b)
      | |- context [if negb (?a =? ?b) then _ else _] => destruct (Z.eqb_spec a b); cbn [negb]
      | |- context [s32 ?x] => pose proof (s32_range x); set (s32 x) in *
      | |- context [u32 ?x] => pose proof (u32_range x); set (u32 x) in *
      | |- context [u64 ?x] => pose proof (u64_range x); rewrite (u64_small x) by (bounds; lia)
      end ];
  outcome.

(** C17: the types of integer options.  None of the sixteen setters overflows; whatever
    the argument, the variable keeps a value of its type, and a value that is
    stored without an error is at most the largest value that can be set. *)
Theorem int_opts_typed o : o ∈ int_opts → typed o.
Proof.
  intros Ho arg old. apply list_elem_of_In in Ho. cbn [int_opts In] in Ho.
  repeat destruct Ho as [<-|Ho]; try done; cbn [io_lo io_hi io_settable io_set]; intros Hold; unfold plain.
  - pose proof (intval_typed arg old Hold). destruct (opt_set_intval arg old) as [e v]. cbn [snd] in *. by outcome.
  - unfold opt_set_uintval. pose proof (intval_typed arg 0 ltac:(by bounds)).
    destruct (opt_set_intval arg 0) as [[e|] i]; cbn [snd] in *; [by outcome|]. destruct (Z.ltb_spec i 0); [by outcome|].
    rewrite u32_small by (bounds; lia). by outcome.
  - pose proof (longval_range arg old). destruct (opt_set_longval arg old) as [e v]. cbn [snd] in *. by outcome.
  - unfold opt_set_ulongval. pose proof (longval_range arg 0). destruct (opt_set_longval arg 0) as [[e|] l]; cbn [snd] in *; [by outcome|].
    pose proof (u64_range l). destruct (Z.ltb_spec l 0); [by outcome|]. rewrite u64_small by (bounds; lia). by outcome.
  - unfold opt_set_intval_bi, set_int_with_suffix. suffix_outcome.
  - unfold opt_set_intval_si, set_int_with_suffix. suffix_outcome.
  - unfold opt_set_uintval_bi, set_uint_with_suffix. suffix_outcome.
  - unfold opt_set_uintval_si, set_uint_with_suffix. suffix_outcome.
  - unfold opt_set_longval_bi, set_long_with_suffix. suffix_outcome.
  - unfold opt_set_longval_si, set_long_with_suffix. suffix_outcome.
  - unfold opt_set_ulongval_bi, set_ulong_with_suffix. suffix_outcome.
  - unfold opt_set_ulongval_si, set_ulong_with_suffix. suffix_outcome.
  - unfold opt_set_longlongval_bi. destruct (set_llong_total arg old 1024) as (e & v & -> & Hv); [by right|]. by outcome.
  - unfold opt_set_longlongval_si. destruct (set_llong_total arg old 1000) as (e & v & -> & Hv); [by left|]. by outcome.
  - unfold opt_set_ulonglongval_bi, set_ulonglong_with_suffix. suffix_outcome.
  - unfold opt_set_ulonglongval_si, set_ulonglong_with_suffix. suffix_outcome.
Qed.

Lemma longval_print x old : LONG_MIN ≤ x ≤ LONG_MAX → opt_set_longval (print_s64 x) old = (None, x).
Proof.
  intros Hx. destruct (print_s64_text x Hx) as (Hnn & _ & Hne). unfold opt_set_longval.
  rewrite <- (app_nil_r (print_s64 x)), strtol_print by (done || apply ends_nil).
  by rewrite head_no_null by done.
Qed.

Lemma longval_print_u x old : 0 ≤ x ≤ ULONG_MAX →
  ∃ msg, opt_set_longval (print_u64 x) old = if x <=? LONG_MAX then (None, x) else (Some msg, LONG_MAX).
Proof.
  unfold ULONG_MAX. intros Hx. destruct (print_u64_text x ltac:(lia)) as (Hnn & _ & Hne). unfold opt_set_longval.
  rewrite <- (app_nil_r (print_u64 x)), strtol_print_u by (done || apply ends_nil || lia).
  rewrite head_no_null by done. destruct (x <=? LONG_MAX); cbn [head_char Z.eqb negb orb]; [by exists []|by eexists].
Qed.

(** Showing a number without a suffix. *)
Lemma show_plain_s buf x : (OPT_SHOW_LEN ≤ length buf)%nat → LONG_MIN ≤ x ≤ LONG_MAX →
  shown buf (put buf 0 (snprintf OPT_SHOW_LEN (print_s64 x))) (print_s64 x).
Proof. intros Hb Hx. destruct (print_s64_text x Hx) as (? & ? & _). apply shown_text; [done|done|lia]. Qed.
Lemma show_plain_u buf x : (OPT_SHOW_LEN ≤ length buf)%nat → 0 ≤ x ≤ ULONG_MAX →
  shown buf (put buf 0 (snprintf OPT_SHOW_LEN (print_u64 x))) (print_u64 x).
Proof.
  unfold ULONG_MAX. intros Hb Hx. destruct (print_u64_text x ltac:(lia)) as (? & ? & _). apply shown_text; [done|done|lia].
Qed.

(** The signed and the unsigned options with a suffix. *)
Ltac back_signed b :=
  match goal with Hb : (OPT_SHOW_LEN ≤ length ?buf)%nat |- ∃ s, shown _ (show_llong_with_suffix _ ?x _) _ ∧ _ =>
    let s := fresh "s" in let Hs := fresh in let H := fresh in
    destruct (show_llong_back buf x b Hb) as (s & Hs & H); [unfold base_ok; tauto|bounds; lia|];
    exists s; split; [done|]; rewrite H, ?bind_ret end.
Ltac back_unsigned b :=
  match goal with Hb : (OPT_SHOW_LEN ≤ length ?buf)%nat |- ∃ s, shown _ (show_ullong_with_suffix _ ?x _) _ ∧ _ =>
    let s := fresh "s" in let Hs := fresh in let H := fresh in
    destruct (show_ullong_back buf x b Hb) as (s & Hs & H); [unfold base_ok; tauto|bounds; lia|];
    exists s; split; [done|]; destruct (H 0) as ([?|] & ? & -> & ?); rewrite bind_ret; destruct (Z.leb_spec x LONG_MAX);
    destruct_and?; simplify_eq end.
Ltac back_u64 :=
  [> by apply read_back_err | rewrite (proj2 (Z.ltb_ge _ _)) by (bounds; lia); rewrite u64_small by (bounds; lia);
      apply read_back_Ok; lia ].

(** C16: showing and setting.  Every value of the type of an integer option is shown as
    a null-terminated text within the buffer; setting this text gives the value
    back when it is one that can be set, and an error otherwise: a plain unsigned
    option takes no value above [INT_MAX], an unsigned 64-bit one none above
    [LONG_MAX], although these are shown. *)
Theorem int_opts_back o buf x old :
  o ∈ int_opts → (OPT_SHOW_LEN ≤ length buf)%nat → io_lo o ≤ x ≤ io_hi o →
  ∃ s, shown buf (io_show o buf x) s ∧ read_back (io_set o s old) (io_settable o) x.
Proof.
  intros Ho Hbuf. apply list_elem_of_In in Ho. cbn [int_opts In] in Ho.
  repeat destruct Ho as [<-|Ho]; try done; cbn [io_lo io_hi io_settable io_set io_show]; intros Hx; unfold plain.
  - exists (print_s64 x). split; [apply show_plain_s; [done|bounds; lia]|].
    unfold opt_set_intval. rewrite longval_print by (bounds; lia). rewrite s32_int, Z.eqb_refl by done. apply read_back_Ok; lia.
  - exists (print_u64 x). split; [apply show_plain_u; [done|bounds; lia]|].
    destruct (longval_print_u x 0 ltac:(bounds; lia)) as [msg Hl]. unfold opt_set_uintval, opt_set_intval. rewrite Hl.
    rewrite (proj2 (Z.leb_le _ _)) by (bounds; lia). destruct (decide (x ≤ INT_MAX)).
    + rewrite s32_int, Z.eqb_refl by (bounds; lia). cbn [negb]. rewrite (proj2 (Z.ltb_ge _ _)) by lia.
      rewrite u32_small by done. apply read_back_Ok; lia.
    + pose proof (s32_range x). rewrite (proj2 (Z.eqb_neq _ _)) by lia. apply read_back_err. lia.
  - exists (print_s64 x). split; [by apply show_plain_s|]. rewrite longval_print by done. apply read_back_Ok; lia.
  - exists (print_u64 x). split; [by apply show_plain_u|].
    destruct (longval_print_u x 0 ltac:(bounds; lia)) as [msg Hl]. unfold opt_set_ulongval. rewrite Hl.
    destruct (Z.leb_spec x LONG_MAX); [|by apply read_back_err].
    rewrite (proj2 (Z.ltb_ge _ _)), u64_small by lia. apply read_back_Ok; lia.
  - unfold opt_show_intval_bi, opt_set_intval_bi, set_int_with_suffix. back_signed 1024.
    rewrite s32_int, Z.eqb_refl by done. apply read_back_Ok; lia.
  - unfold opt_show_intval_si, opt_set_intval_si, set_int_with_suffix. back_signed 1000.
    rewrite s32_int, Z.eqb_refl by done. apply read_back_Ok; lia.
  - unfold opt_show_uintval_bi, opt_set_uintval_bi, set_uint_with_suffix. back_unsigned 1024; [bounds; lia|].
    rewrite (proj2 (Z.ltb_ge _ _)), u32_small, Z.eqb_refl by lia. apply read_back_Ok; lia.
  - unfold opt_show_uintval_si, opt_set_uintval_si, set_uint_with_suffix. back_unsigned 1000; [bounds; lia|].
    rewrite (proj2 (Z.ltb_ge _ _)), u32_small, Z.eqb_refl by lia. apply read_back_Ok; lia.
  - unfold opt_show_longval_bi, opt_set_longval_bi, set_long_with_suffix. back_signed 1024. apply read_back_Ok; lia.
  - unfold opt_show_longval_si, opt_set_longval_si, set_long_with_suffix. back_signed 1000. apply read_back_Ok; lia.
  - unfold opt_show_ulongval_bi, opt_set_ulongval_bi, set_ulong_with_suffix. back_unsigned 1024; back_u64.
  - unfold opt_show_ulongval_si, opt_set_ulongval_si, set_ulong_with_suffix. back_unsigned 1000; back_u64.
  - unfold opt_show_longlongval_bi, opt_set_longlongval_bi. back_signed 1024. apply read_back_Ok; lia.
  - unfold opt_show_longlongval_si, opt_set_longlongval_si. back_signed 1000. apply read_back_Ok; lia.
  - unfold opt_show_ulonglongval_bi, opt_set_ulonglongval_bi, set_ulonglong_with_suffix. back_unsigned 1024; back_u64.
  - unfold opt_show_ulonglongval_si, opt_set_ulonglongval_si, set_ulonglong_with_suffix. back_unsigned 1000; back_u64.
Qed.

(** ** Messages and strings *)

Lemma sprintf_s_cons p l arg : p ≠ 37 → sprintf_s (p :: l) arg = p :: sprintf_s l arg.
Proof. intros Hp. destruct l as [|s l]; [done|]. cbn [sprintf_s]. by rewrite (proj2 (Z.eqb_neq p 37) Hp). Qed.

Lemma sprintf_s_plain l arg : 37 ∉ l → sprintf_s l arg = l.
Proof. induction l as [|p l IH]; [done|]. intros [? ?]%not_elem_of_cons. rewrite sprintf_s_cons by done. by rewrite IH. Qed.

(** The text before and after the one [%s] of a format. *)
Lemma sprintf_s_split pre post arg :
  37 ∉ pre → 37 ∉ post → sprintf_s (pre ++ 37 :: 115 :: post) arg = pre ++ arg ++ post.
Proof.
  intros Hpre Hpost. induction pre as [|p pre IH]; cbn [app].
  - cbn [sprintf_s Z.eqb Pos.eqb andb]. by rewrite sprintf_s_plain.
  - apply not_elem_of_cons in Hpre as [? ?]. rewrite sprintf_s_cons, IH by done. done.
Qed.

(** Every format of helpers.c has one [%s]: the message and its null fit the
    [strlen(fmt) + strlen(arg)] bytes that [arg_bad] allocates, with one byte to
    spare. *)
Lemma arg_bad_fits pre post arg :
  37 ∉ pre → 37 ∉ post →
  let fmt := pre ++ 37 :: 115 :: post in
  (length (arg_bad fmt arg) + 1 < length fmt + length arg)%nat.
Proof. intros H1 H2. unfold arg_bad. rewrite sprintf_s_split by done. rewrite !length_app. cbn [length]. lia. Qed.

(** What add_desc passes to a shower: [OPT_SHOW_LEN] cells of anything, followed by
    the text that marks a value that was cut. *)
Definition dots : list Z := lit "..." ++ [0].

Lemma put_mid (a b c b' : list Z) : length b = length b' → put (a ++ b ++ c) (length a) b' = Ok (a ++ b' ++ c).
Proof.
  intros Hl. rewrite put_Ok by sizes. rewrite <- Hl. do 2 f_equal.
  - by rewrite take_app_length.
  - f_equal. rewrite app_assoc, <- length_app. by rewrite drop_app_length.
Qed.

Lemma put_mid' (a b c b' : list Z) off : off = length a → length b = length b' → put (a ++ b ++ c) off b' = Ok (a ++ b' ++ c).
Proof. intros ->. apply put_mid. Qed.

Lemma strncpy_exact s n : (n ≤ length s)%nat → strncpy n s = take n s.
Proof. intros Hn. unfold strncpy. replace (n - length s)%nat with 0%nat by lia. by rewrite app_nil_r. Qed.

(** a string option is shown in quotes.  A string of fewer than 78 characters is
    shown as it is; a longer one is cut to 78 characters and marked with dots. The
    mark also appears at 78 characters, where nothing is cut. *)
Theorem show_charp_text junk s :
  length junk = OPT_SHOW_LEN → no_null s →
  ∃ buf, opt_show_charp (junk ++ dots) (Some s) = Ok buf ∧
  c_str buf = Ok (if (length s <? OPT_SHOW_LEN - 2)%nat then [34] ++ s ++ [34]
                  else [34] ++ take (OPT_SHOW_LEN - 2) s ++ [34] ++ lit "...").
Proof.
  intros Hj Hs. unfold opt_show_charp.
  set (len := if (OPT_SHOW_LEN - 2 <? length s)%nat then (OPT_SHOW_LEN - 2)%nat else length s).
  assert (Hlen : len = Nat.min (length s) 78) by (unfold len, OPT_SHOW_LEN; destruct (Nat.ltb_spec (80 - 2) (length s)); lia).
  clearbody len. change (OPT_SHOW_LEN - 2)%nat with 78%nat. unfold OPT_SHOW_LEN in Hj.
  assert (Hj4 : ∃ j0 j1 j2 j3, junk = [j0] ++ j1 ++ [j2] ++ j3 ∧ length j1 = len ∧ length j3 = (78 - len)%nat).
  { destruct junk as [|j0 junk]; [done|]. rewrite <- (take_drop len junk) in *. simpl in Hj. rewrite length_app in Hj.
    assert (Hl : length (take len junk) = len) by (rewrite length_take; rewrite length_take, length_drop in Hj; lia).
    destruct (drop len junk) as [|j2 j3] eqn:E; [simpl in Hj; lia|]. exists j0, (take len junk), j2, j3.
    split; [done|]. split; [done|]. simpl in Hj. lia. }
  destruct Hj4 as (j0 & j1 & j2 & j3 & -> & H1 & H3). rewrite <- !app_assoc.
  change ([j0] ++ j1 ++ [j2] ++ j3 ++ dots) with ([] ++ [j0] ++ j1 ++ [j2] ++ j3 ++ dots).
  rewrite (put_mid' [] [j0]), bind_ret by done. rewrite app_nil_l.
  rewrite strncpy_exact by lia.
  rewrite (put_mid' [34] j1 ([j2] ++ j3 ++ dots) (take len s) 1), bind_ret by (rewrite ?length_take; simpl; lia).
  rewrite (app_assoc [34]).
  rewrite put_mid', bind_ret by (rewrite ?length_app, ?length_take; simpl; lia).
  destruct (Nat.ltb_spec len 78).
  - destruct j3 as [|z j3]; [simpl in H3; lia|].
    change ((z :: j3) ++ dots) with ([z] ++ j3 ++ dots). rewrite (app_assoc _ [34]).
    rewrite put_mid' by (rewrite ?length_app, ?length_take; simpl; lia). eexists. split; [done|].
    rewrite (proj2 (Nat.ltb_lt _ _)) by lia. rewrite take_ge by lia. rewrite <- (app_assoc [34]).
    apply (c_str_app (34 :: s ++ [34])). apply Forall_cons. split; [done|]. by apply no_null_snoc.
  - destruct j3; [|simpl in H3; lia]. eexists. split; [done|].
    rewrite (proj2 (Nat.ltb_ge _ _)) by lia. replace len with 78%nat by lia. unfold dots. rewrite app_nil_l.
    rewrite !app_assoc. apply (c_str_app (((34 :: take 78 s) ++ [34]) ++ lit "...")).
    apply Forall_app. split; [|by repeat constructor]. apply no_null_snoc; [|done].
    apply Forall_cons. split; [done|]. by apply Forall_take.
Qed.

(** A suffix without a number is taken for zero.  [strtoll] converts nothing and
    leaves the end pointer at the suffix, and the callers do not look whether
    there were digits. *)
Theorem suffix_alone_is_zero c old base :
  base_ok base → is_Some (suffix_factors c) → set_llong_with_suffix [c] old base = Ok (None, 0).
Proof.
  intros Hb [n Hc]. assert (Hin : c ∈ lit "KkMmGgTtPE").
  { unfold suffix_factors in Hc. repeat case_match; try done; apply list_elem_of_In; simpl; lia. }
  revert Hc. apply list_elem_of_In in Hin. cbn in Hin.
  repeat destruct Hin as [<-|Hin]; try done; intros _; destruct Hb as [->| ->]; reflexivity.
Qed.
