(* ===== verification/Opt.v ===== *)
(** * Registering and parsing options (ccan/opt/opt.c, ccan/opt/parse.c)

    The table of options, the walk over their names, the checks made when an
    option is registered, and the parser that consumes the options of a command
    line one by one.

    A pointer into the names of an option is an offset.  The callbacks act on the
    state [S] of the program; [None] is the NULL they return on success.  The
    result of [realloc] is not looked at by the source, so the table only grows. *)
From Stdlib Require Import Strings.String.
From S2P Require Import Prelude.
From S2P Require Import Scanf.
From S2P Require Import CString.
#[local] Open Scope Z_scope.

(** ** The table *)
Definition OPT_NOARG : Z := 1.
Definition OPT_HASARG : Z := 2.
Definition OPT_SUBTABLE : Z := 4.
Definition OPT_EARLY : Z := 8.
Definition OPT_END : Z := 16.

(** [opt_hidden] is only compared as a pointer. *)
Inductive description := Hidden | Desc (text : str).

(** [u]: the argument of the callback, of which only a text of [opt_usage_and_exit]
    is looked at, or the length of a table. *)
Inductive u_arg := UArg (carg : option str) | UTlen (tlen : nat).

(** A name in the table: the entry [i], the offset and the length. *)
Abbreviation place := (nat * nat * nat)%type.

Section opt.
Context {S : Type}.

(** The callback without an argument; [opt_usage_and_exit] is told apart. *)
Inductive callback :=
  | CbNull
  | CbUsage
  | Cb (f : S → res (option str * S)).

Inductive callback_arg :=
  | CbArgNull
  | CbArg (f : str → S → res (option str * S)).

Record entry := mk_entry {
  o_names : option str;
  o_type : Z;
  o_cb : callback;
  o_cb_arg : callback_arg;
  o_show : option (S → list Z → res (list Z));
  o_u : u_arg;
  o_desc : option description }.

(** The variables of opt.c; [opt_count] is the length of the table. *)
Record opts := mk_opts {
  opt_table : list entry;
  opt_num_short : Z;
  opt_num_short_arg : Z;
  opt_num_long : Z;
  opt_argv0 : option str }.

Definition opt_init : opts := mk_opts [] 0 0 0 None.

Definition names_of (e : entry) : res str := match o_names e with Some s => Ok s | None => Err ENull end.

(** ** Walking over the names *)
Definition first_name (names : str) (at_ : nat) : res (nat * nat) :=
  s ← str_from names (at_ + 1);
  Ok ((at_ + 1)%nat, strcspn s (lit "|= ")).

Definition next_name (names : str) (p len : nat) : res (option (nat * nat)) :=
  c ← char_at names (p + len);
  when (c =? 32) || (c =? 61) || (c =? 0) return None;
  r ← first_name names (p + len + 1);
  Ok (Some r).

Fixpoint first_opt (tbl : list entry) (i : nat) : res (option place) :=
  match tbl with
  | [] => Ok None
  | e :: tbl =>
    if o_type e =? OPT_SUBTABLE then first_opt tbl (i + 1) else
    names ← names_of e;
    '(p, len) ← first_name names 0;
    Ok (Some (i, p, len))
  end.

(** The loop of next_opt over the entries from [i] on, [p] being the pointer or NULL. *)
Fixpoint next_opt_from (tbl : list entry) (p : option nat) (i len : nat) : res (option place) :=
  match tbl with
  | [] => Ok None
  | e :: tbl =>
    if o_type e =? OPT_SUBTABLE then next_opt_from tbl p (i + 1) len else
    names ← names_of e;
    match p with
    | None => '(p, len) ← first_name names 0; Ok (Some (i, p, len))
    | Some p =>
      r ← next_name names p len;
      match r with
      | Some (p, len) => Ok (Some (i, p, len))
      | None => next_opt_from tbl None (i + 1) len
      end
    end
  end.

Definition next_opt (tbl : list entry) (p i len : nat) : res (option place) :=
  next_opt_from (drop i tbl) (Some p) i len.

(** Every name is visited at most once. *)
Definition walk_fuel (tbl : list entry) : nat :=
  foldr (λ e n, length (default [] (o_names e)) + 2 + n)%nat 1%nat tbl.

(** The character [p[0]] *)
Definition place_char (tbl : list entry) (pl : place) : res Z :=
  let '(i, p, _) := pl in
  e ← nget tbl i;
  names ← names_of e;
  char_at names p.

(** [for (p = ..; p; p = next_opt(p, i, len)) if (p[0] == '-') { --*len; p++; break; }] *)
Fixpoint lopt_from (fuel : nat) (tbl : list entry) (r : option place) : res (option place) :=
  match fuel, r with
  | _, None => Ok None
  | O, _ => Err EFuel
  | Datatypes.S fuel, Some ((i, p, len) as pl) =>
    c ← place_char tbl pl;
    if c =? 45 then Ok (Some (i, p + 1, len - 1)%nat)
    else r ← next_opt tbl p i len; lopt_from fuel tbl r
  end.

Definition first_lopt (tbl : list entry) : res (option place) :=
  r ← first_opt tbl 0; lopt_from (walk_fuel tbl) tbl r.
Definition next_lopt (tbl : list entry) (pl : place) : res (option place) :=
  let '(i, p, len) := pl in
  r ← next_opt tbl p i len; lopt_from (walk_fuel tbl) tbl r.

Fixpoint sopt_from (fuel : nat) (tbl : list entry) (r : option place) : res (option place) :=
  match fuel, r with
  | _, None => Ok None
  | O, _ => Err EFuel
  | Datatypes.S fuel, Some ((i, p, len) as pl) =>
    c ← place_char tbl pl;
    if negb (c =? 45) then Ok (Some pl)
    else r ← next_opt tbl p i len; sopt_from fuel tbl r
  end.

Definition first_sopt (tbl : list entry) : res (option place) :=
  r ← first_opt tbl 0; sopt_from (walk_fuel tbl) tbl r.
(** A short name has one character: [len] starts at 1. *)
Definition next_sopt (tbl : list entry) (pl : place) : res (option place) :=
  let '(i, p, _) := pl in
  r ← next_opt tbl p i 1; sopt_from (walk_fuel tbl) tbl r.

(** ** Registering *)
Definition failmsg {A} (msg : str) : res A := Err (EExit 1 msg).

Definition valid_type (t : Z) : bool :=
  (t =? OPT_HASARG) || (t =? OPT_NOARG) || (t =? Z.lor OPT_EARLY OPT_HASARG) || (t =? Z.lor OPT_EARLY OPT_NOARG).

Definition count_long (st : opts) : opts :=
  mk_opts (opt_table st) (opt_num_short st) (opt_num_short_arg st) (u32 (opt_num_long st + 1)) (opt_argv0 st).
Definition count_short (has_arg : bool) (st : opts) : opts :=
  mk_opts (opt_table st) (u32 (opt_num_short st + 1))
    (if has_arg then u32 (opt_num_short_arg st + 1) else opt_num_short_arg st) (opt_num_long st) (opt_argv0 st).

(** The loop of check_opt over the names. *)
Fixpoint check_names (fuel : nat) (names : str) (type : Z) (p len : nat) (st : opts) : res opts :=
  match fuel with
  | O => Err EFuel
  | Datatypes.S fuel =>
    c ← char_at names p;
    st ← (if c =? 45 then
            if (len =? 1)%nat then failmsg (lit "Option " ++ names ++ lit ": invalid long option '--'")
            else Ok (count_long st)
          else
            if negb (len =? 1)%nat
            then failmsg (lit "Option " ++ names ++ lit ": invalid short option '" ++
                          take (len + 1) (drop (p - 1) names) ++ lit "'")
            else Ok (count_short (type =? OPT_HASARG) st));
    e ← char_at names (p + len);
    if (type =? OPT_NOARG) && ((e =? 32) || (e =? 61))
    then failmsg (lit "Option " ++ names ++ lit ": does not take arguments '" ++ drop (p + len + 1) names ++ lit "'")
    else
      r ← next_name names p len;
      match r with
      | Some (p, len) => check_names fuel names type p len st
      | None => Ok st
      end
  end.

Definition check_opt (e : entry) (st : opts) : res opts :=
  names ← names_of e;
  if negb (valid_type (o_type e))
  then failmsg (lit "Option " ++ names ++ lit ": unknown entry type " ++ print_u64 (o_type e)) else
  if o_desc e is None then failmsg (lit "Option " ++ names ++ lit ": description cannot be NULL") else
  if negb (head_char names =? 45) then failmsg (lit "Option " ++ names ++ lit ": does not begin with '-'") else
  '(p, len) ← first_name names 0;
  check_names (length names) names (o_type e) p len st.

Definition add_opt (e : entry) (st : opts) : opts :=
  mk_opts (opt_table st ++ [e]) (opt_num_short st) (opt_num_short_arg st) (opt_num_long st) (opt_argv0 st).

Definition _opt_register (names : str) (type : Z) (cb : callback) (cb_arg : callback_arg)
    (show : option (S → list Z → res (list Z))) (arg : option str) (desc : option description) (st : opts) : res opts :=
  let opt := mk_entry (Some names) type cb cb_arg show (UArg arg) desc in
  st ← check_opt opt st;
  Ok (add_opt opt st).

(** The tables a program writes down: options and tables within tables, up to
    [OPT_ENDTABLE]. *)
Inductive table_entry :=
  | TOpt (e : entry)
  | TSub (table : list table_entry) (desc : option description).

Definition heading (desc : option description) : entry :=
  mk_entry None OPT_SUBTABLE CbNull CbArgNull None (UArg None) desc.

Definition set_tlen (tlen : nat) (e : entry) : entry :=
  mk_entry (o_names e) (o_type e) (o_cb e) (o_cb_arg e) (o_show e) (UTlen tlen) (o_desc e).

Definition set_table (tbl : list entry) (st : opts) : opts :=
  mk_opts tbl (opt_num_short st) (opt_num_short_arg st) (opt_num_long st) (opt_argv0 st).

(** The heading before the entries of a table, and its length stored afterwards. *)
Definition with_heading (desc : option description) (body : opts → res opts) (st : opts) : res opts :=
  match desc with
  | None => body st
  | Some _ =>
    let start := length (opt_table st) in
    st ← body (add_opt (heading desc) st);
    Ok (set_table (alter (set_tlen (length (opt_table st) - start)) start (opt_table st)) st)
  end.

Fixpoint register_entry (t : table_entry) (st : opts) {struct t} : res opts :=
  match t with
  | TOpt e => st ← check_opt e st; Ok (add_opt e st)
  | TSub table desc =>
    with_heading desc
      ((fix register_all (ts : list table_entry) (st : opts) : res opts :=
          match ts with
          | [] => Ok st
          | t :: ts => st ← register_entry t st; register_all ts st
          end) table) st
  end.

Definition opt_register_table (table : list table_entry) (desc : option description) (st : opts) : res opts :=
  register_entry (TSub table desc) st.

Definition set_argv0 (argv0 : option str) (st : opts) : opts :=
  mk_opts (opt_table st) (opt_num_short st) (opt_num_short_arg st) (opt_num_long st) argv0.

Definition opt_free_table (st : opts) : opts := mk_opts [] 0 0 0 (opt_argv0 st).
End opt.
Arguments entry : clear implicits.
Arguments opts : clear implicits.
Arguments callback : clear implicits.
Arguments callback_arg : clear implicits.
Arguments table_entry : clear implicits.
