(* ===== verification/OptParse.v ===== *)
(** * Parsing a command line (ccan/opt/parse.c, and its callers in opt.c)

    [argv] is the list of the arguments; [argv[argc]] is NULL.  The only strings
    that [optarg] can point to are the current argument and the next one; since
    the strings of [argv] do not overlap, the test [optarg == argv[arg]] after the
    option has been consumed asks which of the two it is. *)
From Stdlib Require Import Strings.String.
From S2P Require Import Prelude.
From S2P Require Import Scanf.
From S2P Require Import CString.
From S2P Require Import Opt.
#[local] Open Scope Z_scope.

Inductive optarg_ptr :=
  | InArg (off : nat)   (* argv[arg] + off *)
  | NextArg.            (* argv[arg + 1] *)
#[global] Instance optarg_ptr_eq_dec : EqDecision optarg_ptr.
Proof. solve_decision. Defined.

(** [argv[i]]: an argument, or the NULL behind them. *)
Definition arg_at (argv : list str) (i : nat) : res (option str) :=
  if (i =? length argv)%nat then Ok None else a ← nget argv i; Ok (Some a).

(** The arguments behind [optnum] and the NULL move down by one. *)
Definition consume_option (argv : list str) (optnum : nat) : list str := delete optnum argv.

Section parse.
Context {S : Type}.
(** The error log, the environment variable [POSIXLY_CORRECT], and the table. *)
Context (errlog : str → S → res S) (posixly_correct : bool) (tbl : list (entry S)).

(** What parse_one returns (1, 0 or -1) and leaves behind. *)
Record parsed := mk_parsed { p_ret : Z; p_argv : list str; p_offset : nat; p_state : S }.

Definition parse_err (argv : list str) (offset : nat) (s : S) (argv0 : option str) (arg : str) (len : nat) (problem : str)
    : res parsed :=
  name ← match argv0 with Some a => Ok a | None => Err ENull end;
  s ← errlog (name ++ lit ": " ++ take len arg ++ lit ": " ++ problem) s;
  Ok (mk_parsed (-1) argv offset s).

(** The first argument that looks like an option, from [arg] on. *)
Fixpoint find_arg (fuel : nat) (argv : list str) (arg : nat) : res nat :=
  match fuel with
  | O => Err EFuel
  | Datatypes.S fuel =>
    a ← arg_at argv arg;
    match a with
    | None => Ok arg
    | Some a => if head_char a =? 45 then Ok arg else find_arg fuel argv (arg + 1)
    end
  end.

(** The loop over the long options: the one that the argument [a] names, and where
    its argument starts. *)
Fixpoint long_match (fuel : nat) (a : str) (o : option place) : res (option (place * option optarg_ptr)) :=
  match fuel, o with
  | _, None => Ok None
  | O, _ => Err EFuel
  | Datatypes.S fuel, Some ((i, p, len) as pl) =>
    e ← nget tbl i;
    names ← names_of e;
    if negb (strncmp_eq (drop 2 a) (drop p names) len) then
      o ← next_lopt tbl pl; long_match fuel a o
    else
      c ← char_at a (2 + len);
      if c =? 61 then Ok (Some (pl, Some (InArg (2 + len + 1))))
      else if negb (c =? 0) then o ← next_lopt tbl pl; long_match fuel a o
      else Ok (Some (pl, None))
  end.

(** The loop over the short options: the one with the character [c]. *)
Fixpoint short_match (fuel : nat) (c : Z) (o : option place) : res (option place) :=
  match fuel, o with
  | _, None => Ok None
  | O, _ => Err EFuel
  | Datatypes.S fuel, Some pl =>
    d ← place_char tbl pl;
    if negb (c =? d) then o ← next_sopt tbl pl; short_match fuel c o
    else Ok (Some pl)
  end.

Definition call_cb (e : entry S) (s : S) : res (option str * S) :=
  match o_cb e with
  | CbNull => Err ENull
  | CbUsage => Err (EExit 0 [])   (* prints the usage to stdout *)
  | Cb f => f s
  end.
Definition call_cb_arg (e : entry S) (optarg : str) (s : S) : res (option str * S) :=
  match o_cb_arg e with CbArgNull => Err ENull | CbArg f => f optarg s end.

(** The string [optarg] points to. *)
Definition optarg_text (argv : list str) (arg : nat) (a : str) (p : optarg_ptr) : res str :=
  match p with
  | InArg off => str_from a off
  | NextArg => n ← arg_at argv (arg + 1); match n with Some t => Ok t | None => Err ENull end
  end.

(** From the option found to the call of its callback: the problem reported by
    the callback, the pointer [optarg] and the offset; or the end, with an error. *)
Definition run_option (argv : list str) (arg : nat) (a : str) (is_early : Z) (pl : place) (optarg : option optarg_ptr)
    (offset : nat) (s : S) : res (parsed + (option str * option optarg_ptr * nat * S)) :=
  let '(i, o, len) := pl in
  argv0 ← arg_at argv 0;
  e ← nget tbl i;
  names ← names_of e;
  let early := Z.land (o_type e) OPT_EARLY =? is_early in
  if Z.land (o_type e) (Z.lnot OPT_EARLY) =? OPT_NOARG then
    match optarg with
    | Some _ => r ← parse_err argv offset s argv0 (drop o names) len (lit "doesn't allow an argument"); Ok (inl r)
    | None =>
      '(problem, s) ← (if early then call_cb e s else Ok (None, s));
      Ok (inr (problem, optarg, offset, s))
    end
  else
    '(optarg, offset) ←
      match optarg with
      | Some p => Ok (Some p, offset)
      | None =>
        next ← (if (offset =? 0)%nat then Ok 0 else char_at a (offset + 1));
        if negb (next =? 0) then Ok (Some (InArg (offset + 1)), 0%nat)
        else n ← arg_at argv (arg + 1); Ok (match n with Some _ => Some NextArg | None => None end, offset)
      end;
    match optarg with
    | None => r ← parse_err argv offset s argv0 (drop o names) len (lit "requires an argument"); Ok (inl r)
    | Some p =>
      text ← optarg_text argv arg a p;
      '(problem, s) ← (if early then call_cb_arg e text s else Ok (None, s));
      Ok (inr (problem, optarg, offset, s))
    end.

(** What is left to do once the callback has been called. *)
Definition finish_option (argv : list str) (arg : nat) (a : str) (pl : place) (problem : option str)
    (optarg : option optarg_ptr) (offset : nat) (s : S) : res parsed :=
  let '(i, o, len) := pl in
  match problem with
  | Some problem =>
    argv0 ← arg_at argv 0;
    e ← nget tbl i;
    names ← names_of e;
    parse_err argv offset s argv0 (drop o names) len problem
  | None =>
    next ← (if (offset =? 0)%nat then Ok 1 else char_at a (offset + 1));
    let offset := if next =? 0 then 0%nat else offset in
    let argv :=
      if (offset =? 0)%nat then
        let argv := consume_option argv arg in
        match optarg with Some NextArg => consume_option argv arg | _ => argv end
      else argv in
    Ok (mk_parsed 1 argv offset s)
  end.

Definition parse_one (argv : list str) (is_early : Z) (offset : nat) (s : S) : res parsed :=
  arg ← (if posixly_correct then Ok 1%nat else find_arg (length argv) argv 1);
  oa ← arg_at argv arg;
  match oa with
  | None => Ok (mk_parsed 0 argv offset s)
  | Some a =>
    when negb (head_char a =? 45) return mk_parsed 0 argv offset s;
    when str_eqb a (lit "--") return mk_parsed 0 (consume_option argv arg) offset s;
    argv0 ← arg_at argv 0;
    c1 ← char_at a 1;
    '(found, offset) ←
      (if c1 =? 45 then
         _ ← assert_ (offset =? 0)%nat;
         o ← first_lopt tbl;
         r ← long_match (walk_fuel tbl) a o;
         (* for error messages, with the leading dashes *)
         Ok (match r with Some (i, p, len, oarg) => Some ((i, p - 2, len + 2)%nat, oarg) | None => None end, offset)
       else
         o ← first_sopt tbl;
         c ← char_at a (offset + 1);
         r ← short_match (walk_fuel tbl) c o;
         Ok (match r with
             | Some (i, p, _) => (Some ((i, p - 1, 2)%nat, None), (offset + 1)%nat)
             | None => (None, offset)
             end));
    match found with
    | None => parse_err argv offset s argv0 a (length a) (lit "unrecognized option")
    | Some (pl, optarg) =>
      r ← run_option argv arg a is_early pl optarg offset s;
      match r with
      | inl p => Ok p
      | inr (problem, optarg, offset, s) => finish_option argv arg a pl problem optarg offset s
      end
    end
  end.

(** [while ((ret = parse_one(..)) == 1);] *)
Fixpoint parse_loop (fuel : nat) (argv : list str) (is_early : Z) (offset : nat) (s : S) : res parsed :=
  match fuel with
  | O => Err EFuel
  | Datatypes.S fuel =>
    r ← parse_one argv is_early offset s;
    if p_ret r =? 1 then parse_loop fuel (p_argv r) is_early (p_offset r) (p_state r) else Ok r
  end.

(** Every round consumes an argument or a character of one. *)
Definition argv_fuel (argv : list str) : nat := foldr (λ a n, length a + 1 + n)%nat 1%nat argv.

End parse.
Arguments parsed : clear implicits.
Arguments mk_parsed {_} _ _ _ _.

Section callers.
Context {S : Type} (errlog : str → S → res S) (posixly_correct : bool).

(** Whether parsing succeeded, the arguments left, and [opt_argv0] for the usage. *)
Definition opt_parse (argv : list str) (st : opts S) (s : S) : res (bool * list str * opts S * S) :=
  argv0 ← arg_at argv 0;
  let st := set_argv0 argv0 st in
  r ← parse_loop errlog posixly_correct (opt_table st) (argv_fuel argv) argv 0 0 s;
  Ok (p_ret r =? 0, p_argv r, st, p_state r).

(** A copy of [argv] is parsed; the arguments stay as they are. *)
Definition opt_early_parse (argv : list str) (st : opts S) (s : S) : res (bool * opts S * S) :=
  argv0 ← arg_at argv 0;
  let st := set_argv0 argv0 st in
  r ← parse_loop errlog posixly_correct (opt_table st) (argv_fuel argv) argv OPT_EARLY 0 s;
  Ok (p_ret r =? 0, st, p_state r).
End callers.
