(* ===== verification/OptTable.v ===== *)
(** * The names of registered options

    What the checks at registration guarantee, and that the walks over the table
    visit every name once and in order. *)
From Stdlib Require Import Strings.String.
From S2P Require Import Prelude.
From S2P Require Import Scanf.
From S2P Require Import CString.
From S2P Require Import Opt.
#[local] Open Scope Z_scope.

(** ** Character classes *)
Lemma span_eq P l : l = (span P l).1 ++ (span P l).2.
Proof. induction l as [|c l IH]; [done|]. cbn [span]. destruct (P c); [|done]. destruct (span P l). cbn in *. by f_equal. Qed.
Lemma span_all P l : Forall (λ c, P c = true) (span P l).1.
Proof.
  induction l as [|c l IH]; cbn [span]; [constructor|]. destruct (P c) eqn:E; [|constructor].
  destruct (span P l). by constructor.
Qed.
Lemma span_stop P l c r : (span P l).2 = c :: r → P c = false.
Proof.
  induction l as [|d l IH]; cbn [span]; [done|]. destruct (P d) eqn:E; [|by intros [= <- <-]].
  destruct (span P l). exact IH.
Qed.

Lemma strcspn_le s set : (strcspn s set ≤ length s)%nat.
Proof. unfold strcspn. rewrite (span_eq (λ c, negb (mem c set)) s) at 2. rewrite length_app. lia. Qed.
Lemma strcspn_take s set : take (strcspn s set) s = (span (λ c, negb (mem c set)) s).1.
Proof.
  unfold strcspn. rewrite (span_eq (λ c, negb (mem c set)) s) at 2. by rewrite take_app_length.
Qed.

Lemma strspn_le s set : (strspn s set ≤ length s)%nat.
Proof. unfold strspn. rewrite (span_eq (λ c, mem c set) s) at 2. rewrite length_app. lia. Qed.
Lemma strspn_take s set : take (strspn s set) s = (span (λ c, mem c set) s).1.
Proof. unfold strspn. rewrite (span_eq (λ c, mem c set) s) at 2. by rewrite take_app_length. Qed.
Lemma strspn_drop s set : drop (strspn s set) s = (span (λ c, mem c set) s).2.
Proof. unfold strspn. rewrite (span_eq (λ c, mem c set) s) at 2. by rewrite drop_app_length. Qed.

Lemma char_at_lookup s i c : char_at s i = Ok c → c ≠ 0 → s !! i = Some c.
Proof.
  unfold char_at, nget. destruct (_ =? _)%nat; [by intros [= <-]|]. destruct (s !! i); naive_solver.
Qed.
Lemma char_at_lt s i : (i < length s)%nat → ∃ c, s !! i = Some c ∧ char_at s i = Ok c.
Proof.
  intros Hi. destruct (lookup_lt_is_Some_2 s i Hi) as [c Hc]. exists c. split; [done|].
  unfold char_at, nget. rewrite (proj2 (Nat.eqb_neq _ _)) by lia. by rewrite Hc.
Qed.
Lemma char_at_end s : char_at s (length s) = Ok 0.
Proof. unfold char_at. by rewrite Nat.eqb_refl. Qed.
Lemma char_at_le s i c : char_at s i = Ok c → (i ≤ length s)%nat.
Proof.
  unfold char_at, nget. destruct (Nat.eqb_spec i (length s)); [lia|].
  destruct (s !! i) eqn:E; [|done]. apply lookup_lt_Some in E. lia.
Qed.
Lemma char_at_ok s i : (i ≤ length s)%nat → ∃ c, char_at s i = Ok c.
Proof.
  intros Hi. destruct (decide (i = length s)) as [->|]; [eexists; apply char_at_end|].
  destruct (char_at_lt s i) as (c & _ & ?); [lia|eauto].
Qed.

(** ** Places *)

(** A place in the names of an option that the walks can stand on: a long name
    with its dash, or a single character. *)
Definition place_ok (names : str) (x : nat * nat) : Prop :=
  (1 ≤ x.1 ∧ x.1 + x.2 ≤ length names)%nat ∧
  Forall (λ c, mem c (lit "|= ") = false) (take x.2 (drop x.1 names)) ∧
  ∃ c, char_at names x.1 = Ok c ∧ if c =? 45 then (2 ≤ x.2)%nat else x.2 = 1%nat.

(** The names from a place on. *)
Inductive walk (names : str) : nat → nat → list (nat * nat) → Prop :=
  | walk_last p len : next_name names p len = Ok None → walk names p len [(p, len)]
  | walk_more p len p' len' l :
    next_name names p len = Ok (Some (p', len')) → walk names p' len' l → walk names p len ((p, len) :: l).

Definition names_ok (names : str) : Prop :=
  ∃ p len l, first_name names 0 = Ok (p, len) ∧ walk names p len l ∧ Forall (place_ok names) l.

Section table.
Context {S : Type}.
Implicit Types (e : entry S) (tbl : list (entry S)) (st : opts S).

(** An entry of the table: a heading, or an option that passed the checks. *)
Definition entry_ok e : Prop :=
  o_type e = OPT_SUBTABLE ∨
  valid_type (o_type e) = true ∧ is_Some (o_desc e) ∧ ∃ names, o_names e = Some names ∧ names_ok names.

(** All the names of a table from entry [i] on, in order. *)
Inductive places : list (entry S) → nat → list place → Prop :=
  | places_nil i : places [] i []
  | places_sub e tbl i l : o_type e = OPT_SUBTABLE → places tbl (i + 1) l → places (e :: tbl) i l
  | places_opt e tbl i names p len w l :
    o_type e ≠ OPT_SUBTABLE → o_names e = Some names → first_name names 0 = Ok (p, len) →
    walk names p len w → Forall (place_ok names) w → places tbl (i + 1) l →
    places (e :: tbl) i (((λ x, (i, x.1, x.2)) <$> w) ++ l).

Lemma table_places tbl i : Forall entry_ok tbl → ∃ l, places tbl i l.
Proof.
  intros Ht. revert i. induction Ht as [|e tbl He Ht IH]; intros i; [by exists []; constructor|].
  destruct (IH (i + 1)%nat) as [l Hl]. destruct He as [He|(Hv & _ & names & Hn & p & len & w & Hf & Hw & Ha)].
  - exists l. by constructor.
  - eexists. eapply places_opt; try done. intros E. rewrite E in Hv. done.
Qed.

(** ** The walk over a table *)
Lemma first_name_ok names p len : first_name names 0 = Ok (p, len) → p = 1%nat ∧ (1 ≤ length names)%nat.
Proof.
  unfold first_name, str_from. destruct (Nat.leb_spec (0 + 1) (length names)); cbn; [|done].
  intros [= <- _]. lia.
Qed.

Lemma first_opt_places tbl i l : places tbl i l → first_opt tbl i = Ok (head l).
Proof.
  induction 1 as [|e tbl i l He Hp IH|e tbl i names p len w l He Hn Hf Hw Ha Hp IH]; cbn [first_opt]; [done|..].
  - by rewrite (proj2 (Z.eqb_eq _ _) He).
  - rewrite (proj2 (Z.eqb_neq _ _) He). unfold names_of. rewrite Hn, bind_ret, Hf, bind_ret. by destruct Hw.
Qed.

Lemma next_opt_none tbl i l len : places tbl i l → next_opt_from tbl None i len = Ok (head l).
Proof.
  induction 1 as [|e tbl i l He Hp IH|e tbl i names p q w l He Hn Hf Hw Ha Hp IH]; cbn [next_opt_from]; [done|..].
  - by rewrite (proj2 (Z.eqb_eq _ _) He).
  - rewrite (proj2 (Z.eqb_neq _ _) He). unfold names_of. rewrite Hn, bind_ret, Hf, bind_ret. by destruct Hw.
Qed.

(** Behind a place comes the next name of the entry, or nothing. *)
Lemma walk_next names p0 len0 w pre p len post :
  walk names p0 len0 w → w = pre ++ (p, len) :: post → next_name names p len = Ok (head post).
Proof.
  intros Hw. revert pre. induction Hw as [q k Hn|q k q' k' l Hn Hw IH]; intros pre Hp.
  - destruct pre as [|? pre]; [by injection Hp as -> -> <-|]. by destruct pre.
  - destruct pre as [|? pre]; injection Hp as ??; simplify_eq.
    + rewrite Hn. by destruct Hw.
    + by eapply IH.
Qed.

Lemma next_name_sum names p len p' len' : (p + len = p' + len')%nat → next_name names p len = next_name names p' len'.
Proof. unfold next_name. by intros ->. Qed.

Lemma places_index tbl i0 l i p len : places tbl i0 l → (i, p, len) ∈ l → (i0 ≤ i)%nat.
Proof.
  induction 1 as [|e tbl i0 l He Hp IH|e tbl i0 names q k w l He Hn Hf Hw Ha Hp IH]; [by intros ?%elem_of_nil|..].
  - intros H. specialize (IH H). lia.
  - intros [(x & [= -> -> ->] & _)%list_elem_of_fmap|H]%elem_of_app; [lia|]. specialize (IH H). lia.
Qed.

(** From a place to the next one; only the end of the name counts. *)
Lemma next_opt_places tbl i0 l pre i p len post p' len' :
  places tbl i0 l → l = pre ++ (i, p, len) :: post → (p' + len' = p + len)%nat →
  next_opt_from (drop (i - i0) tbl) (Some p') i len' = Ok (head post).
Proof.
  intros Hp. revert pre. induction Hp as [i0|e tbl i0 l He Hp IH|e tbl i0 names q k w l He Hn Hf Hw Ha Hp IH]; intros pre Hl Hs.
  - by destruct pre.
  - assert (Hi : (i0 + 1 ≤ i)%nat) by (eapply places_index; [exact Hp|]; rewrite Hl; apply elem_of_app; right; left).
    replace (i - i0)%nat with (Datatypes.S (i - (i0 + 1))) by lia. cbn [drop]. by eapply IH.
  - apply app_eq_inv in Hl as [(k' & Hw' & Hl)|(k' & Hpre & Hl)].
    + destruct k' as [|[[i1 p1] len1] k']; cbn [app] in Hl.
      * (* the first place of the next entries *)
        rewrite app_nil_r in Hw'. assert (Hi : (i0 + 1 ≤ i)%nat) by (eapply places_index; [exact Hp|]; rewrite <- Hl; left).
        replace (i - i0)%nat with (Datatypes.S (i - (i0 + 1))) by lia. cbn [drop]. by apply (IH []).
      * injection Hl as <- <- <- ->. apply fmap_app_inv in Hw' as (w1 & w2 & -> & Hw2 & Hwe).
        destruct w2 as [|[p2 len2] w2]; [done|]. cbn in Hw2. simplify_eq.
        rewrite Nat.sub_diag, drop_0. cbn [next_opt_from]. rewrite (proj2 (Z.eqb_neq _ _) He). unfold names_of.
        rewrite Hn, bind_ret, (next_name_sum _ _ _ _ _ Hs).
        rewrite (walk_next _ _ _ _ _ _ _ _ Hw eq_refl), bind_ret. destruct w2 as [|[p3 len3] w2]; cbn; [|done].
        by apply next_opt_none.
    + assert (Hi : (i0 + 1 ≤ i)%nat) by (eapply places_index; [exact Hp|]; rewrite Hl; apply elem_of_app; right; left).
      replace (i - i0)%nat with (Datatypes.S (i - (i0 + 1))) by lia. cbn [drop]. by eapply IH.
Qed.

(** A place is one in the names of its entry. *)
Definition at_place tbl (pl : place) : Prop :=
  let '(i, p, len) := pl in
  ∃ e names, tbl !! i = Some e ∧ entry_ok e ∧ o_type e ≠ OPT_SUBTABLE ∧ o_names e = Some names ∧ place_ok names (p, len).

Lemma places_elem tbl i0 l i p len :
  Forall entry_ok tbl → places tbl i0 l → (i, p, len) ∈ l → at_place tbl ((i - i0)%nat, p, len).
Proof.
  intros Hok Hp. induction Hp as [|e tbl i0 l He Hp IH|e tbl i0 names q k w l He Hn Hf Hw Ha Hp IH];
    [by intros ?%elem_of_nil|..]; apply Forall_cons in Hok as [Hoke Hok].
  - intros Hin. pose proof (places_index _ _ _ _ _ _ Hp Hin). unfold at_place in *.
    destruct (IH Hok Hin) as (e' & names & Hl & ?). exists e', names. split; [|done].
    by replace (i - i0)%nat with (Datatypes.S (i - (i0 + 1))) by lia.
  - intros [(x & [= -> -> ->] & Hx)%list_elem_of_fmap|Hin]%elem_of_app.
    + exists e, names. rewrite Nat.sub_diag. do 4 (split; [done|]). rewrite Forall_forall in Ha.
      destruct x. by apply Ha.
    + pose proof (places_index _ _ _ _ _ _ Hp Hin). unfold at_place in *.
      destruct (IH Hok Hin) as (e' & names' & Hl & ?). exists e', names'. split; [|done].
      by replace (i - i0)%nat with (Datatypes.S (i - (i0 + 1))) by lia.
Qed.

(** There is fuel for all the names. *)
Lemma walk_length names p len w : walk names p len w → Forall (place_ok names) w → (length w + p ≤ length names + 1)%nat.
Proof.
  induction 1 as [p len Hn|p len p' len' l Hn Hw IH]; intros Ha; apply Forall_cons in Ha as [[Hp _] Ha]; cbn in *; [lia|].
  specialize (IH Ha). unfold next_name, first_name in Hn. res_inv. destruct (_ || _); [done|]. res_inv. lia.
Qed.

Lemma places_length tbl i l : places tbl i l → (length l < walk_fuel tbl)%nat.
Proof.
  induction 1 as [|e tbl i l He Hp IH|e tbl i names p len w l He Hn Hf Hw Ha Hp IH]; unfold walk_fuel in *; cbn [foldr]; [cbn; lia|lia|].
  rewrite length_app, length_fmap, Hn. cbn [default]. pose proof (walk_length _ _ _ _ Hw Ha).
  apply first_name_ok in Hf as [-> _]. change (id names) with names. lia.
Qed.

(** ** Long and short names *)
Definition pchar tbl (pl : place) : Z := match place_char tbl pl with Ok c => c | Err _ => 0 end.

Definition longs tbl (l : list place) : list place :=
  omap (λ '(i, p, len), if pchar tbl (i, p, len) =? 45 then Some (i, p + 1, len - 1)%nat else None) l.
Definition shorts tbl (l : list place) : list place :=
  omap (λ pl, if pchar tbl pl =? 45 then None else Some pl) l.

Lemma longs_cons tbl i p len l :
  longs tbl ((i, p, len) :: l) =
  (if pchar tbl (i, p, len) =? 45 then [(i, p + 1, len - 1)%nat] else []) ++ longs tbl l.
Proof. unfold longs. cbn [omap list_omap]. by destruct (_ =? _). Qed.
Lemma shorts_cons tbl pl l : shorts tbl (pl :: l) = (if pchar tbl pl =? 45 then [] else [pl]) ++ shorts tbl l.
Proof. unfold shorts. cbn [omap list_omap]. by destruct (_ =? _). Qed.
Lemma longs_app tbl l k : longs tbl (l ++ k) = longs tbl l ++ longs tbl k.
Proof. apply omap_app. Qed.
Lemma shorts_app tbl l k : shorts tbl (l ++ k) = shorts tbl l ++ shorts tbl k.
Proof. apply omap_app. Qed.

Lemma at_place_char tbl pl : at_place tbl pl → place_char tbl pl = Ok (pchar tbl pl).
Proof.
  destruct pl as [[i p] len]. intros (e & names & Hi & _ & _ & Hn & _ & _ & c & Hc & _). cbn in Hc.
  unfold pchar, place_char, names_of. by rewrite (nget_Ok _ _ _ Hi), bind_ret, Hn, bind_ret, Hc.
Qed.

Section walks.
Context (tbl : list (entry S)) (l : list place).
Context (Hok : Forall entry_ok tbl) (Hl : places tbl 0 l).

Lemma place_at pre pl post : l = pre ++ pl :: post → at_place tbl pl.
Proof.
  destruct pl as [[i p] len]. intros ->. rewrite <- (Nat.sub_0_r i).
  eapply places_elem; [done|exact Hl|]. apply elem_of_app. right. left.
Qed.

Lemma place_next pre i p len post p' len' :
  l = pre ++ (i, p, len) :: post → (p' + len' = p + len)%nat → next_opt tbl p' i len' = Ok (head post).
Proof.
  intros E Hs. pose proof (next_opt_places tbl 0 l pre i p len post p' len' Hl E Hs) as H.
  by rewrite Nat.sub_0_r in H.
Qed.

Lemma lopt_from_spec fuel pre post :
  l = pre ++ post → (length post ≤ fuel)%nat → lopt_from fuel tbl (head post) = Ok (head (longs tbl post)).
Proof.
  revert fuel pre. induction post as [|[[i p] len] post IH]; intros fuel pre E Hf; [by destruct fuel|].
  destruct fuel as [|fuel]; [cbn in Hf; lia|]. cbn [head lopt_from].
  rewrite (at_place_char _ _ (place_at _ _ _ E)), bind_ret. cbn [longs omap list_omap].
  destruct (pchar tbl (i, p, len) =? 45); [done|].
  rewrite (place_next _ _ _ _ _ p len E eq_refl), bind_ret. apply (IH fuel (pre ++ [(i, p, len)])); [by rewrite <- app_assoc|cbn in Hf; lia].
Qed.

Lemma sopt_from_spec fuel pre post :
  l = pre ++ post → (length post ≤ fuel)%nat → sopt_from fuel tbl (head post) = Ok (head (shorts tbl post)).
Proof.
  revert fuel pre. induction post as [|[[i p] len] post IH]; intros fuel pre E Hf; [by destruct fuel|].
  destruct fuel as [|fuel]; [cbn in Hf; lia|]. cbn [head sopt_from].
  rewrite (at_place_char _ _ (place_at _ _ _ E)), bind_ret. cbn [shorts omap list_omap].
  destruct (pchar tbl (i, p, len) =? 45); cbn [negb]; [|done].
  rewrite (place_next _ _ _ _ _ p len E eq_refl), bind_ret. apply (IH fuel (pre ++ [(i, p, len)])); [by rewrite <- app_assoc|cbn in Hf; lia].
Qed.

Lemma suffix_fuel pre post : l = pre ++ post → (length post < walk_fuel tbl)%nat.
Proof. intros ->. pose proof (places_length _ _ _ Hl) as H. rewrite length_app in H. lia. Qed.

Lemma first_lopt_spec : first_lopt tbl = Ok (head (longs tbl l)).
Proof.
  unfold first_lopt. rewrite (first_opt_places _ _ _ Hl), bind_ret. apply (lopt_from_spec _ []); [done|].
  pose proof (suffix_fuel [] l eq_refl). lia.
Qed.
Lemma first_sopt_spec : first_sopt tbl = Ok (head (shorts tbl l)).
Proof.
  unfold first_sopt. rewrite (first_opt_places _ _ _ Hl), bind_ret. apply (sopt_from_spec _ []); [done|].
  pose proof (suffix_fuel [] l eq_refl). lia.
Qed.

Lemma next_lopt_spec pre i p len post :
  l = pre ++ (i, p, len) :: post → pchar tbl (i, p, len) = 45 →
  next_lopt tbl (i, p + 1, len - 1)%nat = Ok (head (longs tbl post)).
Proof.
  intros E Hc. unfold next_lopt. destruct (place_at _ _ _ E) as (e & names & Hi & _ & _ & Hn & Hpl & Hfree & c & Hch & Hlen).
  assert (c = 45) as ->.
  { pose proof (at_place_char _ _ (place_at _ _ _ E)) as Hp. rewrite Hc in Hp. unfold place_char, names_of in Hp.
    rewrite (nget_Ok _ _ _ Hi), bind_ret, Hn, bind_ret in Hp. cbn in Hch. congruence. }
  cbn in Hlen. rewrite (place_next _ _ _ _ _ (p + 1) (len - 1) E) by lia. rewrite bind_ret.
  apply (lopt_from_spec _ (pre ++ [(i, p, len)])); [by rewrite <- app_assoc|].
  pose proof (suffix_fuel pre _ E) as H. cbn in H. lia.
Qed.

Lemma next_sopt_spec pre i p len post :
  l = pre ++ (i, p, len) :: post → pchar tbl (i, p, len) ≠ 45 → next_sopt tbl (i, p, len) = Ok (head (shorts tbl post)).
Proof.
  intros E Hc. unfold next_sopt. destruct (place_at _ _ _ E) as (e & names & Hi & _ & _ & Hn & Hpl & Hfree & c & Hch & Hlen).
  assert (Hc45 : c ≠ 45).
  { pose proof (at_place_char _ _ (place_at _ _ _ E)) as Hp. unfold place_char, names_of in Hp.
    rewrite (nget_Ok _ _ _ Hi), bind_ret, Hn, bind_ret in Hp. cbn in Hch. congruence. }
  rewrite (proj2 (Z.eqb_neq _ _) Hc45) in Hlen. cbn in Hlen. rewrite (place_next _ _ _ _ _ p 1 E) by lia. rewrite bind_ret.
  apply (sopt_from_spec _ (pre ++ [(i, p, len)])); [by rewrite <- app_assoc|].
  pose proof (suffix_fuel pre _ E) as H. cbn in H. lia.
Qed.
End walks.
End table.
