(* ===== verification/OptRegister.v ===== *)
(** * Registering options keeps the table well-formed

    What the checks let through can be walked over without leaving the names, and
    the counters count the names. *)
From Stdlib Require Import Strings.String.
From S2P Require Import Prelude.
From S2P Require Import Scanf.
From S2P Require Import CString.
From S2P Require Import Opt.
From S2P Require Import OptTable.
#[local] Open Scope Z_scope.

Lemma u32_add_l a b : u32 (u32 a + b) = u32 (a + b).
Proof. unfold u32. apply Zplus_mod_idemp_l. Qed.

(** A name as first_name delimits it: it goes on to the next separator. *)
Definition delimited (names : str) (p len : nat) : Prop :=
  (1 ≤ p ∧ p + len ≤ length names)%nat ∧
  Forall (λ c, mem c (lit "|= ") = false) (take len (drop p names)) ∧
  ∃ d, char_at names (p + len) = Ok d ∧ (d = 0 ∨ mem d (lit "|= ") = true).

Lemma first_name_delimited names k p len : first_name names k = Ok (p, len) → delimited names p len.
Proof.
  unfold first_name, str_from. destruct (Nat.leb_spec (k + 1) (length names)); cbn [mbind res_bind]; [|done].
  intros [= <- <-]. pose proof (strcspn_le (drop (k + 1) names) (lit "|= ")) as Hl. rewrite length_drop in Hl.
  split; [lia|]. split.
  - rewrite strcspn_take. eapply Forall_impl; [apply span_all|]. intros c Hc. by apply negb_true_iff in Hc.
  - set (P := λ c, negb (mem c (lit "|= "))). set (s := drop (k + 1) names) in *.
    pose proof (span_eq P s) as Hs. assert (Hn : strcspn s (lit "|= ") = length (span P s).1) by done.
    destruct ((span P s).2) as [|d r] eqn:Er.
    + exists 0. split; [|by left]. rewrite app_nil_r in Hs.
      assert (length s = length (span P s).1) by (by rewrite <- Hs).
      replace (k + 1 + strcspn s (lit "|= "))%nat with (length names); [apply char_at_end|].
      unfold s in *. rewrite length_drop in *. lia.
    + exists d. split; [|right; apply span_stop in Er; by apply negb_false_iff in Er].
      assert (Hd : names !! (k + 1 + strcspn s (lit "|= "))%nat = Some d).
      { rewrite <- lookup_drop. fold s. rewrite Hn. clear Hn Er. revert Hs. generalize ((span P s).1). intros a Ha. rewrite Ha. by apply list_lookup_middle. }
      unfold char_at, nget. rewrite Hd. apply lookup_lt_Some in Hd. by rewrite (proj2 (Nat.eqb_neq _ _)) by lia.
Qed.

Section register.
Context {S : Type}.
Implicit Types (e : entry S) (tbl : list (entry S)) (st : opts S).

(** The names of a walk that are long, and those that are short. *)
Definition is_dash (names : str) (x : nat * nat) : bool :=
  match char_at names x.1 with Ok c => c =? 45 | Err _ => false end.
Definition nlong (names : str) (w : list (nat * nat)) : Z := zlen (filter (λ x, is_dash names x = true) w).
Definition nshort (names : str) (w : list (nat * nat)) : Z := zlen (filter (λ x, is_dash names x = false) w).

(** The counters after the names [w] of an entry. *)
Definition counted (has_arg : bool) (long short : Z) st st' : Prop :=
  opt_table st' = opt_table st ∧ opt_argv0 st' = opt_argv0 st ∧
  (∀ n, opt_num_long st = u32 n → opt_num_long st' = u32 (n + long)) ∧
  (∀ n, opt_num_short st = u32 n → opt_num_short st' = u32 (n + short)) ∧
  (∀ n, opt_num_short_arg st = u32 n → opt_num_short_arg st' = u32 (n + if has_arg then short else 0)).

Lemma counted_trans b l1 s1 l2 s2 st st1 st2 :
  counted b l1 s1 st st1 → counted b l2 s2 st1 st2 → counted b (l1 + l2) (s1 + s2) st st2.
Proof.
  intros (T1 & A1 & L1 & S1 & G1) (T2 & A2 & L2 & S2 & G2).
  split; [congruence|]. split; [congruence|]. split_and!; intros n Hn.
  - rewrite (L2 _ (L1 _ Hn)). f_equal. lia.
  - rewrite (S2 _ (S1 _ Hn)). f_equal. lia.
  - rewrite (G2 _ (G1 _ Hn)). f_equal. destruct b; lia.
Qed.

Lemma counted_long b st : counted b 1 0 st (count_long st).
Proof. split_and!; try done; cbn; intros n ->; rewrite ?u32_add_l; f_equal; destruct b; lia. Qed.
Lemma counted_short b st : counted b 0 1 st (count_short b st).
Proof. split_and!; try done; cbn; intros n ->; destruct b; rewrite ?u32_add_l; f_equal; lia. Qed.

Lemma nlong_cons names x w : nlong names (x :: w) = (if is_dash names x then 1 else 0) + nlong names w.
Proof.
  unfold nlong. destruct (is_dash names x) eqn:E; [rewrite filter_cons_True by done|rewrite filter_cons_False by congruence];
    unfold zlen; cbn [length]; lia.
Qed.
Lemma nshort_cons names x w : nshort names (x :: w) = (if is_dash names x then 0 else 1) + nshort names w.
Proof.
  unfold nshort. destruct (is_dash names x) eqn:E; [rewrite filter_cons_False by congruence|rewrite filter_cons_True by done];
    unfold zlen; cbn [length]; lia.
Qed.

(** What the loop of check_opt over the names establishes. *)
Lemma check_names_ok fuel names type p len st st' :
  delimited names p len → check_names fuel names type p len st = Ok st' →
  ∃ w, walk names p len w ∧ Forall (place_ok names) w ∧
  counted (type =? OPT_HASARG) (nlong names w) (nshort names w) st st'.
Proof.
  revert p len st. induction fuel as [|fuel IH]; intros p len st (Hp & Hfree & d0 & Hd0 & Hstop) Hc; cbn [check_names] in Hc; [done|].
  apply bind_Ok in Hc as (c & Hch & Hc). apply bind_Ok in Hc as (st1 & Hst1 & Hc). apply bind_Ok in Hc as (d & Hd & Hc).
  destruct (_ && _); [done|]. apply bind_Ok in Hc as (r & Hr & Hc).
  assert (H1 : place_ok names (p, len) ∧
    counted (type =? OPT_HASARG) (if is_dash names (p, len) then 1 else 0) (if is_dash names (p, len) then 0 else 1) st st1).
  { unfold is_dash. cbn [fst]. rewrite Hch. destruct (Z.eqb_spec c 45) as [->|Hne].
    - destruct (Nat.eqb_spec len 1); [done|]. injection Hst1 as <-. split; [|apply counted_long].
      split; [done|]. split; [done|]. exists 45. split; [done|]. cbn. destruct len as [|[|len]]; [|lia..].
      (* an empty name ends at a separator, not at a dash *)
      rewrite Nat.add_0_r in Hd0. rewrite Hch in Hd0. injection Hd0 as <-. by destruct Hstop.
    - destruct (Nat.eqb_spec len 1); [|done]. injection Hst1 as <-. split; [|apply counted_short].
      split; [done|]. split; [done|]. exists c. split; [done|]. by rewrite (proj2 (Z.eqb_neq _ _) Hne). }
  destruct H1 as [Hpl Hcnt]. destruct r as [[p' len']|].
  - destruct (IH p' len' st1) as (w & Hw & Ha & Hcnt').
    { unfold next_name in Hr. res_inv. destruct (_ || _); [done|]. res_inv. by eapply first_name_delimited. }
    { done. }
    exists ((p, len) :: w). split; [by econstructor|]. split; [by constructor|].
    rewrite nlong_cons, nshort_cons. by eapply counted_trans.
  - injection Hc as <-. exists [(p, len)]. split; [by constructor|]. split; [by constructor|].
    rewrite nlong_cons, nshort_cons. change (nlong names []) with 0. change (nshort names []) with 0. by rewrite !Z.add_0_r.
Qed.

(** An option that check_opt accepts. *)
Lemma check_opt_ok e st st' :
  check_opt e st = Ok st' →
  entry_ok e ∧ o_type e ≠ OPT_SUBTABLE ∧ ∃ names p len w, o_names e = Some names ∧ first_name names 0 = Ok (p, len) ∧
  walk names p len w ∧ Forall (place_ok names) w ∧
  counted (o_type e =? OPT_HASARG) (nlong names w) (nshort names w) st st'.
Proof.
  unfold check_opt, names_of. intros Hc. destruct (o_names e) as [names|] eqn:Hn; [|done]. rewrite bind_ret in Hc.
  destruct (valid_type (o_type e)) eqn:Hv; [|done]. cbn [negb] in Hc. destruct (o_desc e) eqn:Hde; [|done].
  destruct (negb _); [done|]. apply bind_Ok in Hc as ([p len] & Hf & Hc).
  destruct (check_names_ok _ _ _ _ _ _ _ (first_name_delimited _ _ _ _ Hf) Hc) as (w & Hw & Ha & Hcnt).
  split; [right|split; [intros E; by rewrite E in Hv|by exists names, p, len, w]].
  split; [done|]. split; [by rewrite Hde|]. exists names. split; [done|]. by exists p, len, w.
Qed.

(** ** The invariant of the table *)

(** Every entry is sound, and the counters count the names that a walk visits. *)
Definition table_ok st : Prop :=
  Forall entry_ok (opt_table st) ∧
  ∃ l, places (opt_table st) 0 l ∧
  opt_num_long st = u32 (zlen (longs (opt_table st) l)) ∧ opt_num_short st = u32 (zlen (shorts (opt_table st) l)).

Lemma places_snoc_sub tbl e i l : places tbl i l → o_type e = OPT_SUBTABLE → places (tbl ++ [e]) i l.
Proof. induction 1; intros He; cbn [app]; by repeat (econstructor; eauto). Qed.

Lemma places_snoc_opt tbl e i l names p len w :
  places tbl i l → o_type e ≠ OPT_SUBTABLE → o_names e = Some names → first_name names 0 = Ok (p, len) →
  walk names p len w → Forall (place_ok names) w →
  places (tbl ++ [e]) i (l ++ ((λ x, ((i + length tbl)%nat, x.1, x.2)) <$> w)).
Proof.
  intros Hp. revert e. induction Hp as [i|e' tbl i l He' Hp IH|e' tbl i names' p' len' w' l He' Hn' Hf' Hw' Ha' Hp IH];
    intros e He Hn Hf Hw Ha; cbn [app].
  - cbn [length]. rewrite Nat.add_0_r, <- (app_nil_r (_ <$> w)). eapply places_opt; try done. constructor.
  - cbn [length]. replace (i + Datatypes.S (length tbl))%nat with (i + 1 + length tbl)%nat by lia. constructor; auto.
  - cbn [length]. replace (i + Datatypes.S (length tbl))%nat with (i + 1 + length tbl)%nat by lia.
    rewrite <- app_assoc. eapply places_opt; eauto.
Qed.

(** Two tables with the same types and names have the same places. *)
Definition alike e e' : Prop := o_type e = o_type e' ∧ o_names e = o_names e' ∧ o_desc e = o_desc e'.

Lemma places_alike tbl tbl' i l : Forall2 alike tbl tbl' → places tbl i l → places tbl' i l.
Proof.
  intros Ha Hp. revert tbl' Ha. induction Hp; intros tbl' Ha; inversion Ha as [|? e' ? ? (Ht & Hn & _)]; subst.
  - constructor.
  - constructor; [congruence|auto].
  - eapply places_opt; eauto; congruence.
Qed.
Lemma entry_ok_alike tbl tbl' : Forall2 alike tbl tbl' → Forall entry_ok tbl → Forall entry_ok tbl'.
Proof.
  induction 1 as [|e e' tbl tbl' (Ht & Hn & Hd) Hr IH]; intros Hok; [done|]. apply Forall_cons in Hok as [He Hok].
  apply Forall_cons. split; [|auto]. unfold entry_ok in *. by rewrite <- Ht, <- Hn, <- Hd.
Qed.
Lemma pchar_alike tbl tbl' pl : Forall2 alike tbl tbl' → pchar tbl' pl = pchar tbl pl.
Proof.
  intros Ha. destruct pl as [[i p] len]. unfold pchar, place_char, nget. destruct (tbl !! i) as [e|] eqn:E.
  - destruct (Forall2_lookup_l _ _ _ _ _ Ha E) as (e' & -> & _ & Hn & _). unfold names_of. cbn. by rewrite Hn.
  - apply lookup_ge_None in E. rewrite (Forall2_length _ _ _ Ha) in E. by rewrite lookup_ge_None_2.
Qed.
Lemma pchar_app tbl t i p len : (i < length tbl)%nat → pchar (tbl ++ t) (i, p, len) = pchar tbl (i, p, len).
Proof. intros Hi. unfold pchar, place_char, nget. by rewrite lookup_app_l. Qed.

Lemma longs_ext tbl tbl' l : (∀ pl, pl ∈ l → pchar tbl' pl = pchar tbl pl) → longs tbl' l = longs tbl l.
Proof.
  induction l as [|[[i p] len] l IH]; intros He; [done|]. rewrite !longs_cons, He by left. f_equal.
  apply IH. intros pl Hpl. apply He. by right.
Qed.
Lemma shorts_ext tbl tbl' l : (∀ pl, pl ∈ l → pchar tbl' pl = pchar tbl pl) → shorts tbl' l = shorts tbl l.
Proof.
  induction l as [|pl l IH]; intros He; [done|]. rewrite !shorts_cons, He by left. f_equal.
  apply IH. intros pl' Hpl. apply He. by right.
Qed.

(** The names of the last entry. *)
Lemma names_of_last tbl e names w :
  o_names e = Some names →
  zlen (longs (tbl ++ [e]) ((λ x, (length tbl, x.1, x.2)) <$> w)) = nlong names w ∧
  zlen (shorts (tbl ++ [e]) ((λ x, (length tbl, x.1, x.2)) <$> w)) = nshort names w.
Proof.
  intros Hn. induction w as [|[p len] w [IHl IHs]]; [done|]. rewrite nlong_cons, nshort_cons, <- IHl, <- IHs.
  assert (Hc : (pchar (tbl ++ [e]) (length tbl, p, len) =? 45) = is_dash names (p, len)).
  { unfold pchar, place_char, nget, is_dash, names_of. rewrite list_lookup_middle by done. cbn. rewrite Hn. cbn.
    by destruct (char_at names p). }
  rewrite fmap_cons. cbn [fst snd]. rewrite longs_cons, shorts_cons, Hc, !zlen_app.
  by destruct (is_dash names (p, len)).
Qed.

Lemma places_bound tbl i0 l i p len : places tbl i0 l → (i, p, len) ∈ l → (i < i0 + length tbl)%nat.
Proof.
  induction 1 as [|e tbl i0 l He Hp IH|e tbl i0 names q k w l He Hn Hf Hw Ha Hp IH]; [by intros ?%elem_of_nil|..]; cbn [length].
  - intros H. specialize (IH H). lia.
  - intros [(x & [= -> -> ->] & _)%list_elem_of_fmap|H]%elem_of_app; [lia|]. specialize (IH H). lia.
Qed.

Lemma table_ok_add_opt e st st' : check_opt e st = Ok st' → table_ok st → table_ok (add_opt e st').
Proof.
  intros Hc (Hok & l & Hl & Hnl & Hns).
  destruct (check_opt_ok _ _ _ Hc) as (He & Hty & names & p & len & w & Hn & Hf & Hw & Ha & Ht & _ & Hlong & Hshort & _).
  unfold table_ok, add_opt. cbn [opt_table opt_num_long opt_num_short]. rewrite Ht.
  split; [apply Forall_app; split; [done|by apply Forall_singleton]|].
  pose proof (places_snoc_opt _ _ _ _ _ _ _ _ Hl Hty Hn Hf Hw Ha) as Hp. cbn [Nat.add] in Hp.
  eexists. split; [exact Hp|]. destruct (names_of_last (opt_table st) e names w Hn) as [Hll Hls].
  assert (Hext : ∀ pl, pl ∈ l → pchar (opt_table st ++ [e]) pl = pchar (opt_table st) pl).
  { intros [[i q] k] Hin. apply pchar_app. pose proof (places_bound _ _ _ _ _ _ Hl Hin). lia. }
  rewrite (Hlong _ Hnl), (Hshort _ Hns), longs_app, shorts_app, !zlen_app, Hll, Hls.
  by rewrite (longs_ext _ _ _ Hext), (shorts_ext _ _ _ Hext).
Qed.

Lemma table_ok_heading d st : table_ok st → table_ok (add_opt (heading d) st).
Proof.
  intros (Hok & l & Hl & Hnl & Hns). unfold table_ok, add_opt. cbn [opt_table opt_num_long opt_num_short].
  split; [apply Forall_app; split; [done|apply Forall_singleton; by left]|].
  exists l. split; [by apply places_snoc_sub|].
  assert (Hext : ∀ pl, pl ∈ l → pchar (opt_table st ++ [heading d]) pl = pchar (opt_table st) pl).
  { intros [[i q] k] Hin. apply pchar_app. pose proof (places_bound _ _ _ _ _ _ Hl Hin). lia. }
  by rewrite (longs_ext _ _ _ Hext), (shorts_ext _ _ _ Hext).
Qed.

Lemma alike_refl tbl : Forall2 alike tbl tbl.
Proof. induction tbl; constructor; [by repeat split|done]. Qed.

Lemma alter_alike k n tbl : Forall2 alike tbl (alter (set_tlen k) n tbl).
Proof.
  revert n. induction tbl as [|e tbl IH]; intros [|n]; [constructor|constructor|..]; cbn.
  - constructor; [by repeat split|apply alike_refl].
  - constructor; [by repeat split|apply IH].
Qed.

Lemma table_ok_tlen k n st : table_ok st → table_ok (set_table (alter (set_tlen k) n (opt_table st)) st).
Proof.
  intros (Hok & l & Hl & Hnl & Hns). pose proof (alter_alike k n (opt_table st)) as Ha.
  split; [by eapply entry_ok_alike|]. exists l. split; [by eapply places_alike|]. cbn [opt_table set_table opt_num_long opt_num_short].
  rewrite Hnl, Hns. split; do 2 f_equal; [apply longs_ext|apply shorts_ext]; intros pl _; symmetry; by apply pchar_alike.
Qed.

(** What registering keeps: the invariant, and the entries that were there. *)
Definition extends st st' : Prop := (table_ok st → table_ok st') ∧ opt_table st `prefix_of` opt_table st'.

Lemma extends_trans st1 st2 st3 : extends st1 st2 → extends st2 st3 → extends st1 st3.
Proof. intros [H1 P1] [H2 P2]. split; [auto|]. by etrans. Qed.

Lemma extends_opt e st st' : check_opt e st = Ok st' → extends st (add_opt e st').
Proof.
  intros Hc. split; [by apply table_ok_add_opt|].
  destruct (check_opt_ok _ _ _ Hc) as (_ & _ & names & p & len & w & _ & _ & _ & _ & Ht & _).
  exists [e]. cbn. by rewrite Ht.
Qed.

Lemma extends_heading d body st st' :
  (∀ st st', body st = Ok st' → extends st st') → with_heading d body st = Ok st' → extends st st'.
Proof.
  intros Hb. destruct d as [d|]; cbn [with_heading]; [|by apply Hb]. intros Hc.
  apply bind_Ok in Hc as (st1 & Hst1 & Hc). injection Hc as <-. destruct (Hb _ _ Hst1) as [Hok [k Hk]]. split.
  - intros Ht. apply table_ok_tlen, Hok, table_ok_heading, Ht.
  - cbn [opt_table set_table add_opt] in *. rewrite Hk, <- app_assoc.
    rewrite alter_app_r_alt by done. eexists. reflexivity.
Qed.

Lemma register_entry_extends : ∀ (t : table_entry S) st st', register_entry t st = Ok st' → extends st st'.
Proof.
  fix IH 1. intros [e|ts d] st st'; cbn [register_entry].
  - intros Hc. apply bind_Ok in Hc as (st1 & Hst1 & Hc). injection Hc as <-. by apply extends_opt.
  - apply extends_heading. clear st st'. induction ts as [|t ts IHts]; intros st st' Hc.
    + injection Hc as <-. by split.
    + apply bind_Ok in Hc as (st1 & Hst1 & Hc). eapply extends_trans; [by eapply IH|by apply IHts].
Qed.

(** ** Properties *)

Lemma register_ok names type cb cb_arg show arg desc st st' :
  _opt_register names type cb cb_arg show arg desc st = Ok st' → extends st st'.
Proof. intros Hr. apply bind_Ok in Hr as (st1 & Hst1 & Hr). injection Hr as <-. by apply extends_opt. Qed.

(** C15: registering keeps the table sound.  An option or a table of options that is
    accepted leaves the entries that were there in place; every entry then has
    names that can be walked over without reading past their end, each a long name
    or a single character, and the counters give the number of long and of short
    names that a walk over the whole table visits. *)
Theorem register_sound names type cb cb_arg show arg desc (table : list (table_entry S)) d st st' :
  table_ok st →
  _opt_register names type cb cb_arg show arg desc st = Ok st' ∨ opt_register_table table d st = Ok st' →
  table_ok st' ∧ opt_table st `prefix_of` opt_table st'.
Proof.
  intros Ht Hr. cut (extends st st'); [intros [H1 H2]; auto|]. destruct Hr as [Hr|Hr].
  - by eapply register_ok.
  - by eapply register_entry_extends.
Qed.

(** The table is empty at the start, and after opt_free_table. *)
Lemma table_ok_empty argv0 : table_ok (mk_opts [] 0 0 0 argv0).
Proof. split; [constructor|]. exists []. split; [constructor|done]. Qed.
End register.

(** Only the first name of an option is checked to begin with a dash: the
    character before every other name is skipped unseen, and a list of names that
    ends with a bar makes the walk read past the end of the string. *)
Theorem later_names_unchecked :
  (let r := check_opt (S := unit) (mk_entry (Some (lit "-a|xb")) OPT_NOARG CbNull CbArgNull None (UArg None) (Some (Desc []))) opt_init in
   is_ok r = true) ∧
  (let r := check_opt (S := unit) (mk_entry (Some (lit "-a|")) OPT_NOARG CbNull CbArgNull None (UArg None) (Some (Desc []))) opt_init in
   r = Err EOob).
Proof. split; vm_compute; reflexivity. Qed.
