(* ===== verification/OptParseSpec.v ===== *)
(** * What the option parser does

    The loops over the names find the first option with the name that was given;
    parsing a command line ends, never fails an assertion and never reads past an
    argument; and what it leaves of the arguments. *)
From Stdlib Require Import Strings.String.
From S2P Require Import Prelude.
From S2P Require Import Scanf.
From S2P Require Import CString.
From S2P Require Import Opt.
From S2P Require Import OptTable.
From S2P Require Import OptRegister.
From S2P Require Import OptParse.
#[local] Open Scope Z_scope.

(** ** Comparing names *)

(** The name in [name] or [name=argument]. *)
Definition before_eq (s : str) : str := (span (λ c, negb (c =? 61)) s).1.

Lemma strncmp_eq_take b o n : (n ≤ length o)%nat → strncmp_eq b o n = bool_decide (take n b = take n o).
Proof.
  revert b o. induction n as [|n IH]; intros b o Hn; [by rewrite bool_decide_true|].
  destruct o as [|y o]; [cbn in Hn; lia|]. destruct b as [|x b]; cbn [strncmp_eq take].
  - by rewrite bool_decide_false.
  - rewrite IH by (cbn in Hn; lia). destruct (Z.eqb_spec x y) as [->|]; cbn [andb].
    + apply bool_decide_ext. split; [by intros ->|by intros [= ->]].
    + by rewrite bool_decide_false by (by intros [= ? _]).
Qed.

Lemma before_eq_app n r : Forall (λ c, c ≠ 61) n → (r = [] ∨ head r = Some 61) → before_eq (n ++ r) = n.
Proof.
  intros Hn Hr. unfold before_eq. rewrite span_app; [done| |].
  - eapply Forall_impl; [exact Hn|]. intros c Hc. cbn. by rewrite (proj2 (Z.eqb_neq _ _) Hc).
  - intros c r' ->. destruct Hr as [|[= ->]]; [done|]. by rewrite Z.eqb_refl.
Qed.

(** A name is matched when it is all of the argument up to the equals sign. *)
Lemma name_match b o n :
  (n ≤ length o)%nat → Forall (λ c, c ≠ 61) (take n o) → no_null b →
  if strncmp_eq b o n then
    ∃ c, char_at b n = Ok c ∧
    if c =? 61 then before_eq b = take n o ∧ mem 61 b = true
    else if c =? 0 then before_eq b = take n o ∧ mem 61 b = false
    else before_eq b ≠ take n o
  else before_eq b ≠ take n o.
Proof.
  intros Hn Hfree Hb. rewrite strncmp_eq_take by done. case_bool_decide as Ht.
  - assert (Hbe : b = take n o ++ drop n b) by (rewrite <- Ht; symmetry; apply take_drop).
    assert (Hm : length (take n o) = n) by (rewrite length_take; lia).
    revert Hbe Hm Hfree. clear Ht. generalize (take n o), (drop n b). intros m r -> Hm Hfree. subst n.
    destruct r as [|c r].
    + rewrite app_nil_r in *. exists 0. split; [apply char_at_end|]. cbn [Z.eqb].
      pose proof (before_eq_app m [] Hfree (or_introl eq_refl)) as Hbe. rewrite app_nil_r in Hbe. split; [done|].
      unfold mem. apply not_true_iff_false. rewrite existsb_exists. intros (x & Hx & Heq).
      rewrite Forall_forall in Hfree. apply (Hfree x); [by apply list_elem_of_In|]. lia.
    + exists c. assert (Hc : (m ++ c :: r) !! length m = Some c) by (by apply list_lookup_middle).
      split. { unfold char_at, nget. rewrite Hc. apply lookup_lt_Some in Hc. by rewrite (proj2 (Nat.eqb_neq _ _)) by lia. }
      destruct (Z.eqb_spec c 61) as [->|Hne].
      * rewrite before_eq_app by auto. split; [done|]. unfold mem. rewrite existsb_app. cbn. by rewrite orb_true_r.
      * apply Forall_app in Hb as [_ [Hc0 _]%Forall_cons]. rewrite Hc0. unfold before_eq. intros E.
        pose proof (span_eq (λ c, negb (c =? 61)) (m ++ c :: r)) as Hs. rewrite E in Hs.
        apply app_inv_head in Hs. symmetry in Hs. apply span_stop in Hs. apply negb_false_iff in Hs. lia.
  - intros E. apply Ht. rewrite <- E. unfold before_eq in *. rewrite (span_eq (λ c, negb (c =? 61)) b) at 1.
    assert (length (span (λ c, negb (c =? 61)) b).1 = n) as <-.
    { apply (f_equal length) in E. rewrite length_take in E. lia. }
    by rewrite take_app_length.
Qed.

Section match_.
Context {S : Type} (tbl : list (entry S)) (l : list place).
Context (Hok : Forall entry_ok tbl) (Hl : places tbl 0 l).

(** The text of a name. *)
Definition pname (pl : place) : str :=
  let '(i, p, len) := pl in
  match tbl !! i with Some e => take len (drop p (default [] (o_names e))) | None => [] end.

(** Where the argument of [--name=argument] starts. *)
Definition eq_arg (a : str) (len : nat) : option optarg_ptr :=
  if mem 61 (drop 2 a) then Some (InArg (2 + len + 1)) else None.

Lemma free_eq n : Forall (λ c, mem c (lit "|= ") = false) n → Forall (λ c, c ≠ 61) n.
Proof. intros H. eapply Forall_impl; [exact H|]. by intros c Hc ->. Qed.

Lemma long_match_spec a fuel pre post :
  no_null a → (2 ≤ length a)%nat → l = pre ++ post → (length post ≤ fuel)%nat →
  long_match tbl fuel a (head (longs tbl post)) =
  Ok (match List.find (λ pl, str_eqb (pname pl) (before_eq (drop 2 a))) (longs tbl post) with
      | Some (i, p, len) => Some ((i, p, len), eq_arg a len)
      | None => None
      end).
Proof.
  intros Ha H2. revert fuel pre. induction post as [|[[i p] len] post IH]; intros fuel pre E Hf; [by destruct fuel|].
  assert (E' : l = (pre ++ [(i, p, len)]) ++ post) by (by rewrite <- app_assoc). cbn [length] in Hf.
  rewrite longs_cons. destruct (Z.eqb_spec (pchar tbl (i, p, len)) 45) as [Hd|Hd]; [|by apply (IH fuel _ E'); lia].
  destruct fuel as [|fuel]; [lia|]. cbn [app head long_match List.find].
  destruct (place_at tbl l Hok Hl _ _ _ E) as (e & names & Hi & _ & _ & Hn & Hpl & Hfree & _). cbn [fst snd] in Hpl, Hfree.
  rewrite (nget_Ok _ _ _ Hi), bind_ret. unfold names_of at 1. rewrite Hn, bind_ret.
  assert (Hbn : no_null (drop 2 a)) by (by apply Forall_drop).
  assert (Hfree' : Forall (λ c, c ≠ 61) (take (len - 1) (drop (p + 1) names))).
  { apply free_eq. destruct len as [|len]; [constructor|]. destruct (drop p names) as [|x r] eqn:Ed; [by rewrite <- drop_drop, Ed, drop_nil, take_nil|].
    cbn [take] in Hfree. apply Forall_cons in Hfree as [_ Hfree].
    replace (p + 1)%nat with (p + 1)%nat by lia. rewrite <- drop_drop, Ed. cbn [drop]. by replace (Datatypes.S len - 1)%nat with len by lia. }
  pose proof (name_match (drop 2 a) (drop (p + 1) names) (len - 1) ltac:(rewrite length_drop; lia) Hfree' Hbn) as Hm.
  assert (Hpn : pname (i, (p + 1)%nat, (len - 1)%nat) = take (len - 1) (drop (p + 1) names)).
  { unfold pname. by rewrite Hi, Hn. }
  rewrite Hpn. unfold str_eqb. destruct (strncmp_eq _ _ _); cbn [negb].
  - destruct Hm as (c & Hc & Hm).
    assert (Hc' : char_at a (2 + (len - 1)) = Ok c).
    { rewrite <- Hc. unfold char_at, nget. rewrite length_drop, lookup_drop.
      destruct (Nat.eqb_spec (2 + (len - 1)) (length a)), (Nat.eqb_spec (len - 1) (length a - 2)); done || lia. }
    rewrite Hc', bind_ret. unfold eq_arg. destruct (c =? 61).
    { destruct Hm as [Hm1 Hm2]. by rewrite bool_decide_true, Hm2 by done. }
    destruct (c =? 0); cbn [negb].
    { destruct Hm as [Hm1 Hm2]. by rewrite bool_decide_true, Hm2 by done. }
    rewrite bool_decide_false by congruence. rewrite (next_lopt_spec tbl l Hok Hl _ _ _ _ _ E Hd), bind_ret.
    by apply (IH fuel _ E'); lia.
  - rewrite bool_decide_false by congruence. rewrite (next_lopt_spec tbl l Hok Hl _ _ _ _ _ E Hd), bind_ret.
    by apply (IH fuel _ E'); lia.
Qed.

Lemma short_match_spec c fuel pre post :
  l = pre ++ post → (length post ≤ fuel)%nat →
  short_match tbl fuel c (head (shorts tbl post)) = Ok (List.find (λ pl, c =? pchar tbl pl) (shorts tbl post)).
Proof.
  revert fuel pre. induction post as [|[[i p] len] post IH]; intros fuel pre E Hf; [by destruct fuel|].
  assert (E' : l = (pre ++ [(i, p, len)]) ++ post) by (by rewrite <- app_assoc). cbn [length] in Hf.
  rewrite shorts_cons. destruct (Z.eqb_spec (pchar tbl (i, p, len)) 45) as [Hd|Hd]; [by apply (IH fuel _ E'); lia|].
  destruct fuel as [|fuel]; [lia|]. cbn [app head short_match List.find].
  rewrite (at_place_char _ _ (place_at tbl l Hok Hl _ _ _ E)), bind_ret.
  destruct (c =? pchar tbl (i, p, len)); cbn [negb]; [done|].
  rewrite (next_sopt_spec tbl l Hok Hl _ _ _ _ _ E Hd), bind_ret. by apply (IH fuel _ E'); lia.
Qed.
End match_.

(** ** One step of the parser *)
Lemma argv_fuel_delete argv k a :
  argv !! k = Some a → argv_fuel argv = (length a + 1 + argv_fuel (delete k argv))%nat.
Proof.
  assert (Hcons : ∀ b l, argv_fuel (b :: l) = (length b + 1 + argv_fuel l)%nat) by done.
  revert k. induction argv as [|b argv IH]; intros [|k] Hk; [done..| |].
  - injection Hk as ->. apply Hcons.
  - change (delete (S k) (b :: argv)) with (b :: delete k argv). rewrite !Hcons, (IH k Hk). lia.
Qed.
Lemma argv_fuel_pos argv : (1 ≤ argv_fuel argv)%nat.
Proof. destruct argv; unfold argv_fuel; cbn; lia. Qed.

Lemma arg_at_Some argv k a : argv !! k = Some a → arg_at argv k = Ok (Some a).
Proof.
  intros Hk. pose proof (lookup_lt_Some _ _ _ Hk). unfold arg_at. rewrite (proj2 (Nat.eqb_neq _ _)) by lia.
  by rewrite (nget_Ok _ _ _ Hk).
Qed.
Lemma arg_at_end argv : arg_at argv (length argv) = Ok None.
Proof. unfold arg_at. by rewrite Nat.eqb_refl. Qed.
Lemma arg_at_le argv k : (k ≤ length argv)%nat → arg_at argv k = Ok (argv !! k).
Proof.
  intros Hk. destruct (decide (k = length argv)) as [->|].
  - rewrite arg_at_end. by rewrite lookup_ge_None_2.
  - destruct (lookup_lt_is_Some_2 argv k) as [a Ha]; [lia|]. by rewrite (arg_at_Some _ _ _ Ha), Ha.
Qed.

(** The arguments that look like options. *)
Definition dashed (a : str) : Prop := head_char a = 45.

Lemma find_arg_spec fuel argv k :
  (1 ≤ k ≤ length argv)%nat → (length argv < k + fuel)%nat →
  ∃ j, find_arg fuel argv k = Ok j ∧ (k ≤ j ≤ length argv)%nat ∧
  (∀ i a, (k ≤ i < j)%nat → argv !! i = Some a → ¬ dashed a) ∧ (∀ a, argv !! j = Some a → dashed a).
Proof.
  revert k. induction fuel as [|fuel IH]; intros k Hk Hf; [lia|]. cbn [find_arg].
  rewrite arg_at_le, bind_ret by lia. destruct (argv !! k) as [a|] eqn:Ha.
  - destruct (Z.eqb_spec (head_char a) 45) as [Hd|Hd].
    + exists k. split; [done|]. split; [lia|]. split; [lia|]. intros b. rewrite Ha. by intros [= <-].
    + apply lookup_lt_Some in Ha as Hlt. destruct (IH (k + 1)%nat) as (j & Hj & Hjk & Hbefore & Hat); [lia|lia|].
      exists j. split; [done|]. split; [lia|]. split; [|done]. intros i b Hi Hb. destruct (decide (i = k)) as [->|].
      * rewrite Ha in Hb. by injection Hb as <-.
      * eapply (Hbefore i b); [lia|done].
  - exists k. split; [done|]. split; [lia|]. split; [lia|]. intros b. by rewrite Ha.
Qed.

Lemma find_In {A} (P : A → bool) (l : list A) x : List.find P l = Some x → x ∈ l ∧ P x = true.
Proof. intros H. apply List.find_some in H as [H1 H2]. split; [by apply list_elem_of_In|done]. Qed.

(** What a table needs besides the checks at registration: its names are C strings
    and its callbacks return. *)
Section steps.
Context {S : Type} (errlog : str → S → res S) (posixly_correct : bool) (tbl : list (entry S)).
Context (Hok : Forall entry_ok tbl).

Definition callbacks_return (e : entry S) : Prop :=
  no_null (default [] (o_names e)) ∧
  (if Z.land (o_type e) (Z.lnot OPT_EARLY) =? OPT_NOARG then ∀ s, ∃ r, call_cb e s = Ok r
   else o_type e ≠ OPT_SUBTABLE → ∀ t s, ∃ r, call_cb_arg e t s = Ok r).

Context (Hcb : Forall callbacks_return tbl) (Hlog : ∀ m s, ∃ s', errlog m s = Ok s').

Definition locate (argv : list str) : res nat :=
  if posixly_correct then Ok 1%nat else find_arg (length argv) argv 1.

Lemma locate_ok argv : argv ≠ [] → ∃ k, locate argv = Ok k ∧ (1 ≤ k ≤ length argv)%nat ∧
  (posixly_correct = false →
    (∀ i a, (1 ≤ i < k)%nat → argv !! i = Some a → ¬ dashed a) ∧ ∀ a, argv !! k = Some a → dashed a).
Proof.
  intros Hne. unfold locate. assert (1 ≤ length argv)%nat by (destruct argv; [done|cbn; lia]).
  destruct posixly_correct; [exists 1%nat; split; [done|split; [lia|done]]|].
  destruct (find_arg_spec (length argv) argv 1) as (k & -> & Hk & Hb & Hd); [lia|lia|].
  exists k. split; [done|]. split; [lia|]. done.
Qed.

(** An offset into a group of short options: the argument goes on behind it. *)
Definition offset_ok (argv : list str) (offset : nat) : Prop :=
  offset = 0%nat ∨
  ∃ k a, locate argv = Ok k ∧ argv !! k = Some a ∧ (offset + 1 < length a)%nat ∧ a !! 1%nat ≠ Some 45.

(** The entry of a place that was found. *)
Lemma entry_at i e : tbl !! i = Some e → entry_ok e → o_type e ≠ OPT_SUBTABLE → ∃ names, o_names e = Some names.
Proof. intros _ [He|(_ & _ & names & Hn & _)] Hne; [done|eauto]. Qed.

Lemma parse_err_ok argv offset s arg len problem : argv ≠ [] →
  ∃ s', parse_err errlog argv offset s (argv !! 0%nat) arg len problem = Ok (mk_parsed (-1) argv offset s').
Proof.
  intros Hne. destruct argv as [|a0 argv]; [done|]. unfold parse_err. cbn [lookup list_lookup]. rewrite bind_ret.
  destruct (Hlog (a0 ++ lit ": " ++ take len arg ++ lit ": " ++ problem) s) as [s' ->]. rewrite bind_ret. eauto.
Qed.

(** What the callback was given, or the error that was reported. *)
Definition run_good (argv : list str) (arg offset : nat) (r : parsed S + (option str * option optarg_ptr * nat * S)) : Prop :=
  match r with
  | inl p => p_ret p = -1 ∧ p_argv p = argv
  | inr (problem, optarg', offset', s') =>
    (optarg' = Some NextArg → is_Some (argv !! (arg + 1)%nat)) ∧ (offset' = offset ∨ offset' = 0%nat)
  end.

(** The part from the option found to its callback. *)
Lemma run_option_ok argv arg a is_early i o len optarg offset s e names :
  argv ≠ [] → argv !! arg = Some a → tbl !! i = Some e → o_type e ≠ OPT_SUBTABLE → o_names e = Some names →
  (offset + 1 ≤ length a)%nat ∨ offset = 0%nat →
  (∀ off, optarg = Some (InArg off) → (off ≤ length a)%nat) → optarg ≠ Some NextArg →
  ∃ r, run_option errlog tbl argv arg a is_early (i, o, len) optarg offset s = Ok r ∧
  run_good argv arg offset r.
Proof.
  intros Hne Ha Hi Hty Hn Hoff Harg Hnext. unfold run_option. rewrite (arg_at_le argv 0) by lia. rewrite bind_ret.
  rewrite (nget_Ok _ _ _ Hi), bind_ret. unfold names_of. rewrite Hn, bind_ret.
  pose proof (Forall_lookup_1 _ _ _ _ Hcb Hi) as [_ Hcbe]. pose proof (lookup_lt_Some _ _ _ Ha) as Hlt.
  destruct (Z.land (o_type e) (Z.lnot OPT_EARLY) =? OPT_NOARG).
  - destruct optarg as [p|].
    + destruct (parse_err_ok argv offset s (drop o names) len (lit "doesn't allow an argument") Hne) as [s' ->]. by eexists.
    + destruct (Hcbe s) as [[pr s'] Hc]. destruct (_ =? is_early); [rewrite Hc|]; rewrite bind_ret; eexists; (split; [done|]); (split; [done|by left]).
  - specialize (Hcbe Hty).
    assert (Hrest : ∀ oa off', (∀ x, oa = InArg x → (x ≤ length a)%nat) → (oa = NextArg → is_Some (argv !! (arg + 1)%nat)) →
      (off' = offset ∨ off' = 0%nat) →
      ∃ r, (text ← optarg_text argv arg a oa;
            '(problem, s) ← (if Z.land (o_type e) OPT_EARLY =? is_early then call_cb_arg e text s else Ok (None, s));
            Ok (inr (problem, Some oa, off', s))) = Ok r ∧
      run_good argv arg offset r).
    { intros oa off' Hin Hnx Ho.
      assert (Ht : ∃ text, optarg_text argv arg a oa = Ok text).
      { destruct oa as [x|]; cbn [optarg_text].
        - unfold str_from. rewrite (proj2 (Nat.leb_le _ _)) by auto. eauto.
        - destruct (Hnx eq_refl) as [t Ht]. rewrite (arg_at_Some _ _ _ Ht), bind_ret. eauto. }
      destruct Ht as [text ->]. rewrite bind_ret. destruct (Hcbe text s) as [[pr s'] Hc].
      destruct (_ =? is_early); [rewrite Hc|]; rewrite bind_ret; eexists; (split; [done|]);
        (split; [intros [= ->]; auto|done]). }
    destruct optarg as [p|].
    + rewrite bind_ret. apply Hrest; [intros x ->; by apply Harg|intros ->; done|by left].
    + assert (Hch : ∃ c, (if (offset =? 0)%nat then Ok 0 else char_at a (offset + 1)) = Ok c ∧
        (c ≠ 0 → (offset + 1 ≤ length a)%nat)).
      { destruct (Nat.eqb_spec offset 0); [by exists 0|]. destruct (char_at_ok a (offset + 1)) as [c Hc]; [lia|].
        exists c. split; [done|]. intros _. by eapply char_at_le. }
      destruct Hch as (c & -> & Hc). rewrite bind_ret. destruct (Z.eqb_spec c 0) as [->|Hc0]; cbn [negb].
      * rewrite arg_at_le, !bind_ret by lia. destruct (argv !! (arg + 1)%nat) as [t|] eqn:Et.
        -- apply Hrest; [done|by intros _; eexists|by left].
        -- destruct (parse_err_ok argv offset s (drop o names) len (lit "requires an argument") Hne) as [s' ->]. by eexists.
      * rewrite bind_ret. apply Hrest; [intros x [= <-]; auto|done|by right].
Qed.

(** What is left to parse. *)
Definition todo (argv : list str) (offset : nat) : nat := (argv_fuel argv - offset)%nat.

(** The three outcomes of a step. *)
Definition step_good (argv : list str) (offset : nat) (r : parsed S) : Prop :=
  p_argv r `sublist_of` argv ∧ p_argv r !! 0%nat = argv !! 0%nat ∧
  ( (p_ret r = 1 ∧ offset_ok (p_argv r) (p_offset r) ∧ (todo (p_argv r) (p_offset r) < todo argv offset)%nat)
  ∨ (p_ret r = -1 ∧ p_argv r = argv ∧ ∃ k a, locate argv = Ok k ∧ argv !! k = Some a ∧ dashed a)
  ∨ (p_ret r = 0 ∧ (lit "--" ∈ argv ∨ (posixly_correct = false → Forall (λ a, ¬ dashed a) (drop 1 (p_argv r)))))).

Lemma finish_option_ok argv arg a i o len problem optarg offset offset' s e names :
  argv ≠ [] → locate argv = Ok arg → (1 ≤ arg)%nat → argv !! arg = Some a → dashed a →
  tbl !! i = Some e → o_names e = Some names →
  (offset < length a)%nat →
  offset' = 0%nat ∨ offset' = (offset + 1)%nat ∧ (offset' + 1 ≤ length a)%nat ∧ a !! 1%nat ≠ Some 45 →
  (optarg = Some NextArg → is_Some (argv !! (arg + 1)%nat)) →
  ∃ r, finish_option errlog tbl argv arg a (i, o, len) problem optarg offset' s = Ok r ∧ step_good argv offset r.
Proof.
  intros Hne Hloc Harg Ha Hd Hi Hn Hoff Hoff' Hnext. unfold finish_option. destruct problem as [problem|].
  { rewrite (arg_at_le argv 0), bind_ret by lia. rewrite (nget_Ok _ _ _ Hi), bind_ret. unfold names_of. rewrite Hn, bind_ret.
    destruct (parse_err_ok argv offset' s (drop o names) len problem Hne) as [s' ->]. eexists. split; [done|].
    split; [done|]. split; [done|]. right; left. split; [done|]. split; [done|]. by exists arg, a. }
  assert (Hch : ∃ c, (if (offset' =? 0)%nat then Ok 1 else char_at a (offset' + 1)) = Ok c ∧
    ((if c =? 0 then 0%nat else offset') = 0%nat ∨
     (if c =? 0 then 0%nat else offset') = (offset + 1)%nat ∧ (offset + 2 < length a)%nat ∧ a !! 1%nat ≠ Some 45)).
  { destruct (Nat.eqb_spec offset' 0) as [->|Hne']; [exists 1; split; [done|by left]|].
    destruct Hoff' as [|(-> & Hlen & H1)]; [done|]. destruct (char_at_ok a (offset + 1 + 1) Hlen) as [c Hc].
    exists c. split; [done|]. destruct (Z.eqb_spec c 0); [by left|]. right. split; [done|]. split; [|done].
    apply char_at_lookup in Hc; [|done]. apply lookup_lt_Some in Hc. lia. }
  destruct Hch as (c & -> & Hc). rewrite bind_ret. set (off := if c =? 0 then 0%nat else offset') in *. clearbody off.
  eexists. split; [done|]. pose proof (argv_fuel_delete _ _ _ Ha) as Hfuel.
  assert (Hdel : ∀ (l : list str) (k : nat), (1 ≤ k)%nat → delete k l !! 0%nat = l !! 0%nat) by (intros [|x l] [|k]; [done|done|lia|done]).
  destruct Hc as [->|(-> & Hlen & H1)].
  - cbn [Nat.eqb]. unfold step_good, consume_option. cbn [p_argv p_ret p_offset].
    destruct (decide (optarg = Some NextArg)) as [->|Hno].
    + split; [etrans; [apply sublist_delete|apply sublist_delete]|]. split; [by rewrite !Hdel|]. left. split; [done|]. split; [by left|].
      destruct (Hnext eq_refl) as [t Ht]. rewrite Nat.add_1_r, <- (list_lookup_delete_ge argv arg arg) in Ht by done.
      pose proof (argv_fuel_delete _ _ _ Ht). unfold todo. lia.
    + replace (match optarg with Some NextArg => delete arg (delete arg argv) | _ => delete arg argv end) with (delete arg argv)
        by (by destruct optarg as [[]|]).
      split; [apply sublist_delete|]. split; [by rewrite Hdel|]. left. split; [done|]. split; [by left|]. unfold todo. lia.
  - rewrite (proj2 (Nat.eqb_neq _ _)) by lia. unfold step_good. cbn [p_argv p_ret p_offset].
    split; [done|]. split; [done|]. left. split; [done|]. split.
    + right. exists arg, a. split; [done|]. split; [done|]. split; [lia|done].
    + unfold todo. lia.
Qed.

(** The places the matching loops return belong to entries of the table. *)
Lemma longs_entry l i p len : places tbl 0 l → (i, p, len) ∈ longs tbl l →
  ∃ e names, tbl !! i = Some e ∧ o_type e ≠ OPT_SUBTABLE ∧ o_names e = Some names ∧
  (p + len ≤ length names)%nat.
Proof.
  intros Hl Hin. unfold longs in Hin. apply list_elem_of_omap in Hin as ([[i' p'] len'] & Hin & Hx).
  destruct (pchar tbl (i', p', len') =? 45) eqn:Hc; [|done]. injection Hx as -> <- <-.
  pose proof (places_elem tbl 0 l i p' len' Hok Hl Hin) as Hat. rewrite Nat.sub_0_r in Hat.
  destruct Hat as (e & names & Hi & _ & Hty & Hn & [_ Hlen] & _ & c & Hch & Hcl). cbn [fst snd] in *.
  exists e, names. do 3 (split; [done|]). unfold pchar, place_char in Hc. rewrite (nget_Ok _ _ _ Hi), bind_ret in Hc.
  unfold names_of in Hc. rewrite Hn, bind_ret, Hch in Hc. rewrite Hc in Hcl. lia.
Qed.

Lemma shorts_entry l i p len : places tbl 0 l → (i, p, len) ∈ shorts tbl l →
  ∃ e names, tbl !! i = Some e ∧ o_type e ≠ OPT_SUBTABLE ∧ o_names e = Some names ∧ pchar tbl (i, p, len) ≠ 0 ∧
  pchar tbl (i, p, len) ≠ 45.
Proof.
  intros Hl Hin. unfold shorts in Hin. apply list_elem_of_omap in Hin as (pl & Hin & Hx).
  destruct (pchar tbl pl =? 45) eqn:Hc; [done|]. injection Hx as ->.
  pose proof (places_elem tbl 0 l i p len Hok Hl Hin) as Hat. rewrite Nat.sub_0_r in Hat.
  destruct Hat as (e & names & Hi & _ & Hty & Hn & [_ Hlen] & _ & c & Hch & Hcl). cbn [fst snd] in *.
  exists e, names. do 3 (split; [done|]). split; [|lia].
  assert (Hpc : pchar tbl (i, p, len) = c).
  { unfold pchar, place_char. rewrite (nget_Ok _ _ _ Hi), bind_ret. unfold names_of. by rewrite Hn, bind_ret, Hch. }
  rewrite Hpc in *. rewrite Hc in Hcl. destruct (char_at_lt names p) as (c' & Hc' & Hce); [lia|].
  rewrite Hch in Hce. injection Hce as <-. pose proof (Forall_lookup_1 _ _ _ _ Hcb Hi) as [Hnn _]. rewrite Hn in Hnn.
  pose proof (Forall_lookup_1 _ _ _ _ Hnn Hc') as H0. by apply Z.eqb_neq in H0.
Qed.

Lemma step_err argv offset k a r :
  locate argv = Ok k → argv !! k = Some a → dashed a → p_ret r = -1 → p_argv r = argv → step_good argv offset r.
Proof.
  intros Hloc Ha Hd Hr Hargv. unfold step_good. rewrite Hargv. split; [done|]. split; [done|]. right; left.
  split; [done|]. split; [done|]. by exists k, a.
Qed.

Lemma before_eq_mem b : mem 61 b = true → (length (before_eq b) < length b)%nat.
Proof.
  unfold before_eq. intros Hm. pose proof (span_eq (λ c, negb (c =? 61)) b) as Hb.
  pose proof (span_all (λ c, negb (c =? 61)) b) as Hall. destruct (span _ b).2 as [|c r] eqn:Er.
  - rewrite app_nil_r in Hb. rewrite <- Hb in Hall. unfold mem in Hm. apply existsb_exists in Hm as (x & Hx & Heq).
    rewrite Forall_forall in Hall. specialize (Hall x (proj2 (list_elem_of_In _ _) Hx)). cbn in Hall.
    apply negb_true_iff in Hall. lia.
  - apply (f_equal length) in Hb. rewrite length_app in Hb. cbn in Hb. lia.
Qed.

Lemma parse_one_ok argv is_early offset s :
  argv ≠ [] → Forall no_null argv → offset_ok argv offset →
  ∃ r, parse_one errlog posixly_correct tbl argv is_early offset s = Ok r ∧ step_good argv offset r.
Proof.
  intros Hne Hnn Hoff. destruct (table_places tbl 0 Hok) as [l Hl].
  destruct (locate_ok argv Hne) as (k & Hloc & Hk & Hbefore). unfold parse_one. fold (locate argv).
  rewrite Hloc, bind_ret, (arg_at_le argv k), bind_ret by lia.
  assert (Hend : (posixly_correct = false → k = length argv) → step_good argv offset (mk_parsed 0 argv offset s)).
  { intros Hk'. split; [done|]. split; [done|]. right; right. split; [done|]. right. intros Hp. cbn [p_argv].
    apply Forall_lookup_2. intros i a. rewrite lookup_drop. intros Hi. destruct (Hbefore Hp) as [Hb _].
    apply (Hb (1 + i)%nat); [|done]. rewrite Hk' by done. apply lookup_lt_Some in Hi. lia. }
  destruct (argv !! k) as [a|] eqn:Ha.
  2: { eexists. split; [done|]. apply Hend. intros _. apply lookup_ge_None in Ha. lia. }
  destruct (Z.eqb_spec (head_char a) 45) as [Hd|Hd]; cbn [negb].
  2: { eexists. split; [done|]. apply Hend. intros Hp. destruct (Hbefore Hp) as [_ Hat]. by destruct (Hd (Hat a eq_refl)). }
  assert (Hk1 : delete k argv !! 0%nat = argv !! 0%nat) by (destruct argv, k; done || lia).
  unfold str_eqb. case_bool_decide as Hdd.
  { eexists. split; [done|]. split; [apply sublist_delete|]. split; [done|]. right; right. split; [done|]. left.
    rewrite <- Hdd. by eapply list_elem_of_lookup_2. }
  rewrite (arg_at_le argv 0), bind_ret by lia.
  assert (Hna : no_null a) by (by eapply Forall_lookup_1 in Hnn).
  assert (Hla : (1 ≤ length a)%nat) by (destruct a; [done|cbn; lia]).
  destruct (char_at_ok a 1 Hla) as [c1 Hc1]. rewrite Hc1, bind_ret.
  assert (Hoffa : offset = 0%nat ∨ (offset + 1 < length a)%nat ∧ a !! 1%nat ≠ Some 45).
  { destruct Hoff as [->|(k' & a' & Hloc' & Ha' & Hlt & H1)]; [by left|]. right.
    rewrite Hloc in Hloc'. injection Hloc' as <-. rewrite Ha in Ha'. by injection Ha' as <-. }
  destruct (Z.eqb_spec c1 45) as [->|Hc45].
  - (* a long option *)
    apply char_at_lookup in Hc1 as Ha1; [|done]. apply lookup_lt_Some in Ha1 as H2.
    assert (offset = 0%nat) as -> by (by destruct Hoffa as [|[_ ?]]).
    cbn [Nat.eqb assert_]. rewrite bind_ret, (first_lopt_spec tbl l Hok Hl), bind_ret.
    pose proof (suffix_fuel tbl l Hl [] l eq_refl) as Hfuel.
    rewrite (long_match_spec tbl l Hok Hl a _ [] l) by (done || lia). rewrite !bind_ret.
    destruct (List.find _ _) as [[[i p] len]|] eqn:Hfind.
    + apply find_In in Hfind as [Hin Hname]. destruct (longs_entry l i p len Hl Hin) as (e & names & Hi & Hty & Hn & Hlen).
      unfold eq_arg.
      destruct (run_option_ok argv k a is_early i (p - 2) (len + 2) (if mem 61 (drop 2 a) then Some (InArg (2 + len + 1)) else None)
        0 s e names) as (r & -> & Hr); try done; [by right| | |].
      { intros off. destruct (mem 61 (drop 2 a)) eqn:Hmem; [|done]. intros [= <-].
        apply before_eq_mem in Hmem. apply bool_decide_eq_true in Hname. rewrite <- Hname in Hmem.
        unfold pname in Hmem. rewrite Hi, Hn in Hmem. cbn [default from_option] in Hmem. unfold id in Hmem.
        rewrite length_take, !length_drop in Hmem. lia. }
      { by destruct (mem 61 (drop 2 a)). }
      rewrite bind_ret. destruct r as [pr|[[[problem oa] offset'] s']].
      * destruct Hr. eexists. split; [done|]. by eapply step_err.
      * destruct Hr as [Hr1 Hr2]. eapply (finish_option_ok argv k a i (p - 2) (len + 2) problem oa 0 offset' s' e names); try done; [lia|left; lia].
    + destruct (parse_err_ok argv 0 s a (length a) (lit "unrecognized option") Hne) as [s' ->].
      eexists. split; [done|]. by eapply step_err.
  - (* a short option *)
    rewrite (first_sopt_spec tbl l Hok Hl), bind_ret. pose proof (suffix_fuel tbl l Hl [] l eq_refl) as Hfuel.
    assert (Hne45 : a !! 1%nat ≠ Some 45).
    { intros E. unfold char_at, nget in Hc1. rewrite E in Hc1. apply lookup_lt_Some in E.
      rewrite (proj2 (Nat.eqb_neq _ _)) in Hc1 by lia. congruence. }
    destruct (char_at_ok a (offset + 1)) as [c Hc]; [lia|]. rewrite Hc, bind_ret.
    rewrite (short_match_spec tbl l Hok Hl c _ [] l) by (done || lia). rewrite !bind_ret.
    destruct (List.find _ _) as [[[i p] len]|] eqn:Hfind.
    + apply find_In in Hfind as [Hin Hch]. apply Z.eqb_eq in Hch.
      destruct (shorts_entry l i p len Hl Hin) as (e & names & Hi & Hty & Hn & H0 & _). rewrite <- Hch in H0.
      apply char_at_lookup in Hc; [|done]. apply lookup_lt_Some in Hc.
      destruct (run_option_ok argv k a is_early i (p - 1) 2 None (offset + 1) s e names) as (r & -> & Hr); try done; [left; lia|].
      rewrite bind_ret. destruct r as [pr|[[[problem oa] offset'] s']].
      * destruct Hr. eexists. split; [done|]. by eapply step_err.
      * destruct Hr as [Hr1 Hr2]. eapply (finish_option_ok argv k a i (p - 1) 2 problem oa offset offset' s' e names); try done; [lia|lia|].
        destruct Hr2 as [->| ->]; [right|by left]. split; [done|]. split; [lia|done].
    + destruct (parse_err_ok argv offset s a (length a) (lit "unrecognized option") Hne) as [s' ->].
      eexists. split; [done|]. by eapply step_err.
Qed.

(** ** The loop *)
Lemma parse_loop_ok fuel argv is_early offset s :
  argv ≠ [] → Forall no_null argv → offset_ok argv offset → (todo argv offset ≤ fuel)%nat → (0 < fuel)%nat →
  ∃ r, parse_loop errlog posixly_correct tbl fuel argv is_early offset s = Ok r ∧
  p_argv r `sublist_of` argv ∧ p_argv r !! 0%nat = argv !! 0%nat ∧
  ( (p_ret r = -1 ∧ ∃ a, a ∈ p_argv r ∧ dashed a)
  ∨ (p_ret r = 0 ∧ (lit "--" ∈ argv ∨ (posixly_correct = false → Forall (λ a, ¬ dashed a) (drop 1 (p_argv r)))))).
Proof.
  revert argv offset s. induction fuel as [|fuel IH]; intros argv offset s Hne Hnn Hoff Hf Hpos; [lia|]. cbn [parse_loop].
  destruct (parse_one_ok argv is_early offset s Hne Hnn Hoff) as (r & -> & Hsub & H0 & Hr). rewrite bind_ret.
  destruct Hr as [(Hret & Hoff' & Hless)|[(Hret & Hargv & k & a & _ & Ha & Hd)|(Hret & Hend)]]; rewrite Hret; cbn [Z.eqb Pos.eqb].
  - assert (Hne' : p_argv r ≠ []) by (intros E; rewrite E in H0; by destruct argv).
    assert (Htodo : (0 < todo (p_argv r) (p_offset r))%nat).
    { unfold todo. destruct Hoff' as [->|(k & a & _ & Ha & Hlt & _)]; [pose proof (argv_fuel_pos (p_argv r)); lia|].
      rewrite (argv_fuel_delete _ _ _ Ha). lia. }
    destruct (IH (p_argv r) (p_offset r) (p_state r)) as (r' & -> & Hsub' & H0' & Hr'); try done; [|lia|lia|].
    { apply Forall_forall. intros a Ha. rewrite Forall_forall in Hnn. apply Hnn. by eapply sublist_subseteq. }
    exists r'. split; [done|]. split; [by etrans|]. split; [congruence|]. destruct Hr' as [Hr'|(Hret' & Hend)]; [by left|].
    right. split; [done|]. destruct Hend as [Hin|Hend]; [left; by eapply sublist_subseteq|by right].
  - exists r. split; [done|]. split; [done|]. split; [done|]. left. split; [done|]. exists a. split; [|done].
    rewrite Hargv. by eapply list_elem_of_lookup_2.
  - exists r. split; [done|]. split; [done|]. split; [done|]. right. done.
Qed.
End steps.

(** ** Properties *)

(** C14: parsing a command line ends.  With a table built by registration, callbacks
    and an error log that return, and a non-empty [argv], opt_parse and
    opt_early_parse return: no loop over the names runs on, the assertion that a
    long option is not met within a group of short ones holds, and nothing is read
    outside the arguments and the table.  The arguments left are a subsequence of
    the given ones with the program name in front; on failure an option is left
    among them, and on success no option is, unless [--] ended the options or
    [POSIXLY_CORRECT] is set. *)
Theorem opt_parse_ends {S} (errlog : str → S → res S) posixly_correct (st : opts S) argv s :
  table_ok st → Forall callbacks_return (opt_table st) → (∀ m s, ∃ s', errlog m s = Ok s') →
  argv ≠ [] → Forall no_null argv →
  (∃ b rest s', opt_parse errlog posixly_correct argv st s = Ok (b, rest, set_argv0 (argv !! 0%nat) st, s') ∧
    rest `sublist_of` argv ∧ rest !! 0%nat = argv !! 0%nat ∧
    if b : bool then lit "--" ∈ argv ∨ (posixly_correct = false → Forall (λ a, ¬ dashed a) (drop 1 rest))
    else ∃ a, a ∈ rest ∧ dashed a) ∧
  (∃ b s', opt_early_parse errlog posixly_correct argv st s = Ok (b, set_argv0 (argv !! 0%nat) st, s')).
Proof.
  intros [Hok _] Hcb Hlog Hne Hnn. unfold opt_parse, opt_early_parse. rewrite (arg_at_le argv 0), !bind_ret by lia.
  assert (Htodo : (todo argv 0 ≤ argv_fuel argv)%nat) by (unfold todo; lia).
  pose proof (argv_fuel_pos argv) as Hpos. cbn [opt_table set_argv0]. split.
  - destruct (parse_loop_ok errlog posixly_correct (opt_table st) Hok Hcb Hlog (argv_fuel argv) argv 0 0 s)
      as (r & -> & Hsub & H0 & Hr); try done; [by left|]. rewrite bind_ret.
    do 3 eexists. split; [done|]. split; [done|]. split; [done|].
    destruct Hr as [[-> Hr]|[-> Hr]]; exact Hr.
  - destruct (parse_loop_ok errlog posixly_correct (opt_table st) Hok Hcb Hlog (argv_fuel argv) argv OPT_EARLY 0 s)
      as (r & -> & _); try done; [by left|]. rewrite bind_ret. by do 2 eexists.
Qed.

(** The parser looks options up by name.  In a sound table, with [l] the list of all
    names in order of registration, the loop over the long options returns the first
    long name equal to the text of the argument between the dashes and the equals
    sign, with the place behind the equals sign as its argument if there is one;
    the loop over the short options returns the first short name with the given
    character. *)
Theorem option_lookup {S} (st : opts S) a c :
  table_ok st → no_null a → (2 ≤ length a)%nat →
  ∃ l, places (opt_table st) 0 l ∧
  (o ← first_lopt (opt_table st); long_match (opt_table st) (walk_fuel (opt_table st)) a o) =
  Ok (match List.find (λ pl, str_eqb (pname (opt_table st) pl) (before_eq (drop 2 a))) (longs (opt_table st) l) with
      | Some (i, p, len) => Some ((i, p, len), eq_arg a len)
      | None => None
      end) ∧
  (o ← first_sopt (opt_table st); short_match (opt_table st) (walk_fuel (opt_table st)) c o) =
  Ok (List.find (λ pl, c =? pchar (opt_table st) pl) (shorts (opt_table st) l)).
Proof.
  intros [Hok _] Ha H2. destruct (table_places (opt_table st) 0 Hok) as [l Hl]. exists l. split; [done|].
  pose proof (suffix_fuel _ l Hl [] l eq_refl) as Hf. split.
  - rewrite (first_lopt_spec _ l Hok Hl), bind_ret. apply (long_match_spec _ l Hok Hl a _ []); done || lia.
  - rewrite (first_sopt_spec _ l Hok Hl), bind_ret. apply (short_match_spec _ l Hok Hl c _ []); done || lia.
Qed.
