(* ===== verification/OptUsage.v ===== *)
(** * The usage text (ccan/opt/usage.c)

    The text is built in a buffer that grows by [realloc]; of the memory only the
    first [len] bytes and the size [max] matter.  Offsets into strings are natural
    numbers; the columns are [unsigned int] or [size_t], as Z. *)
From Stdlib Require Import Strings.String.
From S2P Require Import Prelude.
From S2P Require Import Scanf.
From S2P Require Import CString.
From S2P Require Import OptHelpers.
From S2P Require Import Opt.
#[local] Open Scope Z_scope.

Definition MIN_DESC_WIDTH : Z := 40.
Definition MIN_TOTAL_WIDTH : Z := 50.

(** [env] is the variable COLUMNS, [winsize] the answer of the terminal. *)
Definition get_columns (env : option str) (winsize : option Z) : Z :=
  let ws_col := match env with Some e => atoi e | None => 0 end in
  let ws_col := if ws_col =? 0 then match winsize with Some w => w | None => ws_col end else ws_col in
  let ws_col := if ws_col =? 0 then 80 else ws_col in
  u32 ws_col.

(** ** Breaking lines *)

(** A blank and a newline. *)
Definition blanks : str := [32; 10].

(** The loop that takes more words; [q] is where the line starts. *)
Fixpoint more_words (fuel : nat) (words : str) (q : nat) (maxlen : Z) (oldlen len : nat) : res nat :=
  match fuel with
  | O => Err EFuel
  | S fuel =>
    if Z.of_nat len <=? maxlen then
      let oldlen := len in
      let len := (len + strspn (drop (q + len) words) (lit " "))%nat in
      c ← char_at words (q + len);
      when c =? 10 return oldlen;
      let len := (len + strcspn (drop (q + len) words) blanks)%nat in
      when (len =? oldlen)%nat return oldlen;
      more_words fuel words q maxlen oldlen len
    else Ok oldlen
  end.

(** The length of the line, the blanks to skip before it, and whether the next
    line starts a new line of the description.  [p] is where the words are; the
    character before the end of the line is read even when the line is empty. *)
Definition consume_words (words : str) (p : nat) (maxlen : Z) (start : bool) : res (nat * nat * bool) :=
  let prefix := strspn (drop p words) blanks in
  let q := (p + prefix)%nat in
  oldlen ←
    (if start && negb (prefix =? 0)%nat then Ok (strcspn (drop q words) [10])
     else
       let len := strcspn (drop q words) (lit " ") in
       more_words (length words + 2) words q maxlen len len);
  c ← aget words (Z.of_nat (q + oldlen) - 1);
  Ok (oldlen, prefix, c =? 10).

(** ** The buffer *)
Record strbuf := mk_strbuf { text : str; max : Z }.

Definition grow (b : strbuf) (n : Z) : strbuf :=
  if u64 (max b - zlen (text b)) <=? n then mk_strbuf (text b) (u64 (max b * 2 + n + 1)) else b.

(** [memcpy] or [memset] behind the text. *)
Definition write (b : strbuf) (s : str) : res strbuf :=
  if zlen (text b) + zlen s <=? max b then Ok (mk_strbuf (text b ++ s) (max b)) else Err EOob.

Definition add_str_len (b : strbuf) (s : str) : res strbuf := write (grow b (zlen s)) s.
Definition add_str (b : strbuf) (s : str) : res strbuf := add_str_len b s.
Definition add_indent (b : strbuf) (indent : Z) : res strbuf :=
  write (grow b indent) (replicate (Z.to_nat indent) 32).

Section usage.
Context {S : Type}.

(** [strchr(names, ' ')], [strchr(names, '=')]: does the name say what its argument
    is? *)
Definition names_arg (names : str) : bool := strchr names 32 || strchr names 61.
Definition wants_arg (e : entry S) (names : str) : bool := (o_type e =? OPT_HASARG) && negb (names_arg names).

(** The lines of the description; the column behind the last one, and whether
    nothing has been written yet. *)
Fixpoint add_lines (fuel : nat) (b : strbuf) (indent width : Z) (desc : str) (p : nat) (off : Z) (same_line start : bool)
    : res (strbuf * Z * bool) :=
  match fuel with
  | O => Err EFuel
  | Datatypes.S fuel =>
    '(l, prefix, start) ← consume_words desc p (u32 (width - indent)) start;
    when (l =? 0)%nat return (b, off, same_line);
    b ← (if same_line then Ok b else add_indent b indent);
    let p := (p + prefix)%nat in
    b ← add_str_len b (take l (drop p desc));
    b ← add_str b [10];
    add_lines fuel b indent width desc (p + l) (indent + Z.of_nat l) false start
  end.

Definition desc_text (d : description) : str := match d with Hidden => [] | Desc t => t end.

(** The value of the option: [junk] is the uninitialised buffer. *)
Definition add_default (junk : list Z) (b : strbuf) (off indent width : Z) (show : S → list Z → res (list Z)) (s : S)
    : res strbuf :=
  buf ← put junk OPT_SHOW_LEN (lit "..." ++ [0]);
  buf ← show s buf;
  t ← c_str buf;
  b ← (if width <? off + zlen (lit " (default: ") + zlen t + zlen (lit ")") then add_indent b indent
       else Ok (mk_strbuf (take (length (text b) - 1) (text b)) (max b)));
  b ← add_str b (lit " (default: ");
  b ← add_str b t;
  add_str b (lit ")" ++ [10]).

Definition add_desc (junk : list Z) (b : strbuf) (indent width : Z) (e : entry S) (s : S) : res strbuf :=
  names ← names_of e;
  b ← add_str b names;
  let off := zlen names in
  '(b, off) ← (if wants_arg e names then b ← add_str b (lit " <arg>"); Ok (b, off + zlen (lit " <arg>")) else Ok (b, off));
  '(b, off, same_line) ←
    (if indent <? off + 2 then b ← add_str b [10]; Ok (b, 0, false)
     else b ← add_indent b (indent - off); Ok (b, indent, true));
  d ← match o_desc e with Some d => Ok (desc_text d) | None => Err ENull end;
  '(b, off, same_line) ← add_lines (length d + 1) b indent width d 0 off same_line true;
  b ← (if same_line : bool then add_str b [10] else Ok b);
  match o_show e with
  | None => Ok b
  | Some show => add_default junk b off indent width show s
  end.

(** The column of the descriptions: two behind the longest name. *)
Definition is_hidden (e : entry S) : bool := match o_desc e with Some Hidden => true | _ => false end.

Definition longest (tbl : list (entry S)) : res Z :=
  mfold (λ e indent,
    if is_hidden e || (o_type e =? OPT_SUBTABLE) then Ok indent else
    names ← names_of e;
    let l := zlen names + if wants_arg e names then zlen (lit " <arg>") else 0 in
    Ok (if indent <? l + 2 then l + 2 else indent)) tbl 0.

(** The text that was registered with opt_usage_and_exit, if any. *)
Fixpoint usage_extra (tbl : list (entry S)) : str :=
  match tbl with
  | [] => []
  | e :: tbl =>
    match o_cb e, o_u e with
    | CbUsage, UArg (Some extra) => extra
    | _, _ => usage_extra tbl
    end
  end.

Definition opt_usage (columns : Z) (junk : list Z) (argv0 : str) (extra : option str) (st : opts S) (s : S) : res str :=
  let width := if columns <? MIN_TOTAL_WIDTH then MIN_TOTAL_WIDTH else columns in
  indent ← longest (opt_table st);
  let indent := if width <? indent + MIN_DESC_WIDTH then width - MIN_DESC_WIDTH else indent in
  b ← add_str (mk_strbuf [] 0) (lit "Usage: ");
  b ← add_str b argv0;
  let extra := match extra with Some x => x | None => usage_extra (opt_table st) end in
  b ← add_str b (lit " ");
  b ← add_str b extra;
  b ← add_str b [10];
  b ← mfold (λ e b,
        if is_hidden e then Ok b else
        if o_type e =? OPT_SUBTABLE then
          d ← match o_desc e with Some d => Ok (desc_text d) | None => Err ENull end;
          b ← add_str b d;
          add_str b (lit ":" ++ [10])
        else add_desc junk b indent width e s) (opt_table st) b;
  (* the terminating null *)
  if zlen (text b) <? max b then Ok (text b) else Err EOob.
End usage.
