(* ===== verification/OptUsageSpec.v ===== *)
(** * What the usage text is

    The growing buffer never overflows and always has room for the terminating
    null: building the usage in it gives the same text as concatenating strings.
    The lines of a description keep all of its words in order. *)
From Stdlib Require Import Strings.String.
From S2P Require Import Prelude.
From S2P Require Import Scanf.
From S2P Require Import CString.
From S2P Require Import OptHelpers.
From S2P Require Import Opt.
From S2P Require Import OptTable.
From S2P Require Import OptUsage.
#[local] Open Scope Z_scope.

(** ** The reference: the same text without a buffer *)
Definition spaces (n : Z) : str := replicate (Z.to_nat n) 32.

Fixpoint lines_of (fuel : nat) (desc : str) (p : nat) (maxlen : Z) (start : bool) : res (list str) :=
  match fuel with
  | O => Err EFuel
  | S fuel =>
    '(l, prefix, start) ← consume_words desc p maxlen start;
    when (l =? 0)%nat return [];
    ls ← lines_of fuel desc (p + prefix + l) maxlen start;
    Ok (take l (drop (p + prefix) desc) :: ls)
  end.

Fixpoint layout (indent : Z) (same_line : bool) (ls : list str) : str :=
  match ls with
  | [] => []
  | l :: ls => (if same_line then [] else spaces indent) ++ l ++ [10] ++ layout indent false ls
  end.

Definition last_off (indent off : Z) (ls : list str) : Z :=
  match last ls with Some l => indent + zlen l | None => off end.

Section reference.
Context {S : Type} (junk : list Z) (indent width : Z) (s : S).

Definition default_text (show : S → list Z → res (list Z)) : res str :=
  buf ← put junk OPT_SHOW_LEN (lit "..." ++ [0]);
  buf ← show s buf;
  c_str buf.

Definition with_default (body : str) (off : Z) (t : str) : str :=
  (if width <? off + zlen (lit " (default: ") + zlen t + zlen (lit ")") then body ++ spaces indent
   else take (length body - 1) body) ++ lit " (default: " ++ t ++ lit ")" ++ [10].

Definition entry_text (e : entry S) : res str :=
  names ← names_of e;
  let head := names ++ if wants_arg e names then lit " <arg>" else [] in
  let same_line := negb (indent <? zlen head + 2) in
  d ← match o_desc e with Some d => Ok (desc_text d) | None => Err ENull end;
  ls ← lines_of (length d + 1) d 0 (u32 (width - indent)) true;
  let body := head ++ (if same_line then spaces (indent - zlen head) else [10]) ++ layout indent same_line ls ++
              (match ls with [] => if same_line then [10] else [] | _ => [] end) in
  let off := last_off indent (if same_line then indent else 0) ls in
  match o_show e with
  | None => Ok body
  | Some show => t ← default_text show; Ok (with_default body off t)
  end.

Definition line_text (e : entry S) : res str :=
  if is_hidden e then Ok [] else
  if o_type e =? OPT_SUBTABLE then
    d ← match o_desc e with Some d => Ok (desc_text d) | None => Err ENull end;
    Ok (d ++ lit ":" ++ [10])
  else entry_text e.

Fixpoint lines_text (tbl : list (entry S)) : res str :=
  match tbl with
  | [] => Ok []
  | e :: tbl => t ← line_text e; r ← lines_text tbl; Ok (t ++ r)
  end.
End reference.

Definition usage_text {S} (columns : Z) (junk : list Z) (argv0 : str) (extra : option str) (st : opts S) (s : S) : res str :=
  let width := if columns <? MIN_TOTAL_WIDTH then MIN_TOTAL_WIDTH else columns in
  indent ← longest (opt_table st);
  let indent := if width <? indent + MIN_DESC_WIDTH then width - MIN_DESC_WIDTH else indent in
  let extra := match extra with Some x => x | None => usage_extra (opt_table st) end in
  t ← lines_text junk indent width s (opt_table st);
  Ok (lit "Usage: " ++ argv0 ++ lit " " ++ extra ++ [10] ++ t).

(** ** The buffer *)
Definition good (b : strbuf) : Prop :=
  (zlen (text b) < max b ∨ text b = [] ∧ max b = 0) ∧ max b ≤ 2 ^ 62.

(** The buffer holds the text [t]. *)
Definition holds (t : str) (b : strbuf) : Prop := text b = t ∧ good b.

Definition fits (t : str) : Prop := zlen t < 2 ^ 60.

Lemma fits_app_l a b : fits (a ++ b) → fits a.
Proof. unfold fits. rewrite zlen_app. pose proof (zlen_nonneg b). lia. Qed.
Lemma fits_app_r a b : fits (a ++ b) → fits b.
Proof. unfold fits. rewrite zlen_app. pose proof (zlen_nonneg a). lia. Qed.

Lemma write_grow b s : good b → fits (text b ++ s) →
  ∃ b', write (grow b (zlen s)) s = Ok b' ∧ text b' = text b ++ s ∧ good b' ∧ zlen (text b') < max b'.
Proof.
  unfold good, fits. rewrite zlen_app. intros [Hg Hm] Hf.
  pose proof (zlen_nonneg (text b)). pose proof (zlen_nonneg s).
  assert (Hmax : 0 ≤ max b) by lia. assert (Hle : zlen (text b) ≤ max b) by (destruct Hg as [|[-> ->]]; [lia|done]).
  unfold grow, u64. rewrite (Z.mod_small (max b - zlen (text b))) by lia.
  destruct (Z.leb_spec (max b - zlen (text b)) (zlen s)).
  - rewrite (Z.mod_small (max b * 2 + zlen s + 1)) by lia. unfold write. cbn [text max].
    rewrite (proj2 (Z.leb_le _ _)) by lia. eexists. split; [done|]. cbn [text max]. rewrite zlen_app. repeat split; lia.
  - unfold write. rewrite (proj2 (Z.leb_le _ _)) by lia. eexists. split; [done|]. cbn [text max]. rewrite zlen_app. repeat split; lia.
Qed.

Lemma add_str_holds t b s : holds t b → fits (t ++ s) → ∃ b', add_str b s = Ok b' ∧ holds (t ++ s) b' ∧ zlen (text b') < max b'.
Proof. intros [<- Hg] Hf. destruct (write_grow b s Hg Hf) as (b' & ? & ? & ? & ?). exists b'. split; [done|]. split; [by split|done]. Qed.

Lemma add_indent_holds t b n : 0 ≤ n → holds t b → fits (t ++ spaces n) →
  ∃ b', add_indent b n = Ok b' ∧ holds (t ++ spaces n) b' ∧ zlen (text b') < max b'.
Proof.
  intros Hn [<- Hg] Hf. unfold add_indent. assert (Hz : zlen (spaces n) = n) by (unfold zlen, spaces; rewrite length_replicate; lia).
  destruct (write_grow b (spaces n) Hg Hf) as (b' & Hw & ? & ? & ?). rewrite Hz in Hw. exists b'. split; [done|]. split; [by split|done].
Qed.

(** ** Breaking lines *)

(** The line grows while it is at most [maxlen] long. *)
Lemma more_words_ok fuel w q maxlen old len :
  (q + len ≤ length w)%nat → (old ≤ len)%nat → (length w < q + len + fuel)%nat →
  ∃ r, more_words fuel w q maxlen old len = Ok r ∧ (old ≤ r)%nat ∧ (q + r ≤ length w)%nat ∧ (r = old ∨ Z.of_nat r ≤ maxlen).
Proof.
  revert old len. induction fuel as [|fuel IH]; intros old len Hq Hold Hf; [lia|]. cbn [more_words].
  destruct (Z.leb_spec (Z.of_nat len) maxlen); [|exists old; repeat split; (lia || auto)].
  set (len1 := (len + strspn (drop (q + len) w) (lit " "))%nat).
  assert (Hl1 : (q + len1 ≤ length w)%nat).
  { pose proof (strspn_le (drop (q + len) w) (lit " ")) as H'. rewrite length_drop in H'. lia. }
  destruct (char_at_ok w (q + len1) Hl1) as [c ->]. rewrite bind_ret.
  destruct (c =? 10); [exists len; repeat split; (lia || auto)|].
  set (len2 := (len1 + strcspn (drop (q + len1) w) blanks)%nat).
  assert (Hl2 : (q + len2 ≤ length w)%nat).
  { pose proof (strcspn_le (drop (q + len1) w) blanks) as H'. rewrite length_drop in H'. lia. }
  destruct (Nat.eqb_spec len2 len); [exists len; repeat split; (lia || auto)|].
  destruct (IH len len2) as (r & -> & ? & ? & Hr); [lia|lia|lia|]. exists r. repeat split; [lia|lia|].
  right. destruct Hr as [->|]; lia.
Qed.

(** A line takes the words from the first one that is not blank. *)
Lemma consume_words_ok w p maxlen start :
  (p ≤ length w)%nat → w ≠ [] →
  ∃ l prefix start', consume_words w p maxlen start = Ok (l, prefix, start') ∧
  (p + prefix + l ≤ length w)%nat ∧
  Forall (λ c, mem c blanks = true) (take prefix (drop p w)) ∧
  (l = 0%nat → drop (p + prefix) w = []) ∧
  (Z.of_nat l ≤ maxlen ∨ Forall (λ c, mem c (lit " ") = false) (take l (drop (p + prefix) w)) ∨
   start = true ∧ prefix ≠ 0%nat).
Proof.
  intros Hp Hw. unfold consume_words. set (prefix := strspn (drop p w) blanks). set (q := (p + prefix)%nat).
  pose proof (strspn_le (drop p w) blanks) as Hpre. fold prefix in Hpre. rewrite length_drop in Hpre.
  assert (Hq : drop q w = (span (λ c, mem c blanks) (drop p w)).2).
  { unfold q, prefix. rewrite <- strspn_drop, drop_drop. done. }
  assert (Hblank : Forall (λ c, mem c blanks = true) (take prefix (drop p w))).
  { unfold prefix. rewrite strspn_take. apply span_all. }
  assert (Hql : (q ≤ length w)%nat) by (unfold q; lia).
  (* the first word is not empty unless the text ends *)
  assert (Hne : ∀ set, (∀ c, mem c blanks = false → mem c set = false) → strcspn (drop q w) set = 0%nat → drop q w = []).
  { intros set Hset Hz. destruct (drop q w) as [|c r] eqn:E; [done|]. exfalso. symmetry in Hq. apply span_stop in Hq.
    unfold strcspn in Hz. cbn [span] in Hz. rewrite (Hset _ Hq) in Hz. cbn [negb] in Hz. destruct (span _ r). done. }
  assert (Hlast : ∀ l, (q + l ≤ length w)%nat → (l = 0%nat → drop q w = []) → ∃ c, aget w (Z.of_nat (q + l) - 1) = Ok c).
  { intros l Hl Hz. assert (Hpos : (1 ≤ q + l)%nat).
    { destruct l; [|lia]. specialize (Hz eq_refl). apply (f_equal length) in Hz. rewrite length_drop in Hz. cbn in Hz.
      destruct w; [done|cbn in *; lia]. }
    destruct (lookup_lt_is_Some_2 w (q + l - 1)) as [c Hc]; [lia|]. exists c. apply aget_lookup; [lia|].
    by replace (Z.to_nat (Z.of_nat (q + l) - 1)) with (q + l - 1)%nat by lia. }
  destruct (start && negb (prefix =? 0)%nat) eqn:Hlit.
  - rewrite bind_ret. pose proof (strcspn_le (drop q w) [10]) as Hl. rewrite length_drop in Hl.
    assert (Hz : strcspn (drop q w) [10] = 0%nat → drop q w = []).
    { apply Hne. intros c. unfold mem, blanks. cbn. lia. }
    destruct (Hlast (strcspn (drop q w) [10]) ltac:(lia) Hz) as [c ->]. rewrite bind_ret. do 3 eexists. split; [done|].
    split; [lia|]. split; [done|]. split; [done|]. right; right. apply andb_true_iff in Hlit as [-> Hlit].
    split; [done|]. by apply negb_true_iff, Nat.eqb_neq in Hlit.
  - set (len := strcspn (drop q w) (lit " ")). pose proof (strcspn_le (drop q w) (lit " ")) as Hl. fold len in Hl.
    rewrite length_drop in Hl.
    destruct (more_words_ok (length w + 2) w q maxlen len len) as (r & -> & Hr1 & Hr2 & Hr3); [lia|lia|lia|]. rewrite bind_ret.
    assert (Hz : r = 0%nat → drop q w = []).
    { intros ->. apply (Hne (lit " ")); [intros c; change (lit " ") with [32]; unfold mem, blanks; cbn; lia|]. fold len. lia. }
    destruct (Hlast r Hr2 Hz) as [c ->]. rewrite bind_ret. do 3 eexists. split; [done|].
    split; [lia|]. split; [done|]. split; [done|]. destruct Hr3 as [->|]; [right; left|by left].
    unfold len. rewrite strcspn_take. eapply Forall_impl; [apply span_all|]. intros x Hx. by apply negb_true_iff in Hx.
Qed.

(** ** Adding the lines of a description *)
Lemma add_lines_holds fuel desc indent width p off same_line start t b ls :
  desc ≠ [] → (p ≤ length desc)%nat → 0 ≤ indent → lines_of fuel desc p (u32 (width - indent)) start = Ok ls →
  holds t b → fits (t ++ layout indent same_line ls) →
  ∃ b', add_lines fuel b indent width desc p off same_line start =
    Ok (b', last_off indent off ls, match ls with [] => same_line | _ => false end) ∧
  holds (t ++ layout indent same_line ls) b'.
Proof.
  intros Hne Hp Hi. revert p off same_line start t b ls Hp.
  induction fuel as [|fuel IH]; intros p off same_line start t b ls Hp Hls Hh Hf; cbn [lines_of add_lines] in *; [done|].
  destruct (consume_words_ok desc p (u32 (width - indent)) start Hp Hne) as (l & prefix & start' & Hc & Hlen & _).
  rewrite Hc, bind_ret in Hls. rewrite Hc, bind_ret.
  destruct (l =? 0)%nat.
  { injection Hls as <-. cbn [layout] in *. rewrite app_nil_r in *. by exists b. }
  apply bind_Ok in Hls as (ls' & Hls & E). injection E as <-. cbn [layout] in Hf |- *.
  set (line := take l (drop (p + prefix) desc)) in *.
  assert (H1 : ∃ b1, (if same_line then Ok b else add_indent b indent) = Ok b1 ∧
    holds (t ++ if same_line then [] else spaces indent) b1).
  { rewrite app_assoc in Hf. apply fits_app_l in Hf. destruct same_line; [rewrite app_nil_r; by exists b|].
    destruct (add_indent_holds t b indent Hi Hh Hf) as (b1 & ? & ? & _). by exists b1. }
  destruct H1 as (b1 & -> & Hh1). rewrite bind_ret. rewrite !app_assoc in Hf.
  pose proof (fits_app_l _ _ Hf) as Hf2. pose proof (fits_app_l _ _ Hf2) as Hf1.
  destruct (add_str_holds _ b1 line Hh1 Hf1) as (b2 & Hb2 & Hh2 & _). unfold add_str in Hb2. rewrite Hb2, bind_ret.
  destruct (add_str_holds _ b2 [10] Hh2 Hf2) as (b3 & -> & Hh3 & _). rewrite bind_ret.
  destruct (IH (p + prefix + l)%nat (indent + Z.of_nat l) false start' _ b3 ls' ltac:(lia) Hls Hh3 Hf) as (b' & -> & Hh').
  exists b'. rewrite !app_assoc. split; [|done].
  assert (Hoff : last_off indent (indent + Z.of_nat l) ls' = last_off indent off (line :: ls')).
  { unfold last_off. destruct ls' as [|x ls'].
    - cbn [last]. f_equal. unfold zlen, line. rewrite length_take, length_drop. lia.
    - change (last (line :: x :: ls')) with (last (x :: ls')). destruct (last (x :: ls')) eqn:E; [done|].
      by apply last_None in E. }
  rewrite Hoff. by destruct ls'.
Qed.

(** ** The lines of a description *)
Definition nonblank (s : str) : str := filter (λ c, mem c blanks = false) s.

Lemma nonblank_app a b : nonblank (a ++ b) = nonblank a ++ nonblank b.
Proof. apply filter_app. Qed.
Lemma nonblank_blank s : Forall (λ c, mem c blanks = true) s → nonblank s = [].
Proof. intros Hs. apply filter_none. rewrite Forall_forall in Hs. intros c Hc%Hs. congruence. Qed.

(** A line that is not marked as literal. *)
Definition wrapped (maxlen : Z) (l : str) : Prop := zlen l ≤ maxlen ∨ Forall (λ c, mem c (lit " ") = false) l.

Lemma lines_of_ok fuel desc p maxlen start :
  desc ≠ [] → (p ≤ length desc)%nat → (length desc < p + fuel)%nat →
  ∃ ls, lines_of fuel desc p maxlen start = Ok ls ∧ nonblank (concat ls) = nonblank (drop p desc) ∧
  (10 ∉ desc → start = false ∨ (∀ c, desc !! p = Some c → mem c blanks = false) → Forall (wrapped maxlen) ls).
Proof.
  intros Hne. revert p start. induction fuel as [|fuel IH]; intros p start Hp Hf; [lia|]. cbn [lines_of].
  destruct (consume_words_ok desc p maxlen start Hp Hne) as (l & prefix & start' & Hc & Hlen & Hblank & Hend & Hline).
  rewrite Hc, bind_ret. rewrite <- (take_drop prefix (drop p desc)), drop_drop, nonblank_app, (nonblank_blank _ Hblank), app_nil_l.
  destruct (Nat.eqb_spec l 0) as [->|Hl0].
  { exists []. split; [done|]. rewrite (Hend eq_refl). split; [done|]. by intros _ _. }
  destruct (IH (p + prefix + l)%nat start') as (ls & -> & Hw & Hfit); [lia|lia|]. rewrite bind_ret.
  eexists. split; [done|]. cbn [concat]. split.
  { rewrite nonblank_app, Hw. rewrite <- nonblank_app, <- (drop_drop _ l). by rewrite take_drop. }
  intros Hnl Hstart. apply Forall_cons. split.
  - destruct Hline as [Hm|[Hm|[-> Hpre]]]; [left|by right|].
    + unfold zlen. rewrite length_take, length_drop. lia.
    + exfalso. destruct Hstart as [|Hstart]; [done|]. destruct (drop p desc) as [|c r] eqn:Ed.
      { apply (f_equal length) in Ed. rewrite length_drop in Ed. cbn in Ed. lia. }
      destruct prefix as [|prefix]; [done|]. cbn [take] in Hblank. apply Forall_cons in Hblank as [Hb _].
      rewrite (Hstart c) in Hb; [done|]. rewrite <- (Nat.add_0_r p), <- lookup_drop, Ed. done.
  - apply Hfit; [done|]. left. unfold consume_words in Hc. apply bind_Ok in Hc as (o & Ho & Hc). apply bind_Ok in Hc as (c & Hcc & Hc).
    injection Hc as <- <- <-. apply Z.eqb_neq. intros ->. apply Hnl.
    apply aget_Ok in Hcc as [_ Hcc]. by eapply list_elem_of_lookup_2.
Qed.

(** ** One entry *)
Lemma add_default_holds {S : Type} junk b off indent width (show : S → list Z → res (list Z)) s body t x :
  0 ≤ indent → default_text junk s show = Ok x → holds (t ++ body) b → body ≠ [] →
  fits (t ++ with_default indent width body off x) →
  ∃ b', add_default junk b off indent width show s = Ok b' ∧ holds (t ++ with_default indent width body off x) b' ∧
  zlen (text b') < max b'.
Proof.
  intros Hi Hd Hh Hne Hf. unfold default_text in Hd. unfold add_default.
  apply bind_Ok in Hd as (buf & -> & Hd). rewrite bind_ret. apply bind_Ok in Hd as (buf' & -> & Hd).
  rewrite bind_ret, Hd, bind_ret. unfold with_default in *.
  set (pre := if width <? off + zlen (lit " (default: ") + zlen x + zlen (lit ")") then body ++ spaces indent
              else take (length body - 1) body) in *.
  assert (H1 : ∃ b1, (if width <? off + zlen (lit " (default: ") + zlen x + zlen (lit ")") then add_indent b indent
     else Ok (mk_strbuf (take (length (text b) - 1) (text b)) (max b))) = Ok b1 ∧ holds (t ++ pre) b1).
  { rewrite (app_assoc t) in Hf. apply fits_app_l in Hf. unfold pre in *. clear pre. destruct (width <? _).
    - rewrite app_assoc in Hf |- *. destruct (add_indent_holds _ b indent Hi Hh Hf) as (b1 & ? & ? & _). by exists b1.
    - eexists. split; [done|]. destruct Hh as [Ht [Hg Hm]]. split; cbn [text max].
      + rewrite Ht, length_app. assert (1 ≤ length body)%nat by (destruct body; [done|cbn; lia]).
        rewrite take_app. rewrite take_ge by lia. do 2 f_equal. lia.
      + split; [left|done]. destruct Hg as [Hg|[Hg _]].
        * cbn [text max]. unfold zlen in *. rewrite length_take. lia.
        * rewrite Ht in Hg. apply app_eq_nil in Hg as [_ ->]. done. }
  destruct H1 as (b1 & -> & Hh1). rewrite bind_ret. rewrite !app_assoc in Hf. rewrite <- (app_assoc _ (lit ")")) in Hf.
  pose proof (fits_app_l _ _ Hf) as Hf2. pose proof (fits_app_l _ _ Hf2) as Hf1.
  destruct (add_str_holds _ b1 _ Hh1 Hf1) as (b2 & -> & Hh2 & _). rewrite bind_ret.
  destruct (add_str_holds _ b2 _ Hh2 Hf2) as (b3 & -> & Hh3 & _). rewrite bind_ret.
  destruct (add_str_holds _ b3 _ Hh3 Hf) as (b4 & -> & Hh4 & Hlt). exists b4. split; [done|]. split; [|done].
  rewrite !app_assoc. by rewrite <- (app_assoc _ (lit ")")).
Qed.

(** A description with text: an empty one makes consume_words read before it. *)
Definition described {S} (e : entry S) : Prop := ∃ t, o_desc e = Some (Desc t) ∧ t ≠ [].

(** The text before the description. *)
Lemma add_head_holds {S : Type} b t (e : entry S) names indent :
  0 ≤ indent → holds t b →
  let head := names ++ if wants_arg e names then lit " <arg>" else [] in
  let same_line := negb (indent <? zlen head + 2) in
  let rest := if same_line then spaces (indent - zlen head) else [10] in
  fits (t ++ head ++ rest) →
  ∃ b', (b ← add_str b names;
         '(b, off) ← (if wants_arg e names then b ← add_str b (lit " <arg>"); Ok (b, zlen names + zlen (lit " <arg>"))
                      else Ok (b, zlen names));
         (if indent <? off + 2 then b ← add_str b [10]; Ok (b, 0, false)
          else b ← add_indent b (indent - off); Ok (b, indent, true))) =
        Ok (b', if same_line then indent else 0, same_line) ∧ holds (t ++ head ++ rest) b'.
Proof.
  intros Hi Hh head same_line rest Hf. rewrite app_assoc in Hf. pose proof (fits_app_l _ _ Hf) as Hf1.
  assert (Hn : fits (t ++ names)) by (unfold head in Hf1; rewrite app_assoc in Hf1; by eapply fits_app_l).
  destruct (add_str_holds t b names Hh Hn) as (b1 & -> & Hh1 & _). rewrite bind_ret.
  assert (H2 : ∃ b2, (if wants_arg e names then b ← add_str b1 (lit " <arg>"); Ok (b, zlen names + zlen (lit " <arg>"))
    else Ok (b1, zlen names)) = Ok (b2, zlen head) ∧ holds (t ++ head) b2).
  { unfold head in *. destruct (wants_arg e names); [|rewrite app_nil_r; by exists b1]. rewrite app_assoc in Hf1.
    destruct (add_str_holds _ b1 _ Hh1 Hf1) as (b2 & -> & Hh2 & _). rewrite bind_ret. exists b2.
    split; [by rewrite zlen_app|by rewrite app_assoc]. }
  destruct H2 as (b2 & -> & Hh2). rewrite bind_ret. unfold rest, same_line in *. clear rest same_line. rewrite (app_assoc t).
  destruct (Z.ltb_spec indent (zlen head + 2)); cbn [negb] in *.
  - destruct (add_str_holds _ b2 _ Hh2 Hf) as (b3 & -> & Hh3 & _). rewrite bind_ret. by exists b3.
  - pose proof (zlen_nonneg head).
    destruct (add_indent_holds _ b2 (indent - zlen head) ltac:(lia) Hh2 Hf) as (b3 & -> & Hh3 & _).
    rewrite bind_ret. by exists b3.
Qed.

Lemma add_desc_holds {S : Type} junk b indent width (e : entry S) s t r :
  0 ≤ indent → described e → entry_text junk indent width s e = Ok r → holds t b → fits (t ++ r) →
  ∃ b', add_desc junk b indent width e s = Ok b' ∧ holds (t ++ r) b'.
Proof.
  intros Hi (d & Hd & Hdne) Hr Hh Hf. unfold entry_text in Hr. unfold add_desc.
  apply bind_Ok in Hr as (names & -> & Hr). rewrite bind_ret. rewrite Hd, bind_ret in Hr. cbn [desc_text] in Hr.
  apply bind_Ok in Hr as (ls & Hls & Hr).
  set (head := names ++ if wants_arg e names then lit " <arg>" else []) in *.
  set (same_line := negb (indent <? zlen head + 2)) in *.
  set (rest := if same_line then spaces (indent - zlen head) else [10]) in *.
  set (tail := match ls with [] => if same_line then [10] else [] | _ => [] end) in *.
  set (body := head ++ rest ++ layout indent same_line ls ++ tail) in *.
  assert (Hfb : fits (t ++ body)).
  { destruct (o_show e) as [show|]; [|by injection Hr as <-].
    apply bind_Ok in Hr as (x & _ & E). injection E as <-. unfold fits, with_default in *. rewrite !zlen_app in *.
    change (zlen (lit " (default: ")) with 11 in *. pose proof (zlen_nonneg x).
    destruct (width <? _); rewrite ?zlen_app in Hf.
    - pose proof (zlen_nonneg (spaces indent)). pose proof (zlen_nonneg (lit ")")). unfold zlen in *. cbn [length] in *. lia.
    - pose proof (zlen_nonneg (lit ")")). unfold zlen in *. rewrite length_take in Hf. cbn [length] in *. lia. }
  assert (Hfh : fits (t ++ head ++ rest)).
  { unfold body in Hfb. rewrite (app_assoc head), (app_assoc t) in Hfb. by eapply fits_app_l. }
  destruct (add_head_holds b t e names indent Hi Hh Hfh) as (b1 & Hb1 & Hh1).
  fold head same_line rest in Hb1, Hh1.
  assert (Hb : body = (head ++ rest) ++ layout indent same_line ls ++ tail) by (unfold body; by rewrite app_assoc).
  rewrite Hb, (app_assoc t), app_assoc in Hfb. pose proof (fits_app_l _ _ Hfb) as Hfl.
  destruct (add_lines_holds (length d + 1) d indent width 0 (if same_line then indent else 0) same_line true _ b1 ls
    Hdne ltac:(lia) Hi Hls Hh1 Hfl) as (b2 & Hb2 & Hh2).
  (* the three first steps *)
  apply bind_Ok in Hb1 as (b0 & Hb0 & Hb1). rewrite Hb0, bind_ret. apply bind_Ok in Hb1 as ([b0' off0] & Hb0' & Hb1).
  rewrite Hb0', bind_ret, Hb1, bind_ret, Hd, bind_ret. cbn [desc_text]. rewrite Hb2, bind_ret.
  assert (H3 : ∃ b3, (if match ls with [] => same_line | _ => false end then add_str b2 [10] else Ok b2) = Ok b3 ∧
    holds (t ++ body) b3).
  { rewrite Hb, (app_assoc t), app_assoc. unfold tail in *. destruct ls as [|l ls]; [destruct same_line|].
    - destruct (add_str_holds _ b2 _ Hh2 Hfb) as (b3 & ? & ? & _). by exists b3.
    - rewrite app_nil_r. by exists b2.
    - rewrite app_nil_r. by exists b2. }
  destruct H3 as (b3 & -> & Hh3). rewrite bind_ret. destruct (o_show e) as [show|].
  - apply bind_Ok in Hr as (x & Hx & E). injection E as <-.
    destruct (add_default_holds junk b3 (last_off indent (if same_line then indent else 0) ls) indent width show s body t x)
      as (b4 & -> & Hh4 & _); try done; [|by exists b4].
    unfold body, rest. intros E. apply app_eq_nil in E as [Hhd E]. apply app_eq_nil in E as [E _].
    unfold same_line in E. rewrite Hhd in E. destruct (Z.ltb_spec indent (zlen (A := Z) [] + 2)); cbn [negb] in E; [done|].
    apply (f_equal length) in E. unfold spaces, zlen in *. rewrite length_replicate in E. cbn [length] in *. lia.
  - injection Hr as <-. by exists b3.
Qed.

(** ** All the entries *)
Definition shown_entry {S} (e : entry S) : Prop := is_hidden e = true ∨ described e.

Lemma described_visible {S} (e : entry S) : described e → is_hidden e = false.
Proof. intros (t & Hd & _). unfold is_hidden. by rewrite Hd. Qed.

Lemma add_entries_holds {S : Type} junk indent width (s : S) tbl b t r :
  0 ≤ indent → Forall shown_entry tbl → lines_text junk indent width s tbl = Ok r → holds t b → fits (t ++ r) →
  ∃ b', mfold (λ e b,
    if is_hidden e then Ok b else
    if o_type e =? OPT_SUBTABLE then
      d ← match o_desc e with Some d => Ok (desc_text d) | None => Err ENull end;
      b ← add_str b d; add_str b (lit ":" ++ [10])
    else add_desc junk b indent width e s) tbl b = Ok b' ∧ holds (t ++ r) b'.
Proof.
  intros Hi Hok. revert b t r. induction Hok as [|e tbl He Hok IH]; intros b t r Hr Hh Hf; cbn [lines_text mfold] in *.
  { injection Hr as <-. rewrite app_nil_r. by exists b. }
  apply bind_Ok in Hr as (x & Hx & Hr). apply bind_Ok in Hr as (r' & Hr' & E). injection E as <-.
  rewrite app_assoc in Hf. pose proof (fits_app_l _ _ Hf) as Hfx. unfold line_text in Hx.
  assert (H1 : ∃ b1, (if is_hidden e then Ok b else
    if o_type e =? OPT_SUBTABLE then
      d ← match o_desc e with Some d => Ok (desc_text d) | None => Err ENull end;
      b ← add_str b d; add_str b (lit ":" ++ [10])
    else add_desc junk b indent width e s) = Ok b1 ∧ holds (t ++ x) b1).
  { destruct (is_hidden e) eqn:Hhid; [injection Hx as <-; rewrite app_nil_r; by exists b|].
    destruct He as [He|He]; [congruence|]. destruct (o_type e =? OPT_SUBTABLE); [|by apply add_desc_holds].
    destruct He as (d & Hd & _). rewrite Hd, bind_ret in Hx. rewrite Hd, bind_ret. cbn [desc_text] in *. assert (x = d ++ lit ":" ++ [10]) as -> by congruence. clear Hx.
    rewrite app_assoc in Hfx |- *. pose proof (fits_app_l _ _ Hfx) as Hfd.
    destruct (add_str_holds _ b _ Hh Hfd) as (b1 & -> & Hh1 & _). rewrite bind_ret.
    destruct (add_str_holds _ b1 _ Hh1 Hfx) as (b2 & -> & Hh2 & _). by exists b2. }
  destruct H1 as (b1 & -> & Hh1). rewrite bind_ret, app_assoc. by apply IH.
Qed.

Lemma longest_from {S : Type} (tbl : list (entry S)) m : Forall entry_ok tbl → 0 ≤ m →
  ∃ n, mfold (λ e indent,
    if is_hidden e || (o_type e =? OPT_SUBTABLE) then Ok indent else
    names ← names_of e;
    let l := zlen names + if wants_arg e names then zlen (lit " <arg>") else 0 in
    Ok (if indent <? l + 2 then l + 2 else indent)) tbl m = Ok n ∧ 0 ≤ n.
Proof.
  intros Hok. revert m. induction Hok as [|e tbl He Hok IH]; intros m Hm; cbn [mfold]; [by exists m|].
  destruct (is_hidden e || (o_type e =? OPT_SUBTABLE)) eqn:E; [rewrite bind_ret; by apply IH|].
  apply orb_false_iff in E as [_ E]. destruct He as [He|(_ & _ & names & Hn & _)]; [lia|].
  unfold names_of. rewrite Hn, !bind_ret. apply IH. destruct (Z.ltb_spec m (zlen names + (if wants_arg e names then zlen (lit " <arg>") else 0) + 2)); lia.
Qed.

Lemma lines_text_ok {S : Type} junk indent width (s : S) tbl :
  Forall entry_ok tbl → Forall shown_entry tbl →
  (∀ e show, e ∈ tbl → o_show e = Some show → ∃ x, default_text junk s show = Ok x) →
  ∃ r, lines_text junk indent width s tbl = Ok r.
Proof.
  intros Hok Hsh Hdef. induction tbl as [|e tbl IH]; cbn [lines_text]; [by exists []|].
  apply Forall_cons in Hok as [He Hok]. apply Forall_cons in Hsh as [Hse Hsh].
  destruct IH as [r ->]; [done|done|intros; eapply Hdef; [by right|done]|].
  assert (Hx : ∃ x, line_text junk indent width s e = Ok x); [|destruct Hx as [x ->]; rewrite !bind_ret; by eexists].
  unfold line_text. destruct (is_hidden e) eqn:Hhid; [by eexists|]. destruct Hse as [|(d & Hd & Hdne)]; [congruence|].
  destruct (Z.eqb_spec (o_type e) OPT_SUBTABLE); [rewrite Hd, bind_ret; by eexists|].
  destruct He as [He|(_ & _ & names & Hn & _)]; [done|]. unfold entry_text, names_of. rewrite Hn, bind_ret, Hd, bind_ret.
  cbn [desc_text]. destruct (lines_of_ok (length d + 1) d 0 (u32 (width - indent)) true) as (ls & -> & _); [done|lia|lia|].
  rewrite bind_ret. destruct (o_show e) as [show|] eqn:Hshow; [|by eexists].
  destruct (Hdef e show ltac:(left) Hshow) as [x ->]. rewrite bind_ret. by eexists.
Qed.

(** ** Properties *)


(** The lines of a description keep its words.  A non-empty description is broken
    into lines that hold its non-blank characters in order; if it has no newline and
    does not begin with a blank, every line is at most [maxlen] long or one word. *)
Theorem lines_keep_words desc maxlen :
  desc ≠ [] →
  ∃ ls, lines_of (length desc + 1) desc 0 maxlen true = Ok ls ∧ nonblank (concat ls) = nonblank desc ∧
  (10 ∉ desc → mem (head_char desc) blanks = false → Forall (wrapped maxlen) ls).
Proof.
  intros Hne. destruct (lines_of_ok (length desc + 1) desc 0 maxlen true) as (ls & Hls & Hw & Hfit); [done|lia|lia|].
  exists ls. split; [done|]. split; [done|]. intros Hnl Hhd. apply Hfit; [done|]. right. intros c Hc.
  destruct desc; [done|]. by injection Hc as <-.
Qed.

(** An empty description makes opt_usage read the byte before it, and a newline
    behind the first word of a line is not seen: the following words are put on the
    same line, where the documentation promises a new, indented one. *)
Theorem description_edge_cases maxlen start :
  consume_words [] 0 maxlen start = Err EOob ∧
  lines_of 20 (lit "one" ++ [10] ++ lit "two words") 0 40 true = Ok [lit "one" ++ [10] ++ lit "two words"].
Proof. split; [|vm_compute; reflexivity]. by destruct start, maxlen. Qed.
