(* ===== verification/OptEx.v ===== *)
(** * The option library at concrete inputs

    A table with a flag, an integer and a string option, and the properties of the
    option library instantiated with it. *)
From Stdlib Require Import Strings.String.
From S2P Require Import Prelude.
From S2P Require Import Scanf.
From S2P Require Import CString.
From S2P Require Import OptHelpers.
From S2P Require Import OptValues.
From S2P Require Import Opt.
From S2P Require Import OptTable.
From S2P Require Import OptRegister.
From S2P Require Import OptParse.
From S2P Require Import OptParseSpec.
From S2P Require Import OptUsage.
From S2P Require Import OptUsageSpec.
#[local] Open Scope Z_scope.

(** ** A program with three variables *)
Record vars := mk_vars { verbose : bool; size : Z; file : option str; log : list str }.

Definition set_verbose (v : vars) : res (option str * vars) :=
  let '(e, b) := opt_set_bool (verbose v) in Ok (e, mk_vars b (size v) (file v) (log v)).
Definition set_size (arg : str) (v : vars) : res (option str * vars) :=
  '(e, n) ← opt_set_intval_bi arg (size v); Ok (e, mk_vars (verbose v) n (file v) (log v)).
Definition set_file (arg : str) (v : vars) : res (option str * vars) :=
  let '(e, f) := opt_set_charp arg (file v) in Ok (e, mk_vars (verbose v) (size v) f (log v)).
Definition errlog (m : str) (v : vars) : res vars := Ok (mk_vars (verbose v) (size v) (file v) (log v ++ [m])).

Definition opt_v : entry vars :=
  mk_entry (Some (lit "-v|--verbose")) OPT_NOARG (Cb set_verbose) CbArgNull None (UArg None) (Some (Desc (lit "say more"))).
Definition opt_s : entry vars :=
  mk_entry (Some (lit "--size|-s=<n>")) OPT_HASARG CbNull (CbArg set_size) (Some (λ v b, opt_show_intval_bi b (size v)))
    (UArg None) (Some (Desc (lit "the size"))).
Definition opt_f : entry vars :=
  mk_entry (Some (lit "-f|--file")) OPT_HASARG CbNull (CbArg set_file) (Some (λ v b, opt_show_charp b (file v)))
    (UArg None) (Some (Desc (lit "the file to read the rules from"))).
Definition table : list (table_entry vars) := [TOpt opt_v; TOpt opt_s; TOpt opt_f].

Definition st0 : opts vars :=
  mk_opts [set_tlen 4 (heading (Some (Desc (lit "Options")))); opt_v; opt_s; opt_f] 3 2 3 None.
Definition v0 : vars := mk_vars false 2048 (Some (lit "rules")) [].

Lemma st0_registered : opt_register_table table (Some (Desc (lit "Options"))) opt_init = Ok st0.
Proof. reflexivity. Qed.

Lemma st0_ok : table_ok st0.
Proof. apply (register_entry_extends _ opt_init st0 st0_registered), table_ok_empty. Qed.

Lemma set_intval_bi_ok arg old : ∃ r, opt_set_intval_bi arg old = Ok r.
Proof.
  unfold opt_set_intval_bi, set_int_with_suffix. destruct (set_llong_total arg 0 1024 (or_intror eq_refl)) as ([e|] & v & -> & _);
    rewrite bind_ret; [by eexists|]. destruct (negb _); by eexists.
Qed.

Lemma st0_callbacks : Forall callbacks_return (opt_table st0).
Proof.
  repeat (apply Forall_cons; split); [..|constructor]; (split; [by repeat constructor|]); cbn [o_type o_cb o_cb_arg].
  - intros H. by destruct H.
  - intros s. by eexists.
  - intros _ t s. cbn. unfold set_size. destruct (set_intval_bi_ok t (size s)) as [[e n] ->]. by eexists.
  - intros _ t s. by eexists.
Qed.

(** ** The properties *)
Lemma int_opts_typed_witness : ∃ err v, opt_set_intval_si (lit "7k") 5 = Ok (err, v) ∧ INT_MIN ≤ v ≤ INT_MAX.
Proof.
  destruct (int_opts_typed (mk_int_opt INT_MIN INT_MAX INT_MAX opt_set_intval_si opt_show_intval_si)
    ltac:(apply list_elem_of_In; cbn; tauto) (lit "7k") 5 ltac:(by split)) as (err & v & H & Hv & _).
  by exists err, v.
Defined.

Lemma int_opts_back_witness :
  ∃ s, shown (replicate 80 1) (opt_show_uintval (replicate 80 1) 4294967295) s ∧
  read_back (plain opt_set_uintval s 0) INT_MAX 4294967295.
Proof.
  apply (int_opts_back (mk_int_opt 0 UINT_MAX INT_MAX (plain opt_set_uintval) opt_show_uintval) (replicate 80 1) 4294967295 0).
  - apply list_elem_of_In. cbn. tauto.
  - rewrite length_replicate. done.
  - by split.
Defined.

Lemma show_charp_text_witness :
  ∃ buf, opt_show_charp (replicate 80 1 ++ dots) (Some (lit "ab")) = Ok buf ∧ c_str buf = Ok ([34] ++ lit "ab" ++ [34]).
Proof. apply (show_charp_text (replicate 80 1) (lit "ab")); [done|by repeat constructor]. Defined.

Lemma register_sound_witness : table_ok st0 ∧ opt_table opt_init `prefix_of` opt_table st0.
Proof.
  apply (register_sound [] 0 CbNull CbArgNull None None None table (Some (Desc (lit "Options"))) opt_init st0);
    [apply table_ok_empty|right; exact st0_registered].
Defined.

Definition args0 : list str := [lit "prog"; lit "-vs4k"; lit "in"; lit "--file=x"; lit "out"].

Lemma opt_parse_ends_witness :
  ∃ b rest s', opt_parse errlog false args0 st0 v0 = Ok (b, rest, set_argv0 (Some (lit "prog")) st0, s') ∧
  rest `sublist_of` args0.
Proof.
  destruct (opt_parse_ends errlog false st0 args0 v0) as [(b & rest & s' & H & Hs & _) _].
  - exact st0_ok.
  - exact st0_callbacks.
  - intros m s. by eexists.
  - done.
  - by repeat constructor.
  - by exists b, rest, s'.
Defined.

Lemma option_lookup_witness :
  ∃ l, places (opt_table st0) 0 l ∧
  (o ← first_sopt (opt_table st0); short_match (opt_table st0) (walk_fuel (opt_table st0)) 115 o) =
  Ok (List.find (λ pl, 115 =? pchar (opt_table st0) pl) (shorts (opt_table st0) l)).
Proof.
  destruct (option_lookup st0 (lit "--file=x") 115 st0_ok) as (l & Hl & _ & Hs); [by repeat constructor|cbn; lia|].
  by exists l.
Defined.


Lemma lines_keep_words_witness :
  ∃ ls, lines_of 13 (lit "a few words.") 0 4 true = Ok ls ∧ nonblank (concat ls) = nonblank (lit "a few words.") ∧
  (10 ∉ lit "a few words." → mem (head_char (lit "a few words.")) blanks = false → Forall (wrapped 4) ls).
Proof. apply (lines_keep_words (lit "a few words.") 4). done. Defined.
