(* ===== verification/FilterFile.v ===== *)
(** * The rule file (utils.c)

    [ReadFilterFile] reads one rule per ['@'] of the file: two address prefixes,
    two port ranges and a protocol; the priority of a rule is its position.  The
    program stops on a field it cannot read. *)
From S2P Require Import Prelude.
From S2P Require Import Rule.
From S2P Require Import Scanf.
#[local] Open Scope Z_scope.

Definition MAXFILTERS : Z := 65535.

(** [struct FILTER]; the member [act] is never written or read. *)
Record FILTER := mk_filter { cost : Z; dim : list range_t }.
(** [struct FILTSET]: the filters written so far. *)
Record FILTSET := mk_filtset { numFilters : Z; filtArr : list FILTER }.

(** ** Reading the fields *)

(** [for(i = 3; i > 3 - masklit1; i--) ptrange[i] = v]: at most four cells are
    inside the array, so the fifth round at the latest stops. *)
Fixpoint fill_low (fuel : nat) (l : list Z) (i stop v : Z) : res (list Z) :=
  if stop <? i then
    match fuel with
    | O => Err EFuel
    | S fuel => l ← aset l i v; fill_low fuel l (i - 1) stop v
    end
  else Ok l.

(** [p[0]; <<= 8; += p[1]; <<= 8; += p[2]; <<= 8; += p[3]] *)
Definition join_octets (p : list Z) : Z :=
  foldl (λ acc x, u32 (u32 (Z.shiftl acc 8) + x)) (anth p 0) (drop 1 p).

(** The range of an address and the complement of its prefix length. *)
Definition ip_range (trange : list Z) (mask : Z) : res range_t :=
  let masklit1 := mask / 8 in
  let masklit2 := mask mod 8 in
  let masklit3 := u32 (Z.shiftl 1 masklit2) - 1 in
  p ← fill_low 5 trange 3 (3 - masklit1) 0;
  p ← (if negb (masklit2 =? 0)
       then x ← aget p (3 - masklit1); aset p (3 - masklit1) (Z.land x (u32 (Z.lnot masklit3)))
       else Ok p);
  let lo := join_octets p in
  p ← fill_low 5 p 3 (3 - masklit1) 255;
  p ← (if negb (masklit2 =? 0)
       then x ← aget p (3 - masklit1); aset p (3 - masklit1) (Z.lor x masklit3)
       else Ok p);
  Ok (lo, join_octets p).

Definition ip_format : list directive :=
  [DDec; DLit 46; DDec; DLit 46; DDec; DLit 46; DDec].

Definition ReadIPRange (fp : FILE) : res (range_t * FILE) :=
  '(trange, fp) ← fscanf ip_format fp;
  _ ← (if (length trange =? 4)%nat then Ok tt else Err EPanic);
  '(vs, fp) ← fscanf [DChar] fp;
  match vs with
  | [validslash] =>
    '(mask, fp) ← (if negb (validslash =? 47) then Ok (32, fp)
                   else '(vs, fp) ← fscanf [DDec] fp;
                        match vs with [m] => Ok (m, fp) | _ => Err EPanic end);
    r ← ip_range trange (u32 (32 - mask));
    Ok (r, fp)
  | _ => Err EPanic
  end.

Definition ReadPort (fp : FILE) : res (range_t * FILE) :=
  '(vs, fp) ← fscanf [DDec; DSpace; DLit 58; DSpace; DDec] fp;
  match vs with
  | [tfrom; tto] => Ok ((tfrom, tto), fp)
  | _ => Err EPanic
  end.

Definition ReadProtocol (fp : FILE) : res (range_t * FILE) :=
  '(vs, fp) ← fscanf [DSpace; DChar; DChar; DHex; DChar; DChar; DChar; DHex] fp;
  match vs with
  | [_; _; proto; _; _; _; len] => Ok (if len =? 255 then (proto, proto) else (0, 255), fp)
  | _ => Err EPanic
  end.

Definition ReadPri (fp : FILE) : res (Z * FILE) :=
  '(vs, fp) ← fscanf [DDec] fp;
  match vs with [pri] => Ok (pri, fp) | _ => Err EPanic end.

(** ** Reading a rule *)

(** The fields behind the ['@'] ([DIM == 5]) and the copy into the array. *)
Definition read_fields (fp : FILE) (filtset : FILTSET) (cost : Z) : res (FILTSET * FILE) :=
  '(d0, fp) ← ReadIPRange fp;
  '(d1, fp) ← ReadIPRange fp;
  '(d2, fp) ← ReadPort fp;
  '(d3, fp) ← ReadPort fp;
  '(d4, fp) ← ReadProtocol fp;
  if numFilters filtset <? MAXFILTERS
  then Ok (mk_filtset (numFilters filtset + 1) (filtArr filtset ++ [mk_filter cost [d0; d1; d2; d3; d4]]), fp)
  else Err EOob.

(** [validfilter] is what the variable holds when the round starts. *)
Fixpoint ReadFilter_loop (fuel : nat) (validfilter : Z) (fp : FILE) (filtset : FILTSET) (cost : Z)
    : res (FILTSET * FILE * Z) :=
  if negb (feof fp) then
    match fuel with
    | O => Err EFuel
    | S fuel =>
      '(vs, fp) ← fscanf [DChar] fp;
      let validfilter := match vs with [c] => c | _ => validfilter end in
      if negb (validfilter =? 64) then ReadFilter_loop fuel validfilter fp filtset cost
      else '(filtset, fp) ← read_fields fp filtset cost; Ok (filtset, fp, 0)
    end
  else Ok (filtset, fp, -1).

(** Every round reads a character or hits the end of the file. *)
Definition ReadFilter (junk : Z) (fp : FILE) (filtset : FILTSET) (cost : Z) : res (FILTSET * FILE * Z) :=
  ReadFilter_loop (length (rest fp) + 1) junk fp filtset cost.

(** ** Reading the file *)

(** [junk i] is what the uninitialised [validfilter] of the [i]th call holds. *)
Fixpoint LoadFilters_loop (fuel : nat) (junk : Z → Z) (fp : FILE) (filtset : FILTSET) (line : Z)
    : res (FILTSET * FILE) :=
  if negb (feof fp) then
    match fuel with
    | O => Err EFuel
    | S fuel =>
      '(filtset, fp, _) ← ReadFilter (junk line) fp filtset line;
      LoadFilters_loop fuel junk fp filtset (line + 1)
    end
  else Ok (filtset, fp).

Definition LoadFilters (junk : Z → Z) (fp : FILE) : res (FILTSET * FILE) :=
  LoadFilters_loop (length (rest fp) + 1) junk fp (mk_filtset 0 []) 0.

Section file.
Context `{Allocator}.

(** [content] is what [fopen] finds under the file name.  Without memory the
    first write goes through a null pointer. *)
Definition ReadFilterFile (junk : Z → Z) (content : option (list Z)) : res rule_set_t :=
  match content with
  | None => Err EPanic
  | Some bytes =>
    '(filtset, _) ← LoadFilters junk (mk_file bytes false);
    let num := numFilters filtset in
    if alloc_ok (num * sizeof_rule_t) || (num =? 0)
    then Ok (mk_rs num num ((λ f, mk_rule (cost f) (dim f)) <$> filtArr filtset))
    else Err EOob
  end.
End file.
