(* ===== verification/FilterSpec.v ===== *)
(** * Rule files are read back

    A rule file in the format of the sources' examples, printed from a list of
    rules, is read back as those rules in order, the priority of a rule being
    its position; and reading ends for every file. *)
From S2P Require Import Prelude.
From S2P Require Import Rule.
From S2P Require Import Classify.
From S2P Require Import Prefix.
From S2P Require Import Heap.
From S2P Require Import CutInl.
From S2P Require Import CutBitmap.
From S2P Require Import Cut.
From S2P Require Import Tree.
From S2P Require Import BitmapPath.
From S2P Require Import Scanf.
From S2P Require Import CString.
From S2P Require Import FilterFile.
#[local] Open Scope Z_scope.

(** ** Numbers *)
(** The decimal text of a number below [2 ^ 31]. *)
Definition dec (n : Z) : list Z := digits 10 10 n.
(** A byte as two hexadecimal digits. *)
Definition hex2 (n : Z) : list Z := [digit_char (n / 16); digit_char (n mod 16)].

Lemma dec_value n : 0 ≤ n < 2 ^ 31 →
  Forall (λ c, isdigit 10 c = true) (dec n) ∧ dec n ≠ [] ∧ num_val 10 (dec n) = n.
Proof. intros Hn. apply digits_value; [lia| |lia]. change (10 ^ Z.of_nat 10) with 10000000000. lia. Qed.

(** ** Directives on printed text *)
Lemma skip_space_text sp c l :
  Forall (λ c, isspace c = true) sp → isspace c = false →
  skip_space (mk_file (sp ++ c :: l) false) = mk_file (c :: l) false.
Proof.
  intros Hsp Hc. unfold skip_space. cbn [rest]. rewrite span_app; [done|done|]. by intros ?? [= <- <-].
Qed.

Lemma scan_digits base lo hi sp ds c l :
  base = 10 ∨ base = 16 → Forall (λ c, isspace c = true) sp → Forall (λ c, isdigit base c = true) ds → ds ≠ [] →
  isdigit base c = false → (base = 16 → scan_0x (ds ++ c :: l) = ds ++ c :: l) →
  lo ≤ num_val base ds ≤ hi →
  scan_num base lo hi (mk_file (sp ++ ds ++ c :: l) false) =
  Ok (Next (Some (u32 (num_val base ds))) (mk_file (c :: l) false)).
Proof.
  intros Hb Hsp Hds Hne Hc H0x Hv. destruct ds as [|x ds]; [done|].
  assert (Hx : isdigit 16 x = true).
  { apply Forall_cons in Hds as [Hx _]. eapply isdigit_mono; [|exact Hx]. lia. }
  destruct (digit_plain x Hx) as (Hxs & H45 & H43).
  unfold scan_num. cbn [app]. rewrite skip_space_text by done. cbn [rest scan_sign]. rewrite H45, H43.
  assert (Hl : (if base =? 16 then scan_0x (x :: ds ++ c :: l) else x :: ds ++ c :: l) = (x :: ds) ++ c :: l).
  { destruct Hb as [->| ->]; [done|]. cbn [Z.eqb]. by apply H0x. }
  rewrite Hl, span_app; [|done|by intros ?? [= <- <-]].
  rewrite (proj2 (andb_true_iff _ _)); [done|split; lia].
Qed.

Lemma scan_dec sp n c l :
  Forall (λ c, isspace c = true) sp → 0 ≤ n < 2 ^ 31 → isdigit 10 c = false →
  scan_step DDec (mk_file (sp ++ dec n ++ c :: l) false) = Ok (Next (Some n) (mk_file (c :: l) false)).
Proof.
  intros Hsp Hn Hc. destruct (dec_value n Hn) as (Hd & Hne & Hv).
  unfold scan_step. rewrite scan_digits; [|by left|done..|done|lia].
  rewrite Hv. unfold u32. by rewrite Z.mod_small by lia.
Qed.

Lemma scan_hex2 n c l :
  0 ≤ n < 256 → isdigit 16 c = false →
  scan_step DHex (mk_file (hex2 n ++ c :: l) false) = Ok (Next (Some n) (mk_file (c :: l) false)).
Proof.
  intros Hn Hc. pose proof (Z.div_mod n 16 ltac:(lia)). pose proof (Z.mod_pos_bound n 16 ltac:(lia)).
  assert (Hq : 0 ≤ n / 16 < 16) by (split; [apply Z.div_pos; lia|apply Z.div_lt_upper_bound; lia]).
  assert (Hd : ∀ d, 0 ≤ d < 16 → isdigit 16 (digit_char d) = true).
  { intros d Hd. unfold isdigit. rewrite digit_val_char by done. lia. }
  assert (Hv : num_val 16 (hex2 n) = n) by (cbn; rewrite !digit_val_char by lia; lia).
  unfold scan_step. rewrite (scan_digits 16 _ _ [] (hex2 n) c l); rewrite ?Hv.
  - unfold u32. by rewrite Z.mod_small by lia.
  - by right.
  - done.
  - repeat constructor; by apply Hd.
  - done.
  - done.
  - intros _. cbn [hex2 app scan_0x].
    assert (Hnx : (digit_char (n mod 16) =? 120) || (digit_char (n mod 16) =? 88) = false).
    { unfold digit_char. destruct (n mod 16 <? 10); lia. }
    by rewrite Hnx, andb_false_r.
  - lia.
Qed.

(** ** Addresses *)
Definition octets (ip : Z) : list Z := [ip / 2 ^ 24; ip / 2 ^ 16 mod 256; ip / 2 ^ 8 mod 256; ip mod 256].

(** The block of addresses that share the first [32 - k] bits of [ip]. *)
Definition block_of (ip k : Z) : range_t := (ip - ip mod 2 ^ k, ip - ip mod 2 ^ k + 2 ^ k - 1).

(** Clearing and setting the low bits of an octet, as [ReadIPRange] does. *)
Lemma octet_masks x r :
  0 ≤ x < 256 → 0 ≤ r < 8 →
  let m := u32 (Z.shiftl 1 r) - 1 in
  Z.land x (u32 (Z.lnot m)) = x - x mod 2 ^ r ∧ Z.lor (x - x mod 2 ^ r) m = x - x mod 2 ^ r + 2 ^ r - 1.
Proof.
  intros Hx Hr.
  assert (Hall : forallb (λ x, forallb (λ r, (Z.land x (u32 (Z.lnot (u32 (Z.shiftl 1 r) - 1))) =? x - x mod 2 ^ r) &&
    (Z.lor (x - x mod 2 ^ r) (u32 (Z.shiftl 1 r) - 1) =? x - x mod 2 ^ r + 2 ^ r - 1)) (seqZ 0 8)) (seqZ 0 256) = true)
    by (vm_compute; reflexivity).
  pose proof (forallb_seqZ _ _ (forallb_seqZ _ _ Hall x Hx) r Hr) as [H1%Z.eqb_eq H2%Z.eqb_eq]%andb_true_iff. done.
Qed.

Lemma join_octets_spec a b c d :
  0 ≤ a < 256 → 0 ≤ b < 256 → 0 ≤ c < 256 → 0 ≤ d < 256 →
  join_octets [a; b; c; d] = ((a * 256 + b) * 256 + c) * 256 + d.
Proof.
  intros. unfold join_octets. change (anth [a; b; c; d] 0) with a. cbn [drop foldl].
  assert (Hstep : ∀ acc x, 0 ≤ acc < 2 ^ 24 → 0 ≤ x < 256 → u32 (u32 (Z.shiftl acc 8) + x) = acc * 256 + x).
  { intros acc x Hacc Hx. unfold u32. rewrite Z.shiftl_mul_pow2 by lia. change (2 ^ 8) with 256.
    rewrite (Z.mod_small (acc * 256)) by lia. by rewrite Z.mod_small by lia. }
  by rewrite (Hstep a b), (Hstep (a * 256 + b) c), (Hstep ((a * 256 + b) * 256 + c) d) by lia.
Qed.

Lemma fill_low_octets a b c d q v :
  0 ≤ q ≤ 4 → fill_low 5 [a; b; c; d] 3 (3 - q) v = Ok (take (Z.to_nat (4 - q)) [a; b; c; d] ++ replicate (Z.to_nat q) v).
Proof.
  intros Hq. assert (q = 0 ∨ q = 1 ∨ q = 2 ∨ q = 3 ∨ q = 4) as [->|[->|[->|[->| ->]]]] by lia; reflexivity.
Qed.

Lemma update_cell (p : list Z) i (g : Z → Z) :
  0 ≤ i < zlen p → (x ← aget p i; aset p i (g x)) = Ok (<[Z.to_nat i := g (anth p i)]> p).
Proof. intros Hi. rewrite anth_in, bind_ret by done. by apply aset_in. Qed.

(** The octet [3 - q] is cut at bit [r], the [q] octets behind it are replaced. *)
Lemma ip_range_octets a b c d q r :
  0 ≤ a < 256 → 0 ≤ b < 256 → 0 ≤ c < 256 → 0 ≤ d < 256 → 0 ≤ q < 4 → 0 < r < 8 →
  let low v := take (Z.to_nat (3 - q)) [a; b; c; d] ++ v :: replicate (Z.to_nat q) 0 in
  let high v := take (Z.to_nat (3 - q)) [a; b; c; d] ++ v :: replicate (Z.to_nat q) 255 in
  let x := anth [a; b; c; d] (3 - q) in
  ip_range [a; b; c; d] (8 * q + r) =
  Ok (join_octets (low (x - x mod 2 ^ r)), join_octets (high (x - x mod 2 ^ r + 2 ^ r - 1))).
Proof.
  intros Ha Hb Hc Hd Hq Hr low high x. unfold ip_range.
  rewrite <- (Z.div_unique_pos (8 * q + r) 8 q r), <- (Z.mod_unique_pos (8 * q + r) 8 q r) by lia.
  assert (Hx : 0 ≤ x < 256).
  { unfold x. assert (q = 0 ∨ q = 1 ∨ q = 2 ∨ q = 3) as [->|[->|[->| ->]]] by lia; done. }
  destruct (octet_masks x r Hx ltac:(lia)) as [Hland Hlor]. set (m := u32 (Z.shiftl 1 r) - 1) in *.
  rewrite (proj2 (Z.eqb_neq r 0)) by lia. cbn [negb]. rewrite fill_low_octets, bind_ret by lia.
  rewrite (update_cell _ _ (λ x, Z.land x (u32 (Z.lnot m)))), bind_ret.
  2:{ unfold zlen. rewrite length_app, length_replicate, length_take. simpl. lia. }
  set (z := x - x mod 2 ^ r + 2 ^ r - 1) in *. set (y := x - x mod 2 ^ r) in *.
  generalize dependent (u32 (Z.lnot m)). intros nm Hland. clearbody m y z. unfold low, high, x in *. clear low high x.
  assert (q = 0 ∨ q = 1 ∨ q = 2 ∨ q = 3) as [->|[->|[->| ->]]] by lia;
    lazy -[Z.land Z.lor join_octets] in Hland |- *; rewrite Hland, Hlor; reflexivity.
Qed.

Lemma ip_range_whole a b c d q :
  0 ≤ q ≤ 4 → ip_range [a; b; c; d] (8 * q) =
  Ok (join_octets (take (Z.to_nat (4 - q)) [a; b; c; d] ++ replicate (Z.to_nat q) 0),
      join_octets (take (Z.to_nat (4 - q)) [a; b; c; d] ++ replicate (Z.to_nat q) 255)).
Proof.
  intros Hq. assert (q = 0 ∨ q = 1 ∨ q = 2 ∨ q = 3 ∨ q = 4) as [->|[->|[->|[->| ->]]]] by lia; reflexivity.
Qed.

(** The address, in bits: the low [8 * q + r] bits are those of one octet and of
    the octets behind it. *)
Lemma block_split hi x lo q r :
  0 ≤ x < 256 → 0 ≤ q → 0 ≤ r < 8 → 0 ≤ lo < 2 ^ (8 * q) →
  block_of ((hi * 256 + x) * 2 ^ (8 * q) + lo) (8 * q + r) =
  ((hi * 256 + (x - x mod 2 ^ r)) * 2 ^ (8 * q),
   (hi * 256 + (x - x mod 2 ^ r + 2 ^ r - 1)) * 2 ^ (8 * q) + (2 ^ (8 * q) - 1)).
Proof.
  intros Hx Hq Hr Hlo. unfold block_of. rewrite Z.pow_add_r by lia. set (w := 2 ^ (8 * q)) in *.
  assert (Hw : 0 < w) by (apply pow2_pos; lia). assert (Hp : 0 < 2 ^ r) by (apply pow2_pos; lia).
  assert (H8 : 2 ^ r * 2 ^ (8 - r) = 256) by (rewrite <- Z.pow_add_r by lia; by replace (r + (8 - r)) with 8 by lia).
  pose proof (Z.mod_pos_bound x (2 ^ r) ltac:(lia)). pose proof (Z.div_mod x (2 ^ r) ltac:(lia)) as Hdm.
  rewrite <- (Z.mod_unique_pos ((hi * 256 + x) * w + lo) (w * 2 ^ r)
    (hi * 2 ^ (8 - r) + x / 2 ^ r) ((x mod 2 ^ r) * w + lo)).
  - f_equal; lia.
  - nia.
  - rewrite <- H8. rewrite Hdm at 1. lia.
Qed.

Lemma octet_cut x r : 0 ≤ x < 256 → 0 ≤ r < 8 → 0 ≤ x - x mod 2 ^ r ∧ x - x mod 2 ^ r + 2 ^ r - 1 < 256 ∧ 0 < 2 ^ r.
Proof.
  intros Hx Hr.
  assert (Hall : forallb (λ x, forallb (λ r, (0 <=? x - x mod 2 ^ r) && (x - x mod 2 ^ r + 2 ^ r - 1 <? 256) && (0 <? 2 ^ r))
    (seqZ 0 8)) (seqZ 0 256) = true) by (vm_compute; reflexivity).
  pose proof (forallb_seqZ _ _ (forallb_seqZ _ _ Hall x Hx) r Hr) as H. cbv beta in H. lia.
Qed.

(** [ReadIPRange] computes the block of the address. *)
Lemma ip_range_block a b c d k :
  0 ≤ a < 256 → 0 ≤ b < 256 → 0 ≤ c < 256 → 0 ≤ d < 256 → 0 ≤ k ≤ 32 →
  ip_range [a; b; c; d] k = Ok (block_of (((a * 256 + b) * 256 + c) * 256 + d) k).
Proof.
  intros Ha Hb Hc Hd Hk. pose proof (Z.div_mod k 8 ltac:(lia)) as Hdm. pose proof (Z.mod_pos_bound k 8 ltac:(lia)) as Hr.
  set (q := k / 8) in *. set (r := k mod 8) in *. rewrite Hdm. clearbody q r.
  destruct (decide (q = 4)) as [->|Hq4].
  { assert (r = 0) as -> by lia. rewrite Z.add_0_r, ip_range_whole by lia. unfold block_of.
    change (take (Z.to_nat (4 - 4)) [a; b; c; d] ++ replicate (Z.to_nat 4) 0) with [0; 0; 0; 0].
    change (take (Z.to_nat (4 - 4)) [a; b; c; d] ++ replicate (Z.to_nat 4) 255) with [255; 255; 255; 255].
    rewrite !join_octets_spec by lia. change (2 ^ (8 * 4)) with (256 * 256 * 256 * 256).
    rewrite Z.mod_small by lia. do 2 f_equal; lia. }
  assert (Hq : q = 0 ∨ q = 1 ∨ q = 2 ∨ q = 3) by lia.
  assert (Hsplit : ∃ hi x lo, ((a * 256 + b) * 256 + c) * 256 + d = (hi * 256 + x) * 2 ^ (8 * q) + lo ∧
    x = anth [a; b; c; d] (3 - q) ∧ 0 ≤ x < 256 ∧ 0 ≤ lo < 2 ^ (8 * q) ∧
    ∀ v w, 0 ≤ v < 256 → 0 ≤ w < 256 →
      join_octets (take (Z.to_nat (3 - q)) [a; b; c; d] ++ v :: replicate (Z.to_nat q) w) =
      (hi * 256 + v) * 2 ^ (8 * q) + w * ((2 ^ (8 * q) - 1) / 255)).
  { destruct Hq as [->|[->|[->| ->]]].
    - change ((2 ^ (8 * 0) - 1) / 255) with 0. change (2 ^ (8 * 0)) with 1.
      exists ((a * 256 + b) * 256 + c), d, 0. split; [lia|]. split; [done|]. split; [done|]. split; [lia|].
      intros v w Hv Hw. change (join_octets _) with (join_octets [a; b; c; v]). rewrite join_octets_spec by lia. lia.
    - change ((2 ^ (8 * 1) - 1) / 255) with 1. change (2 ^ (8 * 1)) with 256.
      exists (a * 256 + b), c, d. split; [lia|]. split; [done|]. split; [done|]. split; [lia|].
      intros v w Hv Hw. change (join_octets _) with (join_octets [a; b; v; w]). rewrite join_octets_spec by lia. lia.
    - change ((2 ^ (8 * 2) - 1) / 255) with 257. change (2 ^ (8 * 2)) with 65536.
      exists a, b, (c * 256 + d). split; [lia|]. split; [done|]. split; [done|]. split; [lia|].
      intros v w Hv Hw. change (join_octets _) with (join_octets [a; v; w; w]). rewrite join_octets_spec by lia. lia.
    - change ((2 ^ (8 * 3) - 1) / 255) with 65793. change (2 ^ (8 * 3)) with 16777216.
      exists 0, a, ((b * 256 + c) * 256 + d). split; [lia|]. split; [done|]. split; [done|]. split; [lia|].
      intros v w Hv Hw. change (join_octets _) with (join_octets [v; w; w; w]). rewrite join_octets_spec by lia. lia. }
  destruct Hsplit as (hi & x & lo & -> & Hx & Hxb & Hlo & Hjoin).
  rewrite block_split by lia. destruct (octet_cut x r Hxb Hr) as (H1 & H2 & H3).
  assert (H255 : 255 * ((2 ^ (8 * q) - 1) / 255) = 2 ^ (8 * q) - 1) by (destruct Hq as [->|[->|[->| ->]]]; done).
  destruct (decide (r = 0)) as [->|Hr0].
  - change (2 ^ 0) with 1 in *. rewrite Z.mod_1_r in *. rewrite Z.add_0_r, ip_range_whole by lia.
    assert (Htake : take (Z.to_nat (4 - q)) [a; b; c; d] = take (Z.to_nat (3 - q)) [a; b; c; d] ++ [x]).
    { subst x. destruct Hq as [->|[->|[->| ->]]]; reflexivity. }
    rewrite Htake, <- !app_assoc. cbn [app]. rewrite !Hjoin by lia. do 2 f_equal; lia.
  - rewrite ip_range_octets by lia. cbv zeta. rewrite <- Hx, !Hjoin by lia. do 2 f_equal; lia.
Qed.

(** ** The text of a rule *)

(** A line of a rule file: two addresses with their prefix lengths, two port
    ranges, the protocol if it matters, and what follows on the line. *)
Record line := mk_line {
  l_sip : Z * Z; l_dip : Z * Z; l_sport : Z * Z; l_dport : Z * Z; l_proto : option Z; l_tail : list Z }.

Definition ip_text (a : Z * Z) : list Z :=
  dec (a.1 / 2 ^ 24) ++ 46 :: dec (a.1 / 2 ^ 16 mod 256) ++ 46 :: dec (a.1 / 2 ^ 8 mod 256) ++ 46 ::
  dec (a.1 mod 256) ++ 47 :: dec a.2.
Definition port_text (p : Z * Z) : list Z := dec p.1 ++ [32; 58; 32] ++ dec p.2.
Definition proto_text (p : option Z) : list Z :=
  [48; 120] ++ hex2 (default 0 p) ++ [47; 48; 120] ++ hex2 (match p with Some _ => 255 | None => 0 end).

(** The fields are separated by tabulators. *)
Definition fields_text (x : line) : list Z :=
  ip_text (l_sip x) ++ 9 :: ip_text (l_dip x) ++ 9 :: port_text (l_sport x) ++ 9 :: port_text (l_dport x) ++ 9 ::
  proto_text (l_proto x).
Definition line_text (x : line) : list Z := 64 :: fields_text x ++ 9 :: l_tail x.

Definition ip_ok (a : Z * Z) : Prop := 0 ≤ a.1 < 2 ^ 32 ∧ 0 ≤ a.2 ≤ 32.
Definition port_ok (p : Z * Z) : Prop := 0 ≤ p.1 ≤ p.2 ∧ p.2 < 2 ^ 16.
Record line_ok (x : line) : Prop := {
  lo_sip : ip_ok (l_sip x); lo_dip : ip_ok (l_dip x);
  lo_sport : port_ok (l_sport x); lo_dport : port_ok (l_dport x);
  lo_proto : 0 ≤ default 0 (l_proto x) < 256;
  lo_tail : Forall (λ c, c ≠ 64) (l_tail x) }.

(** The ranges a line stands for. *)
Definition line_ranges (x : line) : list range_t :=
  [block_of (l_sip x).1 (32 - (l_sip x).2); block_of (l_dip x).1 (32 - (l_dip x).2); l_sport x; l_dport x;
   match l_proto x with Some p => (p, p) | None => (0, 255) end].

(** ** Reading it back *)
Lemma fscanf_next d fmt f v f1 vs f2 :
  scan_step d f = Ok (Next v f1) → fscanf fmt f1 = Ok (vs, f2) →
  fscanf (d :: fmt) f = Ok (match v with Some x => x :: vs | None => vs end, f2).
Proof. intros H1 H2. cbn [fscanf]. rewrite H1, bind_ret, H2, bind_ret. done. Qed.

Lemma scan_lit c l : scan_step (DLit c) (mk_file (c :: l) false) = Ok (Next None (mk_file l false)).
Proof. cbn. by rewrite Z.eqb_refl. Qed.

Lemma fscanf_char c l e : fscanf [DChar] (mk_file (c :: l) e) = Ok ([c], mk_file l e).
Proof. done. Qed.

Lemma octets_bounds ip :
  0 ≤ ip < 2 ^ 32 →
  0 ≤ ip / 2 ^ 24 < 256 ∧ 0 ≤ ip / 2 ^ 16 mod 256 < 256 ∧ 0 ≤ ip / 2 ^ 8 mod 256 < 256 ∧ 0 ≤ ip mod 256 < 256 ∧
  ((ip / 2 ^ 24 * 256 + ip / 2 ^ 16 mod 256) * 256 + ip / 2 ^ 8 mod 256) * 256 + ip mod 256 = ip.
Proof.
  intros Hip. change (2 ^ 24) with 16777216. change (2 ^ 16) with 65536. change (2 ^ 8) with 256.
  change (2 ^ 32) with 4294967296 in Hip. Z.to_euclidean_division_equations. lia.
Qed.

Lemma read_ip sp a c l :
  Forall (λ c, isspace c = true) sp → ip_ok a → isdigit 10 c = false →
  ReadIPRange (mk_file (sp ++ ip_text a ++ c :: l) false) = Ok (block_of a.1 (32 - a.2), mk_file (c :: l) false).
Proof.
  intros Hsp [Hip Hm] Hc. destruct (octets_bounds a.1 Hip) as (H1 & H2 & H3 & H4 & Hval).
  unfold ReadIPRange, ip_text, ip_format. rewrite <- app_assoc. cbn [app].
  rewrite <- !app_assoc. cbn [app]. rewrite <- !app_assoc. cbn [app]. rewrite <- !app_assoc. cbn [app].
  erewrite (fscanf_next DDec); [|apply scan_dec; [done|lia|done]|].
  2:{ eapply fscanf_next; [apply scan_lit|]. eapply (fscanf_next DDec); [apply (scan_dec []); [done|lia|done]|].
      eapply fscanf_next; [apply scan_lit|]. eapply (fscanf_next DDec); [apply (scan_dec []); [done|lia|done]|].
      eapply fscanf_next; [apply scan_lit|]. eapply (fscanf_next DDec); [apply (scan_dec []); [done|lia|done]|].
      reflexivity. }
  rewrite bind_ret. cbn [length Nat.eqb mbind res_bind]. rewrite fscanf_char, bind_ret.
  cbn [Z.eqb Pos.eqb negb].
  erewrite (fscanf_next DDec); [|apply (scan_dec []); [done|lia|done]|reflexivity].
  cbn [mbind res_bind]. unfold u32. rewrite (Z.mod_small (32 - a.2)) by lia.
  rewrite ip_range_block by lia. by rewrite Hval.
Qed.

Lemma read_port sp p c l :
  Forall (λ c, isspace c = true) sp → port_ok p → isdigit 10 c = false →
  ReadPort (mk_file (sp ++ port_text p ++ c :: l) false) = Ok (p, mk_file (c :: l) false).
Proof.
  intros Hsp [Hp1 Hp2] Hc. unfold ReadPort, port_text. rewrite <- !app_assoc. cbn [app].
  destruct (dec_value p.2 ltac:(lia)) as (Hd & Hne & _). destruct (dec p.2) as [|x ds] eqn:Ed; [done|].
  assert (Hx : isspace x = false).
  { apply Forall_cons in Hd as [Hx _]. by apply digit_plain, (isdigit_mono 10). }
  erewrite (fscanf_next DDec); [|apply scan_dec; [done|lia|done]|].
  2:{ eapply fscanf_next.
      { unfold scan_step. apply f_equal, f_equal. apply (skip_space_text [32] 58); [by repeat constructor|done]. }
      eapply fscanf_next; [apply scan_lit|]. eapply fscanf_next.
      { unfold scan_step. apply f_equal, f_equal. apply (skip_space_text [32] x); [by repeat constructor|done]. }
      eapply (fscanf_next DDec); [|reflexivity].
      pose proof (scan_dec [] p.2 c l) as Hs. rewrite Ed in Hs. apply Hs; [done|lia|done]. }
  cbn [mbind res_bind]. by destruct p.
Qed.

Lemma read_proto sp p c l :
  Forall (λ c, isspace c = true) sp → 0 ≤ default 0 p < 256 → isdigit 16 c = false →
  ReadProtocol (mk_file (sp ++ proto_text p ++ c :: l) false) =
  Ok (match p with Some p => (p, p) | None => (0, 255) end, mk_file (c :: l) false).
Proof.
  intros Hsp Hp Hc. unfold ReadProtocol, proto_text. rewrite <- !app_assoc. cbn [app].
  erewrite (fscanf_next DSpace); [| |].
  2:{ unfold scan_step. apply f_equal, f_equal. by apply skip_space_text. }
  2:{ eapply fscanf_next; [reflexivity|]. eapply fscanf_next; [reflexivity|].
      eapply (fscanf_next DHex); [by apply scan_hex2|].
      eapply fscanf_next; [reflexivity|]. eapply fscanf_next; [reflexivity|]. eapply fscanf_next; [reflexivity|].
      eapply (fscanf_next DHex); [|reflexivity]. apply scan_hex2; [by destruct p|done]. }
  cbn [mbind res_bind]. by destruct p.
Qed.

Lemma read_fields_text x l fs cost :
  line_ok x → numFilters fs < MAXFILTERS →
  read_fields (mk_file (fields_text x ++ 9 :: l) false) fs cost =
  Ok (mk_filtset (numFilters fs + 1) (filtArr fs ++ [mk_filter cost (line_ranges x)]), mk_file (9 :: l) false).
Proof.
  intros [H1 H2 H3 H4 H5 _] Hn. unfold read_fields, fields_text.
  rewrite <- !app_assoc. cbn [app]. rewrite <- !app_assoc. cbn [app]. rewrite <- !app_assoc. cbn [app].
  rewrite <- !app_assoc. cbn [app].
  assert (Htab : Forall (λ c, isspace c = true) [9]) by (by repeat constructor).
  pose proof (λ l, read_ip [] (l_sip x) 9 l ltac:(done) H1 eq_refl) as R1.
  pose proof (λ l, read_ip [9] (l_dip x) 9 l Htab H2 eq_refl) as R2.
  pose proof (λ l, read_port [9] (l_sport x) 9 l Htab H3 eq_refl) as R3.
  pose proof (λ l, read_port [9] (l_dport x) 9 l Htab H4 eq_refl) as R4.
  pose proof (λ l, read_proto [9] (l_proto x) 9 l Htab H5 eq_refl) as R5. cbn [app] in *.
  rewrite R1, bind_ret, R2, bind_ret, R3, bind_ret, R4, bind_ret, R5, bind_ret.
  by rewrite (proj2 (Z.ltb_lt _ _)) by done.
Qed.

(** ** The loops *)

(** Characters before the next ['@'] are skipped. *)
Lemma ReadFilter_skip skip l fuel v fs cost :
  Forall (λ c, c ≠ 64) skip →
  ReadFilter_loop (length skip + fuel) v (mk_file (skip ++ l) false) fs cost =
  ReadFilter_loop fuel (foldl (λ _ c, c) v skip) (mk_file l false) fs cost.
Proof.
  intros Hs. revert v. induction Hs as [|c skip Hc Hs IH]; intros v; [done|].
  cbn [length Nat.add app ReadFilter_loop feof negb]. rewrite fscanf_char, bind_ret.
  rewrite (proj2 (Z.eqb_neq c 64)) by done. cbn [negb]. by rewrite IH.
Qed.

Lemma ReadFilter_line junk skip x l fs cost :
  Forall (λ c, c ≠ 64) skip → line_ok x → numFilters fs < MAXFILTERS →
  ReadFilter junk (mk_file (skip ++ line_text x ++ l) false) fs cost =
  Ok (mk_filtset (numFilters fs + 1) (filtArr fs ++ [mk_filter cost (line_ranges x)]),
      mk_file (9 :: l_tail x ++ l) false, 0).
Proof.
  intros Hs Hx Hn. unfold ReadFilter, line_text. cbn [rest]. rewrite length_app.
  replace (length skip + _ + 1)%nat with (length skip + S (length (fields_text x ++ 9%Z :: l_tail x) + length l + 1))%nat
    by (simpl; rewrite !length_app; simpl; lia).
  rewrite ReadFilter_skip by done. cbn [app ReadFilter_loop feof negb]. rewrite fscanf_char, bind_ret.
  cbn [Z.eqb Pos.eqb negb]. rewrite <- app_assoc. cbn [app]. rewrite read_fields_text by done. done.
Qed.

Lemma ReadFilter_end junk skip fs cost :
  Forall (λ c, c ≠ 64) skip → skip ≠ [] →
  ReadFilter junk (mk_file skip false) fs cost = Ok (fs, mk_file [] true, -1).
Proof.
  intros Hs Hne. unfold ReadFilter. cbn [rest]. rewrite <- (app_nil_r skip) at 2.
  rewrite ReadFilter_skip by done. cbn [ReadFilter_loop feof negb].
  change (fscanf [DChar] (mk_file [] false)) with (Ok ([] : list Z, mk_file [] true)). rewrite bind_ret.
  assert (Hl : foldl (λ _ c, c) junk skip ≠ 64).
  { destruct (@exists_last _ skip Hne) as (s & c & ->). rewrite foldl_app. cbn [foldl].
    apply Forall_app in Hs as [_ Hs]. by apply Forall_cons in Hs as [? _]. }
  by rewrite (proj2 (Z.eqb_neq _ 64)) by done.
Qed.

(** The filters of a list of lines, numbered from [i]. *)
Fixpoint filters_of (i : Z) (ls : list line) : list FILTER :=
  match ls with
  | [] => []
  | x :: ls => mk_filter i (line_ranges x) :: filters_of (i + 1) ls
  end.

Lemma LoadFilters_lines junk ls fuel skip fs i :
  Forall line_ok ls → Forall (λ c, c ≠ 64) skip → skip ≠ [] ∨ ls ≠ [] → (length ls < fuel)%nat →
  numFilters fs + zlen ls ≤ MAXFILTERS →
  LoadFilters_loop fuel junk (mk_file (skip ++ concat (line_text <$> ls)) false) fs i =
  Ok (mk_filtset (numFilters fs + zlen ls) (filtArr fs ++ filters_of i ls), mk_file [] true).
Proof.
  intros Hls. revert fuel skip fs i. induction Hls as [|x ls Hx Hls IH]; intros fuel skip fs i Hs Hne Hf Hn;
    (destruct fuel as [|fuel]; [simpl in Hf; lia|]); cbn [LoadFilters_loop feof negb fmap list_fmap concat].
  - rewrite app_nil_r, ReadFilter_end, bind_ret by (done || naive_solver).
    destruct fuel; cbn [LoadFilters_loop feof negb filters_of];
      rewrite app_nil_r; change (zlen []) with 0; rewrite Z.add_0_r; by destruct fs.
  - assert (Hz : zlen (x :: ls) = zlen ls + 1) by (unfold zlen; simpl; lia). pose proof (zlen_nonneg ls).
    rewrite ReadFilter_line by (done || lia). rewrite bind_ret.
    change (9 :: l_tail x ++ ?k) with ((9 :: l_tail x) ++ k). rewrite IH.
    + cbn [numFilters filtArr filters_of]. rewrite Hz, <- app_assoc. do 3 f_equal. lia.
    + constructor; [done|]. apply Hx.
    + by left.
    + simpl in Hf. lia.
    + cbn [numFilters]. lia.
Qed.

(** ** Termination *)

(** A run that does not end by the bound of a loop. *)
Definition ends {A} (m : res A) : Prop := m ≠ Err EFuel.

Lemma ends_bind {A B} (m : res A) (k : A → res B) : ends m → (∀ a, m = Ok a → ends (k a)) → ends (m ≫= k).
Proof. unfold ends. destruct m; cbn; [|congruence]. auto. Qed.

Lemma aset_ends {A} (l : list A) i x : ends (aset l i x).
Proof. unfold aset. by case_bool_decide. Qed.
Lemma aget_ends {A} (l : list A) i : ends (aget l i).
Proof. unfold aget. case_bool_decide; [|done]. by case_match. Qed.

Lemma fscanf_ends fmt f : ends (fscanf fmt f).
Proof.
  revert f. induction fmt as [|d fmt IH]; intros f; [done|]. cbn [fscanf]. apply ends_bind.
  - assert (Hn : ∀ b lo hi, ends (scan_num b lo hi f)).
    { intros b lo hi. unfold scan_num. destruct (scan_sign _), (span _ _) as [[|? ?] ?]; [done|]. by case_match. }
    destruct d; cbn [scan_step]; try done; destruct (rest f); done.
  - intros [v f'|f'] _; [|done]. apply ends_bind; [done|]. intros [vs f''] _. done.
Qed.

Lemma fill_low_length fuel l i stop v l' : fill_low fuel l i stop v = Ok l' → length l' = length l.
Proof.
  revert l i. induction fuel as [|fuel IH]; intros l i Hf; cbn [fill_low] in Hf; destruct (stop <? i); try by simplify_eq.
  apply bind_Ok in Hf as (l1 & [_ ->]%aset_Ok & Hf). apply IH in Hf. by rewrite length_insert in Hf.
Qed.

Lemma fill_low_ends l stop v : length l = 4%nat → ends (fill_low 5 l 3 stop v).
Proof.
  intros Hl. destruct l as [|a [|b [|c [|d [|]]]]]; try done. unfold ends. cbn [fill_low].
  repeat (match goal with |- context [stop <? ?i] => destruct (stop <? i); [|done] end;
          unfold aset; cbn [length]; case_bool_decide; cbn [mbind res_bind]; try done). lia.
Qed.

Lemma ip_range_ends l mask : length l = 4%nat → ends (ip_range l mask).
Proof.
  intros Hl. unfold ip_range. apply ends_bind; [by apply fill_low_ends|]. intros p1 H1%fill_low_length.
  apply ends_bind.
  { destruct (negb _); [|done]. apply ends_bind; [apply aget_ends|]. intros; apply aset_ends. }
  intros p2 H2. assert (Hl2 : length p2 = 4%nat).
  { destruct (negb _); [|by simplify_eq; congruence]. apply bind_Ok in H2 as (? & _ & [_ ->]%aset_Ok).
    by rewrite length_insert, H1. }
  apply ends_bind; [by apply fill_low_ends|]. intros p3 _. apply ends_bind; [|done].
  destruct (negb _); [|done]. apply ends_bind; [apply aget_ends|]. intros; apply aset_ends.
Qed.

(** The readers of a field: they end, and never put anything back. *)
Definition reader {A} (rd : FILE → res (A * FILE)) : Prop :=
  ∀ f, ends (rd f) ∧ ∀ a f', rd f = Ok (a, f') →
    (length (rest f') ≤ length (rest f))%nat ∧ (feof f = true → feof f' = true).

Lemma ReadIPRange_reader : reader ReadIPRange.
Proof.
  intros f. unfold ReadIPRange. split.
  - apply ends_bind; [apply fscanf_ends|]. intros [tr f1] _. apply ends_bind; [by destruct (_ =? _)%nat|].
    intros [] Ht. destruct (Nat.eqb_spec (length tr) 4) as [Hl|]; [|done]. apply ends_bind; [apply fscanf_ends|].
    intros [[|c [|]] f2] _; try done. apply ends_bind.
    + destruct (negb _); [done|]. apply ends_bind; [apply fscanf_ends|]. intros [[|? [|]] ?] _; done.
    + intros [m f3] _. apply ends_bind; [by apply ip_range_ends|]. done.
  - intros r f'. intros ([tr f1] & H1%fscanf_length & Hr)%bind_Ok. apply bind_Ok in Hr as ([] & _ & Hr).
    apply bind_Ok in Hr as ([vs f2] & H2%fscanf_length & Hr). destruct vs as [|c [|]]; try done.
    apply bind_Ok in Hr as ([m f3] & H3 & Hr). apply bind_Ok in Hr as (r' & _ & Hr). simplify_eq.
    assert (H3' : (length (rest f') ≤ length (rest f2))%nat ∧ (feof f2 = true → feof f' = true)).
    { destruct (negb _); [by simplify_eq|]. apply bind_Ok in H3 as ([vs f4] & H4%fscanf_length & H3).
      destruct vs as [|? [|]]; by simplify_eq. }
    destruct H1, H2, H3'. split; [lia|auto].
Qed.

Lemma ReadPort_reader : reader ReadPort.
Proof.
  intros f. unfold ReadPort. split.
  - apply ends_bind; [apply fscanf_ends|]. intros [[|? [|? [|]]] ?] _; done.
  - intros r f' ([vs f1] & H1%fscanf_length & Hr)%bind_Ok. destruct vs as [|? [|? [|]]]; by simplify_eq.
Qed.

Lemma ReadProtocol_reader : reader ReadProtocol.
Proof.
  intros f. unfold ReadProtocol. split.
  - apply ends_bind; [apply fscanf_ends|]. intros [[|? [|? [|? [|? [|? [|? [|? [|]]]]]]]] ?] _; done.
  - intros r f' ([vs f1] & H1%fscanf_length & Hr)%bind_Ok.
    destruct vs as [|? [|? [|? [|? [|? [|? [|? [|]]]]]]]]; by simplify_eq.
Qed.

Lemma reader_bind {A B} (rd : FILE → res (A * FILE)) (k : A → FILE → res (B * FILE)) :
  reader rd → (∀ a, reader (k a)) → reader (λ f, '(a, f) ← rd f; k a f).
Proof.
  intros Hrd Hk f. destruct (Hrd f) as [He Hl]. split.
  - apply ends_bind; [done|]. intros [a f1] _. apply Hk.
  - intros b f' ([a f1] & H1 & H2)%bind_Ok. apply Hl in H1. apply Hk in H2. destruct H1, H2. split; [lia|auto].
Qed.

Lemma read_fields_reader fs cost : reader (λ f, read_fields f fs cost).
Proof.
  unfold read_fields. apply (reader_bind ReadIPRange); [apply ReadIPRange_reader|]. intros d0.
  apply (reader_bind ReadIPRange); [apply ReadIPRange_reader|]. intros d1.
  apply (reader_bind ReadPort); [apply ReadPort_reader|]. intros d2.
  apply (reader_bind ReadPort); [apply ReadPort_reader|]. intros d3.
  apply (reader_bind ReadProtocol); [apply ReadProtocol_reader|]. intros d4 f.
  destruct (numFilters fs <? MAXFILTERS); split; try done. by intros ?? [= _ <-].
Qed.

(** [ReadFilter] reads at least one character or hits the end. *)
Lemma ReadFilter_loop_ends fuel v f fs cost :
  (length (rest f) < fuel)%nat →
  ends (ReadFilter_loop fuel v f fs cost) ∧
  ∀ fs' f' r, ReadFilter_loop fuel v f fs cost = Ok (fs', f', r) → feof f = false →
    (length (rest f') < length (rest f))%nat ∨ feof f' = true.
Proof.
  revert v f. induction fuel as [|fuel IH]; intros v f Hf; [lia|]. cbn [ReadFilter_loop].
  destruct f as [[|c l] e]; destruct e; cbn [feof negb]; try (split; [done|]; congruence).
  - change (fscanf [DChar] (mk_file [] false)) with (Ok ([] : list Z, mk_file [] true)). rewrite bind_ret.
    destruct (v =? 64); cbn [negb].
    + destruct (read_fields_reader fs cost (mk_file [] true)) as [He Hl]. split.
      * apply ends_bind; [done|]. by intros [? ?] _.
      * intros fs' f' r ([fs1 f1] & H1 & H2)%bind_Ok _. by simplify_eq.
    + destruct fuel; cbn [ReadFilter_loop feof negb]; (split; [done|]; intros ??? [= <- <- <-] _; by right).
  - rewrite fscanf_char, bind_ret. destruct (c =? 64); cbn [negb].
    + destruct (read_fields_reader fs cost (mk_file l false)) as [He Hl]. split.
      * apply ends_bind; [done|]. by intros [? ?] _.
      * intros fs' f' r ([fs1 f1] & H1 & H2)%bind_Ok _. simplify_eq. left. apply Hl in H1 as [H1 _]. simpl in *. lia.
    + destruct (IH c (mk_file l false)) as [He Hl]; [simpl in *; lia|]. split; [done|].
      intros fs' f' r Hr _. apply Hl in Hr as [Hr|Hr]; [|by right|done]. left. simpl in *. lia.
Qed.

Lemma LoadFilters_loop_ends fuel junk f fs i :
  (length (rest f) < fuel)%nat → ends (LoadFilters_loop fuel junk f fs i).
Proof.
  revert f fs i. induction fuel as [|fuel IH]; intros f fs i Hf; [lia|]. cbn [LoadFilters_loop].
  destruct (feof f) eqn:Ee; cbn [negb]; [done|]. unfold ReadFilter.
  destruct (ReadFilter_loop_ends (length (rest f) + 1) (junk i) f fs i) as [He Hl]; [lia|].
  apply ends_bind; [done|]. intros [[fs1 f1] r] H1. destruct (Hl _ _ _ H1 Ee) as [Hlt|Heof].
  - apply IH. lia.
  - destruct fuel; cbn [LoadFilters_loop]; rewrite Heof; done.
Qed.

(** ** The rule set of a file *)
Lemma rules_of_filters i ls :
  (λ f, mk_rule (cost f) (dim f)) <$> filters_of i ls = imap (λ j x, mk_rule (i + Z.of_nat j) (line_ranges x)) ls.
Proof.
  revert i. induction ls as [|x ls IH]; intros i; [done|]. cbn [filters_of fmap list_fmap]. rewrite imap_cons, IH.
  cbn [cost dim]. rewrite Z.add_0_r. f_equal. apply imap_ext. intros j y _. simpl. f_equal. lia.
Qed.

Lemma block_of_ok ip k bits : 0 ≤ ip < 2 ^ bits → 0 ≤ k ≤ bits → range_ok bits (block_of ip k).
Proof.
  intros Hip Hk. pose proof (pow2_pos k ltac:(lia)). pose proof (pow2_pos (bits - k) ltac:(lia)).
  pose proof (Z.div_mod ip (2 ^ k) ltac:(lia)) as Hdm. pose proof (Z.mod_pos_bound ip (2 ^ k) ltac:(lia)).
  assert (Hb : 2 ^ bits = 2 ^ k * 2 ^ (bits - k)) by (rewrite <- Z.pow_add_r by lia; f_equal; lia).
  assert (0 ≤ ip / 2 ^ k) by (apply Z.div_pos; lia).
  assert (ip / 2 ^ k < 2 ^ (bits - k)) by (apply Z.div_lt_upper_bound; lia).
  unfold block_of. split; cbn [fst snd]; nia.
Qed.

Lemma line_rule_ok i x : line_ok x → 0 ≤ i < UINT32_MAX → rule_ok (mk_rule i (line_ranges x)).
Proof.
  intros [[? ?] [? ?] [? ?] [? ?] Hp _] Hi. split; [done|]. split; [|done]. intros d Hd. unfold DIM in Hd.
  assert (d = 0 ∨ d = 1 ∨ d = 2 ∨ d = 3 ∨ d = 4) as [->|[->|[->|[->| ->]]]] by lia.
  - apply (block_of_ok _ _ 32); lia.
  - apply (block_of_ok _ _ 32); lia.
  - change (range_ok 16 (l_sport x)). split; lia.
  - change (range_ok 16 (l_dport x)). split; lia.
  - change (range_ok 8 (match l_proto x with Some p => (p, p) | None => (0, 255) end)).
    destruct (l_proto x); simpl in Hp; split; cbn [fst snd]; lia.
Qed.

Lemma ReadFilterFile_lines `{Allocator} junk ls :
  (∀ n, alloc_ok n = true) → ls ≠ [] → Forall line_ok ls → zlen ls ≤ MAXFILTERS →
  ReadFilterFile junk (Some (concat (line_text <$> ls))) =
  Ok (mk_rs (zlen ls) (zlen ls) (imap (λ i x, mk_rule (Z.of_nat i) (line_ranges x)) ls)).
Proof.
  intros Ha Hne Hls Hn. unfold ReadFilterFile, LoadFilters. cbn [rest].
  assert (Hlen : (length ls < length (concat (line_text <$> ls)) + 1)%nat).
  { clear -ls. induction ls as [|x ls IH]; [simpl; lia|]. cbn [fmap list_fmap concat]. rewrite length_app.
    assert (1 ≤ length (line_text x))%nat by (unfold line_text; simpl; lia). cbn [length]. lia. }
  pose proof (LoadFilters_lines junk ls _ [] (mk_filtset 0 []) 0 Hls (Forall_nil_2 _) (or_intror Hne) Hlen) as Hl.
  cbn [app numFilters filtArr] in Hl. rewrite Hl by done. rewrite bind_ret. cbn [numFilters filtArr app].
  rewrite Ha, rules_of_filters. done.
Qed.

Lemma lines_set_ok ls :
  Forall line_ok ls → zlen ls ≤ MAXFILTERS →
  set_ok (mk_rs (zlen ls) (zlen ls) (imap (λ i x, mk_rule (Z.of_nat i) (line_ranges x)) ls)).
Proof.
  intros Hls Hn. split.
  - split; cbn [num cap ruleList]; [unfold zlen; lia|]. unfold zlen. by rewrite length_imap.
  - unfold live. cbn [num ruleList]. rewrite take_ge by (rewrite length_imap; unfold zlen; lia).
    apply Forall_lookup. intros i r Hr. apply list_lookup_imap_Some in Hr as (x & Hx & ->).
    apply line_rule_ok; [by eapply Forall_lookup_1|]. apply lookup_lt_Some in Hx.
    unfold zlen, MAXFILTERS, UINT32_MAX in *. lia.
Qed.

(** ** Properties *)

(** C7: round trip.  A rule file printed from a non-empty list of at most 65535
    rules is read back as exactly these rules in order, the priority of a rule
    being its line number; the rule set is well formed: every range is inside its
    field and the rules fill the array. *)
Theorem rule_file_roundtrip `{Allocator} junk ls :
  (∀ n, alloc_ok n = true) → ls ≠ [] → Forall line_ok ls → zlen ls ≤ MAXFILTERS →
  ∃ rs, ReadFilterFile junk (Some (concat (line_text <$> ls))) = Ok rs ∧ set_ok rs ∧
    live rs = imap (λ i x, mk_rule (Z.of_nat i) (line_ranges x)) ls.
Proof.
  intros Ha Hne Hls Hn. eexists. split; [by apply ReadFilterFile_lines|]. split; [by apply lines_set_ok|].
  unfold live. cbn [num ruleList]. apply take_ge. rewrite length_imap. unfold zlen. lia.
Qed.

(** Reading ends.  For every content of the file, [LoadFilters] stops within the
    number of its bytes: every call of [ReadFilter] reads a character or hits the
    end of the file. *)
Theorem LoadFilters_ends junk bytes : LoadFilters junk (mk_file bytes false) ≠ Err EFuel.
Proof. apply LoadFilters_loop_ends. cbn [rest]. lia. Qed.

(** On an empty file the outcome depends on an uninitialised variable: the
    rule set is empty, unless the stack happens to hold an ['@'], where the
    program stops with an error. *)
Theorem empty_file_depends_on_stack `{Allocator} junk :
  ReadFilterFile junk (Some []) = if junk 0 =? 64 then Err EPanic else Ok (mk_rs 0 0 []).
Proof.
  unfold ReadFilterFile, LoadFilters. cbn. destruct (junk 0 =? 64); [done|]. cbn. by rewrite orb_true_r.
Qed.

(** The line [@10.0.0.0/8  192.168.1.7/32  0 : 1023  80 : 80  0x06/0xFF  ] and a rule
    for everything. *)
Definition sample_lines : list line :=
  [mk_line (167772160, 8) (3232235783, 32) (0, 1023) (80, 80) (Some 6) [10];
   mk_line (0, 0) (0, 0) (0, 65535) (0, 65535) None [10]].

Lemma sample_lines_ok : Forall line_ok sample_lines.
Proof.
  repeat constructor; unfold ip_ok, port_ok; simpl; lia.
Qed.

Lemma rule_file_roundtrip_witness :
  ∃ rs, @ReadFilterFile (λ _, true) (λ _, 0) (Some (concat (line_text <$> sample_lines))) = Ok rs ∧ set_ok rs ∧
    live rs = [mk_rule 0 [(167772160, 184549375); (3232235783, 3232235783); (0, 1023); (80, 80); (6, 6)];
               mk_rule 1 [(0, 4294967295); (0, 4294967295); (0, 65535); (0, 65535); (0, 255)]].
Proof.
  destruct (@rule_file_roundtrip (λ _, true) (λ _, 0) sample_lines) as (rs & H1 & H2 & H3).
  - reflexivity.
  - discriminate.
  - exact sample_lines_ok.
  - discriminate.
  - exists rs. split; [exact H1|]. split; [exact H2|]. rewrite H3. vm_compute. reflexivity.
Defined.
