(* ===== verification/MainProg.v ===== *)
(** * The test driver (main.c)

    [main] takes the name of the rule file from its command line, reads the file,
    copies the rules to the root, cuts the tree, counts and copies it, and compares,
    for packets sampled from every rule, the answer of the tree with that of the
    linear search. *)
From Stdlib Require Import Strings.String.
From S2P Require Import Prelude.
From S2P Require Import Rule.
From S2P Require Import Classify.
From S2P Require Import Prefix.
From S2P Require Import Heap.
From S2P Require Import CutInl.
From S2P Require Import Push.
From S2P Require Import CutBitmap.
From S2P Require Import Darray.
From S2P Require Import Cut.
From S2P Require Import Compact.
From S2P Require Import Tree.
From S2P Require Import TraverseSpec.
From S2P Require Import LoadRanges.
From S2P Require Import CutSpec.
From S2P Require Import CutProps.
From S2P Require Import Scanf.
From S2P Require Import CString.
From S2P Require Import Opt.
From S2P Require Import OptTable.
From S2P Require Import OptParse.
From S2P Require Import OptParseSpec.
From S2P Require Import FilterFile.
From S2P Require Import FilterSpec.
#[local] Open Scope Z_scope.

(** ** Sampling *)

(** The packet [j] of a rule: [rand] gives the values of [rand()] for it, one for
    every dimension. *)
Definition sample_flow (r : rule_t) (rand : Z → Z) : flow :=
  mk_flow ((λ k, u32 (rand k mod ((rng r k).2 - (rng r k).1 + 1) + (rng r k).1)) <$> seqZ 0 DIM).

(** [rand i] is the value of the [i]th call of [rand()]. *)
Definition sample_rules (rand : Z → Z) (ruleset : rule_set_t) (samples_cnt : Z) : list flow :=
  concat (imap (λ i r, (λ j, sample_flow r (λ k, rand ((Z.of_nat i * samples_cnt + j) * DIM + k)))
                         <$> seqZ 0 samples_cnt) (live ruleset)).

(** The reports [error sample testing, pri %d lpri %d rule %d i %d]. *)
Definition sample_testing (rand : Z → Z) (root : cnode) (ruleset : rule_set_t) : res (list (Z * Z * Z * Z)) :=
  let f := sample_rules rand ruleset 100 in
  mfor 0 (num ruleset * 100) (λ i reports,
    fi ← aget f i;
    lpri ← lsearch ruleset fi;
    pri ← search root fi;
    Ok (if negb (pri =? lpri) then reports ++ [(pri, lpri, i / 100, i)] else reports)) [].

(** [search] from a cell of the compact array: its children are those of the original
    tree, or room in the array that holds no nodes. *)
Definition search_cell (c : cell) (f : flow) : res Z :=
  match c_child_ptr c with None => search (c_node c) f | Some _ => Err EOob end.

(** The searches that are timed; the clock and the printed speed are left out. *)
Definition sample_perf (rand : Z → Z) (croot : cell) (ruleset : rule_set_t) : res unit :=
  let f := sample_rules rand ruleset 100 in
  mfor 0 (num ruleset * 100) (λ i _, fi ← aget f i; _ ← search_cell croot fi; Ok tt) tt.

(** ** The program *)
Section main.
Context `{Allocator}.

(** [main] from the rule file on: the counters and the differences it prints.
    [rule_set_copy] into the zeroed root may fail, and its result is not looked
    at. *)
Definition main_run (fuel : nat) (stack : Z → Z) (junk : cut_aux) (rand : Z → Z) (content : option (list Z))
    : res (ctree_info * list (Z * Z * Z * Z)) :=
  ruleset ← ReadFilterFile stack content;
  let root := with_ruleset zero_cnode (rule_set_copy (mk_rs 0 0 []) ruleset).1 in
  root ← cut fuel junk root;
  info ← get_tree_info root;
  ct ← compact root;
  croot ← darray_item ct 0;
  reports ← sample_testing rand root ruleset;
  (* the second call of sample_rules goes on with the random numbers *)
  _ ← sample_perf (λ i, rand (num ruleset * 100 * DIM + i)) croot ruleset;
  Ok (info, reports).

(** ** The command line *)

(** [filename], and what is printed on the way. *)
Record main_vars := mk_vars { filename : option str; printed : str }.

Definition rule_file (optarg : str) (v : main_vars) : res (option str * main_vars) :=
  Ok (None, mk_vars (Some optarg) (printed v ++ lit "filename: " ++ optarg ++ [10])).

(** The second [vprintf] only prints a newline. *)
Definition err_printf (msg : str) (v : main_vars) : res main_vars :=
  Ok (mk_vars (filename v) (printed v ++ msg ++ [10])).

Definition main_opts : res (opts main_vars) :=
  _opt_register (lit "-f") OPT_HASARG CbNull (CbArg rule_file) None None (Some (Desc [])) opt_init.

(** [main]: [files] is the content of the files that can be opened. *)
Definition main (fuel : nat) (stack : Z → Z) (junk : cut_aux) (rand : Z → Z) (posixly_correct : bool)
    (files : str → option (list Z)) (argv : list str) : res (ctree_info * list (Z * Z * Z * Z)) :=
  st ← main_opts;
  '(ret, _, _, v) ← opt_parse err_printf posixly_correct argv st (mk_vars None []);
  when negb ret throw EExit (-1) [];
  match filename v with
  | None => Err (EExit (-1) [])
  | Some name => main_run fuel stack junk rand (files name)
  end.
End main.

(** ** Sampled packets match their rule *)
Lemma sample_flow_key r rand d :
  rule_ok r → 0 ≤ d < DIM →
  (rng r d).1 ≤ anth (key (sample_flow r rand)) d ≤ (rng r d).2 ∧ anth (key (sample_flow r rand)) d < 2 ^ bits_of d.
Proof.
  intros (_ & Hr & _) Hd. destruct (Hr d Hd) as [Hlo Hhi].
  assert (Hk : anth (key (sample_flow r rand)) d = u32 (rand d mod ((rng r d).2 - (rng r d).1 + 1) + (rng r d).1)).
  { unfold anth, sample_flow. cbn [key]. apply list_lookup_total_correct.
    rewrite list_lookup_fmap, lookup_seqZ_lt by (unfold DIM in *; lia). cbn [fmap option_fmap option_map].
    by rewrite Z.add_0_l, Z2Nat.id by lia. }
  rewrite Hk. pose proof (Z.mod_pos_bound (rand d) ((rng r d).2 - (rng r d).1 + 1) ltac:(lia)).
  assert (2 ^ bits_of d ≤ 2 ^ 32) by (destruct (bits_of_cases d Hd) as [->|[->| ->]]; lia).
  unfold u32. rewrite Z.mod_small by lia. lia.
Qed.

Lemma sample_flow_matches r rand : rule_ok r → flow_ok (sample_flow r rand) ∧ matches (sample_flow r rand) r.
Proof.
  intros Hr. split; [split; [done|]|].
  - intros d Hd. pose proof (sample_flow_key r rand d Hr Hd). destruct Hr as (_ & Hr & _). destruct (Hr d Hd). lia.
  - intros d Hd. by apply sample_flow_key.
Qed.

Lemma sample_rules_elem rand rs cnt f :
  set_ok rs → f ∈ sample_rules rand rs cnt → ∃ r, r ∈ live rs ∧ flow_ok f ∧ matches f r.
Proof.
  intros [_ Hr] Hf. unfold sample_rules in Hf.
  apply list_elem_of_In, in_concat in Hf as (l & Hl%list_elem_of_In & Hf%list_elem_of_In).
  apply list_elem_of_lookup in Hl as [i Hl]. apply list_lookup_imap_Some in Hl as (r & Hri & ->).
  apply list_elem_of_fmap in Hf as (j & -> & _). exists r.
  assert (Hin : r ∈ live rs) by (by eapply list_elem_of_lookup_2). split; [done|].
  apply sample_flow_matches. rewrite Forall_forall in Hr. auto.
Qed.

Lemma sample_rules_length rand rs cnt : 0 ≤ cnt → rs_ok rs → zlen (sample_rules rand rs cnt) = num rs * cnt.
Proof.
  intros Hc Hok. rewrite <- (live_length rs Hok). unfold sample_rules, zlen.
  generalize (λ i j r, sample_flow r (λ k, rand ((Z.of_nat i * cnt + j) * DIM + k))). intros g.
  cut (∀ (l : list rule_t) (g : nat → Z → rule_t → flow),
    Z.of_nat (length (concat (imap (λ i r, (λ j, g i j r) <$> seqZ 0 cnt) l))) = Z.of_nat (length l) * cnt); [auto|].
  clear g. induction l as [|r l IH]; intros g; [done|]. rewrite imap_cons. cbn [concat]. rewrite length_app, length_fmap, length_seqZ.
  specialize (IH (λ i, g (S i))). unfold compose. rewrite Nat2Z.inj_add, IH. cbn [length]. lia.
Qed.

(** Every sample is there, and matches a rule. *)
Lemma sample_get rand rs i : set_ok rs → 0 ≤ i < num rs * 100 →
  ∃ f r, aget (sample_rules rand rs 100) i = Ok f ∧ r ∈ live rs ∧ flow_ok f ∧ matches f r.
Proof.
  intros Hok Hi. pose proof (sample_rules_length rand rs 100 ltac:(lia) (proj1 Hok)) as Hlen.
  destruct (lookup_lt_is_Some_2 (sample_rules rand rs 100) (Z.to_nat i)) as [f Hf]; [unfold zlen in Hlen; lia|].
  destruct (sample_rules_elem rand rs 100 f Hok) as (r & Hr & Hfl & Hm); [by eapply list_elem_of_lookup_2|].
  exists f, r. split; [by apply aget_lookup; [lia|]|done].
Qed.

(** A tree that agrees with the linear search where a rule matches passes. *)
Lemma sample_testing_clean rand root rs :
  set_ok rs → (∀ f r, flow_ok f → r ∈ live rs → matches f r → search root f = lsearch rs f) →
  sample_testing rand root rs = Ok [].
Proof.
  intros Hok Hagree. unfold sample_testing, mfor.
  destruct (mfold_inv (λ (_ : list Z) (reports : list (Z * Z * Z * Z)), reports = []) (λ i reports,
    fi ← aget (sample_rules rand rs 100) i; lpri ← lsearch rs fi; pri ← search root fi;
    Ok (if negb (pri =? lpri) then reports ++ [(pri, lpri, i / 100, i)] else reports))
    (seqZ 0 (num rs * 100 - 0)) []) as (reports & -> & ->); [done| |done].
  intros pre i reports -> [rest Hrest]. destruct (seqZ_split _ _ _ _ _ Hrest) as [_ Hi].
  destruct (sample_get rand rs i Hok ltac:(lia)) as (f & r & Hf & Hr & Hfl & Hm). rewrite Hf, bind_ret.
  rewrite (Hagree f r) by done. rewrite (lsearch_spec rs f (proj1 Hok)), !bind_ret, Z.eqb_refl. eauto.
Qed.

Lemma sample_perf_ok rand root rs :
  set_ok rs → (∀ f r, flow_ok f → r ∈ live rs → matches f r → search root f = lsearch rs f) →
  sample_perf rand (mk_cell root None) rs = Ok tt.
Proof.
  intros Hok Hagree. unfold sample_perf, mfor.
  destruct (mfold_inv (λ (_ : list Z) (_ : unit), True) (λ i _,
    fi ← aget (sample_rules rand rs 100) i; _ ← search_cell (mk_cell root None) fi; Ok tt)
    (seqZ 0 (num rs * 100 - 0)) tt) as ([] & -> & _); [done| |done].
  intros pre i [] _ [rest Hrest]. destruct (seqZ_split _ _ _ _ _ Hrest) as [_ Hi].
  destruct (sample_get rand rs i Hok ltac:(lia)) as (f & r & Hf & Hr & Hfl & Hm).
  rewrite Hf, bind_ret. unfold search_cell. cbn [c_child_ptr c_node]. rewrite (Hagree f r) by done.
  rewrite (lsearch_spec rs f (proj1 Hok)), bind_ret. eauto.
Qed.

(** ** The command line of main *)
Definition f_entry : entry main_vars :=
  mk_entry (Some (lit "-f")) OPT_HASARG CbNull (CbArg rule_file) None (UArg None) (Some (Desc [])).

Lemma main_opts_ok : main_opts = Ok (mk_opts [f_entry] 1 1 0 None).
Proof. vm_compute. reflexivity. Qed.

(** What main's command line means: the file name of the last [-f], if every
    argument that begins with a dash is one; [None] for a command line that is
    refused. *)
Fixpoint main_args (args : list str) (name : option str) : option (option str) :=
  match args with
  | [] => Some name
  | a :: args =>
    if negb (head_char a =? 45) then main_args args name
    else if str_eqb a (lit "--") then Some name
    else match a with
         | _ :: c :: x =>
           if c =? 102 then
             match x with
             | [] => match args with [] => None | y :: args => main_args args (Some y) end
             | _ => main_args args (Some x)
             end
           else None
         | _ => None
         end
  end.

Section command_line.
Context (v : main_vars).

(** The first option is where the arguments before it are none. *)
Lemma find_first prog pre a post :
  Forall (λ x, ¬ dashed x) pre → dashed a →
  find_arg (length (prog :: pre ++ a :: post)) (prog :: pre ++ a :: post) 1 = Ok (1 + length pre)%nat.
Proof.
  intros Hpre Ha. set (argv := prog :: pre ++ a :: post).
  assert (Hlen : length argv = (2 + length pre + length post)%nat).
  { unfold argv. cbn [length]. rewrite length_app. cbn [length]. lia. }
  assert (Hat : argv !! (1 + length pre)%nat = Some a) by (unfold argv; cbn; by apply list_lookup_middle).
  destruct (find_arg_spec (length argv) argv 1) as (j & -> & Hj & Hbefore & Hdash); [lia|lia|]. f_equal.
  destruct (decide (j = 1 + length pre)%nat); [done|]. exfalso. destruct (decide (j < 1 + length pre)%nat).
  - destruct j as [|j]; [lia|]. destruct (lookup_lt_is_Some_2 pre j) as [x Hx]; [lia|].
    apply (Forall_lookup_1 _ _ _ _ Hpre Hx), Hdash. change ((pre ++ a :: post) !! j = Some x). by rewrite lookup_app_l by lia.
  - by apply (Hbefore (1 + length pre)%nat a); [lia|done|].
Qed.

(** The option is found among the short ones. *)
Lemma find_f (x : str) :
  (o ← first_sopt [f_entry]; c ← char_at (45 :: 102 :: x) (0 + 1); r ← short_match [f_entry] (walk_fuel [f_entry]) c o;
   Ok (match r with
       | Some (i, p, _) => (Some ((i, p - 1, 2)%nat, None : option optarg_ptr), (0 + 1)%nat)
       | None => (None, 0%nat)
       end)) = Ok (Some ((0, 0, 2)%nat, None), 1%nat).
Proof. reflexivity. Qed.

(** Its argument is the rest of the argument, or else the next one. *)
Lemma run_f argv k (x : str) prog :
  argv !! 0%nat = Some prog → (k < length argv)%nat → no_null x →
  run_option err_printf [f_entry] argv k (45 :: 102 :: x) 0 (0, 0, 2)%nat None 1 v =
  match x with
  | [] => match argv !! (k + 1)%nat with
          | Some name => Ok (inr (None, Some NextArg, 1%nat, mk_vars (Some name) (printed v ++ lit "filename: " ++ name ++ [10])))
          | None => Ok (inl (mk_parsed (-1) argv 1 (mk_vars (filename v) (printed v ++
              (prog ++ lit ": " ++ lit "-f" ++ lit ": " ++ lit "requires an argument") ++ [10]))))
          end
  | _ => Ok (inr (None, Some (InArg 2), 0%nat, mk_vars (Some x) (printed v ++ lit "filename: " ++ x ++ [10])))
  end.
Proof.
  intros H0 Hk Hx. unfold run_option. rewrite (arg_at_Some _ _ _ H0), bind_ret.
  change (nget [f_entry] 0) with (Ok f_entry). rewrite bind_ret. change (names_of f_entry) with (Ok (lit "-f")). rewrite bind_ret.
  change (Z.land (o_type f_entry) (Z.lnot OPT_EARLY) =? OPT_NOARG) with false.
  change (Z.land (o_type f_entry) OPT_EARLY =? 0) with true. cbv beta iota zeta.
  change (if (1 =? 0)%nat then Ok 0 else char_at (45 :: 102 :: x) (1 + 1)) with (char_at (45 :: 102 :: x) 2).
  destruct x as [|c x].
  - change (char_at [45; 102] 2) with (Ok 0). rewrite bind_ret. cbn [Z.eqb negb]. rewrite (arg_at_le argv (k + 1)), bind_ret by lia.
    destruct (argv !! (k + 1)%nat) as [name|] eqn:Hn; rewrite bind_ret; [|reflexivity].
    unfold optarg_text. rewrite (arg_at_Some _ _ _ Hn), !bind_ret. reflexivity.
  - change (char_at (45 :: 102 :: c :: x) 2) with (Ok c). rewrite bind_ret.
    apply Forall_cons in Hx as [-> _]. cbn [negb]. rewrite bind_ret. reflexivity.
Qed.

(** The rest of a step, once the first option [a] is known. *)
Definition at_option (argv : list str) (k : nat) (a : str) : res (parsed main_vars) :=
  when str_eqb a (lit "--") return mk_parsed 0 (consume_option argv k) 0 v;
  if bool_decide (a !! 1%nat = Some 102) then
    r ← run_option err_printf [f_entry] argv k a 0 (0, 0, 2)%nat None 1 v;
    match r with
    | inl p => Ok p
    | inr (problem, optarg, offset, s) => finish_option err_printf [f_entry] argv k a (0, 0, 2)%nat problem optarg offset s
    end
  else parse_err err_printf argv 0 v (head argv) a (length a) (lit "unrecognized option").

Lemma parse_one_at prog pre a post :
  let argv := prog :: pre ++ a :: post in
  Forall (λ x, ¬ dashed x) pre → dashed a → no_null a →
  parse_one err_printf false [f_entry] argv 0 0 v = at_option argv (1 + length pre) a.
Proof.
  intros argv Hpre Ha Hnn. unfold parse_one. pose proof (find_first prog pre a post Hpre Ha) as Hfind.
  fold argv in Hfind. rewrite Hfind, bind_ret.
  assert (Hat : argv !! (1 + length pre)%nat = Some a) by (unfold argv; cbn; by apply list_lookup_middle).
  rewrite (arg_at_Some _ _ _ Hat), bind_ret. unfold dashed in Ha. rewrite (proj2 (Z.eqb_eq _ _) Ha). cbn [negb].
  unfold at_option. destruct (str_eqb a (lit "--")) eqn:Hdd; [done|]. rewrite (arg_at_Some argv 0 prog eq_refl), bind_ret.
  destruct a as [|c0 [|c1 x]]; [done|by cbn in Ha; subst c0|]. cbn [head_char] in Ha. subst c0.
  change (char_at (45 :: c1 :: x) 1) with (Ok c1). rewrite bind_ret. destruct (Z.eqb_spec c1 45) as [->|Hc1]; [reflexivity|].
  destruct (Z.eqb_spec c1 102) as [->|Hc2]; [by rewrite find_f, bind_ret|].
  assert (Hs : short_match [f_entry] (walk_fuel [f_entry]) c1 (Some (0, 1, 1)%nat) = Ok None).
  { change (walk_fuel [f_entry]) with 5%nat. cbn [short_match].
    change (place_char [f_entry] (0, 1, 1)%nat) with (Ok 102). rewrite bind_ret, (proj2 (Z.eqb_neq _ _) Hc2). reflexivity. }
  change (first_sopt [f_entry]) with (Ok (Some (0, 1, 1)%nat)). rewrite bind_ret.
  change (char_at (45 :: c1 :: x) (0 + 1)) with (Ok c1). rewrite bind_ret, Hs, !bind_ret.
  rewrite bool_decide_false; [done|]. by intros [= ->].
Qed.
End command_line.

Lemma main_args_skip pre args name : Forall (λ x, ¬ dashed x) pre → main_args (pre ++ args) name = main_args args name.
Proof.
  induction 1 as [|a pre Ha Hpre IH]; [done|]. cbn [app main_args]. unfold dashed in Ha.
  by rewrite (proj2 (Z.eqb_neq _ _) Ha).
Qed.

(** Either no argument is an option, or there is a first one. *)
Lemma first_dashed (args : list str) :
  Forall (λ x, ¬ dashed x) args ∨ ∃ pre a post, args = pre ++ a :: post ∧ Forall (λ x, ¬ dashed x) pre ∧ dashed a.
Proof.
  induction args as [|a args IH]; [by left|]. destruct (decide (head_char a = 45)) as [Ha|Ha].
  - right. by exists [], a, args.
  - destruct IH as [IH|(pre & b & post & -> & Hpre & Hb)]; [left; by constructor|].
    right. exists (a :: pre), b, post. split; [done|]. split; [by constructor|done].
Qed.

Lemma delete_at (prog : str) pre a post : delete (1 + length pre)%nat (prog :: pre ++ a :: post) = prog :: pre ++ post.
Proof. cbn. f_equal. change (delete (length pre) (pre ++ a :: post) = pre ++ post). by rewrite delete_middle. Qed.

Lemma next_arg (prog : str) pre a post : (prog :: pre ++ a :: post) !! (1 + length pre + 1)%nat = head post.
Proof.
  change ((pre ++ [a] ++ post) !! (length pre + 1)%nat = head post).
  rewrite app_assoc, lookup_app_r, length_app by (rewrite length_app; cbn; lia). cbn [length].
  rewrite Nat.sub_diag. by destruct post.
Qed.

(** The loop of opt_parse agrees with [main_args]. *)
Definition agrees (r : parsed main_vars) (o : option (option str)) : Prop :=
  match o with
  | Some name => p_ret r = 0 ∧ filename (p_state r) = name
  | None => p_ret r = -1
  end.

Lemma parse_loop_main fuel prog pre args v :
  Forall (λ x, ¬ dashed x) pre → Forall no_null args → (length args < fuel)%nat →
  ∃ r, parse_loop err_printf false [f_entry] fuel (prog :: pre ++ args) 0 0 v = Ok r ∧ agrees r (main_args args (filename v)).
Proof.
  revert pre args v. induction fuel as [|fuel IH]; intros pre args v Hpre Hnn Hf; [lia|]. cbn [parse_loop].
  destruct (first_dashed args) as [Hnone|(pre2 & a & post & -> & Hpre2 & Ha)].
  - rewrite <- (app_nil_r args), main_args_skip by done. set (argv := prog :: pre ++ args ++ []).
    assert (Hargv : Forall (λ x, ¬ dashed x) (pre ++ args ++ [])) by (rewrite app_nil_r; by apply Forall_app).
    unfold parse_one.
    destruct (find_arg_spec (length argv) argv 1) as (j & -> & Hj & _ & Hd); [unfold argv; cbn; lia|lia|].
    rewrite bind_ret, (arg_at_le argv j), bind_ret by lia. destruct (argv !! j) as [x|] eqn:Hx.
    + exfalso. destruct j as [|j]; [lia|]. apply (Forall_lookup_1 _ _ _ _ Hargv Hx). by apply Hd.
    + rewrite bind_ret. cbn [p_ret Z.eqb]. eexists. split; [done|]. done.
  - rewrite (app_assoc pre), main_args_skip by done.
    assert (Hpre' : Forall (λ x, ¬ dashed x) (pre ++ pre2)) by (by apply Forall_app).
    apply Forall_app in Hnn as [_ [Hna Hnp]%Forall_cons]. rewrite length_app in Hf. cbn [length] in Hf.
    rewrite (parse_one_at v prog (pre ++ pre2) a post Hpre' Ha Hna). set (argv := prog :: (pre ++ pre2) ++ a :: post).
    assert (Hk : (1 + length (pre ++ pre2) < length argv)%nat) by (unfold argv; cbn [length]; rewrite (length_app _ (a :: post)); cbn [length]; lia).
    unfold at_option. cbn [main_args]. unfold dashed in Ha. rewrite (proj2 (Z.eqb_eq _ _) Ha). cbn [negb].
    destruct (str_eqb a (lit "--")); [rewrite bind_ret; by eexists|].
    destruct a as [|c0 [|c x]]; [done|cbn in Ha; subst c0; by eexists|]. cbn in Ha. subst c0.
    change ((45 :: c :: x) !! 1%nat) with (Some c).
    destruct (Z.eqb_spec c 102) as [->|Hc]; [|rewrite bool_decide_false by congruence; by eexists].
    rewrite bool_decide_true by done.
    apply Forall_cons in Hna as [_ [_ Hnx]%Forall_cons].
    rewrite (run_f v argv _ x prog eq_refl Hk Hnx). destruct x as [|c x].
    + pose proof (next_arg prog (pre ++ pre2) [45; 102] post) as Hnext. fold argv in Hnext. rewrite Hnext. clear Hnext. destruct post as [|y post]; cbn [head]; rewrite bind_ret; [by eexists|].
      unfold finish_option. change (if (1 =? 0)%nat then Ok 1 else char_at [45; 102] (1 + 1)) with (Ok 0). rewrite bind_ret.
      cbn [Z.eqb Nat.eqb]. rewrite bind_ret. cbn [p_ret p_argv p_offset p_state Z.eqb Pos.eqb]. unfold consume_option, argv.
      rewrite !delete_at. apply (IH (pre ++ pre2)); [done|by apply Forall_cons in Hnp as [_ Hnp]|cbn [length] in Hf; lia].
    + rewrite bind_ret. unfold finish_option. cbn [Nat.eqb]. rewrite bind_ret. cbn [Z.eqb Nat.eqb]. rewrite bind_ret.
      cbn [p_ret p_argv p_offset p_state Z.eqb Pos.eqb]. unfold consume_option, argv. rewrite delete_at.
      apply (IH (pre ++ pre2)); [done|done|lia].
Qed.

(** ** Properties *)

(** the packets [sample_rules] makes for a rule are well-formed packets that the
    rule matches, whatever [rand()] returns, and there are [samples_cnt] of them
    for every rule. *)
Theorem sample_rules_match rand rs cnt :
  set_ok rs → 0 ≤ cnt →
  zlen (sample_rules rand rs cnt) = num rs * cnt ∧
  ∀ f, f ∈ sample_rules rand rs cnt → ∃ r, r ∈ live rs ∧ flow_ok f ∧ matches f r.
Proof.
  intros Hok Hc. split; [by apply sample_rules_length; [|apply Hok]|]. intros f. by apply sample_rules_elem.
Qed.

(** From the rule file to the end of the sample test. *)
Lemma main_run_clean `{AllocTotal} fuel stack junk rand ls tree :
  ls ≠ [] → Forall line_ok ls → zlen ls ≤ MAXFILTERS → aux_shape junk →
  let rules := imap (λ i x, mk_rule (Z.of_nat i) (line_ranges x)) ls in
  cut_checked fuel junk (with_ruleset zero_cnode (mk_rs (zlen ls) (zlen ls) rules)) = Ok tree →
  compactable tree →
  ∃ info, get_tree_info tree = Ok info ∧
    main_run fuel stack junk rand (Some (concat (line_text <$> ls))) = Ok (info, []).
Proof.
  intros Hne Hls Hn Hj rules Hc Hct. unfold main_run.
  rewrite (ReadFilterFile_lines stack ls alloc_total Hne Hls Hn), bind_ret.
  pose proof (lines_set_ok ls Hls Hn) as Hok. fold rules in Hok |- *. set (rs := mk_rs (zlen ls) (zlen ls) rules) in *.
  assert (Hlive : live rs = rules).
  { unfold live, rs. cbn [num ruleList]. apply take_ge. unfold rules. rewrite length_imap. unfold zlen. lia. }
  assert (Hcopy : (rule_set_copy (mk_rs 0 0 []) rs).1 = rs).
  { unfold rule_set_copy. rewrite alloc_total. cbn [fst]. by rewrite Hlive. }
  assert (Hpos : 0 < num rs < 2 ^ 30).
  { cbn [num rs]. unfold zlen, MAXFILTERS in *. destruct ls; [done|]. simpl in *. lia. }
  destruct (cut_answers fuel junk rs tree Hok Hpos Hj Hc) as [Hcut Hans].
  destruct (cut_good fuel junk rs tree Hok Hpos Hj Hc) as [_ [Hshaped _]].
  destruct (tree_info tree Hshaped) as (info & Hinfo & _). exists info. split; [done|].
  rewrite Hcopy, Hcut, bind_ret, Hinfo, bind_ret.
  assert (Hagree : ∀ f r, flow_ok f → r ∈ live rs → matches f r → search tree f = lsearch rs f).
  { intros f r Hf Hr Hm. by eapply (proj1 (Hans f Hf)). }
  destruct (compact_Ok tree Hshaped Hct) as (arr & Hcomp & _). rewrite Hcomp, bind_ret.
  rewrite (compact_first tree arr Hcomp), bind_ret, sample_testing_clean, bind_ret by done.
  by rewrite sample_perf_ok.
Qed.

Lemma argv_fuel_length argv : (length argv < argv_fuel argv)%nat.
Proof. induction argv as [|a argv IH]; unfold argv_fuel in *; cbn in *; lia. Qed.

Lemma main_parses `{Allocator} fuel stack junk rand files prog args :
  Forall no_null args →
  main fuel stack junk rand false files (prog :: args) =
  match main_args args None with
  | Some (Some name) => main_run fuel stack junk rand (files name)
  | _ => Err (EExit (-1) [])
  end.
Proof.
  intros Hnn. unfold main. rewrite main_opts_ok, bind_ret. unfold opt_parse. rewrite (arg_at_Some (prog :: args) 0 prog eq_refl), bind_ret.
  cbn [opt_table set_argv0]. pose proof (argv_fuel_length (prog :: args)) as Hf. cbn [length] in Hf.
  destruct (parse_loop_main (argv_fuel (prog :: args)) prog [] args (mk_vars None []) ltac:(constructor) Hnn ltac:(lia)) as (r & Hr & Ha).
  cbn [app] in Hr. rewrite Hr, !bind_ret. unfold agrees in Ha. cbn [filename] in Ha. destruct (main_args args None) as [name|].
  - destruct Ha as [-> ->]. cbn [Z.eqb negb]. by destruct name.
  - by rewrite Ha.
Qed.


(** The command line of main.  With [POSIXLY_CORRECT] unset, main runs on the file of
    the last [-f name] or [-fname] among its arguments; it exits with status -1 when
    there is none, when [-f] is the last argument, or when another option is met. *)
Theorem main_command_line `{Allocator} fuel stack junk rand files prog args :
  Forall no_null args →
  main fuel stack junk rand false files (prog :: args) =
  match main_args args None with
  | Some (Some name) => main_run fuel stack junk rand (files name)
  | _ => Err (EExit (-1) [])
  end.
Proof. apply main_parses. Qed.

(** ** The properties at a concrete file *)
Definition lines17 : list line :=
  (λ i, mk_line (i, 32) (7, 32) (80, 80) (443, 443) (Some 6) [10]) <$> seqZ 0 17.

Lemma lines17_ok : Forall line_ok lines17.
Proof.
  apply Forall_fmap, Forall_forall. intros i Hi%elem_of_seqZ.
  split; unfold ip_ok, port_ok; simpl; try lia. by repeat constructor.
Qed.

Section witnesses.
Import Ex.

Lemma sample_rules_match_witness :
  zlen (sample_rules (λ i, i * i) rules17 2) = 34 ∧
  ∀ f, f ∈ sample_rules (λ i, i * i) rules17 2 → ∃ r, r ∈ live rules17 ∧ flow_ok f ∧ matches f r.
Proof. apply (sample_rules_match (λ i, i * i) rules17 2); [exact rules17_ok|discriminate]. Defined.

Definition files17 : str → option (list Z) :=
  λ name, if str_eqb name (lit "fw17") then Some (concat (line_text <$> lines17)) else None.

Lemma main_command_line_witness :
  main 3 (λ _, 0) junk (λ i, i) false files17 (lit "cut" :: [lit "-f"]) = Err (EExit (-1) []).
Proof. apply (main_command_line 3 (λ _, 0) junk (λ i, i) files17 (lit "cut") [lit "-f"]). by repeat constructor. Defined.

End witnesses.
