(* ===== verification/Utf8.v ===== *)
(** * UTF-8, UTF-16 surrogates and hexadecimal escapes (ccan/json/json.c)

    The Unicode helpers of the JSON library.  A pointer into a string that ends
    with a null is the list of the bytes from there on, the null included: to read
    behind the null is [EOob]. *)
From Stdlib Require Import Strings.String.
From S2P Require Import Prelude.
From S2P Require Import Scanf.
From S2P Require Import CString.
#[local] Open Scope Z_scope.

Abbreviation ptr := (list Z).

(** [*s] and [*s++] *)
Definition deref (s : ptr) : res Z := match s with [] => Err EOob | c :: _ => Ok c end.
Definition getc (s : ptr) : res (Z * ptr) := match s with [] => Err EOob | c :: s => Ok (c, s) end.

(** A step that may return false: the function then returns false. *)
Definition attempt {A B} (m : res (option A)) (k : A → res (option B)) : res (option B) :=
  o ← m; match o with None => Ok None | Some a => k a end.
Notation "'if_ok' x ':=' m ; k" := (attempt m (λ x, k))
  (at level 200, x name, m at level 100, k at level 200, right associativity,
   format "'if_ok'  x  ':='  m ; '//' k") : c_scope.

(** ** The code *)

(** [((unsigned char)*s++ & 0xC0) != 0x80] *)
Definition not_cont (c : Z) : bool := negb (Z.land c 0xC0 =? 0x80).

Definition utf8_validate_cz (s : ptr) : res Z :=
  '(c, s) ← getc s;
  when c <=? 0x7F return 1;
  when c <=? 0xC1 return 0;
  if c <=? 0xDF then
    '(d, s) ← getc s;
    when not_cont d return 0;
    Ok 2
  else if c <=? 0xEF then
    d ← deref s;
    when (c =? 0xE0) && (d <? 0xA0) return 0;
    when (c =? 0xED) && (0x9F <? d) return 0;
    '(d, s) ← getc s;
    when not_cont d return 0;
    '(d, s) ← getc s;
    when not_cont d return 0;
    Ok 3
  else if c <=? 0xF4 then
    d ← deref s;
    when (c =? 0xF0) && (d <? 0x90) return 0;
    when (c =? 0xF4) && (0x8F <? d) return 0;
    '(d, s) ← getc s;
    when not_cont d return 0;
    '(d, s) ← getc s;
    when not_cont d return 0;
    '(d, s) ← getc s;
    when not_cont d return 0;
    Ok 4
  else Ok 0.

(** The loop ends at the null; a character is at least one byte long. *)
Fixpoint utf8_validate_loop (fuel : nat) (s : ptr) : res bool :=
  match fuel with
  | O => Err EFuel
  | S fuel =>
    c ← deref s;
    when c =? 0 return true;
    len ← utf8_validate_cz s;
    when len =? 0 return false;
    utf8_validate_loop fuel (drop (Z.to_nat len) s)
  end.
Definition utf8_validate (s : ptr) : res bool := utf8_validate_loop (length s) s.

(** The code point and the number of bytes read. *)
Definition utf8_read_char (s : ptr) : res (Z * Z) :=
  v ← utf8_validate_cz s;
  _ ← assert_ (negb (v =? 0));
  c0 ← aget s 0;
  if c0 <=? 0x7F then Ok (c0, 1)
  else if c0 <=? 0xDF then
    c1 ← aget s 1;
    Ok (Z.lor (Z.shiftl (Z.land c0 0x1F) 6) (Z.land c1 0x3F), 2)
  else if c0 <=? 0xEF then
    c1 ← aget s 1; c2 ← aget s 2;
    Ok (Z.lor (Z.lor (Z.shiftl (Z.land c0 0xF) 12) (Z.shiftl (Z.land c1 0x3F) 6)) (Z.land c2 0x3F), 3)
  else
    c1 ← aget s 1; c2 ← aget s 2; c3 ← aget s 3;
    Ok (Z.lor (Z.lor (Z.lor (Z.shiftl (Z.land c0 0x7) 18) (Z.shiftl (Z.land c1 0x3F) 12))
                     (Z.shiftl (Z.land c2 0x3F) 6)) (Z.land c3 0x3F), 4).

(** The bytes written; their number is what the function returns. *)
Definition utf8_write_char (unicode : Z) : res (list Z) :=
  _ ← assert_ ((unicode <=? 0x10FFFF) && negb ((0xD800 <=? unicode) && (unicode <=? 0xDFFF)));
  Ok (if unicode <=? 0x7F then [u8 unicode]
      else if unicode <=? 0x7FF then
        [u8 (Z.lor 0xC0 (Z.shiftr unicode 6)); u8 (Z.lor 0x80 (Z.land unicode 0x3F))]
      else if unicode <=? 0xFFFF then
        [u8 (Z.lor 0xE0 (Z.shiftr unicode 12)); u8 (Z.lor 0x80 (Z.land (Z.shiftr unicode 6) 0x3F));
         u8 (Z.lor 0x80 (Z.land unicode 0x3F))]
      else
        [u8 (Z.lor 0xF0 (Z.shiftr unicode 18)); u8 (Z.lor 0x80 (Z.land (Z.shiftr unicode 12) 0x3F));
         u8 (Z.lor 0x80 (Z.land (Z.shiftr unicode 6) 0x3F)); u8 (Z.lor 0x80 (Z.land unicode 0x3F))]).

Definition from_surrogate_pair (uc lc : Z) : option Z :=
  if (0xD800 <=? uc) && (uc <=? 0xDBFF) && (0xDC00 <=? lc) && (lc <=? 0xDFFF)
  then Some (0x10000 + Z.lor (Z.shiftl (Z.land uc 0x3FF) 10) (Z.land lc 0x3FF)) else None.

Definition to_surrogate_pair (unicode : Z) : res (Z * Z) :=
  _ ← assert_ ((0x10000 <=? unicode) && (unicode <=? 0x10FFFF));
  let n := u32 (unicode - 0x10000) in
  Ok (u16 (Z.lor (Z.land (Z.shiftr n 10) 0x3FF) 0xD800), u16 (Z.lor (Z.land n 0x3FF) 0xDC00)).

(** The value of a hexadecimal digit. *)
Definition hex_digit (c : Z) : option Z :=
  if (48 <=? c) && (c <=? 57) then Some (c - 48)
  else if (65 <=? c) && (c <=? 70) then Some (c - 65 + 10)
  else if (97 <=? c) && (c <=? 102) then Some (c - 97 + 10)
  else None.

(** The loop over the four characters; [i] counts those that are left. *)
Fixpoint parse_hex_loop (i : nat) (s : ptr) (ret : Z) : res (option (Z * ptr)) :=
  match i with
  | O => Ok (Some (ret, s))
  | S i =>
    '(c, s) ← getc s;
    match hex_digit c with
    | None => Ok None
    | Some tmp => parse_hex_loop i s (u16 (u16 (Z.shiftl ret 4) + tmp))
    end
  end.
Definition parse_hex16 (s : ptr) : res (option (Z * ptr)) := parse_hex_loop 4 s 0.

Definition write_hex16 (val : Z) : res (list Z) :=
  let hex := lit "0123456789ABCDEF" in
  a ← aget hex (Z.land (Z.shiftr val 12) 0xF);
  b ← aget hex (Z.land (Z.shiftr val 8) 0xF);
  c ← aget hex (Z.land (Z.shiftr val 4) 0xF);
  d ← aget hex (Z.land val 0xF);
  Ok [a; b; c; d].

(** ** The encoding *)

(** The code points that may be encoded, and the bytes that encode them (RFC 3629). *)
Definition scalar (u : Z) : Prop := 0 ≤ u ≤ 0x10FFFF ∧ ¬ (0xD800 ≤ u ≤ 0xDFFF).

Definition cont (x : Z) : Z := 0x80 + x mod 64.
Definition utf8 (u : Z) : list Z :=
  if u <=? 0x7F then [u]
  else if u <=? 0x7FF then [0xC0 + u / 64; cont u]
  else if u <=? 0xFFFF then [0xE0 + u / 4096; cont (u / 64); cont u]
  else [0xF0 + u / 262144; cont (u / 4096); cont (u / 64); cont u].

Definition byte_ok (c : Z) : Prop := 0 ≤ c < 256.
#[global] Instance byte_ok_dec c : Decision (byte_ok c).
Proof. unfold byte_ok. apply _. Defined.

(** ** Terminated strings *)
Definition zterm (s : ptr) : Prop := ∃ t, s = t ++ [0].
Definition cstr (t : str) : ptr := t ++ [0].

Lemma zterm_cstr t : zterm (cstr t).
Proof. by exists t. Qed.

Lemma zterm_cons s : zterm s → ∃ c s', s = c :: s' ∧ (c ≠ 0 → zterm s').
Proof.
  intros [[|c t] ->]; [by exists 0, []|]. exists c, (t ++ [0]). split; [done|]. intros _. by exists t.
Qed.

(** What lies behind a prefix without a null ends with a null too. *)
Lemma zterm_app t s : zterm (t ++ s) → no_null t → zterm s.
Proof.
  induction t as [|c t IH]; [done|]. intros Hz Hn. apply Forall_cons in Hn as [Hc Hn]. cbn [app] in Hz.
  destruct (zterm_cons _ Hz) as (c' & s' & [= <- <-] & Hs). apply IH; [|done]. apply Hs. lia.
Qed.

(** ** UTF-8 *)
Lemma not_cont_spec c : byte_ok c → not_cont c = negb ((0x80 <=? c) && (c <=? 0xBF)).
Proof.
  intros Hc. apply Bool.eqb_prop. revert c Hc.
  apply (forallb_seqZ (λ c, Bool.eqb (not_cont c) (negb ((0x80 <=? c) && (c <=? 0xBF))))). by vm_compute.
Qed.

Lemma not_cont_cont x : not_cont (cont x) = false.
Proof.
  pose proof (Z.mod_pos_bound x 64 ltac:(lia)). rewrite not_cont_spec by (unfold byte_ok, cont; lia). unfold cont. lia.
Qed.

Lemma utf8_bytes u : scalar u → Forall byte_ok (utf8 u).
Proof.
  intros [Hu _]. unfold utf8, byte_ok, cont.
  destruct (Z.leb_spec u 0x7F), (Z.leb_spec u 0x7FF), (Z.leb_spec u 0xFFFF); try lia;
    repeat (apply Forall_cons; split); try apply Forall_nil_2; Z.to_euclidean_division_equations; lia.
Qed.

Lemma utf8_no_null u : scalar u → u ≠ 0 → no_null (utf8 u).
Proof.
  intros [Hu _] H0. unfold utf8, cont.
  destruct (Z.leb_spec u 0x7F), (Z.leb_spec u 0x7FF), (Z.leb_spec u 0xFFFF); try lia;
    repeat (apply Forall_cons; split); try apply Forall_nil_2; apply Z.eqb_neq; Z.to_euclidean_division_equations; lia.
Qed.

Lemma utf8_length u : 1 ≤ zlen (utf8 u) ≤ 4.
Proof. unfold utf8, zlen. repeat case_match; cbn [length]; lia. Qed.

(** The first byte says how many there are; the encoding is accepted. *)
Lemma validate_utf8 u rest : scalar u → utf8_validate_cz (utf8 u ++ rest) = Ok (zlen (utf8 u)).
Proof.
  intros [Hu Hs]. unfold utf8_validate_cz, utf8.
  destruct (Z.leb_spec u 0x7F); [cbn [app getc mbind res_bind]; zbool|].
  destruct (Z.leb_spec u 0x7FF).
  - cbn [app getc deref mbind res_bind]. rewrite not_cont_cont.
    assert (2 ≤ u / 64 < 32) by (Z.to_euclidean_division_equations; lia). generalize dependent (u / 64). intros. zbool.
  - destruct (Z.leb_spec u 0xFFFF).
    + cbn [app getc deref mbind res_bind]. rewrite !not_cont_cont. unfold cont.
      assert (0 ≤ u / 4096 < 16) by (Z.to_euclidean_division_equations; lia).
      assert (u / 4096 = 0 → 32 ≤ (u / 64) mod 64) by (Z.to_euclidean_division_equations; lia).
      assert (u / 4096 = 13 → (u / 64) mod 64 < 32) by (Z.to_euclidean_division_equations; lia).
      generalize dependent (u / 4096). intros. zbool.
    + cbn [app getc deref mbind res_bind]. rewrite !not_cont_cont. unfold cont.
      assert (0 ≤ u / 262144 < 5) by (Z.to_euclidean_division_equations; lia).
      assert (u / 262144 = 0 → 16 ≤ (u / 4096) mod 64) by (Z.to_euclidean_division_equations; lia).
      assert (u / 262144 = 4 → (u / 4096) mod 64 < 16) by (Z.to_euclidean_division_equations; lia).
      generalize dependent (u / 262144). intros. zbool.
Qed.

(** What is accepted is an encoding.  The bytes behind the null are not read. *)
Lemma validate_inv s len :
  Forall byte_ok s → utf8_validate_cz s = Ok len → len ≠ 0 →
  ∃ u rest, scalar u ∧ s = utf8 u ++ rest ∧ len = zlen (utf8 u).
Proof.
  intros Hb Hv Hl. unfold utf8_validate_cz in Hv. destruct s as [|c s]; [done|]. apply Forall_cons in Hb as [Hc Hb].
  unfold byte_ok in Hc. cbn [getc mbind res_bind] in Hv.
  destruct (Z.leb_spec c 0x7F); [injection Hv as <-; exists c, s; unfold scalar, utf8; zbool; split; [lia|done]|].
  destruct (Z.leb_spec c 0xC1); [congruence|].
  destruct (Z.leb_spec c 0xDF); [|destruct (Z.leb_spec c 0xEF); [|destruct (Z.leb_spec c 0xF4); [|congruence]]].
  - destruct s as [|d s]; [done|]. apply Forall_cons in Hb as [Hd Hb]. cbn [getc mbind res_bind] in Hv.
    rewrite not_cont_spec in Hv by done. destruct (negb _) eqn:E1; [congruence|]. injection Hv as <-.
    assert (Hu : utf8 ((c - 0xC0) * 64 + (d - 0x80)) = [c; d]).
    { unfold utf8, cont. zbool; repeat f_equal; Z.to_euclidean_division_equations; lia. }
    exists ((c - 0xC0) * 64 + (d - 0x80)), s. rewrite Hu. split; [unfold scalar; lia|done].
  - destruct s as [|d s]; [done|]. apply Forall_cons in Hb as [Hd Hb]. cbn [deref getc mbind res_bind] in Hv.
    destruct ((c =? 0xE0) && _) eqn:E1; [congruence|]. destruct ((c =? 0xED) && _) eqn:E2; [congruence|].
    rewrite not_cont_spec in Hv by done. destruct (negb _) eqn:E3; [congruence|].
    destruct s as [|e s]; [done|]. apply Forall_cons in Hb as [He Hb]. cbn [getc mbind res_bind] in Hv.
    rewrite not_cont_spec in Hv by done. destruct (negb _) eqn:E4 in Hv; [congruence|]. injection Hv as <-.
    assert (Hu : utf8 ((c - 0xE0) * 4096 + (d - 0x80) * 64 + (e - 0x80)) = [c; d; e]).
    { unfold utf8, cont. zbool; repeat f_equal; Z.to_euclidean_division_equations; lia. }
    exists ((c - 0xE0) * 4096 + (d - 0x80) * 64 + (e - 0x80)), s. rewrite Hu. split; [unfold scalar; lia|done].
  - destruct s as [|d s]; [done|]. apply Forall_cons in Hb as [Hd Hb]. cbn [deref getc mbind res_bind] in Hv.
    destruct ((c =? 0xF0) && _) eqn:E1; [congruence|]. destruct ((c =? 0xF4) && _) eqn:E2; [congruence|].
    rewrite not_cont_spec in Hv by done. destruct (negb _) eqn:E3; [congruence|].
    destruct s as [|e s]; [done|]. apply Forall_cons in Hb as [He Hb]. cbn [getc mbind res_bind] in Hv.
    rewrite not_cont_spec in Hv by done. destruct (negb _) eqn:E4 in Hv; [congruence|].
    destruct s as [|g s]; [done|]. apply Forall_cons in Hb as [Hg Hb]. cbn [getc mbind res_bind] in Hv.
    rewrite not_cont_spec in Hv by done. destruct (negb _) eqn:E5 in Hv; [congruence|]. injection Hv as <-.
    assert (Hu : utf8 ((c - 0xF0) * 262144 + (d - 0x80) * 4096 + (e - 0x80) * 64 + (g - 0x80)) = [c; d; e; g]).
    { unfold utf8, cont. zbool; repeat f_equal; Z.to_euclidean_division_equations; lia. }
    exists ((c - 0xF0) * 262144 + (d - 0x80) * 4096 + (e - 0x80) * 64 + (g - 0x80)), s. rewrite Hu. split; [unfold scalar; lia|done].
Qed.

(** One step of a reader that stops at the null. *)
Tactic Notation "step_char" hyp(Hz) "as" simple_intropattern(pat) :=
  destruct (zterm_cons _ Hz) as pat; cbn [deref getc mbind res_bind].

Lemma not_cont_null c : not_cont c = false → c ≠ 0.
Proof. by intros Hc ->. Qed.

(** The validation of a character stops at the null. *)
Lemma validate_total s : zterm s → ∃ len, utf8_validate_cz s = Ok len.
Proof.
  intros Hz. unfold utf8_validate_cz. step_char Hz as (c & s1 & -> & Hs).
  destruct (Z.leb_spec c 0x7F); [eauto|]. destruct (Z.leb_spec c 0xC1); [eauto|]. specialize (Hs ltac:(lia)).
  step_char Hs as (c0 & s2 & -> & Hs0). destruct (c <=? 0xDF); [destruct (not_cont c0); eauto|].
  assert (Htail : not_cont c0 = false → ∃ c1 s3, s2 = c1 :: s3 ∧ (not_cont c1 = false → ∃ c2 s4, s3 = c2 :: s4)).
  { intros Hc. destruct (zterm_cons _ (Hs0 (not_cont_null _ Hc))) as (c1 & s3 & -> & Hs1). eexists _, _. split; [done|].
    intros Hc'. destruct (zterm_cons _ (Hs1 (not_cont_null _ Hc'))) as (c2 & s4 & -> & _). eauto. }
  destruct (c <=? 0xEF).
  - repeat (case_match; [eauto|]). destruct Htail as (c1 & s3 & -> & _); [done|].
    cbn [getc mbind res_bind]. case_match; eauto.
  - destruct (c <=? 0xF4); [|eauto]. repeat (case_match; [eauto|]). destruct Htail as (c1 & s3 & -> & Htail); [done|].
    cbn [getc mbind res_bind]. case_match; [eauto|]. destruct Htail as (c2 & s4 & ->); [done|].
    cbn [getc mbind res_bind]. case_match; eauto.
Qed.

(** ** Reading and writing characters *)
Lemma land_mod x n k : k = 2 ^ n - 1 → 0 ≤ n → Z.land x k = x mod 2 ^ n.
Proof. intros -> Hn. rewrite <- Z.land_ones by lia. f_equal. rewrite Z.ones_equiv. lia. Qed.

(** Bits that do not overlap. *)
Lemma lor_shiftl a b n : 0 ≤ n → 0 ≤ b < 2 ^ n → Z.lor (Z.shiftl a n) b = a * 2 ^ n + b.
Proof.
  intros Hn Hb. rewrite <- Z.shiftl_mul_pow2 by done. symmetry. apply Z.add_nocarry_lor, Z.bits_inj'.
  intros i Hi. rewrite Z.land_spec, Z.bits_0, Z.shiftl_spec by lia. destruct (Z.lt_ge_cases i n).
  - by rewrite Z.testbit_neg_r by lia.
  - rewrite <- (Z.mod_small b (2 ^ n)) by lia. by rewrite Z.mod_pow2_bits_high, andb_false_r by lia.
Qed.

(** A byte that is put together from a tag and a value. *)
Lemma lor_tag tag k x n : tag = k * 2 ^ n → 0 ≤ n → 0 ≤ x < 2 ^ n → Z.lor tag x = tag + x.
Proof. intros -> Hn Hx. rewrite <- (lor_shiftl k x n) by done. by rewrite Z.shiftl_mul_pow2 by lia. Qed.

Lemma write_utf8 u : scalar u → utf8_write_char u = Ok (utf8 u).
Proof.
  intros [Hu Hs]. unfold utf8_write_char, utf8, cont, u8. rewrite !Z.shiftr_div_pow2 by lia.
  rewrite !(land_mod _ 6 0x3F) by done. change (2 ^ 6) with 64. change (2 ^ 12) with 4096. change (2 ^ 18) with 262144.
  replace (_ && _) with true by lia. cbn [assert_ mbind res_bind].
  rewrite !(lor_tag 0x80 1 _ 7) by (Z.to_euclidean_division_equations; lia).
  destruct (Z.leb_spec u 0x7F); [do 2 f_equal; apply Z.mod_small; lia|].
  destruct (Z.leb_spec u 0x7FF); [|destruct (Z.leb_spec u 0xFFFF)].
  - rewrite (lor_tag 0xC0 3 _ 6) by (Z.to_euclidean_division_equations; lia).
    repeat f_equal; apply Z.mod_small; Z.to_euclidean_division_equations; lia.
  - rewrite (lor_tag 0xE0 7 _ 5) by (Z.to_euclidean_division_equations; lia).
    repeat f_equal; apply Z.mod_small; Z.to_euclidean_division_equations; lia.
  - rewrite (lor_tag 0xF0 15 _ 4) by (Z.to_euclidean_division_equations; lia).
    repeat f_equal; apply Z.mod_small; Z.to_euclidean_division_equations; lia.
Qed.

Lemma aget_first {A} (a b c d : A) l :
  aget (a :: l) 0 = Ok a ∧ aget (a :: b :: l) 1 = Ok b ∧ aget (a :: b :: c :: l) 2 = Ok c ∧
  aget (a :: b :: c :: d :: l) 3 = Ok d.
Proof. done. Qed.

(** Comparisons that the bounds decide. *)
Ltac zif :=
  repeat match goal with |- context [if ?a <=? ?b then _ else _] =>
    destruct (Z.leb_spec a b); try (exfalso; Z.to_euclidean_division_equations; lia) end.

Lemma read_utf8 u rest : scalar u → utf8_read_char (utf8 u ++ rest) = Ok (u, zlen (utf8 u)).
Proof.
  intros Hu. unfold utf8_read_char. rewrite validate_utf8, bind_ret by done. pose proof (utf8_length u).
  replace (zlen (utf8 u) =? 0) with false by lia. cbn [negb assert_ mbind res_bind]. destruct Hu as [Hu Hs].
  unfold utf8. destruct (Z.leb_spec u 0x7F); [|destruct (Z.leb_spec u 0x7FF); [|destruct (Z.leb_spec u 0xFFFF)]];
    cbn [app]; rewrite ?(proj1 (aget_first _ 0 0 0 _)), ?bind_ret;
    rewrite ?(proj1 (proj2 (aget_first _ _ 0 0 _))), ?bind_ret;
    rewrite ?(proj1 (proj2 (proj2 (aget_first _ _ _ 0 _)))), ?bind_ret;
    rewrite ?(proj2 (proj2 (proj2 (aget_first _ _ _ _ _)))), ?bind_ret;
    rewrite ?(land_mod _ 6 0x3F), ?(land_mod _ 5 0x1F), ?(land_mod _ 4 0xF), ?(land_mod _ 3 0x7) by done; unfold cont.
  - by rewrite (proj2 (Z.leb_le _ _)) by lia.
  - zif. do 2 f_equal. rewrite lor_shiftl by (Z.to_euclidean_division_equations; lia).
    Z.to_euclidean_division_equations; lia.
  - zif. do 2 f_equal. rewrite <- Z.lor_assoc, (lor_shiftl _ _ 6), (lor_shiftl _ _ 12) by (Z.to_euclidean_division_equations; lia).
    Z.to_euclidean_division_equations; lia.
  - zif. do 2 f_equal. rewrite <- !Z.lor_assoc, (lor_shiftl _ _ 6), (lor_shiftl _ _ 12), (lor_shiftl _ _ 18) by (Z.to_euclidean_division_equations; lia).
    Z.to_euclidean_division_equations; lia.
Qed.

(** ** Strings *)
Definition utf8s (us : list Z) : str := concat (utf8 <$> us).
(** The characters of a C string: no null among them. *)
Definition char_ok (u : Z) : Prop := scalar u ∧ u ≠ 0.
Definition utf8_text (t : str) : Prop := ∃ us, Forall char_ok us ∧ t = utf8s us.

Lemma utf8s_no_null us : Forall char_ok us → no_null (utf8s us).
Proof.
  induction 1 as [|u us [Hu H0] _ IH]; [constructor|]. apply Forall_app. split; [by apply utf8_no_null|done].
Qed.

Lemma utf8s_bytes us : Forall char_ok us → Forall byte_ok (utf8s us).
Proof. induction 1 as [|u us [Hu H0] _ IH]; [constructor|]. apply Forall_app. split; [by apply utf8_bytes|done]. Qed.

Lemma utf8_head u rest : scalar u → u ≠ 0 → ∃ c s, utf8 u ++ rest = c :: s ∧ c ≠ 0.
Proof.
  intros Hu H0. pose proof (utf8_no_null u Hu H0) as Hn. pose proof (utf8_length u). destruct (utf8 u) as [|c s]; [unfold zlen in *; cbn [length] in *; lia|].
  apply Forall_cons in Hn as [Hc _]. exists c, (s ++ rest). split; [done|lia].
Qed.

Lemma validate_loop_utf8s us fuel :
  Forall char_ok us → (length us < fuel)%nat → utf8_validate_loop fuel (cstr (utf8s us)) = Ok true.
Proof.
  intros Hus. revert fuel. induction Hus as [|u us [Hu H0] _ IH]; intros [|fuel] Hf; [cbn in Hf; lia|done|cbn in Hf; lia|].
  cbn [utf8_validate_loop]. unfold cstr, utf8s. cbn [fmap list_fmap concat]. rewrite <- app_assoc.
  destruct (utf8_head u (concat (utf8 <$> us) ++ [0]) Hu H0) as (c & s & E & Hc). rewrite E. cbn [deref mbind res_bind].
  replace (c =? 0) with false by lia. rewrite <- E, validate_utf8 by done. cbn [mbind res_bind].
  pose proof (utf8_length u). replace (zlen (utf8 u) =? 0) with false by lia.
  unfold zlen. rewrite Nat2Z.id, drop_app_length. apply IH. cbn in Hf. lia.
Qed.

Lemma utf8s_length us : (length us ≤ length (utf8s us))%nat.
Proof.
  unfold utf8s. induction us as [|u us IH]; [done|]. cbn [fmap list_fmap concat length]. rewrite length_app.
  pose proof (utf8_length u). unfold zlen in *. lia.
Qed.

Lemma validate_loop_spec t fuel :
  Forall byte_ok t → no_null t → (length t < fuel)%nat →
  ∃ b, utf8_validate_loop fuel (cstr t) = Ok b ∧ (b = true → utf8_text t).
Proof.
  revert t. induction fuel as [|fuel IH]; intros t Hb Hn Hf; [lia|]. cbn [utf8_validate_loop].
  destruct t as [|c t]; [exists true; split; [done|]; by exists []|]. unfold cstr. cbn [app deref mbind res_bind].
  apply Forall_cons in Hn as Hc. destruct Hc as [-> _]. change (c :: t ++ [0]) with (cstr (c :: t)).
  destruct (validate_total (cstr (c :: t)) (zterm_cstr _)) as [len Hl]. rewrite Hl. cbn [mbind res_bind].
  destruct (Z.eqb_spec len 0) as [|Hl0]; [by exists false|].
  assert (Hb' : Forall byte_ok (cstr (c :: t))) by (apply Forall_app; split; [done|]; by apply Forall_singleton).
  destruct (validate_inv _ _ Hb' Hl Hl0) as (u & rest & Hu & E & ->). rewrite E. unfold zlen. rewrite Nat2Z.id, drop_app_length.
  assert (Hu0 : u ≠ 0).
  { intros ->. unfold cstr in E. cbn in E. injection E as -> _. by apply Forall_cons in Hn as [? _]. }
  assert (Hz : zterm rest) by (eapply zterm_app; [rewrite <- E; apply zterm_cstr|by apply utf8_no_null]).
  destruct Hz as [t' ->]. unfold cstr in E. rewrite app_assoc in E. apply app_inj_tail in E as [E _]. rewrite E in *.
  apply Forall_app in Hb as [_ Hb], Hn as [_ Hn]. pose proof (utf8_length u). unfold zlen in *. rewrite length_app in Hf.
  destruct (IH t' Hb Hn ltac:(lia)) as (b & Hv & Ht). exists b. split; [done|]. intros Htrue.
  destruct (Ht Htrue) as (us & Hus & ->). exists (u :: us). split; [by constructor|done].
Qed.

(** [utf8_validate] accepts exactly the texts of encoded characters. *)
Lemma utf8_validate_Ok t :
  Forall byte_ok t → no_null t → ∃ b, utf8_validate (cstr t) = Ok b ∧ (b = true ↔ utf8_text t).
Proof.
  intros Hb Hn. assert (Hl : (length t < length (cstr t))%nat) by (unfold cstr; rewrite length_app; cbn; lia).
  destruct (validate_loop_spec t _ Hb Hn Hl) as (b & Hv & Ht). exists b. split; [done|]. split; [done|].
  intros (us & Hus & ->). unfold utf8_validate in Hv. rewrite validate_loop_utf8s in Hv; [congruence|done|].
  pose proof (utf8s_length us). lia.
Qed.

(** ** Surrogate pairs and hexadecimal digits *)
Lemma surrogate_back u : 0x10000 ≤ u ≤ 0x10FFFF →
  ∃ uc lc, to_surrogate_pair u = Ok (uc, lc) ∧ from_surrogate_pair uc lc = Some u ∧
    0xD800 ≤ uc ≤ 0xDBFF ∧ 0xDC00 ≤ lc ≤ 0xDFFF.
Proof.
  intros Hu. unfold to_surrogate_pair, from_surrogate_pair, u16, u32.
  replace (_ && _) with true by lia. cbn [assert_ mbind res_bind].
  rewrite (Z.mod_small (u - 0x10000)) by lia. set (n := u - 0x10000).
  rewrite !(land_mod _ 10 0x3FF), Z.shiftr_div_pow2 by done. change (2 ^ 10) with 1024.
  rewrite !(Z.lor_comm (_ mod _)), (lor_tag 0xD800 54 _ 10), (lor_tag 0xDC00 55 _ 10) by (Z.to_euclidean_division_equations; lia).
  rewrite !Z.mod_small by (Z.to_euclidean_division_equations; lia).
  eexists _, _. split; [done|]. split; [|Z.to_euclidean_division_equations; lia].
  replace (_ && _) with true by (Z.to_euclidean_division_equations; lia). f_equal.
  rewrite (land_mod _ 10 0x3FF), (land_mod _ 10 0x3FF) by done. change (2 ^ 10) with 1024.
  rewrite lor_shiftl by (Z.to_euclidean_division_equations; lia). unfold n. Z.to_euclidean_division_equations; lia.
Qed.

(** A pair gives a code point beyond the first plane. *)
Lemma from_surrogate_scalar uc lc u : from_surrogate_pair uc lc = Some u → char_ok u.
Proof.
  unfold from_surrogate_pair. destruct (_ && _) eqn:E; [|done]. intros [= <-].
  rewrite !(land_mod _ 10 0x3FF) by done. change (2 ^ 10) with 1024.
  rewrite lor_shiftl by (Z.to_euclidean_division_equations; lia).
  unfold char_ok, scalar. Z.to_euclidean_division_equations; lia.
Qed.

Definition hex_char (d : Z) : Z := if d <? 10 then 48 + d else 55 + d.

Lemma hex_table d : 0 ≤ d < 16 → aget (lit "0123456789ABCDEF") d = Ok (hex_char d).
Proof.
  intros Hd. assert (H : ∀ i, 0 ≤ i < 16 →
    match aget (lit "0123456789ABCDEF") i with Ok c => c =? hex_char i | Err _ => false end = true)
    by (apply forallb_seqZ; by vm_compute).
  specialize (H d Hd). destruct (aget _ d) as [c|]; [|done]. f_equal. lia.
Qed.

Lemma hex_digit_char d : 0 ≤ d < 16 → hex_digit (hex_char d) = Some d.
Proof. intros Hd. unfold hex_digit, hex_char. destruct (Z.ltb_spec d 10); zbool; f_equal; lia. Qed.

(** Four digits are written and read back. *)
Lemma hex16_back v rest : 0 ≤ v < 2 ^ 16 →
  ∃ ds, write_hex16 v = Ok ds ∧ length ds = 4%nat ∧ Forall (λ c, 48 ≤ c ≤ 70) ds ∧
    parse_hex16 (ds ++ rest) = Ok (Some (v, rest)).
Proof.
  intros Hv. unfold write_hex16. rewrite !(land_mod _ 4 0xF), !Z.shiftr_div_pow2 by done.
  change (2 ^ 4) with 16. change (2 ^ 8) with 256. change (2 ^ 12) with 4096.
  rewrite !hex_table by (Z.to_euclidean_division_equations; lia). cbn [mbind res_bind].
  eexists. split; [done|]. split; [done|]. split.
  - repeat (apply Forall_cons; split); try apply Forall_nil_2; unfold hex_char;
      match goal with |- context [?a <? ?b] => destruct (Z.ltb_spec a b) end; Z.to_euclidean_division_equations; lia.
  - unfold parse_hex16. cbn [parse_hex_loop app getc mbind res_bind].
    rewrite !hex_digit_char by (Z.to_euclidean_division_equations; lia). rewrite !Z.shiftl_mul_pow2 by lia. unfold u16. do 3 f_equal.
    change (2 ^ 4) with 16. Z.to_euclidean_division_equations; lia.
Qed.
