(* ===== verification/JsonNum.v ===== *)
(** * Numbers of JSON (ccan/json/json.c)

    [parse_number], and the two functions of the C library it is used with:
    [strtod], which reads the nearest double of a decimal or hexadecimal numeral,
    and [sprintf] with the format [%.16g]. *)
From Stdlib Require Import Strings.String.
From S2P Require Import Prelude.
From S2P Require Import Scanf.
From S2P Require Import CString.
From S2P Require Import Double.
From S2P Require Import Utf8.
#[local] Open Scope Z_scope.

(** ** [strtod] *)

(** The nearest double of [m * 10 ^ e], ties to even. *)
Definition d_dec (neg : bool) (m e : Z) : double :=
  match m with
  | Zpos p =>
    if 0 <=? e then binary_normalize prec64 emax64 ((if neg then -1 else 1) * (m * 10 ^ e)) 0 neg
    else SFdiv prec64 emax64 (S754_finite neg p 0) (S754_finite false (Z.to_pos (10 ^ (- e))) 0)
  | _ => S754_zero neg
  end.

(** The nearest double of [m * 2 ^ e]. *)
Definition d_bin (neg : bool) (m e : Z) : double :=
  match m with
  | Zpos p => binary_normalize prec64 emax64 ((if neg then -1 else 1) * m) e neg
  | _ => S754_zero neg
  end.

(** An exponent behind one of the letters [e E] (or [p P]): without digits it is not
    part of the numeral. *)
Definition scan_exp (l u : Z) (s : str) : Z :=
  match s with
  | c :: s =>
    if (c =? l) || (c =? u) then
      let '(neg, s) := scan_sign s in
      let v := num_val 10 (span (isdigit 10) s).1 in
      if neg : bool then - v else v
    else 0
  | [] => 0
  end.

(** The digits of a numeral: before and behind the point. *)
Definition scan_point (base : Z) (s : str) : str * str * str :=
  let '(ip, s) := span (isdigit base) s in
  match s with
  | c :: s' => if c =? 46 then let '(fp, s) := span (isdigit base) s' in (ip, fp, s) else (ip, [], s)
  | [] => (ip, [], s)
  end.

(** [strtod(s, NULL)] of a text that begins with an optional sign and a digit.  A
    hexadecimal numeral has a digit behind [0x]. *)
Definition strtod (s : str) : double :=
  let '(neg, s) := scan_sign s in
  match s with
  | z :: x :: s' =>
    let '(hi, hf, hrest) := scan_point 16 s' in
    if (z =? 48) && ((x =? 120) || (x =? 88)) && negb (zlen (hi ++ hf) =? 0)
    then d_bin neg (num_val 16 (hi ++ hf)) (scan_exp 112 80 hrest - 4 * zlen hf)
    else
      let '(ip, fp, rest) := scan_point 10 s in
      d_dec neg (num_val 10 (ip ++ fp)) (scan_exp 101 69 rest - zlen fp)
  | _ =>
    let '(ip, fp, rest) := scan_point 10 s in
    d_dec neg (num_val 10 (ip ++ fp)) (scan_exp 101 69 rest - zlen fp)
  end.

(** ** [sprintf("%.16g")] *)

(** The fraction [n / d], rounded to an integer, ties to even. *)
Definition round_div (n d : Z) : Z :=
  let q := n / d in
  let r := n mod d in
  if 2 * r <? d then q else if d <? 2 * r then q + 1 else if Z.even q then q else q + 1.

(** [n * 10 ^ k] as a fraction over [d], for a [k] of either sign. *)
Definition scale10 (n d k : Z) : Z * Z := if 0 <=? k then (n * 10 ^ k, d) else (n, d * 10 ^ (- k)).

(** The decimal exponent of the fraction [n / d]: the largest [x] with
    [10 ^ x <= n / d], by search between the bounds of a double. *)
Fixpoint find_exp (fuel : nat) (n d x : Z) : Z :=
  match fuel with
  | O => x
  | S fuel => let '(a, b) := scale10 n d (- x) in if b <=? a then x else find_exp fuel n d (x - 1)
  end.
Definition dec_exp (n d : Z) : Z := find_exp 640 n d 310.

(** Sixteen digits and the exponent of the first one. *)
Definition sixteen (n d : Z) : Z * Z :=
  let x := dec_exp n d in
  let '(a, b) := scale10 n d (15 - x) in
  let q := round_div a b in
  if q =? 10 ^ 16 then (10 ^ 15, x + 1) else (q, x).

(** [n] with [k] digits, leading zeros included. *)
Fixpoint fixed_digits (k : nat) (n : Z) : str :=
  match k with O => [] | S k => fixed_digits k (n / 10) ++ [48 + n mod 10] end.

(** [%g] removes the zeros at the end of the fraction, and then the point. *)
Fixpoint trim_zeros (s : str) : str :=
  match s with
  | [] => []
  | c :: s => match trim_zeros s with [] => if c =? 48 then [] else [c] | t => c :: t end
  end.
Definition point_frac (s : str) : str := match trim_zeros s with [] => [] | t => 46 :: t end.

(** An exponent has a sign and at least two digits. *)
Definition print_exp (x : Z) : str :=
  101 :: (if x <? 0 then 45 else 43) ::
    (if Z.abs x <? 10 then [48; 48 + Z.abs x] else print_u64 (Z.abs x)).

Definition print_g16 (n d : Z) : str :=
  let '(q, x) := sixteen n d in
  if (-4 <=? x) && (x <? 16) then
    let k := 15 - x in
    print_u64 (q / 10 ^ k) ++ point_frac (fixed_digits (Z.to_nat k) (q mod 10 ^ k))
  else print_u64 (q / 10 ^ 15) ++ point_frac (fixed_digits 15 (q mod 10 ^ 15)) ++ print_exp x.

Definition sprintf_g16 (num : double) : str :=
  match num with
  | S754_zero neg => (if neg then [45] else []) ++ [48]
  | S754_infinity neg => (if neg then [45] else []) ++ lit "inf"
  | S754_nan => lit "nan"
  | S754_finite neg m e =>
    (if neg then [45] else []) ++
    (if 0 <=? e then print_g16 (Zpos m * 2 ^ e) 1 else print_g16 (Zpos m) (2 ^ (- e)))
  end.

(** ** [parse_number] *)
Definition is_digit (c : Z) : bool := (48 <=? c) && (c <=? 57).

(** [do { s++; } while (is_digit( *s))], started at the second digit. *)
Fixpoint skip_digits (fuel : nat) (s : ptr) : res ptr :=
  match fuel with
  | O => Err EFuel
  | S fuel => c ← deref s; if is_digit c then skip_digits fuel (tail s) else Ok s
  end.

(** At least one digit. *)
Definition some_digits (s : ptr) : res (option ptr) :=
  c ← deref s;
  if is_digit c then s ← skip_digits (length s) (tail s); Ok (Some s) else Ok None.

(** [0 | [1-9][0-9]*], ['.' [0-9]+] and [[Ee] [+-]? [0-9]+] *)
Definition scan_int (s : ptr) : res (option ptr) :=
  c ← deref s; if c =? 48 then Ok (Some (tail s)) else some_digits s.
Definition scan_frac (s : ptr) : res (option ptr) :=
  c ← deref s; if c =? 46 then some_digits (tail s) else Ok (Some s).
Definition scan_e (s : ptr) : res (option ptr) :=
  c ← deref s;
  if (c =? 69) || (c =? 101) then
    d ← deref (tail s);
    some_digits (if (d =? 43) || (d =? 45) then tail (tail s) else tail s)
  else Ok (Some s).

(** The end of the number, and its value. *)
Definition parse_number (s0 : ptr) : res (option (ptr * double)) :=
  c ← deref s0;
  if_ok s := scan_int (if c =? 45 then tail s0 else s0);
  if_ok s := scan_frac s;
  if_ok s := scan_e s;
  Ok (Some (s, strtod (removelast s0))).

(** With the terminating null. *)
Definition number_is_valid (num : str) : res bool :=
  o ← parse_number (cstr num);
  match o with
  | None => Ok false
  | Some (s, _) => c ← deref s; Ok (c =? 0)
  end.

Example g16_ex : (sprintf_g16 (d_of_Z 0), sprintf_g16 (d_of_Z (-17)), sprintf_g16 (d_dec false 1 (-1)),
    sprintf_g16 (d_dec false 5 (-324)), sprintf_g16 (d_dec true 123456 20), sprintf_g16 (d_dec false 12345 (-8)))
  = (lit "0", lit "-17", lit "0.1", lit "4.940656458412465e-324", lit "-1.23456e+25", lit "0.00012345").
Proof. vm_compute. reflexivity. Qed.

Example strtod_ex : strtod (lit "0.1") = ddiv (d_of_Z 1) (d_of_Z 10) ∧ strtod (lit "-12e2x") = d_of_Z (-1200)
  ∧ strtod (lit "0x1.8p1") = d_of_Z 3 ∧ strtod (lit "1e") = d_of_Z 1.
Proof. vm_compute. repeat split. Qed.

(** ** Numerals

    The pattern of the JSON grammar, with its parts. *)
Record parts := mk_parts { p_neg : bool; p_int : str; p_frac : option str; p_exp : option (Z * option Z * str) }.

Definition frac_text (f : option str) : str := match f with Some ds => 46 :: ds | None => [] end.
Definition exp_text (e : option (Z * option Z * str)) : str :=
  match e with Some (l, sg, ds) => l :: (match sg with Some c => [c] | None => [] end) ++ ds | None => [] end.
Definition numeral (p : parts) : str :=
  (if p_neg p then [45] else []) ++ p_int p ++ frac_text (p_frac p) ++ exp_text (p_exp p).

Definition all_digits (ds : str) : Prop := Forall (λ c, is_digit c = true) ds ∧ ds ≠ [].

Record numeral_ok (p : parts) : Prop := {
  nok_int : p_int p = [48] ∨ (all_digits (p_int p) ∧ head (p_int p) ≠ Some 48);
  nok_frac ds : p_frac p = Some ds → all_digits ds;
  nok_exp l sg ds : p_exp p = Some (l, sg, ds) →
    (l = 69 ∨ l = 101) ∧ (∀ c, sg = Some c → c = 43 ∨ c = 45) ∧ all_digits ds }.

Definition exp_val (e : option (Z * option Z * str)) : Z :=
  match e with Some (_, sg, ds) => if decide (sg = Some 45) then - num_val 10 ds else num_val 10 ds | None => 0 end.
Definition numeral_val (p : parts) : double :=
  let fp := default [] (p_frac p) in d_dec (p_neg p) (num_val 10 (p_int p ++ fp)) (exp_val (p_exp p) - zlen fp).

(** A character that cannot continue a numeral. *)
Definition stops (c : Z) : Prop := is_digit c = false ∧ c ∉ [46; 69; 101; 120; 88].

Lemma is_digit_isdigit c : is_digit c = isdigit 10 c.
Proof. unfold is_digit, isdigit, digit_val. repeat case_match; lia. Qed.

(** *** Reading digits *)
Lemma skip_digits_app fuel ds c rest :
  Forall (λ c, is_digit c = true) ds → is_digit c = false → (length ds < fuel)%nat →
  skip_digits fuel (ds ++ c :: rest) = Ok (c :: rest).
Proof.
  intros Hd Hc. revert fuel. induction Hd as [|d ds Hd _ IH]; intros [|fuel] Hf; cbn [length] in Hf; try lia;
    cbn [skip_digits app deref mbind res_bind tail].
  - by rewrite Hc.
  - rewrite Hd. apply IH. lia.
Qed.

Lemma some_digits_app ds c rest :
  all_digits ds → is_digit c = false → some_digits (ds ++ c :: rest) = Ok (Some (c :: rest)).
Proof.
  intros [Hd Hne] Hc. destruct ds as [|d ds]; [done|]. apply Forall_cons in Hd as [Hd Hds].
  unfold some_digits. cbn [app deref mbind res_bind]. rewrite Hd. cbn [tail].
  rewrite skip_digits_app; [done..|]. cbn. rewrite length_app. lia.
Qed.

Lemma skip_digits_inv fuel s :
  zterm s → (length s ≤ fuel)%nat →
  ∃ ds c rest, skip_digits fuel s = Ok (c :: rest) ∧ s = ds ++ c :: rest ∧ Forall (λ c, is_digit c = true) ds ∧ is_digit c = false.
Proof.
  revert s. induction fuel as [|fuel IH]; intros s Hz Hf; destruct (zterm_cons s Hz) as (c & s' & -> & Hs); cbn [length] in Hf; [lia|].
  cbn [skip_digits deref mbind res_bind tail]. destruct (is_digit c) eqn:Ec.
  - destruct (IH s') as (ds & c' & rest & Hk & -> & Hds & Hc'); [apply Hs; intros ->; done|lia|].
    exists (c :: ds), c', rest. split; [done|]. split; [done|]. split; [by constructor|done].
  - by exists [], c, s'.
Qed.

(** Either there is no digit, or all of them are skipped. *)
Lemma some_digits_inv s :
  zterm s →
  (some_digits s = Ok None) ∨
  ∃ ds c rest, some_digits s = Ok (Some (c :: rest)) ∧ s = ds ++ c :: rest ∧ all_digits ds ∧ is_digit c = false.
Proof.
  intros Hz. destruct (zterm_cons s Hz) as (c & s' & -> & Hs). unfold some_digits. cbn [deref mbind res_bind tail].
  destruct (is_digit c) eqn:Ec; [|by left]. right.
  destruct (skip_digits_inv (length (c :: s')) s') as (ds & c' & rest & -> & -> & Hds & Hc'); [apply Hs; intros ->; done|cbn; lia|].
  exists (c :: ds), c', rest. cbn [mbind res_bind]. split; [done|]. split; [done|]. split; [split; [by constructor|done]|done].
Qed.

Lemma digits_no_null ds : Forall (λ c, is_digit c = true) ds → no_null ds.
Proof. intros Hd. eapply Forall_impl; [exact Hd|]. intros c Hc. unfold is_digit in Hc. lia. Qed.

(** *** The grammar *)

(** What follows the integer part and the fraction of a numeral. *)
Lemma exp_head e c rest :
  (∀ l sg ds, e = Some (l, sg, ds) → l = 69 ∨ l = 101) → stops c →
  ∃ d u, exp_text e ++ c :: rest = d :: u ∧ is_digit d = false ∧ d ≠ 46.
Proof.
  intros He [Hc Hns]. destruct e as [[[l sg] ds]|]; cbn [exp_text app]; eexists _, _; (split; [done|]).
  - destruct (He l sg ds eq_refl) as [->| ->]; done.
  - set_solver.
Qed.

Lemma frac_head f d u : is_digit d = false → ∃ d' u', frac_text f ++ d :: u = d' :: u' ∧ is_digit d' = false.
Proof. intros Hd. destruct f as [ds|]; cbn [frac_text app]; eauto. Qed.

Lemma scan_e_text e c rest :
  (∀ l sg ds, e = Some (l, sg, ds) → (l = 69 ∨ l = 101) ∧ (∀ c, sg = Some c → c = 43 ∨ c = 45) ∧ all_digits ds) →
  stops c → scan_e (exp_text e ++ c :: rest) = Ok (Some (c :: rest)).
Proof.
  intros He [Hc Hns]. unfold scan_e. destruct e as [[[l sg] ds]|]; cbn [exp_text app].
  - destruct (He l sg ds eq_refl) as (Hl & Hsg & Hds). cbn [deref mbind res_bind tail].
    replace (_ || _) with true by lia. rewrite <- app_assoc. destruct sg as [g|]; cbn [app deref mbind res_bind tail].
    + replace (_ || _) with true by (specialize (Hsg g eq_refl); lia). by apply some_digits_app.
    + pose proof (some_digits_app ds c rest Hds Hc) as Hsome. destruct Hds as [Hds Hne]. destruct ds as [|x ds]; [done|].
      apply Forall_cons in Hds as [Hx _]. cbn [app deref mbind res_bind] in *. unfold is_digit in Hx.
      by replace (_ || _) with false by lia.
  - cbn [deref mbind res_bind]. replace (_ || _) with false; [done|]. apply not_elem_of_cons in Hns as [? Hns]. set_solver by lia.
Qed.

(** [parse_number] reads every numeral up to its end. *)
Lemma parse_numeral_end p c rest :
  numeral_ok p → stops c → parse_number (numeral p ++ c :: rest) =
  Ok (Some (c :: rest, strtod (removelast (numeral p ++ c :: rest)))).
Proof.
  intros [Hi Hf He] Hc. unfold parse_number. set (v := strtod _). clearbody v.
  pose proof (scan_e_text (p_exp p) c rest He Hc) as Hscan.
  destruct (exp_head (p_exp p) c rest) as (d & u & E & Hd & Hd46); [intros l sg ds Hp; by apply (He l sg ds Hp)|done|].
  unfold numeral. rewrite <- !app_assoc. rewrite E in *.
  assert (Hfrac : scan_frac (frac_text (p_frac p) ++ d :: u) = Ok (Some (d :: u))).
  { unfold scan_frac. destruct (p_frac p) as [ds|]; cbn [frac_text app deref mbind res_bind tail].
    - by apply some_digits_app; [apply Hf|].
    - by rewrite (proj2 (Z.eqb_neq d 46)). }
  destruct (frac_head (p_frac p) d u Hd) as (d' & u' & E' & Hd'). rewrite E' in *.
  assert (Hint : scan_int (p_int p ++ d' :: u') = Ok (Some (d' :: u'))).
  { unfold scan_int. destruct Hi as [-> |[Hds H0]]; [done|]. pose proof (some_digits_app _ d' u' Hds Hd') as Hsome.
    destruct (p_int p) as [|x ds]; [by destruct Hds|]. cbn [app deref mbind res_bind] in *.
    rewrite (proj2 (Z.eqb_neq x 48)); [done|]. intros ->. by apply H0. }
  assert (Hhead : ∃ x ds, p_int p ++ d' :: u' = x :: ds ∧ (x =? 45) = false).
  { destruct Hi as [-> |[[Hds Hne] _]]; [by eexists _, _|]. destruct (p_int p) as [|x ds]; [done|].
    apply Forall_cons in Hds as [Hx _]. eexists _, _. split; [done|]. unfold is_digit in Hx. lia. }
  destruct Hhead as (x & ds & Ex & Hx).
  destruct (p_neg p); cbn [app deref mbind res_bind Z.eqb Pos.eqb tail].
  - rewrite Hint. cbn [attempt mbind res_bind]. rewrite Hfrac. cbn [attempt mbind res_bind]. by rewrite Hscan.
  - rewrite Ex in *. cbn [deref mbind res_bind]. rewrite Hx, Hint. cbn [attempt mbind res_bind].
    rewrite Hfrac. cbn [attempt mbind res_bind]. by rewrite Hscan.
Qed.

Lemma scan_int_inv s : zterm s → scan_int s = Ok None ∨
  ∃ ip s', scan_int s = Ok (Some s') ∧ s = ip ++ s' ∧ zterm s' ∧ (ip = [48] ∨ all_digits ip ∧ head ip ≠ Some 48).
Proof.
  intros Hz. unfold scan_int. destruct (zterm_cons s Hz) as (d & u & -> & Hu). cbn [deref mbind res_bind tail].
  destruct (Z.eqb_spec d 48) as [->|Hd].
  - right. exists [48], u. split; [done|]. split; [done|]. split; [apply Hu; lia|by left].
  - destruct (some_digits_inv (d :: u) Hz) as [->|(ip & c' & rest & -> & E & Hip & Hc')]; [by left|right].
    exists ip, (c' :: rest). split; [done|]. split; [done|]. split.
    + rewrite E in Hz. eapply zterm_app; [done|]. by apply digits_no_null, Hip.
    + right. split; [done|]. destruct ip as [|x ip]; [done|]. cbn in *. congruence.
Qed.

Lemma scan_frac_inv s : zterm s → scan_frac s = Ok None ∨
  ∃ fp s', scan_frac s = Ok (Some s') ∧ s = frac_text fp ++ s' ∧ zterm s' ∧ ∀ ds, fp = Some ds → all_digits ds.
Proof.
  intros Hz. unfold scan_frac. destruct (zterm_cons s Hz) as (d & u & -> & Hu). cbn [deref mbind res_bind tail].
  destruct (Z.eqb_spec d 46) as [->|Hd]; [|right; by exists None, (d :: u)].
  specialize (Hu ltac:(lia)). destruct (some_digits_inv u Hu) as [->|(ds & c' & rest & -> & -> & Hds & Hc')]; [by left|right].
  exists (Some ds), (c' :: rest). split; [done|]. split; [done|]. split; [|by intros ? [= <-]].
  eapply zterm_app; [done|]. by apply digits_no_null, Hds.
Qed.

Lemma scan_e_inv s : zterm s → scan_e s = Ok None ∨
  ∃ e s', scan_e s = Ok (Some s') ∧ s = exp_text e ++ s' ∧ zterm s' ∧
    ∀ l sg ds, e = Some (l, sg, ds) → (l = 69 ∨ l = 101) ∧ (∀ c, sg = Some c → c = 43 ∨ c = 45) ∧ all_digits ds.
Proof.
  intros Hz. unfold scan_e. destruct (zterm_cons s Hz) as (l & u & -> & Hu). cbn [deref mbind res_bind tail].
  destruct ((l =? 69) || (l =? 101)) eqn:El; [|right; by exists None, (l :: u)]. specialize (Hu ltac:(lia)).
  destruct (zterm_cons u Hu) as (d & t & -> & Ht). cbn [deref mbind res_bind tail].
  assert (Hsg : ∃ sg w, (if (d =? 43) || (d =? 45) then t else d :: t) = w ∧ zterm w ∧
    d :: t = (match sg with Some c => [c] | None => [] end) ++ w ∧ (∀ c, sg = Some c → c = 43 ∨ c = 45)).
  { destruct ((d =? 43) || (d =? 45)) eqn:Ed.
    - exists (Some d), t. split; [done|]. split; [apply Ht; lia|]. split; [done|]. intros ? [= <-]. lia.
    - by exists None, (d :: t). }
  destruct Hsg as (sg & w & -> & Hw & -> & Hsg).
  destruct (some_digits_inv w Hw) as [->|(ds & c' & rest & -> & -> & Hds & Hc')]; [by left|right].
  exists (Some (l, sg, ds)), (c' :: rest). split; [done|]. split; [cbn; by rewrite <- app_assoc|]. split.
  - eapply zterm_app; [done|]. by apply digits_no_null, Hds.
  - intros ? ? ? [= <- <- <-]. split; [lia|done].
Qed.

(** What [parse_number] reads is a numeral, and it stops in front of the null. *)
Lemma parse_number_inv s :
  zterm s → parse_number s = Ok None ∨
  ∃ p s' v, parse_number s = Ok (Some (s', v)) ∧ numeral_ok p ∧ s = numeral p ++ s' ∧ zterm s'.
Proof.
  intros Hz. unfold parse_number. set (v := strtod _). clearbody v.
  destruct (zterm_cons s Hz) as (c & t & -> & Ht). cbn [deref mbind res_bind tail].
  assert (Hz1 : zterm (if c =? 45 then t else c :: t)) by (destruct (Z.eqb_spec c 45); [apply Ht; lia|done]).
  destruct (scan_int_inv _ Hz1) as [->|(ip & s2 & -> & E1 & Hz2 & Hip)]; [by left|]. cbn [attempt mbind res_bind].
  destruct (scan_frac_inv _ Hz2) as [->|(fp & s3 & -> & -> & Hz3 & Hfp)]; [by left|]. cbn [attempt mbind res_bind].
  destruct (scan_e_inv _ Hz3) as [->|(e & s4 & -> & -> & Hz4 & He)]; [by left|]. cbn [attempt mbind res_bind]. right.
  exists (mk_parts (c =? 45) ip fp e), s4, v. split; [done|]. split; [by split|]. split; [|done].
  unfold numeral. cbn [p_neg p_int p_frac p_exp]. rewrite <- !app_assoc, <- E1. by destruct (Z.eqb_spec c 45) as [->|].
Qed.

(** *** Values *)

(** What may follow a numeral: nothing, or a character that does not continue it. *)
Definition stops_at (tl : str) : Prop := ∀ c u, tl = c :: u → stops c.

Lemma span_is_digit ds tl :
  Forall (λ c, is_digit c = true) ds → (∀ c u, tl = c :: u → is_digit c = false) → span (isdigit 10) (ds ++ tl) = (ds, tl).
Proof.
  intros Hd Hc. apply span_app; [|intros c u E; rewrite <- is_digit_isdigit; by eapply Hc].
  eapply Forall_impl; [exact Hd|]. intros x Hx. cbv beta in *. by rewrite <- is_digit_isdigit.
Qed.

Lemma scan_exp_text e tl :
  (∀ l sg ds, e = Some (l, sg, ds) → (l = 69 ∨ l = 101) ∧ (∀ c, sg = Some c → c = 43 ∨ c = 45) ∧ all_digits ds) →
  stops_at tl → scan_exp 101 69 (exp_text e ++ tl) = exp_val e.
Proof.
  intros He Htl. assert (Hdig : ∀ c u, tl = c :: u → is_digit c = false) by (intros c u E; by destruct (Htl c u E)).
  destruct e as [[[l sg] ds]|]; cbn [exp_text app].
  - destruct (He l sg ds eq_refl) as (Hl & Hsg & Hds & Hne). cbn [scan_exp exp_val]. replace (_ || _) with true by lia.
    destruct sg as [g|]; cbn [app scan_sign].
    + destruct (Hsg g eq_refl) as [->| ->]; cbn [Z.eqb Pos.eqb]; by rewrite span_is_digit.
    + destruct ds as [|x ds]; [done|]. apply Forall_cons in Hds as Hx. destruct Hx as [Hx _]. cbn [app scan_sign].
      unfold is_digit in Hx. replace (x =? 45) with false by lia. replace (x =? 43) with false by lia.
      change (x :: ds ++ tl) with ((x :: ds) ++ tl). by rewrite span_is_digit.
  - destruct tl as [|c u]; [done|]. cbn [scan_exp exp_val]. destruct (Htl c u eq_refl) as [_ Hns].
    replace (_ || _) with false; [done|]. apply not_elem_of_cons in Hns as [? Hns]. set_solver by lia.
Qed.

Lemma exp_stops e tl c u :
  (∀ l sg ds, e = Some (l, sg, ds) → l = 69 ∨ l = 101) → stops_at tl → exp_text e ++ tl = c :: u →
  is_digit c = false ∧ c ≠ 46 ∧ c ≠ 120 ∧ c ≠ 88.
Proof.
  intros He Htl E. destruct e as [[[l sg] ds]|]; cbn [exp_text app] in E.
  - injection E as -> _. destruct (He c sg ds eq_refl) as [->| ->]; done.
  - destruct (Htl c u E) as [? Hns]. set_solver.
Qed.

Lemma scan_point_text p tl :
  numeral_ok p → stops_at tl →
  scan_point 10 (p_int p ++ frac_text (p_frac p) ++ exp_text (p_exp p) ++ tl) = (p_int p, default [] (p_frac p), exp_text (p_exp p) ++ tl).
Proof.
  intros [Hi Hf He] Htl. assert (Hds : Forall (λ c, is_digit c = true) (p_int p)).
  { destruct Hi as [-> |[[? _] _]]; [by apply Forall_singleton|done]. }
  assert (Hex : ∀ c u, exp_text (p_exp p) ++ tl = c :: u → is_digit c = false ∧ c ≠ 46).
  { intros c u E. apply exp_stops in E as (? & ? & _); [done| |done]. intros l sg ds Hp. by apply (He l sg ds Hp). }
  unfold scan_point. destruct (p_frac p) as [ds|] eqn:Efp; cbn [frac_text app default].
  - rewrite span_is_digit by (done || by intros ? ? [= <- _]). cbn [Z.eqb Pos.eqb].
    rewrite span_is_digit; [done|by apply Hf|]. intros c u E. by apply (Hex c u E).
  - rewrite span_is_digit; [|done|intros c u E; by apply (Hex c u E)].
    destruct (exp_text (p_exp p) ++ tl) as [|c u]; [done|]. destruct (Hex c u eq_refl) as [_ H46].
    by rewrite (proj2 (Z.eqb_neq c 46)).
Qed.

(** [strtod] of a numeral is its value. *)
Lemma strtod_numeral p tl : numeral_ok p → stops_at tl → strtod (numeral p ++ tl) = numeral_val p.
Proof.
  intros Hok Htl. pose proof (scan_point_text p tl Hok Htl) as Hpt. destruct Hok as [Hi Hf He].
  pose proof (scan_exp_text (p_exp p) tl He Htl) as Hex.
  unfold strtod, numeral. rewrite <- !app_assoc.
  set (body := p_int p ++ frac_text (p_frac p) ++ exp_text (p_exp p) ++ tl) in *.
  assert (Hhd : ∃ z u, body = z :: u ∧ is_digit z = true ∧
    (z = 48 → ∀ x v, u = x :: v → x ≠ 120 ∧ x ≠ 88)).
  { unfold body. destruct Hi as [-> |[[Hds Hne] H0]].
    - exists 48. eexists. split; [done|]. split; [done|]. intros _ x v E.
      destruct (p_frac p); cbn [frac_text app] in E; [injection E as <- _; done|].
      apply exp_stops in E as (_ & _ & ?); [done| |done]. intros l sg ds Hp. by apply (He l sg ds Hp).
    - destruct (p_int p) as [|z ip]; [done|]. apply Forall_cons in Hds as [Hz _]. exists z. eexists. split; [done|].
      split; [done|]. intros ->. by destruct H0. }
  destruct Hhd as (z & u & Eb & Hz & Hx).
  assert (Hsign : scan_sign ((if p_neg p then [45] else []) ++ body) = (p_neg p, body)).
  { destruct (p_neg p); [done|]. rewrite Eb. cbn [app scan_sign]. unfold is_digit in Hz.
    replace (z =? 45) with false by lia. by replace (z =? 43) with false by lia. }
  rewrite Hsign. unfold numeral_val. rewrite Eb in *. destruct u as [|x v].
  - by rewrite Hpt, Hex.
  - destruct (scan_point 16 v) as [[hi hf] hrest]. rewrite Hpt.
    assert ((z =? 48) && ((x =? 120) || (x =? 88)) = false) as ->.
    { destruct (Z.eqb_spec z 48); [|done]. destruct (Hx e x v eq_refl). lia. }
    cbn [andb]. by rewrite Hex.
Qed.

(** A numeral, what follows it, and its value. *)
Lemma parse_numeral p c rest :
  numeral_ok p → stops c → parse_number (numeral p ++ c :: rest) = Ok (Some (c :: rest, numeral_val p)).
Proof.
  intros Hp Hc. rewrite parse_numeral_end by done. do 3 f_equal. rewrite removelast_app by done. apply strtod_numeral; [done|].
  intros d u E. destruct rest as [|r rest]; [done|]. cbn in E. by injection E as <- _.
Qed.

Lemma stops_null : stops 0.
Proof. split; [done|]. set_solver. Qed.

(** A text is valid if it is a numeral. *)
Lemma number_valid_spec t : ∃ b, number_is_valid t = Ok b ∧ (b = true → no_null t → ∃ p, numeral_ok p ∧ t = numeral p).
Proof.
  unfold number_is_valid. destruct (parse_number_inv (cstr t) (zterm_cstr t)) as [->|(p & s' & v & -> & Hp & E & Hz)].
  - exists false. done.
  - destruct (zterm_cons _ Hz) as (c & u & -> & _). cbn [mbind res_bind deref]. eexists. split; [done|].
    intros Hc Hn. exists p. split; [done|]. assert (c = 0) as -> by lia. unfold cstr in E.
    clear - E Hn Hz. revert E. generalize (numeral p). intros q. revert q. induction t as [|x t IH]; intros [|y q] E; cbn in *.
    + done.
    + injection E as _ E. by destruct q.
    + injection E as -> _. by apply Forall_cons in Hn as [? _].
    + injection E as -> E. f_equal. apply Forall_cons in Hn as [_ Hn]. by apply IH.
Qed.

(** ** Integers are printed and read exactly *)
Lemma find_exp_spec fuel p d X x :
  0 < d → 10 ^ X ≤ p < 10 ^ (X + 1) → 0 ≤ X ≤ x → (Z.to_nat (x - X) < fuel)%nat → find_exp fuel (p * d) d x = X.
Proof.
  intros Hd Hp. revert x. induction fuel as [|fuel IH]; intros x Hx Hf; [lia|]. cbn [find_exp].
  assert (Hs : scale10 (p * d) d (- x) = (p * d, d * 10 ^ x)).
  { unfold scale10. destruct (Z.leb_spec 0 (- x)).
    - replace x with 0 by lia. change (10 ^ (- 0)) with 1. change (10 ^ 0) with 1. f_equal; lia.
    - by rewrite Z.opp_involutive. }
  rewrite Hs. destruct (decide (x = X)) as [->|Hne].
  - rewrite (proj2 (Z.leb_le _ _)); [done|nia].
  - rewrite (proj2 (Z.leb_gt _ _)); [apply IH; lia|].
    assert (10 ^ (X + 1) ≤ 10 ^ x) by (apply Z.pow_le_mono_r; lia). nia.
Qed.

Lemma round_div_exact q d : 0 < d → round_div (q * d) d = q.
Proof. intros Hd. unfold round_div. rewrite Z.mod_mul, Z.div_mul by lia. by rewrite (proj2 (Z.ltb_lt _ _)) by lia. Qed.

Lemma fixed_digits_zero k : trim_zeros (fixed_digits k 0) = [].
Proof.
  assert (H : ∀ s, trim_zeros s = [] → trim_zeros (s ++ [48]) = []).
  { induction s as [|c s IH]; [done|]. cbn [app trim_zeros]. destruct (trim_zeros s); [|done].
    intros Hc. by rewrite IH. }
  induction k as [|k IH]; [done|]. cbn [fixed_digits]. change (0 / 10) with 0. by apply H.
Qed.

(** The number of digits of a number. *)
Lemma log10_exists p : 0 < p < 10 ^ 16 → ∃ X, 0 ≤ X < 16 ∧ 10 ^ X ≤ p < 10 ^ (X + 1).
Proof.
  intros Hp. assert (H : ∀ n : nat, p < 10 ^ Z.of_nat n → ∃ X, 0 ≤ X < Z.of_nat n ∧ 10 ^ X ≤ p < 10 ^ (X + 1)).
  { induction n as [|n IH]; intros Hn; [change (10 ^ Z.of_nat 0) with 1 in Hn; lia|].
    destruct (Z.lt_ge_cases p (10 ^ Z.of_nat n)) as [Hlt|Hge].
    - destruct (IH Hlt) as (X & HX & ?). exists X. split; [lia|done].
    - exists (Z.of_nat n). split; [lia|]. by replace (Z.of_nat n + 1) with (Z.of_nat (S n)) by lia. }
  apply (H 16%nat). done || apply Hp.
Qed.

Lemma print_g16_int p d : 0 < p < 10 ^ 16 → 0 < d → print_g16 (p * d) d = print_u64 p.
Proof.
  intros Hp Hd. destruct (log10_exists p Hp) as (X & HX & HpX). unfold print_g16, sixteen, dec_exp.
  rewrite (find_exp_spec 640 p d X 310) by lia. unfold scale10. rewrite (proj2 (Z.leb_le 0 (15 - X))) by lia.
  set (k := 15 - X) in *. assert (Hk : 0 < 10 ^ k) by (apply Z.pow_pos_nonneg; lia).
  replace (p * d * 10 ^ k) with (p * 10 ^ k * d) by lia. rewrite round_div_exact by done.
  assert (H16 : 10 ^ (X + 1) * 10 ^ k = 10 ^ 16) by (rewrite <- Z.pow_add_r by lia; f_equal; lia).
  rewrite (proj2 (Z.eqb_neq _ _)) by nia. replace (_ && _) with true by lia. fold k.
  rewrite Z.div_mul, Z.mod_mul by lia. unfold point_frac. rewrite fixed_digits_zero. apply app_nil_r.
Qed.

(** The doubles that survive printing and reading. *)
Definition number_back (d : double) : Prop :=
  ∃ p, numeral_ok p ∧ sprintf_g16 d = numeral p ∧ numeral_val p = d.

Lemma number_back_int z : Z.abs z < 2 ^ 53 → number_back (d_of_Z z).
Proof.
  intros Hz. destruct (decide (z = 0)) as [->|H0].
  { exists (mk_parts false [48] None None). split; [split; cbn; auto; done|done]. }
  destruct (d_of_Z_value z H0 Hz) as (m & e & Hd & He & Hm). set (a := Z.abs z) in *.
  assert (Ha : 0 < a < 10 ^ 16) by (unfold a; lia).
  exists (mk_parts (z <? 0) (print_u64 a) None None).
  destruct (digits_value 10 20 a ltac:(lia)) as (Hds & Hne & Hv); [change (10 ^ Z.of_nat 20) with (10 ^ 20); lia|lia|].
  fold (print_u64 a) in Hds, Hne, Hv. split; [split; cbn [p_int p_frac p_exp]; try done; right; split|].
  - split; [|done]. eapply Forall_impl; [exact Hds|]. intros c Hc. cbv beta in *. by rewrite is_digit_isdigit.
  - intros Hh. destruct (print_u64 a) as [|c s] eqn:E; [done|]. injection Hh as ->.
    by eapply (digits_head 10 20 a 48 s); [lia|change (10 ^ Z.of_nat 20) with (10 ^ 20); lia|exact E|].
  - split.
    + rewrite Hd. unfold sprintf_g16, numeral. cbn [p_neg p_int p_frac p_exp frac_text exp_text app]. rewrite !app_nil_r. f_equal.
      rewrite Hm. destruct (Z.leb_spec 0 e).
      * assert (e = 0) as -> by lia. change (2 ^ (- 0)) with 1. change (2 ^ 0) with 1. rewrite Z.mul_1_r. by apply print_g16_int.
      * apply print_g16_int; [done|]. apply Z.pow_pos_nonneg; lia.
    + unfold numeral_val. cbn [p_neg p_int p_frac p_exp default exp_val]. rewrite app_nil_r, Hv. change (0 - zlen []) with 0.
      unfold d_dec. destruct a as [|q|q] eqn:Ea; [lia| |lia]. cbn [Z.leb Z.compare]. change (10 ^ 0) with 1. rewrite Z.mul_1_r.
      unfold d_of_Z. unfold a in Ea. by destruct z; [|injection Ea as <-|injection Ea as <-].
Qed.
