(* ===== verification/JsonStore.v ===== *)
(** * The nodes of a JSON value (ccan/json/json.c)

    A value is a graph of nodes that point to their parent, their siblings and
    their first and last child.  The nodes are cells of a store; a pointer is the
    place of a cell, NULL is [None], and following a pointer to a cell that was
    freed is [EOob].  A key or a string belongs to the node that points to it and
    is kept in the node. *)
From Stdlib Require Import Strings.String.
From stdpp Require Import gmap.
From S2P Require Import Prelude.
From S2P Require Import Rule.
From S2P Require Import Scanf.
From S2P Require Import CString.
From S2P Require Import Double.
From S2P Require Import Utf8.
#[local] Open Scope Z_scope.

(** ** Data *)
Abbreviation loc := positive.

(** The tag and the member of the union that it selects. *)
Inductive json_data :=
  | JSON_NULL
  | JSON_BOOL (bool_ : bool)
  | JSON_STRING (string_ : option str)
  | JSON_NUMBER (number_ : double)
  | JSON_ARRAY (head tail : option loc)
  | JSON_OBJECT (head tail : option loc).

Record JsonNode := mk_jnode {
  j_parent : option loc; j_prev : option loc; j_next : option loc; j_key : option str; j_data : json_data }.

(** The cells in use, and the place of the next one. *)
Record store := mk_store { cells : gmap loc JsonNode; next_loc : loc }.

Definition load (σ : store) (p : loc) : res JsonNode :=
  match cells σ !! p with Some n => Ok n | None => Err EOob end.
Definition update (σ : store) (p : loc) (f : JsonNode → JsonNode) : res store :=
  n ← load σ p; Ok (mk_store (<[p := f n]> (cells σ)) (next_loc σ)).

Definition set_parent (x : option loc) (n : JsonNode) : JsonNode := mk_jnode x (j_prev n) (j_next n) (j_key n) (j_data n).
Definition set_prev (x : option loc) (n : JsonNode) : JsonNode := mk_jnode (j_parent n) x (j_next n) (j_key n) (j_data n).
Definition set_next (x : option loc) (n : JsonNode) : JsonNode := mk_jnode (j_parent n) (j_prev n) x (j_key n) (j_data n).
Definition set_jkey (x : option str) (n : JsonNode) : JsonNode := mk_jnode (j_parent n) (j_prev n) (j_next n) x (j_data n).
Definition set_data (x : json_data) (n : JsonNode) : JsonNode := mk_jnode (j_parent n) (j_prev n) (j_next n) (j_key n) x.

(** [p->children]: the member of another tag is not there. *)
Definition children (d : json_data) : res (option loc * option loc) :=
  match d with JSON_ARRAY h t | JSON_OBJECT h t => Ok (h, t) | _ => Err EOob end.
Definition with_children (d : json_data) (h t : option loc) : json_data :=
  match d with JSON_ARRAY _ _ => JSON_ARRAY h t | JSON_OBJECT _ _ => JSON_OBJECT h t | _ => d end.

Definition get_children (σ : store) (p : loc) : res (option loc * option loc) := n ← load σ p; children (j_data n).
Definition set_head (σ : store) (p : loc) (h : option loc) : res store :=
  '(_, t) ← get_children σ p; update σ p (λ n, set_data (with_children (j_data n) h t) n).
Definition set_tail (σ : store) (p : loc) (t : option loc) : res store :=
  '(h, _) ← get_children σ p; update σ p (λ n, set_data (with_children (j_data n) h t) n).

(** ** Making nodes *)
Definition out_of_memory : failure := EExit 1 (lit "Out of memory." ++ [10]).

Section nodes.
Context `{Allocator}.

Definition sizeof_JsonNode : Z := 56.

(** [json_strdup]: the copy has the same characters. *)
Definition json_strdup (s : str) : res str := if alloc_ok (zlen s + 1) then Ok s else Err out_of_memory.

(** [calloc] clears the node. *)
Definition mknode (σ : store) (d : json_data) : res (store * loc) :=
  if alloc_ok sizeof_JsonNode then
    let p := next_loc σ in
    Ok (mk_store (<[p := mk_jnode None None None None d]> (cells σ)) (Pos.succ p), p)
  else Err out_of_memory.

Definition json_mknull (σ : store) : res (store * loc) := mknode σ JSON_NULL.
Definition json_mkbool (σ : store) (b : bool) : res (store * loc) :=
  '(σ, ret) ← mknode σ (JSON_BOOL false);
  σ ← update σ ret (set_data (JSON_BOOL b));
  Ok (σ, ret).
Definition mkstring (σ : store) (s : str) : res (store * loc) :=
  '(σ, ret) ← mknode σ (JSON_STRING None);
  σ ← update σ ret (set_data (JSON_STRING (Some s)));
  Ok (σ, ret).
Definition json_mkstring (σ : store) (s : str) : res (store * loc) := t ← json_strdup s; mkstring σ t.
Definition json_mknumber (σ : store) (n : double) : res (store * loc) :=
  '(σ, node) ← mknode σ (JSON_NUMBER (S754_zero false));
  σ ← update σ node (set_data (JSON_NUMBER n));
  Ok (σ, node).
Definition json_mkarray (σ : store) : res (store * loc) := mknode σ (JSON_ARRAY None None).
Definition json_mkobject (σ : store) : res (store * loc) := mknode σ (JSON_OBJECT None None).

(** ** Linking nodes *)
Definition append_node (σ : store) (parent child : loc) : res store :=
  σ ← update σ child (set_parent (Some parent));
  '(_, t) ← get_children σ parent;
  σ ← update σ child (set_prev t);
  σ ← update σ child (set_next None);
  '(_, t) ← get_children σ parent;
  σ ← match t with
      | Some l => update σ l (set_next (Some child))
      | None => set_head σ parent (Some child)
      end;
  set_tail σ parent (Some child).

Definition prepend_node (σ : store) (parent child : loc) : res store :=
  σ ← update σ child (set_parent (Some parent));
  σ ← update σ child (set_prev None);
  '(h, _) ← get_children σ parent;
  σ ← update σ child (set_next h);
  '(h, _) ← get_children σ parent;
  σ ← match h with
      | Some l => update σ l (set_prev (Some child))
      | None => set_tail σ parent (Some child)
      end;
  set_head σ parent (Some child).

Definition append_member (σ : store) (object : loc) (key : str) (value : loc) : res store :=
  σ ← update σ value (set_jkey (Some key));
  append_node σ object value.

(** [assert(p->tag == ..)] and [assert(p->parent == NULL)] *)
Definition is_array (d : json_data) : bool := match d with JSON_ARRAY _ _ => true | _ => false end.
Definition is_object (d : json_data) : bool := match d with JSON_OBJECT _ _ => true | _ => false end.
Definition check_link (σ : store) (tag_ok : json_data → bool) (container child : loc) : res unit :=
  n ← load σ container;
  _ ← assert_ (tag_ok (j_data n));
  c ← load σ child;
  assert_ (bool_decide (j_parent c = None)).

Definition json_append_element (σ : store) (array element : loc) : res store :=
  _ ← check_link σ is_array array element; append_node σ array element.
Definition json_prepend_element (σ : store) (array element : loc) : res store :=
  _ ← check_link σ is_array array element; prepend_node σ array element.
Definition json_append_member (σ : store) (object : loc) (key : str) (value : loc) : res store :=
  _ ← check_link σ is_object object value;
  k ← json_strdup key;
  append_member σ object k value.
Definition json_prepend_member (σ : store) (object : loc) (key : str) (value : loc) : res store :=
  _ ← check_link σ is_object object value;
  k ← json_strdup key;
  σ ← update σ value (set_jkey (Some k));
  prepend_node σ object value.

Definition json_remove_from_parent (σ : store) (node : loc) : res store :=
  n ← load σ node;
  match j_parent n with
  | None => Ok σ
  | Some parent =>
    σ ← match j_prev n with
        | Some q => update σ q (set_next (j_next n))
        | None => set_head σ parent (j_next n)
        end;
    n ← load σ node;
    σ ← match j_next n with
        | Some q => update σ q (set_prev (j_prev n))
        | None => set_tail σ parent (j_prev n)
        end;
    update σ node (λ n, mk_jnode None None None None (j_data n))
  end.

(** ** Deleting *)

(** The loop over the children: [next] is read before the child is deleted. *)
Fixpoint delete_children (rec : store → loc → res store) (k : nat) (σ : store) (child : option loc) : res store :=
  match child with
  | None => Ok σ
  | Some c =>
    match k with
    | O => Err EFuel
    | S k => n ← load σ c; σ ← rec σ c; delete_children rec k σ (j_next n)
    end
  end.

Fixpoint delete_node (fuel : nat) (σ : store) (node : loc) : res store :=
  match fuel with
  | O => Err EFuel
  | S fuel =>
    σ ← json_remove_from_parent σ node;
    n ← load σ node;
    σ ← match j_data n with
        | JSON_ARRAY h _ | JSON_OBJECT h _ => delete_children (delete_node fuel) (size (cells σ)) σ h
        | _ => Ok σ
        end;
    _ ← load σ node;
    Ok (mk_store (delete node (cells σ)) (next_loc σ))
  end.

(** A tree is not higher than the number of cells. *)
Definition json_delete (σ : store) (node : option loc) : res store :=
  match node with None => Ok σ | Some p => delete_node (size (cells σ)) σ p end.

(** ** Looking at nodes *)
Definition json_first_child (σ : store) (node : option loc) : res (option loc) :=
  match node with
  | None => Ok None
  | Some p =>
    n ← load σ p;
    Ok match j_data n with JSON_ARRAY h _ | JSON_OBJECT h _ => h | _ => None end
  end.

(** [json_foreach], with the test that ends it. *)
Fixpoint find_among (test : Z → JsonNode → res bool) (k : nat) (σ : store) (i : Z) (child : option loc) : res (option loc) :=
  match child with
  | None => Ok None
  | Some c =>
    match k with
    | O => Err EFuel
    | S k =>
      n ← load σ c;
      found ← test i n;
      if found : bool then Ok (Some c) else find_among test k σ (i + 1) (j_next n)
    end
  end.

Definition json_find_element (σ : store) (array : option loc) (index : Z) : res (option loc) :=
  match array with
  | None => Ok None
  | Some p =>
    n ← load σ p;
    if is_array (j_data n) then
      c ← json_first_child σ array;
      find_among (λ i _, Ok (i =? index)) (size (cells σ)) σ 0 c
    else Ok None
  end.

(** [strcmp(member->key, name) == 0] *)
Definition key_is (name : str) (n : JsonNode) : res bool :=
  match j_key n with Some k => Ok (str_eqb k name) | None => Err ENull end.

Definition json_find_member (σ : store) (object : option loc) (name : str) : res (option loc) :=
  match object with
  | None => Ok None
  | Some p =>
    n ← load σ p;
    if is_object (j_data n) then
      c ← json_first_child σ object;
      find_among (λ _ n, key_is name n) (size (cells σ)) σ 0 c
    else Ok None
  end.

(** ** [json_check]

    The message of the first problem, if there is one.  A tag or a truth value that
    is not one of its type cannot be written here. *)
Definition bad_text (s : option str) (msg : str) : res (option str) :=
  match s with
  | None => Ok None
  | Some t => ok ← utf8_validate (cstr t); Ok (if ok : bool then None else Some msg)
  end.

(** The checks of one child, before its own subtree. *)
Definition check_child (σ : store) (node : loc) (arr : bool) (head : loc) (c : loc) : res (option str) :=
  n ← load σ c;
  when bool_decide (c = node) return Some (lit "node is its own child");
  when bool_decide (j_next n = Some c) return Some (lit "child->next == child (cycle)");
  when bool_decide (j_next n = Some head) return Some (lit "child->next == head (cycle)");
  when bool_decide (j_parent n ≠ Some node) return Some (lit "child does not point back to parent");
  back ← match j_next n with None => Ok (Some c) | Some q => m ← load σ q; Ok (j_prev m) end;
  when bool_decide (back ≠ Some c) return Some (lit "child->next does not point back to child");
  when arr && bool_decide (j_key n ≠ None) return Some (lit "Array element's key is not NULL");
  when negb arr && bool_decide (j_key n = None) return Some (lit "Object member's key is NULL");
  Ok None.

Fixpoint check_children (rec : store → loc → res (option str)) (k : nat) (σ : store) (node : loc) (arr : bool) (head : loc)
    (child last : option loc) : res (option str * option loc) :=
  match child with
  | None => Ok (None, last)
  | Some c =>
    match k with
    | O => Err EFuel
    | S k =>
      m ← check_child σ node arr head c;
      match m with
      | Some msg => Ok (Some msg, last)
      | None =>
        m ← rec σ c;
        match m with
        | Some msg => Ok (Some msg, last)
        | None => n ← load σ c; check_children rec k σ node arr head (j_next n) (Some c)
        end
      end
    end
  end.

Definition check_list (rec : store → loc → res (option str)) (σ : store) (node : loc) (arr : bool) (head tail : option loc)
    : res (option str) :=
  match head, tail with
  | None, None => Ok None
  | Some _, None => Ok (Some (lit "tail is NULL, but head is not"))
  | None, Some _ => Ok (Some (lit "head is NULL, but tail is not"))
  | Some h, Some _ =>
    n ← load σ h;
    when bool_decide (j_prev n ≠ None) return Some (lit "First child's prev pointer is not NULL");
    '(m, last) ← check_children rec (size (cells σ)) σ node arr h head None;
    match m with
    | Some msg => Ok (Some msg)
    | None =>
      Ok (if bool_decide (last = tail) then None
          else Some (lit "tail does not match pointer found by starting at head and following next links"))
    end
  end.

Fixpoint check_node (fuel : nat) (σ : store) (node : loc) : res (option str) :=
  match fuel with
  | O => Err EFuel
  | S fuel =>
    n ← load σ node;
    m ← bad_text (j_key n) (lit "key contains invalid UTF-8");
    match m with
    | Some msg => Ok (Some msg)
    | None =>
      match j_data n with
      | JSON_STRING None => Ok (Some (lit "string_ is NULL"))
      | JSON_STRING s => bad_text s (lit "string_ contains invalid UTF-8")
      | JSON_ARRAY h t => check_list (check_node fuel) σ node true h t
      | JSON_OBJECT h t => check_list (check_node fuel) σ node false h t
      | _ => Ok None
      end
    end
  end.
Definition json_check (σ : store) (node : loc) : res (option str) := check_node (size (cells σ)) σ node.
End nodes.
