(* ===== verification/JsonRep.v ===== *)
(** * Trees in the store

    A tree whose nodes carry their places describes a part of the store exactly:
    every link of every cell.  The operations on nodes are operations on the lists
    of children of such trees. *)
From S2P Require Import Prelude.
From S2P Require Import Rule.
From S2P Require Import Scanf.
From S2P Require Import CString.
From S2P Require Import Double.
From S2P Require Import Utf8.
From S2P Require Import JsonStore.
From Stdlib Require Import Strings.String.
From stdpp Require Import gmap.
#[local] Open Scope Z_scope.

(** ** Trees with places *)
Inductive kind := KNull | KBool (b : bool) | KString (s : str) | KNumber (d : double) | KArray | KObject.
Inductive ltree := LT (p : loc) (k : option str) (d : kind) (cs : list ltree).

Definition t_loc (t : ltree) : loc := let '(LT p _ _ _) := t in p.
Definition t_key (t : ltree) : option str := let '(LT _ k _ _) := t in k.
Definition t_kind (t : ltree) : kind := let '(LT _ _ d _) := t in d.
Definition t_kids (t : ltree) : list ltree := let '(LT _ _ _ cs) := t in cs.

Definition is_container (d : kind) : bool := match d with KArray | KObject => true | _ => false end.

Section ltree_ind.
Context (P : ltree → Prop) (HP : ∀ p k d cs, Forall P cs → P (LT p k d cs)).
Fixpoint ltree_nested_ind (t : ltree) : P t :=
  match t with
  | LT p k d cs => HP p k d cs
      ((fix go (cs : list ltree) : Forall P cs :=
          match cs with [] => Forall_nil_2 P | c :: cs => Forall_cons_2 P c cs (ltree_nested_ind c) (go cs) end) cs)
  end.
End ltree_ind.

(** First and last of the children. *)
Definition first_loc (cs : list ltree) : option loc := t_loc <$> head cs.
Definition last_loc (cs : list ltree) : option loc := t_loc <$> last cs.

Definition data_of (d : kind) (cs : list ltree) : json_data :=
  match d with
  | KNull => JSON_NULL
  | KBool b => JSON_BOOL b
  | KString s => JSON_STRING (Some s)
  | KNumber x => JSON_NUMBER x
  | KArray => JSON_ARRAY (first_loc cs) (last_loc cs)
  | KObject => JSON_OBJECT (first_loc cs) (last_loc cs)
  end.

(** The first link of a list of siblings, or what follows it. *)
Definition link (o x : option loc) : option loc := match o with Some p => Some p | None => x end.

(** The cells of a tree, given the links of its root; the cells of siblings between
    [prv] and [nxt]. *)
Definition siblings (f : option loc → option loc → ltree → list (loc * JsonNode)) (nxt : option loc) :=
  fix go (prv : option loc) (cs : list ltree) : list (loc * JsonNode) :=
    match cs with
    | [] => []
    | c :: cs => f prv (link (first_loc cs) nxt) c ++ go (Some (t_loc c)) cs
    end.
Fixpoint flat (par prv nxt : option loc) (t : ltree) {struct t} : list (loc * JsonNode) :=
  match t with
  | LT p k d cs => (p, mk_jnode par prv nxt k (data_of d cs)) :: siblings (flat (Some p)) None None cs
  end.
Definition flats (par prv nxt : option loc) (cs : list ltree) : list (loc * JsonNode) := siblings (flat par) nxt prv cs.

Lemma flats_cons par prv nxt c cs :
  flats par prv nxt (c :: cs) = flat par prv (link (first_loc cs) nxt) c ++ flats par (Some (t_loc c)) nxt cs.
Proof. done. Qed.

Definition root_node (par prv nxt : option loc) (t : ltree) : JsonNode :=
  mk_jnode par prv nxt (t_key t) (data_of (t_kind t) (t_kids t)).
Definition below (t : ltree) : list (loc * JsonNode) := flats (Some (t_loc t)) None None (t_kids t).

Lemma flat_eq par prv nxt t : flat par prv nxt t = (t_loc t, root_node par prv nxt t) :: below t.
Proof. by destruct t. Qed.

Lemma last_loc_cons c cs : last_loc (c :: cs) = link (last_loc cs) (Some (t_loc c)).
Proof. unfold last_loc. destruct cs as [|c1 cs]; [done|]. rewrite last_cons_cons. destruct (last (c1 :: cs)) eqn:E; [done|]. by apply last_None in E. Qed.

Lemma link_assoc a b c : link (link a b) c = link a (link b c).
Proof. by destruct a. Qed.

Lemma flats_app par prv nxt cs1 cs2 :
  flats par prv nxt (cs1 ++ cs2) =
  flats par prv (link (first_loc cs2) nxt) cs1 ++ flats par (link (last_loc cs1) prv) nxt cs2.
Proof.
  revert prv. induction cs1 as [|c cs1 IH]; intros prv; [done|]. cbn [app]. rewrite !flats_cons, IH, <- app_assoc. f_equal.
  - by destruct cs1.
  - f_equal. by rewrite last_loc_cons, link_assoc.
Qed.

(** The places of a tree. *)
Definition places (t : ltree) : list loc := (flat None None None t).*1.
Definition placess (cs : list ltree) : list loc := concat (places <$> cs).

Lemma flat_places par prv nxt t : (flat par prv nxt t).*1 = places t.
Proof. unfold places. by rewrite !flat_eq. Qed.

Lemma flats_places par prv nxt cs : (flats par prv nxt cs).*1 = placess cs.
Proof.
  unfold placess. revert prv. induction cs as [|c cs IH]; intros prv; [done|]. rewrite flats_cons. cbn [fmap list_fmap concat].
  by rewrite fmap_app, flat_places, IH.
Qed.

Lemma places_eq t : places t = t_loc t :: placess (t_kids t).
Proof. unfold places. rewrite flat_eq. cbn [fmap list_fmap fst]. unfold below. by rewrite flats_places. Qed.

Lemma placess_app cs1 cs2 : placess (cs1 ++ cs2) = placess cs1 ++ placess cs2.
Proof. unfold placess. by rewrite fmap_app, concat_app. Qed.

(** ** Holding cells *)
Definition holds (m : gmap loc JsonNode) (l : list (loc * JsonNode)) : Prop := Forall (λ x, m !! x.1 = Some x.2) l.

Lemma holds_app m l1 l2 : holds m (l1 ++ l2) ↔ holds m l1 ∧ holds m l2.
Proof. apply Forall_app. Qed.
Lemma holds_cons m p n l : holds m ((p, n) :: l) ↔ m !! p = Some n ∧ holds m l.
Proof. unfold holds. by rewrite Forall_cons. Qed.

Lemma holds_agree m m' l : holds m l → (∀ p, p ∈ l.*1 → m' !! p = m !! p) → holds m' l.
Proof.
  unfold holds. rewrite !Forall_forall. intros Hm Ha x Hx. rewrite Ha; [by apply Hm|]. by apply list_elem_of_fmap_2.
Qed.

Lemma holds_insert m p n l : holds m l → p ∉ l.*1 → holds (<[p := n]> m) l.
Proof. intros Hm Hp. apply (holds_agree m); [done|]. intros q Hq. apply lookup_insert_ne. by intros ->. Qed.

Lemma holds_delete m p l : holds m l → p ∉ l.*1 → holds (delete p m) l.
Proof. intros Hm Hp. apply (holds_agree m); [done|]. intros q Hq. apply lookup_delete_ne. by intros ->. Qed.

Lemma holds_some m l z : holds m l → z ∈ l.*1 → is_Some (m !! z).
Proof.
  unfold holds. rewrite Forall_forall. intros Hm ([z' n] & -> & Hin)%list_elem_of_fmap. rewrite (Hm _ Hin). eauto.
Qed.

(** Only the named cells differ. *)
Definition same_but (ps : list loc) (m m' : gmap loc JsonNode) : Prop := ∀ p, p ∉ ps → m' !! p = m !! p.

Lemma holds_same ps m m' l : holds m l → same_but ps m m' → (∀ p, p ∈ ps → p ∉ l.*1) → holds m' l.
Proof. intros Hm Hs Hd. apply (holds_agree m); [done|]. intros q Hq. apply Hs. intros Hin. by apply (Hd q). Qed.

(** The tree at [t] with these links of its root. *)
Definition rep (m : gmap loc JsonNode) (par prv nxt : option loc) (t : ltree) : Prop :=
  holds m (flat par prv nxt t) ∧ NoDup (places t).

(** ** Steps *)
Lemma load_at σ p n : cells σ !! p = Some n → load σ p = Ok n.
Proof. unfold load. by intros ->. Qed.

Lemma update_at σ p n f : cells σ !! p = Some n → update σ p f = Ok (mk_store (<[p := f n]> (cells σ)) (next_loc σ)).
Proof. unfold update. intros E. by rewrite (load_at _ _ _ E). Qed.

Lemma get_children_at σ p n h t : cells σ !! p = Some n → children (j_data n) = Ok (h, t) → get_children σ p = Ok (h, t).
Proof. unfold get_children. intros E <-. by rewrite (load_at _ _ _ E). Qed.

Lemma set_head_at σ p n h t x : cells σ !! p = Some n → children (j_data n) = Ok (h, t) →
  set_head σ p x = Ok (mk_store (<[p := set_data (with_children (j_data n) x t) n]> (cells σ)) (next_loc σ)).
Proof. unfold set_head. intros E Hc. rewrite (get_children_at _ _ _ _ _ E Hc), bind_ret. by rewrite (update_at _ _ _ _ E). Qed.

Lemma set_tail_at σ p n h t x : cells σ !! p = Some n → children (j_data n) = Ok (h, t) →
  set_tail σ p x = Ok (mk_store (<[p := set_data (with_children (j_data n) h x) n]> (cells σ)) (next_loc σ)).
Proof. unfold set_tail. intros E Hc. rewrite (get_children_at _ _ _ _ _ E Hc), bind_ret. by rewrite (update_at _ _ _ _ E). Qed.

(** A step whose cell is known. *)
Ltac at_cell L := erewrite L by (cbn [cells]; simplify_map_eq; reflexivity); rewrite ?bind_ret; cbn [cells next_loc].

Lemma container_children d cs : is_container d = true → children (data_of d cs) = Ok (first_loc cs, last_loc cs).
Proof. by destruct d. Qed.
Lemma container_with d cs cs' : is_container d = true → with_children (data_of d cs) (first_loc cs') (last_loc cs') = data_of d cs'.
Proof. by destruct d. Qed.
Lemma with_with d a b a' b' : with_children (with_children d a b) a' b' = with_children d a' b'.
Proof. by destruct d. Qed.
Lemma children_with d a b h t : children d = Ok (h, t) → children (with_children d a b) = Ok (a, b).
Proof. by destruct d. Qed.

(** ** Linking siblings *)
Definition alter_opt (f : JsonNode → JsonNode) (o : option loc) (m : gmap loc JsonNode) : gmap loc JsonNode :=
  match o with Some z => alter f z m | None => m end.

Lemma alter_opt_ne f o m i : o ≠ Some i → alter_opt f o m !! i = m !! i.
Proof. intros Hi. destruct o as [z|]; [|done]. apply lookup_alter_ne. congruence. Qed.

Lemma holds_alter m f p l : holds m l → p ∉ l.*1 → holds (alter f p m) l.
Proof. intros Hm Hp. apply (holds_agree m); [done|]. intros q Hq. apply lookup_alter_ne. by intros ->. Qed.

Lemma holds_alter_opt m f o l : holds m l → (∀ z, o = Some z → z ∉ l.*1) → holds (alter_opt f o m) l.
Proof. intros Hm Ho. destruct o as [z|]; [|done]. apply holds_alter; [done|by apply Ho]. Qed.

Lemma below_places t : (below t).*1 = placess (t_kids t).
Proof. apply flats_places. Qed.

Lemma last_loc_snoc cs z : last_loc (cs ++ [z]) = Some (t_loc z).
Proof. unfold last_loc. by rewrite last_snoc. Qed.

Lemma last_loc_app cs cs' : last_loc (cs ++ cs') = link (last_loc cs') (last_loc cs).
Proof. induction cs as [|c cs IH]; cbn [app]; [by destruct (last_loc cs')|]. by rewrite !last_loc_cons, IH, link_assoc. Qed.

Lemma first_loc_app cs cs' : first_loc (cs ++ cs') = link (first_loc cs) (first_loc cs').
Proof. by destruct cs. Qed.

Lemma placess_cons c cs : placess (c :: cs) = places c ++ placess cs.
Proof. done. Qed.
Lemma placess_single c : placess [c] = places c.
Proof. apply app_nil_r. Qed.

Lemma first_loc_place cs z : first_loc cs = Some z → z ∈ placess cs.
Proof. destruct cs as [|c cs]; [done|]. intros [= <-]. rewrite placess_cons, places_eq. by left. Qed.
Lemma last_loc_place cs z : last_loc cs = Some z → z ∈ placess cs.
Proof.
  destruct cs as [|c cs _] using rev_ind; [done|]. rewrite last_loc_snoc. intros [= <-].
  rewrite placess_app, placess_single, places_eq. apply elem_of_app. right. by left.
Qed.

(** The last of the siblings gets another [next], the first another [prev]. *)
Lemma relink_next m par prv nxt nxt' cs :
  holds m (flats par prv nxt cs) → NoDup (placess cs) → holds (alter_opt (set_next nxt') (last_loc cs) m) (flats par prv nxt' cs).
Proof.
  destruct cs as [|z cs _] using rev_ind; [done|]. rewrite last_loc_snoc, placess_app, placess_single, places_eq.
  rewrite !flats_app, !flats_cons, !app_nil_r, !flat_eq, !holds_app, !holds_cons. cbn [alter_opt].
  intros (Hcs & Hz & Hb) (_ & Hd & [Hn _]%NoDup_cons)%NoDup_app. split; [|split].
  - apply holds_alter; [done|]. rewrite flats_places. intros Hin. apply (Hd _ Hin). by left.
  - by rewrite lookup_alter_eq, Hz.
  - apply holds_alter; [done|]. by rewrite below_places.
Qed.

Lemma relink_prev m par prv prv' nxt cs :
  holds m (flats par prv nxt cs) → NoDup (placess cs) → holds (alter_opt (set_prev prv') (first_loc cs) m) (flats par prv' nxt cs).
Proof.
  destruct cs as [|z cs]; [done|]. rewrite placess_cons, places_eq, !flats_cons, !flat_eq, !holds_app, !holds_cons.
  intros ((Hz & Hb) & Hcs) (Hnz & Hd & _)%NoDup_app. apply NoDup_cons in Hnz as [Hn _].
  cbn [first_loc head fmap option_fmap option_map alter_opt]. split; [split|].
  - by rewrite lookup_alter_eq, Hz.
  - apply holds_alter; [done|]. by rewrite below_places.
  - apply holds_alter; [done|]. rewrite flats_places. intros Hin. apply (Hd (t_loc z)); [by left|done].
Qed.

(** ** Appending *)

(** What the store is after [append_node]. *)
Lemma append_node_steps σ p q np nq h t :
  cells σ !! p = Some np → cells σ !! q = Some nq → p ≠ q → children (j_data np) = Ok (h, t) →
  (∀ z, t = Some z → z ≠ p ∧ z ≠ q ∧ is_Some (cells σ !! z)) →
  append_node σ p q = Ok (mk_store
    (<[p := set_data (with_children (j_data np) (match t with Some _ => h | None => Some q end) (Some q)) np]>
      (alter_opt (set_next (Some q)) t
        (<[q := mk_jnode (Some p) t None (j_key nq) (j_data nq)]> (cells σ)))) (next_loc σ)).
Proof.
  intros Hp Hq Hne Hc Ht. unfold append_node.
  rewrite (update_at σ q nq) by done. rewrite bind_ret.
  erewrite (get_children_at _ p np) by first [exact Hc|cbn [cells]; by rewrite lookup_insert_ne]. rewrite bind_ret.
  erewrite (update_at _ q) by (cbn [cells]; apply lookup_insert_eq). rewrite bind_ret. cbn [cells next_loc].
  erewrite (update_at _ q) by (cbn [cells]; apply lookup_insert_eq). rewrite bind_ret. cbn [cells next_loc].
  rewrite !insert_insert_eq.
  erewrite (get_children_at _ p np) by first [exact Hc|cbn [cells]; by rewrite lookup_insert_ne]. rewrite bind_ret.
  destruct t as [z|].
  - destruct (Ht z eq_refl) as (Hzp & Hzq & [nz Hz]).
    erewrite (update_at _ z nz) by (cbn [cells]; by rewrite lookup_insert_ne). rewrite bind_ret. cbn [cells next_loc].
    erewrite (set_tail_at _ p np) by first [exact Hc|cbn [cells]; by rewrite !lookup_insert_ne]. cbn [cells next_loc].
    do 2 f_equal. f_equal. cbn [alter_opt]. apply map_eq. intros i. destruct (decide (i = z)) as [->|].
    + by rewrite lookup_insert_eq, lookup_alter_eq, lookup_insert_ne, Hz.
    + by rewrite lookup_insert_ne, lookup_alter_ne.
  - erewrite (set_head_at _ p np) by first [exact Hc|cbn [cells]; by rewrite !lookup_insert_ne]. rewrite bind_ret. cbn [cells next_loc].
    erewrite (set_tail_at _ p) by first [by eapply children_with|cbn [cells]; apply lookup_insert_eq]. cbn [cells next_loc].
    rewrite insert_insert_eq. unfold set_data. cbn [j_parent j_prev j_next j_key j_data]. by rewrite with_with.
Qed.

(** A container and a tree of its own. *)
Record apart (p : loc) (cs : list ltree) (c : ltree) : Prop := {
  ap_kids : p ∉ placess cs; ap_child : p ∉ places c; ap_nodup : NoDup (placess cs); ap_own : NoDup (places c);
  ap_disj x : x ∈ placess cs → x ∉ places c }.

Lemma apart_intro p cs c : NoDup (p :: placess cs ++ places c) → apart p cs c.
Proof.
  intros [Hp (H1 & H2 & H3)%NoDup_app]%NoDup_cons. apply not_elem_of_app in Hp as [? ?]. by split.
Qed.

Lemma t_loc_place c : t_loc c ∈ places c.
Proof. rewrite places_eq. by left. Qed.

(** The cells of the child, after its root was changed and other cells were. *)
Lemma child_holds m m' a b e a' b' e' c :
  holds m (flat a b e c) → NoDup (places c) → m' !! t_loc c = Some (root_node a' b' e' c) →
  (∀ x, x ∈ placess (t_kids c) → m' !! x = m !! x) → holds m' (flat a' b' e' c).
Proof.
  rewrite !flat_eq, !holds_cons. intros [_ Hb] Hnd Hq Hsame. split; [done|].
  apply (holds_agree m); [done|]. by rewrite below_places.
Qed.

(** The child becomes the last one, whatever its links were. *)
Lemma append_rep σ par prv nxt p k d cs c a b e :
  is_container d = true → holds (cells σ) (flat par prv nxt (LT p k d cs)) → holds (cells σ) (flat a b e c) →
  NoDup (p :: placess cs ++ places c) →
  ∃ σ', append_node σ p (t_loc c) = Ok σ' ∧ rep (cells σ') par prv nxt (LT p k d (cs ++ [c])) ∧
    next_loc σ' = next_loc σ ∧ same_but (p :: placess cs ++ places c) (cells σ) (cells σ').
Proof.
  intros Hd Hp Hc Hnd. pose proof (apart_intro _ _ _ Hnd) as [Hpk Hpc Hn1 Hn2 Hdis]. pose proof Hc as Hc0.
  rewrite flat_eq in Hp, Hc. apply holds_cons in Hp as [Hp Hb], Hc as [Hc _]. unfold below in Hb. cbn [t_loc t_kids] in Hp, Hb.
  pose proof (t_loc_place c) as Hq. assert (Hpq : p ≠ t_loc c) by (by intros ->).
  assert (Hlast : ∀ z, last_loc cs = Some z → z ≠ p ∧ z ∉ places c).
  { intros z Ez%last_loc_place. split; [by intros ->|by apply Hdis]. }
  rewrite (append_node_steps σ p (t_loc c) _ _ (first_loc cs) (last_loc cs) Hp Hc Hpq).
  2:{ by apply container_children. }
  2:{ intros z Ez. destruct (Hlast z Ez) as [? Hzc]. split; [done|]. split; [by intros ->|].
      eapply holds_some; [exact Hb|]. rewrite flats_places. by apply last_loc_place. }
  eexists. split; [done|]. cbn [cells next_loc]. split; [split|split; [done|]].
  - rewrite flat_eq, holds_cons. cbn [t_loc]. split.
    + rewrite lookup_insert_eq. unfold root_node, set_data. cbn [j_parent j_prev j_next j_key j_data t_key t_kind t_kids]. do 2 f_equal.
      rewrite <- (container_with d cs (cs ++ [c])), first_loc_app, last_loc_snoc by done. f_equal.
      by destruct cs as [|z cs _] using rev_ind; [|rewrite last_loc_snoc, first_loc_app; destruct cs].
    + unfold below. cbn [t_loc t_kids]. rewrite flats_app, flats_cons, app_nil_r, holds_app. split.
      * apply holds_insert; [|by rewrite flats_places]. apply (relink_next _ _ _ None); [|done].
        apply holds_insert; [done|]. rewrite flats_places. intros Hin. by apply (Hdis (t_loc c)).
      * eapply child_holds; [exact Hc0|done| |].
        -- rewrite lookup_insert_ne, alter_opt_ne, lookup_insert_eq by (done || intros Ez; by apply (Hlast _ Ez)). by destruct (last_loc cs).
        -- intros x Hx. assert (Hxc : x ∈ places c) by (rewrite places_eq; by right). rewrite places_eq in Hn2. apply NoDup_cons in Hn2 as [Hqn _].
           rewrite lookup_insert_ne, alter_opt_ne, lookup_insert_ne; try done; [by intros <-|intros Ez; by apply (Hlast _ Ez)|by intros ->].
  - rewrite places_eq. cbn [t_loc t_kids]. by rewrite placess_app, placess_single.
  - intros x [Hxp [Hxk Hxc]%not_elem_of_app]%not_elem_of_cons.
    rewrite lookup_insert_ne, alter_opt_ne, lookup_insert_ne; [done|by intros <-|intros Ez%last_loc_place; done|done].
Qed.

(** ** Prepending *)
Lemma prepend_node_steps σ p q np nq h t :
  cells σ !! p = Some np → cells σ !! q = Some nq → p ≠ q → children (j_data np) = Ok (h, t) →
  (∀ z, h = Some z → z ≠ p ∧ z ≠ q ∧ is_Some (cells σ !! z)) →
  prepend_node σ p q = Ok (mk_store
    (<[p := set_data (with_children (j_data np) (Some q) (match h with Some _ => t | None => Some q end)) np]>
      (alter_opt (set_prev (Some q)) h
        (<[q := mk_jnode (Some p) None h (j_key nq) (j_data nq)]> (cells σ)))) (next_loc σ)).
Proof.
  intros Hp Hq Hne Hc Ht. unfold prepend_node.
  rewrite (update_at σ q nq) by done. rewrite bind_ret.
  erewrite (update_at _ q) by (cbn [cells]; apply lookup_insert_eq). rewrite bind_ret. cbn [cells next_loc].
  rewrite insert_insert_eq.
  erewrite (get_children_at _ p np) by first [exact Hc|cbn [cells]; by rewrite lookup_insert_ne]. rewrite bind_ret.
  erewrite (update_at _ q) by (cbn [cells]; apply lookup_insert_eq). rewrite bind_ret. cbn [cells next_loc].
  rewrite insert_insert_eq.
  erewrite (get_children_at _ p np) by first [exact Hc|cbn [cells]; by rewrite lookup_insert_ne]. rewrite bind_ret.
  destruct h as [z|].
  - destruct (Ht z eq_refl) as (Hzp & Hzq & [nz Hz]).
    erewrite (update_at _ z nz) by (cbn [cells]; by rewrite lookup_insert_ne). rewrite bind_ret. cbn [cells next_loc].
    erewrite (set_head_at _ p np) by first [exact Hc|cbn [cells]; by rewrite !lookup_insert_ne]. cbn [cells next_loc].
    do 2 f_equal. f_equal. cbn [alter_opt]. apply map_eq. intros i. destruct (decide (i = z)) as [->|].
    + by rewrite lookup_insert_eq, lookup_alter_eq, lookup_insert_ne, Hz.
    + by rewrite lookup_insert_ne, lookup_alter_ne.
  - erewrite (set_tail_at _ p np) by first [exact Hc|cbn [cells]; by rewrite !lookup_insert_ne]. rewrite bind_ret. cbn [cells next_loc].
    erewrite (set_head_at _ p) by first [by eapply children_with|cbn [cells]; apply lookup_insert_eq]. cbn [cells next_loc].
    rewrite insert_insert_eq. unfold set_data. cbn [j_parent j_prev j_next j_key j_data]. by rewrite with_with.
Qed.

(** The child becomes the first one. *)
Lemma prepend_rep σ par prv nxt p k d cs c a b e :
  is_container d = true → holds (cells σ) (flat par prv nxt (LT p k d cs)) → holds (cells σ) (flat a b e c) →
  NoDup (p :: placess cs ++ places c) →
  ∃ σ', prepend_node σ p (t_loc c) = Ok σ' ∧ rep (cells σ') par prv nxt (LT p k d (c :: cs)) ∧
    next_loc σ' = next_loc σ ∧ same_but (p :: placess cs ++ places c) (cells σ) (cells σ').
Proof.
  intros Hd Hp Hc Hnd. pose proof (apart_intro _ _ _ Hnd) as [Hpk Hpc Hn1 Hn2 Hdis]. pose proof Hc as Hc0.
  rewrite flat_eq in Hp, Hc. apply holds_cons in Hp as [Hp Hb], Hc as [Hc _]. unfold below in Hb. cbn [t_loc t_kids] in Hp, Hb.
  pose proof (t_loc_place c) as Hq. assert (Hpq : p ≠ t_loc c) by (by intros ->).
  assert (Hfirst : ∀ z, first_loc cs = Some z → z ≠ p ∧ z ∉ places c).
  { intros z Ez%first_loc_place. split; [by intros ->|by apply Hdis]. }
  rewrite (prepend_node_steps σ p (t_loc c) _ _ (first_loc cs) (last_loc cs) Hp Hc Hpq).
  2:{ by apply container_children. }
  2:{ intros z Ez. destruct (Hfirst z Ez) as [? Hzc]. split; [done|]. split; [by intros ->|].
      eapply holds_some; [exact Hb|]. rewrite flats_places. by apply first_loc_place. }
  eexists. split; [done|]. cbn [cells next_loc]. split; [split|split; [done|]].
  - rewrite flat_eq, holds_cons. cbn [t_loc]. split.
    + rewrite lookup_insert_eq. unfold root_node, set_data. cbn [j_parent j_prev j_next j_key j_data t_key t_kind t_kids]. do 2 f_equal.
      rewrite <- (container_with d cs (c :: cs)), last_loc_cons by done. f_equal.
      destruct cs as [|z cs]; [done|]. rewrite last_loc_cons. by destruct (last_loc cs).
    + unfold below. cbn [t_loc t_kids]. rewrite flats_cons, holds_app. split.
      * eapply child_holds; [exact Hc0|done| |].
        -- rewrite lookup_insert_ne, alter_opt_ne, lookup_insert_eq by (done || intros Ez; by apply (Hfirst _ Ez)). by destruct (first_loc cs).
        -- intros x Hx. assert (Hxc : x ∈ places c) by (rewrite places_eq; by right). rewrite places_eq in Hn2. apply NoDup_cons in Hn2 as [Hqn _].
           rewrite lookup_insert_ne, alter_opt_ne, lookup_insert_ne; try done; [by intros <-|intros Ez; by apply (Hfirst _ Ez)|by intros ->].
      * apply holds_insert; [|by rewrite flats_places]. apply (relink_prev _ _ None); [|done].
        apply holds_insert; [done|]. rewrite flats_places. intros Hin. by apply (Hdis (t_loc c)).
  - rewrite places_eq. cbn [t_loc t_kids]. rewrite placess_cons. by rewrite (Permutation_app_comm (places c)).
  - intros x [Hxp [Hxk Hxc]%not_elem_of_app]%not_elem_of_cons.
    rewrite lookup_insert_ne, alter_opt_ne, lookup_insert_ne; [done|by intros <-|intros Ez%first_loc_place; done|done].
Qed.

(** ** Removing *)
Lemma insert_alter f z nz (m : gmap loc JsonNode) : m !! z = Some nz → <[z := f nz]> m = alter f z m.
Proof. intros Hz. apply map_eq. intros i. destruct (decide (i = z)) as [->|]; [by rewrite lookup_insert_eq, lookup_alter_eq, Hz|by rewrite lookup_insert_ne, lookup_alter_ne]. Qed.

Lemma with_same d h t : children d = Ok (h, t) → with_children d h t = d.
Proof. by destruct d; intros [= -> ->]. Qed.

Lemma remove_steps σ p q np nq h t :
  cells σ !! p = Some np → cells σ !! q = Some nq → p ≠ q → j_parent nq = Some p → children (j_data np) = Ok (h, t) →
  (∀ z, j_prev nq = Some z → z ≠ p ∧ z ≠ q ∧ is_Some (cells σ !! z)) →
  (∀ z, j_next nq = Some z → z ≠ p ∧ z ≠ q ∧ is_Some (cells σ !! z)) →
  json_remove_from_parent σ q = Ok (mk_store
    (<[q := mk_jnode None None None None (j_data nq)]>
      (<[p := set_data (with_children (j_data np) (match j_prev nq with Some _ => h | None => j_next nq end)
                                                  (match j_next nq with Some _ => t | None => j_prev nq end)) np]>
        (alter_opt (set_prev (j_prev nq)) (j_next nq) (alter_opt (set_next (j_next nq)) (j_prev nq) (cells σ))))) (next_loc σ)).
Proof.
  intros Hp Hq Hne Hpar Hc Hpv Hnx. unfold json_remove_from_parent. rewrite (load_at σ q nq Hq), bind_ret, Hpar.
  (* the first link *)
  assert (H1 : ∃ m1, match j_prev nq with Some z => update σ z (set_next (j_next nq)) | None => set_head σ p (j_next nq) end
      = Ok (mk_store m1 (next_loc σ)) ∧ m1 !! q = Some nq ∧
      m1 = <[p := set_data (with_children (j_data np) (match j_prev nq with Some _ => h | None => j_next nq end) t) np]>
             (alter_opt (set_next (j_next nq)) (j_prev nq) (cells σ))).
  { destruct (j_prev nq) as [z|]; cbn [alter_opt].
    - destruct (Hpv z eq_refl) as (? & ? & [nz Hz]). rewrite (update_at σ z nz) by done. eexists. split; [done|].
      split; [by rewrite lookup_insert_ne|]. rewrite (insert_alter _ _ _ _ Hz), with_same by done. symmetry. apply insert_id.
      rewrite lookup_alter_ne by done. rewrite Hp. by destruct np.
    - rewrite (set_head_at σ p np h t) by done. eexists. split; [done|]. split; [by rewrite lookup_insert_ne|done]. }
  destruct H1 as (m1 & -> & Hq1 & Em1). set (σ1 := mk_store m1 (next_loc σ)) in *. rewrite bind_ret, (load_at σ1 q nq Hq1), bind_ret.
  set (np1 := set_data (with_children (j_data np) (match j_prev nq with Some _ => h | None => j_next nq end) t) np) in *.
  assert (Hp1 : m1 !! p = Some np1) by (rewrite Em1; apply lookup_insert_eq).
  assert (Hc1 : children (j_data np1) = Ok (match j_prev nq with Some _ => h | None => j_next nq end, t)).
  { unfold np1, set_data. cbn [j_data]. by eapply children_with. }
  destruct (j_next nq) as [z|] eqn:En.
  - destruct (Hnx z eq_refl) as (Hzp & Hzq & [nz Hz]).
    assert (Hz1 : ∃ nz1, m1 !! z = Some nz1).
    { rewrite Em1, lookup_insert_ne by done. destruct (j_prev nq) as [y|]; cbn [alter_opt]; [|by eexists].
      destruct (decide (z = y)) as [->|]; [rewrite lookup_alter_eq, Hz; by eexists|rewrite lookup_alter_ne by done; by eexists]. }
    destruct Hz1 as [nz1 Hz1]. rewrite (update_at σ1 z nz1 _ Hz1), bind_ret. unfold σ1. cbn [cells next_loc].
    erewrite (update_at _ q nq) by (cbn [cells]; by rewrite lookup_insert_ne). cbn [cells next_loc].
    do 2 f_equal. f_equal. rewrite (insert_alter _ _ _ _ Hz1), Em1. cbn [alter_opt].
    apply map_eq. intros i. destruct (decide (i = p)) as [->|].
    + by rewrite lookup_alter_ne, !lookup_insert_eq.
    + rewrite (lookup_insert_ne _ p i) by done. destruct (decide (i = z)) as [->|]; [by rewrite !lookup_alter_eq, lookup_insert_ne|].
      by rewrite !(lookup_alter_ne _ _ z i), lookup_insert_ne.
  - rewrite (set_tail_at σ1 p np1 _ t _ Hp1 Hc1), bind_ret. unfold σ1. cbn [cells next_loc].
    erewrite (update_at _ q nq) by (cbn [cells]; by rewrite lookup_insert_ne). cbn [cells next_loc].
    do 2 f_equal. f_equal. rewrite Em1, insert_insert_eq. cbn [alter_opt]. f_equal. unfold np1, set_data.
    cbn [j_parent j_prev j_next j_key j_data]. by rewrite with_with.
Qed.

(** The child with no parent, no siblings and no key. *)
Definition unkeyed (t : ltree) : ltree := LT (t_loc t) None (t_kind t) (t_kids t).

Lemma unkeyed_places t : places (unkeyed t) = places t.
Proof. by rewrite !places_eq. Qed.

Lemma NoDup_middle p cs1 c cs2 :
  NoDup (p :: placess (cs1 ++ c :: cs2)) ↔ NoDup (p :: placess (cs1 ++ cs2) ++ places c).
Proof.
  rewrite !placess_app, placess_cons.
  by rewrite (Permutation_app_comm (places c)), app_assoc.
Qed.

Lemma remove_rep σ par prv nxt p k d cs1 c cs2 :
  is_container d = true → holds (cells σ) (flat par prv nxt (LT p k d (cs1 ++ c :: cs2))) →
  NoDup (p :: placess (cs1 ++ c :: cs2)) →
  ∃ σ', json_remove_from_parent σ (t_loc c) = Ok σ' ∧
    rep (cells σ') par prv nxt (LT p k d (cs1 ++ cs2)) ∧ rep (cells σ') None None None (unkeyed c) ∧
    next_loc σ' = next_loc σ ∧ same_but (p :: placess (cs1 ++ c :: cs2)) (cells σ) (cells σ').
Proof.
  intros Hd Hp Hnd. pose proof Hnd as Hnd'. apply NoDup_middle in Hnd'.
  pose proof (apart_intro _ _ _ Hnd') as [Hpk Hpc Hn1 Hn2 Hdis].
  rewrite flat_eq in Hp. apply holds_cons in Hp as [Hp Hb]. unfold below in Hb. cbn [t_loc t_kids] in Hp, Hb.
  rewrite flats_app, flats_cons, !holds_app in Hb. destruct Hb as (Hb1 & Hc0 & Hb2).
  cbn [first_loc head fmap option_fmap option_map link] in Hb1.
  pose proof Hc0 as Hc. rewrite flat_eq in Hc. apply holds_cons in Hc as [Hc _].
  pose proof (t_loc_place c) as Hq. assert (Hpq : p ≠ t_loc c) by (by intros ->).
  rewrite placess_app in Hpk, Hn1, Hdis. apply not_elem_of_app in Hpk as [Hpk1 Hpk2]. apply NoDup_app in Hn1 as (Hn1 & Hd12 & Hn3).
  assert (Hl : ∀ z, last_loc cs1 = Some z → z ∈ placess cs1 ∧ z ≠ p ∧ z ∉ places c).
  { intros z Ez%last_loc_place. split; [done|]. split; [by intros ->|apply Hdis, elem_of_app; by left]. }
  assert (Hf : ∀ z, first_loc cs2 = Some z → z ∈ placess cs2 ∧ z ≠ p ∧ z ∉ places c).
  { intros z Ez%first_loc_place. split; [done|]. split; [by intros ->|apply Hdis, elem_of_app; by right]. }
  assert (El : ∀ o : option loc, link o None = o) by (by intros []).
  rewrite !El in Hc0, Hc.
  rewrite (remove_steps σ p (t_loc c) _ _ _ _ Hp Hc Hpq eq_refl (container_children _ _ Hd)).
  2:{ intros z Ez. cbn [root_node j_prev] in Ez. destruct (Hl z Ez) as (? & ? & ?). split; [done|]. split; [by intros ->|].
      eapply holds_some; [exact Hb1|]. by rewrite flats_places. }
  2:{ intros z Ez. cbn [root_node j_next] in Ez. destruct (Hf z Ez) as (? & ? & ?). split; [done|]. split; [by intros ->|].
      eapply holds_some; [exact Hb2|]. by rewrite flats_places. }
  cbn [root_node j_prev j_next j_data]. eexists. split; [done|]. cbn [cells next_loc].
  split; [split|split; [split|split; [done|]]].
  - rewrite flat_eq, holds_cons. cbn [t_loc]. split.
    + rewrite lookup_insert_ne, lookup_insert_eq by done. unfold root_node, set_data.
      cbn [j_parent j_prev j_next j_key j_data t_key t_kind t_kids]. do 2 f_equal.
      rewrite <- (container_with d (cs1 ++ c :: cs2) (cs1 ++ cs2)) by done.
      rewrite !first_loc_app, !last_loc_app, last_loc_cons. f_equal.
      * destruct cs1 as [|z cs1]; [done|]. rewrite last_loc_cons. by destruct (last_loc cs1).
      * destruct cs2 as [|z cs2]; [done|]. rewrite last_loc_cons. cbn. by destruct (last_loc cs2).
    + unfold below. cbn [t_loc t_kids]. rewrite flats_app, holds_app, !El. split.
      * apply holds_insert; [|rewrite flats_places; intros Hin; by apply (Hdis (t_loc c)); [apply elem_of_app; left|]].
        apply holds_insert; [|by rewrite flats_places].
        apply holds_alter_opt; [by eapply relink_next|]. rewrite flats_places. intros z Ez Hin. by apply (Hd12 z Hin), Hf.
      * apply holds_insert; [|rewrite flats_places; intros Hin; by apply (Hdis (t_loc c)); [apply elem_of_app; right|]].
        apply holds_insert; [|by rewrite flats_places].
        eapply relink_prev; [|done]. apply holds_alter_opt; [exact Hb2|]. rewrite flats_places. intros z Ez Hin. by apply (Hd12 z); [apply Hl|].
  - rewrite places_eq. cbn [t_loc t_kids]. rewrite placess_app. rewrite placess_app in Hnd'. apply NoDup_cons in Hnd' as [? ?].
    apply NoDup_cons. split; [by apply not_elem_of_app|]. apply NoDup_app. done.
  - rewrite flat_eq, holds_cons. cbn [unkeyed t_loc]. split; [by rewrite lookup_insert_eq|].
    rewrite flat_eq, holds_cons in Hc0. destruct Hc0 as [_ Hbc]. change (below (unkeyed c)) with (below c).
    apply (holds_agree (cells σ)); [done|]. rewrite below_places. intros x Hx.
    assert (Hxc : x ∈ places c) by (rewrite places_eq; by right). rewrite places_eq in Hn2. apply NoDup_cons in Hn2 as [Hqn _].
    rewrite !lookup_insert_ne, !alter_opt_ne; try done;
      first [intros Ez; by apply (Hl _ Ez)|intros Ez; by apply (Hf _ Ez)|by intros <-|by intros ->].
  - by rewrite unkeyed_places.
  - intros x [Hxp Hx]%not_elem_of_cons. rewrite placess_app, placess_cons in Hx. apply not_elem_of_app in Hx as [Hx1 [Hxc Hx2]%not_elem_of_app].
    rewrite !lookup_insert_ne, !alter_opt_ne; try done;
      first [intros Ez; by apply Hx1, Hl|intros Ez; by apply Hx2, Hf|by intros <-].
Qed.

(** ** Deleting *)

(** The named cells are gone and the others are as they were. *)
Definition erased (ps : list loc) (m m' : gmap loc JsonNode) : Prop :=
  ∀ x, m' !! x = if decide (x ∈ ps) then None else m !! x.

Lemma erased_same ps m m' x : erased ps m m' → x ∉ ps → m' !! x = m !! x.
Proof. intros He Hx. rewrite He. by rewrite decide_False. Qed.
Lemma erased_gone ps m m' x : erased ps m m' → x ∈ ps → m' !! x = None.
Proof. intros He Hx. rewrite He. by rewrite decide_True. Qed.

(** Distinct places of a map. *)
Lemma places_size (m : gmap loc JsonNode) l : NoDup l → (∀ x, x ∈ l → is_Some (m !! x)) → (length l ≤ size m)%nat.
Proof.
  intros Hn Hl. rewrite <- size_dom, <- (size_list_to_set (C := gset loc) l Hn). apply subseteq_size.
  intros x Hx%elem_of_list_to_set. by apply elem_of_dom, Hl.
Qed.

Lemma rep_size m par prv nxt t : rep m par prv nxt t → (length (places t) ≤ size m)%nat.
Proof. intros [Hh Hn]. apply places_size; [done|]. intros x Hx. eapply holds_some; [exact Hh|]. by rewrite flat_places. Qed.

Lemma kids_le cs : (length cs ≤ length (placess cs))%nat.
Proof.
  induction cs as [|c cs IH]; [done|]. rewrite placess_cons, length_app, places_eq. cbn [length]. lia.
Qed.

(** A detached node stays as it is. *)
Lemma remove_root σ t prv nxt : rep (cells σ) None prv nxt t → json_remove_from_parent σ (t_loc t) = Ok σ.
Proof.
  intros [Hh _]. rewrite flat_eq in Hh. apply holds_cons in Hh as [Hr _]. unfold json_remove_from_parent.
  by rewrite (load_at _ _ _ Hr).
Qed.

Lemma delete_detached fuel σ σ1 q :
  json_remove_from_parent σ q = Ok σ1 → json_remove_from_parent σ1 q = Ok σ1 → delete_node fuel σ q = delete_node fuel σ1 q.
Proof. intros H1 H2. destruct fuel as [|fuel]; [done|]. cbn [delete_node]. by rewrite H1, H2. Qed.

(** Only arrays and objects have children. *)
Inductive shaped : ltree → Prop :=
  shaped_intro p k d cs : (is_container d = false → cs = []) → Forall shaped cs → shaped (LT p k d cs).

Lemma shaped_unkeyed t : shaped t → shaped (unkeyed t).
Proof. intros [p k d cs H1 H2]. by constructor. Qed.

(** The deletion of a whole tree, with this fuel. *)
Definition deletes (fuel : nat) : Prop :=
  ∀ σ t, shaped t → rep (cells σ) None None None t → (length (places t) ≤ fuel)%nat →
  ∃ σ', delete_node fuel σ (t_loc t) = Ok σ' ∧ erased (places t) (cells σ) (cells σ') ∧ next_loc σ' = next_loc σ.

Lemma rep_nodup m par prv nxt p k d cs : rep m par prv nxt (LT p k d cs) → NoDup (p :: placess cs).
Proof. intros [_ Hn]. by rewrite places_eq in Hn. Qed.

Lemma delete_children_rep fuel p k d : deletes fuel → is_container d = true →
  ∀ cs n σ, Forall shaped cs → (length cs ≤ n)%nat → (length (placess cs) ≤ fuel)%nat → rep (cells σ) None None None (LT p k d cs) →
  ∃ σ', delete_children (delete_node fuel) n σ (first_loc cs) = Ok σ' ∧ is_Some (cells σ' !! p) ∧
    (∀ x, x ≠ p → cells σ' !! x = if decide (x ∈ placess cs) then None else cells σ !! x) ∧ next_loc σ' = next_loc σ.
Proof.
  intros Hdel Hd cs. induction cs as [|c cs IH]; intros n σ Hsh Hn Hf Hr.
  { exists σ. split; [by destruct n|]. split; [|by split]. eapply holds_some; [apply Hr|]. rewrite flat_places. apply (t_loc_place (LT p k d [])). }
  apply Forall_cons in Hsh as [Hshc Hsh].
  pose proof (rep_nodup _ _ _ _ _ _ _ _ Hr) as Hnd. pose proof Hnd as Hnd'. apply (NoDup_middle p [] c cs) in Hnd'. cbn [app] in Hnd'.
  pose proof (apart_intro _ _ _ Hnd') as [Hpk Hpc Hn1 Hn2 Hdis].
  destruct (remove_rep σ None None None p k d [] c cs Hd (proj1 Hr) Hnd) as (σ1 & Hrem & Hr1 & Hc1 & Hx1 & Hs1).
  cbn [app] in Hr1, Hs1. rewrite placess_cons, length_app in Hf.
  destruct (Hdel σ1 (unkeyed c) (shaped_unkeyed _ Hshc) Hc1) as (σ2 & Hdel2 & He2 & Hx2); [rewrite unkeyed_places; lia|]. rewrite unkeyed_places in He2. change (t_loc (unkeyed c)) with (t_loc c) in Hdel2.
  assert (Hr2 : rep (cells σ2) None None None (LT p k d cs)).
  { destruct Hr1 as [Hh1 Hnn]. split; [|done]. apply (holds_agree (cells σ1)); [done|]. rewrite flat_places, places_eq. cbn [t_loc t_kids].
    intros x [->|Hx]%elem_of_cons; eapply erased_same; [exact He2|done|exact He2|by apply Hdis]. }
  destruct n as [|n]; [cbn in Hn; lia|]. destruct (IH n σ2) as (σ3 & Hdel3 & Hp3 & He3 & Hx3); [done|cbn in Hn; lia|lia|done|].
  exists σ3. split; [|split; [done|split; [|congruence]]].
  - cbn [first_loc head fmap option_fmap option_map delete_children].
    destruct Hr as [Hh _]. rewrite flat_eq in Hh. apply holds_cons in Hh as [_ Hh]. unfold below in Hh. cbn [t_kids] in Hh.
    rewrite flats_cons, flat_eq in Hh. apply holds_app in Hh as [Hh _]. apply holds_cons in Hh as [Hc _].
    rewrite (load_at _ _ _ Hc), bind_ret, (delete_detached _ σ σ1), Hdel2 by first [done|by apply (remove_root σ1 (unkeyed c) None None)].
    rewrite bind_ret. cbn [root_node j_next]. by destruct (first_loc cs).
  - intros x Hxp. rewrite He3, placess_cons by done. destruct (decide (x ∈ placess cs)) as [Hx|Hx].
    { rewrite decide_True by (apply elem_of_app; by right). done. }
    rewrite He2. destruct (decide (x ∈ places c)) as [Hxc|Hxc]; [rewrite decide_True by (apply elem_of_app; by left); done|].
    rewrite decide_False by (by apply not_elem_of_app). apply Hs1. rewrite not_elem_of_cons, placess_cons. split; [done|by apply not_elem_of_app].
Qed.

(** Every cell of the tree is freed, and only those. *)
Lemma delete_rep fuel : deletes fuel.
Proof.
  induction fuel as [|fuel IH]; intros σ [p k d cs] Hsh Hr Hf; [rewrite places_eq in Hf; cbn in Hf; lia|].
  cbn [delete_node]. rewrite (remove_root _ _ _ _ Hr), bind_ret. pose proof Hr as [Hh Hn]. inversion_clear Hsh as [? ? ? ? Hleaf Hsh'].
  rewrite flat_eq in Hh. apply holds_cons in Hh as [Hp _]. rewrite (load_at _ _ _ Hp), bind_ret. cbn [root_node j_data t_kind t_kids t_loc] in *.
  rewrite places_eq in Hf, Hn. cbn [t_loc t_kids length] in Hf, Hn. apply NoDup_cons in Hn as [Hpk Hn].
  assert (Hch : ∃ σ', match data_of d cs with
        | JSON_ARRAY h _ | JSON_OBJECT h _ => delete_children (delete_node fuel) (size (cells σ)) σ h
        | _ => Ok σ end = Ok σ' ∧ is_Some (cells σ' !! p) ∧
      (∀ x, x ≠ p → cells σ' !! x = if decide (x ∈ placess cs) then None else cells σ !! x) ∧ next_loc σ' = next_loc σ).
  { destruct (is_container d) eqn:Ed.
    - pose proof (rep_size _ _ _ _ _ Hr) as Hs. rewrite places_eq in Hs. cbn [t_kids length] in Hs. pose proof (kids_le cs).
      destruct (delete_children_rep fuel p k d IH Ed cs (size (cells σ)) σ) as (σ' & Hd & Hrest); [done|lia|lia|done|].
      exists σ'. destruct d; try done; by rewrite <- Hd.
    - exists σ. split; [by destruct d|]. rewrite Hleaf by done. split; [by rewrite Hp|]. split; [|done]. intros x _.
      by rewrite decide_False by apply not_elem_of_nil. }
  destruct Hch as (σ' & -> & [n' Hp'] & He & Hx). rewrite bind_ret, (load_at _ _ _ Hp'), bind_ret. eexists. split; [done|]. split; [|done].
  cbn [cells]. intros x. rewrite places_eq. cbn [t_loc t_kids]. destruct (decide (x = p)) as [->|Hxp].
  - rewrite lookup_delete_eq, decide_True; [done|by left].
  - rewrite lookup_delete_ne, He by done. apply decide_ext. rewrite elem_of_cons. naive_solver.
Qed.

(** * Looking at nodes (ccan/json/json.c)

    The searches among the children of a node find what they find in the list of
    the children; [json_check] has nothing to say about a tree whose links are
    those of its lists of children. *)

Lemma rep_parts m par prv nxt t : rep m par prv nxt t →
  m !! t_loc t = Some (root_node par prv nxt t) ∧ holds m (flats (Some (t_loc t)) None None (t_kids t)) ∧
  NoDup (t_loc t :: placess (t_kids t)).
Proof. intros [Hh Hn]. rewrite flat_eq in Hh. apply holds_cons in Hh as [? ?]. by rewrite places_eq in Hn. Qed.

Lemma rep_kids m par prv nxt t : rep m par prv nxt t → (length (t_kids t) < size m)%nat.
Proof. intros Hs%rep_size. rewrite places_eq in Hs. cbn [length] in Hs. pose proof (kids_le (t_kids t)). lia. Qed.

(** ** Searches *)

(** The first child that passes the test. *)
Fixpoint first_with (tb : Z → ltree → bool) (i : Z) (cs : list ltree) : option loc :=
  match cs with
  | [] => None
  | c :: cs => if tb i c then Some (t_loc c) else first_with tb (i + 1) cs
  end.

Lemma link_None (o : option loc) : link o None = o.
Proof. by destruct o. Qed.

Lemma find_among_rep test tb σ par k cs : ∀ i prv,
  Forall (λ c, ∀ i a b e, test i (root_node a b e c) = Ok (tb i c)) cs →
  holds (cells σ) (flats par prv None cs) → (length cs ≤ k)%nat →
  find_among test k σ i (first_loc cs) = Ok (first_with tb i cs).
Proof.
  revert k. induction cs as [|c cs IH]; intros k i prv Ht Hh Hk; [by destruct k|]. destruct k as [|k]; [cbn in Hk; lia|].
  rewrite flats_cons, flat_eq in Hh. apply holds_app in Hh as [Hh Hcs]. apply holds_cons in Hh as [Hc _].
  apply Forall_cons in Ht as [Htc Ht]. cbn [first_loc head fmap option_fmap option_map find_among first_with].
  rewrite (load_at _ _ _ Hc), bind_ret, Htc, bind_ret. destruct (tb i c); [done|].
  cbn [root_node j_next]. rewrite link_None. apply (IH k _ _ Ht Hcs). cbn in Hk. lia.
Qed.

Lemma first_child_rep σ par prv nxt t : rep (cells σ) par prv nxt t →
  json_first_child σ (Some (t_loc t)) = Ok (if is_container (t_kind t) then first_loc (t_kids t) else None).
Proof.
  intros (Hr & _)%rep_parts. unfold json_first_child. rewrite (load_at _ _ _ Hr), bind_ret. cbn [root_node j_data].
  by destruct (t_kind t).
Qed.

Lemma first_with_index index cs : ∀ i, i ≤ index →
  first_with (λ i _, i =? index) i cs = t_loc <$> cs !! Z.to_nat (index - i).
Proof.
  induction cs as [|c cs IH]; intros i Hi; [done|]. cbn [first_with]. destruct (Z.eqb_spec i index) as [->|].
  - by rewrite Z.sub_diag.
  - rewrite IH by lia. by replace (Z.to_nat (index - i)) with (S (Z.to_nat (index - (i + 1)))) by lia.
Qed.

Lemma first_with_before index cs : ∀ i, index < i → first_with (λ i _, i =? index) i cs = None.
Proof.
  induction cs as [|c cs IH]; intros i Hi; [done|]. cbn [first_with]. replace (i =? index) with false by lia. apply IH. lia.
Qed.

(** The element with an index, if there is one. *)
Lemma find_element_rep σ par prv nxt t index : rep (cells σ) par prv nxt t → t_kind t = KArray →
  json_find_element σ (Some (t_loc t)) index = Ok (if index <? 0 then None else t_loc <$> t_kids t !! Z.to_nat index).
Proof.
  intros Hr Hk. unfold json_find_element. rewrite (first_child_rep _ _ _ _ _ Hr), Hk. pose proof (rep_kids _ _ _ _ _ Hr).
  apply rep_parts in Hr as (Hr & Hb & _). rewrite (load_at _ _ _ Hr), bind_ret. cbn [root_node j_data]. rewrite Hk.
  cbn [data_of is_array is_container]. rewrite bind_ret.
  rewrite (find_among_rep _ (λ i _, i =? index) σ _ _ _ 0 _) with (2 := Hb); [|by apply Forall_true|lia].
  f_equal. destruct (Z.ltb_spec index 0); [by apply first_with_before|]. rewrite first_with_index by done. by rewrite Z.sub_0_r.
Qed.

(** The first member with a name. *)
Definition named (name : str) (c : ltree) : bool := match t_key c with Some k => str_eqb k name | None => false end.

Lemma first_with_named name cs : ∀ i, first_with (λ _ c, named name c) i cs = t_loc <$> head (base.filter (λ c, named name c = true) cs).
Proof.
  induction cs as [|c cs IH]; intros i; [done|]. cbn [first_with]. rewrite filter_cons. destruct (named name c) eqn:E.
  - by rewrite decide_True.
  - rewrite decide_False by done. apply IH.
Qed.

Lemma find_member_rep σ par prv nxt t name : rep (cells σ) par prv nxt t → t_kind t = KObject →
  Forall (λ c, is_Some (t_key c)) (t_kids t) →
  json_find_member σ (Some (t_loc t)) name = Ok (t_loc <$> head (base.filter (λ c, named name c = true) (t_kids t))).
Proof.
  intros Hr Hk Hkeys. unfold json_find_member. rewrite (first_child_rep _ _ _ _ _ Hr), Hk. pose proof (rep_kids _ _ _ _ _ Hr).
  apply rep_parts in Hr as (Hr & Hb & _). rewrite (load_at _ _ _ Hr), bind_ret. cbn [root_node j_data]. rewrite Hk.
  cbn [data_of is_object is_container]. rewrite bind_ret.
  rewrite (find_among_rep _ (λ _ c, named name c) σ _ _ _ 0 _) with (2 := Hb); [by rewrite first_with_named| |lia].
  eapply Forall_impl; [exact Hkeys|]. intros c [key Hc] _ a b e. unfold key_is, named. cbn [root_node j_key]. by rewrite Hc.
Qed.

(** ** [json_check] *)
Definition text_opt (k : option str) : Prop := match k with Some s => utf8_text s | None => True end.
Definition text_kind (d : kind) : Prop := match d with KString s => utf8_text s | _ => True end.

(** Texts are UTF-8; the elements of an array have no keys and the members of an
    object have. *)
Inductive proper : ltree → Prop :=
  proper_intro p k d cs :
    text_opt k → text_kind d → (is_container d = false → cs = []) →
    (d = KArray → Forall (λ c, t_key c = None) cs) → (d = KObject → Forall (λ c, is_Some (t_key c)) cs) →
    Forall proper cs → proper (LT p k d cs).

Lemma bad_text_ok k msg : text_opt k → bad_text k msg = Ok None.
Proof.
  destruct k as [s|]; [|done]. intros Hs. unfold bad_text. pose proof Hs as (us & Hus & E).
  destruct (utf8_validate_Ok s) as (b & -> & Hb); [rewrite E; by apply utf8s_bytes|rewrite E; by apply utf8s_no_null|].
  cbn [mbind res_bind]. by rewrite (proj2 Hb Hs).
Qed.

Lemma bool_false (P : Prop) `{Decision P} : ¬ P → bool_decide P = false.
Proof. apply bool_decide_eq_false_2. Qed.

Lemma NoDup_split p cs1 c cs2 : NoDup (p :: placess (cs1 ++ c :: cs2)) →
  t_loc c ≠ p ∧ ∀ z, first_loc cs2 = Some z → z ≠ t_loc c ∧ Some z ≠ first_loc (cs1 ++ c :: cs2).
Proof.
  rewrite placess_app, placess_cons. intros [Hp (_ & H12 & (_ & Hc2 & _)%NoDup_app)%NoDup_app]%NoDup_cons.
  pose proof (t_loc_place c) as Hc. split.
  { intros <-. apply Hp. apply elem_of_app. right. apply elem_of_app. by left. }
  intros z Hz%first_loc_place. split; [intros ->; by apply (Hc2 (t_loc c))|]. intros E. destruct cs1 as [|c1 cs1].
  - injection E as ->. by apply (Hc2 (t_loc c)).
  - apply (H12 z); [|apply elem_of_app; by right]. apply first_loc_place. rewrite E. done.
Qed.

(** One child: its links are in order. *)
Lemma check_child_rep σ p (arr : bool) prv cs1 c cs2 h :
  holds (cells σ) (flats (Some p) prv None (c :: cs2)) → NoDup (p :: placess (cs1 ++ c :: cs2)) →
  first_loc (cs1 ++ c :: cs2) = Some h → (if arr then t_key c = None else is_Some (t_key c)) →
  check_child σ p arr h (t_loc c) = Ok None.
Proof.
  rewrite flats_cons, flat_eq. intros [[Hc _]%holds_cons Hcs]%holds_app Hnd Hh Hkey. apply NoDup_split in Hnd as [Hne Hnx].
  unfold check_child. rewrite (load_at _ _ _ Hc), bind_ret. cbn [root_node j_next j_parent j_key]. rewrite link_None.
  rewrite (bool_false (t_loc c = p)), (bool_false (first_loc cs2 = Some (t_loc c))) by (done || intros E; by destruct (Hnx _ E)).
  rewrite (bool_false (first_loc cs2 = Some h)) by (intros E; destruct (Hnx _ E); congruence).
  rewrite (bool_false (Some p ≠ Some p)) by auto.
  assert (Hback : match first_loc cs2 with None => Ok (Some (t_loc c)) | Some q => m ← load σ q; Ok (j_prev m) end = Ok (Some (t_loc c))).
  { destruct cs2 as [|c2 cs2]; [done|]. rewrite flats_cons, flat_eq in Hcs. apply holds_app in Hcs as [[Hc2 _]%holds_cons _].
    cbn [first_loc head fmap option_fmap option_map]. by rewrite (load_at _ _ _ Hc2). }
  rewrite Hback, bind_ret, bool_false by auto. destruct arr; cbn [andb negb].
  - by rewrite bool_false by auto.
  - destruct Hkey as [key ->]. by rewrite bool_false.
Qed.

(** The rest of the children, those before it being in order. *)
Lemma check_children_rep (rec : store → loc → res (option str)) σ p arr h cs2 : ∀ cs1 prv k,
  Forall (λ c, rec σ (t_loc c) = Ok None) cs2 → Forall (λ c, if arr : bool then t_key c = None else is_Some (t_key c)) cs2 →
  holds (cells σ) (flats (Some p) prv None cs2) → NoDup (p :: placess (cs1 ++ cs2)) →
  first_loc (cs1 ++ cs2) = Some h → (length cs2 ≤ k)%nat →
  check_children rec k σ p arr h (first_loc cs2) (last_loc cs1) = Ok (None, last_loc (cs1 ++ cs2)).
Proof.
  induction cs2 as [|c cs2 IH]; intros cs1 prv k Hrec Hkeys Hh Hnd Hfst Hk; [rewrite app_nil_r; by destruct k|].
  destruct k as [|k]; [cbn in Hk; lia|]. apply Forall_cons in Hrec as [Hrc Hrec], Hkeys as [Hkc Hkeys].
  cbn [first_loc head fmap option_fmap option_map check_children].
  rewrite (check_child_rep _ _ _ _ _ _ _ _ Hh Hnd Hfst Hkc), bind_ret, Hrc, bind_ret.
  rewrite flats_cons, flat_eq in Hh. apply holds_app in Hh as [[Hc _]%holds_cons Hcs].
  rewrite (load_at _ _ _ Hc), bind_ret. cbn [root_node j_next]. rewrite link_None, <- (last_loc_snoc cs1 c).
  rewrite (cons_middle c cs1 cs2), app_assoc in Hnd, Hfst |- *. apply (IH _ _ k Hrec Hkeys Hcs Hnd Hfst). cbn in Hk. lia.
Qed.

Lemma check_list_rep (rec : store → loc → res (option str)) σ par prv nxt t arr : rep (cells σ) par prv nxt t →
  Forall (λ c, rec σ (t_loc c) = Ok None) (t_kids t) →
  Forall (λ c, if arr : bool then t_key c = None else is_Some (t_key c)) (t_kids t) →
  check_list rec σ (t_loc t) arr (first_loc (t_kids t)) (last_loc (t_kids t)) = Ok None.
Proof.
  intros Hr Hrec Hkeys. pose proof (rep_kids _ _ _ _ _ Hr). apply rep_parts in Hr as (_ & Hb & Hnd). unfold check_list.
  destruct (t_kids t) as [|c cs] eqn:E; [done|]. pose proof (last_loc_cons c cs) as Hl.
  assert (∃ l, last_loc (c :: cs) = Some l) as [l El] by (rewrite Hl; destruct (last_loc cs); eauto). rewrite El.
  cbn [first_loc head fmap option_fmap option_map].
  pose proof Hb as Hb'. rewrite flats_cons, flat_eq in Hb'. apply holds_app in Hb' as [[Hc _]%holds_cons _].
  rewrite (load_at _ _ _ Hc), bind_ret. cbn [root_node j_prev]. rewrite bool_false by auto.
  pose proof (check_children_rep rec σ (t_loc t) arr (t_loc c) (c :: cs) [] None (size (cells σ)) Hrec Hkeys Hb Hnd eq_refl ltac:(lia)) as Hch.
  change (last_loc []) with (@None loc) in Hch. cbn [app first_loc head fmap option_fmap option_map] in Hch. rewrite Hch, bind_ret.
  by rewrite El, bool_decide_eq_true_2.
Qed.

Lemma rep_child σ par prv nxt t c : rep (cells σ) par prv nxt t → c ∈ t_kids t → ∃ a b e, rep (cells σ) a b e c.
Proof.
  intros (_ & Hb & Hnd)%rep_parts (cs1 & cs2 & E)%list_elem_of_split. rewrite E in Hb, Hnd.
  rewrite flats_app, flats_cons, !holds_app in Hb. destruct Hb as (_ & Hc & _). eexists _, _, _. split; [exact Hc|].
  apply NoDup_middle, apart_intro in Hnd. apply Hnd.
Qed.

Lemma child_places t c : c ∈ t_kids t → (length (places c) < length (places t))%nat.
Proof.
  intros (cs1 & cs2 & E)%list_elem_of_split. rewrite (places_eq t), E, placess_app, placess_cons. cbn [length].
  rewrite !length_app. lia.
Qed.

Lemma check_node_rep fuel : ∀ σ par prv nxt t, proper t → rep (cells σ) par prv nxt t → (length (places t) ≤ fuel)%nat →
  check_node fuel σ (t_loc t) = Ok None.
Proof.
  induction fuel as [|fuel IH]; intros σ par prv nxt t Ht Hr Hf; [rewrite places_eq in Hf; cbn in Hf; lia|].
  pose proof (rep_parts _ _ _ _ _ Hr) as (Hp & _ & _). cbn [check_node]. rewrite (load_at _ _ _ Hp), bind_ret. cbn [root_node j_key j_data].
  destruct t as [p k d cs]. inversion_clear Ht as [? ? ? ? Hkey Hkind _ Harr Hobj Hcs].
  rewrite bad_text_ok, bind_ret by done. cbn [t_kind t_kids t_loc].
  assert (Hrec : Forall (λ c, check_node fuel σ (t_loc c) = Ok None) cs).
  { apply Forall_forall. intros c Hc. destruct (rep_child _ _ _ _ _ c Hr Hc) as (a & b & e & Hrc).
    pose proof (child_places (LT p k d cs) c Hc). rewrite Forall_forall in Hcs. apply (IH σ a b e); [by apply Hcs|done|lia]. }
  destruct d; try done.
  - by apply (bad_text_ok (Some s)).
  - by apply (check_list_rep _ σ par prv nxt (LT p k KArray cs) true Hr Hrec), Harr.
  - by apply (check_list_rep _ σ par prv nxt (LT p k KObject cs) false Hr Hrec), Hobj.
Qed.

Lemma check_rep σ par prv nxt t : proper t → rep (cells σ) par prv nxt t → json_check σ (t_loc t) = Ok None.
Proof. intros Ht Hr. apply (check_node_rep _ _ _ _ _ _ Ht Hr). by apply (rep_size _ _ _ _ _ Hr). Qed.
