(* ===== verification/JsonBuf.v ===== *)
(** * The string buffer of the JSON library (ccan/json/json.c)

    [SB] holds the bytes written so far and the room that was allocated for them.
    The code also writes through a pointer [b] of its own into the room it asked
    for, and sets [cur] to it afterwards: such bytes are part of the text at once,
    and a write beyond the allocated bytes is [EOob]. *)
From Stdlib Require Import Strings.String.
From S2P Require Import Prelude.
From S2P Require Import Rule.
From S2P Require Import Scanf.
From S2P Require Import CString.
From S2P Require Import JsonStore.
#[local] Open Scope Z_scope.

(** The bytes in front of [cur], and [end - start]. *)
Record SB := mk_SB { sb_text : str; sb_alloc : Z }.

Section buffer.
Context `{Allocator}.

Definition sb_init : res SB := if alloc_ok 17 then Ok (mk_SB [] 16) else Err out_of_memory.

(** [do { alloc *= 2; } while (alloc < length + need);] *)
Fixpoint grow_loop (fuel : nat) (alloc want : Z) : res Z :=
  match fuel with
  | O => Err EFuel
  | S fuel => let alloc := u64 (alloc * 2) in if alloc <? want then grow_loop fuel alloc want else Ok alloc
  end.

(** [realloc] keeps the bytes. *)
Definition sb_grow (sb : SB) (need : Z) : res SB :=
  let length := zlen (sb_text sb) in
  alloc ← grow_loop 64 (sb_alloc sb) (u64 (length + need));
  if alloc_ok (alloc + 1) then Ok (mk_SB (sb_text sb) alloc) else Err out_of_memory.

Definition sb_need (sb : SB) (need : Z) : res SB :=
  if sb_alloc sb - zlen (sb_text sb) <? need then sb_grow sb need else Ok sb.

(** Stores at [cur] and behind it: [sb_alloc + 1] bytes were allocated. *)
Definition sb_write (sb : SB) (bytes : list Z) : res SB :=
  if zlen (sb_text sb) + zlen bytes <=? sb_alloc sb + 1 then Ok (mk_SB (sb_text sb ++ bytes) (sb_alloc sb)) else Err EOob.

(** [memcpy] of [count] bytes: a negative count is a huge one. *)
Definition sb_put (sb : SB) (bytes : list Z) (count : Z) : res SB :=
  sb ← sb_need sb count;
  if (0 <=? count) && (count <=? zlen bytes) then sb_write sb (take (Z.to_nat count) bytes) else Err EOob.

Definition sb_putc (sb : SB) (c : Z) : res SB :=
  sb ← (if sb_alloc sb <=? zlen (sb_text sb) then sb_grow sb 1 else Ok sb);
  sb_write sb [c].

(** The length becomes an [int]. *)
Definition sb_puts (sb : SB) (s : str) : res SB := sb_put sb s (s32 (zlen s)).

Definition sb_finish (sb : SB) : res str :=
  fin ← sb_write sb [0];
  _ ← assert_ (forallb (λ c, negb (c =? 0)) (sb_text sb));
  Ok (sb_text sb).
End buffer.

(** ** Room *)

(** Texts of at most this length never overflow the arithmetic. *)
Definition text_max : Z := 2 ^ 60.
Definition sb_ok (sb : SB) : Prop := zlen (sb_text sb) ≤ sb_alloc sb ∧ 16 ≤ sb_alloc sb < 2 ^ 62.

Lemma grow_loop_ok fuel alloc want :
  0 < alloc → alloc < want ≤ 2 ^ 61 → want ≤ alloc * 2 ^ Z.of_nat fuel →
  ∃ a, grow_loop fuel alloc want = Ok a ∧ want ≤ a < 2 * want.
Proof.
  revert alloc. induction fuel as [|fuel IH]; intros alloc Ha Hw Hf; [change (2 ^ Z.of_nat 0) with 1 in Hf; lia|].
  cbn [grow_loop]. unfold u64. rewrite Z.mod_small by lia. destruct (Z.ltb_spec (alloc * 2) want).
  - apply IH; [lia|lia|]. rewrite Nat2Z.inj_succ, Z.pow_succ_r in Hf by lia. lia.
  - eexists. split; [done|]. lia.
Qed.

Section room.
Context `{AllocTotal}.

Lemma sb_grow_ok sb need : sb_ok sb → 0 ≤ need ≤ 2 ^ 31 → zlen (sb_text sb) ≤ text_max + 1 → sb_alloc sb < zlen (sb_text sb) + need →
  ∃ sb', sb_grow sb need = Ok sb' ∧ sb_text sb' = sb_text sb ∧ sb_ok sb' ∧ zlen (sb_text sb) + need ≤ sb_alloc sb'.
Proof.
  intros [Hl Ha] Hn Hm Hlt. unfold sb_grow, text_max in *. assert (0 ≤ zlen (sb_text sb)) by (unfold zlen; lia).
  unfold u64 at 1. rewrite (Z.mod_small (_ + _)) by lia.
  destruct (grow_loop_ok 64 (sb_alloc sb) (zlen (sb_text sb) + need)) as (a & -> & Hal); [lia|lia| |].
  { change (2 ^ Z.of_nat 64) with (2 ^ 64). lia. }
  rewrite bind_ret, alloc_total. eexists. split; [done|]. unfold sb_ok. cbn [sb_text sb_alloc]. repeat split; lia.
Qed.

Lemma sb_need_ok sb need : sb_ok sb → 0 ≤ need ≤ 2 ^ 31 → zlen (sb_text sb) ≤ text_max + 1 →
  ∃ sb', sb_need sb need = Ok sb' ∧ sb_text sb' = sb_text sb ∧ sb_ok sb' ∧ zlen (sb_text sb) + need ≤ sb_alloc sb'.
Proof.
  intros Hsb Hn Hm. unfold sb_need. destruct (Z.ltb_spec (sb_alloc sb - zlen (sb_text sb)) need).
  - apply sb_grow_ok; [done..|lia].
  - exists sb. repeat split; [apply Hsb..|lia].
Qed.

Lemma sb_init_ok : ∃ sb, sb_init = Ok sb ∧ sb_text sb = [] ∧ sb_ok sb.
Proof. unfold sb_init. rewrite alloc_total. eexists. split; [done|]. split; [done|]. unfold sb_ok, zlen. cbn [sb_text sb_alloc length]. lia. Qed.

Lemma sb_write_ok sb bs : sb_ok sb → zlen (sb_text sb) + zlen bs ≤ sb_alloc sb →
  ∃ sb', sb_write sb bs = Ok sb' ∧ sb_text sb' = sb_text sb ++ bs ∧ sb_alloc sb' = sb_alloc sb ∧ sb_ok sb'.
Proof.
  intros [_ Ha] Hl. unfold sb_write. rewrite (proj2 (Z.leb_le _ _)) by lia. eexists. split; [done|]. split; [done|]. split; [done|].
  split; cbn [sb_text sb_alloc]; [rewrite zlen_app; lia|done].
Qed.

(** ** Writers

    What a writer adds to a buffer, whatever the buffer holds. *)
Definition emits (f : SB → res SB) (t : str) : Prop :=
  ∀ sb, sb_ok sb → zlen (sb_text sb) + zlen t ≤ text_max →
  ∃ sb', f sb = Ok sb' ∧ sb_text sb' = sb_text sb ++ t ∧ sb_ok sb'.

Lemma emits_seq f g s t : emits f s → emits g t → emits (λ sb, sb ← f sb; g sb) (s ++ t).
Proof.
  intros Hf Hg sb Hsb Hl. rewrite zlen_app in Hl. pose proof (zlen_nonneg s). pose proof (zlen_nonneg t).
  destruct (Hf sb Hsb ltac:(lia)) as (sb1 & -> & E1 & Hk1). rewrite bind_ret.
  destruct (Hg sb1 Hk1) as (sb2 & -> & E2 & Hk2); [rewrite E1, zlen_app; lia|].
  exists sb2. split; [done|]. split; [by rewrite E2, E1, app_assoc|done].
Qed.

Lemma emits_nil : emits Ok [].
Proof. intros sb Hsb _. exists sb. by rewrite app_nil_r. Qed.

Lemma emits_puts s : zlen s < 2 ^ 31 → emits (λ sb, sb_puts sb s) s.
Proof.
  intros Hs sb Hsb Hl. pose proof (zlen_nonneg s). unfold sb_puts, sb_put, s32. rewrite Z.mod_small by lia.
  replace (zlen s + 2 ^ 31 - 2 ^ 31) with (zlen s) by lia.
  destruct (sb_need_ok sb (zlen s)) as (sb1 & -> & E1 & Hk1 & Ha); [done|lia|unfold text_max in *; lia|]. rewrite bind_ret.
  replace (_ && _) with true by lia. unfold zlen at 1. rewrite Nat2Z.id, take_ge by done.
  destruct (sb_write_ok sb1 s Hk1) as (sb2 & -> & E2 & _ & Hk2); [rewrite E1; lia|]. exists sb2. split; [done|]. by rewrite E2, E1.
Qed.

Lemma emits_putc c : emits (λ sb, sb_putc sb c) [c].
Proof.
  intros sb Hsb Hl. unfold sb_putc. change (zlen [c]) with 1 in Hl.
  assert (∃ sb1, (if sb_alloc sb <=? zlen (sb_text sb) then sb_grow sb 1 else Ok sb) = Ok sb1 ∧
    sb_text sb1 = sb_text sb ∧ sb_ok sb1 ∧ zlen (sb_text sb) + 1 ≤ sb_alloc sb1) as (sb1 & -> & E1 & Hk1 & Ha).
  { destruct (Z.leb_spec (sb_alloc sb) (zlen (sb_text sb))).
    - apply sb_grow_ok; [done|lia|unfold text_max in *; lia|lia].
    - exists sb. repeat split; [apply Hsb..|lia]. }
  rewrite bind_ret. destruct (sb_write_ok sb1 [c] Hk1) as (sb2 & -> & E2 & _ & Hk2); [rewrite E1; change (zlen [c]) with 1; lia|].
  exists sb2. split; [done|]. by rewrite E2, E1.
Qed.

Lemma sb_finish_ok sb : sb_ok sb → no_null (sb_text sb) → sb_finish sb = Ok (sb_text sb).
Proof.
  intros [Hl Ha] Hn. unfold sb_finish, sb_write. rewrite (proj2 (Z.leb_le _ _)) by (change (zlen [0]) with 1; lia). rewrite bind_ret.
  replace (forallb _ _) with true; [done|]. symmetry. apply forallb_forall. intros c Hc%list_elem_of_In.
  unfold no_null in Hn. rewrite Forall_forall in Hn. by rewrite (Hn c Hc).
Qed.

(** A writer run on a new buffer. *)
Lemma emits_finish f t : emits f t → zlen t ≤ text_max → no_null t →
  (sb ← sb_init; sb ← f sb; sb_finish sb) = Ok t.
Proof.
  intros Hf Hl Hn. destruct sb_init_ok as (sb & -> & E & Hsb). rewrite bind_ret.
  destruct (Hf sb Hsb) as (sb1 & -> & E1 & Hk1); [by rewrite E|]. rewrite bind_ret. rewrite E in E1. cbn [app] in E1.
  rewrite sb_finish_ok; [by rewrite E1|done|by rewrite E1].
Qed.
End room.
