(* ===== verification/Json.v ===== *)
(** * Reading and writing JSON (ccan/json/json.c)

    The parser that builds nodes ([json_decode]) or only looks at the text
    ([json_validate]), and the two writers ([json_encode], [json_stringify]).

    A pointer into the text is the list of the bytes from there on, the null
    included.  The flag [out] says whether the caller gave a place for the result;
    without it the results are [None].  A parser function returns the store, and
    [None] if it returns false. *)
From Stdlib Require Import Strings.String.
From stdpp Require Import gmap.
From S2P Require Import Prelude.
From S2P Require Import Rule.
From S2P Require Import Scanf.
From S2P Require Import CString.
From S2P Require Import Double.
From S2P Require Import Utf8.
From S2P Require Import JsonNum.
From S2P Require Import JsonStore.
From S2P Require Import JsonBuf.
#[local] Open Scope Z_scope.

Notation "'if_ok' ' p ':=' m ; k" := (attempt m (λ x, match x with p => k end))
  (at level 200, p strict pattern, m at level 100, k at level 200, right associativity,
   format "'if_ok'  ' p  ':='  m ; '//' k") : c_scope.

(** ** Space and literals *)
Definition is_space (c : Z) : bool := (c =? 9) || (c =? 10) || (c =? 13) || (c =? 32).

Fixpoint skip_space_loop (fuel : nat) (s : ptr) : res ptr :=
  match fuel with
  | O => Err EFuel
  | S fuel => c ← deref s; if is_space c then skip_space_loop fuel (tail s) else Ok s
  end.
(** Every round reads one of the bytes. *)
Definition skip_space (s : ptr) : res ptr := skip_space_loop (S (length s)) s.

Fixpoint expect_literal (s : ptr) (str : str) : res (option ptr) :=
  match str with
  | [] => Ok (Some s)
  | d :: str => '(c, s) ← getc s; if c =? d then expect_literal s str else Ok None
  end.

(** ** Strings *)

(** Behind a backslash: the bytes of the character, and what follows. *)
Definition parse_escape (s : ptr) : res (option (list Z * ptr)) :=
  '(c, s) ← getc s;
  if (c =? 34) || (c =? 92) || (c =? 47) then Ok (Some ([c], s))
  else if c =? 98 then Ok (Some ([8], s))
  else if c =? 102 then Ok (Some ([12], s))
  else if c =? 110 then Ok (Some ([10], s))
  else if c =? 114 then Ok (Some ([13], s))
  else if c =? 116 then Ok (Some ([9], s))
  else if c =? 117 then
    if_ok '(uc, s) := parse_hex16 s;
    if (0xD800 <=? uc) && (uc <=? 0xDFFF) then
      '(c, s) ← getc s;
      when negb (c =? 92) return None;
      '(c, s) ← getc s;
      when negb (c =? 117) return None;
      if_ok '(lc, s) := parse_hex16 s;
      match from_surrogate_pair uc lc with
      | None => Ok None
      | Some unicode => b ← utf8_write_char unicode; Ok (Some (b, s))
      end
    else if uc =? 0 then Ok None
    else b ← utf8_write_char uc; Ok (Some (b, s))
  else Ok None.

(** One round of the loop: the bytes that are written to [b]. *)
Definition parse_char (s : ptr) : res (option (list Z * ptr)) :=
  '(c, s1) ← getc s;
  if c =? 92 then parse_escape s1
  else if c <=? 0x1F then Ok None
  else
    len ← utf8_validate_cz s;
    when len =? 0 return None;
    Ok (Some (take (Z.to_nat len) s, drop (Z.to_nat len) s)).

Section parser.
Context `{Allocator}.

(** The buffer, or the throwaway buffer of four bytes. *)
Definition start_b (out : bool) : res (option SB) :=
  if out then sb ← sb_init; sb ← sb_need sb 4; Ok (Some sb) else Ok None.
Definition write_b (b : option SB) (bytes : list Z) : res (option SB) :=
  match b with
  | Some sb => sb ← sb_write sb bytes; sb ← sb_need sb 4; Ok (Some sb)
  | None => if zlen bytes <=? 4 then Ok None else Err EOob
  end.
Definition finish_b (b : option SB) : res (option str) :=
  match b with Some sb => t ← sb_finish sb; Ok (Some t) | None => Ok None end.

Fixpoint parse_chars (fuel : nat) (b : option SB) (s : ptr) : res (option (option SB * ptr)) :=
  match fuel with
  | O => Err EFuel
  | S fuel =>
    c ← deref s;
    if c =? 34 then Ok (Some (b, tail s)) else
    if_ok '(bytes, s) := parse_char s;
    b ← write_b b bytes;
    parse_chars fuel b s
  end.

Definition parse_string (out : bool) (s : ptr) : res (option (option str * ptr)) :=
  '(c, s) ← getc s;
  when negb (c =? 34) return None;
  b ← start_b out;
  if_ok '(b, s) := parse_chars (length s) b s;
  t ← finish_b b;
  Ok (Some (t, s)).

(** ** Arrays and objects *)

(** A new node if there is a place for it, and what is done with two of them. *)
Definition make (out : bool) (mk : store → res (store * loc)) (σ : store) : res (store * option loc) :=
  if out then '(σ, p) ← mk σ; Ok (σ, Some p) else Ok (σ, None).
Definition with_out (out : bool) (σ : store) (f : res store) : res store := if out then f else Ok σ.
Definition the {A} (o : option A) : res A := match o with Some a => Ok a | None => Err ENull end.

(** The parser of a value, which the parsers of arrays and objects call. *)
Definition value_parser : Type := store → ptr → res (store * option (option loc * ptr)).

(** The loop of [parse_array]. *)
Fixpoint parse_elements (value : value_parser) (out : bool) (k : nat) (σ : store) (ret : option loc) (s : ptr)
    : res (store * option ptr) :=
  match k with
  | O => Err EFuel
  | S k =>
    '(σ, o) ← value σ s;
    match o with
    | None => Ok (σ, None)
    | Some (element, s) =>
      s ← skip_space s;
      σ ← with_out out σ (r ← the ret; e ← the element; json_append_element σ r e);
      '(c, s) ← getc s;
      when c =? 93 return (σ, Some s);
      when negb (c =? 44) return (σ, None);
      s ← skip_space s;
      parse_elements value out k σ ret s
    end
  end.

(** The loop of [parse_object]. *)
Fixpoint parse_members (value : value_parser) (out : bool) (k : nat) (σ : store) (ret : option loc) (s : ptr)
    : res (store * option ptr) :=
  match k with
  | O => Err EFuel
  | S k =>
    o ← parse_string out s;
    match o with
    | None => Ok (σ, None)
    | Some (key, s) =>
      s ← skip_space s;
      '(c, s) ← getc s;
      when negb (c =? 58) return (σ, None);
      s ← skip_space s;
      '(σ, o) ← value σ s;
      match o with
      | None => Ok (σ, None)
      | Some (v, s) =>
        s ← skip_space s;
        σ ← with_out out σ (r ← the ret; k ← the key; v ← the v; append_member σ r k v);
        '(c, s) ← getc s;
        when c =? 125 return (σ, Some s);
        when negb (c =? 44) return (σ, None);
        s ← skip_space s;
        parse_members value out k σ ret s
      end
    end
  end.

(** The opening bracket, the empty container, the loop, and the two ends. *)
Definition parse_container (open close : Z) (mk : store → res (store * loc))
    (loop : nat → store → option loc → ptr → res (store * option ptr)) (out : bool) : value_parser := λ σ s,
  '(σ, ret) ← make out mk σ;
  '(c, s) ← getc s;
  '(σ, o) ←
    (if negb (c =? open) then Ok (σ, None) else
     s ← skip_space s;
     c ← deref s;
     if c =? close then Ok (σ, Some (tail s)) else loop (length s) σ ret s);
  match o with
  | Some s => Ok (σ, Some (ret, s))
  | None => σ ← json_delete σ ret; Ok (σ, None)
  end.

Definition parse_array (value : value_parser) (out : bool) : value_parser :=
  parse_container 91 93 json_mkarray (parse_elements value out) out.
Definition parse_object (value : value_parser) (out : bool) : value_parser :=
  parse_container 123 125 json_mkobject (parse_members value out) out.

(** ** Values *)
Definition parse_literal (out : bool) (σ : store) (s : ptr) (text : str) (mk : store → res (store * loc))
    : res (store * option (option loc * ptr)) :=
  o ← expect_literal s text;
  match o with
  | None => Ok (σ, None)
  | Some s => '(σ, p) ← make out mk σ; Ok (σ, Some (p, s))
  end.

(** [fuel] bounds the nesting. *)
Fixpoint parse_value (fuel : nat) (out : bool) (σ : store) (s : ptr) : res (store * option (option loc * ptr)) :=
  match fuel with
  | O => Err EFuel
  | S fuel =>
    c ← deref s;
    if c =? 110 then parse_literal out σ s (lit "null") json_mknull
    else if c =? 102 then parse_literal out σ s (lit "false") (λ σ, json_mkbool σ false)
    else if c =? 116 then parse_literal out σ s (lit "true") (λ σ, json_mkbool σ true)
    else if c =? 34 then
      o ← parse_string out s;
      match o with
      | None => Ok (σ, None)
      | Some (str, s) => '(σ, p) ← make out (λ σ, t ← the str; mkstring σ t) σ; Ok (σ, Some (p, s))
      end
    else if c =? 91 then parse_array (parse_value fuel out) out σ s
    else if c =? 123 then parse_object (parse_value fuel out) out σ s
    else
      o ← parse_number s;
      match o with
      | None => Ok (σ, None)
      | Some (s, num) => '(σ, p) ← make out (λ σ, json_mknumber σ num) σ; Ok (σ, Some (p, s))
      end
  end.

(** The new root, or NULL.  The nesting is at most the length of the text. *)
Definition json_decode (σ : store) (json : str) : res (store * option loc) :=
  s ← skip_space (cstr json);
  '(σ, o) ← parse_value (length s) true σ s;
  match o with
  | None => Ok (σ, None)
  | Some (ret, s) =>
    s ← skip_space s;
    c ← deref s;
    if negb (c =? 0) then σ ← json_delete σ ret; Ok (σ, None) else Ok (σ, ret)
  end.

Definition json_validate (σ : store) (json : str) : res (store * bool) :=
  s ← skip_space (cstr json);
  '(σ, o) ← parse_value (length s) false σ s;
  match o with
  | None => Ok (σ, false)
  | Some (_, s) => s ← skip_space s; c ← deref s; Ok (σ, c =? 0)
  end.
End parser.

(** ** Writing strings and numbers *)

(** [\uXXXX] *)
Definition write_u (val : Z) : res (list Z) := h ← write_hex16 val; Ok (92 :: 117 :: h).

(** One round of the loop of [emit_string]: the bytes that are written to [b]. *)
Definition emit_char (escape_unicode : bool) (s : ptr) : res (list Z * ptr) :=
  '(c, s1) ← getc s;
  if c =? 34 then Ok ([92; 34], s1)
  else if c =? 92 then Ok ([92; 92], s1)
  else if c =? 8 then Ok ([92; 98], s1)
  else if c =? 12 then Ok ([92; 102], s1)
  else if c =? 10 then Ok ([92; 110], s1)
  else if c =? 13 then Ok ([92; 114], s1)
  else if c =? 9 then Ok ([92; 116], s1)
  else
    len ← utf8_validate_cz s;
    if len =? 0 then
      _ ← assert_ false;
      Ok (if escape_unicode then 92 :: lit "uFFFD" else [0xEF; 0xBF; 0xBD], tail s)
    else if (c <? 0x1F) || ((0x80 <=? c) && escape_unicode) then
      '(unicode, n) ← utf8_read_char s;
      let s := drop (Z.to_nat n) s in
      if unicode <=? 0xFFFF then
        b ← write_u (u16 unicode); Ok (b, s)
      else
        _ ← assert_ (unicode <=? 0x10FFFF);
        '(uc, lc) ← to_surrogate_pair unicode;
        b1 ← write_u uc;
        b2 ← write_u lc;
        Ok (b1 ++ b2, s)
    else Ok (take (Z.to_nat len) s, drop (Z.to_nat len) s).

Section writer.
Context `{Allocator}.

Fixpoint emit_chars (escape_unicode : bool) (fuel : nat) (out : SB) (s : ptr) : res SB :=
  match fuel with
  | O => Err EFuel
  | S fuel =>
    c ← deref s;
    if c =? 0 then Ok out else
    '(bytes, s) ← emit_char escape_unicode s;
    out ← sb_write out bytes;
    out ← sb_need out 14;
    emit_chars escape_unicode fuel out s
  end.

Definition emit_string_with (escape_unicode : bool) (out : SB) (str : str) : res SB :=
  valid ← utf8_validate (cstr str);
  _ ← assert_ valid;
  out ← sb_need out 14;
  out ← sb_write out [34];
  out ← emit_chars escape_unicode (length (cstr str)) out (cstr str);
  sb_write out [34].

Definition emit_string (out : SB) (str : str) : res SB :=
  let escape_unicode := false in emit_string_with escape_unicode out str.

(** [char buf[64]] *)
Definition emit_number (out : SB) (num : double) : res SB :=
  let buf := sprintf_g16 num in
  when negb (zlen buf + 1 <=? 64) throw EOob;
  valid ← number_is_valid buf;
  sb_puts out (if valid : bool then buf else lit "null").

(** ** Writing values *)
Definition emitter : Type := store → SB → loc → res SB.

(** The values without children; the tag is one of the enumeration. *)
Definition emit_scalar (d : json_data) (out : SB) (container : SB → res SB) : res SB :=
  match d with
  | JSON_NULL => sb_puts out (lit "null")
  | JSON_BOOL b => sb_puts out (if b then lit "true" else lit "false")
  | JSON_STRING s => t ← the s; emit_string out t
  | JSON_NUMBER num => emit_number out num
  | JSON_ARRAY _ _ | JSON_OBJECT _ _ => container out
  end.

(** [json_foreach] of [emit_array] and of [emit_object]; [item] writes a child. *)
Fixpoint emit_each (item : emitter) (k : nat) (σ : store) (out : SB) (child : option loc) : res SB :=
  match child with
  | None => Ok out
  | Some c =>
    match k with
    | O => Err EFuel
    | S k =>
      out ← item σ out c;
      n ← load σ c;
      out ← (if bool_decide (j_next n ≠ None) then sb_putc out 44 else Ok out);
      emit_each item k σ out (j_next n)
    end
  end.

Definition emit_array (value : emitter) : emitter := λ σ out array,
  out ← sb_putc out 91;
  child ← json_first_child σ (Some array);
  out ← emit_each value (size (cells σ)) σ out child;
  sb_putc out 93.

Definition emit_member (value : emitter) : emitter := λ σ out member,
  n ← load σ member;
  key ← the (j_key n);
  out ← emit_string out key;
  out ← sb_putc out 58;
  value σ out member.

Definition emit_object (value : emitter) : emitter := λ σ out object,
  out ← sb_putc out 123;
  child ← json_first_child σ (Some object);
  out ← emit_each (emit_member value) (size (cells σ)) σ out child;
  sb_putc out 125.

Fixpoint emit_value (fuel : nat) (σ : store) (out : SB) (node : loc) : res SB :=
  match fuel with
  | O => Err EFuel
  | S fuel =>
    n ← load σ node;
    emit_scalar (j_data n) out (λ out,
      (if is_array (j_data n) then emit_array else emit_object) (emit_value fuel) σ out node)
  end.

(** *** With indentation *)

(** [for (i = 0; i < n; i++) sb_puts(out, space);] *)
Definition emit_indent (space : str) (n : Z) (out : SB) : res SB := mfor 0 n (λ _ out, sb_puts out space) out.

(** The loop over the children, of arrays and of objects. *)
Fixpoint emit_lines (item : emitter) (space : str) (indent_level : Z) (k : nat) (σ : store) (out : SB) (child : option loc)
    : res SB :=
  match child with
  | None => Ok out
  | Some c =>
    match k with
    | O => Err EFuel
    | S k =>
      out ← emit_indent space (indent_level + 1) out;
      out ← item σ out c;
      n ← load σ c;
      out ← sb_puts out (if bool_decide (j_next n ≠ None) then [44; 10] else [10]);
      emit_lines item space indent_level k σ out (j_next n)
    end
  end.

Definition emit_block (empty open : str) (close : Z) (item : emitter) (space : str) (indent_level : Z) : emitter := λ σ out node,
  '(head, _) ← get_children σ node;
  match head with
  | None => sb_puts out empty
  | Some _ =>
    out ← sb_puts out open;
    out ← emit_lines item space indent_level (size (cells σ)) σ out head;
    out ← emit_indent space indent_level out;
    sb_putc out close
  end.

Definition emit_array_indented (value : emitter) (space : str) (indent_level : Z) : emitter :=
  emit_block [91; 93] [91; 10] 93 value space indent_level.

Definition emit_member_indented (value : emitter) : emitter := λ σ out member,
  n ← load σ member;
  key ← the (j_key n);
  out ← emit_string out key;
  out ← sb_puts out [58; 32];
  value σ out member.

Definition emit_object_indented (value : emitter) (space : str) (indent_level : Z) : emitter :=
  emit_block [123; 125] [123; 10] 125 (emit_member_indented value) space indent_level.

Fixpoint emit_value_indented (fuel : nat) (space : str) (indent_level : Z) (σ : store) (out : SB) (node : loc) : res SB :=
  match fuel with
  | O => Err EFuel
  | S fuel =>
    n ← load σ node;
    emit_scalar (j_data n) out (λ out,
      (if is_array (j_data n) then emit_array_indented else emit_object_indented)
        (emit_value_indented fuel space (indent_level + 1)) space indent_level σ out node)
  end.

(** A tree is not higher than the number of cells. *)
Definition json_stringify (σ : store) (node : loc) (space : option str) : res str :=
  sb ← sb_init;
  sb ← match space with
       | Some sp => emit_value_indented (size (cells σ)) sp 0 σ sb node
       | None => emit_value (size (cells σ)) σ sb node
       end;
  sb_finish sb.

Definition json_encode (σ : store) (node : loc) : res str := json_stringify σ node None.

Definition json_encode_string (text : str) : res str :=
  sb ← sb_init;
  sb ← emit_string sb text;
  sb_finish sb.
End writer.
