(* ===== verification/JsonRead.v ===== *)
(** * JSON values, and what a text stands for

    The values that JSON texts denote, the reader that gives the value of a text
    without any node, and the proof that the reader stops: it never reads behind
    the terminating null, its loops end, and the strings it finds are UTF-8. *)
From Stdlib Require Import Strings.String.
From stdpp Require Import gmap.
From S2P Require Import Prelude.
From S2P Require Import Rule.
From S2P Require Import Scanf.
From S2P Require Import CString.
From S2P Require Import Double.
From S2P Require Import Utf8.
From S2P Require Import JsonNum.
From S2P Require Import JsonStore.
From S2P Require Import JsonBuf.
From S2P Require Import Json.
#[local] Open Scope Z_scope.

(** ** Values *)
Inductive json :=
  | JNull
  | JBool (b : bool)
  | JString (s : str)
  | JNumber (d : double)
  | JArray (vs : list json)
  | JObject (ms : list (str * json)).

(** Strings and keys are UTF-8. *)
Inductive good : json → Prop :=
  | good_null : good JNull
  | good_bool b : good (JBool b)
  | good_string s : utf8_text s → good (JString s)
  | good_number d : good (JNumber d)
  | good_array vs : Forall good vs → good (JArray vs)
  | good_object ms : Forall (λ m, utf8_text m.1 ∧ good m.2) ms → good (JObject ms).

(** ** Reading *)
Fixpoint read_chars (fuel : nat) (s : ptr) : res (option (str * ptr)) :=
  match fuel with
  | O => Err EFuel
  | S fuel =>
    c ← deref s;
    if c =? 34 then Ok (Some ([], tail s)) else
    if_ok '(bytes, s) := parse_char s;
    if_ok '(t, s) := read_chars fuel s;
    Ok (Some (bytes ++ t, s))
  end.

Definition read_string (s : ptr) : res (option (str * ptr)) :=
  '(c, s) ← getc s;
  when negb (c =? 34) return None;
  read_chars (length s) s.

Definition reader : Type := ptr → res (option (json * ptr)).

(** Items between commas, up to the closing bracket. *)
Fixpoint read_items {A} (item : ptr → res (option (A * ptr))) (close : Z) (k : nat) (s : ptr) : res (option (list A * ptr)) :=
  match k with
  | O => Err EFuel
  | S k =>
    if_ok '(a, s) := item s;
    s ← skip_space s;
    '(c, s) ← getc s;
    when c =? close return Some ([a], s);
    when negb (c =? 44) return None;
    s ← skip_space s;
    if_ok '(l, s) := read_items item close k s;
    Ok (Some (a :: l, s))
  end.

Definition read_member (value : reader) (s : ptr) : res (option (str * json * ptr)) :=
  if_ok '(key, s) := read_string s;
  s ← skip_space s;
  '(c, s) ← getc s;
  when negb (c =? 58) return None;
  s ← skip_space s;
  if_ok '(v, s) := value s;
  Ok (Some (key, v, s)).

Definition read_container {A} (open close : Z) (item : ptr → res (option (A * ptr))) (s : ptr) : res (option (list A * ptr)) :=
  '(c, s) ← getc s;
  when negb (c =? open) return None;
  s ← skip_space s;
  c ← deref s;
  when c =? close return Some ([], tail s);
  read_items item close (length s) s.

(** A reader whose result is turned into a value. *)
Definition as_value {A} (f : A → json) (m : res (option (A * ptr))) : res (option (json * ptr)) :=
  if_ok '(a, s) := m;
  Ok (Some (f a, s)).

Definition read_literal (s : ptr) (text : str) (v : json) : res (option (json * ptr)) :=
  if_ok s := expect_literal s text;
  Ok (Some (v, s)).

Fixpoint read_value (fuel : nat) (s : ptr) : res (option (json * ptr)) :=
  match fuel with
  | O => Err EFuel
  | S fuel =>
    c ← deref s;
    if c =? 110 then read_literal s (lit "null") JNull
    else if c =? 102 then read_literal s (lit "false") (JBool false)
    else if c =? 116 then read_literal s (lit "true") (JBool true)
    else if c =? 34 then as_value JString (read_string s)
    else if c =? 91 then as_value JArray (read_container 91 93 (read_value fuel) s)
    else if c =? 123 then as_value JObject (read_container 123 125 (read_member (read_value fuel)) s)
    else
      if_ok '(s, d) := parse_number s;
      Ok (Some (JNumber d, s))
  end.

(** The value of a whole text. *)
Definition read_json (t : str) : res (option json) :=
  s ← skip_space (cstr t);
  if_ok '(v, s) := read_value (length s) s;
  s ← skip_space s;
  c ← deref s;
  Ok (if c =? 0 then Some v else None).

(** ** Progress *)

(** A later position in the same terminated text. *)
Definition later (s s' : ptr) : Prop := s' `suffix_of` s ∧ zterm s' ∧ (length s' ≤ length s)%nat.
Definition after (s s' : ptr) : Prop := later s s' ∧ (length s' < length s)%nat.

Definition text (s : ptr) : Prop := zterm s ∧ Forall byte_ok s.

Lemma later_text s s' : text s → later s s' → text s'.
Proof. intros [_ Hb] ([t ->] & Hz & _). split; [done|]. by apply Forall_app in Hb as [_ Hb]. Qed.

Lemma later_refl s : zterm s → later s s.
Proof. by split. Qed.
Lemma later_trans s1 s2 s3 : later s1 s2 → later s2 s3 → later s1 s3.
Proof. intros (H1 & _ & L1) (H2 & Hz & L2). split; [by transitivity s2|]. split; [done|lia]. Qed.
Lemma later_tail c s : zterm (c :: s) → c ≠ 0 → after (c :: s) s.
Proof.
  intros Hz Hc. destruct (zterm_cons _ Hz) as (c' & s' & [= <- <-] & Hs). specialize (Hs Hc).
  split; [split; [by exists [c]|split; [done|cbn; lia]]|cbn; lia].
Qed.
Lemma after_later s1 s2 s3 : after s1 s2 → later s2 s3 → after s1 s3.
Proof. intros [H1 L1] H2. split; [by eapply later_trans|]. destruct H2 as (_ & _ & ?). lia. Qed.
Lemma later_after s1 s2 s3 : later s1 s2 → after s2 s3 → after s1 s3.
Proof. intros H1 [H2 L2]. split; [by eapply later_trans|]. destruct H1 as (_ & _ & ?). lia. Qed.
Lemma after_app t s : zterm (t ++ s) → no_null t → t ≠ [] → after (t ++ s) s.
Proof.
  intros Hz Hn Ht. assert (length t ≠ 0%nat) by (by destruct t). split; [split; [by exists t|]|rewrite length_app; lia].
  split; [by eapply zterm_app|rewrite length_app; lia].
Qed.
#[export] Hint Resolve later_refl : core.

(** A reader returns; if it succeeds, it is further on and its result has [P]. *)
Definition reads {A} (s : ptr) (P : A → Prop) (m : res (option (A * ptr))) : Prop :=
  ∃ o, m = Ok o ∧ ∀ a s', o = Some (a, s') → after s s' ∧ P a.

Lemma reads_None {A} s (P : A → Prop) : reads s P (Ok None).
Proof. by eexists. Qed.
Lemma reads_Some {A} s (P : A → Prop) a s' : after s s' → P a → reads s P (Ok (Some (a, s'))).
Proof. intros Hs Ha. eexists. split; [done|]. by intros ? ? [= <- <-]. Qed.

(** Sequencing two readers. *)
Lemma reads_bind {A B} s (P : A → Prop) (Q : B → Prop) m (k : A * ptr → res (option (B * ptr))) :
  reads s P m → (∀ a s', after s s' → P a → reads s Q (k (a, s'))) → reads s Q (attempt m k).
Proof.
  intros (o & -> & Ho) Hk. unfold attempt. cbn [mbind res_bind]. destruct o as [[a s']|]; [|apply reads_None].
  destruct (Ho a s' eq_refl) as [Ha HP]. by apply Hk.
Qed.

Lemma reads_earlier {A} s s1 (P : A → Prop) m : later s s1 → reads s1 P m → reads s P m.
Proof. intros Hl (o & -> & Ho). exists o. split; [done|]. intros a s' E. destruct (Ho a s' E) as [Ha HP]. split; [by eapply later_after|done]. Qed.

(** Spaces. *)
Lemma is_space_0 c : is_space c = true → c ≠ 0.
Proof. by intros Hc ->. Qed.

Lemma skip_space_loop_later fuel s : zterm s → (length s < fuel)%nat → ∃ s', skip_space_loop fuel s = Ok s' ∧ later s s'.
Proof.
  revert s. induction fuel as [|fuel IH]; intros s Hz Hf; [lia|].
  destruct (zterm_cons _ Hz) as (c & u & -> & Hu). cbn [skip_space_loop deref mbind res_bind tail]. cbn [length] in Hf.
  destruct (is_space c) eqn:Ec; [|by eexists; split; [done|apply later_refl]].
  destruct (IH u (Hu (is_space_0 _ Ec)) ltac:(lia)) as (s' & -> & Hl). exists s'. split; [done|].
  eapply later_trans; [|done]. by apply later_tail, is_space_0.
Qed.

Lemma skip_space_later s : zterm s → ∃ s', skip_space s = Ok s' ∧ later s s'.
Proof. intros Hz. apply skip_space_loop_later; [done|lia]. Qed.

(** After the spaces there is a character. *)
Lemma skip_space_char s : zterm s → ∃ c u, skip_space s = Ok (c :: u) ∧ later s (c :: u).
Proof.
  intros Hz. destruct (skip_space_later s Hz) as (s' & E & Hl). destruct (zterm_cons s') as (c & u & -> & _); [apply Hl|].
  eauto.
Qed.

Lemma later_char s c u : later s (c :: u) → c ≠ 0 → after s u.
Proof. intros Hl Hc. eapply later_after; [done|]. apply later_tail; [apply Hl|done]. Qed.

Lemma literal_later s t : zterm s → no_null t → ∃ o, expect_literal s t = Ok o ∧ ∀ s', o = Some s' → later s s' ∧ s = t ++ s'.
Proof.
  intros Hz Hn. revert s Hz. induction Hn as [|d t Hd _ IH]; intros s Hz; cbn [expect_literal].
  - eexists. split; [done|]. intros ? [= <-]. by split; [apply later_refl|].
  - destruct (zterm_cons _ Hz) as (c & u & -> & Hu). cbn [getc mbind res_bind]. destruct (Z.eqb_spec c d) as [->|].
    + destruct (IH u) as (o & E & Ho); [apply Hu; lia|]. exists o. split; [done|]. intros s' Es'. destruct (Ho s' Es') as [Hl ->].
      split; [|done]. eapply later_trans; [|done]. apply later_tail; [done|lia].
    + by eexists.
Qed.

(** ** Strings *)
Lemma hex_digit_inv c v : hex_digit c = Some v → c ≠ 0 ∧ 0 ≤ v < 16.
Proof. unfold hex_digit. repeat case_match; intros [= <-]; lia. Qed.

Lemma hex_loop_reads i s ret : zterm s → 0 ≤ ret < 65536 →
  ∃ o, parse_hex_loop i s ret = Ok o ∧
    ∀ v s', o = Some (v, s') → later s s' ∧ (length s' + i ≤ length s)%nat ∧ 0 ≤ v < 65536.
Proof.
  revert s ret. induction i as [|i IH]; intros s ret Hz Hr; cbn [parse_hex_loop].
  - eexists. split; [done|]. intros ? ? [= <- <-]. split; [by apply later_refl|]. split; [lia|done].
  - destruct (zterm_cons _ Hz) as (c & u & -> & Hu). cbn [getc mbind res_bind]. destruct (hex_digit c) as [d|] eqn:Ed; [|by eexists].
    destruct (hex_digit_inv _ _ Ed) as [Hc Hd]. destruct (IH u (u16 (u16 (Z.shiftl ret 4) + d))) as (o & E & Ho); [by apply Hu| |].
    { unfold u16. apply Z.mod_pos_bound. lia. }
    exists o. split; [done|]. intros v s' Es. destruct (Ho v s' Es) as (? & ? & ?). split; [|cbn [length]; split; [lia|done]].
    eapply later_trans; [by apply later_tail|done].
Qed.

Lemma hex16_reads s : zterm s → reads s (λ v, 0 ≤ v < 65536) (parse_hex16 s).
Proof.
  intros Hz. destruct (hex_loop_reads 4 s 0 Hz ltac:(lia)) as (o & E & Ho). exists o. split; [done|].
  intros v s' Es. destruct (Ho v s' Es) as (? & ? & ?). split; [split; [done|lia]|done].
Qed.

Definition one_char (bs : list Z) : Prop := ∃ u, char_ok u ∧ bs = utf8 u.

Lemma one_char_ascii c : 0 < c <= 0x7F → one_char [c].
Proof. intros Hc. exists c. split; [unfold char_ok, scalar; lia|]. unfold utf8. by rewrite (proj2 (Z.leb_le _ _)) by lia. Qed.

Lemma write_reads s s' u : char_ok u → after s s' → reads s one_char (b ← utf8_write_char u; Ok (Some (b, s'))).
Proof. intros Hu Hs. rewrite write_utf8 by apply Hu. apply reads_Some; [done|]. by exists u. Qed.

(** The four digits behind [\u], and the second half of a pair. *)
Lemma unicode_reads s : zterm s →
  reads s one_char (if_ok '(uc, s) := parse_hex16 s;
    if (0xD800 <=? uc) && (uc <=? 0xDFFF) then
      '(c, s) ← getc s;
      when negb (c =? 92) return None;
      '(c, s) ← getc s;
      when negb (c =? 117) return None;
      if_ok '(lc, s) := parse_hex16 s;
      match from_surrogate_pair uc lc with
      | None => Ok None
      | Some unicode => b ← utf8_write_char unicode; Ok (Some (b, s))
      end
    else if uc =? 0 then Ok None
    else b ← utf8_write_char uc; Ok (Some (b, s))).
Proof.
  intros Hz. eapply reads_bind; [by apply hex16_reads|]. intros uc s1 H1 Huc. cbv beta in Huc |- *.
  destruct ((0xD800 <=? uc) && (uc <=? 0xDFFF)) eqn:Es.
  - destruct H1 as [H1 L1]. destruct (zterm_cons s1) as (c & s2 & -> & Hs2); [apply H1|]. cbn [getc mbind res_bind].
    destruct (Z.eqb_spec c 92) as [->|]; cbn [negb]; [|apply reads_None]. specialize (Hs2 ltac:(lia)).
    assert (H2 : later s s2) by (eapply later_trans; [done|]; apply later_tail; [apply H1|lia]).
    destruct (zterm_cons s2 Hs2) as (c & s3 & -> & Hs3). cbn [getc mbind res_bind].
    destruct (Z.eqb_spec c 117) as [->|]; cbn [negb]; [|apply reads_None]. specialize (Hs3 ltac:(lia)).
    assert (H3 : later s s3) by (eapply later_trans; [done|]; apply later_tail; [apply H2|lia]).
    apply (reads_earlier _ s3); [done|]. eapply reads_bind; [by apply hex16_reads|]. intros lc s4 H4 Hlc. cbv beta.
    destruct (from_surrogate_pair uc lc) as [u|] eqn:Eu; [|apply reads_None]. apply from_surrogate_scalar in Eu.
    by apply write_reads.
  - destruct (Z.eqb_spec uc 0); [apply reads_None|]. apply write_reads; [|done]. unfold char_ok, scalar. lia.
Qed.

Lemma escape_reads s : zterm s → reads s one_char (parse_escape s).
Proof.
  intros Hz. destruct (zterm_cons _ Hz) as (c & u & -> & Hu). unfold parse_escape. cbn [getc mbind res_bind].
  assert (Hone : ∀ x, 0 < x <= 0x7F → c ≠ 0 → reads (c :: u) one_char (Ok (Some ([x], u)))).
  { intros x Hx Hc. apply reads_Some; [by apply later_tail|by apply one_char_ascii]. }
  destruct (_ || _) eqn:E1; [apply Hone; lia|].
  destruct (Z.eqb_spec c 98); [apply Hone; lia|]. destruct (Z.eqb_spec c 102); [apply Hone; lia|].
  destruct (Z.eqb_spec c 110); [apply Hone; lia|]. destruct (Z.eqb_spec c 114); [apply Hone; lia|].
  destruct (Z.eqb_spec c 116); [apply Hone; lia|]. destruct (Z.eqb_spec c 117); [|apply reads_None].
  eapply reads_earlier; [|apply unicode_reads, Hu; lia]. apply later_tail; [done|lia].
Qed.

Lemma char_reads s : text s → reads s one_char (parse_char s).
Proof.
  intros [Hz Hb]. destruct (zterm_cons _ Hz) as (c & u & -> & Hu). unfold parse_char. cbn [getc mbind res_bind].
  destruct (Z.eqb_spec c 92) as [->|].
  { eapply reads_earlier; [|apply escape_reads, Hu; lia]. apply later_tail; [done|lia]. }
  destruct (Z.leb_spec c 0x1F); [apply reads_None|].
  destruct (validate_total _ Hz) as [len Hl]. rewrite Hl. cbn [mbind res_bind]. destruct (Z.eqb_spec len 0) as [|Hl0]; [apply reads_None|].
  destruct (validate_inv _ _ Hb Hl Hl0) as (x & rest & Hx & E & ->). rewrite E in *.
  unfold zlen. rewrite Nat2Z.id, take_app_length, drop_app_length.
  assert (Hx0 : x ≠ 0) by (intros ->; cbn in E; injection E as -> _; lia).
  apply reads_Some; [|by exists x]. apply after_app; [done|by apply utf8_no_null|].
  intros En. pose proof (utf8_length x) as Hlen. rewrite En in Hlen. unfold zlen in Hlen. cbn in Hlen. lia.
Qed.

Lemma chars_reads fuel s : text s → (length s ≤ fuel)%nat → reads s utf8_text (read_chars fuel s).
Proof.
  revert s. induction fuel as [|fuel IH]; intros s Ht Hf; destruct (zterm_cons s (proj1 Ht)) as (c & u & -> & Hu); [cbn in Hf; lia|].
  cbn [read_chars deref mbind res_bind tail]. destruct (Z.eqb_spec c 34) as [->|].
  { apply reads_Some; [apply later_tail; [apply Ht|lia]|]. by exists []. }
  eapply reads_bind; [by apply char_reads|]. intros bs s1 H1 (x & Hx & ->). cbv beta.
  apply (reads_earlier _ s1); [apply H1|]. eapply reads_bind.
  - apply IH; [eapply later_text; [done|apply H1]|]. destruct H1 as [_ L1]. cbn [length] in *. lia.
  - intros t s2 H2 (us & Hus & ->). apply reads_Some; [done|]. exists (x :: us). split; [by constructor|done].
Qed.

Lemma string_reads s : text s → reads s utf8_text (read_string s).
Proof.
  intros Ht. destruct (zterm_cons s (proj1 Ht)) as (c & u & -> & Hu). unfold read_string. cbn [getc mbind res_bind].
  destruct (Z.eqb_spec c 34) as [->|]; cbn [negb]; [|apply reads_None]. specialize (Hu ltac:(lia)).
  assert (Hl : later (34 :: u) u) by (apply later_tail; [apply Ht|lia]).
  apply (reads_earlier _ u); [done|]. apply chars_reads; [by eapply later_text|done].
Qed.

(** ** Containers and values *)
Lemma items_reads {A} (item : ptr → res (option (A * ptr))) (P : A → Prop) close (s0 : ptr) :
  close ≠ 0 → (∀ s, text s → (length s ≤ length s0)%nat → reads s P (item s)) →
  ∀ k s, text s → (length s ≤ length s0)%nat → (length s ≤ k)%nat → reads s (Forall P) (read_items item close k s).
Proof.
  intros Hc0 Hitem. induction k as [|k IH]; intros s Ht Hs0 Hk; [destruct (zterm_cons s (proj1 Ht)) as (? & ? & -> & _); cbn in Hk; lia|].
  cbn [read_items]. eapply reads_bind; [by apply Hitem|]. intros a s1 [H1 L1] Ha. cbv beta.
  destruct (skip_space_char s1) as (c & u & -> & Hu); [apply H1|]. cbn [getc mbind res_bind].
  destruct (Z.eqb_spec c close) as [->|].
  { apply reads_Some; [|by constructor]. eapply later_after; [exact H1|]. by eapply later_char. }
  destruct (Z.eqb_spec c 44) as [->|]; cbn [negb]; [|apply reads_None].
  assert (Hl : after s u) by (eapply later_after; [exact H1|]; eapply later_char; [done|lia]).
  destruct (skip_space_later u) as (s2 & -> & Hs2); [apply Hl|]. cbn [mbind res_bind].
  assert (Hl2 : after s s2) by (by eapply after_later).
  apply (reads_earlier _ s2); [apply Hl2|]. destruct Hl2 as [Hl2 L2]. eapply reads_bind.
  - apply IH; [by eapply later_text|lia|lia].
  - intros l s3 H3 Hall. apply reads_Some; [done|by constructor].
Qed.

Lemma container_reads {A} (item : ptr → res (option (A * ptr))) (P : A → Prop) open close (s : ptr) :
  open ≠ 0 → close ≠ 0 → text s → (∀ s', text s' → (length s' < length s)%nat → reads s' P (item s')) →
  reads s (Forall P) (read_container open close item s).
Proof.
  intros Ho Hc Ht Hitem. destruct (zterm_cons s (proj1 Ht)) as (c & u & -> & Hu). unfold read_container. cbn [getc mbind res_bind].
  destruct (Z.eqb_spec c open) as [->|]; cbn [negb]; [|apply reads_None].
  assert (Hl : after (open :: u) u) by (by apply later_tail; [apply Ht|]).
  destruct (skip_space_char u) as (c & w & -> & Hw); [apply Hl|]. cbn [deref mbind res_bind tail].
  assert (Hl2 : after (open :: u) (c :: w)) by (by eapply after_later).
  destruct (Z.eqb_spec c close) as [->|].
  { apply reads_Some; [|constructor]. eapply after_later; [exact Hl|]. by eapply later_char. }
  destruct Hl2 as [Hl2 L2]. apply (reads_earlier _ (c :: w)); [done|].
  apply (items_reads item P close (c :: w) Hc); [|by eapply later_text|done|done].
  intros s' Ht' Hs'. apply Hitem; [done|lia].
Qed.

Lemma member_reads (value : reader) s : text s →
  (∀ s', text s' → (length s' ≤ length s)%nat → reads s' good (value s')) →
  reads s (λ m, utf8_text m.1 ∧ good m.2) (read_member value s).
Proof.
  intros Ht Hv. unfold read_member. eapply reads_bind; [by apply string_reads|]. intros key s1 [H1 L1] Hk. cbv beta.
  destruct (skip_space_char s1) as (c & u & -> & Hu); [apply H1|]. cbn [getc mbind res_bind].
  destruct (Z.eqb_spec c 58) as [->|]; cbn [negb]; [|apply reads_None].
  assert (Hl : after s u) by (eapply later_after; [exact H1|]; eapply later_char; [done|lia]).
  destruct (skip_space_later u) as (s2 & -> & Hs2); [apply Hl|]. cbn [mbind res_bind].
  assert (Hl2 : after s s2) by (by eapply after_later). apply (reads_earlier _ s2); [apply Hl2|].
  eapply reads_bind; [apply Hv; [eapply later_text; [done|apply Hl2]|destruct Hl2; lia]|].
  intros v s3 H3 Hgood. by apply reads_Some.
Qed.

Lemma as_value_reads {A} (f : A → json) s (P : A → Prop) m : reads s P m → (∀ a, P a → good (f a)) → reads s good (as_value f m).
Proof. intros Hm Hf. eapply reads_bind; [done|]. intros a s' Hs Ha. apply reads_Some; [done|by apply Hf]. Qed.

Lemma literal_reads s t v : zterm s → no_null t → t ≠ [] → good v → reads s good (read_literal s t v).
Proof.
  intros Hz Hn Hne Hv. unfold read_literal. destruct (literal_later s t Hz Hn) as (o & -> & Ho). cbn [attempt mbind res_bind].
  destruct o as [s'|]; [|apply reads_None]. destruct (Ho s' eq_refl) as [_ ->]. apply reads_Some; [|done]. by apply after_app.
Qed.

Lemma numeral_ne p : numeral_ok p → numeral p ≠ [].
Proof. intros [Hi _ _]. unfold numeral. destruct (p_neg p); [done|]. by destruct Hi as [-> |[[_ Hne] _]]; [|destruct (p_int p)]. Qed.

(** The reader of values returns, with this bound on the nesting. *)
Lemma value_reads fuel s : text s → (length s ≤ fuel)%nat → reads s good (read_value fuel s).
Proof.
  revert s. induction fuel as [|fuel IH]; intros s Ht Hf; destruct (zterm_cons s (proj1 Ht)) as (c & u & E & Hu); [subst s; cbn in Hf; lia|].
  cbn [read_value]. rewrite E. cbn [deref mbind res_bind]. rewrite <- E.
  assert (Hlit : ∀ t v, no_null t → t ≠ [] → good v → reads s good (read_literal s t v)) by (intros; apply literal_reads; [apply Ht|done..]).
  destruct (c =? 110); [apply Hlit; [by repeat constructor|done|constructor]|].
  destruct (c =? 102); [apply Hlit; [by repeat constructor|done|constructor]|].
  destruct (c =? 116); [apply Hlit; [by repeat constructor|done|constructor]|].
  destruct (c =? 34); [eapply as_value_reads; [by apply string_reads|apply good_string]|].
  destruct (c =? 91).
  { eapply as_value_reads; [apply container_reads; [done..|]|apply good_array]. intros s' Ht' Hl. apply IH; [done|lia]. }
  destruct (c =? 123).
  { eapply as_value_reads; [apply container_reads; [done..|]|apply good_object]. intros s' Ht' Hl.
    apply member_reads; [done|]. intros s2 Ht2 Hl2. apply IH; [done|lia]. }
  destruct (parse_number_inv s (proj1 Ht)) as [->|(p & s' & v & -> & Hp & Es & Hz')]; [apply reads_None|].
  apply reads_Some; [|constructor]. pose proof (numeral_ne p Hp). assert (length (numeral p) ≠ 0%nat) by (by destruct (numeral p)).
  rewrite Es. split; [split; [by exists (numeral p)|]|rewrite length_app; lia]. split; [done|rewrite length_app; lia].
Qed.

Lemma cstr_text t : Forall byte_ok t → text (cstr t).
Proof. intros Hb. split; [apply zterm_cstr|]. apply Forall_app. split; [done|]. by apply Forall_singleton. Qed.

(** Every text has a value or none. *)
Lemma read_json_total t : Forall byte_ok t → ∃ o, read_json t = Ok o ∧ ∀ v, o = Some v → good v.
Proof.
  intros Hb%cstr_text. unfold read_json. destruct (skip_space_later (cstr t)) as (s & -> & Hs); [apply Hb|]. cbn [mbind res_bind].
  destruct (value_reads (length s) s) as (o & -> & Ho); [by eapply later_text|done|]. cbn [attempt mbind res_bind].
  destruct o as [[v s1]|]; [|by eexists]. destruct (Ho v s1 eq_refl) as [[H1 _] Hv].
  destruct (skip_space_char s1) as (c & u & -> & _); [apply H1|]. cbn [deref mbind res_bind]. eexists. split; [done|].
  destruct (c =? 0); [|done]. by intros ? [= <-].
Qed.
