(* ===== verification/JsonBuild.v ===== *)
(** * Building trees in the store

    A parser builds new nodes: their cells are fresh, nothing else in the store
    changes, and freeing them gives back the store as it was. *)
From Stdlib Require Import Strings.String.
From stdpp Require Import gmap.
From S2P Require Import Prelude.
From S2P Require Import Rule.
From S2P Require Import Scanf.
From S2P Require Import CString.
From S2P Require Import Double.
From S2P Require Import Utf8.
From S2P Require Import JsonStore.
From S2P Require Import JsonRep.
From S2P Require Import JsonBuf.
From S2P Require Import Json.
From S2P Require Import JsonRead.
#[local] Open Scope Z_scope.

(** ** The value of a tree *)
Fixpoint val (t : ltree) : json :=
  match t with
  | LT _ _ d cs =>
    match d with
    | KNull => JNull
    | KBool b => JBool b
    | KString s => JString s
    | KNumber x => JNumber x
    | KArray => JArray (map val cs)
    | KObject => JObject (map (λ c, (default [] (t_key c), val c)) cs)
    end
  end.

(** Only containers have children; keys are where they belong. *)
Inductive formed : ltree → Prop :=
  formed_intro p k d cs :
    (is_container d = false → cs = []) →
    (d = KArray → Forall (λ c, t_key c = None) cs) → (d = KObject → Forall (λ c, is_Some (t_key c)) cs) →
    Forall formed cs → formed (LT p k d cs).

Lemma formed_shaped t : formed t → shaped t.
Proof.
  induction t as [p k d cs IH] using ltree_nested_ind. intros Ht. inversion_clear Ht as [? ? ? ? H1 _ _ H4].
  constructor; [done|]. rewrite Forall_forall in *. auto.
Qed.

(** The children of a tree with UTF-8 texts. *)
Lemma good_kid t c : formed t → good (val t) → c ∈ t_kids t →
  good (val c) ∧ formed c ∧ (t_kind t = KObject → ∃ key, t_key c = Some key ∧ utf8_text key).
Proof.
  destruct t as [p k d cs]. intros Ht Hg Hc. inversion_clear Ht as [? ? ? ? H1 H2 H3 H4]. cbn [t_kids t_kind] in *.
  rewrite Forall_forall in H4. destruct d; try (rewrite H1 in Hc by done; by apply elem_of_nil in Hc); cbn [val] in Hg.
  - inversion_clear Hg as [| | | |? Hvs|]. rewrite Forall_forall in Hvs. split; [|by split; [apply H4|]].
    apply Hvs. rewrite list_elem_of_In. apply in_map. by apply list_elem_of_In.
  - inversion_clear Hg as [| | | | |? Hms]. rewrite Forall_forall in Hms.
    destruct (proj1 (Forall_forall _ _) (H3 eq_refl) c Hc) as [key Hkey].
    destruct (Hms (key, val c)) as [Hm1 Hm2].
    { rewrite list_elem_of_In. apply in_map_iff. exists c. rewrite Hkey. split; [done|]. by apply list_elem_of_In. }
    split; [done|]. split; [by apply H4|]. intros _. by exists key.
Qed.

(** It is what [json_check] accepts. *)
Lemma formed_proper t : formed t → good (val t) → text_opt (t_key t) → proper t.
Proof.
  induction t as [p k d cs IH] using ltree_nested_ind. intros Ht Hg Hk. rewrite Forall_forall in IH.
  assert (Hkids : Forall proper cs).
  { apply Forall_forall. intros c Hc. destruct (good_kid (LT p k d cs) c Ht Hg Hc) as (Hgc & Hfc & Hkey). apply IH; [done..|].
    inversion_clear Ht as [? ? ? ? H1 H2 H3 H4]. cbn [t_kind] in Hkey.
    destruct d; try (rewrite H1 in Hc by done; by apply elem_of_nil in Hc).
    - by rewrite (proj1 (Forall_forall _ _) (H2 eq_refl) c Hc).
    - by destruct (Hkey eq_refl) as (key & -> & ?). }
  inversion_clear Ht. constructor; [done|by destruct d; inversion_clear Hg|done..].
Qed.

(** ** Fresh cells *)
Definition fresh (σ : store) : Prop := ∀ p, (next_loc σ ≤ p)%positive → cells σ !! p = None.

(** [σ] is [σ0] with the new tree [t]. *)
Record built (σ0 σ : store) (t : ltree) : Prop := {
  b_rep : rep (cells σ) None None None t;
  b_same : same_but (places t) (cells σ0) (cells σ);
  b_new x : x ∈ places t → (next_loc σ0 ≤ x < next_loc σ)%positive;
  b_next : (next_loc σ0 ≤ next_loc σ)%positive;
  b_fresh : fresh σ }.

(** [σ] has the cells of [σ0]. *)
Definition undone (σ0 σ : store) : Prop := cells σ = cells σ0 ∧ (next_loc σ0 ≤ next_loc σ)%positive ∧ fresh σ.

Lemma undone_refl σ : fresh σ → undone σ σ.
Proof. intros Hf. split; [done|]. split; [lia|done]. Qed.

Lemma undone_built σ0 σ σ' t : built σ0 σ t → undone σ σ' → built σ0 σ' t.
Proof.
  intros [H1 H2 H3 H4 H5] (Ec & Hn & Hf). split; rewrite ?Ec; try done; [|lia]. intros x Hx. specialize (H3 x Hx). lia.
Qed.

Section build.
Context `{AllocTotal}.

(** A single new node. *)
Lemma mknode_built σ d : fresh σ → ∃ σ', mknode σ (data_of d []) = Ok (σ', next_loc σ) ∧ built σ σ' (LT (next_loc σ) None d []).
Proof.
  intros Hf. unfold mknode. rewrite alloc_total. eexists. split; [done|]. split; cbn [cells next_loc].
  - split; [|rewrite places_eq; apply NoDup_singleton]. rewrite flat_eq. apply holds_cons. cbn [t_loc]. split; [apply lookup_insert_eq|constructor].
  - intros x Hx. rewrite places_eq in Hx. apply lookup_insert_ne. intros <-. apply Hx. by left.
  - intros x. rewrite places_eq. cbn [t_loc t_kids]. intros [->|[]%elem_of_nil]%elem_of_cons. lia.
  - lia.
  - intros p Hp. cbn [cells next_loc] in *. rewrite lookup_insert_ne by lia. apply Hf. lia.
Qed.

(** A new node whose member is set afterwards. *)
Lemma mknode_set σ d d0 : fresh σ →
  ∃ σ', ('(σ, r) ← mknode σ d0; σ ← update σ r (set_data (data_of d [])); Ok (σ, r)) = Ok (σ', next_loc σ) ∧
    built σ σ' (LT (next_loc σ) None d []).
Proof.
  intros Hf. destruct (mknode_built σ d Hf) as (σ' & E & Hb). unfold mknode in *. rewrite alloc_total in *. injection E as <-.
  rewrite bind_ret. erewrite (update_at _ (next_loc σ)) by (cbn [cells]; apply lookup_insert_eq). rewrite bind_ret.
  eexists. split; [done|]. cbn [cells next_loc]. rewrite insert_insert_eq. exact Hb.
Qed.

(** Freeing it gives back the cells. *)
Lemma delete_built σ0 σ t : fresh σ0 → formed t → built σ0 σ t → ∃ σ', json_delete σ (Some (t_loc t)) = Ok σ' ∧ undone σ0 σ'.
Proof.
  intros Hf0 Ht [H1 H2 H3 H4 H5]. unfold json_delete.
  destruct (delete_rep (size (cells σ)) σ t (formed_shaped _ Ht) H1 (rep_size _ _ _ _ _ H1)) as (σ' & E & He & Hn).
  exists σ'. split; [done|]. assert (Ec : cells σ' = cells σ0).
  { apply map_eq. intros x. rewrite He. destruct (decide (x ∈ places t)) as [Hx|Hx]; [|by apply H2].
    symmetry. apply Hf0. by apply H3. }
  split; [done|]. rewrite Hn. split; [done|]. intros p Hp. rewrite Ec. apply Hf0. rewrite Hn in Hp. lia.
Qed.

(** ** Adding a new tree to a new container *)
Lemma built_apart σ0 σ σ1 p k d cs c : built σ0 σ (LT p k d cs) → built σ σ1 c →
  holds (cells σ1) (flat None None None (LT p k d cs)) ∧ NoDup (p :: placess cs ++ places c).
Proof.
  intros [H1 H2 H3 H4 H5] [G1 G2 G3 G4 G5].
  assert (Hdis : ∀ x, x ∈ p :: placess cs → x ∉ places c).
  { intros x Hx Hc. specialize (G3 x Hc). specialize (H3 x). rewrite places_eq in H3. cbn [t_loc t_kids] in H3. specialize (H3 Hx). lia. }
  split.
  - apply (holds_agree (cells σ)); [apply H1|]. rewrite flat_places, places_eq. cbn [t_loc t_kids]. intros x Hx. by apply G2, Hdis.
  - change (p :: placess cs ++ places c) with ((p :: placess cs) ++ places c). apply NoDup_app. split; [|split; [done|apply G1]].
    by eapply rep_nodup.
Qed.

Lemma append_built σ0 σ σ1 p k d cs c : is_container d = true → built σ0 σ (LT p k d cs) → built σ σ1 c →
  ∃ σ2, append_node σ1 p (t_loc c) = Ok σ2 ∧ built σ0 σ2 (LT p k d (cs ++ [c])).
Proof.
  intros Hd H1 H2. destruct (built_apart _ _ _ _ _ _ _ _ H1 H2) as [Hp Hnd].
  destruct (append_rep σ1 None None None p k d cs c None None None Hd Hp (proj1 (b_rep _ _ _ H2)) Hnd) as (σ2 & E & Hr & Hn & Hs).
  exists σ2. split; [done|]. destruct H1 as [_ S1 N1 L1 _], H2 as [_ S2 N2 L2 F2]. rewrite places_eq in S1, N1. cbn [t_loc t_kids] in S1, N1.
  assert (Hpl : ∀ x, x ∈ places (LT p k d (cs ++ [c])) ↔ x ∈ p :: placess cs ∨ x ∈ places c).
  { intros x. rewrite places_eq. cbn [t_loc t_kids]. rewrite placess_app, placess_single, !elem_of_cons, elem_of_app. tauto. }
  assert (Hnin : ∀ x, x ∉ p :: placess cs → x ∉ places c → x ∉ p :: placess cs ++ places c).
  { intros x Hx1 Hx2. apply not_elem_of_cons in Hx1 as [? ?]. apply not_elem_of_cons. split; [done|]. by apply not_elem_of_app. }
  split; [done|..].
  - intros x Hx. rewrite Hpl in Hx. assert (x ∉ p :: placess cs ∧ x ∉ places c) as [Hx1 Hx2] by tauto.
    rewrite Hs by (by apply Hnin). rewrite S2 by done. by apply S1.
  - intros x. rewrite Hpl, Hn. intros [Hx|Hx]; [specialize (N1 x Hx)|specialize (N2 x Hx)]; lia.
  - rewrite Hn. lia.
  - intros x Hx. rewrite Hn in Hx. rewrite Hs; [by apply F2|]. apply Hnin; intros Hin; [specialize (N1 x Hin)|specialize (N2 x Hin)]; lia.
Qed.

(** The key of a new root. *)
Lemma rekey_built σ σ1 c key : built σ σ1 c →
  ∃ σ2, update σ1 (t_loc c) (set_jkey (Some key)) = Ok σ2 ∧ built σ σ2 (LT (t_loc c) (Some key) (t_kind c) (t_kids c)).
Proof.
  intros [[Hh Hn] S1 N1 L1 F1]. pose proof Hh as Hh'. rewrite flat_eq in Hh'. apply holds_cons in Hh' as [Hc Hb].
  rewrite (update_at _ _ _ _ Hc). eexists. split; [done|].
  assert (Ep : places (LT (t_loc c) (Some key) (t_kind c) (t_kids c)) = places c) by (by rewrite !places_eq).
  split; rewrite ?Ep; cbn [cells next_loc]; try done.
  - split; [|by rewrite Ep]. rewrite flat_eq. apply holds_cons. split; [apply lookup_insert_eq|]. unfold below. cbn [t_loc t_kids].
    apply holds_insert; [done|]. rewrite flats_places. rewrite places_eq in Hn. by apply NoDup_cons in Hn as [? _].
  - intros x Hx. rewrite lookup_insert_ne; [by apply S1|]. intros <-. apply Hx, t_loc_place.
  - intros p Hp. cbn [cells next_loc] in *. rewrite lookup_insert_ne; [by apply F1|]. intros <-. specialize (N1 _ (t_loc_place c)). lia.
Qed.
End build.
