(* ===== verification/JsonParse.v ===== *)
(** * The parser reads what the text stands for

    With and without a place for the result, the parser follows the reader of
    values: it fails on the same texts and stops at the same character; with a
    place it builds a new tree with the value, and a failure leaves the store as it
    was. *)
From Stdlib Require Import Strings.String.
From stdpp Require Import gmap.
From S2P Require Import Prelude.
From S2P Require Import Rule.
From S2P Require Import Scanf.
From S2P Require Import CString.
From S2P Require Import Double.
From S2P Require Import Utf8.
From S2P Require Import JsonNum.
From S2P Require Import JsonStore.
From S2P Require Import JsonRep.
From S2P Require Import JsonBuf.
From S2P Require Import Json.
From S2P Require Import JsonRead.
From S2P Require Import JsonBuild.
#[local] Open Scope Z_scope.

Section sim.
Context `{AllocTotal}.

(** ** Strings *)

(** A text whose strings fit in the buffer. *)
Definition fits (s : ptr) : Prop := 4 * zlen s ≤ text_max.

Lemma fits_later s s' : fits s → (length s' ≤ length s)%nat → fits s'.
Proof. unfold fits, zlen. lia. Qed.

(** What the caller gets. *)
Definition given {A} (out : bool) (a : A) : option A := if out then Some a else None.

(** The buffer with this text and room for a character, or none. *)
Definition holding_text (out : bool) (b : option SB) (t : str) : Prop :=
  if out then ∃ sb, b = Some sb ∧ sb_text sb = t ∧ sb_ok sb ∧ zlen t + 4 ≤ sb_alloc sb else b = None.

Lemma start_b_ok out : ∃ b, start_b out = Ok b ∧ holding_text out b [].
Proof.
  destruct out; [|by eexists]. unfold start_b. destruct sb_init_ok as (sb & -> & E & Hsb). rewrite bind_ret.
  destruct (sb_need_ok sb 4) as (sb' & -> & E' & Hsb' & Ha); [done|lia|rewrite E; unfold zlen, text_max; cbn [length]; lia|].
  eexists. split; [done|]. exists sb'. split; [done|]. rewrite E', E in *. done.
Qed.

Lemma write_b_ok out b t u : holding_text out b t → zlen t + 4 ≤ text_max →
  ∃ b', write_b b (utf8 u) = Ok b' ∧ holding_text out b' (t ++ utf8 u).
Proof.
  pose proof (utf8_length u) as Hu. destruct out.
  - intros (sb & -> & E & Hsb & Ha) Hl. unfold write_b.
    destruct (sb_write_ok sb (utf8 u) Hsb) as (sb1 & -> & E1 & Ea & Hsb1); [rewrite E; lia|]. rewrite bind_ret.
    destruct (sb_need_ok sb1 4) as (sb2 & -> & E2 & Hsb2 & Ha2); [done|lia|rewrite E1, E, zlen_app; lia|]. rewrite bind_ret.
    eexists. split; [done|]. exists sb2. split; [done|]. rewrite E2, E1, E in *. done.
  - intros -> Hl. unfold write_b. rewrite (proj2 (Z.leb_le _ _)) by lia. by eexists.
Qed.

Lemma finish_b_ok out b t : holding_text out b t → no_null t → finish_b b = Ok (given out t).
Proof.
  destruct out; [|by intros ->]. intros (sb & -> & E & Hsb & Ha) Hn. unfold finish_b.
  rewrite sb_finish_ok by (done || by rewrite E). by rewrite bind_ret, E.
Qed.

(** The loop adds the text to the buffer. *)
Lemma chars_sim out fuel : ∀ s b t0 o, text s → read_chars fuel s = Ok o → holding_text out b t0 → zlen t0 + 4 * zlen s ≤ text_max →
  match o with
  | None => parse_chars fuel b s = Ok None
  | Some (t, s') => ∃ b', parse_chars fuel b s = Ok (Some (b', s')) ∧ holding_text out b' (t0 ++ t)
  end.
Proof.
  induction fuel as [|fuel IH]; intros s b t0 o Ht Hr Hb Hl; [done|]. cbn [read_chars parse_chars] in *.
  destruct (zterm_cons s (proj1 Ht)) as (c & u & E & _). rewrite E in Hr |- *. cbn [deref mbind res_bind tail] in *. rewrite <- E in *.
  destruct (c =? 34); [injection Hr as <-; exists b; by rewrite app_nil_r|].
  destruct (char_reads s Ht) as (o1 & Eo1 & Ho1). rewrite Eo1 in Hr |- *. cbn [attempt mbind res_bind] in *.
  destruct o1 as [[bs s1]|]; [|by injection Hr as <-]. destruct (Ho1 bs s1 eq_refl) as [[Hl1 L1] (x & Hx & ->)].
  unfold zlen in Hl. destruct (write_b_ok out b t0 x Hb) as (b1 & -> & Hb1); [unfold zlen; lia|]. cbn [mbind res_bind].
  destruct (read_chars fuel s1) as [o2|] eqn:E2; [|done]. cbn [attempt mbind res_bind] in Hr.
  pose proof (utf8_length x) as Hxl. specialize (IH s1 b1 (t0 ++ utf8 x) o2 (later_text _ _ Ht Hl1) E2 Hb1).
  rewrite zlen_app in IH. unfold zlen in *. specialize (IH ltac:(lia)).
  destruct o2 as [[t s2]|]; injection Hr as <-; [|done]. by rewrite app_assoc.
Qed.

Lemma string_sim out s o : text s → fits s → read_string s = Ok o →
  parse_string out s = Ok ((λ '(t, s'), (given out t, s')) <$> o).
Proof.
  intros Ht Hf Hr. pose proof (string_reads s Ht) as (o' & E' & Ho). assert (o' = o) as -> by congruence. clear E'.
  unfold read_string, parse_string in *. destruct (zterm_cons s (proj1 Ht)) as (c & u & -> & Hu). cbn [getc mbind res_bind] in *.
  destruct (Z.eqb_spec c 34) as [->|]; cbn [negb] in *; [|by injection Hr as <-].
  destruct (start_b_ok out) as (b & -> & Hb). rewrite bind_ret. specialize (Hu ltac:(lia)).
  assert (Htu : text u) by (split; [done|]; destruct Ht as [_ Ht]; by apply Forall_cons in Ht as [_ Ht]).
  unfold fits, zlen in Hf. cbn [length] in Hf.
  pose proof (chars_sim out _ u b [] o Htu Hr Hb) as Hs. unfold zlen in Hs. cbn [length app] in Hs. specialize (Hs ltac:(lia)).
  destruct o as [[t s']|]; [|by rewrite Hs]. destruct Hs as (b' & -> & Hb'). cbn [attempt mbind res_bind].
  destruct (Ho t s' eq_refl) as [_ (us & Hus & Et)]. rewrite (finish_b_ok out b' t Hb'); [done|]. rewrite Et. by apply utf8s_no_null.
Qed.

(** ** Nodes that are built *)

(** A new root with this value, if the caller asked for it. *)
Definition stored (out : bool) (σ0 σ : store) (p : option loc) (v : json) : Prop :=
  if out then ∃ t, p = Some (t_loc t) ∧ built σ0 σ t ∧ formed t ∧ t_key t = None ∧ val t = v
  else p = None ∧ σ = σ0.
Definition unstored (out : bool) (σ0 σ : store) : Prop := if out then undone σ0 σ else σ = σ0.

(** The outcome of a parser, against the outcome of the reader. *)
Definition outcome (out : bool) (σ0 : store) (o : option (json * ptr)) (r : res (store * option (option loc * ptr))) : Prop :=
  match o with
  | None => ∃ σ, r = Ok (σ, None) ∧ unstored out σ0 σ
  | Some (v, s) => ∃ σ p, r = Ok (σ, Some (p, s)) ∧ stored out σ0 σ p v
  end.

Lemma unstored_refl out σ : (out = true → fresh σ) → unstored out σ σ.
Proof. destruct out; [|done]. intros Hf. by apply undone_refl, Hf. Qed.

(** A value without children. *)
Lemma make_stored out σ mk d v :
  (out = true → fresh σ) →
  (out = true → fresh σ → ∃ σ', mk σ = Ok (σ', next_loc σ) ∧ built σ σ' (LT (next_loc σ) None d [])) →
  val (LT (next_loc σ) None d []) = v → is_container d = false →
  ∃ σ' p, make out mk σ = Ok (σ', p) ∧ stored out σ σ' p v.
Proof.
  intros Hf Hmk Hv Hd. destruct out; [|by eexists _, _]. destruct (Hmk eq_refl (Hf eq_refl)) as (σ' & Emk & Hb). unfold make. rewrite Emk, bind_ret.
  eexists _, _. split; [done|]. eexists. split; [|split; [exact Hb|split; [|done]]]; [done|]. by constructor; [|intros ->..|].
Qed.

(** ** Containers under construction *)
Definition holding (out : bool) (σ0 σ : store) (ret : option loc) (d : kind) (v : json) : Prop :=
  if out then ∃ p cs, ret = Some p ∧ built σ0 σ (LT p None d cs) ∧ formed (LT p None d cs) ∧ val (LT p None d cs) = v
  else ret = None ∧ σ = σ0.

Lemma holding_stored out σ0 σ ret d v : holding out σ0 σ ret d v → stored out σ0 σ ret v.
Proof. destruct out; [|done]. intros (p & cs & -> & Hb & Hf & Hv). by exists (LT p None d cs). Qed.

Lemma holding_fresh out σ0 σ ret d v : holding out σ0 σ ret d v → out = true → fresh σ.
Proof. intros Hh ->. destruct Hh as (p & cs & _ & Hb & _). apply Hb. Qed.

Lemma holding_unstored out σ0 σ σ' ret d v : holding out σ0 σ ret d v → unstored out σ σ' → holding out σ0 σ' ret d v.
Proof.
  destruct out; [|by intros [-> ->] ->]. intros (p & cs & -> & Hb & Hf & Hv) Hu. exists p, cs. split; [done|].
  split; [by eapply undone_built|done].
Qed.

Lemma delete_holding out σ0 σ ret d v : (out = true → fresh σ0) → holding out σ0 σ ret d v →
  ∃ σ', json_delete σ ret = Ok σ' ∧ unstored out σ0 σ'.
Proof.
  intros Hf. destruct out; [|intros [-> ->]; by exists σ0]. intros (p & cs & -> & Hb & Hfm & Hv).
  by apply (delete_built σ0 σ (LT p None d cs)); [apply Hf| |].
Qed.

Lemma built_root σ0 σ t : built σ0 σ t → cells σ !! t_loc t = Some (root_node None None None t).
Proof. intros [Hr _ _ _ _]. by apply rep_parts in Hr as (? & _). Qed.

Lemma append_element_holding out σ0 σ σ1 ret e l v :
  holding out σ0 σ ret KArray (JArray l) → stored out σ σ1 e v →
  ∃ σ2, with_out out σ1 (r ← the ret; e ← the e; json_append_element σ1 r e) = Ok σ2 ∧
    holding out σ0 σ2 ret KArray (JArray (l ++ [v])).
Proof.
  destruct out; [|intros [-> ->] [-> ->]; by exists σ0]. intros (p & cs & -> & Hb & Hf & Hv) (t & -> & Hbt & Hft & Hk & Hvt).
  unfold with_out. cbn [the mbind res_bind].
  destruct (append_built σ0 σ σ1 p None KArray cs t eq_refl Hb Hbt) as (σ2 & E & Hb2). exists σ2. split.
  - unfold json_append_element, check_link. destruct (built_apart _ _ _ _ _ _ _ _ Hb Hbt) as [Hp _]. rewrite flat_eq in Hp.
    apply holds_cons in Hp as [Hp _]. cbn [t_loc] in Hp. rewrite (load_at _ _ _ Hp), bind_ret.
    cbn [root_node j_data data_of t_kind is_array assert_ mbind res_bind].
    rewrite (load_at _ _ _ (built_root _ _ _ Hbt)), bind_ret. done.
  - exists p, (cs ++ [t]). split; [done|]. split; [done|]. inversion_clear Hf as [? ? ? ? H1 H2 H3 H4]. split.
    + constructor; [done| |done|apply Forall_app; by split; [|constructor]]. intros _. apply Forall_app. split; [by apply H2|by constructor].
    + cbn [val] in *. rewrite map_app. injection Hv as ->. cbn [map]. by rewrite Hvt.
Qed.

Lemma append_member_holding out σ0 σ σ1 ret key e l v :
  holding out σ0 σ ret KObject (JObject l) → stored out σ σ1 e v →
  ∃ σ2, with_out out σ1 (r ← the ret; k ← the (given out key); v ← the e; append_member σ1 r k v) = Ok σ2 ∧
    holding out σ0 σ2 ret KObject (JObject (l ++ [(key, v)])).
Proof.
  destruct out; [|intros [-> ->] [-> ->]; by exists σ0]. intros (p & cs & -> & Hb & Hf & Hv) (t & -> & Hbt & Hft & Hk & Hvt).
  unfold with_out. cbn [the given mbind res_bind]. unfold append_member.
  destruct (rekey_built σ σ1 t key Hbt) as (σ2 & -> & Hb2). rewrite bind_ret. set (t' := LT _ _ _ _) in Hb2.
  destruct (append_built σ0 σ σ2 p None KObject cs t' eq_refl Hb Hb2) as (σ3 & E & Hb3). exists σ3. split; [exact E|].
  exists p, (cs ++ [t']). split; [done|]. split; [done|]. inversion_clear Hf as [? ? ? ? H1 H2 H3 H4].
  assert (Ht' : formed t') by (destruct t; inversion_clear Hft; by constructor). split.
  - constructor; [done|done| |apply Forall_app; by split; [|constructor]]. intros _. apply Forall_app. split; [by apply H3|].
    constructor; [by eexists|constructor].
  - cbn [val] in *. rewrite map_app. injection Hv as ->. cbn [map]. do 2 f_equal. unfold t'. cbn [t_key default]. rewrite <- Hvt.
    by destruct t.
Qed.

(** ** Loops *)

(** A parser follows a reader on the texts up to a length. *)
Record follows (out : bool) (value : value_parser) (rd : reader) (n : nat) : Prop := {
  fo_reads s : text s → (length s ≤ n)%nat → reads s good (rd s);
  fo_sim σ s o : text s → fits s → (length s ≤ n)%nat → (out = true → fresh σ) → rd s = Ok o → outcome out σ o (value σ s) }.

(** How a loop ends, when the reader of the items ends with [o]. *)
Definition loop_outcome {A} (out : bool) (σ0 : store) (ret : option loc) (d : kind) (mk : list A → json) (l : list A)
    (o : option (list A * ptr)) (r : res (store * option ptr)) : Prop :=
  match o with
  | None => ∃ σ l', r = Ok (σ, None) ∧ holding out σ0 σ ret d (mk l')
  | Some (vs, s) => ∃ σ, r = Ok (σ, Some s) ∧ holding out σ0 σ ret d (mk (l ++ vs))
  end.

Lemma loop_None {A} out σ0 ret d (mk : list A → json) l l' σ : holding out σ0 σ ret d (mk l') →
  loop_outcome out σ0 ret d mk l None (Ok (σ, None)).
Proof. intros Hh. by exists σ, l'. Qed.

Lemma loop_cons {A} out σ0 ret d (mk : list A → json) l a o r :
  loop_outcome out σ0 ret d mk (l ++ [a]) o r → loop_outcome out σ0 ret d mk l ((λ '(vs, s), (a :: vs, s)) <$> o) r.
Proof. destruct o as [[vs s]|]; [|done]. intros (σ & E & Hh). exists σ. split; [done|]. by rewrite <- app_assoc in Hh. Qed.

Lemma elements_sim out value rd n σ0 ret : follows out value rd n →
  ∀ k s σ l o, text s → fits s → (length s ≤ n)%nat → read_items rd 93 k s = Ok o →
  holding out σ0 σ ret KArray (JArray l) → loop_outcome out σ0 ret KArray JArray l o (parse_elements value out k σ ret s).
Proof.
  intros [Hrd Hsim]. induction k as [|k IH]; intros s σ l o Ht Hf Hn Hr Hh; [done|]. cbn [read_items parse_elements] in *.
  destruct (Hrd s Ht Hn) as (o1 & E1 & Ho1). rewrite E1 in Hr. cbn [attempt mbind res_bind] in Hr.
  pose proof (Hsim σ s o1 Ht Hf Hn (holding_fresh _ _ _ _ _ _ Hh) E1) as Hout. destruct o1 as [[v s1]|]; cbn [outcome] in Hout.
  2:{ injection Hr as <-. destruct Hout as (σ1 & -> & Hu). eapply loop_None, holding_unstored; [exact Hh|exact Hu]. }
  destruct Hout as (σ1 & e & -> & Hst). cbn [mbind res_bind]. destruct (Ho1 v s1 eq_refl) as [[H1 L1] _].
  destruct (skip_space_char s1) as (c & u & Es & Hu); [apply H1|]. rewrite Es in Hr |- *. cbn [getc mbind res_bind] in *.
  destruct (append_element_holding out σ0 σ σ1 ret e l v Hh Hst) as (σ2 & -> & Hh2). cbn [mbind res_bind getc].
  destruct (c =? 93); [injection Hr as <-; by exists σ2|].
  destruct (Z.eqb_spec c 44) as [->|]; cbn [negb] in *; [|injection Hr as <-; by eapply loop_None].
  assert (Hl : after s u) by (eapply later_after; [exact H1|]; eapply later_char; [done|lia]).
  destruct (skip_space_later u) as (s2 & E2 & Hs2); [apply Hl|]. rewrite E2 in Hr |- *. cbn [mbind res_bind] in *.
  assert (Hl2 : after s s2) by (by eapply after_later). destruct Hl2 as [Hl2 L2].
  destruct (read_items rd 93 k s2) as [o2|] eqn:E3; [|done]. cbn [attempt mbind res_bind] in Hr.
  assert (o = (λ '(vs, s), (v :: vs, s)) <$> o2) as -> by (by destruct o2 as [[vs s3]|]; injection Hr as <-).
  apply loop_cons, IH; [by eapply later_text|eapply fits_later; [done|lia]|lia|done|done].
Qed.

Lemma members_sim out value rd n σ0 ret : follows out value rd n →
  ∀ k s σ l o, text s → fits s → (length s ≤ n)%nat → read_items (read_member rd) 125 k s = Ok o →
  holding out σ0 σ ret KObject (JObject l) → loop_outcome out σ0 ret KObject JObject l o (parse_members value out k σ ret s).
Proof.
  intros [Hrd Hsim]. induction k as [|k IH]; intros s σ l o Ht Hf Hn Hr Hh; [done|]. cbn [read_items parse_members] in *.
  unfold read_member at 1 in Hr. destruct (string_reads s Ht) as (o1 & E1 & Ho1). rewrite E1 in Hr. cbn [attempt mbind res_bind] in Hr.
  rewrite (string_sim out s o1 Ht Hf E1). cbn [mbind res_bind]. destruct o1 as [[key s1]|]; cbn [fmap option_fmap option_map] in *.
  2:{ injection Hr as <-. by eapply loop_None. }
  destruct (Ho1 key s1 eq_refl) as [[H1 L1] _].
  destruct (skip_space_char s1) as (c & u & Es & Hu); [apply H1|]. rewrite Es in Hr |- *. cbn [getc mbind res_bind] in *.
  destruct (Z.eqb_spec c 58) as [->|]; cbn [negb attempt mbind res_bind] in *; [|injection Hr as <-; by eapply loop_None].
  assert (Hl : after s u) by (eapply later_after; [exact H1|]; eapply later_char; [done|lia]).
  destruct (skip_space_later u) as (s2 & E2 & Hs2); [apply Hl|]. rewrite E2 in Hr |- *. cbn [mbind res_bind] in *.
  assert (Hl2 : after s s2) by (by eapply after_later). destruct Hl2 as [Hl2 L2].
  assert (Ht2 : text s2) by (by eapply later_text). assert (Hf2 : fits s2) by (eapply fits_later; [done|lia]).
  destruct (Hrd s2 Ht2 ltac:(lia)) as (o2 & E3 & Ho2). rewrite E3 in Hr. cbn [attempt mbind res_bind] in Hr.
  pose proof (Hsim σ s2 o2 Ht2 Hf2 ltac:(lia) (holding_fresh _ _ _ _ _ _ Hh) E3) as Hout. destruct o2 as [[v s3]|]; cbn [outcome] in Hout.
  2:{ injection Hr as <-. destruct Hout as (σ1 & -> & Hun). eapply loop_None, holding_unstored; [exact Hh|exact Hun]. }
  destruct Hout as (σ1 & e & -> & Hst). cbn [mbind res_bind attempt] in *. destruct (Ho2 v s3 eq_refl) as [[H3 L3] _].
  destruct (skip_space_char s3) as (c & w & Ew & Hw); [apply H3|]. rewrite Ew in Hr |- *. cbn [getc mbind res_bind] in *.
  destruct (append_member_holding out σ0 σ σ1 ret key e l v Hh Hst) as (σ2 & -> & Hh2). cbn [mbind res_bind getc].
  destruct (c =? 125); [injection Hr as <-; by exists σ2|].
  destruct (Z.eqb_spec c 44) as [->|]; cbn [negb] in *; [|injection Hr as <-; by eapply loop_None].
  assert (Hl3 : after s w) by (eapply later_after; [exact Hl2|]; eapply later_after; [exact H3|]; eapply later_char; [done|lia]).
  destruct (skip_space_later w) as (s4 & E4 & Hs4); [apply Hl3|]. rewrite E4 in Hr |- *. cbn [mbind res_bind] in *.
  assert (Hl4 : after s s4) by (by eapply after_later). destruct Hl4 as [Hl4 L4].
  destruct (read_items (read_member rd) 125 k s4) as [o5|] eqn:E5; [|done]. cbn [attempt mbind res_bind] in Hr.
  assert (o = (λ '(vs, s), ((key, v) :: vs, s)) <$> o5) as -> by (by destruct o5 as [[vs s5]|]; injection Hr as <-).
  apply loop_cons, IH; [by apply (later_text s)|apply (fits_later s); [done|lia]|lia|done|done].
Qed.

(** A container, given its loop. *)
Lemma container_sim {A} out open close d (mk : list A → json) mknode (item : ptr → res (option (A * ptr))) loop s σ o :
  text s → fits s → open ≠ 0 → close ≠ 0 → (out = true → fresh σ) → is_container d = true → val (LT 1 None d []) = mk [] →
  (fresh σ → ∃ σ', mknode σ = Ok (σ', next_loc σ) ∧ built σ σ' (LT (next_loc σ) None d [])) →
  (∀ s' σ' ret o', text s' → fits s' → (length s' < length s)%nat → read_items item close (length s') s' = Ok o' →
     holding out σ σ' ret d (mk []) → loop_outcome out σ ret d mk [] o' (loop (length s') σ' ret s')) →
  read_container open close item s = Ok o →
  outcome out σ ((λ '(l, s'), (mk l, s')) <$> o) (parse_container open close mknode loop out σ s).
Proof.
  intros Ht Hf Hop Hcl Hfr Hd Hv Hmk Hloop Hr. unfold parse_container.
  assert (∃ σ1 ret, make out mknode σ = Ok (σ1, ret) ∧ holding out σ σ1 ret d (mk [])) as (σ1 & ret & -> & Hh).
  { destruct out; [|by eexists _, _]. destruct (Hmk (Hfr eq_refl)) as (σ' & Emk & Hb). unfold make. rewrite Emk, bind_ret.
    eexists _, _. split; [done|]. eexists _, _. split; [done|]. split; [exact Hb|]. split; [|by destruct d].
    by constructor; [|intros ->; constructor..|constructor]. }
  rewrite bind_ret. unfold read_container in Hr. destruct (zterm_cons s (proj1 Ht)) as (c & u & -> & Hu). cbn [getc mbind res_bind] in *.
  assert (Hdel : ∀ σ' l', holding out σ σ' ret d (mk l') → outcome out σ None (σ ← json_delete σ' ret; Ok (σ, None))).
  { intros σ' l' Hh'. destruct (delete_holding out σ σ' ret d _ Hfr Hh') as (σ2 & -> & Hu2). by exists σ2. }
  destruct (Z.eqb_spec c open) as [->|]; cbn [negb] in *; [|injection Hr as <-; by eapply Hdel].
  assert (Hl : after (open :: u) u) by (by apply later_tail; [apply Ht|]).
  destruct (skip_space_char u) as (c & w & Ew & Hw); [apply Hl|]. rewrite Ew in Hr |- *. cbn [deref mbind res_bind tail] in *.
  assert (Hl2 : after (open :: u) (c :: w)) by (by eapply after_later). destruct Hl2 as [Hl2 L2].
  destruct (c =? close); [injection Hr as <-; exists σ1, ret; split; [done|by eapply holding_stored]|].
  specialize (Hloop (c :: w) σ1 ret o (later_text _ _ Ht Hl2) (fits_later _ _ Hf (Nat.lt_le_incl _ _ L2)) L2 Hr Hh).
  destruct o as [[l s']|]; cbn [loop_outcome] in Hloop.
  - destruct Hloop as (σ2 & -> & Hh2). exists σ2, ret. split; [done|by eapply holding_stored].
  - destruct Hloop as (σ2 & l' & -> & Hh2). cbn [mbind res_bind]. by eapply Hdel.
Qed.

(** ** Values *)
Lemma outcome_None out σ : (out = true → fresh σ) → outcome out σ None (Ok (σ, None)).
Proof. intros Hf. exists σ. split; [done|by apply unstored_refl]. Qed.

Lemma literal_sim out σ s t mk d v o : (out = true → fresh σ) →
  (fresh σ → ∃ σ', mk σ = Ok (σ', next_loc σ) ∧ built σ σ' (LT (next_loc σ) None d [])) →
  val (LT (next_loc σ) None d []) = v → is_container d = false →
  read_literal s t v = Ok o → outcome out σ o (parse_literal out σ s t mk).
Proof.
  intros Hf Hmk Hv Hd. unfold read_literal, parse_literal. destruct (expect_literal s t) as [[s'|]|]; cbn [attempt mbind res_bind]; [| |done].
  - intros [= <-]. destruct (make_stored out σ mk d v Hf (λ _, Hmk) Hv Hd) as (σ' & p & -> & Hst). by exists σ', p.
  - intros [= <-]. by apply outcome_None.
Qed.

Lemma as_value_inv {A} (f : A → json) m o : as_value f m = Ok o → ∃ o', m = Ok o' ∧ o = (λ '(a, s), (f a, s)) <$> o'.
Proof.
  unfold as_value. destruct m as [o'|]; [|done]. cbn [attempt mbind res_bind]. intros E. exists o'. split; [done|].
  by destruct o' as [[a s]|]; injection E as <-.
Qed.

Lemma value_sim out fuel : ∀ σ s o, text s → fits s → (length s ≤ fuel)%nat → (out = true → fresh σ) →
  read_value fuel s = Ok o → outcome out σ o (parse_value fuel out σ s).
Proof.
  induction fuel as [|fuel IH]; intros σ s o Ht Hf Hl Hfr Hr; [done|]. cbn [read_value parse_value] in *.
  destruct (zterm_cons s (proj1 Ht)) as (c & u & E & _). rewrite E in Hr |- *. cbn [deref mbind res_bind] in *. rewrite <- E in *.
  assert (Hfo : follows out (parse_value fuel out) (read_value fuel) fuel).
  { split; [intros s' Ht' Hl'; by apply value_reads|intros; by apply IH]. }
  destruct (c =? 110); [eapply (literal_sim _ _ _ _ _ KNull); [done|apply (mknode_built σ KNull)|done|done|done]|].
  destruct (c =? 102); [eapply (literal_sim _ _ _ _ _ (KBool false)); [done|apply (mknode_set σ (KBool false))|done|done|done]|].
  destruct (c =? 116); [eapply (literal_sim _ _ _ _ _ (KBool true)); [done|apply (mknode_set σ (KBool true))|done|done|done]|].
  destruct (c =? 34).
  { apply as_value_inv in Hr as (o' & Hr & ->). rewrite (string_sim out s o' Ht Hf Hr). cbn [mbind res_bind].
    destruct o' as [[t s']|]; cbn [fmap option_fmap option_map]; [|by apply outcome_None].
    destruct (make_stored out σ (λ σ, t ← the (given out t); mkstring σ t) (KString t) (JString t)) as (σ' & p & -> & Hst); [done| |done|done|by exists σ', p].
    intros ->. apply (mknode_set σ (KString t)). }
  destruct (c =? 91).
  { apply as_value_inv in Hr as (o' & Hr & ->). eapply (container_sim out 91 93 KArray JArray); try done; [apply (mknode_built σ KArray)|].
    intros s' σ' ret o2 Ht' Hf' Hl' Hr' Hh. eapply (elements_sim _ _ _ fuel _ _ Hfo); [done|done|lia|done|done]. }
  destruct (c =? 123).
  { apply as_value_inv in Hr as (o' & Hr & ->). eapply (container_sim out 123 125 KObject JObject); try done; [apply (mknode_built σ KObject)|].
    intros s' σ' ret o2 Ht' Hf' Hl' Hr' Hh. eapply (members_sim _ _ _ fuel _ _ Hfo); [done|done|lia|done|done]. }
  destruct (parse_number s) as [[[s' x]|]|]; cbn [attempt mbind res_bind] in *; [| |done]; injection Hr as <-.
  - destruct (make_stored out σ (λ σ, json_mknumber σ x) (KNumber x) (JNumber x)) as (σ' & p & -> & Hst); [done| |done|done|by exists σ', p].
    intros _. apply (mknode_set σ (KNumber x)).
  - by apply outcome_None.
Qed.

(** ** Whole texts *)

(** The decoder, against the reader. *)
Lemma decode_sim σ t o : fresh σ → Forall byte_ok t → fits (cstr t) → read_json t = Ok o →
  match o with
  | Some v => ∃ σ' p, json_decode σ t = Ok (σ', Some p) ∧ stored true σ σ' (Some p) v
  | None => ∃ σ', json_decode σ t = Ok (σ', None) ∧ undone σ σ'
  end.
Proof.
  intros Hfr Hb%cstr_text Hf Hr. unfold read_json, json_decode in *.
  destruct (skip_space_later (cstr t)) as (s & E & Hs); [apply Hb|]. rewrite E in Hr |- *. cbn [mbind res_bind] in *.
  assert (Ht : text s) by (by eapply later_text). assert (Hfs : fits s) by (eapply fits_later; [done|apply Hs]).
  destruct (value_reads (length s) s Ht (le_n _)) as (o1 & E1 & Ho1). rewrite E1 in Hr. cbn [attempt mbind res_bind] in Hr.
  pose proof (value_sim true _ σ s o1 Ht Hfs (le_n _) (λ _, Hfr) E1) as Hout. destruct o1 as [[v s1]|]; cbn [outcome] in Hout.
  2:{ injection Hr as <-. destruct Hout as (σ1 & -> & Hu). by exists σ1. }
  destruct Hout as (σ1 & p & -> & Hst). cbn [mbind res_bind]. destruct (Ho1 v s1 eq_refl) as [[H1 _] _].
  destruct (skip_space_char s1) as (c & u & E2 & _); [apply H1|]. rewrite E2 in Hr |- *. cbn [deref mbind res_bind] in *.
  destruct (c =? 0); injection Hr as <-; cbn [negb].
  - pose proof Hst as (tr & Ep & _). exists σ1, (t_loc tr). by rewrite <- Ep.
  - destruct Hst as (tr & -> & Hbt & Hft & _). destruct (delete_built σ σ1 tr Hfr Hft Hbt) as (σ2 & -> & Hu). by exists σ2.
Qed.

(** The validator, against the reader. *)
Lemma validate_sim σ t o : Forall byte_ok t → fits (cstr t) → read_json t = Ok o →
  json_validate σ t = Ok (σ, match o with Some _ => true | None => false end).
Proof.
  intros Hb%cstr_text Hf Hr. unfold read_json, json_validate in *.
  destruct (skip_space_later (cstr t)) as (s & E & Hs); [apply Hb|]. rewrite E in Hr |- *. cbn [mbind res_bind] in *.
  assert (Ht : text s) by (by eapply later_text). assert (Hfs : fits s) by (eapply fits_later; [done|apply Hs]).
  destruct (value_reads (length s) s Ht (le_n _)) as (o1 & E1 & Ho1). rewrite E1 in Hr. cbn [attempt mbind res_bind] in Hr.
  pose proof (value_sim false _ σ s o1 Ht Hfs (le_n _) ltac:(done) E1) as Hout. destruct o1 as [[v s1]|]; cbn [outcome] in Hout.
  2:{ injection Hr as <-. by destruct Hout as (σ1 & -> & ->). }
  destruct Hout as (σ1 & p & -> & Hst). cbn [mbind res_bind]. destruct (Ho1 v s1 eq_refl) as [[H1 _] _].
  destruct (skip_space_char s1) as (c & u & E2 & _); [apply H1|]. rewrite E2 in Hr |- *. cbn [deref mbind res_bind] in *.
  destruct Hst as [_ ->]. by destruct (c =? 0); injection Hr as <-.
Qed.
End sim.
