(* ===== verification/JsonPrint.v ===== *)
(** * Writing values

    The text of a value, compact or indented, and the proof that the writers put
    exactly that text into the buffer. *)
From Stdlib Require Import Strings.String.
From stdpp Require Import gmap.
From S2P Require Import Prelude.
From S2P Require Import Rule.
From S2P Require Import Scanf.
From S2P Require Import CString.
From S2P Require Import Double.
From S2P Require Import Utf8.
From S2P Require Import JsonNum.
From S2P Require Import JsonStore.
From S2P Require Import JsonRep.
From S2P Require Import JsonBuf.
From S2P Require Import Json.
From S2P Require Import JsonRead.
From S2P Require Import JsonBuild.
#[local] Open Scope Z_scope.

(** ** Texts *)
Definition hex4 (v : Z) : str :=
  [hex_char (v / 4096 mod 16); hex_char (v / 256 mod 16); hex_char (v / 16 mod 16); hex_char (v mod 16)].

(** A byte within quotes; the byte 0x1F is not escaped. *)
Definition esc (c : Z) : str :=
  if c =? 34 then [92; 34]
  else if c =? 92 then [92; 92]
  else if c =? 8 then [92; 98]
  else if c =? 12 then [92; 102]
  else if c =? 10 then [92; 110]
  else if c =? 13 then [92; 114]
  else if c =? 9 then [92; 116]
  else if c <? 0x1F then 92 :: 117 :: hex4 c
  else [c].
Definition escapes (s : str) : str := concat (esc <$> s).
Definition quote (s : str) : str := 34 :: escapes s ++ [34].

Definition num_text (d : double) : str :=
  match number_is_valid (sprintf_g16 d) with Ok true => sprintf_g16 d | _ => lit "null" end.

(** The end of a line and the indentation of the next one; nothing in a compact text. *)
Definition indent (space : str) (lvl : nat) : str := concat (replicate lvl space).
Definition gap (style : option str) (lvl : nat) : str := match style with Some space => 10 :: indent space lvl | None => [] end.
Definition colon (style : option str) : str := match style with Some _ => [58; 32] | None => [58] end.

Fixpoint join (sep : str) (l : list str) : str :=
  match l with
  | [] => []
  | x :: l => match l with [] => x | _ => x ++ sep ++ join sep l end
  end.

Definition wrap (open close : Z) (style : option str) (lvl : nat) (items : list str) : str :=
  match items with
  | [] => [open; close]
  | _ => open :: gap style (S lvl) ++ join (44 :: gap style (S lvl)) items ++ gap style lvl ++ [close]
  end.

Fixpoint render (style : option str) (lvl : nat) (v : json) : str :=
  match v with
  | JNull => lit "null"
  | JBool b => if b then lit "true" else lit "false"
  | JString s => quote s
  | JNumber d => num_text d
  | JArray vs => wrap 91 93 style lvl (map (render style (S lvl)) vs)
  | JObject ms => wrap 123 125 style lvl (map (λ m, quote m.1 ++ colon style ++ render style (S lvl) m.2) ms)
  end.

(** ** Characters *)
Lemma hex4_write v : 0 ≤ v < 2 ^ 16 → write_hex16 v = Ok (hex4 v).
Proof.
  intros Hv. unfold write_hex16, hex4. rewrite !(land_mod _ 4 0xF), !Z.shiftr_div_pow2 by done.
  change (2 ^ 4) with 16. change (2 ^ 8) with 256. change (2 ^ 12) with 4096.
  by rewrite !hex_table by (Z.to_euclidean_division_equations; lia).
Qed.

Lemma hex4_parse v rest : 0 ≤ v < 2 ^ 16 → parse_hex16 (hex4 v ++ rest) = Ok (Some (v, rest)).
Proof. intros Hv. destruct (hex16_back v rest Hv) as (ds & E & _ & _ & Hp). rewrite hex4_write in E by done. injection E as <-. done. Qed.

Lemma utf8_ascii u : u ≤ 0x7F → utf8 u = [u].
Proof. intros Hu. unfold utf8. by rewrite (proj2 (Z.leb_le _ _)). Qed.

Lemma utf8_high u : scalar u → 0x7F < u → Forall (λ c, 0x80 ≤ c) (utf8 u).
Proof.
  intros [Hu _] Hl. unfold utf8, cont. destruct (Z.leb_spec u 0x7F); [lia|]. destruct (Z.leb_spec u 0x7FF), (Z.leb_spec u 0xFFFF); try lia;
    repeat (apply Forall_cons; split); try apply Forall_nil_2; Z.to_euclidean_division_equations; lia.
Qed.

Lemma esc_high c : 0x80 ≤ c → esc c = [c].
Proof. intros Hc. unfold esc. zbool. Qed.

Lemma escapes_high s : Forall (λ c, 0x80 ≤ c) s → escapes s = s.
Proof. unfold escapes. induction 1 as [|c s Hc _ IH]; [done|]. cbn [fmap list_fmap concat]. by rewrite esc_high, IH by done. Qed.

Lemma escapes_app a b : escapes (a ++ b) = escapes a ++ escapes b.
Proof. unfold escapes. by rewrite fmap_app, concat_app. Qed.

Lemma escapes_single c : escapes [c] = esc c.
Proof. apply app_nil_r. Qed.

(** The first byte of a character beyond ASCII. *)
Lemma utf8_high_head u rest : scalar u → 0x7F < u → ∃ c s, utf8 u ++ rest = c :: s ∧ 0x80 ≤ c.
Proof.
  intros Hu Hl. pose proof (utf8_high u Hu Hl) as Hh. pose proof (utf8_length u) as Hlen.
  destruct (utf8 u) as [|c s]; [unfold zlen in Hlen; cbn in Hlen; lia|]. apply Forall_cons in Hh as [Hc _]. by exists c, (s ++ rest).
Qed.

Lemma zlen_take_drop {A} (a b : list A) : take (Z.to_nat (zlen a)) (a ++ b) = a ∧ drop (Z.to_nat (zlen a)) (a ++ b) = b.
Proof. unfold zlen. rewrite Nat2Z.id. by rewrite take_app_length, drop_app_length. Qed.

(** One round of [emit_string]. *)
Lemma emit_char_ok u rest : char_ok u →
  emit_char false (utf8 u ++ rest) = Ok (escapes (utf8 u), rest) ∧ zlen (escapes (utf8 u)) ≤ 12.
Proof.
  intros [Hu H0]. destruct (Z.le_gt_cases u 0x7F) as [Hl|Hl].
  - rewrite utf8_ascii, escapes_single by done. pose proof (validate_utf8 u rest Hu) as Hv. pose proof (read_utf8 u rest Hu) as Hr.
    rewrite utf8_ascii in Hv, Hr by done. change (zlen [u]) with 1 in Hv, Hr. unfold emit_char, esc. cbn [app getc mbind res_bind] in *.
    do 7 (match goal with |- context [if ?a =? ?b then _ else _] => destruct (Z.eqb_spec a b) as [?|?]; [done|] end).
    rewrite Hv. cbn [mbind res_bind Z.eqb]. rewrite andb_false_r, orb_false_r. destruct (Z.ltb_spec u 0x1F) as [H1|H1]; [|done].
    rewrite Hr. cbn [mbind res_bind]. rewrite (proj2 (Z.leb_le u 0xFFFF)) by lia. unfold write_u, u16.
    destruct Hu as [Hu _]. rewrite Z.mod_small, hex4_write by lia. done.
  - rewrite (escapes_high _ (utf8_high u Hu Hl)). split; [|pose proof (utf8_length u); lia].
    pose proof (validate_utf8 u rest Hu) as Hv. pose proof (utf8_length u). destruct (zlen_take_drop (utf8 u) rest) as [Et Ed].
    destruct (utf8_high_head u rest Hu Hl) as (c & s & E & Hc).
    unfold emit_char. rewrite E in *. cbn [getc mbind res_bind]. 
    rewrite !(proj2 (Z.eqb_neq c _)) by lia. rewrite Hv. cbn [mbind res_bind]. rewrite (proj2 (Z.eqb_neq (zlen _) 0)) by lia.
    rewrite (proj2 (Z.ltb_ge c 0x1F)), andb_false_r by lia. cbn [orb]. by rewrite Et, Ed.
Qed.

(** ** Strings and numbers *)
Section emit.
Context `{AllocTotal}.

Lemma emit_chars_ok us : ∀ fuel sb, Forall char_ok us → (length us < fuel)%nat → sb_ok sb → zlen (sb_text sb) + 13 ≤ sb_alloc sb →
  zlen (sb_text sb) + zlen (escapes (utf8s us)) ≤ text_max →
  ∃ sb', emit_chars false fuel sb (cstr (utf8s us)) = Ok sb' ∧ sb_text sb' = sb_text sb ++ escapes (utf8s us) ∧
    sb_ok sb' ∧ zlen (sb_text sb') + 13 ≤ sb_alloc sb'.
Proof.
  induction us as [|u us IH]; intros [|fuel] sb Hus Hf Hsb Hroom Hl; cbn [length] in Hf; try lia.
  { exists sb. by rewrite app_nil_r. }
  apply Forall_cons in Hus as [Hu Hus]. unfold utf8s in *. cbn [fmap list_fmap concat] in *. rewrite escapes_app in Hl |- *. rewrite zlen_app in Hl.
  cbn [emit_chars]. unfold cstr in IH |- *. rewrite <- app_assoc. destruct (emit_char_ok u (concat (utf8 <$> us) ++ [0]) Hu) as [Ee Hlen].
  destruct (utf8_head u (concat (utf8 <$> us) ++ [0]) (proj1 Hu) (proj2 Hu)) as (c & s & E & Hc). rewrite E in Ee |- *.
  cbn [deref mbind res_bind]. rewrite (proj2 (Z.eqb_neq c 0)) by done. rewrite Ee. cbn [mbind res_bind].
  destruct (sb_write_ok sb (escapes (utf8 u)) Hsb) as (sb1 & -> & E1 & Ea & Hsb1); [lia|]. cbn [mbind res_bind].
  pose proof (zlen_nonneg (escapes (concat (utf8 <$> us)))) as Hnn.
  destruct (sb_need_ok sb1 14) as (sb2 & -> & E2 & Hsb2 & Ha2); [done|lia|rewrite E1, zlen_app; lia|]. cbn [mbind res_bind].
  destruct (IH fuel sb2) as (sb3 & -> & E3 & Hsb3 & Ha3); [done|lia|done|rewrite E2; lia|rewrite E2, E1, zlen_app; lia|].
  exists sb3. split; [done|]. split; [by rewrite E3, E2, E1, app_assoc|done].
Qed.

Lemma emits_string s : utf8_text s → emits (λ out, emit_string out s) (quote s).
Proof.
  intros (us & Hus & ->) sb Hsb Hl. unfold emit_string, emit_string_with, quote in *.
  assert (Hvalid : utf8_validate (cstr (utf8s us)) = Ok true).
  { unfold utf8_validate. apply validate_loop_utf8s; [done|]. unfold cstr. rewrite length_app. pose proof (utf8s_length us). cbn [length]. lia. }
  rewrite Hvalid. cbn [mbind res_bind assert_].
  change (34 :: escapes (utf8s us) ++ [34]) with ([34] ++ escapes (utf8s us) ++ [34]) in *. rewrite !zlen_app in Hl. change (zlen [34]) with 1 in Hl.
  pose proof (zlen_nonneg (escapes (utf8s us))) as Hnn.
  destruct (sb_need_ok sb 14) as (sb1 & -> & E1 & Hsb1 & Ha1); [done|lia|lia|]. cbn [mbind res_bind].
  destruct (sb_write_ok sb1 [34] Hsb1) as (sb2 & -> & E2 & Ea & Hsb2); [rewrite E1; change (zlen [34]) with 1; lia|]. cbn [mbind res_bind].
  destruct (emit_chars_ok us (length (cstr (utf8s us))) sb2) as (sb3 & -> & E3 & Hsb3 & Ha3); [done| |done|..].
  { unfold cstr. rewrite length_app. pose proof (utf8s_length us). cbn [length]. lia. }
  { rewrite E2, E1, zlen_app, Ea. change (zlen [34]) with 1. lia. }
  { rewrite E2, E1, zlen_app. change (zlen [34]) with 1. lia. }
  cbn [mbind res_bind]. destruct (sb_write_ok sb3 [34] Hsb3) as (sb4 & -> & E4 & _ & Hsb4); [change (zlen [34]) with 1; lia|].
  exists sb4. split; [done|]. split; [|done]. by rewrite E4, E3, E2, E1, <- !app_assoc.
Qed.

Lemma trim_zeros_length s : (length (trim_zeros s) ≤ length s)%nat.
Proof. induction s as [|c s IH]; [done|]. cbn [trim_zeros length]. destruct (trim_zeros s); [destruct (c =? 48); cbn; lia|cbn in *; lia]. Qed.

Lemma point_frac_length s : (length (point_frac s) ≤ S (length s))%nat.
Proof. unfold point_frac. pose proof (trim_zeros_length s). destruct (trim_zeros s); cbn in *; lia. Qed.

Lemma fixed_digits_length k n : length (fixed_digits k n) = k.
Proof. revert n. induction k as [|k IH]; intros n; [done|]. cbn [fixed_digits]. rewrite length_app, IH. cbn. lia. Qed.

(** The number fits in the buffer of 64 characters. *)
Lemma sprintf_g16_length d : zlen (sprintf_g16 d) + 1 ≤ 64.
Proof.
  assert (Hp : ∀ n, (length (print_u64 n) ≤ 20)%nat) by (intros n; apply digits_length).
  assert (Hg : ∀ n m, (length (print_g16 n m) ≤ 62)%nat).
  { intros n m. unfold print_g16. destruct (sixteen n m) as [q x]. destruct ((-4 <=? x) && (x <? 16)) eqn:E.
    - rewrite length_app. pose proof (Hp (q / 10 ^ (15 - x))). pose proof (point_frac_length (fixed_digits (Z.to_nat (15 - x)) (q mod 10 ^ (15 - x)))) as Hf.
      rewrite fixed_digits_length in Hf. lia.
    - rewrite !length_app. pose proof (Hp (q / 10 ^ 15)). pose proof (point_frac_length (fixed_digits 15 (q mod 10 ^ 15))) as Hf.
      rewrite fixed_digits_length in Hf. unfold print_exp. cbn [length]. pose proof (Hp (Z.abs x)). destruct (Z.abs x <? 10); cbn [length]; lia. }
  unfold zlen, sprintf_g16. destruct d as [neg|neg| |neg m e]; [by destruct neg|by destruct neg|done|].
  rewrite length_app. pose proof (Hg (Zpos m * 2 ^ e) 1). pose proof (Hg (Zpos m) (2 ^ (- e))).
  destruct neg, (0 <=? e); cbn [length]; lia.
Qed.

Lemma emits_number d : emits (λ out, emit_number out d) (num_text d).
Proof.
  unfold emit_number, num_text. pose proof (sprintf_g16_length d) as Hl. rewrite (proj2 (Z.leb_le _ _)) by done. cbn [negb].
  destruct (number_valid_spec (sprintf_g16 d)) as (b & -> & _). cbn [mbind res_bind]. destruct b; apply emits_puts; [lia|done].
Qed.

(** ** Values *)
Lemma emits_ext f g t : (∀ sb, f sb = g sb) → emits g t → emits f t.
Proof. intros Hfg Hg sb Hsb Hl. rewrite Hfg. by apply Hg. Qed.

Lemma join_cons sep x y l : join sep (x :: y :: l) = x ++ sep ++ join sep (y :: l).
Proof. done. Qed.

(** The links of the first of the children. *)
Lemma flats_first σ par prv c cs : holds (cells σ) (flats par prv None (c :: cs)) →
  load σ (t_loc c) = Ok (root_node par prv (first_loc cs) c) ∧ holds (cells σ) (flats par (Some (t_loc c)) None cs).
Proof.
  rewrite flats_cons, flat_eq, link_None. intros [[Hc _]%holds_cons Hcs]%holds_app. by rewrite (load_at _ _ _ Hc).
Qed.

Lemma each_emits (item : emitter) σ par cs xs : ∀ prv k,
  Forall2 (λ c x, emits (λ out, item σ out (t_loc c)) x) cs xs → holds (cells σ) (flats par prv None cs) → (length cs ≤ k)%nat →
  emits (λ out, emit_each item k σ out (first_loc cs)) (join [44] xs).
Proof.
  intros prv k Hxs. revert prv k. induction Hxs as [|c x cs xs Hc Hxs IH]; intros prv k Hh Hk; [destruct k; apply emits_nil|].
  destruct k as [|k]; cbn [length] in Hk; [lia|]. destruct (flats_first _ _ _ _ _ Hh) as [Hload Hcs].
  specialize (IH _ k Hcs ltac:(lia)). cbn [first_loc head fmap option_fmap option_map emit_each].
  destruct Hxs as [|c2 x2 cs xs Hc2 Hxs].
  - eapply emits_ext; [|exact Hc]. intros sb. destruct (item σ sb (t_loc c)) as [sb1|]; [|done]. rewrite bind_ret, Hload. by destruct k.
  - rewrite join_cons. eapply emits_ext; [|apply (emits_seq _ _ _ _ Hc (emits_seq _ _ _ _ (emits_putc 44) IH))].
    intros sb. cbv beta. destruct (item σ sb (t_loc c)) as [sb1|]; [|done]. rewrite !bind_ret, Hload, bind_ret. cbn [root_node j_next].
    by rewrite bool_decide_eq_true_2.
Qed.

Lemma indent_emits space n : zlen space < 2 ^ 31 → emits (emit_indent space (Z.of_nat n)) (indent space n).
Proof.
  intros Hs. unfold emit_indent, mfor, indent. assert (Hl : length (seqZ 0 (Z.of_nat n - 0)) = n) by (rewrite length_seqZ; lia).
  replace (replicate n space) with (replicate (length (seqZ 0 (Z.of_nat n - 0))) space) by (by rewrite Hl). generalize (seqZ 0 (Z.of_nat n - 0)). intros l. induction l as [|i l IH]; [apply emits_nil|].
  cbn [length replicate concat mfold]. apply (emits_seq _ _ _ _ (emits_puts space Hs) IH).
Qed.

Lemma lines_emits (item : emitter) σ par space lvl cs xs : zlen space < 2 ^ 31 → ∀ prv k,
  Forall2 (λ c x, emits (λ out, item σ out (t_loc c)) x) cs xs → cs ≠ [] → holds (cells σ) (flats par prv None cs) → (length cs ≤ k)%nat →
  emits (λ out, emit_lines item space (Z.of_nat lvl) k σ out (first_loc cs))
    (indent space (S lvl) ++ join (44 :: 10 :: indent space (S lvl)) xs ++ [10]).
Proof.
  intros Hs prv k Hxs. revert prv k. induction Hxs as [|c x cs xs Hc Hxs IH]; intros prv k Hne Hh Hk; [done|].
  destruct k as [|k]; cbn [length] in Hk; [lia|]. destruct (flats_first _ _ _ _ _ Hh) as [Hload Hcs].
  cbn [first_loc head fmap option_fmap option_map emit_lines]. replace (Z.of_nat lvl + 1) with (Z.of_nat (S lvl)) by lia.
  pose proof (indent_emits space (S lvl) Hs) as Hi. destruct Hxs as [|c2 x2 cs xs Hc2 Hxs].
  - eapply emits_ext; [|apply (emits_seq _ _ _ _ Hi (emits_seq _ _ _ _ Hc (emits_puts [10] ltac:(done))))].
    intros sb. cbv beta. destruct (emit_indent _ _ sb) as [sb1|]; [|done]. rewrite !bind_ret.
    destruct (item σ sb1 (t_loc c)) as [sb2|]; [|done]. rewrite !bind_ret, Hload, bind_ret. cbn [root_node j_next first_loc head fmap option_fmap option_map].
    rewrite bool_false by auto. destruct (sb_puts sb2 [10]); [|done]. by destruct k.
  - specialize (IH _ k ltac:(done) Hcs ltac:(lia)). rewrite join_cons, <- !app_assoc. cbn [app].
    eapply emits_ext; [|apply (emits_seq _ _ _ _ Hi (emits_seq _ _ _ _ Hc (emits_seq _ _ _ _ (emits_puts [44; 10] ltac:(done)) IH)))].
    intros sb. cbv beta. destruct (emit_indent _ _ sb) as [sb1|]; [|done]. rewrite !bind_ret.
    destruct (item σ sb1 (t_loc c)) as [sb2|]; [|done]. rewrite !bind_ret, Hload, bind_ret. cbn [root_node j_next].
    by rewrite bool_decide_eq_true_2.
Qed.

(** The items of a container and its brackets. *)
Lemma brackets_emits (item : emitter) σ par prv nxt t open close xs : rep (cells σ) par prv nxt t → is_container (t_kind t) = true →
  Forall2 (λ c x, emits (λ out, item σ out (t_loc c)) x) (t_kids t) xs →
  emits (λ out, out ← sb_putc out open; child ← json_first_child σ (Some (t_loc t));
                out ← emit_each item (size (cells σ)) σ out child; sb_putc out close) (open :: join [44] xs ++ [close]).
Proof.
  intros Hr Hk Hxs. pose proof (rep_kids _ _ _ _ _ Hr) as Hl. pose proof (first_child_rep _ _ _ _ _ Hr) as Hf. rewrite Hk in Hf.
  apply rep_parts in Hr as (_ & Hb & _). pose proof (each_emits item σ _ _ _ _ (size (cells σ)) Hxs Hb ltac:(lia)) as He.
  eapply emits_ext; [|apply (emits_seq _ _ _ _ (emits_putc open) (emits_seq _ _ _ _ He (emits_putc close)))].
  intros sb. cbv beta. destruct (sb_putc sb open); [|done]. by rewrite !bind_ret, Hf.
Qed.

Lemma block_emits (item : emitter) σ par prv nxt t open close space lvl xs : zlen space < 2 ^ 31 →
  rep (cells σ) par prv nxt t → is_container (t_kind t) = true →
  Forall2 (λ c x, emits (λ out, item σ out (t_loc c)) x) (t_kids t) xs →
  emits (λ out, emit_block [open; close] [open; 10] close item space (Z.of_nat lvl) σ out (t_loc t))
    (wrap open close (Some space) lvl xs).
Proof.
  intros Hs Hr Hk Hxs. pose proof (rep_kids _ _ _ _ _ Hr) as Hl. apply rep_parts in Hr as (Hp & Hb & _).
  unfold emit_block. rewrite (get_children_at _ _ _ _ _ Hp (container_children _ _ Hk)). cbn [mbind res_bind].
  assert (Hw : ∀ a b c : str, open :: (10 :: a) ++ b ++ (10 :: c) ++ [close] = [open; 10] ++ (a ++ b ++ [10]) ++ c ++ [close]).
  { intros. cbn [app]. by rewrite <- !app_assoc. }
  destruct Hxs as [|c x cs xs Hc Hxs]; [by apply emits_puts|]. cbn [first_loc head fmap option_fmap option_map wrap gap]. rewrite Hw.
  apply (emits_seq _ _ _ _ (emits_puts [open; 10] ltac:(done))). apply emits_seq.
  - apply (lines_emits item σ _ space lvl (c :: cs) (x :: xs) Hs _ _ ltac:(by constructor) ltac:(done) Hb). lia.
  - apply (emits_seq _ _ _ _ (indent_emits space lvl Hs) (emits_putc close)).
Qed.

(** *** Trees that can be written *)

(** A tree in the store whose texts are UTF-8. *)
Definition writable (σ : store) (n : nat) (t : ltree) : Prop :=
  formed t ∧ good (val t) ∧ (∃ par prv nxt, rep (cells σ) par prv nxt t) ∧ (length (places t) ≤ n)%nat.

Lemma writable_kid σ n t c : writable σ (S n) t → c ∈ t_kids t →
  writable σ n c ∧ (t_kind t = KObject → ∃ key, t_key c = Some key ∧ utf8_text key).
Proof.
  intros (Ht & Hg & (par & prv & nxt & Hr) & Hn) Hc. destruct (good_kid t c Ht Hg Hc) as (Hgc & Hfc & Hk).
  split; [|done]. split; [done|]. split; [done|]. split; [by eapply rep_child|]. pose proof (child_places t c Hc). lia.
Qed.

Lemma Forall2_map_r {A B} (R : A → B → Prop) f l : (∀ a, a ∈ l → R a (f a)) → Forall2 R l (map f l).
Proof.
  induction l as [|a l IH]; intros Hl; [constructor|]. constructor; [apply Hl; by left|]. apply IH. intros b Hb. apply Hl. by right.
Qed.

(** A writer of the values of a style. *)
Definition writer_ok (style : option str) (value : emitter) (lvl : nat) (σ : store) (n : nat) : Prop :=
  ∀ t, writable σ n t → emits (λ out, value σ out (t_loc t)) (render style lvl (val t)).

(** The texts of the children. *)
Definition kid_texts (style : option str) (lvl : nat) (t : ltree) : list str :=
  match t_kind t with
  | KArray => map (λ c, render style lvl (val c)) (t_kids t)
  | KObject => map (λ c, quote (default [] (t_key c)) ++ colon style ++ render style lvl (val c)) (t_kids t)
  | _ => []
  end.

Lemma render_container style lvl t : is_container (t_kind t) = true →
  render style lvl (val t) =
  wrap (match t_kind t with KArray => 91 | _ => 123 end) (match t_kind t with KArray => 93 | _ => 125 end) style lvl (kid_texts style (S lvl) t).
Proof. destruct t as [p k d cs]. unfold kid_texts. cbn [t_kind t_kids]. by destruct d; cbn [val render]; rewrite ?map_map. Qed.

Lemma elements_emit style value lvl σ n t : writer_ok style value lvl σ n → writable σ (S n) t → t_kind t = KArray →
  Forall2 (λ c x, emits (λ out, value σ out (t_loc c)) x) (t_kids t) (kid_texts style lvl t).
Proof.
  intros Hw Ht Hk. unfold kid_texts. rewrite Hk. apply Forall2_map_r. intros c Hc. by apply Hw, (writable_kid σ n t c Ht Hc).
Qed.

(** A member: the key, the colon and the value. *)
Lemma members_emit style (member value : emitter) lvl σ n t :
  (∀ c, ∃ put, emits put (colon style) ∧ ∀ a b e out, load σ (t_loc c) = Ok (root_node a b e c) →
     member σ out (t_loc c) = (key ← the (t_key c); out ← emit_string out key; out ← put out; value σ out (t_loc c))) →
  writer_ok style value lvl σ n → writable σ (S n) t → t_kind t = KObject →
  Forall2 (λ c x, emits (λ out, member σ out (t_loc c)) x) (t_kids t) (kid_texts style lvl t).
Proof.
  intros Hmem Hw Ht Hk. unfold kid_texts. rewrite Hk. apply Forall2_map_r. intros c Hc.
  destruct (writable_kid σ n t c Ht Hc) as [Hwc Hkey]. destruct (Hkey Hk) as (key & Ek & Hu). rewrite Ek. cbn [default].
  destruct (Hmem c) as (put & Hput & Eq). destruct Hwc as (Hf & Hg & (a & b & e & Hr) & Hn).
  assert (Hwc : writable σ n c) by (split; [done|]; split; [done|]; split; [by exists a, b, e|done]).
  apply rep_parts in Hr as (Hroot & _). eapply emits_ext; [|apply (emits_seq _ _ _ _ (emits_string key Hu) (emits_seq _ _ _ _ Hput (Hw c Hwc)))].
  intros sb. rewrite (Eq a b e sb (load_at _ _ _ Hroot)), Ek. done.
Qed.

Lemma wrap_compact open close lvl xs : wrap open close None lvl xs = open :: join [44] xs ++ [close].
Proof. by destruct xs. Qed.

Lemma scalar_emits style lvl t k : is_container (t_kind t) = false → good (val t) →
  emits (λ out, emit_scalar (data_of (t_kind t) (t_kids t)) out k) (render style lvl (val t)).
Proof.
  destruct t as [p key d cs]. cbn [t_kind t_kids]. intros Hd Hg. destruct d; try done; cbn [data_of emit_scalar val render the mbind res_bind].
  - by apply emits_puts.
  - by destruct b; apply emits_puts.
  - inversion_clear Hg. by apply emits_string.
  - apply emits_number.
Qed.

Lemma value_emits fuel σ : ∀ lvl, writer_ok None (emit_value fuel) lvl σ fuel.
Proof.
  induction fuel as [|fuel IH]; intros lvl t Hw; pose proof Hw as (Hf & Hg & (par & prv & nxt & Hr) & Hn); [rewrite places_eq in Hn; cbn in Hn; lia|].
  pose proof (rep_parts _ _ _ _ _ Hr) as (Hroot & _). cbn [emit_value]. eapply emits_ext; [intros sb; rewrite (load_at _ _ _ Hroot), bind_ret; reflexivity|].
  cbn [root_node j_data]. destruct (is_container (t_kind t)) eqn:Ek; [|by apply scalar_emits].
  rewrite render_container, wrap_compact by done. destruct (t_kind t) eqn:Ekk; try done; cbn [data_of emit_scalar is_array].
  - apply (brackets_emits _ σ par prv nxt t); [done|by rewrite Ekk|]. by apply (elements_emit None _ (S lvl) σ fuel t).
  - apply (brackets_emits _ σ par prv nxt t); [done|by rewrite Ekk|]. apply (members_emit None _ (emit_value fuel) (S lvl) σ fuel t); [|done..].
    intros c. exists (λ out, sb_putc out 58). split; [apply emits_putc|]. intros a b e out Hl. unfold emit_member. by rewrite Hl.
Qed.

Lemma value_indented_emits fuel σ space : zlen space < 2 ^ 31 →
  ∀ lvl, writer_ok (Some space) (emit_value_indented fuel space (Z.of_nat lvl)) lvl σ fuel.
Proof.
  intros Hs. induction fuel as [|fuel IH]; intros lvl t Hw; pose proof Hw as (Hf & Hg & (par & prv & nxt & Hr) & Hn); [rewrite places_eq in Hn; cbn in Hn; lia|].
  pose proof (rep_parts _ _ _ _ _ Hr) as (Hroot & _). cbn [emit_value_indented].
  eapply emits_ext; [intros sb; rewrite (load_at _ _ _ Hroot), bind_ret; reflexivity|]. specialize (IH (S lvl)).
  replace (Z.of_nat (S lvl)) with (Z.of_nat lvl + 1) in IH by lia.
  cbn [root_node j_data]. destruct (is_container (t_kind t)) eqn:Ek; [|by apply scalar_emits].
  rewrite render_container by done. destruct (t_kind t) eqn:Ekk; try done; cbn [data_of emit_scalar is_array].
  - apply (block_emits _ σ par prv nxt t); [done|done|by rewrite Ekk|]. by apply (elements_emit _ _ (S lvl) σ fuel t).
  - apply (block_emits _ σ par prv nxt t); [done|done|by rewrite Ekk|].
    apply (members_emit _ _ (emit_value_indented fuel space (Z.of_nat lvl + 1)) (S lvl) σ fuel t); [|done..].
    intros c. exists (λ out, sb_puts out [58; 32]). split; [by apply emits_puts|]. intros a b e out Hl. unfold emit_member_indented. by rewrite Hl.
Qed.
End emit.
