(* ===== verification/JsonRound.v ===== *)
(** * Written texts are read back

    The reader gives back every value whose strings hold no U+001F and whose
    numbers keep their value in sixteen digits, from its compact and from its
    indented text. *)
From Stdlib Require Import Strings.String.
From stdpp Require Import gmap.
From S2P Require Import Prelude.
From S2P Require Import Scanf.
From S2P Require Import CString.
From S2P Require Import Double.
From S2P Require Import Utf8.
From S2P Require Import JsonNum.
From S2P Require Import JsonStore.
From S2P Require Import JsonBuf.
From S2P Require Import Json.
From S2P Require Import JsonRead.
From S2P Require Import JsonPrint.
#[local] Open Scope Z_scope.

(** ** Values that survive *)

(** Characters that the writer escapes where the parser wants it. *)
Definition plain_char (u : Z) : Prop := char_ok u ∧ u ≠ 0x1F.
Definition plain (s : str) : Prop := ∃ us, Forall plain_char us ∧ s = utf8s us.

Inductive printable : json → Prop :=
  | pr_null : printable JNull
  | pr_bool b : printable (JBool b)
  | pr_string s : plain s → printable (JString s)
  | pr_number d : number_back d → printable (JNumber d)
  | pr_array vs : Forall printable vs → printable (JArray vs)
  | pr_object ms : Forall (λ m, plain m.1 ∧ printable m.2) ms → printable (JObject ms).

Section json_ind.
Context (P : json → Prop) (Hn : P JNull) (Hb : ∀ b, P (JBool b)) (Hs : ∀ s, P (JString s)) (Hd : ∀ d, P (JNumber d))
  (Ha : ∀ vs, Forall P vs → P (JArray vs)) (Ho : ∀ ms, Forall (λ m, P m.2) ms → P (JObject ms)).
Fixpoint json_nested_ind (v : json) : P v :=
  match v with
  | JNull => Hn
  | JBool b => Hb b
  | JString s => Hs s
  | JNumber d => Hd d
  | JArray vs => Ha vs
      ((fix go (vs : list json) : Forall P vs :=
          match vs with [] => Forall_nil_2 P | v :: vs => Forall_cons_2 P v vs (json_nested_ind v) (go vs) end) vs)
  | JObject ms => Ho ms
      ((fix go (ms : list (str * json)) : Forall (λ m, P m.2) ms :=
          match ms with [] => Forall_nil_2 _ | m :: ms => Forall_cons_2 (λ m, P m.2) m ms (json_nested_ind m.2) (go ms) end) ms)
  end.
End json_ind.

Lemma plain_text s : plain s → utf8_text s.
Proof. intros (us & Hus & ->). exists us. split; [|done]. eapply Forall_impl; [exact Hus|]. by intros u [? _]. Qed.

Lemma printable_good v : printable v → good v.
Proof.
  induction v as [| | | |vs IH|ms IH] using json_nested_ind; intros Hv; inversion_clear Hv; constructor; try by apply plain_text.
  - rewrite Forall_forall in *. auto.
  - apply Forall_forall. intros m Hm. rewrite Forall_forall in IH. match goal with H : Forall _ ms |- _ => destruct (proj1 (Forall_forall _ _) H m Hm) end.
    split; [by apply plain_text|by apply IH].
Qed.

(** ** Characters and strings *)
Lemma esc_parse u rest : 0 < u ≤ 0x7F → u ≠ 0x1F → parse_char (esc u ++ rest) = Ok (Some ([u], rest)).
Proof.
  intros Hu H31. unfold esc.
  do 7 (match goal with |- context [if u =? ?b then _ else _] => destruct (Z.eqb_spec u b) as [->|?]; [done|] end).
  destruct (Z.ltb_spec u 0x1F).
  - unfold parse_char. cbn [app getc mbind res_bind Z.eqb Pos.eqb]. unfold parse_escape. cbn [getc mbind res_bind Z.eqb Pos.eqb orb].
    change (hex_char (u / 4096 mod 16) :: hex_char (u / 256 mod 16) :: hex_char (u / 16 mod 16) :: hex_char (u mod 16) :: rest) with (hex4 u ++ rest).
    rewrite hex4_parse by lia. cbn [attempt mbind res_bind]. replace (_ && _) with false by lia. rewrite (proj2 (Z.eqb_neq u 0)) by lia.
    rewrite write_utf8 by (unfold scalar; lia). by rewrite utf8_ascii by lia.
  - unfold parse_char. cbn [app getc mbind res_bind]. rewrite (proj2 (Z.eqb_neq u 92)) by done. rewrite (proj2 (Z.leb_gt u 0x1F)) by lia.
    pose proof (validate_utf8 u rest) as Hv. rewrite utf8_ascii in Hv by lia. cbn [app] in Hv. rewrite Hv by (unfold scalar; lia). done.
Qed.

Lemma escapes_parse u rest : plain_char u →
  parse_char (escapes (utf8 u) ++ rest) = Ok (Some (utf8 u, rest)) ∧ ∃ c w, escapes (utf8 u) = c :: w ∧ c ≠ 34.
Proof.
  intros [[Hu H0] H31]. destruct (Z.le_gt_cases u 0x7F) as [Hl|Hl].
  - rewrite utf8_ascii, escapes_single by done. destruct Hu as [Hu _]. split; [apply esc_parse; lia|].
    unfold esc. repeat case_match; eexists _, _; (split; [done|lia]).
  - rewrite (escapes_high _ (utf8_high u Hu Hl)). pose proof (validate_utf8 u rest Hu) as Hv. pose proof (utf8_length u) as Hlen.
    destruct (zlen_take_drop (utf8 u) rest) as [Et Ed]. destruct (utf8_high_head u [] Hu Hl) as (c & s & E & Hc). rewrite app_nil_r in E.
    rewrite E in *. split; [|exists c, s; split; [done|lia]]. unfold parse_char. cbn [app getc mbind res_bind] in *.
    rewrite (proj2 (Z.eqb_neq c 92)) by lia. rewrite (proj2 (Z.leb_gt c 0x1F)) by lia. rewrite Hv. cbn [mbind res_bind].
    rewrite (proj2 (Z.eqb_neq _ 0)) by lia. by rewrite Et, Ed.
Qed.

Lemma escapes_length us : Forall plain_char us → (length us ≤ length (escapes (utf8s us)))%nat.
Proof.
  induction 1 as [|u us Hu _ IH]; [done|]. unfold utf8s in *. cbn [fmap list_fmap concat length]. rewrite escapes_app, length_app.
  destruct (escapes_parse u [] Hu) as [_ (c & w & -> & _)]. cbn [length]. lia.
Qed.

Lemma chars_back us fuel rest : Forall plain_char us → (length us < fuel)%nat →
  read_chars fuel (escapes (utf8s us) ++ 34 :: rest) = Ok (Some (utf8s us, rest)).
Proof.
  intros Hus. revert fuel. induction Hus as [|u us Hu _ IH]; intros [|fuel] Hf; cbn [length] in Hf; try lia; [done|].
  unfold utf8s in *. cbn [fmap list_fmap concat]. rewrite escapes_app, <- app_assoc. cbn [read_chars].
  destruct (escapes_parse u (escapes (concat (utf8 <$> us)) ++ 34 :: rest) Hu) as [Hp (c & w & E & Hc)]. rewrite E in Hp |- *.
  cbn [app deref mbind res_bind] in *. rewrite (proj2 (Z.eqb_neq c 34)) by done. rewrite Hp. cbn [attempt mbind res_bind].
  rewrite IH by lia. done.
Qed.

Lemma string_back s rest : plain s → read_string (quote s ++ rest) = Ok (Some (s, rest)).
Proof.
  intros (us & Hus & ->). unfold read_string, quote. cbn [app getc mbind res_bind Z.eqb Pos.eqb negb]. rewrite <- app_assoc. cbn [app].
  apply chars_back; [done|]. pose proof (escapes_length us Hus). rewrite length_app. cbn [length]. lia.
Qed.

(** ** Space *)
Definition spaces (w : str) : Prop := Forall (λ c, is_space c = true) w.

Lemma skip_spaces_loop w c s fuel : spaces w → is_space c = false → (length w < fuel)%nat →
  skip_space_loop fuel (w ++ c :: s) = Ok (c :: s).
Proof.
  intros Hw Hc. revert fuel. induction Hw as [|x w Hx _ IH]; intros [|fuel] Hf; cbn [length] in Hf; try lia;
    cbn [app skip_space_loop deref mbind res_bind tail]; [by rewrite Hc|]. rewrite Hx. apply IH. lia.
Qed.

Lemma skip_spaces w c s : spaces w → is_space c = false → skip_space (w ++ c :: s) = Ok (c :: s).
Proof. intros Hw Hc. apply skip_spaces_loop; [done|done|]. rewrite length_app. cbn. lia. Qed.

Lemma skip_no_space c s : is_space c = false → skip_space (c :: s) = Ok (c :: s).
Proof. apply (skip_spaces [] c s). constructor. Qed.

Lemma gap_spaces style lvl : (∀ sp, style = Some sp → spaces sp) → spaces (gap style lvl).
Proof.
  intros Hsp. destruct style as [sp|]; [|constructor]. specialize (Hsp sp eq_refl). constructor; [done|]. unfold indent.
  induction lvl as [|lvl IH]; [constructor|]. cbn [replicate concat]. by apply Forall_app.
Qed.

Lemma space_stops c : is_space c = true → stops c.
Proof. unfold is_space, stops. intros Hc. split; [unfold is_digit; lia|]. rewrite !not_elem_of_cons. repeat split; try lia. apply not_elem_of_nil. Qed.

(** A rest that may follow a value. *)
Definition follower (s : ptr) : Prop := ∃ c u, s = c :: u ∧ stops c.

Lemma spaces_follower w s : spaces w → follower s → follower (w ++ s).
Proof. intros Hw Hs. destruct Hw as [|c w Hc _]; [done|]. exists c, (w ++ s). split; [done|by apply space_stops]. Qed.

Lemma char_follower c s : c ∈ [44; 93; 125; 0] → follower (c :: s).
Proof.
  intros Hc. exists c, s. split; [done|]. unfold stops, is_digit. rewrite !elem_of_cons, elem_of_nil in Hc. split; [lia|].
  rewrite !not_elem_of_cons. repeat split; try lia. apply not_elem_of_nil.
Qed.

(** A text that begins with neither space nor a bracket that closes. *)
Definition begins (x : str) : Prop := ∃ c u, x = c :: u ∧ is_space c = false ∧ c ≠ 93 ∧ c ≠ 125.

(** ** Items *)
Lemma join_head sep x xs : begins x → ∃ c u, join sep (x :: xs) = c :: u ∧ is_space c = false ∧ c ≠ 93 ∧ c ≠ 125.
Proof. intros (c & u & -> & Hc). destruct xs; cbn [join]; by eexists _, _. Qed.

Lemma join_length sep xs : Forall begins xs → (length xs ≤ length (join sep xs))%nat.
Proof.
  induction 1 as [|x xs (c & u & -> & _) _ IH]; [done|]. destruct xs as [|y xs]; [cbn; lia|].
  rewrite join_cons, !length_app. cbn [length] in *. lia.
Qed.

Lemma join_item_length sep xs x : x ∈ xs → (length x ≤ length (join sep xs))%nat.
Proof.
  induction xs as [|y xs IH]; [by intros []%elem_of_nil|]. destruct xs as [|z xs].
  - intros [->|[]%elem_of_nil]%elem_of_cons. done.
  - rewrite join_cons, !length_app. intros [->|Hx]%elem_of_cons; [lia|]. specialize (IH Hx). lia.
Qed.

(** The reader of an item gets the item back, whatever may follow it. *)
Definition item_back {A} (item : ptr → res (option (A * ptr))) (a : A) (x : str) : Prop :=
  begins x ∧ ∀ rest, follower rest → item (x ++ rest) = Ok (Some (a, rest)).

Lemma items_back {A} (item : ptr → res (option (A * ptr))) close w w' rest l xs :
  close ∈ [93; 125] → spaces w → spaces w' → Forall2 (item_back item) l xs → l ≠ [] → ∀ k, (length l ≤ k)%nat →
  read_items item close k (join (44 :: w) xs ++ w' ++ close :: rest) = Ok (Some (l, rest)).
Proof.
  intros Hcl Hw Hw' Hxs. assert (Hc : is_space close = false ∧ close ≠ 44 ∧ close ∈ [44; 93; 125; 0]).
  { rewrite !elem_of_cons, elem_of_nil in Hcl. unfold is_space. rewrite !elem_of_cons. lia. }
  destruct Hc as (Hcs & Hc44 & Hcf). induction Hxs as [|a x l xs [Hb Ha] Hxs IH]; intros Hne k Hk; [done|].
  destruct k as [|k]; cbn [length] in Hk; [lia|]. cbn [read_items]. destruct Hxs as [|a2 x2 l xs Hx2 Hxs].
  - cbn [join]. rewrite Ha by (apply spaces_follower; [done|by apply char_follower]). cbn [attempt mbind res_bind].
    rewrite skip_spaces by done. cbn [getc mbind res_bind]. by rewrite Z.eqb_refl.
  - rewrite join_cons, <- !app_assoc. cbn [app]. rewrite Ha by (apply char_follower; by left). cbn [attempt mbind res_bind].
    rewrite skip_no_space by done. cbn [getc mbind res_bind]. rewrite (proj2 (Z.eqb_neq 44 close)) by congruence. cbn [Z.eqb Pos.eqb negb].
    destruct (join_head (44 :: w) x2 xs (proj1 Hx2)) as (c & u & E & Hc & _). specialize (IH ltac:(done) k ltac:(cbn [length] in *; lia)).
    rewrite E in IH |- *. cbn [app] in IH |- *. rewrite skip_spaces by done. cbn [mbind res_bind]. by rewrite IH.
Qed.

Lemma container_back {A} (item : ptr → res (option (A * ptr))) open close style lvl rest l xs :
  close ∈ [93; 125] → (∀ sp, style = Some sp → spaces sp) → Forall2 (item_back item) l xs →
  read_container open close item (wrap open close style lvl xs ++ rest) = Ok (Some (l, rest)).
Proof.
  intros Hcl Hsp Hxs. assert (Hcs : is_space close = false) by (rewrite !elem_of_cons, elem_of_nil in Hcl; unfold is_space; lia).
  unfold read_container. destruct Hxs as [|a x l xs Hx Hxs].
  - cbn [wrap app getc mbind res_bind]. rewrite Z.eqb_refl. cbn [negb]. rewrite skip_no_space by done. cbn [deref mbind res_bind tail].
    by rewrite Z.eqb_refl.
  - cbn [wrap app getc mbind res_bind]. rewrite Z.eqb_refl. cbn [negb]. rewrite <- !app_assoc. cbn [app].
    destruct (join_head (44 :: gap style (S lvl)) x xs (proj1 Hx)) as (c & u & E & Hc & H93 & H125).
    pose proof (items_back item close (gap style (S lvl)) (gap style lvl) rest (a :: l) (x :: xs) Hcl
      (gap_spaces _ _ Hsp) (gap_spaces _ _ Hsp) ltac:(by constructor) ltac:(done)) as Hitems.
    assert (Hlen : (length (a :: l) ≤ length (join (44 :: gap style (S lvl))%Z (x :: xs)))%nat).
    { rewrite (Forall2_length (item_back item) (a :: l) (x :: xs)) by (by constructor). apply join_length. constructor; [apply Hx|].
      clear - Hxs. induction Hxs as [|? ? ? ? [? _] _ IH]; constructor; done. }
    rewrite E in *. cbn [app] in Hitems |- *. rewrite skip_spaces by (done || by apply gap_spaces). cbn [deref mbind res_bind].
    rewrite (proj2 (Z.eqb_neq c close)) by (intros ->; rewrite !elem_of_cons, elem_of_nil in Hcl; lia).
    apply Hitems. cbn [length] in *. rewrite !length_app. lia.
Qed.

(** ** Values *)
Lemma numeral_begins p : numeral_ok p → ∃ c u, numeral p = c :: u ∧ (c = 45 ∨ is_digit c = true).
Proof.
  intros [Hi _ _]. unfold numeral. destruct (p_neg p); [by exists 45; eexists; split; [done|left]|].
  destruct Hi as [-> |[[Hds Hne] _]]; [by exists 48; eexists; split; [done|right]|].
  destruct (p_int p) as [|c ds]; [done|]. apply Forall_cons in Hds as [Hc _]. exists c. eexists. split; [done|by right].
Qed.

Lemma number_text d : number_back d → ∃ p, numeral_ok p ∧ num_text d = numeral p ∧ numeral_val p = d.
Proof.
  intros (p & Hp & E & Hv). exists p. split; [done|]. split; [|done]. unfold num_text, number_is_valid. rewrite E. unfold cstr.
  rewrite parse_numeral by (done || apply stops_null). done.
Qed.

Lemma render_begins style lvl v : printable v → begins (render style lvl v).
Proof.
  intros Hv. destruct Hv as [|[]|s|d Hd|vs|ms]; cbn [render]; try (eexists _, _; by split).
  - destruct (number_text d Hd) as (p & Hp & -> & _). destruct (numeral_begins p Hp) as (c & u & -> & Hc).
    exists c, u. split; [done|]. unfold is_digit, is_space in *. lia.
  - destruct vs; cbn; eexists _, _; by split.
  - destruct ms; cbn; eexists _, _; by split.
Qed.

Lemma member_back (value : reader) style key v x : plain key → item_back value v x →
  item_back (read_member value) (key, v) (quote key ++ colon style ++ x).
Proof.
  intros Hk [Hb Hv]. split; [exists 34; eexists; by split|]. intros rest Hr. unfold read_member.
  rewrite <- !app_assoc, string_back by done. cbn [attempt mbind res_bind].
  assert (E : ∃ w, colon style = 58 :: w ∧ spaces w) by (destruct style; eexists; (split; [done|]); repeat constructor).
  destruct E as (w & -> & Hw). cbn [app]. rewrite skip_no_space by done. cbn [getc mbind res_bind Z.eqb Pos.eqb negb].
  specialize (Hv rest Hr). destruct Hb as (c & u & -> & Hc & _). cbn [app] in Hv |- *. rewrite skip_spaces by done. cbn [mbind res_bind].
  by rewrite Hv.
Qed.

Lemma wrap_item_length open close style lvl xs x : x ∈ xs → (length x < length (wrap open close style lvl xs))%nat.
Proof.
  intros Hx. destruct xs as [|y xs]; [by apply elem_of_nil in Hx|]. cbn [wrap length]. rewrite !length_app.
  apply (join_item_length (44 :: gap style (S lvl))%Z) in Hx. lia.
Qed.

Lemma read_skip fuel c s : is_digit c = true ∨ c = 45 →
  read_value (S fuel) (c :: s) = (if_ok '(s, d) := parse_number (c :: s); Ok (Some (JNumber d, s))).
Proof.
  intros Hc. cbn [read_value deref mbind res_bind]. unfold is_digit in Hc.
  by rewrite !(proj2 (Z.eqb_neq c _)) by lia.
Qed.

Lemma as_value_back {A} (f : A → json) m a s : m = Ok (Some (a, s)) → as_value f m = Ok (Some (f a, s)).
Proof. by intros ->. Qed.

Lemma read_array fuel s u : s = 91 :: u → read_value (S fuel) s = as_value JArray (read_container 91 93 (read_value fuel) s).
Proof. by intros ->. Qed.
Lemma read_object fuel s u : s = 123 :: u → read_value (S fuel) s = as_value JObject (read_container 123 125 (read_member (read_value fuel)) s).
Proof. by intros ->. Qed.
Lemma wrap_open open close style lvl xs rest : ∃ u, wrap open close style lvl xs ++ rest = open :: u.
Proof. destruct xs; by eexists. Qed.

(** The reader gets the value back from its text. *)
Lemma value_back style fuel : (∀ sp, style = Some sp → spaces sp) →
  ∀ v lvl rest, printable v → (length (render style lvl v) ≤ fuel)%nat → follower rest →
  read_value fuel (render style lvl v ++ rest) = Ok (Some (v, rest)).
Proof.
  intros Hsp. induction fuel as [|fuel IH]; intros v lvl rest Hv Hl Hrest.
  { destruct (render_begins style lvl v Hv) as (c & u & E & _). rewrite E in Hl. cbn in Hl. lia. }
  pose proof Hv as Hv'. destruct Hv as [|[]|s Hs|d Hd|vs Hvs|ms Hms]; cbn [render] in *; [done..| | | |].
  - apply as_value_back. by apply string_back.
  - destruct (number_text d Hd) as (p & Hp & E & Hval). rewrite E in *. destruct (numeral_begins p Hp) as (c & u & Ec & Hc).
    destruct Hrest as (c' & rest' & -> & Hst). pose proof (parse_numeral p c' rest' Hp Hst) as Hparse. rewrite Ec in Hparse |- *.
    cbn [app] in Hparse |- *. rewrite read_skip by tauto. rewrite Hparse. cbn [attempt mbind res_bind]. by rewrite Hval.
  - destruct (wrap_open 91 93 style lvl (map (render style (S lvl)) vs) rest) as [u Eu]. rewrite (read_array fuel _ u Eu).
    apply as_value_back, container_back; [set_solver|done|]. apply Forall2_map_r. rewrite Forall_forall in Hvs.
    intros v Hin. split; [by apply render_begins, Hvs|]. intros rest' Hr'. apply IH; [by apply Hvs| |done].
    assert (length (render style (S lvl) v) < length (wrap 91 93 style lvl (map (render style (S lvl)) vs)))%nat; [|lia].
    apply wrap_item_length. rewrite list_elem_of_In. apply in_map. by apply list_elem_of_In.
  - set (f := λ m : str * json, quote m.1 ++ colon style ++ render style (S lvl) m.2) in *.
    destruct (wrap_open 123 125 style lvl (map f ms) rest) as [u Eu]. rewrite (read_object fuel _ u Eu).
    apply as_value_back, container_back; [set_solver|done|]. apply Forall2_map_r. rewrite Forall_forall in Hms.
    intros [key v] Hin. destruct (Hms _ Hin) as [Hk Hpv]. cbn [fst snd] in *. apply member_back; [done|]. split; [by apply render_begins|].
    intros rest' Hr'. apply IH; [done| |done].
    assert (Hlt : (length (f (key, v)) < length (wrap 123 125 style lvl (map f ms)))%nat).
    { apply wrap_item_length. rewrite list_elem_of_In. apply in_map. by apply list_elem_of_In. }
    unfold f at 1 in Hlt. cbn [fst snd] in Hlt. rewrite !length_app in Hlt. lia.
Qed.

(** The text of a value is a text of that value. *)
Lemma json_back style v : (∀ sp, style = Some sp → spaces sp) → printable v → read_json (render style 0 v) = Ok (Some v).
Proof.
  intros Hsp Hv. unfold read_json, cstr. destruct (render_begins style 0 v Hv) as (c & u & E & Hc & _).
  rewrite E. cbn [app]. rewrite skip_no_space by done. cbn [mbind res_bind]. change (c :: u ++ [0]) with ((c :: u) ++ [0]). rewrite <- E.
  rewrite (value_back style _ Hsp v 0 [0] Hv); [|rewrite length_app; lia|apply char_follower; set_solver]. done.
Qed.
