(* ===== verification/JsonText.v ===== *)
(** * The characters of written texts

    A written text is made of bytes other than the null, so that it is a C string;
    with that, [json_stringify] returns the text of the value. *)
From Stdlib Require Import Strings.String.
From stdpp Require Import gmap.
From S2P Require Import Prelude.
From S2P Require Import Rule.
From S2P Require Import Scanf.
From S2P Require Import CString.
From S2P Require Import Double.
From S2P Require Import Utf8.
From S2P Require Import JsonNum.
From S2P Require Import JsonStore.
From S2P Require Import JsonRep.
From S2P Require Import JsonBuf.
From S2P Require Import Json.
From S2P Require Import JsonRead.
From S2P Require Import JsonBuild.
From S2P Require Import JsonPrint.
From S2P Require Import JsonRound.
#[local] Open Scope Z_scope.

(** ** The characters of written texts *)
Definition written (c : Z) : Prop := 0 < c < 256.
Abbreviation all_written := (Forall written).

Lemma written_no_null s : all_written s → no_null s.
Proof. intros Hs. eapply Forall_impl; [exact Hs|]. unfold written. cbv beta. lia. Qed.
Lemma written_bytes s : all_written s → Forall byte_ok s.
Proof. intros Hs. eapply Forall_impl; [exact Hs|]. unfold written, byte_ok. lia. Qed.
Lemma written_cons c s : written c → all_written s → all_written (c :: s).
Proof. by constructor. Qed.
Lemma written_app s t : all_written s → all_written t → all_written (s ++ t).
Proof. intros ? ?. by apply Forall_app. Qed.
Lemma written_lit s : forallb (λ c, (0 <? c) && (c <? 256)) s = true → all_written s.
Proof. intros Hs. apply Forall_forall. intros c Hc. rewrite forallb_forall in Hs. specialize (Hs c). rewrite <- list_elem_of_In in Hs. specialize (Hs Hc). unfold written. lia. Qed.

Lemma digits_written fuel n : 0 ≤ n → all_written (digits 10 fuel n).
Proof.
  assert (Hd : ∀ d, 0 ≤ d < 10 → written (digit_char d)) by (intros d Hd; unfold written, digit_char; rewrite (proj2 (Z.ltb_lt _ _)) by lia; lia).
  revert n. induction fuel as [|fuel IH]; intros n Hn; [constructor|]. cbn [digits]. destruct (Z.ltb_spec n 10).
  - apply written_cons; [apply Hd; lia|constructor].
  - apply written_app; [apply IH, Z.div_pos; lia|]. apply written_cons; [|constructor]. apply Hd, Z.mod_pos_bound. lia.
Qed.

Lemma fixed_written k n : all_written (fixed_digits k n).
Proof.
  revert n. induction k as [|k IH]; intros n; [constructor|]. cbn [fixed_digits]. apply written_app; [apply IH|].
  apply written_cons; [|constructor]. unfold written. pose proof (Z.mod_pos_bound n 10 ltac:(lia)). lia.
Qed.

Lemma trim_written s : all_written s → all_written (trim_zeros s).
Proof.
  induction 1 as [|c s Hc _ IH]; [constructor|]. cbn [trim_zeros]. destruct (trim_zeros s); [destruct (c =? 48); [constructor|by apply written_cons]|].
  by constructor.
Qed.

Lemma point_written s : all_written s → all_written (point_frac s).
Proof. intros Hs%trim_written. unfold point_frac. destruct (trim_zeros s); [constructor|]. by apply written_cons. Qed.

Lemma sixteen_nonneg n d q x : 0 ≤ n → 0 < d → sixteen n d = (q, x) → 0 ≤ q.
Proof.
  intros Hn Hd. unfold sixteen, scale10. intros E.
  assert (Hr : ∀ a b, 0 ≤ a → 0 < b → 0 ≤ round_div a b).
  { intros a b Ha Hb. unfold round_div. pose proof (Z.div_pos a b Ha Hb). repeat case_match; lia. }
  destruct (Z.leb_spec 0 (15 - dec_exp n d)) as [Hk|Hk].
  - assert (0 < 10 ^ (15 - dec_exp n d)) by (apply Z.pow_pos_nonneg; lia).
    specialize (Hr (n * 10 ^ (15 - dec_exp n d)) d ltac:(nia) Hd). destruct (_ =? _); injection E as <- <-; lia.
  - assert (0 < 10 ^ (- (15 - dec_exp n d))) by (apply Z.pow_pos_nonneg; lia).
    specialize (Hr n (d * 10 ^ (- (15 - dec_exp n d))) Hn ltac:(nia)). destruct (_ =? _); injection E as <- <-; lia.
Qed.

Lemma g16_written n d : 0 ≤ n → 0 < d → all_written (print_g16 n d).
Proof.
  intros Hn Hd. unfold print_g16. destruct (sixteen n d) as [q x] eqn:E. pose proof (sixteen_nonneg n d q x Hn Hd E) as Hq.
  destruct ((-4 <=? x) && (x <? 16)) eqn:Ex.
  - assert (0 < 10 ^ (15 - x)) by (apply Z.pow_pos_nonneg; lia).
    apply written_app; [apply digits_written, Z.div_pos; lia|]. apply point_written, fixed_written.
  - apply written_app; [apply digits_written, Z.div_pos; lia|]. apply written_app; [apply point_written, fixed_written|].
    unfold print_exp. apply written_cons; [done|]. apply written_cons; [by destruct (x <? 0)|].
    destruct (Z.ltb_spec (Z.abs x) 10); [|apply digits_written; lia].
    repeat (apply written_cons; [unfold written; lia|]). constructor.
Qed.

Lemma sprintf_written d : all_written (sprintf_g16 d).
Proof.
  assert (Hs : ∀ neg : bool, all_written (if neg then [45] else [])) by (intros []; by apply written_lit).
  destruct d as [neg|neg| |neg m e]; cbn [sprintf_g16]; [apply written_app; [done|by apply written_lit]..|by apply written_lit|].
  apply written_app; [done|]. destruct (Z.leb_spec 0 e).
  - apply g16_written; [|lia]. assert (0 < 2 ^ e) by (apply Z.pow_pos_nonneg; lia). nia.
  - apply g16_written; [lia|]. apply Z.pow_pos_nonneg; lia.
Qed.

Lemma num_text_written d : all_written (num_text d).
Proof. unfold num_text. destruct (number_is_valid _) as [[]|]; [apply sprintf_written|by apply written_lit..]. Qed.

Lemma hex_char_written d : 0 ≤ d < 16 → written (hex_char d).
Proof. intros Hd. unfold hex_char, written. destruct (d <? 10); lia. Qed.

Lemma esc_written c : written c → all_written (esc c).
Proof.
  intros Hc. unfold esc. repeat (match goal with |- context [if ?b then _ else _] => destruct b; [first [by apply written_lit|idtac]|] end).
  - apply written_cons; [done|]. apply written_cons; [done|]. unfold hex4.
    repeat (apply written_cons; [apply hex_char_written, Z.mod_pos_bound; lia|]). constructor.
  - by apply written_cons.
Qed.

Lemma quote_written s : utf8_text s → all_written (quote s).
Proof.
  intros (us & Hus & ->). apply written_cons; [done|]. apply written_app; [|by apply written_lit].
  assert (Hw : all_written (utf8s us)).
  { pose proof (utf8s_no_null us Hus) as Hn. pose proof (utf8s_bytes us Hus) as Hb. unfold no_null in Hn.
    rewrite Forall_forall in *. intros c Hc. specialize (Hn c Hc). specialize (Hb c Hc). unfold byte_ok, written in *. lia. }
  unfold escapes. induction Hw as [|c s Hc _ IH]; [constructor|]. cbn [fmap list_fmap concat]. apply written_app; [by apply esc_written|done].
Qed.

Lemma join_written sep xs : all_written sep → Forall all_written xs → all_written (join sep xs).
Proof.
  intros Hs. induction 1 as [|x xs Hx Hxs IH]; [constructor|]. destruct Hxs as [|y xs Hy Hxs]; [done|].
  rewrite join_cons. by repeat apply written_app.
Qed.

(** An indentation of characters. *)
Definition style_written (style : option str) : Prop := ∀ sp, style = Some sp → all_written sp.

Lemma gap_written style lvl : style_written style → all_written (gap style lvl).
Proof.
  intros Hs. destruct style as [sp|]; [|constructor]. apply written_cons; [done|]. unfold indent.
  induction lvl as [|lvl IH]; [constructor|]. cbn [replicate concat]. apply written_app; [by apply Hs|done].
Qed.

Lemma wrap_written open close style lvl xs : written open → written close → style_written style → Forall all_written xs →
  all_written (wrap open close style lvl xs).
Proof.
  intros Ho Hc Hs Hxs. assert (H1 : all_written [close]) by (by apply written_cons).
  destruct Hxs as [|x xs Hx Hxs]; cbn [wrap]; [by apply written_cons|]. apply written_cons; [done|].
  apply written_app; [by apply gap_written|]. apply written_app; [|apply written_app; [by apply gap_written|done]].
  apply join_written; [|by constructor]. apply written_cons; [done|by apply gap_written].
Qed.

Lemma render_written style v : style_written style → ∀ lvl, good v → all_written (render style lvl v).
Proof.
  intros Hs. induction v as [|[]|s|d|vs IH|ms IH] using json_nested_ind; intros lvl Hg; cbn [render]; try by apply written_lit.
  - inversion_clear Hg. by apply quote_written.
  - apply num_text_written.
  - inversion_clear Hg as [| | | |? Hvs|]. apply wrap_written; [done..|]. rewrite Forall_forall in IH, Hvs. apply Forall_forall. intros x Hx.
    rewrite list_elem_of_In, in_map_iff in Hx. destruct Hx as (v & <- & Hv). rewrite <- list_elem_of_In in Hv. by apply IH; [|apply Hvs].
  - inversion_clear Hg as [| | | | |? Hms]. apply wrap_written; [done..|]. rewrite Forall_forall in IH, Hms. apply Forall_forall. intros x Hx.
    rewrite list_elem_of_In, in_map_iff in Hx. destruct Hx as (m & <- & Hm). rewrite <- list_elem_of_In in Hm. destruct (Hms m Hm) as [Hk Hv].
    apply written_app; [by apply quote_written|]. apply written_app; [by destruct style; apply written_lit|]. by apply IH.
Qed.

(** ** [json_stringify] *)

(** An indentation that the writer can use. *)
Definition style_ok (style : option str) : Prop := ∀ sp, style = Some sp → all_written sp ∧ zlen sp < 2 ^ 31.

Lemma stringify_rep `{AllocTotal} σ par prv nxt t style :
  rep (cells σ) par prv nxt t → formed t → good (val t) → style_ok style → zlen (render style 0 (val t)) ≤ text_max →
  json_stringify σ (t_loc t) style = Ok (render style 0 (val t)).
Proof.
  intros Hr Hf Hg Hs Hl. assert (Hw : writable σ (size (cells σ)) t).
  { split; [done|]. split; [done|]. split; [by exists par, prv, nxt|by eapply rep_size]. }
  assert (Hn : no_null (render style 0 (val t))).
  { apply written_no_null, render_written; [|done]. intros sp E. by apply (Hs sp E). }
  unfold json_stringify. destruct style as [sp|].
  - apply (emits_finish (λ sb, emit_value_indented (size (cells σ)) sp 0 σ sb (t_loc t))); [|done|done].
    apply (value_indented_emits (size (cells σ)) σ sp (proj2 (Hs sp eq_refl)) 0 t Hw).
  - apply (emits_finish (λ sb, emit_value (size (cells σ)) σ sb (t_loc t))); [|done|done].
    apply (value_emits (size (cells σ)) σ 0 t Hw).
Qed.

Lemma encode_string_ok `{AllocTotal} s : utf8_text s → zlen (quote s) ≤ text_max → json_encode_string s = Ok (quote s).
Proof.
  intros Hs Hl. apply (emits_finish (λ sb, emit_string sb s)); [by apply emits_string|done|]. by apply written_no_null, quote_written.
Qed.
