(* ===== verification/JsonProps.v ===== *)
(** * What the JSON library promises (ccan/json)

    Decoding, encoding and the operations on nodes, each with the tree of nodes it
    leaves in the store. *)
From Stdlib Require Import Strings.String.
From stdpp Require Import gmap.
From S2P Require Import Prelude.
From S2P Require Import Rule.
From S2P Require Import Scanf.
From S2P Require Import CString.
From S2P Require Import Double.
From S2P Require Import Utf8.
From S2P Require Import JsonNum.
From S2P Require Import JsonStore.
From S2P Require Import JsonRep.
From S2P Require Import JsonBuf.
From S2P Require Import Json.
From S2P Require Import JsonRead.
From S2P Require Import JsonBuild.
From S2P Require Import JsonParse.
From S2P Require Import JsonPrint.
From S2P Require Import JsonRound.
From S2P Require Import JsonText.
#[local] Open Scope Z_scope.

Section props.
Context `{AllocTotal}.

(** ** Decoding *)
Lemma decode_cases σ t : fresh σ → Forall byte_ok t → fits (cstr t) →
  ∃ o, read_json t = Ok o ∧ (∀ v, o = Some v → good v) ∧
    match o with
    | Some v => ∃ σ' tr, json_decode σ t = Ok (σ', Some (t_loc tr)) ∧ built σ σ' tr ∧ formed tr ∧ t_key tr = None ∧ val tr = v
    | None => ∃ σ', json_decode σ t = Ok (σ', None) ∧ undone σ σ'
    end.
Proof.
  intros Hfr Hb Hf. destruct (read_json_total t Hb) as (o & E & Hg). exists o. split; [done|]. split; [done|].
  pose proof (decode_sim σ t o Hfr Hb Hf E) as Hd. destruct o as [v|]; [|done].
  destruct Hd as (σ' & p & Hd & tr & [= ->] & Hrest). by exists σ', tr.
Qed.

(** C11: [json_decode] returns on every text of bytes shorter than 2^58: it never
    reads behind the terminating null, writes only to memory it allocated and ends.
    It returns a node exactly for the texts that have a value, and then a new tree
    with that value, all other cells being as before; if it returns NULL, every
    node it made is freed and the cells are those from before. *)
Theorem json_decode_correct σ t : fresh σ → Forall byte_ok t → zlen t < 2 ^ 58 - 1 →
  ∃ o, read_json t = Ok o ∧
    match o with
    | Some v => ∃ σ' tr, json_decode σ t = Ok (σ', Some (t_loc tr)) ∧ val tr = v ∧ rep (cells σ') None None None tr ∧
                  same_but (places tr) (cells σ) (cells σ') ∧ (∀ x, x ∈ places tr → cells σ !! x = None)
    | None => ∃ σ', json_decode σ t = Ok (σ', None) ∧ cells σ' = cells σ
    end.
Proof.
  intros Hfr Hb Hl. assert (Hf : fits (cstr t)) by (unfold fits, cstr, text_max; rewrite zlen_app; change (zlen [0]) with 1; lia).
  destruct (decode_cases σ t Hfr Hb Hf) as (o & E & _ & Hd). exists o. split; [done|]. destruct o as [v|].
  - destruct Hd as (σ' & tr & Hd & [H1 H2 H3 H4 H5] & _ & _ & Hv). exists σ', tr. repeat (split; [done|]). intros x Hx. apply Hfr. by apply H3.
  - destruct Hd as (σ' & Hd & Hu & _). by exists σ'.
Qed.

(** [json_validate] accepts exactly the texts that [json_decode] decodes, and
    makes no node. *)
Theorem json_validate_agrees σ t : fresh σ → Forall byte_ok t → zlen t < 2 ^ 58 - 1 →
  ∃ b σ' o, json_validate σ t = Ok (σ, b) ∧ json_decode σ t = Ok (σ', o) ∧ (b = true ↔ is_Some o).
Proof.
  intros Hfr Hb Hl. assert (Hf : fits (cstr t)) by (unfold fits, cstr, text_max; rewrite zlen_app; change (zlen [0]) with 1; lia).
  destruct (decode_cases σ t Hfr Hb Hf) as (o & E & _ & Hd). pose proof (validate_sim σ t o Hb Hf E) as Hv.
  destruct o as [v|].
  - destruct Hd as (σ' & tr & Hd & _). eexists _, _, _. split; [done|]. split; [done|]. split; [by eexists|done].
  - destruct Hd as (σ' & Hd & _). eexists _, _, _. split; [done|]. split; [done|]. split; [done|by intros []].
Qed.

(** What [json_decode] returns passes [json_check] - every link of every node is
    in order, keys are where they belong and texts are UTF-8 - and [json_delete]
    frees exactly the nodes that were made. *)
Theorem json_decode_checks σ t σ' p : fresh σ → Forall byte_ok t → zlen t < 2 ^ 58 - 1 → json_decode σ t = Ok (σ', Some p) →
  json_check σ' p = Ok None ∧ ∃ σ'', json_delete σ' (Some p) = Ok σ'' ∧ cells σ'' = cells σ.
Proof.
  intros Hfr Hb Hl Hdec. assert (Hf : fits (cstr t)) by (unfold fits, cstr, text_max; rewrite zlen_app; change (zlen [0]) with 1; lia).
  destruct (decode_cases σ t Hfr Hb Hf) as ([v|] & E & Hg & Hd).
  - destruct Hd as (σ1 & tr & Hd & Hbt & Hfm & Hk & Hv). rewrite Hdec in Hd. injection Hd as -> ->. split.
    + apply (check_rep σ1 None None None tr); [|apply Hbt]. apply formed_proper; [done|rewrite Hv; by apply Hg|by rewrite Hk].
    + destruct (delete_built σ σ1 tr Hfr Hfm Hbt) as (σ2 & Hdel & Hu & _). by exists σ2.
  - destruct Hd as (σ1 & Hd & _). congruence.
Qed.

(** ** Encoding *)

(** An indentation of white space. *)
Definition space_style (style : option str) : Prop := ∀ sp, style = Some sp → spaces sp ∧ zlen sp < 2 ^ 31.

Lemma spaces_written sp : spaces sp → all_written sp.
Proof. intros Hs. eapply Forall_impl; [exact Hs|]. intros c Hc. unfold is_space, written in *. cbv beta in Hc. lia. Qed.

(** C10: A value that [json_stringify] writes, compact or with an indentation of
    white space, is the value that [json_decode] reads from the text, provided that
    no string holds the character U+001F and every number keeps its value when it is
    printed with sixteen digits (which all integers below 2^53 do). *)
Theorem json_round_trip σ par prv nxt t style :
  fresh σ → rep (cells σ) par prv nxt t → formed t → printable (val t) → space_style style →
  zlen (render style 0 (val t)) < 2 ^ 58 - 1 →
  ∃ text σ' t', json_stringify σ (t_loc t) style = Ok text ∧ text = render style 0 (val t) ∧
    json_decode σ text = Ok (σ', Some (t_loc t')) ∧ val t' = val t ∧
    rep (cells σ') None None None t' ∧ same_but (places t') (cells σ) (cells σ').
Proof.
  intros Hfr Hr Hfm Hp Hs Hl. pose proof (printable_good _ Hp) as Hg.
  assert (Hsw : style_ok style) by (intros sp E; destruct (Hs sp E); split; [by apply spaces_written|done]).
  assert (Hb : Forall byte_ok (render style 0 (val t))).
  { apply written_bytes, render_written; [|done]. intros sp E. by apply (Hsw sp E). }
  assert (Hf : fits (cstr (render style 0 (val t)))) by (unfold fits, cstr, text_max; rewrite zlen_app; change (zlen [0]) with 1; lia).
  destruct (decode_cases σ _ Hfr Hb Hf) as (o & E & _ & Hd).
  rewrite json_back in E by (done || intros sp Es; by apply (Hs sp Es)). injection E as <-.
  destruct Hd as (σ' & t' & Hd & [H1 H2 H3 H4 H5] & _ & _ & Hv). exists (render style 0 (val t)), σ', t'.
  split; [|done]. eapply stringify_rep; try done. unfold text_max. lia.
Qed.

(** The character U+001F is written as it is and not read back: [emit_string]
    escapes the characters below 0x1F, [parse_string] refuses those up to 0x1F. *)
Theorem unit_separator_lost σ : fresh σ →
  json_encode_string [0x1F] = Ok [34; 0x1F; 34] ∧ ∃ σ', json_decode σ [34; 0x1F; 34] = Ok (σ', None).
Proof.
  intros Hfr. split.
  - rewrite encode_string_ok; [done| |by vm_compute]. exists [0x1F]. split; [|done]. constructor; [unfold char_ok, scalar; lia|constructor].
  - destruct (decode_cases σ [34; 0x1F; 34]) as (o & E & _ & Hd); [done|repeat (constructor; [unfold byte_ok; lia|]); constructor|by vm_compute|].
    vm_compute in E. injection E as <-. destruct Hd as (σ' & Hd & _). by exists σ'.
Qed.
End props.

(** ** Nodes *)

(** The tree of an array and another tree. *)
Lemma apart_nodup m par prv nxt p k d cs c : rep m par prv nxt (LT p k d cs) → rep m None None None c →
  (∀ x, x ∈ places c → x ∉ places (LT p k d cs)) → NoDup (p :: placess cs ++ places c).
Proof.
  intros Hp [_ Hc] Hd. change (p :: placess cs ++ places c) with ((p :: placess cs) ++ places c). apply NoDup_app.
  split; [by eapply rep_nodup|]. split; [|done]. intros x Hx Hxc. apply (Hd x Hxc). by rewrite places_eq.
Qed.

Lemma check_link_rep σ par prv nxt (tag_ok : json_data → bool) t c : rep (cells σ) par prv nxt t → tag_ok (data_of (t_kind t) (t_kids t)) = true →
  rep (cells σ) None None None c → check_link σ tag_ok (t_loc t) (t_loc c) = Ok tt.
Proof.
  intros (Hp & _)%rep_parts Ht (Hc & _)%rep_parts. unfold check_link. rewrite (load_at _ _ _ Hp), bind_ret. cbn [root_node j_data].
  rewrite Ht. cbn [assert_ mbind res_bind]. by rewrite (load_at _ _ _ Hc).
Qed.

(** [json_append_element] and [json_prepend_element] put a detached node behind
    or in front of the elements of an array: all links of the array, of its elements
    and of the node are then those of the longer list, and no other cell changed. *)
Theorem json_elements_refine σ par prv nxt p k cs c :
  rep (cells σ) par prv nxt (LT p k KArray cs) → rep (cells σ) None None None c →
  (∀ x, x ∈ places c → x ∉ places (LT p k KArray cs)) →
  (∃ σ', json_append_element σ p (t_loc c) = Ok σ' ∧ rep (cells σ') par prv nxt (LT p k KArray (cs ++ [c])) ∧
     same_but (p :: placess cs ++ places c) (cells σ) (cells σ')) ∧
  (∃ σ', json_prepend_element σ p (t_loc c) = Ok σ' ∧ rep (cells σ') par prv nxt (LT p k KArray (c :: cs)) ∧
     same_but (p :: placess cs ++ places c) (cells σ) (cells σ')).
Proof.
  intros Hp Hc Hd. pose proof (apart_nodup _ _ _ _ _ _ _ _ _ Hp Hc Hd) as Hnd.
  pose proof (check_link_rep σ _ _ _ is_array _ c Hp eq_refl Hc) as Hlink. cbn [t_loc] in Hlink.
  unfold json_append_element, json_prepend_element. rewrite Hlink, !bind_ret. split.
  - destruct (append_rep σ par prv nxt p k KArray cs c None None None eq_refl (proj1 Hp) (proj1 Hc) Hnd) as (σ' & E & Hr & _ & Hs). by exists σ'.
  - destruct (prepend_rep σ par prv nxt p k KArray cs c None None None eq_refl (proj1 Hp) (proj1 Hc) Hnd) as (σ' & E & Hr & _ & Hs). by exists σ'.
Qed.

(** Members get their key first. *)
Definition keyed (key : str) (c : ltree) : ltree := LT (t_loc c) (Some key) (t_kind c) (t_kids c).

Lemma rekey_rep σ par prv nxt c key : rep (cells σ) par prv nxt c →
  ∃ σ', update σ (t_loc c) (set_jkey (Some key)) = Ok σ' ∧ rep (cells σ') par prv nxt (keyed key c) ∧
    next_loc σ' = next_loc σ ∧ same_but [t_loc c] (cells σ) (cells σ').
Proof.
  intros [Hh Hn]. rewrite flat_eq in Hh. apply holds_cons in Hh as [Hc Hb]. rewrite (update_at _ _ _ _ Hc). eexists. split; [done|].
  assert (Ep : places (keyed key c) = places c) by (by rewrite !places_eq). cbn [cells next_loc]. split; [split|split; [done|]].
  - rewrite flat_eq. apply holds_cons. split; [apply lookup_insert_eq|]. apply holds_insert; [done|]. rewrite below_places.
    rewrite places_eq in Hn. by apply NoDup_cons in Hn as [? _].
  - by rewrite Ep.
  - intros x Hx. apply lookup_insert_ne. intros <-. apply Hx. by left.
Qed.

Lemma members_refine `{AllocTotal} σ par prv nxt p k cs c key :
  rep (cells σ) par prv nxt (LT p k KObject cs) → rep (cells σ) None None None c →
  (∀ x, x ∈ places c → x ∉ places (LT p k KObject cs)) →
  (∃ σ', json_append_member σ p key (t_loc c) = Ok σ' ∧ rep (cells σ') par prv nxt (LT p k KObject (cs ++ [keyed key c]))) ∧
  (∃ σ', json_prepend_member σ p key (t_loc c) = Ok σ' ∧ rep (cells σ') par prv nxt (LT p k KObject (keyed key c :: cs))).
Proof.
  intros Hp Hc Hd. pose proof (apart_nodup _ _ _ _ _ _ _ _ _ Hp Hc Hd) as Hnd.
  pose proof (check_link_rep σ _ _ _ is_object _ c Hp eq_refl Hc) as Hlink. cbn [t_loc] in Hlink.
  destruct (rekey_rep σ None None None c key Hc) as (σ1 & E1 & Hc1 & _ & Hs1).
  assert (Hp1 : holds (cells σ1) (flat par prv nxt (LT p k KObject cs))).
  { eapply holds_same; [apply Hp|exact Hs1|]. rewrite flat_places. intros x [->|[]%elem_of_nil]%elem_of_cons. apply Hd, t_loc_place. }
  assert (Ep : places (keyed key c) = places c) by (by rewrite !places_eq). rewrite <- Ep in Hnd.
  unfold json_append_member, json_prepend_member, append_member, json_strdup. rewrite alloc_total, Hlink. cbn [mbind res_bind]. rewrite E1. cbn [mbind res_bind]. split.
  - destruct (append_rep σ1 par prv nxt p k KObject cs (keyed key c) None None None eq_refl Hp1 (proj1 Hc1) Hnd) as (σ' & E & Hr & _). by exists σ'.
  - destruct (prepend_rep σ1 par prv nxt p k KObject cs (keyed key c) None None None eq_refl Hp1 (proj1 Hc1) Hnd) as (σ' & E & Hr & _). by exists σ'.
Qed.

(** C18: [json_remove_from_parent] takes one node out of its container: the others stay
    in their order, the node becomes a root without a key and keeps its subtree, no
    other cell changes; the searches by index and by name then see the shorter list. *)
Theorem json_remove_refines σ par prv nxt p k d cs1 c cs2 :
  is_container d = true → rep (cells σ) par prv nxt (LT p k d (cs1 ++ c :: cs2)) →
  ∃ σ', json_remove_from_parent σ (t_loc c) = Ok σ' ∧
    rep (cells σ') par prv nxt (LT p k d (cs1 ++ cs2)) ∧ rep (cells σ') None None None (unkeyed c) ∧
    same_but (places (LT p k d (cs1 ++ c :: cs2))) (cells σ) (cells σ') ∧
    (d = KArray → ∀ i, json_find_element σ' (Some p) i = Ok (if i <? 0 then None else t_loc <$> (cs1 ++ cs2) !! Z.to_nat i)) ∧
    (d = KObject → Forall (λ c, is_Some (t_key c)) (cs1 ++ cs2) → ∀ name,
       json_find_member σ' (Some p) name = Ok (t_loc <$> head (base.filter (λ c, named name c = true) (cs1 ++ cs2)))).
Proof.
  intros Hd Hr. pose proof (rep_nodup _ _ _ _ _ _ _ _ Hr) as Hnd.
  destruct (remove_rep σ par prv nxt p k d cs1 c cs2 Hd (proj1 Hr) Hnd) as (σ' & E & Hp & Hc & _ & Hs).
  exists σ'. split; [done|]. split; [done|]. split; [done|]. split; [by rewrite places_eq|]. split.
  - intros -> i. by apply (find_element_rep σ' par prv nxt (LT p k KArray (cs1 ++ cs2))).
  - intros -> Hk name. by apply (find_member_rep σ' par prv nxt (LT p k KObject (cs1 ++ cs2))).
Qed.

(** ** UTF-8 *)

(** C19: [utf8_validate] accepts exactly the strings that are encodings of Unicode
    scalar values (RFC 3629: no surrogates, no overlong forms, nothing beyond
    U+10FFFF), and never reads behind the null; [utf8_write_char] writes that
    encoding and [utf8_read_char] reads it back. *)
Theorem utf8_correct t : Forall byte_ok t → no_null t →
  (∃ b, utf8_validate (cstr t) = Ok b ∧ (b = true ↔ utf8_text t)) ∧
  (∀ u rest, scalar u → utf8_write_char u = Ok (utf8 u) ∧ utf8_read_char (utf8 u ++ rest) = Ok (u, zlen (utf8 u))).
Proof.
  intros Hb Hn. split; [by apply utf8_validate_Ok|]. intros u rest Hu. split; [by apply write_utf8|by apply read_utf8].
Qed.

(** ** Witnesses *)
Section witnesses.
#[local] Instance always : Allocator := λ _, true.
#[local] Instance always_total : AllocTotal.
Proof. done. Qed.

Definition no_nodes : store := mk_store ∅ 1.
Lemma no_nodes_fresh : fresh no_nodes.
Proof. intros p _. apply lookup_empty. Qed.

(** [17, {"k": true}] *)
Definition sample_text : str := lit "[17, {" ++ [34; 107; 34] ++ lit ": true}]".
Definition sample_tree : ltree :=
  LT 1 None KArray [LT 2 None (KNumber (d_of_Z 17)) []; LT 3 None KObject [LT 4 (Some [107]) (KBool true) []]].
Definition sample_cells : gmap loc JsonNode := list_to_map (flat None None None sample_tree).
Definition sample_store : store := mk_store sample_cells 9.

Lemma sample_rep : rep sample_cells None None None sample_tree.
Proof. split; [repeat constructor|apply (bool_decide_eq_true_1 _); by vm_compute]. Qed.

Lemma sample_fresh : fresh sample_store.
Proof.
  intros p Hp. unfold sample_store, sample_cells in *. cbn [cells next_loc] in *. apply not_elem_of_list_to_map_1.
  assert (E : (flat None None None sample_tree).*1 = [1; 2; 3; 4]%positive) by (by vm_compute). rewrite E.
  intros Hin. rewrite !elem_of_cons, elem_of_nil in Hin. lia.
Qed.

Lemma sample_formed : formed sample_tree.
Proof. repeat (constructor; try done); intros; eauto. Qed.

Lemma sample_printable : printable (val sample_tree).
Proof.
  constructor. constructor; [constructor; by apply number_back_int|]. constructor; [|constructor].
  constructor. constructor; [|constructor]. split; [|constructor]. exists [107]. split; [|done].
  constructor; [|constructor]. unfold plain_char, char_ok, scalar. lia.
Qed.

Lemma json_decode_correct_witness : ∃ o, read_json sample_text = Ok o ∧
    match o with
    | Some v => ∃ σ' tr, json_decode no_nodes sample_text = Ok (σ', Some (t_loc tr)) ∧ val tr = v ∧ rep (cells σ') None None None tr ∧
                  same_but (places tr) (cells no_nodes) (cells σ') ∧ (∀ x, x ∈ places tr → cells no_nodes !! x = None)
    | None => ∃ σ', json_decode no_nodes sample_text = Ok (σ', None) ∧ cells σ' = cells no_nodes
    end.
Proof.
  apply (json_decode_correct no_nodes sample_text); [apply no_nodes_fresh| |by vm_compute].
  apply (bool_decide_eq_true_1 _). by vm_compute.
Defined.

Lemma json_validate_agrees_witness : ∃ b σ' o,
  json_validate no_nodes sample_text = Ok (no_nodes, b) ∧ json_decode no_nodes sample_text = Ok (σ', o) ∧ (b = true ↔ is_Some o).
Proof.
  apply (json_validate_agrees no_nodes sample_text); [apply no_nodes_fresh| |by vm_compute].
  apply (bool_decide_eq_true_1 _). by vm_compute.
Defined.

Lemma json_decode_checks_witness : ∃ σ', json_decode no_nodes (lit "[17,true]") = Ok (σ', Some 1%positive) ∧
  json_check σ' 1 = Ok None ∧ ∃ σ'', json_delete σ' (Some 1%positive) = Ok σ'' ∧ cells σ'' = ∅.
Proof.
  eexists. assert (E : json_decode no_nodes (lit "[17,true]") = Ok (_, Some 1%positive)) by (vm_compute; reflexivity).
  split; [exact E|]. apply (json_decode_checks no_nodes (lit "[17,true]")); [apply no_nodes_fresh| |by vm_compute|exact E].
  apply (bool_decide_eq_true_1 _). by vm_compute.
Defined.

Lemma json_round_trip_witness : ∃ text σ' t',
  json_stringify sample_store 1 (Some [32; 32]) = Ok text ∧ text = render (Some [32; 32]) 0 (val sample_tree) ∧
    json_decode sample_store text = Ok (σ', Some (t_loc t')) ∧ val t' = val sample_tree ∧
    rep (cells σ') None None None t' ∧ same_but (places t') (cells sample_store) (cells σ').
Proof.
  apply (json_round_trip sample_store None None None sample_tree (Some [32; 32])).
  - apply sample_fresh.
  - apply sample_rep.
  - apply sample_formed.
  - apply sample_printable.
  - intros sp [= <-]. split; [repeat constructor|by vm_compute].
  - by vm_compute.
Defined.

Lemma unit_separator_lost_witness :
  json_encode_string [0x1F] = Ok [34; 0x1F; 34] ∧ ∃ σ', json_decode no_nodes [34; 0x1F; 34] = Ok (σ', None).
Proof. apply (unit_separator_lost no_nodes), no_nodes_fresh. Defined.

(** An array with two elements, and another node. *)
Definition pair : list ltree := [LT 2 None KNull []; LT 3 None (KBool true) []].
Definition loner : ltree := LT 5 None KNull [].
Definition two_roots : store :=
  mk_store (list_to_map (flat None None None (LT 1 None KArray pair) ++ flat None None None loner)) 9.

Lemma two_roots_rep : rep (cells two_roots) None None None (LT 1 None KArray pair) ∧ rep (cells two_roots) None None None loner.
Proof. split; (split; [repeat constructor|apply (bool_decide_eq_true_1 _); by vm_compute]). Qed.

Lemma json_elements_refine_witness :
  (∃ σ', json_append_element two_roots 1 5 = Ok σ' ∧ rep (cells σ') None None None (LT 1 None KArray (pair ++ [loner])) ∧
     same_but (1%positive :: placess pair ++ places loner) (cells two_roots) (cells σ')) ∧
  (∃ σ', json_prepend_element two_roots 1 5 = Ok σ' ∧ rep (cells σ') None None None (LT 1 None KArray (loner :: pair)) ∧
     same_but (1%positive :: placess pair ++ places loner) (cells two_roots) (cells σ')).
Proof.
  apply (json_elements_refine two_roots None None None 1 None pair loner).
  - apply two_roots_rep.
  - apply two_roots_rep.
  - apply Forall_forall.
    apply (bool_decide_eq_true_1 _). by vm_compute.
Defined.

Lemma json_remove_refines_witness : ∃ σ', json_remove_from_parent two_roots 2 = Ok σ' ∧
    rep (cells σ') None None None (LT 1 None KArray [LT 3 None (KBool true) []]) ∧ rep (cells σ') None None None (LT 2 None KNull []) ∧
    json_find_element σ' (Some 1%positive) 0 = Ok (Some 3%positive).
Proof.
  destruct (json_remove_refines two_roots None None None 1 None KArray [] (LT 2 None KNull []) [LT 3 None (KBool true) []]) as
    (σ' & E & H1 & H2 & _ & H3 & _); [done|apply two_roots_rep|].
  exists σ'. split; [exact E|]. split; [exact H1|]. split; [exact H2|]. by rewrite (H3 eq_refl).
Defined.

(** The euro sign and a letter. *)
Lemma utf8_correct_witness :
  (∃ b, utf8_validate (cstr [0xE2; 0x82; 0xAC; 97]) = Ok b ∧ (b = true ↔ utf8_text [0xE2; 0x82; 0xAC; 97])) ∧
  (∀ u rest, scalar u → utf8_write_char u = Ok (utf8 u) ∧ utf8_read_char (utf8 u ++ rest) = Ok (u, zlen (utf8 u))).
Proof. apply (utf8_correct [0xE2; 0x82; 0xAC; 97]); [apply (bool_decide_eq_true_1 _); by vm_compute|by repeat constructor]. Defined.
End witnesses.
