(* ===== verification/Avl.v ===== *)
(** * AVL trees (ccan/avl)

    avl.h and avl.c.  A subtree belongs to the one pointer to it, so that the nodes
    are a tree; NULL is [Leaf], and following it is [ENull].  The keys are compared
    by the function that was given to [avl_new]; it is a parameter. *)
From S2P Require Import Prelude.
From S2P Require Import Rule.
#[local] Open Scope Z_scope.

(** [struct AvlNode]: [lr[0]], key, value, balance, [lr[1]] *)
Inductive AvlNode (K V : Type) :=
  | Leaf
  | Node (left : AvlNode K V) (key : K) (value : V) (balance : Z) (right : AvlNode K V).
Arguments Leaf {K V}.
Arguments Node {K V} _ _ _ _ _.

(** [struct AVL], without the comparison *)
Record AVL (K V : Type) := mk_AVL { avl_root : AvlNode K V; avl_cnt : Z }.
Arguments mk_AVL {K V} _ _.
Arguments avl_root {K V} _.
Arguments avl_cnt {K V} _.

(** [bal(side)] and [side(bal)] *)
Definition bal (side : Z) : Z := if side =? 0 then -1 else 1.
Definition side (bal : Z) : Z := if bal =? 1 then 1 else 0.

Definition sign (cmp : Z) : Z := if cmp <? 0 then -1 else if cmp =? 0 then 0 else 1.

Section avl.
Context {K V : Type}.
Abbreviation tree := (AvlNode K V).

(** [node->lr[side]] and its assignment *)
Definition lr (node : tree) (side : Z) : res tree :=
  match node with Leaf => Err ENull | Node l _ _ _ r => Ok (if side =? 0 then l else r) end.
Definition set_lr (node : tree) (side : Z) (x : tree) : res tree :=
  match node with
  | Leaf => Err ENull
  | Node l k v b r => Ok (if side =? 0 then Node x k v b r else Node l k v b x)
  end.
(** [node->balance] and its assignment *)
Definition get_balance (node : tree) : res Z := match node with Leaf => Err ENull | Node _ _ _ b _ => Ok b end.
Definition set_balance (node : tree) (x : Z) : res tree :=
  match node with Leaf => Err ENull | Node l k v _ r => Ok (Node l k v x r) end.

(** ** Rotations *)

(** The new tree at [*p].  The balance of a node is set before the node is linked
    below another one, where the source sets it afterwards through the pointer. *)
Definition balance (p : tree) (side : Z) : res tree :=
  let node := p in
  child ← lr node side;
  let opposite := 1 - side in
  let b := bal side in
  cb ← get_balance child;
  if negb (cb =? - b) then
    x ← lr child opposite;
    node ← set_lr node side x;
    child ← set_balance child (cb - b);
    cb ← get_balance child;
    node ← set_balance node (- cb);
    set_lr child opposite node
  else
    grandchild ← lr child opposite;
    x ← lr grandchild opposite;
    node ← set_lr node side x;
    y ← lr grandchild side;
    child ← set_lr child opposite y;
    node ← set_balance node 0;
    child ← set_balance child 0;
    gb ← get_balance grandchild;
    node ← (if gb =? b then set_balance node (- b) else Ok node);
    child ← (if negb (gb =? b) && (gb =? - b) then set_balance child b else Ok child);
    grandchild ← set_balance grandchild 0;
    grandchild ← set_lr grandchild side child;
    set_lr grandchild opposite node.

(** The new tree at [*p] and its balance. *)
Definition sway (p : tree) (sw : Z) : res (tree * Z) :=
  b ← get_balance p;
  p ← (if negb (b =? sw) then set_balance p (b + sw) else balance p (side sw));
  b ← get_balance p;
  Ok (p, b).

(** ** Insertion and removal *)
Section compare.
Context `{Allocator} (compare : K → K → Z).

Definition sizeof_AVL : Z := 24.
Definition sizeof_AvlNode : Z := 40.

Definition avl_new : res (AVL K V) := _ ← assert_ (alloc_ok sizeof_AVL); Ok (mk_AVL Leaf 0).

Definition mkNode (key : K) (value : V) : res tree := _ ← assert_ (alloc_ok sizeof_AvlNode); Ok (Node Leaf key value 0 Leaf).

Fixpoint lookup (node : tree) (key : K) : tree :=
  match node with
  | Leaf => Leaf
  | Node l k v b r =>
    let cmp := compare key k in
    if cmp <? 0 then lookup l key
    else if 0 <? cmp then lookup r key
    else node
  end.

(** The tree at [*p], the count, and whether the subtree is higher now. *)
Fixpoint insert (count : Z) (p : tree) (key : K) (value : V) : res (tree * Z * bool) :=
  match p with
  | Leaf => n ← mkNode key value; Ok (n, u64 (count + 1), true)
  | Node l k v b r =>
    let cmp := sign (compare key k) in
    if cmp =? 0 then Ok (Node l key value b r, count, false) else
    '(sub, count, grew) ← (if side cmp =? 0 then insert count l key value else insert count r key value);
    node ← set_lr p (side cmp) sub;
    if negb grew then Ok (node, count, false) else
    '(node, nb) ← sway node cmp;
    Ok (node, count, negb (nb =? 0))
  end.

(** The tree at [*p], what was in the removed node, and whether the subtree is lower. *)
Fixpoint removeExtremum (p : tree) (sd : Z) : res (tree * (K * V) * bool) :=
  match p with
  | Leaf => Err ENull
  | Node l k v b r =>
    match (if sd =? 0 then l else r) with
    | Leaf => Ok (if sd =? 0 then r else l, (k, v), true)
    | Node _ _ _ _ _ =>
      '(sub, ret, shrunk) ← (if sd =? 0 then removeExtremum l sd else removeExtremum r sd);
      node ← set_lr p sd sub;
      if negb shrunk then Ok (node, ret, false) else
      '(node, nb) ← sway node (- bal sd);
      Ok (node, ret, nb =? 0)
    end
  end.

(** A node with two children is replaced by the extremum of one of them. *)
Definition remove_here (l : tree) (b : Z) (r : tree) : res (tree * bool) :=
  match l, r with
  | Node _ _ _ _ _, Node _ _ _ _ _ =>
    let sd := if b <=? 0 then 0 else 1 in
    '(sub, (rk, rv), shrunk) ← removeExtremum (if sd =? 0 then l else r) (1 - sd);
    let replacement := if sd =? 0 then Node sub rk rv b r else Node l rk rv b sub in
    if negb shrunk then Ok (replacement, false) else
    replacement ← set_balance replacement (b - bal sd);
    nb ← get_balance replacement;
    Ok (replacement, nb =? 0)
  | Node _ _ _ _ _, Leaf => Ok (l, true)
  | Leaf, _ => Ok (r, true)
  end.

(** The tree at [*p], the count, what was in the removed node if there is one, and
    whether the subtree is lower. *)
Fixpoint remove (count : Z) (p : tree) (key : K) : res (tree * Z * option (K * V) * bool) :=
  match p with
  | Leaf => Ok (Leaf, count, None, false)
  | Node l k v b r =>
    let cmp := sign (compare key k) in
    if cmp =? 0 then
      '(t, shrunk) ← remove_here l b r;
      Ok (t, u64 (count - 1), Some (k, v), shrunk)
    else
      '(sub, count, ret, shrunk) ← (if side cmp =? 0 then remove count l key else remove count r key);
      node ← set_lr p (side cmp) sub;
      if negb shrunk then Ok (node, count, ret, false) else
      '(node, nb) ← sway node (- cmp);
      Ok (node, count, ret, nb =? 0)
  end.

Definition avl_lookup_node (avl : AVL K V) (key : K) : tree := lookup (avl_root avl) key.
Definition avl_lookup (avl : AVL K V) (key : K) : option V :=
  match lookup (avl_root avl) key with Leaf => None | Node _ _ v _ _ => Some v end.
Definition avl_member (avl : AVL K V) (key : K) : bool :=
  match avl_lookup_node avl key with Leaf => false | _ => true end.
Definition avl_count (avl : AVL K V) : Z := avl_cnt avl.

Definition avl_insert (avl : AVL K V) (key : K) (value : V) : res (AVL K V * bool) :=
  let old_count := avl_cnt avl in
  '(root, count, _) ← insert (avl_cnt avl) (avl_root avl) key value;
  Ok (mk_AVL root count, negb (count =? old_count)).

Definition avl_remove (avl : AVL K V) (key : K) : res (AVL K V * bool) :=
  '(root, count, node, _) ← remove (avl_cnt avl) (avl_root avl) key;
  Ok (mk_AVL root count, match node with None => false | Some _ => true end).

(** ** Traversal *)

(** [FORWARD] is 0 and [BACKWARD] is 1.  The pushed nodes are kept from the last one
    to the first; there is room for 100. *)
Record AvlIter := mk_iter { i_node : tree; i_stack : list tree; i_dir : Z }.

Fixpoint descend (dir : Z) (node : tree) (stack : list tree) : res (tree * list tree) :=
  match node with
  | Leaf => Err ENull
  | Node l _ _ _ r =>
    match (if dir =? 0 then l else r) with
    | Leaf => Ok (node, stack)
    | Node _ _ _ _ _ =>
      if zlen stack <? 100 then
        (if dir =? 0 then descend dir l (node :: stack) else descend dir r (node :: stack))
      else Err EOob
    end
  end.

Definition avl_iter_begin (avl : AVL K V) (dir : Z) : res AvlIter :=
  match avl_root avl with
  | Leaf => Ok (mk_iter Leaf [] dir)
  | node => '(node, stack) ← descend dir node []; Ok (mk_iter node stack dir)
  end.

Definition avl_iter_next (iter : AvlIter) : res AvlIter :=
  match i_node iter with
  | Leaf => Ok iter
  | node =>
    sub ← lr node (1 - i_dir iter);
    match sub with
    | Node _ _ _ _ _ => '(node, stack) ← descend (i_dir iter) sub (i_stack iter); Ok (mk_iter node stack (i_dir iter))
    | Leaf =>
      match i_stack iter with
      | node :: stack => Ok (mk_iter node stack (i_dir iter))
      | [] => Ok (mk_iter Leaf [] (i_dir iter))
      end
    end
  end.

(** [avl_traverse]: [body] gets the key and the value and may end the loop with a
    result. *)
Fixpoint traverse_iter {S R} (fuel : nat) (body : K → V → S → S + R) (iter : AvlIter) (s : S) : res (S + R) :=
  match fuel with
  | O => Err EFuel
  | Datatypes.S fuel =>
    match i_node iter with
    | Leaf => Ok (inl s)
    | Node _ k v _ _ =>
      match body k v s with
      | inr r => Ok (inr r)
      | inl s => iter ← avl_iter_next iter; traverse_iter fuel body iter s
      end
    end
  end.

(** ** [avl_check_invariants] *)

(** The height, or [None] for false. *)
Fixpoint checkBalances (node : tree) : option Z :=
  match node with
  | Leaf => Some 0
  | Node l _ _ b r =>
    match checkBalances l with
    | None => None
    | Some h0 =>
      match checkBalances r with
      | None => None
      | Some h1 =>
        if negb (b =? h1 - h0) || (b <? -1) || (1 <? b) then None
        else Some ((if h1 <? h0 then h0 else h1) + 1)
      end
    end
  end.

Fixpoint countNode (node : tree) : Z :=
  match node with Leaf => 0 | Node l _ _ _ r => u64 (1 + countNode l + countNode r) end.

(** The number of rounds is the number of nodes. *)
Fixpoint nodes (node : tree) : nat := match node with Leaf => 0 | Node l _ _ _ r => S (nodes l + nodes r) end.
Definition avl_traverse {S R} (avl : AVL K V) (dir : Z) (body : K → V → S → S + R) (s : S) : res (S + R) :=
  iter ← avl_iter_begin avl dir; traverse_iter (Datatypes.S (nodes (avl_root avl))) body iter s.

Definition checkOrder (avl : AVL K V) : res bool :=
  o ← avl_traverse avl 0 (λ k _ last,
        match last with
        | Some l => if 0 <=? compare l k then inr false else inl (Some k)
        | None => inl (Some k)
        end) None;
  Ok match o with inl _ => true | inr b => b end.

Definition avl_check_invariants (avl : AVL K V) : res bool :=
  match checkBalances (avl_root avl) with
  | None => Ok false
  | Some _ =>
    ordered ← checkOrder avl;
    Ok (ordered && (countNode (avl_root avl) =? avl_cnt avl))
  end.
End compare.
End avl.
