(* ===== verification/AvlSpec.v ===== *)
(** * AVL trees are finite maps

    The pairs of a tree in their order; balance, order and count as an invariant;
    what rotations, insertion and removal do to the pairs and to the height. *)
From S2P Require Import Prelude.
From S2P Require Import Rule.
From S2P Require Import Avl.
#[local] Open Scope Z_scope.

Section balance.
Context {K V : Type}.
Abbreviation tree := (AvlNode K V).

(** The pairs from left to right. *)
Fixpoint elements (t : tree) : list (K * V) :=
  match t with Leaf => [] | Node l k v _ r => elements l ++ (k, v) :: elements r end.

(** Every stored balance is the difference of the heights, and at most one. *)
Inductive balanced : tree → Z → Prop :=
  | balanced_leaf : balanced Leaf 0
  | balanced_node l k v b r hl hr :
      balanced l hl → balanced r hr → b = hr - hl → -1 ≤ b ≤ 1 → balanced (Node l k v b r) (1 + Z.max hl hr).

Definition root_balance (t : tree) : Z := match t with Leaf => 0 | Node _ _ _ b _ => b end.

Lemma balanced_nonneg t h : balanced t h → 0 ≤ h.
Proof. induction 1; lia. Qed.
Lemma balanced_pos t h : balanced t h → 0 < h → ∃ l k v b r, t = Node l k v b r.
Proof. intros [] Hh; [lia|eauto 6]. Qed.
Lemma balanced_node' l k v b r hl hr h :
  balanced l hl → balanced r hr → b = hr - hl → -1 ≤ b ≤ 1 → h = 1 + Z.max hl hr → balanced (Node l k v b r) h.
Proof. intros ? ? ? ? ->. by constructor. Qed.
Lemma balanced_inv l k v b r h : balanced (Node l k v b r) h →
  ∃ hl hr, balanced l hl ∧ balanced r hr ∧ b = hr - hl ∧ -1 ≤ b ≤ 1 ∧ h = 1 + Z.max hl hr.
Proof. inversion_clear 1. eauto 8. Qed.

Lemma node_height t h l k v b r : balanced t h → t = Node l k v b r → 0 < h.
Proof. intros Ht ->. apply balanced_inv in Ht as (hl & hr & Hl & Hr & _ & _ & ->). pose proof (balanced_nonneg _ _ Hl). lia. Qed.

(** ** Rotations *)

(** The tree after a rotation: the pairs stay; it is lower than the unbalanced one
    unless the child was balanced. *)
Definition rotated (p p' : tree) (cb b' h : Z) : Prop :=
  elements p' = elements p ∧
  (if cb =? 0 then balanced p' (h + 3) ∧ root_balance p' = b' else balanced p' (h + 2) ∧ root_balance p' = 0).

(** Moving brackets. *)
Ltac assoc := cbn [elements]; repeat (rewrite <- app_assoc; cbn [app]); reflexivity.
Ltac rot :=
  unfold balance;
  cbv [Z.eqb Pos.eqb Z.opp Z.sub Z.add Pos.add Pos.succ Pos.pred_double Z.pos_sub bal lr set_lr get_balance set_balance negb andb mbind res_bind];
  eexists; (split; [reflexivity|]); unfold rotated; cbn [root_balance Z.eqb]; (split; [assoc|]); (split; [|done]).
(** A height that is equal. *)
Ltac height_is h := match goal with |- balanced _ ?x => replace x with h by (cbn [Z.b2z]; lia); assumption end.
(** The heights of the new tree. *)
Ltac heights :=
  let sub := first [eassumption|eapply balanced_node'; [eassumption|eassumption|lia|lia|reflexivity]] in
  eapply balanced_node'; [sub|sub|lia|lia|lia].

Lemma balance_left l k v b r h : balanced l (h + 2) → balanced r h →
  ∃ p', balance (Node l k v b r) 0 = Ok p' ∧ rotated (Node l k v b r) p' (root_balance l) 1 h.
Proof.
  intros Hl Hr. pose proof (balanced_nonneg _ _ Hr). destruct (balanced_pos _ _ Hl) as (ll & lk & lv & lb & lr & ->); [lia|].
  apply balanced_inv in Hl as (hll & hlr & Hll & Hlr & Eb & Hb & Hh). cbn [root_balance].
  assert (lb = -1 ∨ lb = 0 ∨ lb = 1) as [E|[E|E]] by lia; rewrite E in *; [rot; heights..|].
  pose proof (balanced_nonneg _ _ Hll). destruct (balanced_pos _ _ Hlr) as (gl & gk & gv & gb & gr & ->); [lia|].
  apply balanced_inv in Hlr as (hgl & hgr & Hgl & Hgr & Egb & Hgb & Hgh).
  assert (gb = -1 ∨ gb = 0 ∨ gb = 1) as [Eg|[Eg|Eg]] by lia; rewrite Eg in *; rot; heights.
Qed.

Lemma balance_right l k v b r h : balanced l h → balanced r (h + 2) →
  ∃ p', balance (Node l k v b r) 1 = Ok p' ∧ rotated (Node l k v b r) p' (root_balance r) (-1) h.
Proof.
  intros Hl Hr. pose proof (balanced_nonneg _ _ Hl). destruct (balanced_pos _ _ Hr) as (rl & rk & rv & rb & rr & ->); [lia|].
  apply balanced_inv in Hr as (hrl & hrr & Hrl & Hrr & Eb & Hb & Hh). cbn [root_balance].
  assert (rb = 1 ∨ rb = 0 ∨ rb = -1) as [E|[E|E]] by lia; rewrite E in *; [rot; heights..|].
  pose proof (balanced_nonneg _ _ Hrr). destruct (balanced_pos _ _ Hrl) as (gl & gk & gv & gb & gr & ->); [lia|].
  apply balanced_inv in Hrl as (hgl & hgr & Hgl & Hgr & Egb & Hgb & Hgh).
  assert (gb = -1 ∨ gb = 0 ∨ gb = 1) as [Eg|[Eg|Eg]] by lia; rewrite Eg in *; rot; heights.
Qed.

(** After the subtree on one side got higher or the other one lower, [sway] restores
    the balance: with a new balance, or by a rotation. *)
Lemma sway_ok l k v b r s hl hr :
  balanced l hl → balanced r hr → hr - hl = b + s → -1 ≤ b ≤ 1 → s = -1 ∨ s = 1 →
  ∃ p' h' b', sway (Node l k v b r) s = Ok (p', b') ∧ elements p' = elements l ++ (k, v) :: elements r ∧
    balanced p' h' ∧ root_balance p' = b' ∧
    ((b ≠ s ∧ b' = b + s ∧ h' = 1 + Z.max hl hr) ∨
     (b = s ∧ root_balance (if s =? 1 then r else l) ≠ 0 ∧ b' = 0 ∧ h' = Z.max hl hr) ∨
     (b = s ∧ root_balance (if s =? 1 then r else l) = 0 ∧ b' = - s ∧ h' = 1 + Z.max hl hr)).
Proof.
  intros Hl Hr Hd Hb Hs. unfold sway. cbn [get_balance mbind res_bind]. destruct (Z.eqb_spec b s) as [->|Hne]; cbn [negb].
  - assert (Hrot : ∃ p', balance (Node l k v s r) (side s) = Ok p' ∧
      rotated (Node l k v s r) p' (root_balance (if s =? 1 then r else l)) (- s) (Z.min hl hr)).
    { destruct Hs as [-> | ->].
      - apply balance_left; [by replace (Z.min hl hr + 2) with hl by lia|by replace (Z.min hl hr) with hr by lia].
      - apply balance_right; [by replace (Z.min hl hr) with hl by lia|by replace (Z.min hl hr + 2) with hr by lia]. }
    destruct Hrot as (p' & -> & Hel & Hp'). cbn [mbind res_bind].
    assert (Hg : ∀ h, balanced p' h → 0 < h → get_balance p' = Ok (root_balance p')) by (intros h [] ?; [lia|done]).
    pose proof (balanced_nonneg _ _ Hl). pose proof (balanced_nonneg _ _ Hr).
    destruct (Z.eqb_spec (root_balance (if s =? 1 then r else l)) 0) as [E|E]; destruct Hp' as [Hp' Hrb];
      rewrite (Hg _ Hp') by lia; cbn [mbind res_bind]; eexists _, _, _; (split; [done|]); (split; [exact Hel|]); (split; [exact Hp'|]); (split; [done|]).
    + right; right. repeat split; [done|done|lia].
    + right; left. repeat split; [done|done|lia].
  - cbn [set_balance mbind res_bind get_balance]. eexists _, _, _. split; [done|]. split; [done|]. split; [|split; [done|by left]].
    eapply balanced_node'; [done|done|lia|lia|done].
Qed.
(** The first or the last pair is taken out. *)
Lemma removeExtremum_ok p : ∀ h sd, balanced p h → 0 < h → sd = 0 ∨ sd = 1 →
  ∃ p' ret shrunk, removeExtremum p sd = Ok (p', ret, shrunk) ∧ balanced p' (h - Z.b2z shrunk) ∧
    elements p = if sd =? 0 then ret :: elements p' else elements p' ++ [ret].
Proof.
  induction p as [|l IHl k v b r IHr]; intros h sd Hb Hh Hsd; [inversion Hb; lia|].
  apply balanced_inv in Hb as (hl & hr & Hl & Hr & Eb & Hbb & ->). pose proof (balanced_nonneg _ _ Hl). pose proof (balanced_nonneg _ _ Hr).
  destruct Hsd as [-> | ->]; cbn [removeExtremum Z.eqb].
  - destruct l as [|ll lk lv lb lr] eqn:El.
    { inversion Hl; subst. eexists _, _, _. split; [done|]. split; [|done]. height_is hr. }
    rewrite <- El in *. assert (0 < hl) by (by apply (node_height l hl ll lk lv lb lr)).
    destruct (IHl hl 0 Hl) as (l' & ret & shrunk & -> & Hbl & Hel); [done|by left|]. cbn [mbind res_bind set_lr Z.eqb] in *.
    assert (Hels : ∀ p', elements p' = elements l' ++ (k, v) :: elements r → elements (Node l k v b r) = ret :: elements p') by (intros p' ->; cbn [elements]; by rewrite Hel).
    destruct shrunk; cbn [negb Z.b2z] in *.
    2:{ eexists _, _, _. split; [done|]. split; [|by apply Hels]. rewrite Z.sub_0_r in Hbl. eapply balanced_node'; [done|done|lia|lia|cbn; lia]. }
    destruct (sway_ok l' k v b r 1 (hl - 1) hr) as (p' & h' & b' & E & Hep & Hbp & Hrb & Hcase); [done|done|lia|lia|lia|].
    change (- bal 0) with 1. rewrite E. cbn [mbind res_bind]. eexists _, _, _. split; [done|]. split; [|by apply Hels].
    replace (1 + Z.max hl hr - Z.b2z (b' =? 0)) with h'; [done|]. destruct (Z.eqb_spec b' 0); cbn [Z.b2z]; lia.
  - destruct r as [|rl rk rv rb rr] eqn:Er.
    { inversion Hr; subst. eexists _, _, _. split; [done|]. split; [|done]. height_is hl. }
    rewrite <- Er in *. assert (0 < hr) by (by apply (node_height r hr rl rk rv rb rr)).
    destruct (IHr hr 1 Hr) as (r' & ret & shrunk & -> & Hbr & Her); [done|by right|]. cbn [mbind res_bind set_lr Z.eqb] in *.
    assert (Hels : ∀ p', elements p' = elements l ++ (k, v) :: elements r' → elements (Node l k v b r) = elements p' ++ [ret]).
    { intros p' ->. cbn [elements]. rewrite Her, <- app_assoc. done. }
    destruct shrunk; cbn [negb Z.b2z] in *.
    2:{ eexists _, _, _. split; [done|]. split; [|by apply Hels]. rewrite Z.sub_0_r in Hbr. eapply balanced_node'; [done|done|lia|lia|cbn; lia]. }
    destruct (sway_ok l k v b r' (-1) hl (hr - 1)) as (p' & h' & b' & E & Hep & Hbp & Hrb & Hcase); [done|done|lia|lia|lia|].
    change (- bal 1) with (-1). rewrite E. cbn [mbind res_bind]. eexists _, _, _. split; [done|]. split; [|by apply Hels].
    replace (1 + Z.max hl hr - Z.b2z (b' =? 0)) with h'; [done|]. destruct (Z.eqb_spec b' 0); cbn [Z.b2z]; lia.
Qed.

(** The pairs of both subtrees stay. *)
Lemma remove_here_ok l b r hl hr : balanced l hl → balanced r hr → b = hr - hl → -1 ≤ b ≤ 1 →
  ∃ t shrunk, remove_here l b r = Ok (t, shrunk) ∧ elements t = elements l ++ elements r ∧ balanced t (1 + Z.max hl hr - Z.b2z shrunk).
Proof.
  intros Hl Hr Eb Hb. pose proof (balanced_nonneg _ _ Hl). pose proof (balanced_nonneg _ _ Hr).
  destruct l as [|ll lk lv lb lr] eqn:El.
  { inversion Hl; subst. exists r, true. split; [done|]. split; [done|]. height_is hr. }
  destruct r as [|rl rk rv rb rr] eqn:Er.
  { inversion Hr; subst. eexists _, true. split; [done|]. split; [by rewrite app_nil_r|]. height_is hl. }
  unfold remove_here. rewrite <- El, <- Er in *.
  assert (0 < hl) by (by apply (node_height l hl ll lk lv lb lr)). assert (0 < hr) by (by apply (node_height r hr rl rk rv rb rr)).
  destruct (Z.leb_spec b 0); cbn [Z.eqb].
  - change (1 - 0) with 1. destruct (removeExtremum_ok l hl 1 Hl) as (l' & [xk xv] & shrunk & -> & Hbl & Hel); [done|by right|]. cbn [mbind res_bind].
    cbn [Z.eqb] in Hel. assert (Hels : elements l' ++ (xk, xv) :: elements r = elements l ++ elements r) by (rewrite Hel, <- app_assoc; done).
    destruct shrunk; cbn [negb Z.b2z set_balance get_balance mbind res_bind] in *.
    + change (bal 0) with (-1). eexists _, _. split; [done|]. split; [done|]. destruct (Z.eqb_spec (b - -1) 0); cbn [Z.b2z]; (eapply balanced_node'; [done|done|lia|lia|lia]).
    + eexists _, _. split; [done|]. split; [done|]. rewrite Z.sub_0_r in Hbl. eapply balanced_node'; [done|done|lia|lia|cbn; lia].
  - change (1 - 1) with 0. destruct (removeExtremum_ok r hr 0 Hr) as (r' & [xk xv] & shrunk & -> & Hbr & Her); [done|by left|]. cbn [mbind res_bind].
    cbn [Z.eqb] in Her. destruct shrunk; cbn [negb Z.b2z set_balance get_balance mbind res_bind] in *.
    + change (bal 1) with 1. eexists _, _. split; [done|]. split; [by rewrite Her|]. destruct (Z.eqb_spec (b - 1) 0); cbn [Z.b2z]; (eapply balanced_node'; [done|done|lia|lia|lia]).
    + eexists _, _. split; [done|]. split; [by rewrite Her|]. rewrite Z.sub_0_r in Hbr. eapply balanced_node'; [done|done|lia|lia|cbn; lia].
Qed.
End balance.

(** ** The order of the keys *)

(** What the comparison given to [avl_new] has to be: [ccan/order] calls it a total
    order.  Keys that compare equal need not be the same. *)
Class TotalOrder {K : Type} (compare : K → K → Z) : Prop := {
  order_anti x y : sign (compare y x) = - sign (compare x y);
  order_trans x y z : compare x y ≤ 0 → compare y z ≤ 0 → compare x z ≤ 0 }.

Section order.
Context {K V : Type} (compare : K → K → Z) `{!TotalOrder compare}.
Abbreviation tree := (AvlNode K V).

Lemma sign_spec c : (c < 0 ∧ sign c = -1) ∨ (c = 0 ∧ sign c = 0) ∨ (0 < c ∧ sign c = 1).
Proof. unfold sign. destruct (Z.ltb_spec c 0), (Z.eqb_spec c 0); lia. Qed.

Lemma order_flip x y : (compare y x < 0 ↔ 0 < compare x y) ∧ (compare y x = 0 ↔ compare x y = 0).
Proof. pose proof (order_anti x y). destruct (sign_spec (compare x y)), (sign_spec (compare y x)); lia. Qed.

Lemma lt_le_trans x y z : compare x y < 0 → compare y z ≤ 0 → compare x z < 0.
Proof.
  intros Hxy Hyz. destruct (Z.lt_ge_cases (compare x z) 0) as [|Hzx]; [done|]. pose proof (order_flip x z). pose proof (order_flip x y).
  pose proof (order_trans y z x Hyz). lia.
Qed.
Lemma le_lt_trans x y z : compare x y ≤ 0 → compare y z < 0 → compare x z < 0.
Proof.
  intros Hxy Hyz. destruct (Z.lt_ge_cases (compare x z) 0) as [|Hzx]; [done|]. pose proof (order_flip x z). pose proof (order_flip y z).
  pose proof (order_trans z x y). lia.
Qed.

(** Keys strictly increasing. *)
Definition before (x y : K * V) : Prop := compare x.1 y.1 < 0.
Definition ordered (l : list (K * V)) : Prop := StronglySorted before l.

Lemma ordered_node l k v r :
  ordered (l ++ (k, v) :: r) ↔
  ordered l ∧ ordered r ∧ Forall (λ x, compare x.1 k < 0) l ∧ Forall (λ y, compare k y.1 < 0) r.
Proof.
  unfold ordered. induction l as [|x l IH]; cbn [app].
  - split.
    + intros Hs. apply StronglySorted_inv in Hs as [Hs Hf]. split; [constructor|]. by split.
    + intros (_ & Hs & _ & Hf). by constructor.
  - split.
    + intros Hs. apply StronglySorted_inv in Hs as [Hs Hf]. apply IH in Hs as (Hl & Hr & Hlk & Hkr).
      apply Forall_app in Hf as [Hfl Hfr]. apply Forall_cons in Hfr as [Hxk Hfr]. split; [by constructor|]. split; [done|].
      split; [by constructor|done].
    + intros (Hl & Hr & Hlk & Hkr). apply StronglySorted_inv in Hl as [Hl Hx]. apply Forall_cons in Hlk as [Hxk Hlk].
      constructor; [by apply IH|]. apply Forall_app. split; [done|]. constructor; [done|].
      eapply Forall_impl; [exact Hkr|]. intros y Hy. unfold before. cbv beta in *. apply (lt_le_trans _ k); [done|lia].
Qed.

(** ** The abstract map *)

(** Adding a pair, or replacing the one whose key compares equal. *)
Fixpoint put (key : K) (value : V) (l : list (K * V)) : list (K * V) :=
  match l with
  | [] => [(key, value)]
  | (k, v) :: l' =>
    if compare key k <? 0 then (key, value) :: l
    else if compare key k =? 0 then (key, value) :: l'
    else (k, v) :: put key value l'
  end.
Definition has (key : K) (l : list (K * V)) : bool := existsb (λ x, compare key x.1 =? 0) l.
Definition drop_key (key : K) (l : list (K * V)) : list (K * V) := base.filter (λ x, compare key x.1 ≠ 0) l.
Definition get (key : K) (l : list (K * V)) : option V := snd <$> head (base.filter (λ x, compare key x.1 = 0) l).

Lemma put_left key value l k v r : compare key k < 0 → put key value (l ++ (k, v) :: r) = put key value l ++ (k, v) :: r.
Proof.
  intros Hk. induction l as [|[k' v'] l IH]; cbn [app put]; [by rewrite (proj2 (Z.ltb_lt _ _))|].
  destruct (compare key k' <? 0); [done|]. destruct (compare key k' =? 0); [done|]. by rewrite IH.
Qed.

Lemma put_right key value l k v r : Forall (λ x, compare x.1 k < 0) l → 0 < compare key k →
  put key value (l ++ (k, v) :: r) = l ++ (k, v) :: put key value r.
Proof.
  intros Hl Hk. assert (Hput : ∀ k' v' l', 0 < compare key k' → put key value ((k', v') :: l') = (k', v') :: put key value l').
  { intros k' v' l' Hk'. cbn [put]. rewrite (proj2 (Z.ltb_ge _ _)), (proj2 (Z.eqb_neq _ _)) by lia. done. }
  induction Hl as [|[k' v'] l Hk' _ IH]; cbn [app]; [by apply Hput|]. rewrite Hput, IH; [done|]. cbn [fst] in Hk'.
  pose proof (order_flip k key). pose proof (order_flip k' key). pose proof (lt_le_trans k' k key Hk'). lia.
Qed.

Lemma put_here key value l k v r : Forall (λ x, compare x.1 k < 0) l → compare key k = 0 →
  put key value (l ++ (k, v) :: r) = l ++ (key, value) :: r.
Proof.
  intros Hl Hk. induction Hl as [|[k' v'] l Hk' _ IH]; cbn [app put fst] in *; [by rewrite Hk|].
  pose proof (order_flip k key). pose proof (order_flip k' key). pose proof (lt_le_trans k' k key Hk').
  rewrite (proj2 (Z.ltb_ge _ _)), (proj2 (Z.eqb_neq _ _)) by lia. by rewrite IH.
Qed.

(** Keys on one side of a node are not equal to a key on the other. *)
Lemma keys_below key k l : Forall (λ x : K * V, compare x.1 k < 0) l → 0 ≤ compare key k → Forall (λ x, compare key x.1 ≠ 0) l.
Proof.
  intros Hl Hk. eapply Forall_impl; [exact Hl|]. intros x Hx. cbv beta in *. pose proof (order_flip k key). pose proof (order_flip x.1 key).
  pose proof (lt_le_trans x.1 k key Hx). lia.
Qed.
Lemma keys_above key k l : Forall (λ y : K * V, compare k y.1 < 0) l → compare key k ≤ 0 → Forall (λ x, compare key x.1 ≠ 0) l.
Proof. intros Hl Hk. eapply Forall_impl; [exact Hl|]. intros y Hy. cbv beta in *. pose proof (le_lt_trans key k y.1 Hk Hy). lia. Qed.

Lemma has_none key l : Forall (λ x : K * V, compare key x.1 ≠ 0) l → has key l = false.
Proof. unfold has. induction 1 as [|x l Hx _ IH]; [done|]. cbn [existsb]. by rewrite (proj2 (Z.eqb_neq _ _)). Qed.
Lemma has_node key l k v r : has key (l ++ (k, v) :: r) = has key l || (compare key k =? 0) || has key r.
Proof. unfold has. rewrite existsb_app. cbn [existsb fst]. by rewrite orb_assoc. Qed.

Lemma drop_none key l : Forall (λ x : K * V, compare key x.1 ≠ 0) l → drop_key key l = l.
Proof. unfold drop_key. intros Hl. apply filter_all. by apply Forall_forall. Qed.
Lemma drop_node key l k v r : drop_key key (l ++ (k, v) :: r) = drop_key key l ++ drop_key key [(k, v)] ++ drop_key key r.
Proof. unfold drop_key. by rewrite filter_app, (filter_app _ [(k, v)] r). Qed.
Lemma drop_single key k v : drop_key key [(k, v)] = if compare key k =? 0 then [] else [(k, v)].
Proof.
  unfold drop_key. rewrite filter_cons, filter_nil. cbn [fst]. destruct (Z.eqb_spec (compare key k) 0); [by rewrite decide_False by auto|by rewrite decide_True].
Qed.

(** ** Insertion *)
Context `{AllocTotal}.

Lemma sign_side c : c ≠ 0 → (c < 0 ∧ sign c = -1 ∧ side (sign c) = 0) ∨ (0 < c ∧ sign c = 1 ∧ side (sign c) = 1).
Proof. intros Hc. destruct (sign_spec c) as [[? E]|[[? E]|[? E]]]; rewrite E; [by left|lia|by right]. Qed.

Lemma has_left key l k v r : Forall (λ y : K * V, compare k y.1 < 0) r → compare key k < 0 → has key (l ++ (k, v) :: r) = has key l.
Proof.
  intros Hr Hk. rewrite has_node, (proj2 (Z.eqb_neq _ _)), orb_false_r by lia. rewrite (has_none key r), orb_false_r; [done|].
  apply (keys_above key k); [done|lia].
Qed.
Lemma has_right key l k v r : Forall (λ x : K * V, compare x.1 k < 0) l → 0 < compare key k → has key (l ++ (k, v) :: r) = has key r.
Proof.
  intros Hl Hk. rewrite has_node, (proj2 (Z.eqb_neq _ _)), orb_false_r by lia. rewrite (has_none key l); [done|].
  apply (keys_below key k); [done|lia].
Qed.

Lemma insert_ok key value p : ∀ h cnt, balanced p h → ordered (elements p) →
  ∃ p' grew, insert compare cnt p key value = Ok (p', if has key (elements p) then cnt else u64 (cnt + 1), grew) ∧
    elements p' = put key value (elements p) ∧ balanced p' (h + Z.b2z grew) ∧ (grew = true → 0 < h → root_balance p' ≠ 0).
Proof.
  induction p as [|l IHl k v b r IHr]; intros h cnt Hb Ho.
  - inversion_clear Hb. cbn [insert]. unfold mkNode. rewrite alloc_total. cbn [assert_ mbind res_bind]. eexists _, _. split; [done|].
    split; [done|]. split; [|lia]. eapply balanced_node'; [constructor|constructor|lia|lia|done].
  - apply balanced_inv in Hb as (hl & hr & Hl & Hr & Eb & Hbb & ->). cbn [elements] in *. pose proof Ho as (Hol & Hor & Hlk & Hkr)%ordered_node.
    cbn [insert]. destruct (Z.eq_dec (compare key k) 0) as [E|E].
    + unfold sign. rewrite E. cbn [Z.ltb Z.compare Z.eqb]. eexists _, _. split; [rewrite has_node, E, orb_true_r; done|].
      split; [by rewrite put_here|]. split; [|done]. rewrite Z.add_0_r. eapply balanced_node'; [done|done|lia|lia|done].
    + destruct (sign_side _ E) as [(Hc & Es & Ed)|(Hc & Es & Ed)]; rewrite Es in Ed |- *; rewrite Ed; cbn [Z.eqb].
      * destruct (IHl hl cnt Hl Hol) as (l' & grew & -> & Hel & Hbl & Hgb). cbn [mbind res_bind set_lr Z.eqb].
        rewrite has_left, put_left, <- Hel by done. destruct grew; cbn [negb Z.b2z] in *.
        2:{ eexists _, _. split; [done|]. split; [done|]. split; [|done]. rewrite Z.add_0_r in Hbl. eapply balanced_node'; [done|done|lia|lia|cbn; lia]. }
        destruct (sway_ok l' k v b r (-1) (hl + 1) hr) as (p' & h' & b' & -> & Hep & Hbp & Hrb & Hcase); [done|done|lia|lia|lia|].
        cbn [mbind res_bind]. eexists _, _. split; [done|]. split; [done|]. cbn [Z.eqb] in Hcase. pose proof (balanced_nonneg _ _ Hl). pose proof (balanced_nonneg _ _ Hr).
        destruct (Z.eqb_spec b' 0); cbn [negb Z.b2z]; (split; [|rewrite ?Hrb; done]);
          match goal with |- balanced _ ?x => replace x with h'; [done|] end;
          destruct Hcase as [?|[?|(? & Hz & ?)]]; try lia; exfalso; apply Hgb; done || lia.
      * destruct (IHr hr cnt Hr Hor) as (r' & grew & -> & Her & Hbr & Hgb). cbn [mbind res_bind set_lr Z.eqb].
        rewrite has_right, put_right, <- Her by done. destruct grew; cbn [negb Z.b2z] in *.
        2:{ eexists _, _. split; [done|]. split; [done|]. split; [|done]. rewrite Z.add_0_r in Hbr. eapply balanced_node'; [done|done|lia|lia|cbn; lia]. }
        destruct (sway_ok l k v b r' 1 hl (hr + 1)) as (p' & h' & b' & -> & Hep & Hbp & Hrb & Hcase); [done|done|lia|lia|lia|].
        cbn [mbind res_bind]. eexists _, _. split; [done|]. split; [done|]. cbn [Z.eqb Pos.eqb] in Hcase. pose proof (balanced_nonneg _ _ Hl). pose proof (balanced_nonneg _ _ Hr).
        destruct (Z.eqb_spec b' 0); cbn [negb Z.b2z]; (split; [|rewrite ?Hrb; done]);
          match goal with |- balanced _ ?x => replace x with h'; [done|] end;
          destruct Hcase as [?|[?|(? & Hz & ?)]]; try lia; exfalso; apply Hgb; done || lia.
Qed.

(** ** Removal *)
Lemma drop_left key l k v r : Forall (λ y : K * V, compare k y.1 < 0) r → compare key k < 0 →
  drop_key key (l ++ (k, v) :: r) = drop_key key l ++ (k, v) :: r.
Proof.
  intros Hr Hk. rewrite drop_node, drop_single, (proj2 (Z.eqb_neq _ _)) by lia. rewrite (drop_none key r); [done|].
  apply (keys_above key k); [done|lia].
Qed.
Lemma drop_right key l k v r : Forall (λ x : K * V, compare x.1 k < 0) l → 0 < compare key k →
  drop_key key (l ++ (k, v) :: r) = l ++ (k, v) :: drop_key key r.
Proof.
  intros Hl Hk. rewrite drop_node, drop_single, (proj2 (Z.eqb_neq _ _)) by lia. rewrite (drop_none key l); [done|].
  apply (keys_below key k); [done|lia].
Qed.
Lemma drop_here key l k v r : Forall (λ x : K * V, compare x.1 k < 0) l → Forall (λ y : K * V, compare k y.1 < 0) r → compare key k = 0 →
  drop_key key (l ++ (k, v) :: r) = l ++ r.
Proof.
  intros Hl Hr Hk. rewrite drop_node, drop_single, Hk. cbn [Z.eqb app].
  rewrite (drop_none key l), (drop_none key r); [done|apply (keys_above key k); [done|lia]|apply (keys_below key k); [done|lia]].
Qed.

Lemma remove_ok key p : ∀ h cnt, balanced p h → ordered (elements p) →
  ∃ p' ret shrunk, remove compare cnt p key = Ok (p', if has key (elements p) then u64 (cnt - 1) else cnt, ret, shrunk) ∧
    (match ret with Some _ => true | None => false end) = has key (elements p) ∧
    elements p' = drop_key key (elements p) ∧ balanced p' (h - Z.b2z shrunk).
Proof.
  induction p as [|l IHl k v b r IHr]; intros h cnt Hb Ho.
  - eexists _, _, _. split; [done|]. split; [done|]. split; [done|]. cbn [Z.b2z]. by rewrite Z.sub_0_r.
  - apply balanced_inv in Hb as (hl & hr & Hl & Hr & Eb & Hbb & ->). cbn [elements] in *. pose proof Ho as (Hol & Hor & Hlk & Hkr)%ordered_node.
    cbn [remove]. destruct (Z.eq_dec (compare key k) 0) as [E|E].
    + unfold sign. rewrite has_node, E, orb_true_r, drop_here by done. cbn [Z.ltb Z.compare Z.eqb orb].
      destruct (remove_here_ok l b r hl hr Hl Hr Eb Hbb) as (t & shrunk & -> & Het & Hbt). cbn [mbind res_bind]. by eexists _, _, _.
    + destruct (sign_side _ E) as [(Hc & Es & Ed)|(Hc & Es & Ed)]; rewrite Es in Ed |- *; rewrite Ed; cbn [Z.eqb].
      * destruct (IHl hl cnt Hl Hol) as (l' & ret & shrunk & -> & Hret & Hel & Hbl). cbn [mbind res_bind set_lr Z.eqb].
        rewrite has_left, drop_left, <- Hel by done. destruct shrunk; cbn [negb Z.b2z] in *.
        2:{ eexists _, _, _. split; [done|]. split; [done|]. split; [done|]. rewrite Z.sub_0_r in Hbl. eapply balanced_node'; [done|done|lia|lia|cbn; lia]. }
        destruct (sway_ok l' k v b r 1 (hl - 1) hr) as (p' & h' & b' & Esw & Hep & Hbp & Hrb & Hcase); [done|done|lia|lia|lia|].
        change (- (-1)) with 1. rewrite Esw. cbn [mbind res_bind]. eexists _, _, _. split; [done|]. split; [done|]. split; [done|].
        replace (1 + Z.max hl hr - Z.b2z (b' =? 0)) with h'; [done|]. destruct (Z.eqb_spec b' 0); cbn [Z.b2z]; lia.
      * destruct (IHr hr cnt Hr Hor) as (r' & ret & shrunk & -> & Hret & Her & Hbr). cbn [mbind res_bind set_lr Z.eqb].
        rewrite has_right, drop_right, <- Her by done. destruct shrunk; cbn [negb Z.b2z] in *.
        2:{ eexists _, _, _. split; [done|]. split; [done|]. split; [done|]. rewrite Z.sub_0_r in Hbr. eapply balanced_node'; [done|done|lia|lia|cbn; lia]. }
        destruct (sway_ok l k v b r' (-1) hl (hr - 1)) as (p' & h' & b' & Esw & Hep & Hbp & Hrb & Hcase); [done|done|lia|lia|lia|].
        change (- (1)) with (-1). rewrite Esw. cbn [mbind res_bind]. eexists _, _, _. split; [done|]. split; [done|]. split; [done|].
        replace (1 + Z.max hl hr - Z.b2z (b' =? 0)) with h'; [done|]. destruct (Z.eqb_spec b' 0); cbn [Z.b2z]; lia.
Qed.
End order.
