(* ===== verification/Order.v ===== *)
(** * Comparison functions (ccan/order)

    The functions that the macro SCALAR_ORDER of order.c defines for an integer type,
    on the values the pointers lead to.  They are total orders, as the containers
    that take them expect. *)
From S2P Require Import Prelude.
From S2P Require Import Avl.
From S2P Require Import AvlSpec.
#[local] Open Scope Z_scope.

(** The two values compare equal where the source asserts it. *)
Definition order_scalar (aa bb : Z) : Z := if aa <? bb then -1 else if bb <? aa then 1 else 0.
Definition order_scalar_reverse (aa bb : Z) : Z := - order_scalar aa bb.

Lemma order_scalar_spec a b :
  (a < b ∧ order_scalar a b = -1) ∨ (a = b ∧ order_scalar a b = 0) ∨ (b < a ∧ order_scalar a b = 1).
Proof. unfold order_scalar. destruct (Z.ltb_spec a b), (Z.ltb_spec b a); lia. Qed.

#[global] Instance order_scalar_total : TotalOrder order_scalar.
Proof.
  split.
  - intros x y. by destruct (order_scalar_spec x y) as [[? ->]|[[? ->]|[? ->]]], (order_scalar_spec y x) as [[? ->]|[[? ->]|[? ->]]]; try lia.
  - intros x y z. destruct (order_scalar_spec x y), (order_scalar_spec y z), (order_scalar_spec x z); lia.
Qed.

#[global] Instance order_reverse_total : TotalOrder order_scalar_reverse.
Proof.
  unfold order_scalar_reverse. split.
  - intros x y. by destruct (order_scalar_spec x y) as [[? ->]|[[? ->]|[? ->]]], (order_scalar_spec y x) as [[? ->]|[[? ->]|[? ->]]]; try lia.
  - intros x y z. destruct (order_scalar_spec x y), (order_scalar_spec y z), (order_scalar_spec x z); lia.
Qed.
