(* ===== verification/AvlIter.v ===== *)
(** * Walking over an AVL tree

    The iterator visits the pairs in their order, or in the opposite one; a balanced
    tree that fits in memory is so low that the iterator's stack of a hundred nodes
    is enough. *)
From S2P Require Import Prelude.
From S2P Require Import Rule.
From S2P Require Import Avl.
From S2P Require Import AvlSpec.
#[local] Open Scope Z_scope.

Section iter.
Context {K V : Type}.
Abbreviation tree := (AvlNode K V).

(** ** Heights *)
Fixpoint hgt (t : tree) : Z := match t with Leaf => 0 | Node l _ _ _ r => 1 + Z.max (hgt l) (hgt r) end.

Lemma hgt_nonneg t : 0 ≤ hgt t.
Proof. induction t; cbn [hgt]; lia. Qed.
Lemma balanced_hgt t h : balanced t h → h = hgt t.
Proof. induction 1; cbn [hgt]; congruence. Qed.

(** The least number of nodes of a balanced tree of a height and of the next one. *)
Fixpoint least (n : nat) : Z * Z := match n with O => (0, 1) | S n => let '(a, b) := least n in (b, 1 + a + b) end.

Lemma least_mono n : 0 ≤ (least n).1 ≤ (least n).2.
Proof. induction n as [|n IH]; [done|]. cbn [least]. destruct (least n) as [a b]. cbn [fst snd] in *. lia. Qed.
Lemma least_succ n : (least (S n)).1 = (least n).2.
Proof. cbn [least]. by destruct (least n). Qed.
Lemma least_le n m : (n ≤ m)%nat → (least n).1 ≤ (least m).1.
Proof. induction 1 as [|m _ IH]; [done|]. pose proof (least_mono m). pose proof (least_succ m). lia. Qed.

Lemma zlen_node (l r : tree) (k : K) (v : V) : zlen (elements l ++ (k, v) :: elements r) = 1 + zlen (elements l) + zlen (elements r).
Proof. rewrite zlen_app. unfold zlen. cbn [length]. lia. Qed.

Lemma balanced_least (t : tree) h : balanced t h → (least (Z.to_nat h)).1 ≤ zlen (elements t).
Proof.
  induction 1 as [|l k v b r hl hr Hl IHl Hr IHr Eb Hb]; [done|]. cbn [elements]. rewrite zlen_node.
  pose proof (balanced_nonneg _ _ Hl). pose proof (balanced_nonneg _ _ Hr).
  assert (Hm : ∃ n, Z.to_nat (1 + Z.max hl hr) = S n ∧ (Z.to_nat hl = n ∨ Z.to_nat hr = n) ∧
    (n = O ∨ ∃ n', n = S n' ∧ (n' ≤ Z.to_nat hl)%nat ∧ (n' ≤ Z.to_nat hr)%nat)).
  { exists (Z.to_nat (Z.max hl hr)). split; [lia|]. split; [lia|]. destruct (Z.to_nat (Z.max hl hr)) as [|n'] eqn:E; [by left|right]. exists n'. lia. }
  destruct Hm as (n & -> & Hn & Hn'). rewrite least_succ. destruct Hn' as [->|(n' & -> & H1 & H2)].
  - cbn [least snd]. pose proof (zlen_nonneg (elements l)). pose proof (zlen_nonneg (elements r)). lia.
  - apply least_le in H1, H2. cbn [least snd]. destruct (least n') as [a c] eqn:El. cbn [fst snd] in *.
    assert (Hs : (least (S n')).1 = c) by (rewrite least_succ, El; done). destruct Hn as [E|E]; rewrite E in *; lia.
Qed.

(** Fewer than 2^64 nodes. *)
Lemma balanced_low (t : tree) h : balanced t h → zlen (elements t) < 2 ^ 64 → h ≤ 100.
Proof.
  intros Hb Hs. destruct (Z.le_gt_cases h 100) as [|Hh]; [done|]. pose proof (balanced_least _ _ Hb) as Hl.
  pose proof (least_le 100 (Z.to_nat h) ltac:(lia)) as Hm. assert (2 ^ 64 < (least 100).1) by (by vm_compute). lia.
Qed.

(** ** What is left to visit *)
Fixpoint walk (dir : Z) (t : tree) : list (K * V) :=
  match t with
  | Leaf => []
  | Node l k v _ r => if dir =? 0 then walk dir l ++ (k, v) :: walk dir r else walk dir r ++ (k, v) :: walk dir l
  end.

Lemma walk_forward t : walk 0 t = elements t.
Proof. induction t as [|l IHl k v b r IHr]; [done|]. cbn [walk elements Z.eqb]. by rewrite IHl, IHr. Qed.
Lemma walk_backward t : walk 1 t = reverse (elements t).
Proof.
  induction t as [|l IHl k v b r IHr]; [done|]. cbn [walk elements Z.eqb]. rewrite IHl, IHr, reverse_app, reverse_cons, <- app_assoc. done.
Qed.
Lemma walk_nodes dir t : length (walk dir t) = nodes t.
Proof. induction t as [|l IHl k v b r IHr]; [done|]. cbn [walk nodes]. destruct (dir =? 0); rewrite length_app; cbn [length]; lia. Qed.

(** A node that was reached, before its own pair is visited. *)
Definition rest (dir : Z) (t : tree) : list (K * V) :=
  match t with Leaf => [] | Node l k v _ r => (k, v) :: walk dir (if dir =? 0 then r else l) end.
Definition pending (dir : Z) (ns : list tree) : list (K * V) := concat (rest dir <$> ns).

(** Every node of the stack is as high as the room above it allows. *)
Fixpoint stacked (H : Z) (ns : list tree) : Prop :=
  match ns with [] => True | n :: ns => n ≠ Leaf ∧ zlen ns + hgt n ≤ H ∧ stacked H ns end.

Lemma zlen_cons {A} (x : A) l : zlen (x :: l) = 1 + zlen l.
Proof. unfold zlen. cbn [length]. lia. Qed.

Lemma descend_ok dir t : ∀ ns, t ≠ Leaf → dir = 0 ∨ dir = 1 → zlen ns + hgt t ≤ 101 → stacked 101 ns →
  ∃ n ns', descend dir t ns = Ok (n, ns') ∧ stacked 101 (n :: ns') ∧ pending dir (n :: ns') = walk dir t ++ pending dir ns.
Proof.
  induction t as [|l IHl k v b r IHr]; intros ns Hne Hdir Hh Hst; [done|]. cbn [descend]. cbn [hgt] in Hh.
  pose proof (hgt_nonneg l). pose proof (hgt_nonneg r).
  assert (Hhere : stacked 101 (Node l k v b r :: ns)) by (split; [done|]; split; [cbn [hgt]; lia|done]).
  assert (Hpush : 2 ≤ 1 + Z.max (hgt l) (hgt r) → zlen ns <? 100 = true) by (intros; apply Z.ltb_lt; lia).
  destruct Hdir as [-> | ->]; cbn [Z.eqb].
  - destruct l as [|ll lk lv lb lr] eqn:El.
    { eexists _, _. split; [done|]. split; [done|]. unfold pending. cbn [fmap list_fmap concat rest walk Z.eqb]. done. }
    rewrite Hpush by (cbn [hgt]; pose proof (hgt_nonneg ll); pose proof (hgt_nonneg lr); lia). rewrite <- El in *.
    destruct (IHl (Node l k v b r :: ns)) as (n & ns' & -> & Hs & Hp); [by rewrite El|by left|rewrite zlen_cons; lia|done|].
    eexists _, _. split; [done|]. split; [done|]. rewrite Hp. unfold pending. cbn [fmap list_fmap concat rest walk Z.eqb].
    by rewrite <- app_assoc.
  - destruct r as [|rl rk rv rb rr] eqn:Er.
    { eexists _, _. split; [done|]. split; [done|]. unfold pending. cbn [fmap list_fmap concat rest walk Z.eqb]. done. }
    rewrite Hpush by (cbn [hgt]; pose proof (hgt_nonneg rl); pose proof (hgt_nonneg rr); lia). rewrite <- Er in *.
    destruct (IHr (Node l k v b r :: ns)) as (n & ns' & -> & Hs & Hp); [by rewrite Er|by right|rewrite zlen_cons; lia|done|].
    eexists _, _. split; [done|]. split; [done|]. rewrite Hp. unfold pending. cbn [fmap list_fmap concat rest walk Z.eqb].
    by rewrite <- app_assoc.
Qed.

(** The iterator: a current node and the stack, or the end. *)
Definition at_iter (it : AvlIter (K := K) (V := V)) (dir : Z) (l : list (K * V)) : Prop :=
  i_dir it = dir ∧
  match i_node it with
  | Leaf => l = []
  | n => stacked 101 (n :: i_stack it) ∧ l = pending dir (n :: i_stack it)
  end.

Lemma begin_ok avl dir : dir = 0 ∨ dir = 1 → hgt (avl_root avl) ≤ 100 →
  ∃ it, avl_iter_begin avl dir = Ok it ∧ at_iter it dir (walk dir (avl_root avl)).
Proof.
  intros Hdir Hh. unfold avl_iter_begin. destruct (avl_root avl) as [|l k v b r] eqn:E; [by eexists|].
  destruct (descend_ok dir (Node l k v b r) []) as (n & ns' & -> & Hs & Hp); [done|done|unfold zlen; cbn [length]; lia|done|].
  cbn [mbind res_bind]. eexists. split; [done|]. split; [done|]. cbn [i_node i_stack]. destruct n; [by destruct Hs|].
  split; [done|]. rewrite Hp. unfold pending. cbn [fmap list_fmap concat]. by rewrite app_nil_r.
Qed.

Lemma next_ok it dir x l : dir = 0 ∨ dir = 1 → at_iter it dir (x :: l) →
  (∃ a b c, i_node it = Node a x.1 x.2 b c) ∧ ∃ it', avl_iter_next it = Ok it' ∧ at_iter it' dir l.
Proof.
  intros Hdir [Ed Hn]. destruct it as [n st d]. cbn [i_node i_stack i_dir] in *. subst d. unfold avl_iter_next. cbn [i_node i_stack i_dir].
  destruct n as [|a k v b c]; [done|]. destruct Hn as [Hs Hl]. unfold pending in Hl. cbn [fmap list_fmap concat rest app] in Hl.
  injection Hl as -> ->. split; [by eexists _, _, _|]. fold (pending dir st). destruct Hs as (_ & Hz & Hst). cbn [hgt] in Hz.
  assert (Hlr : lr (Node a k v b c) (1 - dir) = Ok (if dir =? 0 then c else a)) by (by destruct Hdir as [-> | ->]). rewrite Hlr. cbn [mbind res_bind].
  destruct (if dir =? 0 then c else a) as [|l' k' v' b' r'] eqn:Esub.
  - cbn [walk app]. destruct st as [|n' st].
    + eexists. split; [done|]. by split.
    + eexists. split; [done|]. split; [done|]. cbn [i_node i_stack]. destruct Hst as (Hne & ? & ?). by destruct n'.
  - destruct (descend_ok dir (Node l' k' v' b' r') st) as (n & ns' & -> & Hs & Hp); [done|done| |done|].
    { assert (hgt (Node l' k' v' b' r') ≤ Z.max (hgt a) (hgt c)) by (rewrite <- Esub; destruct (dir =? 0); lia). lia. }
    cbn [mbind res_bind]. eexists. split; [done|]. split; [done|]. cbn [i_node i_stack]. destruct n; [by destruct Hs|].
    split; [done|]. by rewrite Hp.
Qed.

(** The loop over the pairs, up to a result. *)
Fixpoint over {S R} (body : K → V → S → S + R) (l : list (K * V)) (s : S) : S + R :=
  match l with
  | [] => inl s
  | (k, v) :: l => match body k v s with inr r => inr r | inl s => over body l s end
  end.

Lemma traverse_iter_ok {S R} (body : K → V → S → S + R) dir l : dir = 0 ∨ dir = 1 → ∀ fuel it s,
  at_iter it dir l → (length l < fuel)%nat → traverse_iter fuel body it s = Ok (over body l s).
Proof.
  intros Hdir. induction l as [|[k v] l IH]; intros [|fuel] it s Hit Hf; cbn [length] in Hf; try lia.
  - destruct Hit as [_ Hn]. cbn [traverse_iter over]. destruct (i_node it); [done|]. by destruct Hn.
  - destruct (next_ok it dir (k, v) l Hdir Hit) as ((a & b & c & En) & it' & Enx & Hit'). cbn [traverse_iter over]. rewrite En. cbn [fst snd].
    destruct (body k v s) as [s'|r]; [|done]. rewrite Enx. cbn [mbind res_bind]. apply IH; [done|lia].
Qed.

(** [avl_traverse] visits the pairs of a low tree in the direction it was given. *)
Lemma traverse_ok {S R} (avl : AVL K V) dir (body : K → V → S → S + R) s : dir = 0 ∨ dir = 1 → hgt (avl_root avl) ≤ 100 →
  avl_traverse avl dir body s = Ok (over body (walk dir (avl_root avl)) s).
Proof.
  intros Hdir Hh. unfold avl_traverse. destruct (begin_ok avl dir Hdir Hh) as (it & -> & Hit). cbn [mbind res_bind].
  apply (traverse_iter_ok body dir); [done|done|]. rewrite walk_nodes. lia.
Qed.
End iter.
