(* ===== verification/AvlProps.v ===== *)
(** * What the AVL trees promise (ccan/avl)

    Any sequence of insertions and removals on a new tree gives a tree whose pairs
    are those of the abstract map, whose invariants hold, and which lookups and
    iterators read correctly. *)
From S2P Require Import Prelude.
From S2P Require Import Rule.
From S2P Require Import Avl.
From S2P Require Import AvlSpec.
From S2P Require Import AvlIter.
From S2P Require Import Order.
#[local] Open Scope Z_scope.

Section maps.
Context {K V : Type} (compare : K → K → Z) `{!TotalOrder compare}.
Abbreviation tree := (AvlNode K V).
Abbreviation ordered := (AvlSpec.ordered (V := V) compare).

(** ** The abstract map stays ordered *)
Lemma put_elem key value (l : list (K * V)) x : x ∈ put compare key value l → x = (key, value) ∨ x ∈ l.
Proof.
  induction l as [|[k v] l IH]; cbn [put]; [rewrite elem_of_cons; tauto|].
  destruct (compare key k <? 0); [rewrite elem_of_cons; tauto|]. destruct (compare key k =? 0); rewrite !elem_of_cons; tauto.
Qed.

Lemma put_ordered key value l : ordered l → ordered (put compare key value l).
Proof.
  unfold AvlSpec.ordered. induction 1 as [|[k v] l Hl IH Hf]; cbn [put]; [repeat constructor|].
  destruct (Z.ltb_spec (compare key k) 0) as [Hk|Hk]; [|destruct (Z.eqb_spec (compare key k) 0) as [E|E]].
  - constructor; [by constructor|]. constructor; [done|]. eapply Forall_impl; [exact Hf|]. intros y Hy. unfold before in *. cbn [fst] in *.
    apply (lt_le_trans compare _ k); [done|lia].
  - constructor; [done|]. eapply Forall_impl; [exact Hf|]. intros y Hy. unfold before in *. cbn [fst] in *. apply (le_lt_trans compare _ k); [lia|done].
  - constructor; [done|]. apply Forall_forall. intros y [->|Hy]%put_elem; [|rewrite Forall_forall in Hf; by apply Hf].
    unfold before. cbn [fst]. apply (order_flip compare). lia.
Qed.

Lemma put_length key value l : ordered l → zlen (put compare key value l) = zlen l + (if has compare key l then 0 else 1).
Proof.
  unfold AvlSpec.ordered. induction 1 as [|[k v] l Hl IH Hf]; [done|]. unfold has in *. cbn [put existsb fst].
  destruct (Z.ltb_spec (compare key k) 0) as [Hk|Hk].
  - rewrite (proj2 (Z.eqb_neq _ _)) by lia. cbn [orb]. fold (has compare key l). rewrite has_none; [rewrite zlen_cons; lia|].
    by apply (keys_above compare key k); [|lia].
  - destruct (compare key k =? 0); cbn [orb]; rewrite !zlen_cons, ?IH; lia.
Qed.

Lemma drop_ordered key l : ordered l → ordered (drop_key compare key l).
Proof.
  unfold AvlSpec.ordered, drop_key. induction 1 as [|x l Hl IH Hf]; [constructor|]. rewrite filter_cons. destruct (decide _); [|done].
  constructor; [done|]. rewrite Forall_forall in *. intros y [_ Hy]%list_elem_of_filter. by apply Hf.
Qed.

Lemma drop_length key l : ordered l → zlen (drop_key compare key l) = zlen l - (if has compare key l then 1 else 0).
Proof.
  unfold AvlSpec.ordered, drop_key, has. induction 1 as [|[k v] l Hl IH Hf]; [done|]. rewrite filter_cons. cbn [existsb fst].
  destruct (Z.eqb_spec (compare key k) 0) as [E|E]; cbn [orb].
  - rewrite decide_False by auto. fold (drop_key compare key l). rewrite drop_none; [rewrite zlen_cons; lia|].
    by apply (keys_above compare key k); [|lia].
  - rewrite decide_True by done. rewrite !zlen_cons, IH. destruct (existsb _ l); lia.
Qed.

(** ** Lookup *)
Lemma get_none key (l : list (K * V)) : Forall (λ x, compare key x.1 ≠ 0) l → base.filter (λ x, compare key x.1 = 0) l = [].
Proof. intros Hl. apply filter_none. by apply Forall_forall. Qed.

Lemma lookup_ok key p : ordered (elements p) →
  match lookup compare p key with Leaf => None | Node _ _ v _ _ => Some v end = get compare key (elements p).
Proof.
  unfold get. induction p as [|l IHl k v b r IHr]; intros Ho; [done|]. cbn [elements lookup] in *. apply ordered_node in Ho as (Hol & Hor & Hlk & Hkr); [|done].
  rewrite filter_app, filter_cons. cbn [fst]. destruct (Z.ltb_spec (compare key k) 0); [|destruct (Z.ltb_spec 0 (compare key k))].
  - rewrite decide_False by lia. rewrite (get_none key (elements r)), app_nil_r; [by apply IHl|]. apply (keys_above compare key k); [done|lia].
  - rewrite decide_False by lia. rewrite (get_none key (elements l)); [by apply IHr|]. apply (keys_below compare key k); [done|lia].
  - rewrite decide_True by lia. rewrite (get_none key (elements l)); [done|]. apply (keys_below compare key k); [done|lia].
Qed.

(** ** The invariant *)
Record wf (avl : AVL K V) : Prop := {
  wf_balanced : ∃ h, balanced (avl_root avl) h;
  wf_ordered : ordered (elements (avl_root avl));
  wf_count : avl_cnt avl = u64 (zlen (elements (avl_root avl))) }.

Lemma u64_add x y : u64 (u64 x + y) = u64 (x + y).
Proof. unfold u64. by rewrite Z.add_mod_idemp_l. Qed.

Lemma checkBalances_spec (t : tree) : (∀ h, balanced t h → checkBalances t = Some h) ∧ (∀ h, checkBalances t = Some h → balanced t h).
Proof.
  induction t as [|l [IHl IHl'] k v b r [IHr IHr']]; [split; [by inversion 1|intros h [= <-]; constructor]|]. cbn [checkBalances]. split.
  - intros h (hl & hr & Hl & Hr & Eb & Hb & ->)%balanced_inv. rewrite (IHl _ Hl), (IHr _ Hr).
    replace (_ || _) with false by lia. f_equal. destruct (Z.ltb_spec hr hl); lia.
  - intros h. destruct (checkBalances l) as [hl|]; [|done]. destruct (checkBalances r) as [hr|]; [|done]. destruct (_ || _) eqn:E; [done|].
    intros [= <-]. eapply balanced_node'; [by apply IHl'|by apply IHr'|lia|lia|]. destruct (Z.ltb_spec hr hl); lia.
Qed.

Lemma countNode_spec (t : tree) : countNode t = u64 (zlen (elements t)).
Proof.
  induction t as [|l IHl k v b r IHr]; [done|]. cbn [countNode elements]. rewrite zlen_node, IHl, IHr. unfold u64.
  rewrite Z.add_mod_idemp_r, <- Z.add_assoc, (Z.add_comm _ (zlen (elements r))), Z.add_assoc, Z.add_mod_idemp_r by done. f_equal. lia.
Qed.

(** The comparison of each key with the last one. *)
Definition order_body (k : K) (_ : V) (last : option K) : option K + bool :=
  match last with
  | Some l => if 0 <=? compare l k then inr false else inl (Some k)
  | None => inl (Some k)
  end.

Lemma order_body_spec l : ∀ last, (match over order_body l last with inl _ => true | inr b => b end) = true ↔
  ordered l ∧ match last with Some x => Forall (λ y, compare x y.1 < 0) l | None => True end.
Proof.
  induction l as [|[k v] l IH]; intros last; cbn [over].
  { split; [|done]. intros _. split; [constructor|]. by destruct last. }
  assert (Hgo : (match over order_body l (Some k) with inl _ => true | inr b => b end) = true ↔ ordered ((k, v) :: l)).
  { rewrite IH. unfold AvlSpec.ordered. split.
    - intros [Ho Hf]. by constructor.
    - intros Hs. apply StronglySorted_inv in Hs as [Ho Hf]. by split. }
  destruct last as [x|]; cbn [order_body]; [|rewrite Hgo; tauto]. destruct (Z.leb_spec 0 (compare x k)) as [Hx|Hx].
  - split; [done|]. intros [_ Hf]. apply Forall_cons in Hf as [Hk _]. cbn [fst] in Hk. lia.
  - rewrite Hgo. split; [|tauto]. intros Ho. split; [done|]. constructor; [done|]. apply StronglySorted_inv in Ho as [_ Hf].
    eapply Forall_impl; [exact Hf|]. intros y Hy. unfold before in Hy. cbn [fst] in Hy. apply (lt_le_trans compare _ k); [done|lia].
Qed.

Lemma check_wf avl : zlen (elements (avl_root avl)) < 2 ^ 64 →
  ∃ b, avl_check_invariants compare avl = Ok b ∧ (b = true ↔ wf avl).
Proof.
  intros Hs. destruct (checkBalances_spec (avl_root avl)) as [Hb1 Hb2]. unfold avl_check_invariants.
  destruct (checkBalances (avl_root avl)) as [h|].
  2:{ exists false. split; [done|]. split; [done|]. intros [[h Hh] _ _]. by specialize (Hb1 h Hh). }
  specialize (Hb2 h eq_refl). pose proof (balanced_low _ _ Hb2 Hs) as Hl. rewrite (balanced_hgt _ _ Hb2) in Hl.
  unfold checkOrder. rewrite (traverse_ok avl 0) by (done || by left). rewrite walk_forward. cbn [mbind res_bind].
  change (λ k (_ : V) last, _) with order_body. pose proof (order_body_spec (elements (avl_root avl)) None) as Ho.
  eexists. split; [done|]. rewrite andb_true_iff, Ho, countNode_spec, Z.eqb_eq. split.
  - intros [[? _] ?]. split; [by exists h|done|done].
  - intros [_ ? ?]. done.
Qed.

(** [avl_check_invariants] returns, and returns true exactly if every balance is
    the difference of the heights and at most one, the keys increase and the count is
    the number of nodes; for a tree with fewer than 2^64 nodes the iterator it uses
    never overflows its stack of 100 nodes. *)
Theorem avl_check_exact avl : zlen (elements (avl_root avl)) < 2 ^ 64 →
  ∃ b, avl_check_invariants compare avl = Ok b ∧ (b = true ↔ wf avl).
Proof. apply check_wf. Qed.

(** ** Operations *)
Context `{AllocTotal}.

Lemma insert_wf avl key value : wf avl →
  ∃ avl', avl_insert compare avl key value = Ok (avl', negb (has compare key (elements (avl_root avl)))) ∧ wf avl' ∧
    elements (avl_root avl') = put compare key value (elements (avl_root avl)).
Proof.
  intros [[h Hb] Ho Hc]. unfold avl_insert.
  destruct (insert_ok compare key value (avl_root avl) h (avl_cnt avl) Hb Ho) as (p' & grew & -> & He & Hb' & _). cbn [mbind res_bind].
  pose proof (put_length key value _ Ho) as Hl. rewrite <- He in Hl. eexists. split.
  - do 3 f_equal. destruct (has _ _ _); [by rewrite Z.eqb_refl|]. rewrite Hc. apply Z.eqb_neq. unfold u64.
    intros E. pose proof (Z.mod_pos_bound (zlen (elements (avl_root avl))) (2 ^ 64) ltac:(lia)).
    destruct (Z.eq_dec (zlen (elements (avl_root avl)) mod 2 ^ 64) (2 ^ 64 - 1)) as [Em|Em].
    + rewrite Em in E. by vm_compute in E.
    + rewrite (Z.mod_small (_ + 1)) in E by lia. lia.
  - split; [|done]. split; cbn [avl_root avl_cnt]; [by eexists|rewrite He; by apply put_ordered|].
    rewrite Hl. destruct (has _ _ _); rewrite Hc, ?u64_add; f_equal; lia.
Qed.

Lemma remove_wf avl key : wf avl →
  ∃ avl', avl_remove compare avl key = Ok (avl', has compare key (elements (avl_root avl))) ∧ wf avl' ∧
    elements (avl_root avl') = drop_key compare key (elements (avl_root avl)).
Proof.
  intros [[h Hb] Ho Hc]. unfold avl_remove.
  destruct (remove_ok compare key (avl_root avl) h (avl_cnt avl) Hb Ho) as (p' & ret & shrunk & -> & Hret & He & Hb'). cbn [mbind res_bind].
  pose proof (drop_length key _ Ho) as Hl. rewrite <- He in Hl. eexists. split; [by rewrite Hret|].
  split; [|done]. split; cbn [avl_root avl_cnt]; [by eexists|rewrite He; by apply drop_ordered|].
  rewrite Hl. destruct (has _ _ _); rewrite Hc, <- ?Z.add_opp_r, ?u64_add; f_equal; lia.
Qed.

(** ** Sequences of operations *)
Inductive op := OpInsert (key : K) (value : V) | OpRemove (key : K).

(** One call, with what it returns. *)
Inductive step : AVL K V → op → bool → AVL K V → Prop :=
  | step_insert avl key value avl' b : avl_insert compare avl key value = Ok (avl', b) → step avl (OpInsert key value) b avl'
  | step_remove avl key avl' b : avl_remove compare avl key = Ok (avl', b) → step avl (OpRemove key) b avl'.

(** The same on the abstract map. *)
Definition map_step (l : list (K * V)) (o : op) : list (K * V) * bool :=
  match o with
  | OpInsert key value => (put compare key value l, negb (has compare key l))
  | OpRemove key => (drop_key compare key l, has compare key l)
  end.

(** The trees that calls make from a new one, with the operations behind them. *)
Inductive reached : AVL K V → list op → Prop :=
  | reached_new avl : avl_new = Ok avl → reached avl []
  | reached_step avl os o b avl' : reached avl os → step avl o b avl' → reached avl' (os ++ [o]).

Definition map_of (os : list op) : list (K * V) := foldl (λ l o, (map_step l o).1) [] os.

Lemma step_wf avl o : wf avl →
  ∃ avl', (∀ b a, step avl o b a ↔ b = (map_step (elements (avl_root avl)) o).2 ∧ a = avl') ∧ wf avl' ∧
    elements (avl_root avl') = (map_step (elements (avl_root avl)) o).1.
Proof.
  intros Hw. destruct o as [key value|key]; cbn [map_step fst snd].
  - destruct (insert_wf avl key value Hw) as (avl' & E & Hw' & He). exists avl'. split; [|done]. intros b a. split.
    + intros Hst. inversion Hst as [? ? ? ? ? E'|? ? ? ? E']; subst. rewrite E in E'. by injection E' as -> ->.
    + intros [-> ->]. by constructor.
  - destruct (remove_wf avl key Hw) as (avl' & E & Hw' & He). exists avl'. split; [|done]. intros b a. split.
    + intros Hst. inversion Hst as [? ? ? ? ? E'|? ? ? ? E']; subst. rewrite E in E'. by injection E' as -> ->.
    + intros [-> ->]. by constructor.
Qed.

Lemma reached_wf avl os : reached avl os → wf avl ∧ elements (avl_root avl) = map_of os.
Proof.
  induction 1 as [avl E|avl os o b avl' _ [Hw He] Hs].
  - unfold avl_new in E. rewrite alloc_total in E. injection E as <-. split; [|done]. split; [by exists 0; constructor|constructor|done].
  - destruct (step_wf avl o Hw) as (a & Ha & Hwa & Hea). apply Ha in Hs as [_ ->]. split; [done|].
    unfold map_of in *. rewrite foldl_app. cbn [foldl]. by rewrite <- He.
Qed.

(** C12: A tree that any sequence of insertions and removals made from a new one
    implements the abstract map of that sequence: its pairs in order are those of the
    map, every lookup finds the value of the map, the count is the number of pairs,
    and each further call returns, has exactly one outcome and reports what the map
    says about the key. *)
Theorem avl_refines_map avl os : reached avl os → zlen (map_of os) < 2 ^ 64 →
  elements (avl_root avl) = map_of os ∧
  (∀ key, avl_lookup compare avl key = get compare key (map_of os)) ∧
  avl_count avl = zlen (map_of os) ∧
  (∀ o, ∃ avl', ∀ b a, step avl o b a ↔ b = (map_step (map_of os) o).2 ∧ a = avl').
Proof.
  intros Hr Hs. destruct (reached_wf avl os Hr) as [Hw He]. rewrite <- He in *. split; [done|]. split; [|split].
  - intros key. apply lookup_ok, Hw.
  - unfold avl_count. destruct Hw as [_ _ ->]. unfold u64. apply Z.mod_small. pose proof (zlen_nonneg (elements (avl_root avl))). lia.
  - intros o. destruct (step_wf avl o Hw) as (avl' & Ha & _). by exists avl'.
Qed.

(** C13: The invariants that [avl_check_invariants] tests hold after every sequence of
    calls, as avl.h says (this function will always return true), and the iterators
    visit the pairs of the map from the least key to the greatest or back, each
    once, ending without ever using more of their stack than there is. *)
Theorem avl_always_true avl os {S R} (body : K → V → S → S + R) s : reached avl os → zlen (map_of os) < 2 ^ 64 →
  avl_check_invariants compare avl = Ok true ∧
  avl_traverse avl 0 body s = Ok (over body (map_of os) s) ∧
  avl_traverse avl 1 body s = Ok (over body (reverse (map_of os)) s).
Proof.
  intros Hr Hs. destruct (reached_wf avl os Hr) as [Hw He]. rewrite <- He in Hs |- *.
  destruct (wf_balanced _ Hw) as [h Hb]. pose proof (balanced_low _ _ Hb Hs) as Hl. rewrite (balanced_hgt _ _ Hb) in Hl. split.
  - destruct (check_wf avl Hs) as (b & -> & Hcb). by rewrite (proj2 Hcb Hw).
  - rewrite !(traverse_ok avl) by first [done|by left|by right]. by rewrite walk_forward, walk_backward.
Qed.
End maps.

(** ** A tree of integers *)
Section witnesses.
#[local] Instance avl_alloc : Allocator := λ _, true.
#[local] Instance avl_alloc_total : AllocTotal.
Proof. done. Qed.

Definition sample_ops : list (op (K := Z) (V := bool)) :=
  [OpInsert 5 true; OpInsert 3 false; OpInsert 1 true; OpInsert 3 true; OpRemove 5; OpInsert 9 false].

(** Running operations. *)
Definition run_op (avl : AVL Z bool) (o : op) : res (AVL Z bool * bool) :=
  match o with OpInsert k v => avl_insert order_scalar avl k v | OpRemove k => avl_remove order_scalar avl k end.
Definition run_ops (os : list (op (K := Z) (V := bool))) : res (AVL Z bool) :=
  a ← avl_new; mfold (λ o a, '(a, _) ← run_op a o; Ok a) os a.

Lemma run_reached os avl : run_ops os = Ok avl → reached order_scalar avl os.
Proof.
  revert avl. induction os as [|o os IH] using rev_ind; intros avl Hr; unfold run_ops in *.
  - by constructor.
  - destruct avl_new as [a0|] eqn:E0; [|done]. cbn [mbind res_bind] in *. rewrite mfold_app in Hr.
    destruct (mfold _ os a0) as [a1|] eqn:E1; [|done]. cbn [mbind res_bind mfold] in Hr. specialize (IH a1 eq_refl).
    destruct (run_op a1 o) as [[a2 b]|] eqn:E2; [|done]. cbn [mbind res_bind] in Hr. injection Hr as ->.
    apply (reached_step order_scalar a1 os o b avl IH). destruct o; by constructor.
Qed.

Definition sample_avl : AVL Z bool :=
  mk_AVL (Node (Node Leaf 1 true 0 Leaf) 3 true 0 (Node Leaf 9 false 0 Leaf)) 3.

Lemma sample_reached : reached order_scalar sample_avl sample_ops.
Proof. apply run_reached. by vm_compute. Qed.

Lemma avl_check_exact_witness : ∃ b, avl_check_invariants order_scalar sample_avl = Ok b ∧ (b = true ↔ wf order_scalar sample_avl).
Proof. apply (avl_check_exact order_scalar sample_avl). by vm_compute. Defined.

Lemma avl_refines_map_witness :
  elements (avl_root sample_avl) = [(1, true); (3, true); (9, false)] ∧
  (∀ key, avl_lookup order_scalar sample_avl key = get order_scalar key [(1, true); (3, true); (9, false)]) ∧
  avl_count sample_avl = 3 ∧
  (∀ o, ∃ avl', ∀ b a, step order_scalar sample_avl o b a ↔ b = (map_step order_scalar [(1, true); (3, true); (9, false)] o).2 ∧ a = avl').
Proof. apply (avl_refines_map order_scalar sample_avl sample_ops sample_reached). by vm_compute. Defined.

(** The sum of the keys. *)
Lemma avl_always_true_witness :
  avl_check_invariants order_scalar sample_avl = Ok true ∧
  avl_traverse sample_avl 0 (λ k _ s, @inl Z unit (k + s)) 0 = Ok (inl 13) ∧
  avl_traverse sample_avl 1 (λ k _ s, @inl Z unit (k + s)) 0 = Ok (inl 13).
Proof. apply (avl_always_true order_scalar sample_avl sample_ops (λ k _ s, inl (k + s)) 0 sample_reached). by vm_compute. Defined.
End witnesses.
