(* ===== verification/Base64.v ===== *)
(** * Base 64 (ccan/base64)

    The maps between six-bit values and letters, the encoder, the decoder and their
    bounds.  A character is its byte, 0 to 255; [s8] reads it as the signed [char]
    of the target.  [dest] and [src] are arrays with the offset the pointer has in
    them; [errno] is a value that the functions take and return. *)
From S2P Require Import Prelude.
From S2P Require Import CString.
#[local] Open Scope Z_scope.

Definition s8 (z : Z) : Z := (z + 2 ^ 7) mod 2 ^ 8 - 2 ^ 7.
(** The values of [errno]. *)
Definition EDOM : Z := 33.
Definition EINVAL : Z := 22.
Definition EOVERFLOW : Z := 75.

(** [memcpy(.., &src[off], n)]: the bytes it reads. *)
Definition slice (src : list Z) (off n : Z) : res (list Z) :=
  if bool_decide (0 ≤ off ∧ 0 ≤ n ∧ off + n ≤ zlen src)
  then Ok (take (Z.to_nat n) (drop (Z.to_nat off) src)) else Err EOob.

(** [memset(&buf[off], c, n)] *)
Definition memset (buf : list Z) (off c n : Z) : res (list Z) :=
  when negb (bool_decide (0 ≤ off ∧ 0 ≤ n ∧ off + n ≤ zlen buf)) throw EOob;
  put buf (Z.to_nat off) (replicate (Z.to_nat n) c).

(** ** Maps *)
Record base64_maps_t := mk_maps { encode_map : list Z; decode_map : list Z }.

Definition sixbit_to_b64 (maps : base64_maps_t) (sixbit : Z) : res Z :=
  _ ← assert_ (sixbit <=? 63);
  aget (encode_map maps) (u8 sixbit).

(** The value, and [errno] behind the call. *)
Definition sixbit_from_b64 (maps : base64_maps_t) (errno b64letter : Z) : res (Z * Z) :=
  ret ← aget (decode_map maps) (u8 b64letter);
  if ret =? s8 0xff then Ok (-1, EDOM) else Ok (ret, errno).

Definition base64_char_in_alphabet (maps : base64_maps_t) (b64char : Z) : res bool :=
  ret ← aget (decode_map maps) (u8 b64char);
  Ok (negb (ret =? s8 0xff)).

Definition base64_init_maps (src : list Z) : res base64_maps_t :=
  enc ← slice src 0 64;
  dec ← mfor 0 64 (λ i dec, c ← aget src i; aset dec (u8 c) (s8 i)) (replicate 256 (s8 0xff));
  Ok (mk_maps enc dec).

(** ** Encoding *)
Definition base64_encoded_length (srclen : Z) : Z := u64 (u64 (srclen + 2) / 3 * 4).

Definition base64_encode_triplet_using_maps (maps : base64_maps_t) (dest : list Z) (doff : Z)
    (src : list Z) (soff : Z) : res (list Z) :=
  a ← aget src soff; b ← aget src (soff + 1); c ← aget src (soff + 2);
  let a := s8 a in let b := s8 b in let c := s8 c in
  d ← sixbit_to_b64 maps (u8 (Z.shiftr (Z.land a 0xfc) 2));
  dest ← aset dest doff d;
  d ← sixbit_to_b64 maps (u8 (Z.lor (Z.shiftl (Z.land a 0x3) 4) (Z.shiftr (Z.land b 0xf0) 4)));
  dest ← aset dest (doff + 1) d;
  d ← sixbit_to_b64 maps (u8 (Z.lor (Z.shiftr (Z.land c 0xc0) 6) (Z.shiftl (Z.land b 0xf) 2)));
  dest ← aset dest (doff + 2) d;
  d ← sixbit_to_b64 maps (u8 (Z.land c 0x3f));
  aset dest (doff + 3) d.

Definition base64_encode_tail_using_maps (maps : base64_maps_t) (dest : list Z) (doff : Z)
    (src : list Z) (soff srclen : Z) : res (list Z) :=
  let longsrc := [0; 0; 0] in
  _ ← assert_ (srclen <=? 3);
  bytes ← slice src soff srclen;
  longsrc ← put longsrc 0 bytes;
  dest ← base64_encode_triplet_using_maps maps dest doff longsrc 0;
  memset dest (doff + 1 + srclen) 61 (u64 (3 - srclen)).

(** The loop over the triplets: [dest] and both offsets behind it. *)
Fixpoint encode_loop (fuel : nat) (maps : base64_maps_t) (dest : list Z) (dest_offset : Z)
    (src : list Z) (srclen src_offset : Z) : res (list Z * Z * Z) :=
  match fuel with
  | O => Err EFuel
  | S fuel =>
    if 3 <=? u64 (srclen - src_offset) then
      dest ← base64_encode_triplet_using_maps maps dest dest_offset src src_offset;
      encode_loop fuel maps dest (u64 (dest_offset + 4)) src srclen (u64 (src_offset + 3))
    else Ok (dest, dest_offset, src_offset)
  end.

(** [dest], the value returned and [errno] behind the call. *)
Definition base64_encode_using_maps (maps : base64_maps_t) (errno : Z) (dest : list Z) (destlen : Z)
    (src : list Z) (srclen : Z) : res (list Z * Z * Z) :=
  if destlen <? base64_encoded_length srclen then Ok (dest, -1, EOVERFLOW) else
  '(dest, dest_offset, src_offset) ← encode_loop (S (Z.to_nat srclen)) maps dest 0 src srclen 0;
  '(dest, dest_offset) ← (if src_offset <? srclen then
      dest ← base64_encode_tail_using_maps maps dest dest_offset src src_offset (u64 (srclen - src_offset));
      Ok (dest, u64 (dest_offset + 4))
    else Ok (dest, dest_offset));
  dest ← memset dest dest_offset 0 (u64 (destlen - dest_offset));
  Ok (dest, dest_offset, errno).

(** ** Decoding *)
Definition base64_decoded_length (srclen : Z) : Z := u64 (u64 (srclen + 3) / 4 * 3).

(** A negative value that is not -1 would be shifted to the left. *)
Definition base64_decode_quartet_using_maps (maps : base64_maps_t) (errno : Z) (dest : list Z) (doff : Z)
    (src : list Z) (soff : Z) : res (list Z * Z * Z) :=
  x ← aget src soff; '(a, errno) ← sixbit_from_b64 maps errno x;
  x ← aget src (soff + 1); '(b, errno) ← sixbit_from_b64 maps errno x;
  x ← aget src (soff + 2); '(c, errno) ← sixbit_from_b64 maps errno x;
  x ← aget src (soff + 3); '(d, errno) ← sixbit_from_b64 maps errno x;
  if (a =? -1) || (b =? -1) || (c =? -1) || (d =? -1) then Ok (dest, -1, errno) else
  when a <? 0 throw EShift;
  dest ← aset dest doff (u8 (Z.lor (Z.shiftl a 2) (Z.shiftr b 4)));
  dest ← aset dest (doff + 1) (u8 (Z.lor (Z.shiftl (Z.land b 0xf) 4) (Z.shiftr c 2)));
  dest ← aset dest (doff + 2) (u8 (Z.lor (Z.shiftl (Z.land c 0x3) 6) d));
  Ok (dest, 0, errno).

(** The loop that throws away padding; [longsrc], which is not initialised, is then
    written as a whole. *)
Fixpoint strip_loop (fuel : nat) (src : list Z) (soff insize : Z) : res Z :=
  match fuel with
  | O => Err EFuel
  | S fuel =>
    if insize =? 0 then Ok insize else
    c ← aget src (soff + (insize - 1));
    if c =? 61 then strip_loop fuel src soff (insize - 1) else Ok insize
  end.

Definition base64_decode_tail_using_maps (maps : base64_maps_t) (errno : Z) (dest : list Z) (doff : Z)
    (src : list Z) (soff srclen : Z) : res (list Z * Z * Z) :=
  insize ← strip_loop (S (Z.to_nat srclen)) src soff srclen;
  if insize =? 0 then Ok (dest, 0, errno) else
  if insize =? 1 then Ok (dest, -1, EINVAL) else
  bytes ← slice src soff insize;
  longsrc ← put (replicate 4 0) 0 bytes;
  longsrc ← memset longsrc insize 65 (u64 (4 - insize));
  '(dest, quartet_result, errno) ← base64_decode_quartet_using_maps maps errno dest doff longsrc 0;
  if quartet_result =? -1 then Ok (dest, -1, errno) else Ok (dest, s32 (insize - 1), errno).

(** The loop over the quartets: [dest], [dest_offset], [i], and whether it went through
    (else the function returns -1), with [errno]. *)
Fixpoint decode_loop (fuel : nat) (maps : base64_maps_t) (errno : Z) (dest : list Z) (dest_offset : Z)
    (src : list Z) (srclen i : Z) : res (list Z * Z * Z * bool * Z) :=
  match fuel with
  | O => Err EFuel
  | S fuel =>
    if 4 <? u64 (srclen - i) then
      '(dest, ret, errno) ← base64_decode_quartet_using_maps maps errno dest dest_offset src i;
      if ret =? -1 then Ok (dest, dest_offset, i, false, errno)
      else decode_loop fuel maps errno dest (dest_offset + 3) src srclen (i + 4)
    else Ok (dest, dest_offset, i, true, errno)
  end.

Definition base64_decode_using_maps (maps : base64_maps_t) (errno : Z) (dest : list Z) (destlen : Z)
    (src : list Z) (srclen : Z) : res (list Z * Z * Z) :=
  if destlen <? base64_decoded_length srclen then Ok (dest, -1, EOVERFLOW) else
  '(dest, dest_offset, i, through, errno) ← decode_loop (S (Z.to_nat srclen)) maps errno dest 0 src srclen 0;
  if negb through then Ok (dest, -1, errno) else
  '(dest, more, errno) ← base64_decode_tail_using_maps maps errno dest dest_offset src i (u64 (srclen - i));
  let more := u64 more in
  if more =? u64 (-1) then Ok (dest, -1, errno) else
  let dest_offset := dest_offset + more in
  dest ← memset dest dest_offset 0 (u64 (destlen - dest_offset));
  Ok (dest, dest_offset, errno).

(** ** RFC 4648 *)
Definition rfc4648_alphabet : list Z :=
  seqZ 65 26 ++ seqZ 97 26 ++ seqZ 48 10 ++ [43; 47].

Definition base64_maps_rfc4648 : base64_maps_t := mk_maps rfc4648_alphabet
  (let ff n := replicate n (s8 0xff) in
   ff 43%nat ++ [0x3e] ++ ff 3%nat ++ [0x3f; 0x34; 0x35; 0x36; 0x37; 0x38; 0x39; 0x3a; 0x3b; 0x3c; 0x3d]
   ++ ff 7%nat ++ [0x00; 0x01; 0x02; 0x03; 0x04; 0x05; 0x06; 0x07; 0x08; 0x09; 0x0a; 0x0b; 0x0c; 0x0d; 0x0e;
                   0x0f; 0x10; 0x11; 0x12; 0x13; 0x14; 0x15; 0x16; 0x17; 0x18; 0x19]
   ++ ff 6%nat ++ [0x1a; 0x1b; 0x1c; 0x1d; 0x1e; 0x1f; 0x20; 0x21; 0x22; 0x23; 0x24; 0x25; 0x26; 0x27; 0x28;
                   0x29; 0x2a; 0x2b; 0x2c; 0x2d; 0x2e; 0x2f; 0x30; 0x31; 0x32; 0x33]
   ++ ff 133%nat).

Definition base64_encode := base64_encode_using_maps base64_maps_rfc4648.
Definition base64_encode_triplet := base64_encode_triplet_using_maps base64_maps_rfc4648.
Definition base64_encode_tail := base64_encode_tail_using_maps base64_maps_rfc4648.
Definition base64_decode := base64_decode_using_maps base64_maps_rfc4648.
Definition base64_decode_quartet := base64_decode_quartet_using_maps base64_maps_rfc4648.
Definition base64_decode_tail := base64_decode_tail_using_maps base64_maps_rfc4648.

Example init_rfc4648 : base64_init_maps rfc4648_alphabet = Ok base64_maps_rfc4648.
Proof. vm_compute. reflexivity. Qed.
