(* ===== verification/Base64Spec.v ===== *)
(** * What base 64 means (RFC 4648), and the steps of the coder

    The text of a byte string and the bytes of a text, by the arithmetic of 24-bit
    groups, for any alphabet; the interface [MapsFor] between an alphabet and its
    maps with its two implementations; one triplet, one quartet and one tail of the
    program against the specification. *)
From S2P Require Import Prelude.
From S2P Require Import CString.
From S2P Require Import Base64.
#[local] Open Scope Z_scope.

Definition is_byte (c : Z) : Prop := 0 ≤ c < 256.

(** ** The specification *)
Section spec.
Context (al : list Z).

Definition letter (i : Z) : Z := al !!! Z.to_nat i.
Definition digit (c : Z) : option Z := (λ p, Z.of_nat p.1) <$> list_find (c =.) al.

(** Four letters for a group of 24 bits. *)
Definition letters (n : Z) : list Z :=
  [letter (n / 2 ^ 18); letter (n / 2 ^ 12 mod 64); letter (n / 2 ^ 6 mod 64); letter (n mod 64)].

Fixpoint b64_text (src : list Z) : list Z :=
  match src with
  | a :: b :: c :: src => letters (a * 2 ^ 16 + b * 2 ^ 8 + c) ++ b64_text src
  | [a; b] => take 3 (letters (a * 2 ^ 16 + b * 2 ^ 8)) ++ [61]
  | [a] => take 2 (letters (a * 2 ^ 16)) ++ [61; 61]
  | [] => []
  end.

(** A group of letters as a number. *)
Fixpoint number (acc : Z) (cs : list Z) : option Z :=
  match cs with
  | [] => Some acc
  | c :: cs => d ← digit c; number (acc * 64 + d) cs
  end.

Definition bytes_of (n : Z) : list Z := [n / 2 ^ 16; n / 2 ^ 8 mod 256; n mod 256].

(** The text without the padding at its end. *)
Fixpoint unpad (t : list Z) : list Z :=
  match t with
  | [] => []
  | c :: t => match unpad t with [] => if c =? 61 then [] else [c] | u => c :: u end
  end.

(** The last group: the missing letters count as zeros, and the byte they would
    complete is dropped. *)
Definition tail_value (t : list Z) : Z + list Z :=
  let u := unpad t in
  match u with
  | [] => inr []
  | [_] => inl EINVAL
  | _ => match number 0 u with
         | None => inl EDOM
         | Some n => inr (take (length u - 1) (bytes_of (n * 64 ^ (4 - zlen u))))
         end
  end.

(** The bytes of a text, or the error. *)
Fixpoint b64_value (t : list Z) : Z + list Z :=
  match t with
  | x :: y :: z :: w :: ((_ :: _) as rest) =>
    match number 0 [x; y; z; w] with
    | None => inl EDOM
    | Some n => match b64_value rest with inl e => inl e | inr bs => inr (bytes_of n ++ bs) end
    end
  | _ => tail_value t
  end.

Lemma value_group x y z w v t :
  b64_value (x :: y :: z :: w :: v :: t)
  = match number 0 [x; y; z; w] with
    | None => inl EDOM
    | Some n => match b64_value (v :: t) with inl e => inl e | inr bs => inr (bytes_of n ++ bs) end
    end.
Proof. done. Qed.
End spec.

(** Induction over the groups of three bytes, and over the groups of four letters
    that more letters follow. *)
Lemma triplets_ind (P : list Z → Prop) :
  (∀ l, (length l < 3)%nat → P l) → (∀ a b c l, P l → P (a :: b :: c :: l)) → ∀ l, P l.
Proof.
  intros H0 H3. fix IH 1. intros [|a [|b [|c l]]]; [apply H0; cbn [length]; lia..|]. apply H3, IH.
Qed.

Lemma quartets_ind (P : list Z → Prop) :
  (∀ l, (length l ≤ 4)%nat → P l) → (∀ x y z w v l, P (v :: l) → P (x :: y :: z :: w :: v :: l)) → ∀ l, P l.
Proof.
  intros H0 H4 l. induction (Nat.lt_wf_0_projected length l) as [l _ IH].
  destruct l as [|x [|y [|z [|w [|v l]]]]]; [apply H0; cbn [length]; lia..|]. apply H4, IH. cbn [length]. lia.
Qed.

(** ** Alphabets and their maps *)
Class MapsFor (al : list Z) (m : base64_maps_t) : Prop := {
  mf_length : length al = 64%nat;
  mf_bytes : Forall is_byte al;
  mf_encode : encode_map m = al;
  mf_decode c : is_byte c → aget (decode_map m) c = Ok (default (-1) (digit al c));
}.

Lemma digit_range al c d : length al = 64%nat → digit al c = Some d → 0 ≤ d < 64.
Proof.
  unfold digit. intros Hl Hd. apply fmap_Some in Hd as ([k x] & Hk & ->). apply list_find_Some in Hk as (Hk & _).
  apply lookup_lt_Some in Hk. cbn [fst]. lia.
Qed.

Lemma digit_Some al c d : NoDup al → digit al c = Some d ↔ 0 ≤ d ∧ al !! Z.to_nat d = Some c.
Proof.
  intros Hn. unfold digit. rewrite fmap_Some. split.
  - intros ([k x] & Hk & ->). apply list_find_Some in Hk as (Hk & <- & _). cbn [fst]. by rewrite Nat2Z.id; split; [lia|].
  - intros [Hd Hk]. exists (Z.to_nat d, c). cbn [fst]. split; [|lia]. apply list_find_Some. split_and!; [done..|].
    intros j y Hj Hlt E. subst y. pose proof (NoDup_lookup _ _ _ _ Hn Hj Hk). lia.
Qed.

Lemma digit_None al c : digit al c = None ↔ c ∉ al.
Proof.
  unfold digit. rewrite fmap_None, list_find_None, Forall_forall. split.
  - intros H Hc. by apply (H c).
  - intros H x Hx E. by subst x.
Qed.

Lemma digit_letter al i : NoDup al → length al = 64%nat → 0 ≤ i < 64 → digit al (letter al i) = Some i.
Proof. intros Hn Hl Hi. apply digit_Some; [done|]. split; [lia|]. apply list_lookup_lookup_total_lt. lia. Qed.

Lemma letter_elem al i : length al = 64%nat → 0 ≤ i < 64 → letter al i ∈ al.
Proof. intros Hl Hi. apply (list_elem_of_lookup_2 _ (Z.to_nat i)), list_lookup_lookup_total_lt. lia. Qed.

(** One more letter in the table. *)
Lemma digit_snoc al x c : NoDup (al ++ [x]) → digit (al ++ [x]) c = if decide (c = x) then Some (zlen al) else digit al c.
Proof.
  intros Hn. assert (Hn' := Hn). apply NoDup_app in Hn as (Hal & Hx & _). case_decide as E.
  - subst c. apply digit_Some; [done|]. unfold zlen. split; [lia|]. rewrite Nat2Z.id. by apply list_lookup_middle.
  - destruct (digit al c) as [d|] eqn:Ed.
    + apply digit_Some in Ed as [Hd Hk]; [|done]. apply digit_Some; [done|]. split; [done|]. by apply lookup_app_l_Some.
    + apply digit_None in Ed. apply digit_None. set_solver.
Qed.

#[local] Instance is_byte_dec c : Decision (is_byte c) := decide (0 ≤ c < 256).

Lemma u8_byte c : is_byte c → u8 c = c.
Proof. intros Hc. unfold u8. apply Z.mod_small. exact Hc. Qed.

Lemma u64_id n : 0 ≤ n < 2 ^ 64 → u64 n = n.
Proof. apply Z.mod_small. Qed.

(** [base64_init_maps] makes the maps of its alphabet. *)
Lemma init_maps_for al :
  NoDup al → length al = 64%nat → Forall is_byte al → ∃ m, base64_init_maps al = Ok m ∧ MapsFor al m.
Proof.
  intros Hn Hl Hb. unfold base64_init_maps, slice. rewrite bool_decide_true by (unfold zlen; lia). cbn [mbind res_bind].
  rewrite drop_0, take_ge by lia. unfold mfor.
  destruct (mfold_inv (λ done dec, length dec = 256%nat ∧ ∀ c, is_byte c →
      dec !! Z.to_nat c = Some (default (-1) (digit (take (length done) al) c)))
      (λ i dec, c ← aget al i; aset dec (u8 c) (s8 i)) (seqZ 0 (64 - 0)) (replicate 256 (s8 255)))
    as (dec & E & Hlen & Hdec).
  - split; [done|]. intros c Hc. change (s8 255) with (-1). rewrite lookup_replicate_2 by (unfold is_byte in Hc; lia). done.
  - intros pre i dec (Hlen & Hdec) [rest Hs].
    assert (i = zlen pre ∧ 0 ≤ i < 64) as [Hi Hr].
    { assert (Hk : seqZ 0 (64 - 0) !! length pre = Some i) by (rewrite Hs; by apply list_lookup_middle).
      apply lookup_seqZ in Hk. unfold zlen. lia. }
    destruct (lookup_lt_is_Some_2 al (Z.to_nat i)) as [x Hx]; [lia|].
    assert (Hxb : is_byte x) by (by eapply Forall_lookup_1).
    rewrite (aget_lookup al i x) by (lia || done). cbn [mbind res_bind]. rewrite u8_byte by done.
    rewrite aset_in by (unfold zlen, is_byte in *; lia). eexists. split; [done|].
    rewrite length_insert. split; [done|]. intros c Hc. rewrite length_app. cbn [length].
    replace (length pre + 1)%nat with (S (length pre)) by lia. unfold zlen in Hi.
    rewrite (take_S_r al _ x) by (by rewrite Hi, Nat2Z.id in Hx). rewrite digit_snoc.
    2: { rewrite <- take_S_r with (x := x) by (by rewrite Hi, Nat2Z.id in Hx). apply (sublist_NoDup _ al); [done|]. apply sublist_take. }
    case_decide as Ec; [subst c|].
    + rewrite list_lookup_insert_eq by (unfold is_byte in *; lia). cbn [default from_option]. unfold zlen. rewrite length_take, Nat.min_l by lia.
      f_equal. unfold s8. rewrite Z.mod_small by lia. cbn. lia.
    + rewrite list_lookup_insert_ne by (unfold is_byte in *; lia). by apply Hdec.
  - cbn [mbind res_bind] in *. rewrite E. eexists. split; [done|]. split; try done. intros c Hc. cbn [decode_map].
    apply aget_lookup; [apply Hc|]. rewrite Hdec by done. rewrite length_seqZ. by rewrite take_ge by (rewrite Hl; lia).
Qed.

Lemma rfc4648_nodup : NoDup rfc4648_alphabet.
Proof. apply (bool_decide_unpack _). vm_compute. exact I. Qed.

#[global] Instance rfc4648_maps : MapsFor rfc4648_alphabet base64_maps_rfc4648.
Proof.
  destruct (init_maps_for rfc4648_alphabet) as (m & E & Hm); [apply rfc4648_nodup|done|by apply (bool_decide_unpack _)|].
  rewrite init_rfc4648 in E. by injection E as <-.
Qed.

(** ** Cells behind a known part of an array *)
Lemma aget_app {A} (P Q : list A) k x : 0 ≤ k → Q !! Z.to_nat k = Some x → aget (P ++ Q) (zlen P + k) = Ok x.
Proof.
  intros Hk Hx. apply aget_lookup; unfold zlen; [lia|]. rewrite lookup_app_r by lia.
  by replace (Z.to_nat (Z.of_nat (length P) + k) - length P)%nat with (Z.to_nat k) by lia.
Qed.

Lemma aset_app {A} (P Q : list A) k x : 0 ≤ k < zlen Q → aset (P ++ Q) (zlen P + k) x = Ok (P ++ <[Z.to_nat k := x]> Q).
Proof.
  intros Hk. rewrite aset_in by (rewrite zlen_app; pose proof (zlen_nonneg P); lia). unfold zlen.
  rewrite insert_app_r_alt by lia. do 3 f_equal. lia.
Qed.

Lemma aget_here {A} (P Q : list A) x : aget (P ++ x :: Q) (zlen P) = Ok x.
Proof. rewrite <- (Z.add_0_r (zlen P)). by apply aget_app. Qed.
Lemma aset_here {A} (P Q : list A) x y : aset (P ++ x :: Q) (zlen P) y = Ok (P ++ y :: Q).
Proof. rewrite <- (Z.add_0_r (zlen P)). rewrite aset_app; [done|]. unfold zlen. cbn [length]. lia. Qed.

(** The reads and writes of one group. *)
Ltac group :=
  repeat (first [ rewrite aget_here | rewrite aset_here
                | erewrite aget_app by (first [lia | reflexivity])
                | rewrite aset_app by (unfold zlen; rewrite ?length_insert; cbn [length]; lia) ]; cbn [mbind res_bind]).

Lemma memset_app (P Q : list Z) c n :
  0 ≤ n ≤ zlen Q → memset (P ++ Q) (zlen P) c n = Ok (P ++ replicate (Z.to_nat n) c ++ drop (Z.to_nat n) Q).
Proof.
  intros Hn. unfold memset. rewrite bool_decide_true by (rewrite zlen_app; pose proof (zlen_nonneg P); lia). cbn [negb].
  rewrite put_Ok by (rewrite length_replicate, length_app; unfold zlen in *; lia).
  unfold zlen. rewrite Nat2Z.id, length_replicate, take_app_length, drop_app_ge by lia. do 4 f_equal. lia.
Qed.

Lemma slice_mid (S1 S2 S3 : list Z) : slice (S1 ++ S2 ++ S3) (zlen S1) (zlen S2) = Ok S2.
Proof.
  unfold slice. rewrite bool_decide_true by (rewrite !zlen_app; unfold zlen; lia). f_equal. unfold zlen.
  by rewrite !Nat2Z.id, drop_app_length, take_app_length.
Qed.

(** ** The bits of a group *)
Definition bytes2 (P : Z → Z → bool) (n m : Z) : bool := forallb (λ a, forallb (P a) (seqZ 0 m)) (seqZ 0 n).
Lemma bytes2_spec P n m a b : bytes2 P n m = true → 0 ≤ a < n → 0 ≤ b < m → P a b = true.
Proof. intros H Ha Hb. apply (forallb_seqZ (P a) m); [|done]. by apply (forallb_seqZ (λ a, forallb (P a) (seqZ 0 m)) n). Qed.

Lemma enc_bits1 a : is_byte a → u8 (Z.shiftr (Z.land (s8 a) 0xfc) 2) = a / 4.
Proof. intros Ha. apply Z.eqb_eq. apply (forallb_seqZ (λ a, u8 (Z.shiftr (Z.land (s8 a) 0xfc) 2) =? a / 4) 256); [by vm_compute|exact Ha]. Qed.
Lemma enc_bits2 a b : is_byte a → is_byte b →
  u8 (Z.lor (Z.shiftl (Z.land (s8 a) 0x3) 4) (Z.shiftr (Z.land (s8 b) 0xf0) 4)) = a mod 4 * 16 + b / 16.
Proof.
  intros Ha Hb. apply Z.eqb_eq.
  apply (bytes2_spec (λ a b, u8 (Z.lor (Z.shiftl (Z.land (s8 a) 0x3) 4) (Z.shiftr (Z.land (s8 b) 0xf0) 4)) =? a mod 4 * 16 + b / 16) 256 256);
    [by vm_compute|done..].
Qed.
Lemma enc_bits3 b c : is_byte b → is_byte c →
  u8 (Z.lor (Z.shiftr (Z.land (s8 c) 0xc0) 6) (Z.shiftl (Z.land (s8 b) 0xf) 2)) = b mod 16 * 4 + c / 64.
Proof.
  intros Hb Hc. apply Z.eqb_eq.
  apply (bytes2_spec (λ b c, u8 (Z.lor (Z.shiftr (Z.land (s8 c) 0xc0) 6) (Z.shiftl (Z.land (s8 b) 0xf) 2)) =? b mod 16 * 4 + c / 64) 256 256);
    [by vm_compute|done..].
Qed.
Lemma enc_bits4 c : is_byte c → u8 (Z.land (s8 c) 0x3f) = c mod 64.
Proof. intros Hc. apply Z.eqb_eq. apply (forallb_seqZ (λ c, u8 (Z.land (s8 c) 0x3f) =? c mod 64) 256); [by vm_compute|exact Hc]. Qed.

Lemma dec_bits1 a b : 0 ≤ a < 64 → 0 ≤ b < 64 → u8 (Z.lor (Z.shiftl a 2) (Z.shiftr b 4)) = a * 4 + b / 16.
Proof.
  intros Ha Hb. apply Z.eqb_eq. apply (bytes2_spec (λ a b, u8 (Z.lor (Z.shiftl a 2) (Z.shiftr b 4)) =? a * 4 + b / 16) 64 64); [by vm_compute|done..].
Qed.
Lemma dec_bits2 b c : 0 ≤ b < 64 → 0 ≤ c < 64 → u8 (Z.lor (Z.shiftl (Z.land b 0xf) 4) (Z.shiftr c 2)) = b mod 16 * 16 + c / 4.
Proof.
  intros Hb Hc. apply Z.eqb_eq.
  apply (bytes2_spec (λ b c, u8 (Z.lor (Z.shiftl (Z.land b 0xf) 4) (Z.shiftr c 2)) =? b mod 16 * 16 + c / 4) 64 64); [by vm_compute|done..].
Qed.
Lemma dec_bits3 c d : 0 ≤ c < 64 → 0 ≤ d < 64 → u8 (Z.lor (Z.shiftl (Z.land c 0x3) 6) d) = c mod 4 * 64 + d.
Proof.
  intros Hc Hd. apply Z.eqb_eq. apply (bytes2_spec (λ c d, u8 (Z.lor (Z.shiftl (Z.land c 0x3) 6) d) =? c mod 4 * 64 + d) 64 64); [by vm_compute|done..].
Qed.

Ltac euclid := Z.to_euclidean_division_equations; lia.

(** The six-bit parts of a group. *)
Lemma letters_parts al a b c : is_byte a → is_byte b → is_byte c →
  letters al (a * 2 ^ 16 + b * 2 ^ 8 + c)
  = [letter al (a / 4); letter al (a mod 4 * 16 + b / 16); letter al (b mod 16 * 4 + c / 64); letter al (c mod 64)].
Proof. unfold is_byte. intros Ha Hb Hc. unfold letters.
  change (2 ^ 18) with 262144. change (2 ^ 16) with 65536. change (2 ^ 12) with 4096. change (2 ^ 8) with 256. change (2 ^ 6) with 64.
  set (n := a * 65536 + b * 256 + c).
  replace (n / 262144) with (a / 4) by euclid. replace (n / 4096 mod 64) with (a mod 4 * 16 + b / 16) by euclid.
  replace (n / 64 mod 64) with (b mod 16 * 4 + c / 64) by euclid. by replace (n mod 64) with (c mod 64) by euclid.
Qed.
