(* ===== verification/Base64Code.v ===== *)
(** * The encoder and the decoder (ccan/base64)

    One triplet, one tail, and the whole loop of [base64_encode_using_maps] against
    [b64_text], in a buffer with room for the text; then the decoder, on quartets, tails and
    whole texts. *)
From S2P Require Import Prelude.
From S2P Require Import CString.
From S2P Require Import Base64.
From S2P Require Import Base64Spec.
#[local] Open Scope Z_scope.

Section enc.
Context (al : list Z) (m : base64_maps_t) `{!MapsFor al m}.

Lemma sixbit_to_b64_ok i : 0 ≤ i < 64 → sixbit_to_b64 m i = Ok (letter al i).
Proof.
  intros Hi. unfold sixbit_to_b64, assert_. replace (i <=? 63) with true by lia. cbn [mbind res_bind].
  rewrite mf_encode. rewrite u8_byte by (unfold is_byte; lia). apply aget_lookup; [lia|].
  apply list_lookup_lookup_total_lt. rewrite (mf_length (m := m)). lia.
Qed.

Lemma triplet_ok P w x y z D S1 a b c S2 : is_byte a → is_byte b → is_byte c →
  base64_encode_triplet_using_maps m (P ++ w :: x :: y :: z :: D) (zlen P) (S1 ++ a :: b :: c :: S2) (zlen S1)
  = Ok (P ++ letters al (a * 2 ^ 16 + b * 2 ^ 8 + c) ++ D).
Proof.
  intros Ha Hb Hc. unfold base64_encode_triplet_using_maps. group.
  cbv zeta. rewrite enc_bits1, enc_bits2, enc_bits3, enc_bits4 by done. rewrite letters_parts by done. unfold is_byte in *.
  rewrite !sixbit_to_b64_ok by euclid. cbn [mbind res_bind]. group. done.
Qed.

Lemma letters_length n : length (letters al n) = 4%nat.
Proof. done. Qed.

(** A text that begins with the letters of a group, cut behind [k] of them. *)
Lemma memset_letters P k n D c : (k ≤ 4)%nat →
  memset (P ++ letters al n ++ D) (zlen P + Z.of_nat k) c (4 - Z.of_nat k)
  = Ok (P ++ (take k (letters al n) ++ replicate (4 - k) c) ++ D).
Proof.
  intros Hk. rewrite <- (take_drop k (letters al n)) at 1. rewrite <- app_assoc, app_assoc.
  replace (zlen P + Z.of_nat k) with (zlen (P ++ take k (letters al n))).
  2: { rewrite zlen_app. unfold zlen. rewrite length_take, letters_length. lia. }
  assert (Hd : length (drop k (letters al n)) = (4 - k)%nat) by (rewrite length_drop, letters_length; lia).
  rewrite memset_app by (rewrite zlen_app; unfold zlen; lia).
  replace (Z.to_nat (4 - Z.of_nat k)) with (4 - k)%nat by lia. rewrite <- Hd at 2. by rewrite drop_app_length, <- !app_assoc.
Qed.

Lemma encode_tail_ok P w x y z D S1 S2 : (1 ≤ length S2 ≤ 2)%nat → Forall is_byte S2 →
  base64_encode_tail_using_maps m (P ++ w :: x :: y :: z :: D) (zlen P) (S1 ++ S2) (zlen S1) (zlen S2)
  = Ok (P ++ b64_text al S2 ++ D).
Proof.
  intros Hl Hb. unfold base64_encode_tail_using_maps, assert_.
  replace (zlen S2 <=? 3) with true by (unfold zlen; lia). cbn [mbind res_bind].
  rewrite <- (app_nil_r S2) at 1. rewrite slice_mid. cbn [mbind res_bind].
  assert (H0 : is_byte 0) by (unfold is_byte; lia).
  destruct S2 as [|a [|b [|]]]; cbn [length] in Hl; try lia; unfold put; cbn [Nat.add length Nat.leb take drop app mbind res_bind].
  - apply Forall_cons_1 in Hb as [Ha _]. pose proof (triplet_ok P w x y z D [] a 0 0 [] Ha H0 H0) as Ht. cbn [app] in Ht.
    change (zlen []) with 0 in Ht. rewrite Ht. cbn [mbind res_bind]. change (zlen [a]) with 1. change (u64 (3 - 1)) with (4 - Z.of_nat 2).
    replace (zlen P + 1 + 1) with (zlen P + Z.of_nat 2) by lia. rewrite memset_letters by lia. cbn [b64_text].
    by rewrite !Z.mul_0_l, !Z.add_0_r.
  - apply Forall_cons_1 in Hb as [Ha Hb]. apply Forall_cons_1 in Hb as [Hb _].
    pose proof (triplet_ok P w x y z D [] a b 0 [] Ha Hb H0) as Ht. cbn [app] in Ht.
    change (zlen []) with 0 in Ht. rewrite Ht. cbn [mbind res_bind]. change (zlen [a; b]) with 2. change (u64 (3 - 2)) with (4 - Z.of_nat 3).
    replace (zlen P + 1 + 2) with (zlen P + Z.of_nat 3) by lia. rewrite memset_letters by lia. cbn [b64_text]. by rewrite !Z.add_0_r.
Qed.

Lemma text_length src : zlen (b64_text al src) = (zlen src + 2) / 3 * 4.
Proof.
  induction src as [src Hs|a b c src IH] using triplets_ind.
  - destruct src as [|a [|b [|]]]; cbn [length] in Hs; try lia; reflexivity.
  - cbn [b64_text]. rewrite zlen_app, IH. change (zlen (letters al _)) with 4.
    replace (zlen (a :: b :: c :: src) + 2) with (zlen src + 2 + 1 * 3) by (unfold zlen; cbn [length]; lia).
    rewrite Z.div_add by lia. lia.
Qed.

(** The part behind the loop. *)
Definition encode_rest (src : list Z) (srclen : Z) (st : list Z * Z * Z) : res (list Z * Z) :=
  let '(dest, dest_offset, src_offset) := st in
  if src_offset <? srclen then
    dest ← base64_encode_tail_using_maps m dest dest_offset src src_offset (u64 (srclen - src_offset));
    Ok (dest, u64 (dest_offset + 4))
  else Ok (dest, dest_offset).

Lemma encode_loop_ok src2 : Forall is_byte src2 → ∀ fuel P D src1,
  (length src2 < fuel)%nat → zlen P + zlen D < 2 ^ 63 → zlen (src1 ++ src2) < 2 ^ 63 →
  zlen (b64_text al src2) ≤ zlen D →
  encode_loop fuel m (P ++ D) (zlen P) (src1 ++ src2) (zlen (src1 ++ src2)) (zlen src1)
    ≫= encode_rest (src1 ++ src2) (zlen (src1 ++ src2))
  = Ok (P ++ b64_text al src2 ++ drop (length (b64_text al src2)) D, zlen P + zlen (b64_text al src2)).
Proof.
  induction src2 as [src2 Hs|a b c src2 IH] using triplets_ind; intros Hb fuel P D src1 Hf HD HS Hroom;
    (destruct fuel as [|fuel]; [lia|]); cbn [encode_loop];
    assert (Hn := zlen_nonneg src1); assert (HnP := zlen_nonneg P); rewrite zlen_app in HS |- *; unfold u64 at 1.
  - rewrite Z.mod_small by (unfold zlen in *; lia). replace (3 <=? _) with false by (unfold zlen in *; lia).
    cbn [mbind res_bind encode_rest]. destruct (decide (src2 = [])) as [->|Hne].
    + change (zlen []) with 0. rewrite (proj2 (Z.ltb_ge _ _)) by lia. cbn [b64_text app length]. rewrite drop_0.
      change (zlen []) with 0. by rewrite Z.add_0_r.
    + assert (1 ≤ length src2 ≤ 2)%nat by (destruct src2; cbn [length] in *; done || lia).
      assert (Ht : zlen (b64_text al src2) = 4) by (rewrite text_length; unfold zlen; euclid).
      rewrite (proj2 (Z.ltb_lt _ _)) by (unfold zlen in *; lia). unfold u64. rewrite !Z.mod_small by (unfold zlen in *; lia).
      replace (zlen src1 + zlen src2 - zlen src1) with (zlen src2) by lia.
      destruct D as [|d0 [|d1 [|d2 [|d3 D]]]]; unfold zlen in Hroom, Ht; cbn [length] in Hroom; try lia.
      rewrite encode_tail_ok by done. cbn [mbind res_bind]. replace (length (b64_text al src2)) with 4%nat by lia.
      unfold zlen. by rewrite Ht.
  - assert (Hl : zlen (a :: b :: c :: src2) = zlen src2 + 3) by (unfold zlen; cbn [length]; lia). rewrite Hl in *.
    assert (Hn2 := zlen_nonneg src2). rewrite Z.mod_small by lia. replace (3 <=? _) with true by lia.
    apply Forall_cons_1 in Hb as [Ha Hb]. apply Forall_cons_1 in Hb as [Hb Hc]. apply Forall_cons_1 in Hc as [Hc Hbs].
    cbn [b64_text] in Hroom |- *. rewrite zlen_app in Hroom |- *. change (zlen (letters al _)) with 4 in *.
    assert (Hnt := zlen_nonneg (b64_text al src2)).
    destruct D as [|d0 [|d1 [|d2 [|d3 D]]]]; unfold zlen in Hroom at 2; cbn [length] in Hroom; try lia.
    rewrite triplet_ok by done. cbn [mbind res_bind].
    assert (HD' : zlen (d0 :: d1 :: d2 :: d3 :: D) = zlen D + 4) by (unfold zlen; cbn [length]; lia). rewrite HD' in *.
    specialize (IH Hbs fuel (P ++ letters al (a * 2 ^ 16 + b * 2 ^ 8 + c)) D (src1 ++ [a; b; c])).
    rewrite !zlen_app, <- !app_assoc in IH. change (zlen [a; b; c]) with 3 in IH. change (zlen (letters al _)) with 4 in IH.
    cbn [app] in IH. unfold u64. rewrite !Z.mod_small by (pose proof (zlen_nonneg D); lia).
    replace (zlen src1 + (zlen src2 + 3)) with (zlen src1 + 3 + zlen src2) by lia.
    rewrite IH by (cbn [length] in *; unfold zlen in *; lia). rewrite length_app, <- app_assoc. by rewrite (Z.add_assoc (zlen P)).
Qed.

(** A buffer that is long enough. *)
Lemma encode_ok errno src dest destlen :
  Forall is_byte src → zlen src < 2 ^ 61 → zlen dest < 2 ^ 63 →
  zlen (b64_text al src) ≤ destlen ≤ zlen dest →
  base64_encode_using_maps m errno dest destlen src (zlen src)
  = Ok (b64_text al src ++ replicate (Z.to_nat destlen - length (b64_text al src)) 0 ++ drop (Z.to_nat destlen) dest,
        zlen (b64_text al src), errno).
Proof.
  intros Hb Hs Hd Hlen. unfold base64_encode_using_maps.
  assert (Hn := zlen_nonneg src). assert (Hl := text_length src).
  assert (He : base64_encoded_length (zlen src) = zlen (b64_text al src)).
  { rewrite Hl. unfold base64_encoded_length, u64. rewrite (Z.mod_small (zlen src + 2)) by lia. apply Z.mod_small. euclid. }
  rewrite He. replace (destlen <? _) with false by lia.
  pose proof (encode_loop_ok src Hb (S (Z.to_nat (zlen src))) [] dest []) as Hloop.
  cbn [app] in Hloop. change (zlen []) with 0 in Hloop.
  specialize (Hloop ltac:(unfold zlen; lia) ltac:(lia) ltac:(lia) ltac:(lia)).
  apply bind_Ok in Hloop as ([[dst doff] soff] & Hl1 & Hl2). rewrite Hl1. cbn [mbind res_bind].
  unfold encode_rest in Hl2. rewrite Hl2. cbn [mbind res_bind]. rewrite Z.add_0_l. unfold u64.
  rewrite Z.mod_small by (unfold zlen in *; lia).
  rewrite memset_app by (unfold zlen in *; rewrite length_drop; lia). cbn [mbind res_bind].
  rewrite drop_drop. unfold zlen in *.
  replace (Z.to_nat (destlen - Z.of_nat (length (b64_text al src)))) with (Z.to_nat destlen - length (b64_text al src))%nat by lia.
  by replace (length (b64_text al src) + (Z.to_nat destlen - length (b64_text al src)))%nat with (Z.to_nat destlen) by lia.
Qed.

(** A buffer that is too short. *)
Lemma encode_short errno src dest destlen :
  zlen src < 2 ^ 61 → destlen < zlen (b64_text al src) →
  base64_encode_using_maps m errno dest destlen src (zlen src) = Ok (dest, -1, EOVERFLOW).
Proof.
  intros Hs Hlen. unfold base64_encode_using_maps. assert (Hn := zlen_nonneg src). rewrite text_length in Hlen.
  unfold base64_encoded_length, u64. rewrite (Z.mod_small (zlen src + 2)) by lia. rewrite Z.mod_small by euclid.
  by replace (destlen <? _) with true by lia.
Qed.
End enc.

(** * The decoder reads the text (ccan/base64)

    One quartet, the padding, one tail, and the whole loop of
    [base64_decode_using_maps] against [b64_value], errors included. *)

Section dec.
Context (al : list Z) (m : base64_maps_t) `{!MapsFor al m}.

Lemma sixbit_from_b64_ok errno c : is_byte c →
  sixbit_from_b64 m errno c = Ok (match digit al c with Some d => (d, errno) | None => (-1, EDOM) end).
Proof.
  intros Hc. unfold sixbit_from_b64. rewrite u8_byte, mf_decode by done. cbn [mbind res_bind]. change (s8 255) with (-1).
  destruct (digit al c) as [d|] eqn:Ed; cbn [default from_option id]; [|done].
  apply digit_range in Ed; [|apply (mf_length (m := m))]. by replace (d =? -1) with false by lia.
Qed.

(** The bytes of four digits. *)
Lemma bytes_parts a b c d : 0 ≤ a < 64 → 0 ≤ b < 64 → 0 ≤ c < 64 → 0 ≤ d < 64 →
  bytes_of ((((0 * 64 + a) * 64 + b) * 64 + c) * 64 + d) = [a * 4 + b / 16; b mod 16 * 16 + c / 4; c mod 4 * 64 + d].
Proof.
  intros Ha Hb Hc Hd. unfold bytes_of. change (2 ^ 16) with 65536. change (2 ^ 8) with 256. set (n := _ + d).
  replace (n / 65536) with (a * 4 + b / 16) by euclid. replace (n / 256 mod 256) with (b mod 16 * 16 + c / 4) by euclid.
  by replace (n mod 256) with (c mod 4 * 64 + d) by euclid.
Qed.

Definition quartet_result (errno : Z) (P D : list Z) (d0 d1 d2 : Z) (n : option Z) : list Z * Z * Z :=
  match n with
  | None => (P ++ d0 :: d1 :: d2 :: D, -1, EDOM)
  | Some n => (P ++ bytes_of n ++ D, 0, errno)
  end.

Lemma quartet_ok errno P d0 d1 d2 D S1 x y z w S2 : Forall is_byte [x; y; z; w] →
  base64_decode_quartet_using_maps m errno (P ++ d0 :: d1 :: d2 :: D) (zlen P) (S1 ++ x :: y :: z :: w :: S2) (zlen S1)
  = Ok (quartet_result errno P D d0 d1 d2 (number al 0 [x; y; z; w])).
Proof.
  intros Hb. apply Forall_cons_1 in Hb as [Hx Hb]. apply Forall_cons_1 in Hb as [Hy Hb].
  apply Forall_cons_1 in Hb as [Hz Hb]. apply Forall_cons_1 in Hb as [Hw _].
  assert (Hr : ∀ c d, digit al c = Some d → 0 ≤ d < 64) by (intros c d; apply digit_range, (mf_length (m := m))).
  unfold base64_decode_quartet_using_maps. cbn [number]. group.
  rewrite sixbit_from_b64_ok by done. cbn [mbind res_bind].
  destruct (digit al x) as [a|] eqn:Ea; cbn [mbind res_bind option_bind]; group;
    rewrite sixbit_from_b64_ok by done; cbn [mbind res_bind];
    (destruct (digit al y) as [b|] eqn:Eb; cbn [mbind res_bind option_bind]); group;
    rewrite sixbit_from_b64_ok by done; cbn [mbind res_bind];
    (destruct (digit al z) as [c|] eqn:Ec; cbn [mbind res_bind option_bind]); group;
    rewrite sixbit_from_b64_ok by done; cbn [mbind res_bind];
    (destruct (digit al w) as [d|] eqn:Ed; cbn [mbind res_bind option_bind quartet_result]).
  { apply Hr in Ea, Eb, Ec, Ed. replace (_ || _) with false by lia. replace (a <? 0) with false by lia.
    rewrite dec_bits1, dec_bits2, dec_bits3, bytes_parts by done. group. done. }
  all: by rewrite ?orb_true_r.
Qed.

(** ** Padding *)
Lemma unpad_snoc t c : unpad (t ++ [c]) = if c =? 61 then unpad t else t ++ [c].
Proof.
  induction t as [|x t IH]; cbn [app unpad]; [done|]. rewrite IH. destruct (c =? 61); [done|].
  destruct t; done.
Qed.

Lemma unpad_prefix t : ∃ k, t = unpad t ++ replicate k 61.
Proof.
  induction t as [|c t IH] using rev_ind; [by exists 0%nat|]. rewrite unpad_snoc.
  destruct (Z.eqb_spec c 61) as [->|].
  - destruct IH as [k Hk]. exists (S k). rewrite replicate_S_end, app_assoc. by rewrite <- Hk.
  - exists 0%nat. by rewrite app_nil_r.
Qed.

Lemma strip_ok t : ∀ fuel S1 S2, (length t < fuel)%nat →
  strip_loop fuel (S1 ++ t ++ S2) (zlen S1) (zlen t) = Ok (zlen (unpad t)).
Proof.
  induction t as [|c t IH] using rev_ind; intros fuel S1 S2 Hf; (destruct fuel as [|fuel]; [lia|]); [done|].
  cbn [strip_loop]. rewrite zlen_app. change (zlen [c]) with 1. pose proof (zlen_nonneg t).
  replace (zlen t + 1 =? 0) with false by lia. replace (zlen t + 1 - 1) with (zlen t) by lia.
  rewrite <- (app_assoc t). cbn [app]. rewrite app_assoc.
  replace (zlen S1 + zlen t) with (zlen (S1 ++ t)) by apply zlen_app. rewrite aget_here. cbn [mbind res_bind].
  rewrite unpad_snoc. destruct (c =? 61).
  - rewrite <- app_assoc. apply IH. rewrite length_app in Hf. cbn [length] in Hf. lia.
  - by rewrite zlen_app.
Qed.

(** ** The tail *)
Lemma number_app acc cs ds : number al acc (cs ++ ds) = number al acc cs ≫= λ n, number al n ds.
Proof.
  revert acc. induction cs as [|c cs IH]; intros acc; cbn [number app]; [done|].
  destruct (digit al c); cbn [mbind option_bind]; [apply IH|done].
Qed.

(** The filler contributes less than one unit of the last letter. *)
Lemma number_fill n f k : digit al 65 = Some f → ∃ r, number al n (replicate k 65) = Some (n * 64 ^ Z.of_nat k + r) ∧ 0 ≤ r < 64 ^ Z.of_nat k.
Proof.
  intros Hf. assert (Hd := digit_range _ _ _ (mf_length (m := m)) Hf). revert n. induction k as [|k IH]; intros n.
  - exists 0. cbn. split; [f_equal|]; lia.
  - cbn [replicate number]. rewrite Hf. cbn [mbind option_bind]. destruct (IH (n * 64 + f)) as (r & -> & Hr).
    exists (f * 64 ^ Z.of_nat k + r). rewrite Nat2Z.inj_succ, Z.pow_succ_r by lia. split; [f_equal; lia|nia].
Qed.

Lemma bytes_fill (u : list Z) n r : (2 ≤ length u ≤ 4)%nat → 0 ≤ r < 64 ^ (4 - zlen u) →
  take (length u - 1) (bytes_of (n * 64 ^ (4 - zlen u) + r)) = take (length u - 1) (bytes_of (n * 64 ^ (4 - zlen u))).
Proof.
  intros Hu Hr. unfold bytes_of. change (2 ^ 16) with 65536. change (2 ^ 8) with 256.
  assert (length u = 2 ∨ length u = 3 ∨ length u = 4)%nat as [E|[E|E]] by lia; unfold zlen in *; rewrite E in *;
    cbn [Nat.sub take].
  - change (64 ^ (4 - Z.of_nat 2)) with 4096 in *. f_equal. euclid.
  - change (64 ^ (4 - Z.of_nat 3)) with 64 in *. f_equal; [|f_equal]; euclid.
  - change (64 ^ (4 - Z.of_nat 4)) with 1 in *. assert (r = 0) as -> by lia. by rewrite Z.add_0_r.
Qed.

(** [longsrc] holds the letters and the filler. *)
Lemma longsrc_ok (u : list Z) : (1 ≤ length u ≤ 4)%nat →
  (longsrc ← put (replicate 4 0) 0 u; memset longsrc (zlen u) 65 (u64 (4 - zlen u))) = Ok (u ++ replicate (4 - length u) 65).
Proof.
  intros Hu. rewrite put_Ok by (rewrite length_replicate; lia). cbn [mbind res_bind Nat.add]. rewrite take_0, app_nil_l.
  unfold u64. rewrite Z.mod_small by (unfold zlen; lia).
  rewrite memset_app by (unfold zlen; rewrite length_drop, length_replicate; lia).
  rewrite drop_drop, drop_ge by (rewrite length_replicate; unfold zlen; lia). rewrite app_nil_r.
  do 3 f_equal. unfold zlen. lia.
Qed.

(** The tail without its padding, filled up, is a quartet. *)
Lemma tail_quartet errno P d0 d1 d2 D S1 t : Forall is_byte t → (2 ≤ length (unpad t) ≤ 4)%nat →
  base64_decode_tail_using_maps m errno (P ++ d0 :: d1 :: d2 :: D) (zlen P) (S1 ++ t) (zlen S1) (zlen t)
  = Ok (match number al 0 (unpad t ++ replicate (4 - length (unpad t)) 65) with
        | None => (P ++ d0 :: d1 :: d2 :: D, -1, EDOM)
        | Some n => (P ++ bytes_of n ++ D, zlen (unpad t) - 1, errno)
        end).
Proof.
  intros Hb Hlu. unfold base64_decode_tail_using_maps.
  assert (Hstrip : strip_loop (S (Z.to_nat (zlen t))) (S1 ++ t) (zlen S1) (zlen t) = Ok (zlen (unpad t))).
  { pose proof (strip_ok t (S (Z.to_nat (zlen t))) S1 []) as H. rewrite app_nil_r in H. apply H. unfold zlen. lia. }
  rewrite Hstrip. cbn [mbind res_bind]. clear Hstrip.
  destruct (unpad_prefix t) as [k Hk]. set (u := unpad t) in *.
  assert (Hbu : Forall is_byte u) by (rewrite Hk in Hb; by apply Forall_app in Hb as [? _]).
  replace (zlen u =? 0) with false by (unfold zlen; lia). replace (zlen u =? 1) with false by (unfold zlen; lia).
  assert (Hslice : slice (S1 ++ t) (zlen S1) (zlen u) = Ok u) by (rewrite Hk; apply slice_mid).
  rewrite Hslice. cbn [mbind res_bind].
  assert (Hlong := longsrc_ok u ltac:(lia)). apply bind_Ok in Hlong as (l0 & -> & Hlong). cbn [mbind res_bind].
  rewrite Hlong. cbn [mbind res_bind].
  assert (Hall : Forall is_byte (u ++ replicate (4 - length u) 65)).
  { apply Forall_app. split; [done|]. apply Forall_replicate. unfold is_byte. lia. }
  assert (Hlen : length (u ++ replicate (4 - length u) 65) = 4%nat) by (rewrite length_app, length_replicate; lia).
  destruct (u ++ replicate (4 - length u) 65) as [|c0 [|c1 [|c2 [|c3 [|]]]]]; cbn [length] in Hlen; try lia.
  pose proof (quartet_ok errno P d0 d1 d2 D [] c0 c1 c2 c3 [] Hall) as Hq. cbn [app] in Hq. change (zlen []) with 0 in Hq.
  rewrite Hq. cbn [mbind res_bind]. destruct (number al 0 [c0; c1; c2; c3]) as [n|]; cbn [quartet_result]; [|done].
  change (0 =? -1) with false. cbv iota. do 2 f_equal. unfold s32, zlen. rewrite Z.mod_small by lia. f_equal. lia.
Qed.

Lemma tail_value_long t : (2 ≤ length (unpad t))%nat →
  tail_value al t = match number al 0 (unpad t) with
                    | None => inl EDOM
                    | Some n => inr (take (length (unpad t) - 1) (bytes_of (n * 64 ^ (4 - zlen (unpad t)))))
                    end.
Proof. unfold tail_value. destruct (unpad t) as [|? [|]]; cbn [length]; done || lia. Qed.

Lemma decode_tail_ok errno P D S1 t : is_Some (digit al 65) → Forall is_byte t → (length t ≤ 4)%nat → (t = [] ∨ 3 ≤ zlen D) →
  match tail_value al t with
  | inl e => base64_decode_tail_using_maps m errno (P ++ D) (zlen P) (S1 ++ t) (zlen S1) (zlen t) = Ok (P ++ D, -1, e)
  | inr bs => ∃ D', base64_decode_tail_using_maps m errno (P ++ D) (zlen P) (S1 ++ t) (zlen S1) (zlen t)
                    = Ok (P ++ bs ++ D', zlen bs, errno)
      ∧ length D = (length bs + length D')%nat ∧ (length bs ≤ 3)%nat ∧ drop (3 - length bs) D' = drop 3 D ∧ (bs = [] → D' = D)
  end.
Proof.
  intros [f Hf] Hb Hl Hroom.
  assert (Hstrip : strip_loop (S (Z.to_nat (zlen t))) (S1 ++ t) (zlen S1) (zlen t) = Ok (zlen (unpad t))).
  { pose proof (strip_ok t (S (Z.to_nat (zlen t))) S1 []) as H. rewrite app_nil_r in H. apply H. unfold zlen. lia. }
  destruct (unpad_prefix t) as [k Hk]. pose proof (tail_quartet errno P) as Hq.
  destruct (decide (length (unpad t) < 2)%nat) as [Hs|Hs].
  { unfold tail_value, base64_decode_tail_using_maps. rewrite Hstrip. cbn [mbind res_bind].
    destruct (unpad t) as [|x [|]]; cbn [length] in Hs; [|done|lia]. exists D. split; [done|]. split_and!; [done|cbn; lia|done|done]. }
  assert (Hlu : (2 ≤ length (unpad t) ≤ 4)%nat) by (rewrite Hk, length_app in Hl; lia).
  destruct Hroom as [->|Hroom]; [cbn [unpad length] in Hs; lia|].
  destruct D as [|d0 [|d1 [|d2 D]]]; unfold zlen in Hroom; cbn [length] in Hroom; try lia.
  rewrite Hq, number_app, tail_value_long by (done || lia). set (u := unpad t) in *.
  destruct (number al 0 u) as [n|]; cbn [mbind option_bind]; [|done].
  destruct (number_fill n f (4 - length u) Hf) as (r & -> & Hr).
  replace (Z.of_nat (4 - length u)) with (4 - zlen u) in * by (unfold zlen; lia).
  set (bs := bytes_of (n * 64 ^ (4 - zlen u) + r)). assert (Hbs : length bs = 3%nat) by done.
  exists (drop (length u - 1) bs ++ D). rewrite <- (bytes_fill u n r) by done. fold bs.
  assert (Ht : length (take (length u - 1) bs) = (length u - 1)%nat) by (rewrite length_take; lia).
  rewrite Ht, (app_assoc (take _ _)), take_drop, length_app, length_drop. split_and!; [|cbn [length]; lia|lia| |].
  - do 3 f_equal. unfold zlen. rewrite Ht. lia.
  - rewrite drop_app_ge by (rewrite length_drop; lia). rewrite length_drop, Hbs, Nat.sub_diag. done.
  - intros E. rewrite E in Ht. cbn [length] in Ht. lia.
Qed.

(** ** The loop *)

(** The part behind the loop. *)
Definition decode_rest (destlen : Z) (src : list Z) (srclen : Z) (st : list Z * Z * Z * bool * Z) : res (list Z * Z * Z) :=
  let '(dest, dest_offset, i, through, errno) := st in
  if negb through then Ok (dest, -1, errno) else
  '(dest, more, errno) ← base64_decode_tail_using_maps m errno dest dest_offset src i (u64 (srclen - i));
  let more := u64 more in
  if more =? u64 (-1) then Ok (dest, -1, errno) else
  let dest_offset := dest_offset + more in
  dest ← memset dest dest_offset 0 (u64 (destlen - dest_offset));
  Ok (dest, dest_offset, errno).

(** Behind the first [n] cells nothing has changed. *)
Definition same_behind (n : Z) (l l' : list Z) : Prop := length l = length l' ∧ drop (Z.to_nat n) l = drop (Z.to_nat n) l'.

(** What the call leaves: the bytes and zeros up to [destlen], or the error. *)
Definition decoded (errno destlen : Z) (dest P : list Z) (v : Z + list Z) (r : res (list Z * Z * Z)) : Prop :=
  match v with
  | inl e => ∃ dest', r = Ok (dest', -1, e) ∧ same_behind destlen dest dest'
  | inr bs => zlen P + zlen bs ≤ destlen ∧
      r = Ok (P ++ bs ++ replicate (Z.to_nat destlen - length P - length bs) 0 ++ drop (Z.to_nat destlen) dest, zlen P + zlen bs, errno)
  end.

Lemma rest_ok errno P D src1 src2 destlen : is_Some (digit al 65) → Forall is_byte src2 → (length src2 ≤ 4)%nat →
  (src2 = [] ∨ zlen P + 3 ≤ destlen) → zlen P ≤ destlen ≤ zlen (P ++ D) → zlen (P ++ D) < 2 ^ 63 → zlen (src1 ++ src2) < 2 ^ 61 →
  decoded errno destlen (P ++ D) P (tail_value al src2)
    (decode_rest destlen (src1 ++ src2) (zlen (src1 ++ src2)) (P ++ D, zlen P, zlen src1, true, errno)).
Proof.
  intros Hf Hb Hl Hroom Hd HD HS. cbn [decode_rest negb]. cbv iota. rewrite zlen_app in HS |- *.
  replace (zlen src1 + zlen src2 - zlen src1) with (zlen src2) by lia.
  rewrite (u64_id (zlen src2)) by (unfold zlen in *; lia). rewrite zlen_app in Hd, HD.
  pose proof (decode_tail_ok errno P D src1 src2 Hf Hb Hl) as Ht.
  assert (Hr : src2 = [] ∨ 3 ≤ zlen D) by (destruct Hroom; [by left|right; lia]). specialize (Ht Hr).
  destruct (tail_value al src2) as [e|bs] eqn:Ev; unfold decoded.
  - rewrite Ht. cbn [mbind res_bind]. rewrite Z.eqb_refl. exists (P ++ D). done.
  - destruct Ht as (D' & -> & Hlen & H3 & Hdrop & Hsame). cbn [mbind res_bind]. rewrite (u64_id (zlen bs)) by (unfold zlen; lia).
    change (u64 (-1)) with (2 ^ 64 - 1). rewrite (proj2 (Z.eqb_neq (zlen bs) _)) by (unfold zlen; lia). cbv zeta.
    assert (Hroom' : zlen P + zlen bs ≤ destlen).
    { destruct Hroom as [->|]; [|unfold zlen in *; lia]. injection Ev as <-. change (zlen []) with 0. lia. }
    split; [done|]. rewrite app_assoc. rewrite <- (zlen_app P bs). rewrite u64_id by (rewrite zlen_app; unfold zlen in *; lia).
    rewrite memset_app by (rewrite zlen_app; unfold zlen in *; lia). cbn [mbind res_bind]. rewrite <- app_assoc.
    replace (Z.to_nat (destlen - zlen (P ++ bs))) with (Z.to_nat destlen - length P - length bs)%nat by (rewrite zlen_app; unfold zlen; lia).
    replace (drop (Z.to_nat destlen) (P ++ D)) with (drop (Z.to_nat destlen - length P - length bs) D'); [done|].
    rewrite (drop_app_ge P) by (unfold zlen in *; lia). destruct Hroom as [->|Hroom].
    + injection Ev as <-. rewrite Hsame by done. f_equal. cbn [length]. lia.
    + replace (Z.to_nat destlen - length P - length bs)%nat with (3 - length bs + (Z.to_nat destlen - length P - 3))%nat by (unfold zlen in *; lia).
      rewrite <- drop_drop, Hdrop, drop_drop. f_equal. unfold zlen in *. lia.
Qed.

(** A group of three bytes more in front. *)
Lemma decoded_group errno destlen P d0 d1 d2 D b0 b1 b2 v r : zlen P + 3 ≤ destlen →
  decoded errno destlen (P ++ [b0; b1; b2] ++ D) (P ++ [b0; b1; b2]) v r →
  decoded errno destlen (P ++ d0 :: d1 :: d2 :: D) P (match v with inl e => inl e | inr bs => inr ([b0; b1; b2] ++ bs) end) r.
Proof.
  intros Hd. assert (Hdrop : drop (Z.to_nat destlen) (P ++ [b0; b1; b2] ++ D) = drop (Z.to_nat destlen) (P ++ d0 :: d1 :: d2 :: D)).
  { change (d0 :: d1 :: d2 :: D) with ([d0; d1; d2] ++ D). rewrite !(app_assoc P), !drop_app_ge by (unfold zlen in *; rewrite length_app; cbn [length]; lia).
    by rewrite !length_app. }
  unfold decoded. destruct v as [e|bs].
  - intros (dest' & -> & Hlen & Hs). exists dest'. split; [done|]. split; [|by rewrite <- Hdrop].
    rewrite <- Hlen. rewrite !length_app. done.
  - rewrite !zlen_app, Hdrop, !length_app. change (zlen [b0; b1; b2]) with 3. intros [Hroom ->]. split; [lia|].
    rewrite <- !app_assoc, <- !Z.add_assoc. cbn [length Nat.add].
    by replace (Z.to_nat destlen - (length P + 3) - length bs)%nat with (Z.to_nat destlen - length P - S (S (S (length bs))))%nat by lia.
Qed.

Lemma decode_loop_ok src2 : is_Some (digit al 65) → Forall is_byte src2 → ∀ errno fuel P D src1 destlen,
  (length src2 < fuel)%nat → zlen P + (zlen src2 + 3) / 4 * 3 ≤ destlen ≤ zlen (P ++ D) →
  zlen (P ++ D) < 2 ^ 63 → zlen (src1 ++ src2) < 2 ^ 61 →
  decoded errno destlen (P ++ D) P (b64_value al src2)
    (decode_loop fuel m errno (P ++ D) (zlen P) (src1 ++ src2) (zlen (src1 ++ src2)) (zlen src1)
       ≫= decode_rest destlen (src1 ++ src2) (zlen (src1 ++ src2))).
Proof.
  intros Hf. induction src2 as [src2 Hs|x y z w v src2 IH] using quartets_ind; intros Hb errno fuel P D src1 destlen Hfuel Hd HD HS;
    (destruct fuel as [|fuel]; [lia|]); cbn [decode_loop]; assert (Hn1 := zlen_nonneg src1).
  - rewrite u64_id by (rewrite zlen_app in *; unfold zlen in *; lia).
    rewrite (proj2 (Z.ltb_ge _ _)) by (rewrite zlen_app; unfold zlen; lia). rewrite bind_ret.
    replace (b64_value al src2) with (tail_value al src2).
    + apply rest_ok; [done..| |unfold zlen in *; euclid|done|done].
      destruct (decide (src2 = [])) as [|Hne]; [by left|right].
      assert (1 ≤ zlen src2) by (destruct src2; [done|unfold zlen; cbn [length]; lia]). euclid.
    + destruct src2 as [|? [|? [|? [|? [|]]]]]; cbn [length] in Hs; done || lia.
  - set (rest := v :: src2) in *. assert (Hl : zlen (x :: y :: z :: w :: rest) = zlen rest + 4) by (unfold zlen; cbn [length]; lia).
    assert (Hn : 1 ≤ zlen rest) by (subst rest; unfold zlen; cbn [length]; lia).
    assert (HS' := HS). rewrite zlen_app, Hl in HS'. rewrite zlen_app, Hl.
    rewrite u64_id by lia. rewrite (proj2 (Z.ltb_lt _ _)) by lia.
    change (x :: y :: z :: w :: rest) with ([x; y; z; w] ++ rest) in Hb. apply Forall_app in Hb as [Hb4 Hb].
    rewrite Hl in Hd. replace (zlen rest + 4 + 3) with (zlen rest + 3 + 1 * 4) in Hd by lia. rewrite Z.div_add in Hd by lia.
    assert (Hq : 0 ≤ (zlen rest + 3) / 4) by euclid. rewrite zlen_app in Hd.
    destruct D as [|d0 [|d1 [|d2 D]]]; unfold zlen in Hd at 4; cbn [length] in Hd; try lia.
    rewrite quartet_ok by done. cbn [mbind res_bind].
    unfold rest. rewrite value_group. fold rest.
    destruct (number al 0 [x; y; z; w]) as [n|]; cbn [quartet_result].
    2: { eexists. split; [done|]. done. }
    change (0 =? -1) with false. cbv iota.
    unfold bytes_of. apply decoded_group; [lia|].
    specialize (IH Hb errno fuel (P ++ bytes_of n) D (src1 ++ [x; y; z; w]) destlen).
    rewrite <- !(app_assoc src1), <- !(app_assoc P), !zlen_app in IH. change (zlen [x; y; z; w]) with 4 in IH.
    change (zlen (bytes_of n)) with 3 in IH. cbn [app] in IH. rewrite !Z.add_assoc in IH.
    replace (zlen src1 + (zlen rest + 4)) with (zlen src1 + 4 + zlen rest) by lia.
    rewrite !zlen_app in *. apply IH; unfold zlen in *; cbn [length] in *; lia.
Qed.

(** A buffer that is long enough. *)
Lemma decode_ok errno src dest destlen : is_Some (digit al 65) →
  Forall is_byte src → zlen src < 2 ^ 61 → zlen dest < 2 ^ 63 → (zlen src + 3) / 4 * 3 ≤ destlen ≤ zlen dest →
  decoded errno destlen dest [] (b64_value al src) (base64_decode_using_maps m errno dest destlen src (zlen src)).
Proof.
  intros Hf Hb Hs Hd Hlen. unfold base64_decode_using_maps, base64_decoded_length. assert (Hn := zlen_nonneg src).
  rewrite (u64_id (zlen src + 3)), u64_id by euclid. rewrite (proj2 (Z.ltb_ge _ _)) by lia.
  pose proof (decode_loop_ok src Hf Hb errno (S (Z.to_nat (zlen src))) [] dest [] destlen) as H. apply H; unfold zlen in *; cbn [app length]; lia.
Qed.

(** A buffer that is too short. *)
Lemma decode_short errno src dest destlen : zlen src < 2 ^ 61 → destlen < (zlen src + 3) / 4 * 3 →
  base64_decode_using_maps m errno dest destlen src (zlen src) = Ok (dest, -1, EOVERFLOW).
Proof.
  intros Hs Hlen. unfold base64_decode_using_maps, base64_decoded_length. assert (Hn := zlen_nonneg src).
  rewrite (u64_id (zlen src + 3)), u64_id by euclid. by rewrite (proj2 (Z.ltb_lt _ _)) by lia.
Qed.
End dec.
