(* ===== verification/Base64Props.v ===== *)
(** * What base 64 coding promises (ccan/base64)

    Decoding the text of any bytes gives the bytes; decoding any text gives what
    RFC 4648 says or the documented error; neither leaves its buffer.  Alphabets
    without the letter A lose their padded texts. *)
From S2P Require Import Prelude.
From S2P Require Import CString.
From S2P Require Import Base64.
From S2P Require Import Base64Spec.
From S2P Require Import Base64Code.
#[local] Open Scope Z_scope.

(** ** The specification is a round trip *)
Lemma unpad_id u k : Forall (λ c, c ≠ 61) u → unpad (u ++ replicate k 61) = u.
Proof.
  intros Hu. induction k as [|k IH].
  - cbn [replicate]. rewrite app_nil_r. destruct (decide (u = [])) as [->|Hne]; [done|].
    destruct (exists_last Hne) as (u' & c & ->). apply Forall_app in Hu as [_ Hc]. apply Forall_cons_1 in Hc as [Hc _].
    rewrite unpad_snoc. by replace (c =? 61) with false by lia.
  - rewrite replicate_S_end, app_assoc, unpad_snoc. done.
Qed.

Section round.
Context (al : list Z) (Hn : NoDup al) (Hl : length al = 64%nat) (Hpad : 61 ∉ al).

Lemma letters_not_pad n : 0 ≤ n < 2 ^ 24 → Forall (λ c, c ≠ 61) (letters al n).
Proof.
  intros Hr. change (2 ^ 24) with 16777216 in Hr.
  assert (Hi : ∀ i, 0 ≤ i < 64 → letter al i ≠ 61) by (intros i Hi E; apply Hpad; rewrite <- E; by apply letter_elem).
  unfold letters. change (2 ^ 18) with 262144.
  repeat apply Forall_cons_2; try apply Forall_nil_2; apply Hi; euclid.
Qed.

(** The number in the first letters of a group. *)
Lemma number_letters n : 0 ≤ n < 2 ^ 24 →
  number al 0 (take 2 (letters al n)) = Some (n / 2 ^ 12) ∧ number al 0 (take 3 (letters al n)) = Some (n / 2 ^ 6) ∧
  number al 0 (letters al n) = Some n.
Proof.
  intros Hr. change (2 ^ 24) with 16777216 in Hr. unfold letters. change (2 ^ 18) with 262144. change (2 ^ 12) with 4096. change (2 ^ 6) with 64.
  cbn [take number]. rewrite !digit_letter by (done || euclid). cbn [mbind option_bind].
  split_and!; f_equal; euclid.
Qed.

Lemma bytes_group a b c : is_byte a → is_byte b → is_byte c → bytes_of (a * 2 ^ 16 + b * 2 ^ 8 + c) = [a; b; c].
Proof.
  unfold is_byte. intros Ha Hb Hc. unfold bytes_of. change (2 ^ 16) with 65536. change (2 ^ 8) with 256. set (n := _ + c).
  replace (n / 65536) with a by euclid. replace (n / 256 mod 256) with b by euclid. by replace (n mod 256) with c by euclid.
Qed.

(** The last group, with [k] letters of padding. *)
Lemma tail_text n k u : (k ≤ 2)%nat → 0 ≤ n < 2 ^ 24 → u = take (4 - k) (letters al n) →
  n mod 64 ^ Z.of_nat k = 0 → tail_value al (u ++ replicate k 61) = inr (take (3 - k) (bytes_of n)).
Proof.
  intros Hk Hr -> Hm. assert (Hlen : length (take (4 - k) (letters al n)) = (4 - k)%nat) by (rewrite length_take; cbn [letters length]; lia).
  rewrite tail_value_long; rewrite unpad_id by (by apply Forall_take, letters_not_pad); [|lia].
  rewrite Hlen. unfold zlen. rewrite Hlen. destruct (number_letters n Hr) as (H2 & H3 & H4).
  assert (k = 0 ∨ k = 1 ∨ k = 2)%nat as [E|[E|E]] by lia; subst k; cbn [Nat.sub].
  - rewrite take_ge by done. rewrite H4. change (64 ^ (4 - Z.of_nat 4)) with 1. by rewrite Z.mul_1_r.
  - rewrite H3. change (64 ^ (4 - Z.of_nat 3)) with 64. change (64 ^ Z.of_nat 1) with 64 in Hm. change (2 ^ 6) with 64.
    do 3 f_equal. euclid.
  - rewrite H2. change (64 ^ (4 - Z.of_nat 2)) with 4096. change (64 ^ Z.of_nat 2) with 4096 in Hm. change (2 ^ 12) with 4096.
    do 3 f_equal. euclid.
Qed.

Lemma value_short t : (length t ≤ 4)%nat → b64_value al t = tail_value al t.
Proof. intros Ht. destruct t as [|? [|? [|? [|? [|]]]]]; cbn [length] in Ht; done || lia. Qed.

Lemma value_text src : Forall is_byte src → b64_value al (b64_text al src) = inr src.
Proof.
  induction src as [src Hs|a b c src IH] using triplets_ind; intros Hb.
  - destruct src as [|a [|b [|]]]; cbn [length] in Hs; try lia; [done|..]; cbn [b64_text]; rewrite value_short by done.
    + apply Forall_cons_1 in Hb as [Ha _]. unfold is_byte in Ha. change [61; 61] with (replicate 2 61).
      rewrite (tail_text (a * 2 ^ 16)) by (done || lia || (change (64 ^ Z.of_nat 2) with 4096; euclid)).
      replace (a * 2 ^ 16) with (a * 2 ^ 16 + 0 * 2 ^ 8 + 0) by lia. by rewrite bytes_group by (unfold is_byte; lia).
    + apply Forall_cons_1 in Hb as [Ha Hb]. apply Forall_cons_1 in Hb as [Hb _]. unfold is_byte in Ha, Hb. change [61] with (replicate 1 61).
      rewrite (tail_text (a * 2 ^ 16 + b * 2 ^ 8)) by (done || lia || (change (64 ^ Z.of_nat 1) with 64; euclid)).
      replace (a * 2 ^ 16 + b * 2 ^ 8) with (a * 2 ^ 16 + b * 2 ^ 8 + 0) by lia. by rewrite bytes_group by (unfold is_byte; lia).
  - apply Forall_cons_1 in Hb as [Ha Hb]. apply Forall_cons_1 in Hb as [Hb Hc]. apply Forall_cons_1 in Hc as [Hc Hbs].
    assert (Hr : 0 ≤ a * 2 ^ 16 + b * 2 ^ 8 + c < 2 ^ 24) by (unfold is_byte in *; lia).
    specialize (IH Hbs). cbn [b64_text]. set (n := a * 2 ^ 16 + b * 2 ^ 8 + c) in *.
    assert (Hg : bytes_of n = [a; b; c]) by (by apply bytes_group).
    destruct (b64_text al src) as [|v t] eqn:Et.
    + assert (src = []) as -> by (cbn in IH; congruence). rewrite value_short by done.
      rewrite (tail_text n 0) by (done || lia || (change (64 ^ Z.of_nat 0) with 1; apply Z.mod_1_r)). by rewrite Hg.
    + destruct (number_letters n Hr) as (_ & _ & H4). unfold letters in H4 |- *. cbn [app].
      rewrite value_group, H4, IH, Hg. done.
Qed.
End round.

Lemma text_bytes al src : length al = 64%nat → Forall is_byte al → Forall is_byte src → Forall is_byte (b64_text al src).
Proof.
  intros Hl Ha. assert (Hi : ∀ i, 0 ≤ i < 64 → is_byte (letter al i)) by (intros i Hi; by eapply Forall_forall, letter_elem).
  assert (H61 : is_byte 61) by (unfold is_byte; lia).
  assert (Hls : ∀ n, 0 ≤ n < 16777216 → Forall is_byte (letters al n)).
  { intros n Hr. unfold letters. change (2 ^ 18) with 262144. repeat apply Forall_cons_2; try apply Forall_nil_2; apply Hi; euclid. }
  induction src as [src Hs|a b c src IH] using triplets_ind; intros Hb.
  - destruct src as [|a [|b [|]]]; cbn [length] in Hs; try lia; [by apply Forall_nil_2|..]; cbn [b64_text]; apply Forall_app; (split; [apply Forall_take, Hls|auto]).
    + apply Forall_cons_1 in Hb as [Hx _]. unfold is_byte in Hx. lia.
    + apply Forall_cons_1 in Hb as [Hx Hb]. apply Forall_cons_1 in Hb as [Hy _]. unfold is_byte in Hx, Hy. lia.
  - apply Forall_cons_1 in Hb as [Hx Hb]. apply Forall_cons_1 in Hb as [Hy Hc]. apply Forall_cons_1 in Hc as [Hz Hbs].
    cbn [b64_text]. apply Forall_app. split; [|auto]. apply Hls. unfold is_byte in *. lia.
Qed.

(** ** Properties *)

(** An alphabet the coder can use: 64 different bytes, with A, without the padding. *)
Definition usable (al : list Z) : Prop := NoDup al ∧ length al = 64%nat ∧ Forall is_byte al ∧ 65 ∈ al ∧ 61 ∉ al.

Lemma usable_filler al : usable al → is_Some (digit al 65).
Proof. intros (_ & _ & _ & HA & _). destruct (digit al 65) eqn:E; [done|]. by apply digit_None in E. Qed.

(** C30: round trip of base 64.  For every usable alphabet base64_init_maps makes maps with
    which base64_encode_using_maps, given room, writes the RFC 4648 text of the bytes
    and fills the buffer with zeros, and base64_decode_using_maps turns this text back
    into exactly the bytes; both leave errno alone. *)
Theorem base64_round_trip al src dest dest2 errno :
  usable al → Forall is_byte src → zlen src < 2 ^ 60 → zlen dest < 2 ^ 63 → zlen dest2 < 2 ^ 63 →
  base64_encoded_length (zlen src) ≤ zlen dest →
  base64_decoded_length (base64_encoded_length (zlen src)) ≤ zlen dest2 →
  ∃ m text, base64_init_maps al = Ok m ∧ text = b64_text al src ∧
    base64_encode_using_maps m errno dest (zlen dest) src (zlen src)
      = Ok (text ++ replicate (length dest - length text) 0, zlen text, errno) ∧
    base64_decode_using_maps m errno dest2 (zlen dest2) text (zlen text)
      = Ok (src ++ replicate (length dest2 - length src) 0, zlen src, errno).
Proof.
  intros Hu Hb Hs Hd Hd2 Hr Hr2. assert (HA := usable_filler _ Hu). destruct Hu as (Hn & Hl & Ha & _ & Hpad).
  destruct (init_maps_for al Hn Hl Ha) as (m & Hm & HM). exists m, (b64_text al src). split; [done|]. split; [done|].
  assert (H0 := zlen_nonneg src). assert (Ht := text_length al src).
  assert (He : base64_encoded_length (zlen src) = zlen (b64_text al src)).
  { rewrite Ht. unfold base64_encoded_length. rewrite (u64_id (zlen src + 2)), u64_id by euclid. done. }
  rewrite He in Hr, Hr2. assert (Ht2 : zlen (b64_text al src) < 2 ^ 61) by (rewrite Ht; euclid).
  unfold base64_decoded_length in Hr2. assert (H1 := zlen_nonneg (b64_text al src)).
  rewrite (u64_id (zlen _ + 3)), u64_id in Hr2 by euclid. split.
  - rewrite (encode_ok al m) by (done || lia). unfold zlen at 1 2. rewrite !Nat2Z.id, drop_all, app_nil_r. done.
  - pose proof (decode_ok al m errno (b64_text al src) dest2 (zlen dest2) HA) as Hdec.
    rewrite value_text in Hdec by done. destruct Hdec as [_ ->]; [by apply text_bytes|done|done|lia|].
    unfold zlen at 1 2. rewrite !Nat2Z.id, drop_all, app_nil_r. cbn [length app]. rewrite Nat.sub_0_r. done.
Qed.

(** The hypotheses hold for four bytes in the alphabet of RFC 4648. *)
Lemma base64_round_trip_witness :
  ∃ m text, base64_init_maps rfc4648_alphabet = Ok m ∧ text = b64_text rfc4648_alphabet [77; 97; 110; 200] ∧
    base64_encode_using_maps m 0 (replicate 9 7) (zlen (replicate 9 7)) [77; 97; 110; 200] (zlen [77; 97; 110; 200])
      = Ok (text ++ replicate (length (replicate 9 7) - length text) 0, zlen text, 0) ∧
    base64_decode_using_maps m 0 (replicate 6 7) (zlen (replicate 6 7)) text (zlen text)
      = Ok ([77; 97; 110; 200] ++ replicate (length (replicate 6 7) - length [77; 97; 110; 200]) 0, zlen [77; 97; 110; 200], 0).
Proof.
  apply base64_round_trip; try (vm_compute; congruence).
  - split_and!; [apply rfc4648_nodup|done|by apply (bool_decide_unpack _)|by apply (bool_decide_unpack _)|by apply (bool_decide_unpack _)].
  - by apply (bool_decide_unpack _).
Defined.

(** C31: base64_decode_using_maps on any text: with too little room it returns -1 with EOVERFLOW
    and leaves the buffer; else it writes the bytes of the text and zeros up to destlen and
    returns their number, or returns -1 with EDOM for a letter outside the alphabet and EINVAL
    for a single last letter, the first error of the text; cells behind destlen never change. *)
Theorem base64_decode_exact al m text dest destlen errno :
  usable al → base64_init_maps al = Ok m → Forall is_byte text → zlen text < 2 ^ 60 → destlen ≤ zlen dest < 2 ^ 63 →
  let r := base64_decode_using_maps m errno dest destlen text (zlen text) in
  if destlen <? base64_decoded_length (zlen text) then r = Ok (dest, -1, EOVERFLOW)
  else match b64_value al text with
       | inl e => ∃ dest', r = Ok (dest', -1, e) ∧ same_behind destlen dest dest'
       | inr bs => zlen bs ≤ destlen ∧
           r = Ok (bs ++ replicate (Z.to_nat destlen - length bs) 0 ++ drop (Z.to_nat destlen) dest, zlen bs, errno)
       end.
Proof.
  intros Hu Hm Hb Ht Hd. assert (HA := usable_filler _ Hu). destruct Hu as (Hn & Hl & Ha & _ & Hpad).
  destruct (init_maps_for al Hn Hl Ha) as (m' & Hm' & HM). assert (m' = m) as -> by congruence. clear Hm'.
  assert (H0 := zlen_nonneg text). unfold base64_decoded_length. rewrite (u64_id (zlen text + 3)), u64_id by euclid. cbv zeta.
  destruct (Z.ltb_spec destlen ((zlen text + 3) / 4 * 3)); [apply decode_short; lia|].
  pose proof (decode_ok al m errno text dest destlen HA Hb ltac:(lia) ltac:(lia) ltac:(lia)) as Hdec. unfold decoded in Hdec.
  destruct (b64_value al text) as [e|bs]; [done|]. cbn [length app] in Hdec. rewrite Nat.sub_0_r in Hdec. exact Hdec.
Qed.

(** A text whose second group has a letter outside the alphabet. *)
Lemma base64_decode_exact_witness :
  let r := base64_decode_using_maps base64_maps_rfc4648 0 (replicate 6 7) 6 [77; 97; 110; 110; 35; 65] (zlen [77; 97; 110; 110; 35; 65]) in
  if 6 <? base64_decoded_length (zlen [77; 97; 110; 110; 35; 65]) then r = Ok (replicate 6 7, -1, EOVERFLOW)
  else match b64_value rfc4648_alphabet [77; 97; 110; 110; 35; 65] with
       | inl e => ∃ dest', r = Ok (dest', -1, e) ∧ same_behind 6 (replicate 6 7) dest'
       | inr bs => zlen bs ≤ 6 ∧ r = Ok (bs ++ replicate (Z.to_nat 6 - length bs) 0 ++ drop (Z.to_nat 6) (replicate 6 7), zlen bs, 0)
       end.
Proof.
  apply base64_decode_exact; try (vm_compute; congruence).
  - split_and!; [apply rfc4648_nodup|done|by apply (bool_decide_unpack _)|by apply (bool_decide_unpack _)|by apply (bool_decide_unpack _)].
  - by apply (bool_decide_unpack _).
  - split; vm_compute; congruence.
Defined.

(** An alphabet without the letter A, which fills up the last group: the text of a single
    byte is written but cannot be read. *)
Theorem base64_needs_A al a dest errno :
  NoDup al → length al = 64%nat → Forall is_byte al → 65 ∉ al → 61 ∉ al → is_byte a → 3 ≤ zlen dest < 2 ^ 63 →
  ∃ m, base64_init_maps al = Ok m ∧
    base64_encode_using_maps m errno (replicate 4 0) 4 [a] 1 = Ok (b64_text al [a], 4, errno) ∧
    base64_decode_using_maps m errno dest (zlen dest) (b64_text al [a]) 4 = Ok (dest, -1, EDOM).
Proof.
  intros Hn Hl Hb HA Hpad Ha Hd. destruct (init_maps_for al Hn Hl Hb) as (m & Hm & HM). exists m. split; [done|].
  assert (Hsrc : Forall is_byte [a]) by (by apply Forall_singleton). split.
  - pose proof (encode_ok al m errno [a] (replicate 4 0) 4 Hsrc) as He. by apply He.
  - assert (Hbt := text_bytes al [a] Hl Hb Hsrc). set (t := b64_text al [a]) in *.
    unfold base64_decode_using_maps. change (base64_decoded_length 4) with 3. rewrite (proj2 (Z.ltb_ge _ _)) by lia.
    cbn [decode_loop]. change (4 <? u64 (4 - 0)) with false. cbn [mbind res_bind negb]. cbv iota. change (u64 (4 - 0)) with 4.
    assert (Hu : unpad t = take 2 (letters al (a * 2 ^ 16))).
    { apply (unpad_id _ 2), Forall_take, letters_not_pad; [done|done|]. unfold is_byte in Ha. lia. }
    destruct dest as [|d0 [|d1 [|d2 D]]]; unfold zlen in Hd; cbn [length] in Hd; try lia.
    pose proof (tail_quartet al m errno [] d0 d1 d2 D [] t Hbt) as Hq. rewrite Hu in Hq. cbn [app] in Hq.
    change (zlen []) with 0 in Hq. change (zlen t) with 4 in Hq. rewrite Hq by (cbn; lia).
    rewrite number_app. change (replicate (4 - length (take 2 (letters al (a * 2 ^ 16)))) 65) with [65; 65].
    destruct (number al 0 (take 2 (letters al (a * 2 ^ 16)))) as [n|]; cbn [mbind option_bind number]; [|done].
    rewrite (proj2 (digit_None al 65)) by done. done.
Qed.
