(* ===== verification/EditDistance.v ===== *)
(** * Edit distances (ccan/edit_distance)

    The distance of two arrays of characters under the four measures, in the
    configuration of edit_distance-params.h: all costs are 1, so they are symmetric,
    and no fast search is defined; what the preprocessor keeps for other configurations
    is not compiled.  The cost macros do not use their arguments.
    [ed_dist] and [ed_size] are [unsigned int]; a pointer into an array is the list of
    the cells from there on; [junk] gives the content of memory that has not been
    written.  The result of [malloc] is not checked: a null pointer is then followed. *)
From S2P Require Import Prelude.
From S2P Require Import Rule.
#[local] Open Scope Z_scope.

Inductive ed_measure := EDIT_DISTANCE_LCS | EDIT_DISTANCE_LEV | EDIT_DISTANCE_RDL | EDIT_DISTANCE_DL.
Definition ed_code (m : ed_measure) : Z :=
  match m with EDIT_DISTANCE_LCS => 1 | EDIT_DISTANCE_LEV => 2 | EDIT_DISTANCE_RDL => 3 | EDIT_DISTANCE_DL => 4 end.

Definition ED_STACK_DIST_VALS : Z := 512.
Definition ED_MIN2 (a b : Z) : Z := if a <? b then a else b.
Definition ED_MIN3 (a b c : Z) : Z := if a <? b then (if a <? c then a else c) else (if b <? c then b else c).
(** [ED_ELEM_EQUAL], and [ED_HASH_ELEM] of a character given as its byte. *)
Definition ED_ELEM_EQUAL (a b : Z) : bool := a =? b.
Definition ED_HASH_ELEM (e : Z) : Z := u8 e.

Section distance.
Context `{Allocator} (junk : Z → Z).

Definition fresh (n : Z) : list Z := junk <$> seqZ 0 n.

(** The local array when it is large enough, else [n] cells of [malloc]. *)
Definition dist_cells (on_stack : bool) (n : Z) : res (list Z) :=
  if on_stack then Ok (fresh ED_STACK_DIST_VALS)
  else if alloc_ok (u64 (n * 4)) then Ok (fresh n) else Err ENull.

(** The row with the costs to delete the first elements, at [dist[off]]. *)
Definition init_row (dist : list Z) (off slen : Z) : res (list Z) :=
  dist ← aset dist off 0;
  mfor 1 (slen + 1) (λ i dist, x ← aget dist (off + i - 1); aset dist (off + i) (u32 (x + 1))) dist.

(** ** Longest common subsequence *)
Definition lcs_cell (src tgt : list Z) (j i : Z) (st : list Z * Z) : res (list Z * Z) :=
  let '(dist, diagdist) := st in
  nextdiagdist ← aget dist i;
  s ← aget src (i - 1); t ← aget tgt (j - 1);
  dist ← (if ED_ELEM_EQUAL s t then aset dist i diagdist
          else
            x ← aget dist i; let insdist := u32 (x + 1) in
            x ← aget dist (i - 1); let deldist := u32 (x + 1) in
            aset dist i (ED_MIN2 insdist deldist));
  Ok (dist, nextdiagdist).

Definition lcs_row (src tgt : list Z) (slen j : Z) (dist : list Z) : res (list Z) :=
  diagdist ← aget dist 0;
  x ← aget dist 0;
  dist ← aset dist 0 (u32 (x + 1));
  '(dist, _) ← mfor 1 (slen + 1) (lcs_cell src tgt j) (dist, diagdist);
  Ok dist.

Definition edit_distance_lcs (src : list Z) (slen : Z) (tgt : list Z) (tlen : Z) : res Z :=
  dist ← dist_cells (slen <? ED_STACK_DIST_VALS) (u32 (slen + 1));
  dist ← init_row dist 0 slen;
  dist ← mfor 1 (tlen + 1) (lcs_row src tgt slen) dist;
  aget dist slen.

(** ** Levenshtein *)
Definition lev_cell (src tgt : list Z) (j i : Z) (st : list Z * Z) : res (list Z * Z) :=
  let '(dist, diagdist) := st in
  nextdiagdist ← aget dist i;
  s ← aget src (i - 1); t ← aget tgt (j - 1);
  dist ← (if ED_ELEM_EQUAL s t then aset dist i diagdist
          else
            x ← aget dist i; let insdist := u32 (x + 1) in
            x ← aget dist (i - 1); let deldist := u32 (x + 1) in
            let subdist := u32 (diagdist + 1) in
            aset dist i (ED_MIN3 insdist deldist subdist));
  Ok (dist, nextdiagdist).

Definition lev_row (src tgt : list Z) (slen j : Z) (dist : list Z) : res (list Z) :=
  diagdist ← aget dist 0;
  x ← aget dist 0;
  dist ← aset dist 0 (u32 (x + 1));
  '(dist, _) ← mfor 1 (slen + 1) (lev_cell src tgt j) (dist, diagdist);
  Ok dist.

Definition edit_distance_lev (src : list Z) (slen : Z) (tgt : list Z) (tlen : Z) : res Z :=
  dist ← dist_cells (slen <? ED_STACK_DIST_VALS) (u32 (slen + 1));
  dist ← init_row dist 0 slen;
  dist ← mfor 1 (tlen + 1) (lev_row src tgt slen) dist;
  aget dist slen.

(** ** Restricted Damerau-Levenshtein

    Two rows in one array; [dist] and [prevdist] are the offsets of the rows. *)
Definition rdl_cell (src tgt : list Z) (dist prevdist j i : Z) (st : list Z * Z * Z) : res (list Z * Z * Z) :=
  let '(distmem, diagdist1, diagdist2) := st in
  nextdiagdist ← aget distmem (dist + i);
  s ← aget src (i - 1); t ← aget tgt (j - 1);
  distmem ← (if ED_ELEM_EQUAL s t then x ← aget distmem (prevdist + i - 1); aset distmem (dist + i) x
    else
      x ← aget distmem (prevdist + i); let insdist := u32 (x + 1) in
      x ← aget distmem (dist + i - 1); let deldist := u32 (x + 1) in
      x ← aget distmem (prevdist + i - 1); let subdist := u32 (x + 1) in
      distmem ← aset distmem (dist + i) (ED_MIN3 insdist deldist subdist);
      transposed ← (if (1 <? j) && (1 <? i) then
                      s2 ← aget src (i - 2);
                      if ED_ELEM_EQUAL s2 t then t2 ← aget tgt (j - 2); Ok (ED_ELEM_EQUAL s t2) else Ok false
                    else Ok false);
      if (transposed : bool) then
        let tradist := u32 (diagdist2 + 1) in
        x ← aget distmem (dist + i); aset distmem (dist + i) (ED_MIN2 x tradist)
      else Ok distmem);
  Ok (distmem, nextdiagdist, diagdist1).

Definition rdl_row (src tgt : list Z) (slen j : Z) (st : list Z * Z * Z) : res (list Z * Z * Z) :=
  let '(distmem, dist, prevdist) := st in
  diagdist1 ← aget distmem prevdist;
  let '(dist, prevdist) := (prevdist, dist) in
  x ← aget distmem prevdist;
  distmem ← aset distmem dist (u32 (x + 1));
  '(distmem, _, _) ← mfor 1 (slen + 1) (rdl_cell src tgt dist prevdist j) (distmem, diagdist1, 0);
  Ok (distmem, dist, prevdist).

Definition edit_distance_rdl (src : list Z) (slen : Z) (tgt : list Z) (tlen : Z) : res Z :=
  distmem ← dist_cells (slen <? ED_STACK_DIST_VALS / 2) (u32 (slen + 1) * 2);
  distmem ← init_row distmem 0 slen;
  '(distmem, dist, _) ← mfor 1 (tlen + 1) (rdl_row src tgt slen) (distmem, 0, slen + 1);
  aget distmem (dist + slen).

(** ** Damerau-Levenshtein

    The whole matrix, with a row and a column of [maxdist] in front; [dist] is the offset
    of the cell for column 0 of the current row. *)
Definition dl_cell (src tgt : list Z) (slen dist prevdist : Z) (lasttgt : list Z) (j i : Z) (st : list Z * Z) : res (list Z * Z) :=
  let '(distmem, lastsrc) := st in
  let i1 := lastsrc in
  s ← aget src (i - 1);
  j1 ← aget lasttgt (ED_HASH_ELEM s);
  t ← aget tgt (j - 1);
  if ED_ELEM_EQUAL s t then
    x ← aget distmem (prevdist + i - 1);
    distmem ← aset distmem (dist + i) x;
    Ok (distmem, i)
  else
    x ← aget distmem (prevdist + i); let insdist := u32 (x + 1) in
    x ← aget distmem (dist + i - 1); let deldist := u32 (x + 1) in
    x ← aget distmem (prevdist + i - 1); let subdist := u32 (x + 1) in
    distmem ← aset distmem (dist + i) (ED_MIN3 insdist deldist subdist);
    swpdist ← aget distmem (u64 (j1 * u32 (slen + 2) + i1));
    let swpdist := u32 (swpdist + u32 (j - j1 - 1)) in
    let swpdist := u32 (swpdist + 1) in
    let swpdist := u32 (swpdist + u32 (i - i1 - 1)) in
    x ← aget distmem (dist + i);
    distmem ← aset distmem (dist + i) (ED_MIN2 x swpdist);
    Ok (distmem, lastsrc).

Definition dl_row (src tgt : list Z) (slen maxdist j : Z) (st : list Z * Z * list Z) : res (list Z * Z * list Z) :=
  let '(distmem, dist, lasttgt) := st in
  let prevdist := dist in
  let dist := dist + u32 (slen + 2) in
  distmem ← aset distmem (dist - 1) maxdist;
  x ← aget distmem prevdist;
  distmem ← aset distmem dist (u32 (x + 1));
  '(distmem, _) ← mfor 1 (slen + 1) (dl_cell src tgt slen dist prevdist lasttgt j) (distmem, 0);
  t ← aget tgt (j - 1);
  lasttgt ← aset lasttgt (ED_HASH_ELEM t) j;
  Ok (distmem, dist, lasttgt).

Definition edit_distance_dl (src : list Z) (slen : Z) (tgt : list Z) (tlen : Z) : res Z :=
  let matsize := u64 ((slen + 2) * u32 (tlen + 2)) in
  distmem ← dist_cells (matsize <=? ED_STACK_DIST_VALS) matsize;
  let lasttgt := replicate 256 0 in
  let maxdist := u32 (slen + tlen) in
  distmem ← mfor 0 (u32 (slen + 2)) (λ i distmem, aset distmem i maxdist) distmem;
  let dist := u32 (slen + 3) in
  distmem ← aset distmem (dist - 1) maxdist;
  distmem ← init_row distmem dist slen;
  '(distmem, dist, _) ← mfor 1 (tlen + 1) (dl_row src tgt slen maxdist) (distmem, dist, lasttgt);
  aget distmem (dist + slen).

(** ** The distance *)

(** The loops over the common prefix and the common suffix. *)
Fixpoint strip_prefix (fuel : nat) (src : list Z) (slen : Z) (tgt : list Z) (tlen : Z) : res (list Z * Z * list Z * Z) :=
  match fuel with
  | O => Err EFuel
  | S fuel =>
    if (0 <? slen) && (0 <? tlen) then
      s ← aget src 0; t ← aget tgt 0;
      if ED_ELEM_EQUAL s t then strip_prefix fuel (drop 1 src) (slen - 1) (drop 1 tgt) (tlen - 1) else Ok (src, slen, tgt, tlen)
    else Ok (src, slen, tgt, tlen)
  end.

Fixpoint strip_suffix (fuel : nat) (src : list Z) (slen : Z) (tgt : list Z) (tlen : Z) : res (Z * Z) :=
  match fuel with
  | O => Err EFuel
  | S fuel =>
    if (0 <? slen) && (0 <? tlen) then
      s ← aget src (slen - 1); t ← aget tgt (tlen - 1);
      if ED_ELEM_EQUAL s t then strip_suffix fuel src (slen - 1) tgt (tlen - 1) else Ok (slen, tlen)
    else Ok (slen, tlen)
  end.

Definition edit_distance (src : list Z) (slen : Z) (tgt : list Z) (tlen : Z) (measure : Z) : res Z :=
  '(src, slen, tgt, tlen) ← strip_prefix (S (Z.to_nat slen)) src slen tgt tlen;
  '(slen, tlen) ← strip_suffix (S (Z.to_nat slen)) src slen tgt tlen;
  let '(src, slen, tgt, tlen) := if tlen <? slen then (tgt, tlen, src, slen) else (src, slen, tgt, tlen) in
  if slen =? 0 then Ok (u32 tlen) else
  if measure =? 1 then edit_distance_lcs src slen tgt tlen
  else if measure =? 2 then edit_distance_lev src slen tgt tlen
  else if measure =? 3 then edit_distance_rdl src slen tgt tlen
  else if measure =? 4 then edit_distance_dl src slen tgt tlen
  else Ok (u32 (-1)).
End distance.
