(* ===== verification/EditSpec.v ===== *)
(** * What an edit distance is (ccan/edit_distance)

    [edits m s t n]: the elements of [s] can be aligned with those of [t] at cost [n],
    by the operations the measure [m] allows.  [least m s t n]: [n] is the smallest
    cost.  The recurrences of the least cost at the heads of the lists, which the
    programs evaluate row by row, and the symmetries that [edit_distance] uses. *)
From S2P Require Import Prelude.
From S2P Require Import EditDistance.
#[local] Open Scope Z_scope.

Definition sub_ok (m : ed_measure) : Prop := m ≠ EDIT_DISTANCE_LCS.

(** Transposed elements may be separated by deletions and insertions only under the
    unrestricted measure. *)
Definition tra_ok (m : ed_measure) (u v : list Z) : Prop :=
  match m with EDIT_DISTANCE_RDL => u = [] ∧ v = [] | EDIT_DISTANCE_DL => True | _ => False end.

Inductive edits (m : ed_measure) : list Z → list Z → Z → Prop :=
  | ed_nil : edits m [] [] 0
  | ed_keep c s t n : edits m s t n → edits m (c :: s) (c :: t) n
  | ed_del c s t n : edits m s t n → edits m (c :: s) t (n + 1)
  | ed_ins c s t n : edits m s t n → edits m s (c :: t) (n + 1)
  | ed_sub c d s t n : sub_ok m → edits m s t n → edits m (c :: s) (d :: t) (n + 1)
  | ed_tra a b u v s t n : tra_ok m u v → edits m s t n →
      edits m (a :: u ++ b :: s) (b :: v ++ a :: t) (n + zlen u + zlen v + 1).

Definition at_most (m : ed_measure) (s t : list Z) (n : Z) : Prop := ∃ k, k ≤ n ∧ edits m s t k.
Definition least (m : ed_measure) (s t : list Z) (n : Z) : Prop := edits m s t n ∧ ∀ k, edits m s t k → n ≤ k.

Section alignments.
Context (m : ed_measure).
Implicit Types (s t u v : list Z).

Lemma edits_cost s t n n' : n = n' → edits m s t n → edits m s t n'.
Proof. by intros ->. Qed.

Lemma edits_dels u s t n : edits m s t n → edits m (u ++ s) t (n + zlen u).
Proof.
  intros He. induction u as [|c u IH]; cbn [app]; [eapply edits_cost, He; unfold zlen; cbn [length]; lia|].
  eapply edits_cost, ed_del, IH. unfold zlen. cbn [length]. lia.
Qed.
Lemma edits_inss v s t n : edits m s t n → edits m s (v ++ t) (n + zlen v).
Proof.
  intros He. induction v as [|c v IH]; cbn [app]; [eapply edits_cost, He; unfold zlen; cbn [length]; lia|].
  eapply edits_cost, ed_ins, IH. unfold zlen. cbn [length]. lia.
Qed.

Lemma edits_nonneg s t n : edits m s t n → 0 ≤ n.
Proof. induction 1; unfold zlen in *; lia. Qed.

Lemma edits_all s t : edits m s t (zlen s + zlen t).
Proof.
  pose proof (edits_dels s _ _ _ (edits_inss t _ _ _ (ed_nil m))) as He. rewrite !app_nil_r in He.
  eapply edits_cost, He. lia.
Qed.

Lemma edits_app s t n s' t' n' : edits m s t n → edits m s' t' n' → edits m (s ++ s') (t ++ t') (n + n').
Proof.
  intros He He'. induction He as [|c s t n He IH|c s t n He IH|c s t n He IH|c d s t n Hs He IH|a b u v s t n Ht He IH]; cbn [app].
  - done.
  - by apply ed_keep.
  - eapply edits_cost, ed_del, IH. lia.
  - eapply edits_cost, ed_ins, IH. lia.
  - eapply edits_cost, ed_sub, IH; [lia|done].
  - rewrite <- !app_assoc. cbn [app]. eapply edits_cost, ed_tra, IH; [lia|done].
Qed.

Lemma tra_ok_sym u v : tra_ok m u v → tra_ok m v u.
Proof. destruct m; cbn; tauto. Qed.
Lemma tra_ok_rev u v : tra_ok m u v → tra_ok m (rev u) (rev v).
Proof. destruct m; cbn; try tauto. intros [-> ->]. done. Qed.

Lemma edits_sym s t n : edits m s t n → edits m t s n.
Proof.
  induction 1; [constructor|by constructor..|by apply ed_sub|].
  eapply edits_cost, ed_tra; [|by apply tra_ok_sym|done]. lia.
Qed.

Lemma edits_rev s t n : edits m s t n → edits m (rev s) (rev t) n.
Proof.
  induction 1 as [|c s t n He IH|c s t n He IH|c s t n He IH|c d s t n Hs He IH|a b u v s t n Ht He IH]; cbn [rev].
  - constructor.
  - eapply edits_cost, edits_app, ed_keep, ed_nil; [|done]. lia.
  - rewrite <- (app_nil_r (rev t)). apply (edits_app _ _ n _ _ (0 + 1)); [done|]. apply ed_del, ed_nil.
  - rewrite <- (app_nil_r (rev s)). apply (edits_app _ _ n _ _ (0 + 1)); [done|]. apply ed_ins, ed_nil.
  - apply (edits_app _ _ n _ _ (0 + 1)); [done|]. apply ed_sub; [done|constructor].
  - rewrite !rev_app_distr. cbn [rev]. rewrite <- !app_assoc. cbn [app].
    eapply edits_cost; [|apply edits_app; [exact IH|]]; [|apply ed_tra; [by apply tra_ok_rev|constructor]].
    unfold zlen. rewrite !length_rev. lia.
Qed.

(** Without the first element of one list the cost grows by at most one. *)
Lemma edits_drop_tgt s c t n : edits m s (c :: t) n → at_most m s t (n + 1).
Proof.
  remember (c :: t) as t' eqn:E. intros He. revert c t E. unfold at_most.
  induction He as [|c s t n He IH|c s t n He IH|c s t n He IH|c d s t n Hs He IH|a b u v s t n Ht He IH]; intros c' t' E; simplify_eq.
  - exists (n + 1). split; [lia|]. by apply ed_del.
  - destruct (IH c' t' eq_refl) as (k & Hk & Hk'). exists (k + 1). split; [lia|]. by apply ed_del.
  - exists n. split; [lia|done].
  - exists (n + 1). split; [lia|]. by apply ed_del.
  - exists (n + zlen (u ++ [c']) + zlen v). split; [rewrite zlen_app; unfold zlen; cbn [length]; lia|].
    apply edits_inss, ed_keep. rewrite cons_middle, app_assoc. by apply edits_dels.
Qed.

Lemma edits_drop_src c s t n : edits m (c :: s) t n → at_most m s t (n + 1).
Proof.
  intros He. apply edits_sym, edits_drop_tgt in He as (k & Hk & He). exists k. split; [done|]. by apply edits_sym.
Qed.

(** An element both lists begin with may be kept. *)
Lemma edits_same c s t n : edits m (c :: s) (c :: t) n → at_most m s t n.
Proof.
  intros He. inversion He as [|? ? ? ? He'|? ? ? k He'|? ? ? k He'|? ? ? ? k ? He'|a b u v s' t' k ? He']; subst.
  - by exists n.
  - apply edits_drop_tgt in He'. done.
  - apply edits_drop_src in He'. done.
  - exists k. split; [lia|done].
  - exists (k + zlen u + zlen v). split; [lia|]. by apply edits_inss, edits_dels, ed_keep.
Qed.

(** ** The least cost *)
Lemma least_unique s t n n' : least m s t n → least m s t n' → n = n'.
Proof. intros [H1 H2] [H3 H4]. apply H2 in H3. apply H4 in H1. lia. Qed.

Lemma least_bounds s t n : least m s t n → 0 ≤ n ≤ zlen s + zlen t.
Proof. intros [H1 H2]. split; [by eapply edits_nonneg|]. apply H2, edits_all. Qed.

Lemma least_at_most s t n k : least m s t n → at_most m s t k → n ≤ k.
Proof. intros [_ H2] (k' & Hk & H3). apply H2 in H3. lia. Qed.

Lemma least_intro s t n : edits m s t n → (∀ k, edits m s t k → n ≤ k) → least m s t n.
Proof. done. Qed.

Lemma least_sym s t n : least m s t n → least m t s n.
Proof. intros [H1 H2]. split; [by apply edits_sym|]. intros k Hk. by apply H2, edits_sym. Qed.

Lemma least_rev s t n : least m (rev s) (rev t) n → least m s t n.
Proof.
  intros [H1 H2]. split; [rewrite <- (rev_involutive s), <- (rev_involutive t); by apply edits_rev|].
  intros k Hk. by apply H2, edits_rev.
Qed.

Lemma least_nil_r s : least m s [] (zlen s).
Proof.
  split; [eapply edits_cost, edits_all; unfold zlen; cbn [length]; lia|].
  induction s as [|c s IH]; intros k Hk; [by eapply edits_nonneg|].
  inversion Hk as [| |? ? ? k' Hk'| | |]; subst. apply IH in Hk'. unfold zlen in *. cbn [length]. lia.
Qed.
Lemma least_nil_l t : least m [] t (zlen t).
Proof. apply least_sym, least_nil_r. Qed.

Lemma least_keep c s t n : least m s t n → least m (c :: s) (c :: t) n.
Proof.
  intros [H1 H2]. split; [by apply ed_keep|]. intros k Hk. apply edits_same in Hk as (k' & ? & Hk). apply H2 in Hk. lia.
Qed.

Lemma least_keep_end c s t n : least m s t n → least m (s ++ [c]) (t ++ [c]) n.
Proof.
  intros Hl. apply least_rev. rewrite !rev_app_distr. cbn [rev app]. apply least_keep.
  apply least_rev. by rewrite !rev_involutive.
Qed.
End alignments.

Create HintDb edits.
#[export] Hint Resolve least_nil_l least_nil_r least_keep : edits.

Lemma ED_MIN2_min a b : ED_MIN2 a b = Z.min a b.
Proof. unfold ED_MIN2. destruct (Z.ltb_spec a b); lia. Qed.
Lemma ED_MIN3_min a b c : ED_MIN3 a b c = Z.min a (Z.min b c).
Proof. unfold ED_MIN3. destruct (Z.ltb_spec a b), (Z.ltb_spec a c), (Z.ltb_spec b c); lia. Qed.

Lemma least_edits m s t n : least m s t n → edits m s t n.
Proof. by intros []. Qed.
Lemma least_below m s t n k : least m s t n → edits m s t k → n ≤ k.
Proof. intros [_ H]. apply H. Qed.
#[export] Hint Resolve least_edits : edits.

(** ** Different heads *)
Section heads.
Context (m : ed_measure) (a b : Z) (s t : list Z).

(** A pair of transposed elements at the heads, at cost [n]. *)
Definition transposed (n : Z) : Prop :=
  ∃ u v s' t' k, tra_ok m u v ∧ s = u ++ b :: s' ∧ t = v ++ a :: t' ∧ edits m s' t' k ∧ n = k + zlen u + zlen v + 1.

Lemma transposed_edits n : transposed n → edits m (a :: s) (b :: t) n.
Proof. intros (u & v & s' & t' & k & Ht & -> & -> & He & ->). by apply ed_tra. Qed.

Lemma edits_heads n : a ≠ b → edits m (a :: s) (b :: t) n →
  (∃ k, n = k + 1 ∧ (edits m (a :: s) t k ∨ edits m s (b :: t) k ∨ (sub_ok m ∧ edits m s t k))) ∨ transposed n.
Proof.
  intros Hab He. inversion He as [|? ? ? ? He'|? ? ? k He'|? ? ? k He'|? ? ? ? k ? He'|? ? u v s' t' k ? He']; subst; [done|..].
  1-3: left; eauto 6.
  right. by exists u, v, s', t', k.
Qed.

(** The least cost, from the three neighbours and the transpositions. *)
Lemma least_heads x y z w : sub_ok m → a ≠ b → least m (a :: s) t x → least m s (b :: t) y → least m s t z →
  w ≤ ED_MIN3 (x + 1) (y + 1) (z + 1) → (w = ED_MIN3 (x + 1) (y + 1) (z + 1) ∨ transposed w) →
  (∀ n, transposed n → w ≤ n) → least m (a :: s) (b :: t) w.
Proof.
  intros Hs Hab Hx Hy Hz Hle Hw Ht. rewrite ED_MIN3_min in *. split.
  - destruct Hw as [->|Hw]; [|by apply transposed_edits].
    destruct (Z.min_spec (y + 1) (z + 1)) as [[? ->]|[? ->]]; [destruct (Z.min_spec (x + 1) (y + 1)) as [[? ->]|[? ->]]|
      destruct (Z.min_spec (x + 1) (z + 1)) as [[? ->]|[? ->]]]; eauto using ed_ins, ed_del, ed_sub with edits.
  - intros n He. apply edits_heads in He as [(k & -> & [He|[He|[_ He]]])|He]; [| | |by auto|done].
    + pose proof (least_below _ _ _ _ _ Hx He). lia.
    + pose proof (least_below _ _ _ _ _ Hy He). lia.
    + pose proof (least_below _ _ _ _ _ Hz He). lia.
Qed.
End heads.

Lemma least_lcs a b s t x y : a ≠ b →
  least EDIT_DISTANCE_LCS (a :: s) t x → least EDIT_DISTANCE_LCS s (b :: t) y →
  least EDIT_DISTANCE_LCS (a :: s) (b :: t) (ED_MIN2 (x + 1) (y + 1)).
Proof.
  intros Hab Hx Hy. rewrite ED_MIN2_min. split.
  - destruct (Z.min_spec (x + 1) (y + 1)) as [[? ->]|[? ->]]; eauto using ed_ins, ed_del with edits.
  - intros n He. apply edits_heads in He as [(k & -> & [He|[He|[Hs _]]])|(? & ? & ? & ? & ? & [] & _)].
    + pose proof (least_below _ _ _ _ _ Hx He). lia.
    + pose proof (least_below _ _ _ _ _ Hy He). lia.
    + done.
    + done.
Qed.

Lemma least_lev a b s t x y z : a ≠ b →
  least EDIT_DISTANCE_LEV (a :: s) t x → least EDIT_DISTANCE_LEV s (b :: t) y → least EDIT_DISTANCE_LEV s t z →
  least EDIT_DISTANCE_LEV (a :: s) (b :: t) (ED_MIN3 (x + 1) (y + 1) (z + 1)).
Proof.
  intros Hab Hx Hy Hz. eapply least_heads; eauto; [done|lia|]. intros n (? & ? & ? & ? & ? & [] & _).
Qed.

(** Adjacent elements: no transposition, or one. *)
Lemma least_rdl a b s t x y z : a ≠ b →
  least EDIT_DISTANCE_RDL (a :: s) t x → least EDIT_DISTANCE_RDL s (b :: t) y → least EDIT_DISTANCE_RDL s t z →
  ¬ (head s = Some b ∧ head t = Some a) →
  least EDIT_DISTANCE_RDL (a :: s) (b :: t) (ED_MIN3 (x + 1) (y + 1) (z + 1)).
Proof.
  intros Hab Hx Hy Hz Hno. eapply least_heads; eauto; [done|lia|].
  intros n (? & ? & ? & ? & ? & [-> ->] & -> & -> & _). by destruct Hno.
Qed.

Lemma least_rdl_tra a b s t x y z w : a ≠ b →
  least EDIT_DISTANCE_RDL (a :: b :: s) (a :: t) x → least EDIT_DISTANCE_RDL (b :: s) (b :: a :: t) y →
  least EDIT_DISTANCE_RDL (b :: s) (a :: t) z → least EDIT_DISTANCE_RDL s t w →
  least EDIT_DISTANCE_RDL (a :: b :: s) (b :: a :: t) (ED_MIN2 (ED_MIN3 (x + 1) (y + 1) (z + 1)) (w + 1)).
Proof.
  intros Hab Hx Hy Hz Hw. rewrite ED_MIN2_min. eapply least_heads; eauto; [done|lia|..].
  - destruct (Z.min_spec (ED_MIN3 (x + 1) (y + 1) (z + 1)) (w + 1)) as [[? ->]|[? ->]]; [by left|right].
    exists [], [], s, t, w. split_and!; eauto with edits; [done|]. unfold zlen. cbn [length]. lia.
  - intros n (? & ? & s' & t' & k & [-> ->] & E1 & E2 & He & ->). cbn [app] in E1, E2. simplify_eq.
    pose proof (least_below _ _ _ _ _ Hw He). unfold zlen. cbn [length]. lia.
Qed.

(** Two occurrences: the first one, or one behind it. *)
Lemma first_occurrence (b : Z) u s u0 s0 : b ∉ u0 → u ++ b :: s = u0 ++ b :: s0 →
  (u = u0 ∧ s = s0) ∨ ∃ w, u = u0 ++ b :: w ∧ s0 = w ++ b :: s.
Proof.
  revert u0. induction u as [|c u IH]; intros [|c0 u0] Hb E; cbn [app] in E; simplify_eq.
  - by left.
  - set_solver.
  - right. by exists u.
  - destruct (IH u0) as [[-> ->]|(w & -> & ->)]; [set_solver|done|by left|right; by exists w].
Qed.

(** Separated elements: an element is missing, or the nearest occurrences are best. *)
Lemma least_dl a b s t x y z : a ≠ b →
  least EDIT_DISTANCE_DL (a :: s) t x → least EDIT_DISTANCE_DL s (b :: t) y → least EDIT_DISTANCE_DL s t z →
  b ∉ s ∨ a ∉ t →
  least EDIT_DISTANCE_DL (a :: s) (b :: t) (ED_MIN3 (x + 1) (y + 1) (z + 1)).
Proof.
  intros Hab Hx Hy Hz Hno. eapply least_heads; eauto; [done|lia|].
  intros n (u & v & s' & t' & ? & _ & -> & -> & _). set_solver.
Qed.

Lemma least_dl_tra a b u v s t x y z w : a ≠ b → b ∉ u → a ∉ v →
  least EDIT_DISTANCE_DL (a :: u ++ b :: s) (v ++ a :: t) x → least EDIT_DISTANCE_DL (u ++ b :: s) (b :: v ++ a :: t) y →
  least EDIT_DISTANCE_DL (u ++ b :: s) (v ++ a :: t) z → least EDIT_DISTANCE_DL s t w →
  least EDIT_DISTANCE_DL (a :: u ++ b :: s) (b :: v ++ a :: t)
    (ED_MIN2 (ED_MIN3 (x + 1) (y + 1) (z + 1)) (w + zlen u + zlen v + 1)).
Proof.
  intros Hab Hu Hv Hx Hy Hz Hw. rewrite ED_MIN2_min. eapply least_heads; eauto; [done|lia|..].
  - destruct (Z.min_spec (ED_MIN3 (x + 1) (y + 1) (z + 1)) (w + zlen u + zlen v + 1)) as [[? ->]|[? ->]]; [by left|right].
    exists u, v, s, t, w. by split_and!; eauto with edits.
  - intros n (u' & v' & s' & t' & k & _ & E1 & E2 & He & ->). symmetry in E1, E2.
    apply first_occurrence in E1 as [[-> ->]|(w1 & -> & ->)]; [| |done];
    (apply first_occurrence in E2 as [[-> ->]|(w2 & -> & ->)]; [| |done]).
    + pose proof (least_below _ _ _ _ _ Hw He). lia.
    + pose proof (least_below _ _ _ _ _ Hw (edits_inss _ w2 _ _ _ (ed_ins _ a _ _ _ He))). rewrite zlen_app. unfold zlen in *. cbn [length]. lia.
    + pose proof (least_below _ _ _ _ _ Hw (edits_dels _ w1 _ _ _ (ed_del _ b _ _ _ He))). rewrite zlen_app. unfold zlen in *. cbn [length]. lia.
    + pose proof (least_below _ _ _ _ _ Hw (edits_inss _ w2 _ _ _ (ed_ins _ a _ _ _ (edits_dels _ w1 _ _ _ (ed_del _ b _ _ _ He))))).
      rewrite !zlen_app. unfold zlen in *. cbn [length]. lia.
Qed.
