(* ===== verification/EditTables.v ===== *)
(** * The distances by rows (ccan/edit_distance)

    [edit_distance_lcs], [edit_distance_lev] and [edit_distance_rdl] fill the rows of the
    matrix of the least costs of all pairs of prefixes, in place; [edit_distance_dl] keeps
    the whole matrix, and where each element was seen last. *)
From S2P Require Import Prelude.
From S2P Require Import Rule.
From S2P Require Import EditDistance.
From S2P Require Import EditSpec.
#[local] Open Scope Z_scope.

(** ** Cells and loops *)
Lemma u32_id n : 0 ≤ n < 2 ^ 32 → u32 n = n.
Proof. apply Z.mod_small. Qed.

(** The row of deletions. *)
Lemma init_row_ok dist off slen : 0 ≤ off → 0 ≤ slen < 2 ^ 32 - 1 → off + slen < zlen dist →
  ∃ d, init_row dist off slen = Ok d ∧ zlen d = zlen dist ∧ (∀ i, 0 ≤ i ≤ slen → aget d (off + i) = Ok i) ∧
    ∀ q, q < off ∨ off + slen < q → aget d q = aget dist q.
Proof.
  intros Ho Hs Hr. unfold init_row. destruct (aset_spec dist off 0) as (d0 & -> & Hl0 & Hg0 & Hq0); [lia|]. cbn [mbind res_bind].
  destruct (mfor_rule (λ k d, zlen d = zlen dist ∧ (∀ i, 0 ≤ i < k → aget d (off + i) = Ok i) ∧
      ∀ q, q < off ∨ off + slen < q → aget d q = aget dist q) 1 (slen + 1)
      (λ i dist, x ← aget dist (off + i - 1); aset dist (off + i) (u32 (x + 1))) d0) as (d & -> & Hl & Hg & Hq).
  - lia.
  - split_and!; [done| |intros q Hq; apply Hq0; lia]. intros i Hi. assert (i = 0) as -> by lia. by rewrite Z.add_0_r.
  - intros i d Hi (Hl & Hg & Hq). replace (off + i - 1) with (off + (i - 1)) by lia. rewrite Hg by lia. cbn [mbind res_bind].
    rewrite u32_id by lia. destruct (aset_spec d (off + i) (i - 1 + 1)) as (d' & -> & Hl' & Hg' & Hq'); [lia|].
    exists d'. split_and!; [done|lia| |].
    + intros k Hk. destruct (decide (k = i)) as [->|]; [rewrite Hg'; f_equal; lia|]. rewrite Hq' by lia. apply Hg. lia.
    + intros q Hq2. rewrite Hq' by lia. auto.
  - exists d. split_and!; [done..| |done]. intros i Hi. apply Hg. lia.
Qed.

Section cells.
Context `{Allocator} (junk : Z → Z).

Lemma fresh_zlen n : 0 ≤ n → zlen (fresh junk n) = n.
Proof. intros Hn. unfold fresh, zlen. rewrite length_fmap, length_seqZ. lia. Qed.

Lemma dist_cells_ok on_stack n : AllocTotal → 0 ≤ n → (on_stack = true → n ≤ ED_STACK_DIST_VALS) →
  ∃ d, dist_cells junk on_stack n = Ok d ∧ n ≤ zlen d.
Proof.
  intros Ha Hn Hs. unfold dist_cells. destruct on_stack.
  - exists (fresh junk ED_STACK_DIST_VALS). split; [done|]. rewrite fresh_zlen by (unfold ED_STACK_DIST_VALS; lia). auto.
  - rewrite alloc_total. exists (fresh junk n). by rewrite fresh_zlen.
Qed.
End cells.

(** ** The matrix *)
Section matrix.
Context (m : ed_measure) (src tgt : list Z) (slen tlen : Z).
Context (Hslen : 0 ≤ slen ≤ zlen src) (Htlen : 0 ≤ tlen ≤ zlen tgt) (Hmax : slen + tlen < 2 ^ 31).

Definition prefix_rev (l : list Z) (i : Z) : list Z := rev (take (Z.to_nat i) l).

Lemma prefix_rev_S l i c : 1 ≤ i → aget l (i - 1) = Ok c → prefix_rev l i = c :: prefix_rev l (i - 1).
Proof.
  intros Hi Hc. apply aget_Ok in Hc as [_ Hc]. unfold prefix_rev.
  replace (Z.to_nat i) with (S (Z.to_nat (i - 1))) by lia. rewrite (take_S_r _ _ c) by done. by rewrite rev_app_distr.
Qed.

Lemma prefix_rev_zlen l i : 0 ≤ i ≤ zlen l → zlen (prefix_rev l i) = i.
Proof. intros Hi. unfold prefix_rev, zlen in *. rewrite length_rev, length_take. lia. Qed.

(** The cell of column [i] (elements of [src]) and row [j] (elements of [tgt]). *)
Definition entry (i j n : Z) : Prop := least m (prefix_rev src i) (prefix_rev tgt j) n.

Lemma entry_0j j : 0 ≤ j ≤ tlen → entry 0 j j.
Proof.
  intros Hj. unfold entry. change (prefix_rev src 0) with (@nil Z).
  rewrite <- (prefix_rev_zlen tgt j) at 2 by lia. apply least_nil_l.
Qed.
Lemma entry_i0 i : 0 ≤ i ≤ slen → entry i 0 i.
Proof.
  intros Hi. unfold entry. change (prefix_rev tgt 0) with (@nil Z).
  rewrite <- (prefix_rev_zlen src i) at 2 by lia. apply least_nil_r.
Qed.

Lemma entry_bounds i j n : 0 ≤ i ≤ slen → 0 ≤ j ≤ tlen → entry i j n → 0 ≤ n ≤ i + j.
Proof. intros Hi Hj He. apply least_bounds in He. by rewrite !prefix_rev_zlen in He by lia. Qed.

Lemma entry_keep i j c n : 1 ≤ i → 1 ≤ j → aget src (i - 1) = Ok c → aget tgt (j - 1) = Ok c →
  entry (i - 1) (j - 1) n → entry i j n.
Proof. intros. unfold entry. rewrite (prefix_rev_S src i c), (prefix_rev_S tgt j c) by done. by apply least_keep. Qed.

(** The whole arrays. *)
Lemma entry_all n : slen = zlen src → tlen = zlen tgt → entry slen tlen n → least m src tgt n.
Proof.
  intros Hs Ht He. apply least_rev. unfold entry, prefix_rev in He.
  rewrite !take_ge in He by (unfold zlen in *; lia). done.
Qed.

(** ** One row, in place

    Columns below [k] belong to row [j], the others still to the row before. *)
Definition row (j k : Z) (dist : list Z) : Prop :=
  slen < zlen dist ∧ ∀ i, 0 ≤ i ≤ slen → ∃ n, aget dist i = Ok n ∧ entry i (if i <? k then j else j - 1) n.

Lemma row_set j i dist v : 0 ≤ i ≤ slen → row j i dist → entry i j v →
  ∃ dist', aset dist i v = Ok dist' ∧ row j (i + 1) dist'.
Proof.
  intros Hi [Hl Hrow] Hv. destruct (aset_spec dist i v) as (dist' & -> & Hl' & Hg & Hq); [lia|].
  exists dist'. split; [done|]. split; [lia|]. intros q Hq'. destruct (decide (q = i)) as [->|Hne].
  - exists v. by replace (i <? i + 1) with true by lia.
  - rewrite Hq by done. destruct (Hrow q Hq') as (n & Hn & He). exists n. split; [done|].
    replace (q <? i + 1) with (q <? i); [done|]. destruct (Z.ltb_spec q i), (Z.ltb_spec q (i + 1)); done || lia.
Qed.

Lemma row_next j dist : row j (slen + 1) dist → row (j + 1) 0 dist.
Proof.
  intros [Hl Hrow]. split; [done|]. intros i Hi. destruct (Hrow i Hi) as (n & Hn & He). exists n. split; [done|].
  replace (i <? slen + 1) with true in He by lia. replace (i <? 0) with false by lia. by replace (j + 1 - 1) with j by lia.
Qed.

(** What a cell has to do, and the rows that follow. *)
Definition cell_ok (cell : Z → Z → list Z * Z → res (list Z * Z)) : Prop :=
  ∀ j i dist diag, 1 ≤ j ≤ tlen → 1 ≤ i ≤ slen → row j i dist → entry (i - 1) (j - 1) diag →
  ∃ dist' next, cell j i (dist, diag) = Ok (dist', next) ∧ row j (i + 1) dist' ∧ entry i (j - 1) next.

Lemma rows_ok `{Allocator} (junk : Z → Z) cell : AllocTotal → cell_ok cell →
  ∃ n, entry slen tlen n ∧
    (dist ← dist_cells junk (slen <? ED_STACK_DIST_VALS) (u32 (slen + 1));
     dist ← init_row dist 0 slen;
     dist ← mfor 1 (tlen + 1) (λ j dist,
       diagdist ← aget dist 0;
       x ← aget dist 0;
       dist ← aset dist 0 (u32 (x + 1));
       '(dist, _) ← mfor 1 (slen + 1) (cell j) (dist, diagdist);
       Ok dist) dist;
     aget dist slen) = Ok n.
Proof.
  intros Ha Hcell. rewrite u32_id by lia.
  destruct (dist_cells_ok junk (slen <? ED_STACK_DIST_VALS) (slen + 1)) as (d & -> & Hd); [done|lia|unfold ED_STACK_DIST_VALS; lia|].
  cbn [mbind res_bind]. destruct (init_row_ok d 0 slen) as (d0 & -> & Hl0 & Hg0 & _); [lia..|]. cbn [mbind res_bind].
  match goal with |- context [mfor 1 (tlen + 1) ?f d0] => destruct (mfor_rule (λ j d, row j 0 d) 1 (tlen + 1) f d0) as (d1 & -> & Hl1 & Hr1) end.
  - lia.
  - split; [lia|]. intros i Hi. exists i. split; [by apply (Hg0 i)|]. replace (i <? 0) with false by lia. by apply entry_i0.
  - intros j dist Hj Hrow. destruct (proj2 Hrow 0) as (x & Hx & He); [lia|]. change (0 <? 0) with false in He. cbv iota in He.
    assert (Hxb := entry_bounds 0 (j - 1) x ltac:(lia) ltac:(lia) He).
    rewrite Hx. cbn [mbind res_bind]. rewrite u32_id by lia.
    assert (x = j - 1) as -> by (eapply least_unique; [exact He|apply entry_0j; lia]). replace (j - 1 + 1) with j by lia.
    destruct (row_set j 0 dist j) as (dist0 & -> & Hrow0); [lia|done|apply entry_0j; lia|]. cbn [mbind res_bind].
    destruct (mfor_rule (λ i st, row j i st.1 ∧ entry (i - 1) (j - 1) st.2) 1 (slen + 1) (cell j) (dist0, j - 1)) as ([d2 ?] & -> & Hrow2 & _).
    + lia.
    + split; [done|exact He].
    + intros i [d2 diag] Hi [Hr2 Hd2]. destruct (Hcell j i d2 diag) as (d3 & next & -> & Hr3 & Hn3); [lia..|done|done|].
      exists (d3, next). split; [done|]. split; [done|]. cbn [snd]. by replace (i + 1 - 1) with i by lia.
    + cbn [mbind res_bind]. exists d2. split; [done|]. by apply row_next.
  - cbn [mbind res_bind]. destruct (Hr1 slen) as (n & -> & Hn); [lia|]. exists n. split; [|done].
    replace (slen <? 0) with false in Hn by lia. by replace (tlen + 1 - 1) with tlen in Hn by lia.
Qed.

(** The neighbours of a cell. *)
Lemma row_here j i dist : 0 ≤ i ≤ slen → row j i dist → ∃ n, aget dist i = Ok n ∧ entry i (j - 1) n.
Proof. intros Hi [_ Hrow]. destruct (Hrow i Hi) as (n & Hn & He). exists n. by rewrite Z.ltb_irrefl in He. Qed.
Lemma row_left j i dist : 1 ≤ i ≤ slen → row j i dist → ∃ n, aget dist (i - 1) = Ok n ∧ entry (i - 1) j n.
Proof.
  intros Hi [_ Hrow]. destruct (Hrow (i - 1)) as (n & Hn & He); [lia|]. exists n. by replace (i - 1 <? i) with true in He by lia.
Qed.
End matrix.

Section measures.
Context (src tgt : list Z) (slen tlen : Z).
Context (Hslen : 0 ≤ slen ≤ zlen src) (Htlen : 0 ≤ tlen ≤ zlen tgt) (Hmax : slen + tlen < 2 ^ 31).

(** Everything a cell of measure [m] reads, and where the costs do not wrap. *)
Lemma cell_facts m j i dist diag : 1 ≤ j ≤ tlen → 1 ≤ i ≤ slen → row m src tgt slen j i dist → entry m src tgt (i - 1) (j - 1) diag →
  ∃ a b x y, aget src (i - 1) = Ok a ∧ aget tgt (j - 1) = Ok b ∧ aget dist i = Ok x ∧ aget dist (i - 1) = Ok y ∧
    entry m src tgt i (j - 1) x ∧ entry m src tgt (i - 1) j y ∧
    u32 (x + 1) = x + 1 ∧ u32 (y + 1) = y + 1 ∧ u32 (diag + 1) = diag + 1.
Proof.
  intros Hj Hi Hrow Hdiag.
  destruct (row_here m src tgt slen j i dist ltac:(lia) Hrow) as (x & Hx & Hex).
  destruct (row_left m src tgt slen j i dist ltac:(lia) Hrow) as (y & Hy & Hey).
  destruct (aget_in src (i - 1)) as [a Ha]; [lia|]. destruct (aget_in tgt (j - 1)) as [b Hb]; [lia|].
  pose proof (entry_bounds m src tgt slen tlen Hslen Htlen i (j - 1) x ltac:(lia) ltac:(lia) Hex).
  pose proof (entry_bounds m src tgt slen tlen Hslen Htlen (i - 1) j y ltac:(lia) ltac:(lia) Hey).
  pose proof (entry_bounds m src tgt slen tlen Hslen Htlen (i - 1) (j - 1) diag ltac:(lia) ltac:(lia) Hdiag).
  exists a, b, x, y. split_and!; try done; apply u32_id; lia.
Qed.

(** The cell of equal elements. *)
Lemma cell_same m j i dist diag c : 1 ≤ j → 1 ≤ i ≤ slen → row m src tgt slen j i dist → entry m src tgt (i - 1) (j - 1) diag →
  aget src (i - 1) = Ok c → aget tgt (j - 1) = Ok c → ∃ d, aset dist i diag = Ok d ∧ row m src tgt slen j (i + 1) d.
Proof. intros Hj Hi Hrow Hdiag Hs Ht. apply row_set; [lia|done|]. eapply entry_keep; eauto; lia. Qed.

Lemma lcs_cell_ok : cell_ok EDIT_DISTANCE_LCS src tgt slen tlen (lcs_cell src tgt).
Proof.
  intros j i dist diag Hj Hi Hrow Hdiag. unfold lcs_cell.
  destruct (cell_facts _ j i dist diag Hj Hi Hrow Hdiag) as (a & b & x & y & Ha & Hb & Hx & Hy & Hex & Hey & Ux & Uy & _).
  rewrite Hx, Ha, Hb. cbn [mbind res_bind]. unfold ED_ELEM_EQUAL. destruct (Z.eqb_spec a b) as [->|Hne].
  - destruct (cell_same EDIT_DISTANCE_LCS j i dist diag b) as (d & -> & Hd); [lia|done..|]. cbn [mbind res_bind]. eauto.
  - rewrite Hy. cbn [mbind res_bind]. rewrite Ux, Uy.
    destruct (row_set EDIT_DISTANCE_LCS src tgt slen j i dist (ED_MIN2 (x + 1) (y + 1))) as (d & -> & Hd); [lia|done| |cbn [mbind res_bind]; eauto].
    unfold entry in *. rewrite (prefix_rev_S src i a) in Hex |- * by (done || lia). rewrite (prefix_rev_S tgt j b) in Hey |- * by (done || lia).
    by apply least_lcs.
Qed.

Lemma lev_cell_ok : cell_ok EDIT_DISTANCE_LEV src tgt slen tlen (lev_cell src tgt).
Proof.
  intros j i dist diag Hj Hi Hrow Hdiag. unfold lev_cell.
  destruct (cell_facts _ j i dist diag Hj Hi Hrow Hdiag) as (a & b & x & y & Ha & Hb & Hx & Hy & Hex & Hey & Ux & Uy & Uz).
  rewrite Hx, Ha, Hb. cbn [mbind res_bind]. unfold ED_ELEM_EQUAL. destruct (Z.eqb_spec a b) as [->|Hne].
  - destruct (cell_same EDIT_DISTANCE_LEV j i dist diag b) as (d & -> & Hd); [lia|done..|]. cbn [mbind res_bind]. eauto.
  - rewrite Hy. cbn [mbind res_bind]. rewrite Ux, Uy, Uz.
    destruct (row_set EDIT_DISTANCE_LEV src tgt slen j i dist (ED_MIN3 (x + 1) (y + 1) (diag + 1))) as (d & -> & Hd); [lia|done| |cbn [mbind res_bind]; eauto].
    unfold entry in *. rewrite (prefix_rev_S src i a) in Hex |- * by (done || lia). rewrite (prefix_rev_S tgt j b) in Hey |- * by (done || lia).
    by apply least_lev.
Qed.

Context `{Allocator} (junk : Z → Z) (Ha : AllocTotal).

Lemma lcs_ok : ∃ n, edit_distance_lcs junk src slen tgt tlen = Ok n ∧ entry EDIT_DISTANCE_LCS src tgt slen tlen n.
Proof.
  destruct (rows_ok EDIT_DISTANCE_LCS src tgt slen tlen Hslen Htlen Hmax junk (lcs_cell src tgt) Ha lcs_cell_ok) as (n & Hn & E). by exists n.
Qed.
Lemma lev_ok : ∃ n, edit_distance_lev junk src slen tgt tlen = Ok n ∧ entry EDIT_DISTANCE_LEV src tgt slen tlen n.
Proof.
  destruct (rows_ok EDIT_DISTANCE_LEV src tgt slen tlen Hslen Htlen Hmax junk (lev_cell src tgt) Ha lev_cell_ok) as (n & Hn & E). by exists n.
Qed.
End measures.

(** * The restricted distance with transpositions (ccan/edit_distance)

    [edit_distance_rdl] keeps two rows in one array and the two diagonal cells of the row
    before them. *)

Lemma aset_aset {A} (l l' : list A) i x y : aset l i x = Ok l' → aset l' i y = aset l i y.
Proof.
  intros Hx. apply aset_Ok in Hx as [Hi ->]. rewrite !aset_in by (rewrite ?zlen_insert; done). by rewrite list_insert_insert_eq.
Qed.

Section rdl.
Context (src tgt : list Z) (slen tlen : Z).
Context (Hslen : 0 ≤ slen ≤ zlen src) (Htlen : 0 ≤ tlen ≤ zlen tgt) (Hmax : slen + tlen < 2 ^ 31).
Abbreviation entry := (entry EDIT_DISTANCE_RDL src tgt).
Abbreviation prefix_rev := EditTables.prefix_rev.

(** Row [j - 1] at [p]; at [d] row [j] up to column [i], behind it row [j - 2] if there is one. *)
Definition two_rows (d p j i : Z) (mem : list Z) : Prop :=
  2 * (slen + 1) ≤ zlen mem ∧ (d = 0 ∧ p = slen + 1 ∨ d = slen + 1 ∧ p = 0) ∧
  (∀ k, 0 ≤ k ≤ slen → ∃ n, aget mem (p + k) = Ok n ∧ entry k (j - 1) n) ∧
  (∀ k, 0 ≤ k ≤ slen → ∃ n, aget mem (d + k) = Ok n ∧ (let r := if k <? i then j else j - 2 in 0 ≤ r → entry k r n)).

Lemma two_rows_set d p j i mem v : 0 ≤ i ≤ slen → two_rows d p j i mem → entry i j v →
  ∃ mem', aset mem (d + i) v = Ok mem' ∧ two_rows d p j (i + 1) mem'.
Proof.
  intros Hi (Hl & Hdp & Hp & Hd) Hv. destruct (aset_spec mem (d + i) v) as (mem' & -> & Hl' & Hg & Hq); [lia|].
  exists mem'. split; [done|]. split_and!; [lia|done|..]; intros k Hk.
  - rewrite Hq by lia. auto.
  - destruct (decide (k = i)) as [->|Hne].
    + exists v. split; [done|]. by replace (i <? i + 1) with true by lia.
    + rewrite Hq by lia. destruct (Hd k Hk) as (n & Hn & He). exists n. split; [done|].
      replace (k <? i + 1) with (k <? i); [done|]. destruct (Z.ltb_spec k i), (Z.ltb_spec k (i + 1)); done || lia.
Qed.

(** The diagonals: cells of row [j - 2], if there is one. *)
Definition diagonal (i j n : Z) : Prop := 0 ≤ i → 2 ≤ j → entry i (j - 2) n.

(** The value of a cell whose elements differ. *)
Definition rdl_value (j i a b x y z w : Z) : Z :=
  if (1 <? j) && (1 <? i) && bool_decide (head (prefix_rev src (i - 1)) = Some b ∧ head (prefix_rev tgt (j - 1)) = Some a)
  then ED_MIN2 (ED_MIN3 (x + 1) (y + 1) (z + 1)) (w + 1) else ED_MIN3 (x + 1) (y + 1) (z + 1).

Lemma rdl_value_ok j i a b x y z w : 1 ≤ j → 1 ≤ i → a ≠ b → aget src (i - 1) = Ok a → aget tgt (j - 1) = Ok b →
  entry i (j - 1) x → entry (i - 1) j y → entry (i - 1) (j - 1) z → diagonal (i - 2) j w → entry i j (rdl_value j i a b x y z w).
Proof.
  intros Hj Hi Hab Ha Hb Hx Hy Hz Hw. unfold EditTables.entry in *.
  rewrite (prefix_rev_S src i a) in Hx |- * by done. rewrite (prefix_rev_S tgt j b) in Hy |- * by done. unfold rdl_value.
  destruct (Z.ltb_spec 1 j); [destruct (Z.ltb_spec 1 i); [case_bool_decide as Hh|]|]; cbn [andb].
  - destruct Hh as [Hs Ht]. unfold diagonal, EditTables.entry in Hw. specialize (Hw ltac:(lia) ltac:(lia)).
    destruct (aget_in src (i - 1 - 1)) as [c Hc]. { apply aget_Ok in Ha as [_ Ha]. apply lookup_lt_Some in Ha. unfold zlen. lia. }
    destruct (aget_in tgt (j - 1 - 1)) as [d Hd]. { apply aget_Ok in Hb as [_ Hb]. apply lookup_lt_Some in Hb. unfold zlen. lia. }
    rewrite (prefix_rev_S src (i - 1) c) in * by (done || lia). rewrite (prefix_rev_S tgt (j - 1) d) in * by (done || lia).
    cbn [head] in Hs, Ht. simplify_eq. replace (i - 1 - 1) with (i - 2) in * by lia. replace (j - 1 - 1) with (j - 2) in * by lia.
    by apply least_rdl_tra.
  - by apply least_rdl.
  - apply least_rdl; try done. assert (i = 1) as -> by lia. cbn. by intros [].
  - apply least_rdl; try done. assert (j = 1) as -> by lia. cbn. by intros [].
Qed.

(** The test of the code. *)
Lemma transposed_test j i a b : 1 ≤ j ≤ tlen → 1 ≤ i ≤ slen →
  (if (1 <? j) && (1 <? i) then
     s2 ← aget src (i - 2);
     if ED_ELEM_EQUAL s2 b then t2 ← aget tgt (j - 2); Ok (ED_ELEM_EQUAL a t2) else Ok false
   else Ok false)
  = Ok ((1 <? j) && (1 <? i) && bool_decide (head (prefix_rev src (i - 1)) = Some b ∧ head (prefix_rev tgt (j - 1)) = Some a)).
Proof.
  intros Hj Hi. destruct (Z.ltb_spec 1 j), (Z.ltb_spec 1 i); cbn [andb]; try done.
  destruct (aget_in src (i - 2)) as [c Hc]; [lia|]. destruct (aget_in tgt (j - 2)) as [d Hd]; [lia|]. rewrite Hc, Hd. cbn [mbind res_bind].
  rewrite (prefix_rev_S src (i - 1) c), (prefix_rev_S tgt (j - 1) d) by (lia || (etrans; [|eassumption]; f_equal; lia)). cbn [head].
  unfold ED_ELEM_EQUAL. destruct (Z.eqb_spec c b) as [->|Hne].
  - f_equal. destruct (Z.eqb_spec a d) as [->|]; [by rewrite bool_decide_true|by rewrite bool_decide_false by naive_solver].
  - by rewrite bool_decide_false by naive_solver.
Qed.

Lemma rdl_cell_ok d p j i mem diag1 diag2 : 1 ≤ j ≤ tlen → 1 ≤ i ≤ slen →
  two_rows d p j i mem → diagonal (i - 1) j diag1 → diagonal (i - 2) j diag2 →
  ∃ mem' next, rdl_cell src tgt d p j i (mem, diag1, diag2) = Ok (mem', next, diag1) ∧ two_rows d p j (i + 1) mem' ∧ diagonal i j next.
Proof.
  intros Hj Hi Hrows Hd1 Hd2. assert (Hrows' := Hrows). destruct Hrows' as (Hl & Hdp & Hp & Hd). unfold rdl_cell.
  destruct (Hd i) as (next & Hnext & Hen); [lia|]. rewrite Z.ltb_irrefl in Hen. cbv zeta in Hen. rewrite Hnext. cbn [mbind res_bind].
  assert (Hdn : diagonal i j next) by (intros _ Hj2; apply Hen; lia).
  destruct (aget_in src (i - 1)) as [a Ha]; [lia|]. destruct (aget_in tgt (j - 1)) as [b Hb]; [lia|]. rewrite Ha, Hb. cbn [mbind res_bind].
  destruct (Hp i) as (x & Hx & Hex); [lia|]. destruct (Hp (i - 1)) as (z & Hz & Hez); [lia|].
  destruct (Hd (i - 1)) as (y & Hy & Hey); [lia|]. replace (i - 1 <? i) with true in Hey by lia. specialize (Hey ltac:(lia)).
  rewrite <- (Z.add_sub_assoc p), <- (Z.add_sub_assoc d). unfold ED_ELEM_EQUAL at 1. destruct (Z.eqb_spec a b) as [->|Hne].
  - rewrite Hz. cbn [mbind res_bind]. destruct (two_rows_set d p j i mem z) as (mem' & -> & Hm); [lia|done|eapply entry_keep; eauto; lia|].
    cbn [mbind res_bind]. eauto.
  - rewrite Hx, Hy, Hz. cbn [mbind res_bind].
    pose proof (entry_bounds _ src tgt slen tlen Hslen Htlen i (j - 1) x ltac:(lia) ltac:(lia) Hex).
    pose proof (entry_bounds _ src tgt slen tlen Hslen Htlen (i - 1) j y ltac:(lia) ltac:(lia) Hey).
    pose proof (entry_bounds _ src tgt slen tlen Hslen Htlen (i - 1) (j - 1) z ltac:(lia) ltac:(lia) Hez).
    rewrite (u32_id (x + 1)), (u32_id (y + 1)), (u32_id (z + 1)) by lia.
    destruct (aset_spec mem (d + i) (ED_MIN3 (x + 1) (y + 1) (z + 1))) as (m1 & Hm1 & _ & Hg1 & _); [lia|].
    rewrite Hm1. cbn [mbind res_bind]. rewrite transposed_test by done. cbn [mbind res_bind].
    assert (Hv := rdl_value_ok j i a b x y z diag2 ltac:(lia) ltac:(lia) Hne Ha Hb Hex Hey Hez Hd2).
    destruct (two_rows_set d p j i mem _ ltac:(lia) Hrows Hv) as (m2 & Hm2 & Hr2). unfold rdl_value in Hm2.
    destruct ((1 <? j) && (1 <? i) && bool_decide _) eqn:Et.
    + assert (Hw : entry (i - 2) (j - 2) diag2) by (apply Hd2; lia).
      pose proof (entry_bounds _ src tgt slen tlen Hslen Htlen (i - 2) (j - 2) diag2 ltac:(lia) ltac:(lia) Hw).
      rewrite Hg1. cbn [mbind res_bind]. rewrite u32_id by lia. rewrite (aset_aset _ _ _ _ _ Hm1), Hm2. cbn [mbind res_bind]. eauto.
    + rewrite Hm2 in Hm1. injection Hm1 as <-. cbn [mbind res_bind]. eauto.
Qed.

Context `{Allocator} (junk : Z → Z) (Ha : AllocTotal).

Lemma rdl_row_ok d p j mem : 1 ≤ j ≤ tlen → two_rows d p j 0 mem →
  ∃ mem', rdl_row src tgt slen j (mem, p, d) = Ok (mem', d, p) ∧ two_rows p d (j + 1) 0 mem'.
Proof.
  intros Hj Hrows. assert (Hrows' := Hrows). destruct Hrows' as (Hl & Hdp & Hp & Hd). unfold rdl_row.
  destruct (Hd 0) as (diag1 & Hdiag & Hed); [lia|]. rewrite Z.add_0_r in Hdiag. change (0 <? 0) with false in Hed. cbv zeta iota in Hed.
  destruct (Hp 0) as (x & Hx & Hex); [lia|]. rewrite Z.add_0_r in Hx.
  rewrite Hdiag. cbn [mbind res_bind]. rewrite Hx. cbn [mbind res_bind].
  assert (x = j - 1) as -> by (eapply least_unique; [exact Hex|apply entry_0j with (tlen := tlen); lia]).
  rewrite u32_id by lia. replace (j - 1 + 1) with j by lia.
  destruct (two_rows_set d p j 0 mem j) as (m0 & Hm0 & Hr0); [lia|done|apply entry_0j with (tlen := tlen); lia|].
  rewrite Z.add_0_r in Hm0. rewrite Hm0. cbn [mbind res_bind].
  destruct (mfor_rule (λ i st, two_rows d p j i st.1.1 ∧ diagonal (i - 1) j st.1.2 ∧ diagonal (i - 2) j st.2)
    1 (slen + 1) (rdl_cell src tgt d p j) (m0, diag1, 0)) as ([[m1 ?] ?] & -> & Hr1 & _).
  - lia.
  - split_and!; [done| |intros ?; cbn in *; lia]. cbn [fst snd]. intros _ Hj2. apply Hed. lia.
  - intros i [[m1 g1] g2] Hi (Hr1 & Hg1 & Hg2). cbn [fst snd] in *.
    destruct (rdl_cell_ok d p j i m1 g1 g2) as (m2 & next & -> & Hr2 & Hn); [lia..|done|done|done|].
    exists (m2, next, g1). split; [done|]. cbn [fst snd]. replace (i + 1 - 1) with i by lia. by replace (i + 1 - 2) with (i - 1) by lia.
  - cbn [mbind res_bind fst] in *. exists m1. split; [done|]. destruct Hr1 as (Hl1 & Hdp1 & Hp1 & Hd1). split_and!; [done|tauto|..]; intros k Hk.
    + destruct (Hd1 k Hk) as (n & Hn & He). exists n. split; [done|]. replace (k <? slen + 1) with true in He by lia.
      replace (j + 1 - 1) with j by lia. apply He. lia.
    + destruct (Hp1 k Hk) as (n & Hn & He). exists n. split; [done|]. replace (k <? 0) with false by lia. cbv zeta.
      replace (j + 1 - 2) with (j - 1) by lia. done.
Qed.

Lemma rdl_ok : ∃ n, edit_distance_rdl junk src slen tgt tlen = Ok n ∧ entry slen tlen n.
Proof.
  unfold edit_distance_rdl. rewrite u32_id by lia.
  destruct (dist_cells_ok junk (slen <? ED_STACK_DIST_VALS / 2) ((slen + 1) * 2)) as (m0 & -> & Hl0);
    [done|lia|change (ED_STACK_DIST_VALS / 2) with 256; unfold ED_STACK_DIST_VALS; lia|]. cbn [mbind res_bind].
  destruct (init_row_ok m0 0 slen) as (m1 & -> & Hl1 & Hg1 & _); [lia..|]. cbn [mbind res_bind].
  destruct (mfor_rule (λ j st, two_rows st.2 st.1.2 j 0 st.1.1) 1 (tlen + 1) (rdl_row src tgt slen) (m1, 0, slen + 1))
    as ([[m2 d] p] & -> & Hl2 & Hdp & Hp & _).
  - lia.
  - split_and!; cbn [fst snd]; [lia|lia|..]; intros k Hk.
    + exists k. split; [by apply (Hg1 k)|]. by apply entry_i0 with (slen := slen).
    + destruct (aget_in m1 (slen + 1 + k)) as [n Hn]; [lia|]. exists n. split; [done|]. replace (k <? 0) with false by lia. cbv zeta. lia.
  - intros j [[m2 p] d] Hj Hr. cbn [fst snd] in *. destruct (rdl_row_ok d p j m2) as (m3 & -> & Hr3); [lia|done|]. by exists (m3, d, p).
  - cbn [mbind res_bind fst snd] in *. destruct (Hp slen) as (n & Hn & He); [lia|]. exists n.
    split; [done|]. by replace (tlen + 1 - 1) with tlen in He by lia.
Qed.
End rdl.

(** * The distance with transpositions (ccan/edit_distance)

    [edit_distance_dl] fills the whole matrix, with a border of [maxdist], and finds the
    nearest occurrences of the elements with [lasttgt] and [lastsrc]. *)

(** ** The last occurrence

    [q] is one more than the last index below [n] that holds [c], or 0. *)
Definition last_at (l : list Z) (n c q : Z) : Prop :=
  0 ≤ q ≤ n ∧ (1 ≤ q → aget l (q - 1) = Ok c) ∧ ∀ k, q ≤ k < n → aget l k ≠ Ok c.

Lemma last_at_0 l c : last_at l 0 c 0.
Proof. split_and!; lia. Qed.

Lemma last_at_hit l n c : 0 ≤ n → aget l n = Ok c → last_at l (n + 1) c (n + 1).
Proof. intros Hn Hc. split_and!; [lia|lia| |lia]. intros _. by replace (n + 1 - 1) with n by lia. Qed.

Lemma last_at_miss l n c q : last_at l n c q → aget l n ≠ Ok c → last_at l (n + 1) c q.
Proof.
  intros (Hq & Hc & Hno) Hn. split_and!; [lia|lia|done|]. intros k Hk. destruct (decide (k = n)) as [->|]; [done|]. apply Hno. lia.
Qed.

Lemma last_at_none l n c : n ≤ zlen l → last_at l n c 0 → c ∉ prefix_rev l n.
Proof.
  intros Hl (Hq & _ & Hno) Hin. unfold prefix_rev in Hin. apply list_elem_of_In, in_rev, list_elem_of_In in Hin.
  apply list_elem_of_lookup in Hin as [k Hk]. apply lookup_take_Some in Hk as [Hk Hlt].
  apply (Hno (Z.of_nat k)); [lia|]. apply aget_lookup; [lia|]. by rewrite Nat2Z.id.
Qed.

Lemma last_at_split l n c q : n ≤ zlen l → 1 ≤ q → last_at l n c q →
  ∃ u, prefix_rev l n = u ++ c :: prefix_rev l (q - 1) ∧ (c ∉ u) ∧ zlen u = n - q.
Proof.
  intros Hl Hq (Hqn & Hc & Hno). specialize (Hc Hq). remember (Z.to_nat (n - q)) as d eqn:Ed.
  revert n Hl Hqn Hno Ed. induction d as [|d IH]; intros n Hl Hqn Hno Ed.
  - assert (n = q) as -> by lia. exists []. rewrite (prefix_rev_S l q c) by done. split_and!; [done|set_solver|unfold zlen; cbn [length]; lia].
  - destruct (aget_in l (n - 1)) as [x Hx]; [lia|]. destruct (IH (n - 1)) as (u & Hu & Hcu & Hlu); [lia..| |lia|].
    { intros k Hk. apply Hno. lia. }
    exists (x :: u). rewrite (prefix_rev_S l n x), Hu by (done || lia). split_and!; [done| |unfold zlen in *; cbn [length]; lia].
    assert (x ≠ c) by (intros ->; by apply (Hno (n - 1)); [lia|]). set_solver.
Qed.

Section dl.
Context (src tgt : list Z) (slen tlen : Z).
Context (Hslen : 0 ≤ slen ≤ zlen src) (Htlen : 0 ≤ tlen ≤ zlen tgt) (Hmax : slen + tlen < 2 ^ 30).
Context (Hsrc : Forall (λ c, 0 ≤ c < 256) src) (Htgt : Forall (λ c, 0 ≤ c < 256) tgt).
Abbreviation entry := (entry EDIT_DISTANCE_DL src tgt).
Abbreviation prefix_rev := EditTables.prefix_rev.

(** ** The matrix with its border *)
Definition idx (k r : Z) : Z := (r + 1) * (slen + 2) + (k + 1).

Lemma idx_inj k r k' r' : -1 ≤ k ≤ slen → -1 ≤ k' ≤ slen → idx k r = idx k' r' → k = k' ∧ r = r'.
Proof.
  unfold idx. intros Hk Hk' E. destruct (Z.lt_trichotomy r r') as [Hr|[->|Hr]]; [exfalso; nia|lia|exfalso; nia].
Qed.

Definition cell_value (k r n : Z) : Prop := if (k <? 0) || (r <? 0) then n = slen + tlen else entry k r n.

(** The rows below [j] and the columns below [i] of row [j] are filled. *)
Definition matrix (j i : Z) (mem : list Z) : Prop :=
  (slen + 2) * (tlen + 2) ≤ zlen mem ∧
  ∀ k r, -1 ≤ k ≤ slen → -1 ≤ r → r < j ∨ r = j ∧ k < i → ∃ n, aget mem (idx k r) = Ok n ∧ cell_value k r n.

Lemma idx_range k r : -1 ≤ k ≤ slen → -1 ≤ r ≤ tlen → 0 ≤ idx k r < (slen + 2) * (tlen + 2).
Proof. unfold idx. intros Hk Hr. nia. Qed.

Lemma matrix_set j i mem v : -1 ≤ i ≤ slen → -1 ≤ j ≤ tlen → matrix j i mem → cell_value i j v →
  ∃ mem', aset mem (idx i j) v = Ok mem' ∧ matrix j (i + 1) mem'.
Proof.
  intros Hi Hj [Hl Hm] Hv. pose proof (idx_range i j Hi Hj).
  destruct (aset_spec mem (idx i j) v) as (mem' & -> & Hl' & Hg & Hq); [lia|]. exists mem'. split; [done|].
  split; [lia|]. intros k r Hk Hr Hkr. destruct (decide (k = i ∧ r = j)) as [[-> ->]|Hne]; [by exists v|].
  rewrite Hq. { apply Hm; [done|done|lia]. } intros E. apply idx_inj in E; [tauto|done|done].
Qed.

Lemma matrix_next j mem : matrix j (slen + 1) mem → matrix (j + 1) (-1) mem.
Proof. intros [Hl Hm]. split; [done|]. intros k r Hk Hr Hkr. apply Hm; lia. Qed.

Lemma matrix_entry j i mem k r : 0 ≤ k ≤ slen → 0 ≤ r → r < j ∨ r = j ∧ k < i → matrix j i mem →
  ∃ n, aget mem (idx k r) = Ok n ∧ entry k r n.
Proof.
  intros Hk Hr Hkr [_ Hm]. destruct (Hm k r) as (n & Hn & Hv); [lia..|]. exists n. split; [done|].
  unfold cell_value in Hv. by replace ((k <? 0) || (r <? 0)) with false in Hv by lia.
Qed.

Lemma entry_value k r n : 0 ≤ k → 0 ≤ r → entry k r n → cell_value k r n.
Proof. intros Hk Hr He. unfold cell_value. by replace ((k <? 0) || (r <? 0)) with false by lia. Qed.

(** The swap: what the code reads, and the value of the cell. *)
Lemma swap_value j i a b i1 j1 x y z n :
  1 ≤ j ≤ tlen → 1 ≤ i ≤ slen → a ≠ b → aget src (i - 1) = Ok a → aget tgt (j - 1) = Ok b →
  last_at src (i - 1) b i1 → last_at tgt (j - 1) a j1 →
  entry i (j - 1) x → entry (i - 1) j y → entry (i - 1) (j - 1) z → cell_value (i1 - 1) (j1 - 1) n →
  entry i j (ED_MIN2 (ED_MIN3 (x + 1) (y + 1) (z + 1)) (n + (j - j1 - 1) + 1 + (i - i1 - 1))).
Proof.
  intros Hj Hi Hab Ha Hb Hi1 Hj1 Hx Hy Hz Hn.
  assert (Hb3 : ED_MIN3 (x + 1) (y + 1) (z + 1) ≤ i + j).
  { rewrite ED_MIN3_min. pose proof (entry_bounds _ src tgt slen tlen Hslen Htlen i (j - 1) x ltac:(lia) ltac:(lia) Hx). lia. }
  unfold EditTables.entry in *. rewrite (prefix_rev_S src i a) in Hx |- * by (done || lia). rewrite (prefix_rev_S tgt j b) in Hy |- * by (done || lia).
  unfold cell_value in Hn. destruct ((i1 - 1 <? 0) || (j1 - 1 <? 0)) eqn:E0.
  - subst n. rewrite ED_MIN2_min, Z.min_l by (destruct Hi1 as [? _], Hj1 as [? _]; lia). apply least_dl; try done.
    destruct (Z.ltb_spec (i1 - 1) 0).
    + left. apply last_at_none; [lia|]. by replace 0 with i1 by (destruct Hi1; lia).
    + right. apply last_at_none; [lia|]. cbn [orb] in E0. by replace 0 with j1 by (destruct Hj1; lia).
  - apply last_at_split in Hi1 as (u & Eu & Hbu & Hlu); [|lia|lia]. apply last_at_split in Hj1 as (v & Ev & Hav & Hlv); [|lia|lia].
    unfold EditTables.entry in Hn. rewrite Eu, Ev in *.
    replace (n + (j - j1 - 1) + 1 + (i - i1 - 1)) with (n + zlen u + zlen v + 1) by lia. by apply least_dl_tra.
Qed.

Lemma dl_cell_ok lasttgt j i mem i1 : 1 ≤ j ≤ tlen → 1 ≤ i ≤ slen → matrix j i mem →
  (∀ c, 0 ≤ c < 256 → ∃ q, aget lasttgt c = Ok q ∧ last_at tgt (j - 1) c q) →
  (∀ b, aget tgt (j - 1) = Ok b → last_at src (i - 1) b i1) →
  ∃ mem' i1', dl_cell src tgt slen (idx 0 j) (idx 0 (j - 1)) lasttgt j i (mem, i1) = Ok (mem', i1') ∧ matrix j (i + 1) mem' ∧
    ∀ b, aget tgt (j - 1) = Ok b → last_at src i b i1'.
Proof.
  intros Hj Hi Hm Hlast Hi1. unfold dl_cell.
  destruct (aget_in src (i - 1)) as [a Ha]; [lia|]. destruct (aget_in tgt (j - 1)) as [b Hb]; [lia|]. rewrite Ha, Hb. cbn [mbind res_bind].
  assert (Ha256 : 0 ≤ a < 256) by (apply aget_Ok in Ha as [_ Ha]; by eapply (Forall_lookup_1 _ _ _ _ Hsrc)).
  unfold ED_HASH_ELEM. unfold u8. rewrite Z.mod_small by done. destruct (Hlast a Ha256) as (j1 & Hj1 & Hl1). rewrite Hj1. cbn [mbind res_bind].
  specialize (Hi1 b Hb).
  destruct (matrix_entry j i mem (i - 1) (j - 1)) as (z & Hz & Hez); [lia..|done|].
  destruct (matrix_entry j i mem i (j - 1)) as (x & Hx & Hex); [lia..|done|].
  destruct (matrix_entry j i mem (i - 1) j) as (y & Hy & Hey); [lia..|done|].
  replace (idx 0 j + i - 1) with (idx (i - 1) j) by (unfold idx; lia). replace (idx 0 (j - 1) + i - 1) with (idx (i - 1) (j - 1)) by (unfold idx; lia).
  replace (idx 0 j + i) with (idx i j) by (unfold idx; lia). replace (idx 0 (j - 1) + i) with (idx i (j - 1)) by (unfold idx; lia).
  unfold ED_ELEM_EQUAL. destruct (Z.eqb_spec a b) as [->|Hne].
  - rewrite Hz. cbn [mbind res_bind]. destruct (matrix_set j i mem z) as (mem' & -> & Hm'); [lia|lia|done| |].
    { apply entry_value; [lia|lia|]. eapply entry_keep; eauto; lia. }
    cbn [mbind res_bind]. exists mem', i. split_and!; [done|done|]. intros b' Hb'. assert (b' = b) as -> by congruence.
    replace i with (i - 1 + 1) by lia. apply last_at_hit; [lia|done].
  - rewrite Hx, Hy, Hz. cbn [mbind res_bind].
    pose proof (entry_bounds _ src tgt slen tlen Hslen Htlen i (j - 1) x ltac:(lia) ltac:(lia) Hex).
    pose proof (entry_bounds _ src tgt slen tlen Hslen Htlen (i - 1) j y ltac:(lia) ltac:(lia) Hey).
    pose proof (entry_bounds _ src tgt slen tlen Hslen Htlen (i - 1) (j - 1) z ltac:(lia) ltac:(lia) Hez).
    rewrite (u32_id (x + 1)), (u32_id (y + 1)), (u32_id (z + 1)) by lia.
    pose proof (idx_range i j ltac:(lia) ltac:(lia)). destruct Hm as [Hl Hm].
    destruct (aset_spec mem (idx i j) (ED_MIN3 (x + 1) (y + 1) (z + 1))) as (m1 & Hm1 & _ & Hg1 & Hq1); [lia|].
    rewrite Hm1. cbn [mbind res_bind].
    assert (Hr1 : 0 ≤ i1 ≤ i - 1) by apply Hi1. assert (Hr2 : 0 ≤ j1 ≤ j - 1) by apply Hl1.
    rewrite (u32_id (slen + 2)) by lia.
    assert (Hidx : u64 (j1 * (slen + 2) + i1) = idx (i1 - 1) (j1 - 1)).
    { unfold idx, u64. rewrite Z.mod_small by nia. lia. }
    rewrite Hidx, (Hq1 (idx (i1 - 1) (j1 - 1))) by (intros E; apply idx_inj in E; lia).
    destruct (Hm (i1 - 1) (j1 - 1)) as (n & Hn & Hv); [lia..|]. rewrite Hn. cbn [mbind res_bind]. rewrite Hg1. cbn [mbind res_bind].
    assert (Hnb : 0 ≤ n ≤ slen + tlen).
    { unfold cell_value in Hv. destruct ((i1 - 1 <? 0) || (j1 - 1 <? 0)) eqn:E0; [lia|].
      pose proof (entry_bounds _ src tgt slen tlen Hslen Htlen (i1 - 1) (j1 - 1) n ltac:(lia) ltac:(lia) Hv). lia. }
    rewrite (u32_id (j - j1 - 1)), (u32_id (i - i1 - 1)) by lia. rewrite (u32_id (n + _)) by lia.
    rewrite (u32_id (_ + 1)) by lia. rewrite u32_id by lia. rewrite (aset_aset _ _ _ _ _ Hm1).
    assert (He := swap_value j i a b i1 j1 x y z n Hj Hi Hne Ha Hb Hi1 Hl1 Hex Hey Hez Hv).
    destruct (matrix_set j i mem _ ltac:(lia) ltac:(lia) (conj Hl Hm) (entry_value i j _ ltac:(lia) ltac:(lia) He)) as (m2 & -> & Hm2).
    cbn [mbind res_bind]. exists m2, i1. split_and!; [done|done|]. intros b' Hb'. assert (b' = b) as -> by congruence.
    replace i with (i - 1 + 1) by lia. apply last_at_miss; [done|]. congruence.
Qed.

Definition lasttgt_ok (j : Z) (lasttgt : list Z) : Prop :=
  zlen lasttgt = 256 ∧ ∀ c, 0 ≤ c < 256 → ∃ q, aget lasttgt c = Ok q ∧ last_at tgt (j - 1) c q.

Lemma lasttgt_set j b lasttgt : 1 ≤ j → 0 ≤ b < 256 → aget tgt (j - 1) = Ok b → lasttgt_ok j lasttgt →
  ∃ l', aset lasttgt (ED_HASH_ELEM b) j = Ok l' ∧ lasttgt_ok (j + 1) l'.
Proof.
  intros Hj Hb Htb [Hl Hlast]. unfold ED_HASH_ELEM, u8. rewrite Z.mod_small by done.
  destruct (aset_spec lasttgt b j) as (l' & -> & Hl' & Hg & Hq); [lia|]. exists l'. split; [done|]. split; [lia|]. intros c Hc.
  replace (j + 1 - 1) with (j - 1 + 1) by lia. destruct (decide (c = b)) as [->|Hne].
  - exists j. split; [done|]. replace j with (j - 1 + 1) at 2 by lia. apply last_at_hit; [lia|done].
  - rewrite Hq by done. destruct (Hlast c Hc) as (q & Hq1 & Hq2). exists q. split; [done|]. apply last_at_miss; [done|congruence].
Qed.

Lemma dl_row_ok j mem lasttgt : 1 ≤ j ≤ tlen → matrix j (-1) mem → lasttgt_ok j lasttgt →
  ∃ mem' l', dl_row src tgt slen (slen + tlen) j (mem, idx 0 (j - 1), lasttgt) = Ok (mem', idx 0 j, l') ∧
    matrix (j + 1) (-1) mem' ∧ lasttgt_ok (j + 1) l'.
Proof.
  intros Hj Hm Hlast. unfold dl_row. rewrite (u32_id (slen + 2)) by lia.
  replace (idx 0 (j - 1) + (slen + 2)) with (idx 0 j) by (unfold idx; lia). replace (idx 0 j - 1) with (idx (-1) j) by (unfold idx; lia).
  destruct (matrix_set j (-1) mem (slen + tlen)) as (m0 & -> & Hm0); [lia|lia|done|done|]. cbn [mbind res_bind]. change (-1 + 1) with 0 in Hm0.
  destruct (matrix_entry j 0 m0 0 (j - 1)) as (x & Hx & Hex); [lia..|done|]. rewrite Hx. cbn [mbind res_bind].
  assert (x = j - 1) as -> by (eapply least_unique; [exact Hex|apply entry_0j with (tlen := tlen); lia]).
  rewrite u32_id by lia. replace (j - 1 + 1) with j by lia.
  destruct (matrix_set j 0 m0 j) as (m1 & -> & Hm1); [lia|lia|done|apply entry_value; [lia|lia|apply entry_0j with (tlen := tlen); lia]|].
  cbn [mbind res_bind].
  destruct (mfor_rule (λ i st, matrix j i st.1 ∧ ∀ b, aget tgt (j - 1) = Ok b → last_at src (i - 1) b st.2)
    1 (slen + 1) (dl_cell src tgt slen (idx 0 j) (idx 0 (j - 1)) lasttgt j) (m1, 0)) as ([m2 ?] & -> & Hm2 & _).
  - lia.
  - split; [done|]. intros b _. apply last_at_0.
  - intros i [m2 i1] Hi [Hm2 Hi1]. cbn [fst snd] in *.
    destruct (dl_cell_ok lasttgt j i m2 i1) as (m3 & i1' & -> & Hm3 & Hi1'); [lia|lia|done|apply Hlast|done|].
    exists (m3, i1'). split; [done|]. cbn [fst snd]. split; [done|]. by replace (i + 1 - 1) with i by lia.
  - cbn [mbind res_bind fst] in *. destruct (aget_in tgt (j - 1)) as [b Hb]; [lia|]. rewrite Hb. cbn [mbind res_bind].
    assert (Hb256 : 0 ≤ b < 256) by (assert (Hb' := Hb); apply aget_Ok in Hb' as [_ Hb']; by eapply (Forall_lookup_1 _ _ _ _ Htgt)).
    destruct (lasttgt_set j b lasttgt) as (l' & -> & Hl'); [lia|done|done|done|]. cbn [mbind res_bind].
    exists m2, l'. split_and!; [done|by apply matrix_next|done].
Qed.

(** The border in front and the first row. *)
Lemma dl_init_ok mem : (slen + 2) * (tlen + 2) ≤ zlen mem →
  ∃ m, (mem ← mfor 0 (slen + 2) (λ i mem, aset mem i (slen + tlen)) mem;
        mem ← aset mem (slen + 3 - 1) (slen + tlen);
        init_row mem (slen + 3) slen) = Ok m ∧ matrix 1 (-1) m.
Proof.
  intros Hl. destruct (mfor_rule (λ i m, matrix (-1) (i - 1) m) 0 (slen + 2) (λ i mem, aset mem i (slen + tlen)) mem) as (m0 & -> & Hm0).
  - lia.
  - split; [done|]. intros k r Hk Hr. lia.
  - intros i m Hi Hm. destruct (matrix_set (-1) (i - 1) m (slen + tlen)) as (m' & Hs & Hm'); [lia|lia|done| |].
    + unfold cell_value. by rewrite orb_true_r.
    + exists m'. replace (idx (i - 1) (-1)) with i in Hs by (unfold idx; lia). by replace (i + 1 - 1) with (i - 1 + 1) by lia.
  - cbn [mbind res_bind]. replace (slen + 2 - 1) with (slen + 1) in Hm0 by lia. apply matrix_next in Hm0. change (-1 + 1) with 0 in Hm0.
    destruct (matrix_set 0 (-1) m0 (slen + tlen)) as (m1 & Hs & Hm1); [lia|lia|done|done|]. change (-1 + 1) with 0 in Hm1.
    replace (idx (-1) 0) with (slen + 3 - 1) in Hs by (unfold idx; lia). rewrite Hs. cbn [mbind res_bind]. destruct Hm1 as [Hl1 Hm1].
    destruct (init_row_ok m1 (slen + 3) slen) as (m2 & -> & Hl2 & Hg2 & Hq2); [lia|lia|nia|].
    exists m2. split; [done|]. split; [lia|]. intros k r Hk Hr Hkr. destruct (decide (0 ≤ k ∧ r = 0)) as [[Hk0 ->]|Hne].
    + exists k. split; [|apply entry_value; [lia|lia|apply entry_i0 with (slen := slen); lia]].
      replace (idx k 0) with (slen + 3 + k) by (unfold idx; lia). apply Hg2. lia.
    + rewrite Hq2. { apply Hm1; lia. } unfold idx. nia.
Qed.

Context `{Allocator} (junk : Z → Z) (Ha : AllocTotal).

Lemma dl_ok : ∃ n, edit_distance_dl junk src slen tgt tlen = Ok n ∧ entry slen tlen n.
Proof.
  unfold edit_distance_dl. cbv zeta. rewrite (u32_id (tlen + 2)), (u32_id (slen + tlen)), (u32_id (slen + 2)), (u32_id (slen + 3)) by lia.
  assert (Hsz : u64 ((slen + 2) * (tlen + 2)) = (slen + 2) * (tlen + 2)) by (unfold u64; apply Z.mod_small; nia). rewrite Hsz.
  destruct (dist_cells_ok junk ((slen + 2) * (tlen + 2) <=? ED_STACK_DIST_VALS) ((slen + 2) * (tlen + 2))) as (m0 & -> & Hl0); [done|nia|lia|].
  cbn [mbind res_bind]. destruct (dl_init_ok m0 Hl0) as (m1 & Hinit & Hm1).
  apply bind_Ok in Hinit as (m2 & -> & Hinit). cbn [mbind res_bind]. apply bind_Ok in Hinit as (m3 & E & Hinit).
  rewrite E. cbn [mbind res_bind]. rewrite Hinit. cbn [mbind res_bind].
  destruct (mfor_rule (λ j st, matrix j (-1) st.1.1 ∧ st.1.2 = idx 0 (j - 1) ∧ lasttgt_ok j st.2)
    1 (tlen + 1) (dl_row src tgt slen (slen + tlen)) (m1, slen + 3, replicate 256 0)) as ([[m4 d] l] & -> & Hm4 & Hd & _).
  - lia.
  - cbn [fst snd]. split_and!; [done|unfold idx; lia|]. split; [done|]. intros c Hc. exists 0. split; [|apply last_at_0].
    apply aget_lookup; [lia|]. apply lookup_replicate_2. lia.
  - intros j [[m4 d] l] Hj (Hm4 & Hd & Hl4). cbn [fst snd] in *. subst d.
    destruct (dl_row_ok j m4 l) as (m5 & l' & -> & Hm5 & Hl5); [lia|done|done|]. exists (m5, idx 0 j, l'). cbn [fst snd].
    split_and!; [done|done| |done]. by replace (j + 1 - 1) with j by lia.
  - cbn [mbind res_bind fst snd] in *. subst d. destruct (matrix_entry (tlen + 1) (-1) m4 slen tlen) as (n & Hn & He); [lia..|done|].
    exists n. replace (idx 0 (tlen + 1 - 1) + slen) with (idx slen tlen) by (unfold idx; lia). done.
Qed.
End dl.
