(* ===== verification/EditProps.v ===== *)
(** * What the edit distance promises (ccan/edit_distance)

    [edit_distance] returns the least cost of an alignment under its measure; for the
    measures without transpositions this is the smallest number of single operations
    that turn one array into the other. *)
From Stdlib Require Import Strings.String.
From stdpp Require Import relations.
From S2P Require Import Prelude.
From S2P Require Import Rule.
From S2P Require Import CString.
From S2P Require Import EditDistance.
From S2P Require Import EditSpec.
From S2P Require Import EditTables.
#[local] Open Scope Z_scope.

(** ** Operations *)
Definition swap_ok (m : ed_measure) : Prop := m = EDIT_DISTANCE_RDL ∨ m = EDIT_DISTANCE_DL.

(** One operation at any place. *)
Inductive op (m : ed_measure) : list Z → list Z → Prop :=
  | op_ins p c q : op m (p ++ q) (p ++ c :: q)
  | op_del p c q : op m (p ++ c :: q) (p ++ q)
  | op_sub p c d q : sub_ok m → op m (p ++ c :: q) (p ++ d :: q)
  | op_swap p a b q : swap_ok m → op m (p ++ a :: b :: q) (p ++ b :: a :: q).

Section operations.
Context (m : ed_measure).
Implicit Types (s t : list Z).

Lemma op_cons c s t : op m s t → op m (c :: s) (c :: t).
Proof.
  intros [p c' q|p c' q|p c' d q Hs|p a b q Hs].
  - apply (op_ins m (c :: p)).
  - apply (op_del m (c :: p)).
  - by apply (op_sub m (c :: p)).
  - by apply (op_swap m (c :: p)).
Qed.

Lemma ops_cons c n s t : nsteps (op m) n s t → nsteps (op m) n (c :: s) (c :: t).
Proof. apply nsteps_congruence. intros. by apply op_cons. Qed.

Lemma ops_del u s : nsteps (op m) (length u) (u ++ s) s.
Proof. induction u as [|c u IH]; [constructor|]. eapply nsteps_l; [|exact IH]. apply (op_del m []). Qed.
Lemma ops_ins v t : nsteps (op m) (length v) t (v ++ t).
Proof. induction v as [|c v IH]; [constructor|]. eapply nsteps_r; [exact IH|]. apply (op_ins m []). Qed.

(** An alignment is a sequence of as many operations. *)
Lemma edits_ops s t n : edits m s t n → nsteps (op m) (Z.to_nat n) s t.
Proof.
  intros He. assert (Hpos : ∀ s t n, edits m s t n → Z.to_nat (n + 1) = S (Z.to_nat n)).
  { intros s' t' n' He'. apply edits_nonneg in He'. lia. }
  induction He as [|c s t n He IH|c s t n He IH|c s t n He IH|c d s t n Hs He IH|a b u v s t n Ht He IH].
  - constructor.
  - by apply ops_cons.
  - rewrite (Hpos _ _ _ He). eapply nsteps_l; [|exact IH]. apply (op_del m []).
  - rewrite (Hpos _ _ _ He). eapply nsteps_r; [exact IH|]. apply (op_ins m []).
  - rewrite (Hpos _ _ _ He). eapply nsteps_l; [by apply (op_sub m [])|]. by apply ops_cons.
  - apply edits_nonneg in He. replace (Z.to_nat (n + zlen u + zlen v + 1)) with (length u + (1 + (Z.to_nat n + length v)))%nat by (unfold zlen; lia).
    eapply nsteps_trans; [apply ops_cons, ops_del|]. eapply nsteps_trans.
    { apply nsteps_once. apply (op_swap m [] a b). destruct m; cbn in Ht; [done|done|by left|by right]. }
    eapply nsteps_trans; [apply ops_cons, ops_cons, IH|]. apply ops_cons, ops_ins.
Qed.

(** Without transpositions, the part that becomes a prefix can be told apart. *)
Lemma edits_split s p q n : ¬ swap_ok m → edits m s (p ++ q) n →
  ∃ s1 s2 n1 n2, s = s1 ++ s2 ∧ edits m s1 p n1 ∧ edits m s2 q n2 ∧ n = n1 + n2.
Proof.
  intros Hno. remember (p ++ q) as t eqn:E. intros He. revert p E.
  induction He as [|c s t n He IH|c s t n He IH|c s t n He IH|c d s t n Hs He IH|a b u v s t n Ht He IH]; intros p E.
  - symmetry in E. apply app_nil in E as [-> ->]. exists [], [], 0, 0. split_and!; [done|constructor|constructor|lia].
  - destruct p as [|c' p]; cbn [app] in E; [subst; exists [], (c :: s), 0, n; split_and!; [done|constructor|by constructor|lia]|].
    injection E as <- E. destruct (IH p E) as (s1 & s2 & n1 & n2 & -> & H1 & H2 & ->). exists (c :: s1), s2, n1, n2. by split_and!; try constructor.
  - destruct (IH p E) as (s1 & s2 & n1 & n2 & -> & H1 & H2 & ->). exists (c :: s1), s2, (n1 + 1), n2. split_and!; [done|by constructor|done|lia].
  - destruct p as [|c' p]; cbn [app] in E; [subst; exists [], s, 0, (n + 1); split_and!; [done|constructor|by constructor|lia]|].
    injection E as <- E. destruct (IH p E) as (s1 & s2 & n1 & n2 & -> & H1 & H2 & ->). exists s1, s2, (n1 + 1), n2. split_and!; [done|by constructor|done|lia].
  - destruct p as [|c' p]; cbn [app] in E; [subst; exists [], (c :: s), 0, (n + 1); split_and!; [done|constructor|by apply ed_sub|lia]|].
    injection E as <- E. destruct (IH p E) as (s1 & s2 & n1 & n2 & -> & H1 & H2 & ->).
    exists (c :: s1), s2, (n1 + 1), n2. split_and!; [done|by apply ed_sub|done|lia].
  - exfalso. apply Hno. destruct m; cbn in Ht; [done|done|by left|by right].
Qed.

(** Another first element of the target costs at most one more. *)
Lemma edits_change s c d t n : sub_ok m → ¬ swap_ok m → edits m s (c :: t) n → at_most m s (d :: t) (n + 1).
Proof.
  intros Hsub Hno. remember (c :: t) as t' eqn:E. intros He. revert t E. unfold at_most.
  induction He as [|c' s t' n He IH|c' s t' n He IH|c' s t' n He IH|c' d' s t' n Hs He IH|a b u v s t' n Ht He IH]; intros t E; simplify_eq.
  - exists (n + 1). split; [lia|]. by apply ed_sub.
  - destruct (IH t eq_refl) as (k & Hk & Hk'). exists (k + 1). split; [lia|]. by apply ed_del.
  - exists (n + 1). split; [lia|]. by apply ed_ins.
  - exists (n + 1). split; [lia|]. by apply ed_sub.
  - exfalso. apply Hno. destruct m; cbn in Ht; [done|done|by left|by right].
Qed.

Lemma edits_op s t t' n : ¬ swap_ok m → edits m s t n → op m t t' → at_most m s t' (n + 1).
Proof.
  intros Hno He Hop. destruct Hop as [p c q|p c q|p c d q Hs|p a b q Hs]; [..|done];
    apply edits_split in He as (s1 & s2 & n1 & n2 & -> & H1 & H2 & ->); try done.
  - exists (n1 + (n2 + 1)). split; [lia|]. apply edits_app; [done|by constructor].
  - apply edits_drop_tgt in H2 as (k & Hk & H2). exists (n1 + k). split; [lia|]. by apply edits_app.
  - eapply edits_change in H2 as (k & Hk & H2); [|done|done]. exists (n1 + k). split; [lia|]. by apply edits_app.
Qed.

(** A sequence of operations is an alignment that costs no more. *)
Lemma ops_edits n s t : ¬ swap_ok m → nsteps (op m) n s t → at_most m s t (Z.of_nat n).
Proof.
  intros Hno. revert t. induction n as [|n IH]; intros t Hn.
  - inversion Hn; subst. exists 0. split; [lia|]. clear. induction t as [|c t IH]; by constructor.
  - apply nsteps_inv_r in Hn as (t' & Hn & Hop). apply IH in Hn as (k & Hk & He).
    eapply edits_op in He as (k' & Hk' & He); [|done..]. exists k'. split; [lia|done].
Qed.
End operations.

(** ** Common ends *)
Section strip.
Context (m : ed_measure).

(** The lengths name parts of the arrays. *)
Definition within (src : list Z) (slen : Z) (tgt : list Z) (tlen : Z) : Prop := 0 ≤ slen ≤ zlen src ∧ 0 ≤ tlen ≤ zlen tgt.
Definition least_of (src : list Z) (slen : Z) (tgt : list Z) (tlen n : Z) : Prop :=
  least m (take (Z.to_nat slen) src) (take (Z.to_nat tlen) tgt) n.

Lemma strip_prefix_ok fuel src slen tgt tlen : within src slen tgt tlen → slen < Z.of_nat fuel →
  ∃ k, 0 ≤ k ≤ slen ∧ k ≤ tlen ∧
    strip_prefix fuel src slen tgt tlen = Ok (drop (Z.to_nat k) src, slen - k, drop (Z.to_nat k) tgt, tlen - k) ∧
    ∀ n, least_of (drop (Z.to_nat k) src) (slen - k) (drop (Z.to_nat k) tgt) (tlen - k) n → least_of src slen tgt tlen n.
Proof.
  revert src slen tgt tlen. induction fuel as [|fuel IH]; intros src slen tgt tlen [Hs Ht] Hf; [lia|]. cbn [strip_prefix].
  assert (Hstop : ∃ k, 0 ≤ k ≤ slen ∧ k ≤ tlen ∧ Ok (src, slen, tgt, tlen) = Ok (drop (Z.to_nat k) src, slen - k, drop (Z.to_nat k) tgt, tlen - k) ∧
    ∀ n, least_of (drop (Z.to_nat k) src) (slen - k) (drop (Z.to_nat k) tgt) (tlen - k) n → least_of src slen tgt tlen n).
  { exists 0. rewrite !drop_0, !Z.sub_0_r. split_and!; done || lia. }
  destruct (Z.ltb_spec 0 slen), (Z.ltb_spec 0 tlen); cbn [andb]; try exact Hstop.
  destruct src as [|a src]; [unfold zlen in Hs; cbn [length] in Hs; lia|]. destruct tgt as [|b tgt]; [unfold zlen in Ht; cbn [length] in Ht; lia|].
  change (aget (a :: src) 0) with (Ok a). change (aget (b :: tgt) 0) with (Ok b). cbn [mbind res_bind].
  unfold ED_ELEM_EQUAL. destruct (Z.eqb_spec a b) as [->|]; [|exact Hstop]. clear Hstop. cbn [drop].
  destruct (IH src (slen - 1) tgt (tlen - 1)) as (k & Hk & Hk2 & E & Hleast); [unfold within, zlen in *; cbn [length] in *; lia|lia|].
  exists (k + 1). replace (Z.to_nat (k + 1)) with (S (Z.to_nat k)) by lia. cbn [drop].
  replace (slen - (k + 1)) with (slen - 1 - k) by lia. replace (tlen - (k + 1)) with (tlen - 1 - k) by lia. split_and!; [lia|lia|lia|done|].
  intros n Hn. apply Hleast in Hn. unfold least_of in *. replace (Z.to_nat slen) with (S (Z.to_nat (slen - 1))) by lia.
  replace (Z.to_nat tlen) with (S (Z.to_nat (tlen - 1))) by lia. by apply least_keep.
Qed.

Lemma strip_suffix_ok fuel src slen tgt tlen : within src slen tgt tlen → slen < Z.of_nat fuel →
  ∃ k, 0 ≤ k ≤ slen ∧ k ≤ tlen ∧ strip_suffix fuel src slen tgt tlen = Ok (slen - k, tlen - k) ∧
    ∀ n, least_of src (slen - k) tgt (tlen - k) n → least_of src slen tgt tlen n.
Proof.
  revert slen tlen. induction fuel as [|fuel IH]; intros slen tlen [Hs Ht] Hf; [lia|]. cbn [strip_suffix].
  assert (Hstop : ∃ k, 0 ≤ k ≤ slen ∧ k ≤ tlen ∧ Ok (slen, tlen) = Ok (slen - k, tlen - k) ∧
    ∀ n, least_of src (slen - k) tgt (tlen - k) n → least_of src slen tgt tlen n).
  { exists 0. rewrite !Z.sub_0_r. split_and!; done || lia. }
  destruct (Z.ltb_spec 0 slen), (Z.ltb_spec 0 tlen); cbn [andb]; try exact Hstop.
  destruct (aget_in src (slen - 1)) as [a Ha]; [lia|]. destruct (aget_in tgt (tlen - 1)) as [b Hb]; [lia|]. rewrite Ha, Hb. cbn [mbind res_bind].
  unfold ED_ELEM_EQUAL. destruct (Z.eqb_spec a b) as [->|]; [|exact Hstop]. clear Hstop.
  destruct (IH (slen - 1) (tlen - 1)) as (k & Hk & Hk2 & E & Hleast); [unfold within; lia|lia|].
  exists (k + 1). replace (slen - (k + 1)) with (slen - 1 - k) by lia. replace (tlen - (k + 1)) with (tlen - 1 - k) by lia.
  split_and!; [lia|lia|lia|done|]. intros n Hn. apply Hleast in Hn. unfold least_of in *.
  apply aget_Ok in Ha as [_ Ha]. apply aget_Ok in Hb as [_ Hb].
  replace (Z.to_nat slen) with (S (Z.to_nat (slen - 1))) by lia. replace (Z.to_nat tlen) with (S (Z.to_nat (tlen - 1))) by lia.
  rewrite (take_S_r _ _ _ Ha), (take_S_r _ _ _ Hb). by apply least_keep_end.
Qed.

Lemma entry_least_of src slen tgt tlen n : entry m src tgt slen tlen n → least_of src slen tgt tlen n.
Proof. apply least_rev. Qed.
End strip.

Section distance.
Context `{Allocator} (junk : Z → Z) (Ha : AllocTotal).

(** The part behind the ends. *)
Definition measured (src : list Z) (slen : Z) (tgt : list Z) (tlen measure : Z) : res Z :=
  if slen =? 0 then Ok (u32 tlen) else
  if measure =? 1 then edit_distance_lcs junk src slen tgt tlen
  else if measure =? 2 then edit_distance_lev junk src slen tgt tlen
  else if measure =? 3 then edit_distance_rdl junk src slen tgt tlen
  else if measure =? 4 then edit_distance_dl junk src slen tgt tlen
  else Ok (u32 (-1)).

Abbreviation bytes := (Forall (λ c, 0 ≤ c < 256)).

Lemma measured_ok m src slen tgt tlen : within src slen tgt tlen → slen + tlen < 2 ^ 30 → bytes src → bytes tgt →
  ∃ n, measured src slen tgt tlen (ed_code m) = Ok n ∧ least_of m src slen tgt tlen n.
Proof.
  intros [Hs Ht] Hmax Hbs Hbt. unfold measured. destruct (Z.eqb_spec slen 0) as [->|Hne].
  - exists tlen. rewrite u32_id by lia. split; [done|]. unfold least_of. change (take (Z.to_nat 0) src) with (@nil Z).
    pose proof (least_nil_l m (take (Z.to_nat tlen) tgt)) as Hl. unfold zlen in *. rewrite length_take in Hl.
    by replace (Z.of_nat (Z.to_nat tlen `min` length tgt)) with tlen in Hl by lia.
  - destruct m; cbn [ed_code].
    + destruct (lcs_ok src tgt slen tlen Hs Ht ltac:(lia) junk Ha) as (n & -> & Hn). exists n. split; [done|]. by apply entry_least_of.
    + destruct (lev_ok src tgt slen tlen Hs Ht ltac:(lia) junk Ha) as (n & -> & Hn). exists n. split; [done|]. by apply entry_least_of.
    + destruct (rdl_ok src tgt slen tlen Hs Ht ltac:(lia) junk Ha) as (n & -> & Hn). exists n. split; [done|]. by apply entry_least_of.
    + destruct (dl_ok src tgt slen tlen Hs Ht ltac:(lia) Hbs Hbt junk Ha) as (n & -> & Hn). exists n. split; [done|]. by apply entry_least_of.
Qed.

Lemma distance_ok m src slen tgt tlen : within src slen tgt tlen → slen + tlen < 2 ^ 30 → bytes src → bytes tgt →
  ∃ n, edit_distance junk src slen tgt tlen (ed_code m) = Ok n ∧ least_of m src slen tgt tlen n.
Proof.
  intros [Hs Ht] Hmax Hbs Hbt. unfold edit_distance.
  destruct (strip_prefix_ok m (S (Z.to_nat slen)) src slen tgt tlen) as (k & Hk & Hk2 & -> & Hpre); [done|lia|]. cbn [mbind res_bind].
  set (s := drop (Z.to_nat k) src) in *. set (t := drop (Z.to_nat k) tgt) in *.
  assert (Hw : within s (slen - k) t (tlen - k)) by (subst s t; unfold within, zlen in *; rewrite !length_drop; lia).
  destruct (strip_suffix_ok m (S (Z.to_nat (slen - k))) s (slen - k) t (tlen - k)) as (e & He & He2 & -> & Hsuf); [done|lia|]. cbn [mbind res_bind].
  assert (Hbs' : bytes s) by (by apply Forall_drop). assert (Hbt' : bytes t) by (by apply Forall_drop). destruct Hw as [Hw1 Hw2].
  destruct (Z.ltb_spec (tlen - k - e) (slen - k - e)); cbn [mbind res_bind].
  - destruct (measured_ok m t (tlen - k - e) s (slen - k - e)) as (n & E & Hn); [unfold within; lia|lia|done|done|].
    exists n. split; [exact E|]. apply Hpre, Hsuf. by apply least_sym.
  - destruct (measured_ok m s (slen - k - e) t (tlen - k - e)) as (n & E & Hn); [unfold within; lia|lia|done|done|].
    exists n. split; [exact E|]. by apply Hpre, Hsuf.
Qed.

(** ** Properties *)

(** C20: edit_distance returns the least cost of an alignment.  For every measure, when memory
    can be allocated, it succeeds whatever uninitialised memory holds, reads and writes
    inside its arrays, and returns a cost that an alignment of the arrays has and that no
    alignment under the measure undercuts. *)
Theorem edit_distance_least m src slen tgt tlen : within src slen tgt tlen → slen + tlen < 2 ^ 30 → bytes src → bytes tgt →
  ∃ n, edit_distance junk src slen tgt tlen (ed_code m) = Ok n ∧
    edits m (take (Z.to_nat slen) src) (take (Z.to_nat tlen) tgt) n ∧
    ∀ k, edits m (take (Z.to_nat slen) src) (take (Z.to_nat tlen) tgt) k → n ≤ k.
Proof. intros. by apply distance_ok. Qed.

(** C21: under the measures without transpositions the distance is the smallest number of single
    insertions, deletions and (for the Levenshtein distance) substitutions that turn the
    source into the target, one after the other at any place. *)
Theorem edit_distance_operations m src slen tgt tlen : ¬ swap_ok m → within src slen tgt tlen → slen + tlen < 2 ^ 30 → bytes src → bytes tgt →
  ∃ n : nat, edit_distance junk src slen tgt tlen (ed_code m) = Ok (Z.of_nat n) ∧
    nsteps (op m) n (take (Z.to_nat slen) src) (take (Z.to_nat tlen) tgt) ∧
    ∀ k, nsteps (op m) k (take (Z.to_nat slen) src) (take (Z.to_nat tlen) tgt) → (n ≤ k)%nat.
Proof.
  intros Hno Hw Hmax Hbs Hbt. destruct (distance_ok m src slen tgt tlen Hw Hmax Hbs Hbt) as (n & -> & He & Hleast).
  assert (Hn := edits_nonneg _ _ _ _ He). exists (Z.to_nat n). split_and!; [by rewrite Z2Nat.id|by apply edits_ops|].
  intros k Hk. apply ops_edits in Hk as (k' & Hk' & Hk); [|done]. apply Hleast in Hk. lia.
Qed.
End distance.

#[local] Instance ed_memory : Allocator := λ _, true.
Lemma ed_memory_total : AllocTotal.
Proof. by intros n. Qed.

(** The example of edit_distance.h. *)
Lemma edit_distance_least_witness :
  ∃ n, edit_distance (λ i, 7 * i) (lit "kitten") 6 (lit "sitting") 7 (ed_code EDIT_DISTANCE_DL) = Ok n ∧
    edits EDIT_DISTANCE_DL (take (Z.to_nat 6) (lit "kitten")) (take (Z.to_nat 7) (lit "sitting")) n ∧
    ∀ k, edits EDIT_DISTANCE_DL (take (Z.to_nat 6) (lit "kitten")) (take (Z.to_nat 7) (lit "sitting")) k → n ≤ k.
Proof.
  apply edit_distance_least; [exact ed_memory_total|split; split; vm_compute; congruence|done|by apply (bool_decide_unpack _)|by apply (bool_decide_unpack _)].
Defined.

Lemma edit_distance_operations_witness :
  ∃ n : nat, edit_distance (λ i, 7 * i) (lit "kitten") 6 (lit "sitting") 7 (ed_code EDIT_DISTANCE_LEV) = Ok (Z.of_nat n) ∧
    nsteps (op EDIT_DISTANCE_LEV) n (take (Z.to_nat 6) (lit "kitten")) (take (Z.to_nat 7) (lit "sitting")) ∧
    ∀ k, nsteps (op EDIT_DISTANCE_LEV) k (take (Z.to_nat 6) (lit "kitten")) (take (Z.to_nat 7) (lit "sitting")) → (n ≤ k)%nat.
Proof.
  apply edit_distance_operations; [exact ed_memory_total|by intros []|split; split; vm_compute; congruence|done|by apply (bool_decide_unpack _)|by apply (bool_decide_unpack _)].
Defined.

(** The four measures of the example, and of a pair that needs a transposition with an
    insertion in between. *)
Example kitten_sitting :
  (λ m, edit_distance (λ i, 7 * i) (lit "kitten") 6 (lit "sitting") 7 (ed_code m)) <$>
    [EDIT_DISTANCE_LCS; EDIT_DISTANCE_LEV; EDIT_DISTANCE_RDL; EDIT_DISTANCE_DL] = [Ok 5; Ok 3; Ok 3; Ok 3].
Proof. vm_compute. reflexivity. Qed.
Example ca_abc :
  (λ m, edit_distance (λ i, 7 * i) (lit "ca") 2 (lit "abc") 3 (ed_code m)) <$>
    [EDIT_DISTANCE_LCS; EDIT_DISTANCE_LEV; EDIT_DISTANCE_RDL; EDIT_DISTANCE_DL] = [Ok 3; Ok 3; Ok 3; Ok 2].
Proof. vm_compute. reflexivity. Qed.
