(* ===== verification/Ilog.v ===== *)
(** * Integer logarithms (ccan/ilog)

    The number of bits of an unsigned integer, in every way the library computes it: the
    compiled functions with de Bruijn sequences, the branch-free functions for machines
    without fast multiplication, the macros over [__builtin_clz] that callers get, and the
    macros for constants.  [undef] is what [__builtin_clz] gives for 0, which the compiler
    does not define. *)
From S2P Require Import Prelude.
#[local] Open Scope Z_scope.

(** ** The functions *)
Definition DEBRUIJN_IDX32 : list Z :=
  [ 0; 1;28; 2;29;14;24; 3;30;22;20;15;25;17; 4; 8;
   31;27;13;23;21;19;16; 7;26;12;18; 6;11; 5;10; 9].
Definition DEBRUIJN_IDX64 : list Z :=
  [ 0; 1; 2; 7; 3;13; 8;19; 4;25;14;28; 9;34;20;40;
    5;17;26;38;15;46;29;48;10;31;35;54;21;50;41;57;
   63; 6;12;18;24;27;33;39;16;37;45;47;30;53;49;56;
   62;11;23;32;36;44;52;55;61;22;43;51;60;42;59;58].

Definition b2z (b : bool) : Z := if b then 1 else 0.

Definition ilog32 (v : Z) : res Z :=
  let ret := b2z (0 <? v) in
  let v := Z.lor v (Z.shiftr v 1) in
  let v := Z.lor v (Z.shiftr v 2) in
  let v := Z.lor v (Z.shiftr v 4) in
  let v := Z.lor v (Z.shiftr v 8) in
  let v := Z.lor v (Z.shiftr v 16) in
  let v := u32 (Z.shiftr v 1 + 1) in
  x ← aget DEBRUIJN_IDX32 (Z.land (Z.shiftr (u32 (v * 0x77CB531)) 27) 0x1F);
  Ok (ret + x).

Definition ilog64 (v : Z) : res Z :=
  let ret := b2z (0 <? v) in
  let v := Z.lor v (Z.shiftr v 1) in
  let v := Z.lor v (Z.shiftr v 2) in
  let v := Z.lor v (Z.shiftr v 4) in
  let v := Z.lor v (Z.shiftr v 8) in
  let v := Z.lor v (Z.shiftr v 16) in
  let v := Z.lor v (Z.shiftr v 32) in
  let v := u64 (Z.shiftr v 1 + 1) in
  x ← aget DEBRUIJN_IDX64 (Z.land (Z.shiftr (u64 (v * 0x218A392CD3D5DBF)) 58) 0x3F);
  Ok (ret + x).

Definition ilog32_nz (v : Z) : res Z := ilog32 v.
Definition ilog64_nz (v : Z) : res Z := ilog64 v.

(** One halving of the functions without multiplication. *)
Definition halve (limit shift : Z) (st : Z * Z) : Z * Z :=
  let '(v, ret) := st in
  let m := Z.shiftl (b2z (limit <? v)) shift in
  (Z.shiftr v m, Z.lor ret m).

Definition ilog32_nodebruijn (v : Z) : Z :=
  let ret := b2z (0 <? v) in
  let '(v, ret) := halve 3 1 (halve 0xF 2 (halve 0xFF 3 (halve 0xFFFF 4 (v, ret)))) in
  ret + b2z (1 <? v).

Definition ilog64_nodebruijn (v : Z) : Z :=
  let ret := b2z (0 <? v) in
  let '(v, ret) := halve 0xFFFFFFFF 5 (v, ret) in
  let v := u32 v in
  let '(v, ret) := halve 3 1 (halve 0xF 2 (halve 0xFF 3 (halve 0xFFFF 4 (v, ret)))) in
  ret + b2z (1 <? v).

(** The variant for 32-bit words. *)
Definition ilog64_halves (v : Z) : res Z :=
  let ret := b2z (0 <? v) in
  let '(v, ret) := halve 0xFFFFFFFF 5 (v, ret) in
  let v := u32 v in
  let v := Z.lor v (Z.shiftr v 1) in
  let v := Z.lor v (Z.shiftr v 2) in
  let v := Z.lor v (Z.shiftr v 4) in
  let v := Z.lor v (Z.shiftr v 8) in
  let v := Z.lor v (Z.shiftr v 16) in
  let v := u32 (Z.shiftr v 1 + 1) in
  x ← aget DEBRUIJN_IDX32 (Z.land (Z.shiftr (u32 (v * 0x77CB531)) 27) 0x1F);
  Ok (ret + x).

(** ** The macros *)
Definition builtin_clz (width undef v : Z) : Z := if v =? 0 then undef else width - 1 - Z.log2 v.
Definition builtin_ilog32_nz (undef v : Z) : Z := 32 - builtin_clz 32 undef v.
Definition builtin_ilog64_nz (undef v : Z) : Z := 64 - builtin_clz 64 undef v.
Definition macro_ilog32 (undef v : Z) : Z := Z.land (builtin_ilog32_nz undef v) (- b2z (negb (v =? 0))).
Definition macro_ilog64 (undef v : Z) : Z := Z.land (builtin_ilog64_nz undef v) (- b2z (negb (v =? 0))).

Definition STATIC_ILOG0 (v : Z) : Z := b2z (negb (v =? 0)).
Definition STATIC_ILOG1 (v : Z) : Z := if Z.land v 0x2 =? 0 then STATIC_ILOG0 v else 2.
Definition STATIC_ILOG2 (v : Z) : Z := if Z.land v 0xC =? 0 then STATIC_ILOG1 v else 2 + STATIC_ILOG1 (Z.shiftr v 2).
Definition STATIC_ILOG3 (v : Z) : Z := if Z.land v 0xF0 =? 0 then STATIC_ILOG2 v else 4 + STATIC_ILOG2 (Z.shiftr v 4).
Definition STATIC_ILOG4 (v : Z) : Z := if Z.land v 0xFF00 =? 0 then STATIC_ILOG3 v else 8 + STATIC_ILOG3 (Z.shiftr v 8).
Definition STATIC_ILOG5 (v : Z) : Z := if Z.land v 0xFFFF0000 =? 0 then STATIC_ILOG4 v else 16 + STATIC_ILOG4 (Z.shiftr v 16).
Definition STATIC_ILOG6 (v : Z) : Z := if Z.land v 0xFFFFFFFF00000000 =? 0 then STATIC_ILOG5 v else 32 + STATIC_ILOG5 (Z.shiftr v 32).
Definition STATIC_ILOG_32 (v : Z) : Z := STATIC_ILOG5 (u32 v).
Definition STATIC_ILOG_64 (v : Z) : Z := STATIC_ILOG6 (u64 v).

(** ** The specification *)
Definition bit_length (v : Z) : Z := if v =? 0 then 0 else Z.log2 v + 1.

Lemma bit_length_pow2 k : 0 ≤ k → bit_length (2 ^ k) = k + 1.
Proof. intros Hk. unfold bit_length. rewrite Z.log2_pow2 by done. pose proof (Z.pow_pos_nonneg 2 k). by replace (2 ^ k =? 0) with false by lia. Qed.

(** ** Smearing

    The highest bit is copied to the [n] positions below it. *)
Definition smeared (n L w : Z) : Prop :=
  0 ≤ w < 2 ^ (L + 1) ∧ ∀ i, 0 ≤ i ≤ L → L - n < i → Z.testbit w i = true.

Lemma smear_start v : 0 < v → smeared 1 (Z.log2 v) v.
Proof.
  intros Hv. pose proof (Z.log2_spec v Hv). split.
  - replace (Z.log2 v + 1) with (Z.succ (Z.log2 v)) by lia. lia.
  - intros i Hi Hn. replace i with (Z.log2 v) by lia. by apply Z.bit_log2.
Qed.

Lemma smear_step n L w : 0 ≤ L → 0 < n → smeared n L w → smeared (2 * n) L (Z.lor w (Z.shiftr w n)).
Proof.
  intros HL Hn [Hw Hb]. split.
  - assert (0 ≤ Z.shiftr w n) by (apply Z.shiftr_nonneg; lia).
    assert (0 ≤ Z.lor w (Z.shiftr w n)) by (apply Z.lor_nonneg; lia). split; [done|].
    destruct (decide (Z.lor w (Z.shiftr w n) = 0)) as [->|Hne]; [apply Z.pow_pos_nonneg; lia|].
    apply Z.log2_lt_pow2; [lia|].
    assert (Hle : Z.shiftr w n ≤ w).
    { rewrite Z.shiftr_div_pow2 by lia. apply Z.div_le_upper_bound; [apply Z.pow_pos_nonneg; lia|].
      assert (0 < 2 ^ n) by (apply Z.pow_pos_nonneg; lia). nia. }
    rewrite Z.log2_lor by lia. apply Z.max_lub_lt.
    + destruct (decide (w = 0)) as [->|]; [cbn; lia|]. apply Z.log2_lt_pow2; lia.
    + apply (Z.le_lt_trans _ (Z.log2 w)); [by apply Z.log2_le_mono|].
      destruct (decide (w = 0)) as [->|]; [cbn; lia|]. apply Z.log2_lt_pow2; lia.
  - intros i Hi Hn2. rewrite Z.lor_spec, Z.shiftr_spec by lia. destruct (decide (L - n < i)); [by rewrite Hb|].
    rewrite (Hb (i + n)) by lia. by rewrite orb_true_r.
Qed.

Lemma smear_end n L w : 0 ≤ L < n → smeared n L w → w = 2 ^ (L + 1) - 1.
Proof.
  intros HL [Hw Hb]. assert (w = Z.ones (L + 1)) as ->.
  - apply Z.bits_inj'. intros i Hi. destruct (decide (i ≤ L)).
    + rewrite Hb, Z.ones_spec_low by lia. done.
    + rewrite Z.ones_spec_high by lia. destruct (decide (w = 0)) as [->|]; [apply Z.bits_0|].
      apply Z.bits_above_log2; [lia|]. apply (Z.lt_le_trans _ (L + 1)); [|lia]. apply Z.log2_lt_pow2; lia.
  - rewrite Z.ones_equiv. lia.
Qed.

Lemma smear_half L : 0 ≤ L → Z.shiftr (2 ^ (L + 1) - 1) 1 + 1 = 2 ^ L.
Proof.
  intros HL. rewrite Z.shiftr_div_pow2 by lia. change (2 ^ 1) with 2. rewrite Z.pow_add_r by lia. change (2 ^ 1) with 2.
  Z.to_euclidean_division_equations; lia.
Qed.

(** The chain of the 32-bit and of the 64-bit functions. *)
Definition smear5 (v : Z) : Z :=
  let v := Z.lor v (Z.shiftr v 1) in let v := Z.lor v (Z.shiftr v 2) in let v := Z.lor v (Z.shiftr v 4) in
  let v := Z.lor v (Z.shiftr v 8) in Z.lor v (Z.shiftr v 16).

Lemma smear5_smeared v : 0 < v → smeared 32 (Z.log2 v) (smear5 v).
Proof.
  intros Hv. pose proof (Z.log2_nonneg v). unfold smear5.
  apply (smear_step 16), (smear_step 8), (smear_step 4), (smear_step 2), (smear_step 1), smear_start; lia.
Qed.

Lemma log2_bound v n : 0 < v < 2 ^ n → 0 ≤ Z.log2 v < n.
Proof. intros Hv. split; [apply Z.log2_nonneg|]. apply Z.log2_lt_pow2; lia. Qed.

Lemma index32 L : 0 ≤ L < 32 → aget DEBRUIJN_IDX32 (Z.land (Z.shiftr (u32 (u32 (2 ^ L) * 0x77CB531)) 27) 0x1F) = Ok L.
Proof.
  intros HL. assert (H := forallb_seqZ (λ L, bool_decide (DEBRUIJN_IDX32 !! Z.to_nat (Z.land (Z.shiftr (u32 (u32 (2 ^ L) * 0x77CB531)) 27) 0x1F) = Some L)) 32).
  apply (H eq_refl), bool_decide_eq_true in HL. apply aget_lookup; [|done]. apply Z.land_nonneg. by right.
Qed.
Lemma index64 L : 0 ≤ L < 64 → aget DEBRUIJN_IDX64 (Z.land (Z.shiftr (u64 (u64 (2 ^ L) * 0x218A392CD3D5DBF)) 58) 0x3F) = Ok L.
Proof.
  intros HL. assert (H := forallb_seqZ (λ L, bool_decide (DEBRUIJN_IDX64 !! Z.to_nat (Z.land (Z.shiftr (u64 (u64 (2 ^ L) * 0x218A392CD3D5DBF)) 58) 0x3F) = Some L)) 64).
  apply (H eq_refl), bool_decide_eq_true in HL. apply aget_lookup; [|done]. apply Z.land_nonneg. by right.
Qed.

Lemma bit_length_pos v : 0 < v → bit_length v = Z.log2 v + 1.
Proof. intros Hv. unfold bit_length. by replace (v =? 0) with false by lia. Qed.

(** The common end of the functions on 32 bits: from a number below [2^32]. *)
Definition debruijn32 (v ret : Z) : res Z :=
  x ← aget DEBRUIJN_IDX32 (Z.land (Z.shiftr (u32 (u32 (Z.shiftr (smear5 v) 1 + 1) * 0x77CB531)) 27) 0x1F); Ok (ret + x).

Lemma debruijn32_ok v ret : 0 < v < 2 ^ 32 → debruijn32 v ret = Ok (ret + Z.log2 v).
Proof.
  intros Hv. assert (HL := log2_bound v 32 Hv). unfold debruijn32.
  rewrite (smear_end 32 (Z.log2 v) (smear5 v)) by (lia || (apply smear5_smeared; lia)). rewrite smear_half by lia. by rewrite index32.
Qed.

Lemma ilog32_ok v : 0 ≤ v < 2 ^ 32 → ilog32 v = Ok (bit_length v).
Proof.
  intros Hv. destruct (decide (v = 0)) as [->|Hne]; [by vm_compute|]. rewrite bit_length_pos by lia.
  change (ilog32 v) with (debruijn32 v (b2z (0 <? v))). rewrite debruijn32_ok by lia.
  replace (0 <? v) with true by lia. cbn [b2z]. f_equal. lia.
Qed.

Lemma ilog64_ok v : 0 ≤ v < 2 ^ 64 → ilog64 v = Ok (bit_length v).
Proof.
  intros Hv. destruct (decide (v = 0)) as [->|Hne]; [by vm_compute|]. rewrite bit_length_pos by lia.
  assert (HL := log2_bound v 64 ltac:(lia)).
  change (ilog64 v) with (x ← aget DEBRUIJN_IDX64 (Z.land (Z.shiftr (u64 (u64 (Z.shiftr (Z.lor (smear5 v) (Z.shiftr (smear5 v) 32)) 1 + 1) * 0x218A392CD3D5DBF)) 58) 0x3F);
    Ok (b2z (0 <? v) + x)).
  rewrite (smear_end 64 (Z.log2 v) (Z.lor (smear5 v) (Z.shiftr (smear5 v) 32))) by (lia || (apply (smear_step 32), smear5_smeared; lia)).
  rewrite smear_half by lia. rewrite index64 by done. replace (0 <? v) with true by lia. cbn [mbind res_bind b2z]. f_equal. lia.
Qed.

(** ** Halving *)
Lemma halve_ok s limit v ret : 0 ≤ s → limit = 2 ^ (2 ^ s) - 1 → 0 < v < 2 ^ (2 * 2 ^ s) → Z.land ret (2 ^ s) = 0 →
  ∃ w d, halve limit s (v, ret) = (w, ret + d) ∧ 0 < w < 2 ^ (2 ^ s) ∧ (d = 0 ∨ d = 2 ^ s) ∧ Z.log2 v = Z.log2 w + d.
Proof.
  intros Hs -> Hv Hret. assert (Hp : 0 < 2 ^ s) by (apply Z.pow_pos_nonneg; lia).
  assert (Hpp : 0 < 2 ^ (2 ^ s)) by (apply Z.pow_pos_nonneg; lia). unfold halve.
  destruct (Z.ltb_spec (2 ^ (2 ^ s) - 1) v) as [Hlt|Hge]; cbn [b2z].
  - rewrite Z.shiftl_1_l. exists (Z.shiftr v (2 ^ s)), (2 ^ s).
    assert (Hle : 2 ^ (2 ^ s) ≤ v) by (apply Z.lt_pred_le; by rewrite <- Z.sub_1_r).
    assert (HL : 2 ^ s ≤ Z.log2 v) by (apply (Z.log2_le_pow2 v (2 ^ s)); [apply Hv|done]). split_and!.
    + f_equal. pose proof (Z.add_lor_land ret (2 ^ s)). lia.
    + rewrite Z.shiftr_div_pow2 by lia. apply Z.div_str_pos. lia.
    + rewrite Z.shiftr_div_pow2 by lia. apply Z.div_lt_upper_bound; [lia|]. rewrite <- Z.pow_add_r by lia.
      replace (2 ^ s + 2 ^ s) with (2 * 2 ^ s) by lia. lia.
    + by right.
    + rewrite Z.log2_shiftr by lia. lia.
  - rewrite Z.shiftl_0_l, Z.shiftr_0_r, Z.lor_0_r. exists v, 0. rewrite !Z.add_0_r. split_and!; try done; [lia|lia|by left].
Qed.

(** Four halvings of a number below [2^32]. *)
Lemma halves32_ok v ret : 0 < v < 2 ^ 32 → ret = 1 ∨ ret = 33 →
  (let '(v, ret) := halve 3 1 (halve 0xF 2 (halve 0xFF 3 (halve 0xFFFF 4 (v, ret)))) in ret + b2z (1 <? v)) = ret + Z.log2 v.
Proof.
  intros Hv Hret.
  destruct (halve_ok 4 0xFFFF v ret) as (w4 & d4 & -> & Hw4 & Hd4 & E4); [lia|done|exact Hv|by destruct Hret; subst|].
  destruct (halve_ok 3 0xFF w4 (ret + d4)) as (w3 & d3 & -> & Hw3 & Hd3 & E3); [lia|done|exact Hw4|by destruct Hret, Hd4; subst|].
  destruct (halve_ok 2 0xF w3 (ret + d4 + d3)) as (w2 & d2 & -> & Hw2 & Hd2 & E2); [lia|done|exact Hw3|by destruct Hret, Hd4, Hd3; subst|].
  destruct (halve_ok 1 3 w2 (ret + d4 + d3 + d2)) as (w1 & d1 & -> & Hw1 & Hd1 & E1); [lia|done|exact Hw2|by destruct Hret, Hd4, Hd3, Hd2; subst|].
  change (2 ^ 2 ^ 1) with 4 in Hw1. assert (w1 = 1 ∨ w1 = 2 ∨ w1 = 3) as Hw by lia.
  assert (b2z (1 <? w1) = Z.log2 w1) by (destruct Hw as [E|[E|E]]; by subst w1). lia.
Qed.

Lemma ilog32_nodebruijn_ok v : 0 ≤ v < 2 ^ 32 → ilog32_nodebruijn v = bit_length v.
Proof.
  intros Hv. destruct (decide (v = 0)) as [->|Hne]; [done|]. rewrite bit_length_pos by lia.
  pose proof (halves32_ok v 1 ltac:(lia) ltac:(by left)) as Hh. unfold ilog32_nodebruijn. replace (0 <? v) with true by lia. cbn [b2z].
  rewrite Hh. lia.
Qed.

(** The first halving of a 64-bit number, which then fits 32 bits. *)
Lemma halve64_ok v : 0 < v < 2 ^ 64 →
  ∃ w ret, halve 0xFFFFFFFF 5 (v, b2z (0 <? v)) = (w, ret) ∧ 0 < w < 2 ^ 32 ∧ (ret = 1 ∨ ret = 33) ∧ 1 + Z.log2 v = ret + Z.log2 w.
Proof.
  intros Hv. replace (0 <? v) with true by lia. cbn [b2z].
  destruct (halve_ok 5 0xFFFFFFFF v 1) as (w & d & -> & Hw & Hd & E); [lia|done|exact Hv|done|].
  exists w, (1 + d). split_and!; [done|apply Hw|apply Hw|destruct Hd; subst; auto|lia].
Qed.

Lemma ilog64_nodebruijn_ok v : 0 ≤ v < 2 ^ 64 → ilog64_nodebruijn v = bit_length v.
Proof.
  intros Hv. destruct (decide (v = 0)) as [->|Hne]; [done|]. rewrite bit_length_pos by lia.
  destruct (halve64_ok v) as (w & ret & E & Hw & Hret & HL); [lia|]. unfold ilog64_nodebruijn. rewrite E.
  unfold u32. rewrite Z.mod_small by lia. rewrite halves32_ok by done. lia.
Qed.

Lemma ilog64_halves_ok v : 0 ≤ v < 2 ^ 64 → ilog64_halves v = Ok (bit_length v).
Proof.
  intros Hv. destruct (decide (v = 0)) as [->|Hne]; [by vm_compute|]. rewrite bit_length_pos by lia.
  destruct (halve64_ok v) as (w & ret & E & Hw & Hret & HL); [lia|]. unfold ilog64_halves. rewrite E.
  change (debruijn32 (u32 w) ret = Ok (Z.log2 v + 1)). unfold u32. rewrite Z.mod_small by lia.
  rewrite debruijn32_ok by done. f_equal. lia.
Qed.

(** ** Macros *)
Lemma macro_ilog_ok undef v : 0 ≤ v → macro_ilog32 undef v = bit_length v ∧ macro_ilog64 undef v = bit_length v.
Proof.
  intros Hv. unfold macro_ilog32, macro_ilog64, builtin_ilog32_nz, builtin_ilog64_nz, builtin_clz, bit_length.
  destruct (Z.eqb_spec v 0); cbn [negb b2z].
  - change (- (0)) with 0. by rewrite !Z.land_0_r.
  - change (- (1)) with (-1). rewrite !Z.land_m1_r. lia.
Qed.

(** One level of the macros for constants: the mask selects the upper half. *)
Lemma static_level h mask v : 0 < h → mask = Z.shiftl (Z.ones h) h → 0 ≤ v < 2 ^ (2 * h) →
  (Z.land v mask =? 0) = (v <? 2 ^ h) ∧
  (2 ^ h ≤ v → 0 ≤ Z.shiftr v h < 2 ^ h ∧ h + bit_length (Z.shiftr v h) = bit_length v).
Proof.
  intros Hh -> Hv. assert (Hp : 0 < 2 ^ h) by (apply Z.pow_pos_nonneg; lia). split.
  - replace (Z.land v (Z.shiftl (Z.ones h) h)) with (Z.shiftl (Z.shiftr v h) h).
    + rewrite Z.shiftl_mul_pow2, Z.shiftr_div_pow2 by lia. destruct (Z.ltb_spec v (2 ^ h)).
      * by rewrite Z.div_small by lia.
      * pose proof (Z.div_str_pos v (2 ^ h)). apply Z.eqb_neq. nia.
    + apply Z.bits_inj'. intros i Hi. rewrite Z.land_spec, !Z.shiftl_spec by lia. destruct (decide (i < h)).
      * rewrite !(Z.testbit_neg_r _ (i - h)) by lia. by rewrite andb_false_r.
      * rewrite Z.shiftr_spec by lia. replace (i - h + h) with i by lia. destruct (decide (i - h < h)).
        -- rewrite Z.ones_spec_low by lia. by rewrite andb_true_r.
        -- rewrite Z.ones_spec_high by lia. rewrite andb_false_r. destruct (decide (v = 0)) as [->|]; [apply Z.bits_0|].
           apply Z.bits_above_log2; [lia|]. apply (Z.lt_le_trans _ (2 * h)); [apply Z.log2_lt_pow2; lia|lia].
  - intros Hle. rewrite Z.shiftr_div_pow2 by lia. assert (Hd : 0 < v / 2 ^ h) by (apply Z.div_str_pos; lia).
    split; [split; [lia|]; apply Z.div_lt_upper_bound; [lia|]; rewrite <- Z.pow_add_r by lia; replace (h + h) with (2 * h) by lia; lia|].
    rewrite !bit_length_pos by lia. rewrite <- Z.shiftr_div_pow2 by lia. rewrite Z.log2_shiftr by lia.
    assert (h ≤ Z.log2 v) by (apply Z.log2_le_pow2; lia). lia.
Qed.

Ltac static_level h mask IH :=
  match goal with Hv : 0 ≤ ?v < _ |- _ =>
    destruct (static_level h mask v ltac:(lia) ltac:(reflexivity) Hv) as [-> Hup]; destruct (Z.ltb_spec v (2 ^ h));
      [apply IH; lia|destruct Hup as [Hr <-]; [done|rewrite IH by lia; reflexivity]]
  end.

Lemma static1 v : 0 ≤ v < 2 ^ 2 → STATIC_ILOG1 v = bit_length v.
Proof. intros Hv. assert (v = 0 ∨ v = 1 ∨ v = 2 ∨ v = 3) as [E|[E|[E|E]]] by lia; by subst v. Qed.
Lemma static2 v : 0 ≤ v < 2 ^ (2 * 2) → STATIC_ILOG2 v = bit_length v.
Proof. intros Hv. unfold STATIC_ILOG2. static_level 2 0xC static1. Qed.
Lemma static3 v : 0 ≤ v < 2 ^ (2 * 4) → STATIC_ILOG3 v = bit_length v.
Proof. intros Hv. unfold STATIC_ILOG3. static_level 4 0xF0 static2. Qed.
Lemma static4 v : 0 ≤ v < 2 ^ (2 * 8) → STATIC_ILOG4 v = bit_length v.
Proof. intros Hv. unfold STATIC_ILOG4. static_level 8 0xFF00 static3. Qed.
Lemma static5 v : 0 ≤ v < 2 ^ (2 * 16) → STATIC_ILOG5 v = bit_length v.
Proof. intros Hv. unfold STATIC_ILOG5. static_level 16 0xFFFF0000 static4. Qed.
Lemma static6 v : 0 ≤ v < 2 ^ (2 * 32) → STATIC_ILOG6 v = bit_length v.
Proof. intros Hv. unfold STATIC_ILOG6. static_level 32 0xFFFFFFFF00000000 static5. Qed.

(** ** Property *)

(** C26: every way the library computes a logarithm gives the number of bits: the functions with de
    Bruijn sequences and without them, the variant for 32-bit words, the macros over the
    builtin (whatever it gives for 0) and the macros for constants agree on every 64-bit
    number, those for 32 bits on every 32-bit number. *)
Theorem ilog_agree undef v : 0 ≤ v < 2 ^ 64 →
  ilog64 v = Ok (bit_length v) ∧ ilog64_nz v = Ok (bit_length v) ∧ ilog64_halves v = Ok (bit_length v) ∧
  ilog64_nodebruijn v = bit_length v ∧ macro_ilog64 undef v = bit_length v ∧ STATIC_ILOG_64 v = bit_length v ∧
  (v < 2 ^ 32 → ilog32 v = Ok (bit_length v) ∧ ilog32_nz v = Ok (bit_length v) ∧ ilog32_nodebruijn v = bit_length v ∧
     macro_ilog32 undef v = bit_length v ∧ STATIC_ILOG_32 v = bit_length v).
Proof.
  intros Hv. destruct (macro_ilog_ok undef v) as [Hm32 Hm64]; [lia|].
  split_and!; [by apply ilog64_ok|exact (ilog64_ok v Hv)|by apply ilog64_halves_ok|by apply ilog64_nodebruijn_ok|done| |].
  - unfold STATIC_ILOG_64, u64. rewrite Z.mod_small by lia. by apply static6.
  - intros H32. split_and!; [apply ilog32_ok; lia|exact (ilog32_ok v (conj (proj1 Hv) H32))|apply ilog32_nodebruijn_ok; lia|done|].
    unfold STATIC_ILOG_32, u32. rewrite Z.mod_small by lia. apply static5. lia.
Qed.

Lemma ilog_agree_witness :
  ilog64 1000 = Ok (bit_length 1000) ∧ ilog64_nz 1000 = Ok (bit_length 1000) ∧ ilog64_halves 1000 = Ok (bit_length 1000) ∧
  ilog64_nodebruijn 1000 = bit_length 1000 ∧ macro_ilog64 7 1000 = bit_length 1000 ∧ STATIC_ILOG_64 1000 = bit_length 1000 ∧
  (1000 < 2 ^ 32 → ilog32 1000 = Ok (bit_length 1000) ∧ ilog32_nz 1000 = Ok (bit_length 1000) ∧ ilog32_nodebruijn 1000 = bit_length 1000 ∧
     macro_ilog32 7 1000 = bit_length 1000 ∧ STATIC_ILOG_32 1000 = bit_length 1000).
Proof. apply ilog_agree. lia. Defined.
