(* ===== verification/BitArray.v ===== *)
(** * Bitmaps of words (ccan/bitmap, ccan/endian)

    A bitmap is an array of 64-bit words whose bits are numbered from the most significant
    bit of the first byte in memory, on a little-endian machine.  A bitmap is the list of
    its words; [malloc] and [realloc] leave the words they do not copy to [junk]. *)
From S2P Require Import Prelude.
From S2P Require Import Rule.
#[local] Open Scope Z_scope.

(** ** Byte order *)
Definition BSWAP_64 (val : Z) : Z :=
  let val := u64 val in
  Z.lor (Z.lor (Z.lor (Z.lor (Z.lor (Z.lor (Z.lor
    (u64 (Z.shiftl (Z.land val 0x00000000000000ff) 56))
    (u64 (Z.shiftl (Z.land val 0x000000000000ff00) 40)))
    (u64 (Z.shiftl (Z.land val 0x0000000000ff0000) 24)))
    (u64 (Z.shiftl (Z.land val 0x00000000ff000000) 8)))
    (Z.shiftr (Z.land val 0x000000ff00000000) 8))
    (Z.shiftr (Z.land val 0x0000ff0000000000) 24))
    (Z.shiftr (Z.land val 0x00ff000000000000) 40))
    (Z.shiftr (Z.land val 0xff00000000000000) 56).
(** On a little-endian machine. *)
Definition cpu_to_be64 (native : Z) : Z := BSWAP_64 native.

(** ** Words *)
Definition BITMAP_WORD_BITS : Z := 64.
Definition ULONG_MAX : Z := 2 ^ 64 - 1.
(** [~w] *)
Definition unot (w : Z) : Z := ULONG_MAX - w.

Definition BITMAP_NWORDS (n : Z) : Z := u64 (u64 (n + BITMAP_WORD_BITS) - 1) / BITMAP_WORD_BITS.
Definition bitmap_sizeof (nbits : Z) : Z := u64 (BITMAP_NWORDS nbits * 8).
Definition bitmap_bswap (w : Z) : Z := cpu_to_be64 w.

(** [BITMAP_WORD(_bm, _n)], read and written through a function. *)
Definition BITMAP_WORD (bm : list Z) (n : Z) : res Z := aget bm (n / BITMAP_WORD_BITS).
Definition on_word (bm : list Z) (n : Z) (f : Z → Z) : res (list Z) :=
  w ← BITMAP_WORD bm n; aset bm (n / BITMAP_WORD_BITS) (f w).
Definition BITMAP_WORDBIT (n : Z) : Z := bitmap_bswap (u64 (Z.shiftl 1 (BITMAP_WORD_BITS - n mod BITMAP_WORD_BITS - 1))).

Definition BITMAP_HEADWORDS (nbits : Z) : Z := nbits / BITMAP_WORD_BITS.
Definition BITMAP_HASTAIL (nbits : Z) : bool := negb (nbits mod BITMAP_WORD_BITS =? 0).
Definition BITMAP_TAILBITS (nbits : Z) : Z := bitmap_bswap (unot (Z.shiftr ULONG_MAX (nbits mod BITMAP_WORD_BITS))).
Definition BITMAP_TAIL (bm : list Z) (nbits : Z) : res Z :=
  w ← aget bm (BITMAP_HEADWORDS nbits); Ok (Z.land w (BITMAP_TAILBITS nbits)).

(** ** Single bits *)
Definition bitmap_set_bit (bm : list Z) (n : Z) : res (list Z) := on_word bm n (λ w, Z.lor w (BITMAP_WORDBIT n)).
Definition bitmap_clear_bit (bm : list Z) (n : Z) : res (list Z) := on_word bm n (λ w, Z.land w (unot (BITMAP_WORDBIT n))).
Definition bitmap_change_bit (bm : list Z) (n : Z) : res (list Z) := on_word bm n (λ w, Z.lxor w (BITMAP_WORDBIT n)).
Definition bitmap_test_bit (bm : list Z) (n : Z) : res bool :=
  w ← BITMAP_WORD bm n; Ok (negb (Z.land w (BITMAP_WORDBIT n) =? 0)).

(** ** Ranges *)
Definition BIT_ALIGN_DOWN (n : Z) : Z := Z.land n (unot (BITMAP_WORD_BITS - 1)).
Definition BIT_ALIGN_UP (n : Z) : Z := BIT_ALIGN_DOWN (u64 (u64 (n + BITMAP_WORD_BITS) - 1)).

(** [memset] of whole words. *)
Definition set_words (bm : list Z) (from count w : Z) : res (list Z) := mfor from (from + count) (λ i bm, aset bm i w) bm.

Definition bitmap_zero_range (bm : list Z) (n m : Z) : res (list Z) :=
  let an := BIT_ALIGN_UP n in
  let am := BIT_ALIGN_DOWN m in
  let headmask := Z.shiftr ULONG_MAX (n mod BITMAP_WORD_BITS) in
  let tailmask := unot (Z.shiftr ULONG_MAX (m mod BITMAP_WORD_BITS)) in
  _ ← assert_ (n <=? m);
  if am <? an then on_word bm n (λ w, Z.land w (unot (bitmap_bswap (Z.land headmask tailmask)))) else
  bm ← (if n <? an then on_word bm n (λ w, Z.land w (unot (bitmap_bswap headmask))) else Ok bm);
  bm ← (if an <? am then set_words bm (an / BITMAP_WORD_BITS) ((am - an) / BITMAP_WORD_BITS) 0 else Ok bm);
  if am <? m then on_word bm m (λ w, Z.land w (unot (bitmap_bswap tailmask))) else Ok bm.

Definition bitmap_fill_range (bm : list Z) (n m : Z) : res (list Z) :=
  let an := BIT_ALIGN_UP n in
  let am := BIT_ALIGN_DOWN m in
  let headmask := Z.shiftr ULONG_MAX (n mod BITMAP_WORD_BITS) in
  let tailmask := unot (Z.shiftr ULONG_MAX (m mod BITMAP_WORD_BITS)) in
  _ ← assert_ (n <=? m);
  if am <? an then on_word bm n (λ w, Z.lor w (bitmap_bswap (Z.land headmask tailmask))) else
  bm ← (if n <? an then on_word bm n (λ w, Z.lor w (bitmap_bswap headmask)) else Ok bm);
  bm ← (if an <? am then set_words bm (an / BITMAP_WORD_BITS) ((am - an) / BITMAP_WORD_BITS) ULONG_MAX else Ok bm);
  if am <? m then on_word bm m (λ w, Z.lor w (bitmap_bswap tailmask)) else Ok bm.

(** ** Whole bitmaps *)
Definition bitmap_zero (bm : list Z) (nbits : Z) : res (list Z) := set_words bm 0 (BITMAP_NWORDS nbits) 0.
Definition bitmap_fill (bm : list Z) (nbits : Z) : res (list Z) := set_words bm 0 (BITMAP_NWORDS nbits) ULONG_MAX.
Definition bitmap_copy (dst src : list Z) (nbits : Z) : res (list Z) :=
  mfor 0 (BITMAP_NWORDS nbits) (λ i dst, w ← aget src i; aset dst i w) dst.

(** [BITMAP_DEF_BINOP].  The destination may be a source: a word is read before it is written. *)
Definition bitmap_binop (op : Z → Z → Z) (dst src1 src2 : list Z) (nbits : Z) : res (list Z) :=
  mfor 0 (BITMAP_NWORDS nbits) (λ i dst, x ← aget src1 i; y ← aget src2 i; aset dst i (op x y)) dst.
Definition bitmap_and := bitmap_binop Z.land.
Definition bitmap_or := bitmap_binop Z.lor.
Definition bitmap_xor := bitmap_binop Z.lxor.
Definition bitmap_andnot := bitmap_binop (λ x y, Z.land x (unot y)).

Definition bitmap_complement (dst src : list Z) (nbits : Z) : res (list Z) :=
  mfor 0 (BITMAP_NWORDS nbits) (λ i dst, w ← aget src i; aset dst i (unot w)) dst.

(** [for (i = 0; i < n; i++) if (test) return stop;]: whether the loop returned. *)
Fixpoint any_word (test : Z → res bool) (i : Z) (count : nat) : res bool :=
  match count with
  | O => Ok false
  | S count => b ← test i; if (b : bool) then Ok true else any_word test (i + 1) count
  end.
(** The tail test, which is not evaluated without a tail. *)
Definition tail_test (nbits : Z) (test : res bool) : res bool := if BITMAP_HASTAIL nbits then test else Ok false.

(** [memcmp] of the head words, and the tails. *)
Definition bitmap_equal (src1 src2 : list Z) (nbits : Z) : res bool :=
  differ ← any_word (λ i, x ← aget src1 i; y ← aget src2 i; Ok (negb (x =? y))) 0 (Z.to_nat (BITMAP_HEADWORDS nbits));
  if (differ : bool) then Ok false else
  if negb (BITMAP_HASTAIL nbits) then Ok true else
  x ← BITMAP_TAIL src1 nbits; y ← BITMAP_TAIL src2 nbits; Ok (x =? y).

Definition bitmap_intersects (src1 src2 : list Z) (nbits : Z) : res bool :=
  hit ← any_word (λ i, x ← aget src1 i; y ← aget src2 i; Ok (negb (Z.land x y =? 0))) 0 (Z.to_nat (BITMAP_HEADWORDS nbits));
  if (hit : bool) then Ok true else
  tail_test nbits (x ← BITMAP_TAIL src1 nbits; y ← BITMAP_TAIL src2 nbits; Ok (negb (Z.land x y =? 0))).

Definition bitmap_subset (src1 src2 : list Z) (nbits : Z) : res bool :=
  hit ← any_word (λ i, x ← aget src1 i; y ← aget src2 i; Ok (negb (Z.land x (unot y) =? 0))) 0 (Z.to_nat (BITMAP_HEADWORDS nbits));
  if (hit : bool) then Ok false else
  t ← tail_test nbits (x ← BITMAP_TAIL src1 nbits; y ← BITMAP_TAIL src2 nbits; Ok (negb (Z.land x (unot y) =? 0)));
  Ok (negb t).

Definition bitmap_full (bm : list Z) (nbits : Z) : res bool :=
  hit ← any_word (λ i, x ← aget bm i; Ok (negb (x =? ULONG_MAX))) 0 (Z.to_nat (BITMAP_HEADWORDS nbits));
  if (hit : bool) then Ok false else
  t ← tail_test nbits (x ← BITMAP_TAIL bm nbits; Ok (negb (x =? BITMAP_TAILBITS nbits)));
  Ok (negb t).

Definition bitmap_empty (bm : list Z) (nbits : Z) : res bool :=
  hit ← any_word (λ i, x ← aget bm i; Ok (negb (x =? 0))) 0 (Z.to_nat (BITMAP_HEADWORDS nbits));
  if (hit : bool) then Ok false else
  t ← tail_test nbits (x ← BITMAP_TAIL bm nbits; Ok (negb (x =? 0)));
  Ok (negb t).

(** ** Search *)
Definition bitmap_clz (w : Z) : Z := clz64 w.

(** The loop over the whole words: the bit found, or none. *)
Fixpoint ffs_words (fuel : nat) (bm : list Z) (an am : Z) : res (option Z) :=
  match fuel with
  | O => Err EFuel
  | S fuel =>
    if an <? am then
      w ← BITMAP_WORD bm an;
      let w := bitmap_bswap w in
      if negb (w =? 0) then Ok (Some (an + bitmap_clz w)) else ffs_words fuel bm (an + BITMAP_WORD_BITS) am
    else Ok None
  end.

Definition bitmap_ffs (bm : list Z) (n m : Z) : res Z :=
  let an := BIT_ALIGN_UP n in
  let am := BIT_ALIGN_DOWN m in
  let headmask := Z.shiftr ULONG_MAX (n mod BITMAP_WORD_BITS) in
  let tailmask := unot (Z.shiftr ULONG_MAX (m mod BITMAP_WORD_BITS)) in
  _ ← assert_ (n <=? m);
  if am <? an then
    w ← BITMAP_WORD bm n;
    let w := Z.land (bitmap_bswap w) (Z.land headmask tailmask) in
    Ok (if negb (w =? 0) then am + bitmap_clz w else m)
  else
  head ← (if n <? an then
            w ← BITMAP_WORD bm n;
            let w := Z.land (bitmap_bswap w) headmask in
            Ok (if negb (w =? 0) then Some (BIT_ALIGN_DOWN n + bitmap_clz w) else None)
          else Ok None);
  match head with
  | Some i => Ok i
  | None =>
    words ← ffs_words (S (Z.to_nat (am / BITMAP_WORD_BITS))) bm an am;
    match words with
    | Some i => Ok i
    | None =>
      if am <? m then
        w ← BITMAP_WORD bm m;
        let w := Z.land (bitmap_bswap w) tailmask in
        Ok (if negb (w =? 0) then am + bitmap_clz w else m)
      else Ok m
    end
  end.

(** ** Allocation *)
Section alloc.
Context `{Allocator} (junk : Z → Z).

Definition bitmap_alloc (nbits : Z) : option (list Z) :=
  if alloc_ok (bitmap_sizeof nbits) then Some (junk <$> seqZ 0 (bitmap_sizeof nbits / 8)) else None.
Definition bitmap_alloc0 (nbits : Z) : res (option (list Z)) :=
  match bitmap_alloc nbits with None => Ok None | Some bm => bm ← bitmap_zero bm nbits; Ok (Some bm) end.
Definition bitmap_alloc1 (nbits : Z) : res (option (list Z)) :=
  match bitmap_alloc nbits with None => Ok None | Some bm => bm ← bitmap_fill bm nbits; Ok (Some bm) end.

(** [realloc]: the words that fit are kept. *)
Definition bitmap_resize (bm : list Z) (nbits : Z) : option (list Z) :=
  if alloc_ok (bitmap_sizeof nbits) then
    Some ((λ i, default (junk i) (bm !! Z.to_nat i)) <$> seqZ 0 (bitmap_sizeof nbits / 8)) else None.
Definition bitmap_realloc0 (bm : list Z) (obits nbits : Z) : res (option (list Z)) :=
  match bitmap_resize bm nbits with
  | None => Ok None
  | Some bm => if obits <? nbits then bm ← bitmap_zero_range bm obits nbits; Ok (Some bm) else Ok (Some bm)
  end.
Definition bitmap_realloc1 (bm : list Z) (obits nbits : Z) : res (option (list Z)) :=
  match bitmap_resize bm nbits with
  | None => Ok None
  | Some bm => if obits <? nbits then bm ← bitmap_fill_range bm obits nbits; Ok (Some bm) else Ok (Some bm)
  end.
End alloc.
