(* ===== verification/BitArraySpec.v ===== *)
(** * The bits of a bitmap (ccan/bitmap)

    [bit bm n] is bit [n] of a bitmap; words and masks by their bits in the order of the
    bitmap. *)
From S2P Require Import Prelude.
From S2P Require Import Rule.
From S2P Require Import BitArray.
#[local] Open Scope Z_scope.

Definition word (w : Z) : Prop := 0 ≤ w < 2 ^ 64.
Definition wf (bm : list Z) : Prop := Forall word bm.

(** Where bit [k] of a word in bitmap order is: in byte [k / 8], most significant bit first. *)
Definition pos (k : Z) : Z := 8 * (k / 8) + (7 - k mod 8).
(** Where a swap of the bytes takes bit [i] from. *)
Definition swap_pos (i : Z) : Z := 8 * (7 - i / 8) + i mod 8.

(** Bit [k] of a word, and bit [n] of a bitmap. *)
Definition wbit (w k : Z) : bool := Z.testbit w (pos k).
Definition bit (bm : list Z) (n : Z) : bool :=
  match bm !! Z.to_nat (n / 64) with Some w => wbit w (n mod 64) | None => false end.

(** Facts about all positions of a word, by computation. *)
Lemma all64 (P : Z → bool) : forallb P (seqZ 0 64) = true → ∀ i, 0 ≤ i < 64 → P i = true.
Proof. apply forallb_seqZ. Qed.

Lemma pos_range k : 0 ≤ k < 64 → 0 ≤ pos k < 64.
Proof. intros Hk. assert (H := all64 (λ k, (0 <=? pos k) && (pos k <? 64)) eq_refl k Hk). cbv beta in H. lia. Qed.
Lemma pos_pos k : 0 ≤ k < 64 → pos (pos k) = k.
Proof. intros Hk. apply Z.eqb_eq. by apply (all64 (λ k, pos (pos k) =? k)). Qed.
Lemma swap_pos_pos k : 0 ≤ k < 64 → swap_pos (pos k) = 63 - k.
Proof. intros Hk. apply Z.eqb_eq. by apply (all64 (λ k, swap_pos (pos k) =? 63 - k)). Qed.
Lemma swap_pos_63 k : 0 ≤ k < 64 → swap_pos (63 - k) = pos k.
Proof. intros Hk. apply Z.eqb_eq. by apply (all64 (λ k, swap_pos (63 - k) =? pos k)). Qed.

(** ** Words by their bits *)
Lemma word_high w i : word w → 64 ≤ i → Z.testbit w i = false.
Proof.
  intros Hw Hi. destruct (decide (w = 0)) as [->|]; [apply Z.bits_0|]. apply Z.bits_above_log2; [unfold word in Hw; lia|].
  apply (Z.lt_le_trans _ 64); [|done]. apply Z.log2_lt_pow2; unfold word in Hw; lia.
Qed.

Lemma word_of_bits w : 0 ≤ w → (∀ i, 64 ≤ i → Z.testbit w i = false) → word w.
Proof.
  intros Hw Hb. split; [done|]. destruct (decide (w = 0)) as [->|]; [done|]. apply Z.log2_lt_pow2; [lia|].
  destruct (Z.lt_ge_cases (Z.log2 w) 64) as [|Hge]; [done|]. apply Hb in Hge. rewrite Z.bit_log2 in Hge by lia. done.
Qed.

Lemma wbit_inj w w' : word w → word w' → (∀ k, 0 ≤ k < 64 → wbit w k = wbit w' k) → w = w'.
Proof.
  intros Hw Hw' Hb. apply Z.bits_inj'. intros i Hi. destruct (decide (i < 64)).
  - specialize (Hb (pos i) (pos_range i ltac:(lia))). unfold wbit in Hb. by rewrite pos_pos in Hb by lia.
  - by rewrite !word_high by (done || lia).
Qed.

Lemma word_land a b : word a → 0 ≤ b → word (Z.land a b).
Proof.
  intros Ha Hb. apply word_of_bits; [apply Z.land_nonneg; by right|]. intros i Hi. by rewrite Z.land_spec, word_high.
Qed.
Lemma word_lor a b : word a → word b → word (Z.lor a b).
Proof.
  intros Ha Hb. apply word_of_bits; [apply Z.lor_nonneg; unfold word in *; lia|]. intros i Hi. by rewrite Z.lor_spec, !word_high.
Qed.
Lemma word_lxor a b : word a → word b → word (Z.lxor a b).
Proof.
  intros Ha Hb. apply word_of_bits; [apply Z.lxor_nonneg; unfold word in *; lia|]. intros i Hi. by rewrite Z.lxor_spec, !word_high.
Qed.
Lemma word_unot w : word w → word (unot w).
Proof. unfold word, unot, ULONG_MAX. lia. Qed.
Lemma word_u64 x : word (u64 x).
Proof. unfold word, u64. apply Z.mod_pos_bound. lia. Qed.
Lemma word_max : word ULONG_MAX.
Proof. unfold word, ULONG_MAX. lia. Qed.
Lemma word_shiftr w n : 0 ≤ n → word w → word (Z.shiftr w n).
Proof.
  intros Hn Hw. apply word_of_bits; [apply Z.shiftr_nonneg, Hw|]. intros i Hi. rewrite Z.shiftr_spec by lia. by apply word_high; [|lia].
Qed.

Lemma testbit_unot w i : word w → 0 ≤ i < 64 → Z.testbit (unot w) i = negb (Z.testbit w i).
Proof.
  intros Hw Hi. rewrite <- Z.lnot_spec by lia. unfold unot, ULONG_MAX.
  replace (2 ^ 64 - 1 - w) with (Z.lnot w mod 2 ^ 64).
  - apply Z.mod_pow2_bits_low. lia.
  - unfold Z.lnot. replace (Z.pred (- w)) with (2 ^ 64 - 1 - w + (-1) * 2 ^ 64) by lia. rewrite Z.mod_add by lia.
    apply Z.mod_small. unfold word in Hw. lia.
Qed.

Lemma wbit_unot w k : word w → 0 ≤ k < 64 → wbit (unot w) k = negb (wbit w k).
Proof. intros Hw Hk. apply testbit_unot; [done|by apply pos_range]. Qed.
Lemma wbit_land a b k : wbit (Z.land a b) k = wbit a k && wbit b k.
Proof. apply Z.land_spec. Qed.
Lemma wbit_lor a b k : wbit (Z.lor a b) k = wbit a k || wbit b k.
Proof. apply Z.lor_spec. Qed.
Lemma wbit_lxor a b k : wbit (Z.lxor a b) k = xorb (wbit a k) (wbit b k).
Proof. apply Z.lxor_spec. Qed.
Lemma wbit_0 k : wbit 0 k = false.
Proof. apply Z.bits_0. Qed.
Lemma wbit_max k : 0 ≤ k < 64 → wbit ULONG_MAX k = true.
Proof. intros Hk. unfold wbit. change ULONG_MAX with (Z.ones 64). apply Z.ones_spec_low. by apply pos_range. Qed.

Create HintDb words.
#[export] Hint Resolve word_land word_lor word_lxor word_unot word_u64 word_max word_shiftr : words.

(** ** The swap of the bytes *)
Lemma testbit_term v mask s i : 0 ≤ i < 64 → 0 ≤ s →
  Z.testbit (u64 (Z.shiftl (Z.land v mask) s)) i = Z.testbit v (i - s) && Z.testbit mask (i - s).
Proof. intros Hi Hs. unfold u64. rewrite Z.mod_pow2_bits_low by lia. rewrite Z.shiftl_spec by lia. apply Z.land_spec. Qed.
Lemma testbit_term' v mask s i : 0 ≤ i → Z.testbit (Z.shiftr (Z.land v mask) s) i = Z.testbit v (i + s) && Z.testbit mask (i + s).
Proof. intros Hi. rewrite Z.shiftr_spec by lia. apply Z.land_spec. Qed.

Lemma testbit_bswap w i : word w → 0 ≤ i < 64 → Z.testbit (BSWAP_64 w) i = Z.testbit w (swap_pos i).
Proof.
  intros Hw Hi. unfold BSWAP_64. cbv zeta. replace (u64 w) with w by (symmetry; by apply Z.mod_small).
  rewrite !Z.lor_spec, !testbit_term, !testbit_term' by lia.
  assert (Hin : i ∈ seqZ 0 64) by (apply elem_of_seqZ; lia). revert Hin. clear Hi. revert i. apply Forall_forall.
  let l := eval vm_compute in (seqZ 0 64) in change (seqZ 0 64) with l.
  repeat apply Forall_cons_2; try apply Forall_nil_2.
  all: repeat match goal with
       | |- context [Z.testbit (Zpos ?p) ?j] => let b := eval vm_compute in (Z.testbit (Zpos p) j) in change (Z.testbit (Zpos p) j) with b
       end; rewrite ?andb_false_r, ?andb_true_r, ?orb_false_r, ?orb_false_l; reflexivity.
Qed.

Lemma word_bswap w : word (BSWAP_64 w).
Proof.
  unfold BSWAP_64. cbv zeta. repeat apply word_lor; try apply word_u64; (apply word_shiftr; [lia|]); apply word_land; (apply word_u64 || lia).
Qed.
#[export] Hint Resolve word_bswap : words.

Lemma wbit_bswap w k : word w → 0 ≤ k < 64 → wbit (bitmap_bswap w) k = Z.testbit w (63 - k).
Proof. intros Hw Hk. unfold wbit, bitmap_bswap, cpu_to_be64. rewrite testbit_bswap by (done || by apply pos_range). by rewrite swap_pos_pos. Qed.
Lemma testbit_bswap_63 w k : word w → 0 ≤ k < 64 → Z.testbit (bitmap_bswap w) (63 - k) = wbit w k.
Proof. intros Hw Hk. unfold bitmap_bswap, cpu_to_be64. rewrite testbit_bswap by (done || lia). by rewrite swap_pos_63. Qed.

(** ** Masks *)
Lemma mod64 n : 0 ≤ n mod 64 < 64.
Proof. apply Z.mod_pos_bound. lia. Qed.

Lemma wbit_wordbit n k : 0 ≤ k < 64 → wbit (BITMAP_WORDBIT n) k = (k =? n mod 64).
Proof.
  intros Hk. pose proof (mod64 n). unfold BITMAP_WORDBIT, BITMAP_WORD_BITS. rewrite wbit_bswap by (done || apply word_u64).
  unfold u64. rewrite Z.mod_pow2_bits_low by lia. rewrite Z.shiftl_1_l, Z.pow2_bits_eqb by lia.
  destruct (Z.eqb_spec k (n mod 64)), (Z.eqb_spec (64 - n mod 64 - 1) (63 - k)); done || lia.
Qed.

Definition head_mask (n : Z) : Z := Z.shiftr ULONG_MAX (n mod BITMAP_WORD_BITS).
Definition tail_mask (m : Z) : Z := unot (Z.shiftr ULONG_MAX (m mod BITMAP_WORD_BITS)).

Lemma word_head_mask n : word (head_mask n).
Proof. apply word_shiftr; [apply mod64|apply word_max]. Qed.
Lemma word_tail_mask m : word (tail_mask m).
Proof. apply word_unot, word_head_mask. Qed.
#[export] Hint Resolve word_head_mask word_tail_mask : words.

Lemma testbit_head_mask n k : 0 ≤ k < 64 → Z.testbit (head_mask n) (63 - k) = (n mod 64 <=? k).
Proof.
  intros Hk. pose proof (mod64 n). unfold head_mask, BITMAP_WORD_BITS. rewrite Z.shiftr_spec by lia. change ULONG_MAX with (Z.ones 64).
  destruct (Z.leb_spec (n mod 64) k); [apply Z.ones_spec_low; lia|apply Z.ones_spec_high; lia].
Qed.
Lemma testbit_tail_mask m k : 0 ≤ k < 64 → Z.testbit (tail_mask m) (63 - k) = (k <? m mod 64).
Proof.
  intros Hk. unfold tail_mask. fold (head_mask m). rewrite testbit_unot by (lia || apply word_head_mask). rewrite testbit_head_mask by done.
  destruct (Z.leb_spec (m mod 64) k), (Z.ltb_spec k (m mod 64)); done || lia.
Qed.
Lemma wbit_head_mask n k : 0 ≤ k < 64 → wbit (bitmap_bswap (head_mask n)) k = (n mod 64 <=? k).
Proof. intros Hk. rewrite wbit_bswap by auto with words. by apply testbit_head_mask. Qed.
Lemma wbit_tail_mask m k : 0 ≤ k < 64 → wbit (bitmap_bswap (tail_mask m)) k = (k <? m mod 64).
Proof. intros Hk. rewrite wbit_bswap by auto with words. by apply testbit_tail_mask. Qed.

(** ** Alignment *)
Lemma align_down n : 0 ≤ n < 2 ^ 64 → BIT_ALIGN_DOWN n = 64 * (n / 64).
Proof.
  intros Hn. unfold BIT_ALIGN_DOWN, BITMAP_WORD_BITS. apply Z.bits_inj'. intros i Hi.
  rewrite Z.land_spec. replace (64 * (n / 64)) with (Z.shiftl (Z.shiftr n 6) 6) by (rewrite Z.shiftl_mul_pow2, Z.shiftr_div_pow2 by lia; change (2 ^ 6) with 64; lia).
  rewrite Z.shiftl_spec by lia. change (unot (64 - 1)) with (Z.shiftl (Z.ones 58) 6). rewrite Z.shiftl_spec by lia.
  destruct (decide (i < 6)).
  - rewrite !(Z.testbit_neg_r _ (i - 6)) by lia. by rewrite andb_false_r.
  - rewrite Z.shiftr_spec by lia. replace (i - 6 + 6) with i by lia. destruct (decide (i < 64)).
    + rewrite Z.ones_spec_low by lia. by rewrite andb_true_r.
    + by rewrite (word_high n) by (done || lia).
Qed.
Lemma align_up n : 0 ≤ n < 2 ^ 63 → BIT_ALIGN_UP n = 64 * ((n + 63) / 64).
Proof.
  intros Hn. unfold BIT_ALIGN_UP, BITMAP_WORD_BITS, u64. rewrite (Z.mod_small (n + 64)), (Z.mod_small (n + 64 - 1)) by lia.
  rewrite align_down by lia. by replace (n + 64 - 1) with (n + 63) by lia.
Qed.
Lemma nwords n : 0 ≤ n < 2 ^ 63 → BITMAP_NWORDS n = (n + 63) / 64.
Proof.
  intros Hn. unfold BITMAP_NWORDS, BITMAP_WORD_BITS, u64. rewrite (Z.mod_small (n + 64)), (Z.mod_small (n + 64 - 1)) by lia.
  by replace (n + 64 - 1) with (n + 63) by lia.
Qed.

(** ** Bitmaps by their bits *)
Definition nbits_of (bm : list Z) : Z := 64 * zlen bm.

Lemma bit_out bm n : nbits_of bm ≤ n → bit bm n = false.
Proof.
  intros Hn. unfold bit, nbits_of, zlen in *. rewrite lookup_ge_None_2; [done|].
  apply Nat2Z.inj_le. assert (Z.of_nat (length bm) ≤ n / 64) by (apply Z.div_le_lower_bound; lia). lia.
Qed.

Lemma word_at bm n : wf bm → 0 ≤ n < nbits_of bm →
  ∃ w, aget bm (n / 64) = Ok w ∧ word w ∧ ∀ k, 0 ≤ k < 64 → wbit w k = bit bm (64 * (n / 64) + k).
Proof.
  intros Hwf Hn. unfold nbits_of, zlen in Hn. assert (0 ≤ n / 64) by (apply Z.div_pos; lia).
  assert (n / 64 < Z.of_nat (length bm)) by (apply Z.div_lt_upper_bound; lia).
  destruct (lookup_lt_is_Some_2 bm (Z.to_nat (n / 64))) as [w Hw]; [lia|]. exists w. split; [by apply aget_lookup|].
  split; [by eapply Forall_lookup_1|]. intros k Hk. unfold bit.
  replace ((64 * (n / 64) + k) / 64) with (n / 64) by (rewrite Z.mul_comm, Z.div_add_l, (Z.div_small k) by lia; lia).
  rewrite Hw. f_equal. rewrite Z.mul_comm, Z.add_comm, Z.mod_add by lia. by rewrite Z.mod_small.
Qed.

(** A bitmap of the same size whose bits are given by [f]. *)
Definition becomes (bm : list Z) (f : Z → bool) (bm' : list Z) : Prop :=
  wf bm' ∧ length bm' = length bm ∧ ∀ i, 0 ≤ i < nbits_of bm → bit bm' i = f i.

Lemma on_word_bits bm n f g : wf bm → 0 ≤ n < nbits_of bm → (∀ w, word w → word (f w)) →
  (∀ w k, word w → 0 ≤ k < 64 → wbit (f w) k = g (64 * (n / 64) + k) (wbit w k)) →
  ∃ bm', on_word bm n f = Ok bm' ∧ becomes bm (λ i, if i / 64 =? n / 64 then g i (bit bm i) else bit bm i) bm'.
Proof.
  intros Hwf Hn Hf Hg. destruct (word_at bm n Hwf Hn) as (w & Hw & Hww & Hb). unfold on_word, BITMAP_WORD, BITMAP_WORD_BITS.
  rewrite Hw. cbn [mbind res_bind]. assert (Hr : 0 ≤ n / 64 < zlen bm).
  { unfold nbits_of in Hn. split; [apply Z.div_pos; lia|apply Z.div_lt_upper_bound; lia]. }
  rewrite aset_in by done. eexists. split; [done|]. split_and!; [by apply Forall_insert; auto|apply length_insert|].
  intros i Hi. unfold bit at 1. destruct (Z.eqb_spec (i / 64) (n / 64)) as [E|E].
  - rewrite E, list_lookup_insert_eq by (unfold zlen in Hr; lia). rewrite Hg by (done || apply mod64).
    rewrite Hb by apply mod64. rewrite <- E. by rewrite <- Z.div_mod by lia.
  - rewrite list_lookup_insert_ne; [done|]. assert (0 ≤ i / 64) by (apply Z.div_pos; lia). lia.
Qed.

(** * The operations on bitmaps by their bits (ccan/bitmap)

    Every operation succeeds inside the bitmap and does to the bits what it says. *)

Ltac divs := Z.to_euclidean_division_equations; lia.

(** Equality of boolean expressions over comparisons of numbers with quotients and remainders. *)
Ltac bdivs := repeat match goal with
  | |- context [?a =? ?b] => destruct (Z.eqb_spec a b)
  | |- context [?a <=? ?b] => destruct (Z.leb_spec a b)
  | |- context [?a <? ?b] => destruct (Z.ltb_spec a b)
  end; cbn [andb orb negb]; try done; exfalso; divs.

Lemma becomes_chain bm f bm1 g bm2 h : becomes bm f bm1 → becomes bm1 g bm2 →
  (∀ i, 0 ≤ i < nbits_of bm → bit bm1 i = f i → g i = h i) → becomes bm h bm2.
Proof.
  intros (Hw1 & Hl1 & Hb1) (Hw2 & Hl2 & Hb2) Hgh. split_and!; [done|congruence|]. intros i Hi.
  rewrite Hb2 by (unfold nbits_of, zlen in *; rewrite Hl1; done). apply Hgh; [done|]. by apply Hb1.
Qed.
Lemma becomes_refl bm : wf bm → becomes bm (bit bm) bm.
Proof. intros Hw. unfold becomes. by split_and!. Qed.
Lemma becomes_ext bm f g bm' : (∀ i, 0 ≤ i < nbits_of bm → f i = g i) → becomes bm f bm' → becomes bm g bm'.
Proof. intros Hfg (Hw & Hl & Hb). split_and!; [done..|]. intros i Hi. rewrite Hb by done. by apply Hfg. Qed.
Lemma becomes_nbits bm f bm' : becomes bm f bm' → nbits_of bm' = nbits_of bm.
Proof. intros (_ & Hl & _). unfold nbits_of, zlen. by rewrite Hl. Qed.

(** ** Single bits *)
Section single.
Context (bm : list Z) (n : Z) (Hwf : wf bm) (Hn : 0 ≤ n < nbits_of bm).

Lemma word_wordbit : word (BITMAP_WORDBIT n).
Proof. apply word_bswap. Qed.

Lemma wordbit_at k : 0 ≤ k < 64 → wbit (BITMAP_WORDBIT n) k = (64 * (n / 64) + k =? n).
Proof. intros Hk. rewrite wbit_wordbit by done. bdivs. Qed.

Lemma set_bit_ok : ∃ bm', bitmap_set_bit bm n = Ok bm' ∧ becomes bm (λ i, (i =? n) || bit bm i) bm'.
Proof.
  destruct (on_word_bits bm n (λ w, Z.lor w (BITMAP_WORDBIT n)) (λ i b, (i =? n) || b)) as (bm' & E & Hb); [done|done|..].
  - intros w Hw. apply word_lor; [done|apply word_wordbit].
  - intros w k Hw Hk. rewrite wbit_lor, wordbit_at by done. apply orb_comm.
  - exists bm'. split; [done|]. eapply becomes_ext, Hb. intros i Hi. cbv beta. bdivs.
Qed.
Lemma clear_bit_ok : ∃ bm', bitmap_clear_bit bm n = Ok bm' ∧ becomes bm (λ i, negb (i =? n) && bit bm i) bm'.
Proof.
  destruct (on_word_bits bm n (λ w, Z.land w (unot (BITMAP_WORDBIT n))) (λ i b, negb (i =? n) && b)) as (bm' & E & Hb); [done|done|..].
  - intros w Hw. apply word_land; [done|]. apply word_unot, word_wordbit.
  - intros w k Hw Hk. rewrite wbit_land, wbit_unot, wordbit_at by (done || apply word_wordbit). apply andb_comm.
  - exists bm'. split; [done|]. eapply becomes_ext, Hb. intros i Hi. cbv beta. bdivs.
Qed.
Lemma change_bit_ok : ∃ bm', bitmap_change_bit bm n = Ok bm' ∧ becomes bm (λ i, xorb (i =? n) (bit bm i)) bm'.
Proof.
  destruct (on_word_bits bm n (λ w, Z.lxor w (BITMAP_WORDBIT n)) (λ i b, xorb (i =? n) b)) as (bm' & E & Hb); [done|done|..].
  - intros w Hw. apply word_lxor; [done|apply word_wordbit].
  - intros w k Hw Hk. rewrite wbit_lxor, wordbit_at by done. apply xorb_comm.
  - exists bm'. split; [done|]. eapply becomes_ext, Hb. intros i Hi. cbv beta.
    destruct (bit bm i); bdivs.
Qed.
Lemma test_bit_ok : bitmap_test_bit bm n = Ok (bit bm n).
Proof.
  destruct (word_at bm n Hwf Hn) as (w & Hw & Hww & Hb). unfold bitmap_test_bit, BITMAP_WORD, BITMAP_WORD_BITS. rewrite Hw. cbn [mbind res_bind].
  f_equal. pose proof (mod64 n). specialize (Hb (n mod 64) ltac:(done)). rewrite <- Z.div_mod in Hb by lia. rewrite <- Hb.
  destruct (Z.eqb_spec (Z.land w (BITMAP_WORDBIT n)) 0) as [E|E]; cbn [negb].
  - assert (Hk : wbit (Z.land w (BITMAP_WORDBIT n)) (n mod 64) = false) by (rewrite E; apply wbit_0).
    rewrite wbit_land, wbit_wordbit, Z.eqb_refl, andb_true_r in Hk by done. done.
  - destruct (wbit w (n mod 64)) eqn:Ew; [done|]. exfalso. apply E.
    apply wbit_inj; [apply word_land; [done|apply word_wordbit]|by unfold word|]. intros k Hk.
    rewrite wbit_land, wbit_wordbit, wbit_0 by done. destruct (Z.eqb_spec k (n mod 64)) as [->|]; [by rewrite Ew|apply andb_false_r].
Qed.
End single.

(** ** Whole words *)
Lemma becomes_insert bm j w : wf bm → 0 ≤ j < zlen bm → word w →
  ∃ bm', aset bm j w = Ok bm' ∧ becomes bm (λ i, if i / 64 =? j then wbit w (i mod 64) else bit bm i) bm'.
Proof.
  intros Hwf Hj Hw. rewrite aset_in by done. eexists. split; [done|]. split_and!; [by apply Forall_insert|apply length_insert|].
  intros i Hi. unfold bit at 1. destruct (Z.eqb_spec (i / 64) j) as [E|E].
  - by rewrite E, list_lookup_insert_eq by (unfold zlen in Hj; lia).
  - rewrite list_lookup_insert_ne; [done|]. assert (0 ≤ i / 64) by (apply Z.div_pos; lia). lia.
Qed.

(** A loop that writes the words [from], [from + 1], ... with [f]. *)
Lemma write_words_ok bm from count (g : Z → res Z) (v : Z → bool) :
  wf bm → 0 ≤ from → 0 ≤ count → from + count ≤ zlen bm →
  (∀ j, from ≤ j < from + count → ∃ w, g j = Ok w ∧ word w ∧ ∀ k, 0 ≤ k < 64 → wbit w k = v (64 * j + k)) →
  ∃ bm', mfor from (from + count) (λ j bm, w ← g j; aset bm j w) bm = Ok bm' ∧
    becomes bm (λ i, if (64 * from <=? i) && (i <? 64 * (from + count)) then v i else bit bm i) bm'.
Proof.
  intros Hwf Hf Hc Hlen Hg.
  destruct (mfor_rule (λ j b, becomes bm (λ i, if (64 * from <=? i) && (i <? 64 * j) then v i else bit bm i) b)
    from (from + count) (λ j bm, w ← g j; aset bm j w) bm) as (bm' & E & Hb).
  - lia.
  - eapply becomes_ext, becomes_refl; [|done]. intros i Hi. cbv beta. by replace ((64 * from <=? i) && (i <? 64 * from)) with false by lia.
  - intros j b Hj Hb. destruct (Hg j Hj) as (w & -> & Hw & Hv). cbn [mbind res_bind].
    assert (Hlb : zlen b = zlen bm) by (apply becomes_nbits in Hb; unfold nbits_of in Hb; lia).
    destruct (becomes_insert b j w) as (b' & -> & Hb'); [apply Hb|lia|done|]. exists b'. split; [done|].
    eapply becomes_chain; [exact Hb|exact Hb'|]. intros i Hi Hbi. cbv beta. rewrite Hbi. destruct (Z.eqb_spec (i / 64) j) as [<-|Hne].
    + rewrite Hv by apply mod64. rewrite <- Z.div_mod by lia.
      replace ((64 * from <=? i) && (i <? 64 * (i / 64 + 1))) with true; [done|]. symmetry. bdivs.
    + replace ((64 * from <=? i) && (i <? 64 * (j + 1))) with ((64 * from <=? i) && (i <? 64 * j)); [done|]. bdivs.
  - by exists bm'.
Qed.

Lemma set_words_ok bm from count w v : wf bm → 0 ≤ from → 0 ≤ count → from + count ≤ zlen bm → word w → (∀ k, 0 ≤ k < 64 → wbit w k = v) →
  ∃ bm', set_words bm from count w = Ok bm' ∧
    becomes bm (λ i, if (64 * from <=? i) && (i <? 64 * (from + count)) then v else bit bm i) bm'.
Proof.
  intros Hwf Hf Hc Hlen Hw Hv.
  destruct (write_words_ok bm from count (λ _, Ok w) (λ _, v)) as (bm' & E & Hb); [done..| |by exists bm']. intros j Hj. by exists w.
Qed.

(** ** Ranges

    Clearing and setting a range differ in what they do with a mask only. *)
Definition paint_range (f : Z → Z → Z) (full : Z) (bm : list Z) (n m : Z) : res (list Z) :=
  let an := BIT_ALIGN_UP n in
  let am := BIT_ALIGN_DOWN m in
  _ ← assert_ (n <=? m);
  if am <? an then on_word bm n (f (bitmap_bswap (Z.land (head_mask n) (tail_mask m)))) else
  bm ← (if n <? an then on_word bm n (f (bitmap_bswap (head_mask n))) else Ok bm);
  bm ← (if an <? am then set_words bm (an / BITMAP_WORD_BITS) ((am - an) / BITMAP_WORD_BITS) full else Ok bm);
  if am <? m then on_word bm m (f (bitmap_bswap (tail_mask m))) else Ok bm.

Section paint.
Context (f : Z → Z → Z) (full : Z) (v : bool).
Context (Hfw : ∀ mask w, word mask → word w → word (f mask w)).
Context (Hf : ∀ mask w k, word mask → word w → 0 ≤ k < 64 → wbit (f mask w) k = if wbit mask k then v else wbit w k).
Context (Hfull : word full) (Hfv : ∀ k, 0 ≤ k < 64 → wbit full k = v).

Lemma paint_word bm n mask (c : Z → bool) : wf bm → 0 ≤ n < nbits_of bm → word mask →
  (∀ k, 0 ≤ k < 64 → wbit mask k = c (64 * (n / 64) + k)) →
  ∃ bm', on_word bm n (f mask) = Ok bm' ∧ becomes bm (λ i, if (i / 64 =? n / 64) && c i then v else bit bm i) bm'.
Proof.
  intros Hwf Hn Hm Hc. destruct (on_word_bits bm n (f mask) (λ i b, if c i then v else b)) as (bm' & E & Hb); [done|done|auto|..].
  - intros w k Hw Hk. rewrite Hf by done. by rewrite Hc.
  - exists bm'. split; [done|]. eapply becomes_ext, Hb. intros i Hi. cbv beta. by destruct (i / 64 =? n / 64).
Qed.

(** The masks by the numbers of their bits. *)
Lemma head_bits n k : 0 ≤ k < 64 → wbit (bitmap_bswap (head_mask n)) k = (n <=? 64 * (n / 64) + k).
Proof. intros Hk. rewrite wbit_head_mask by done. bdivs. Qed.
Lemma tail_bits m k : 0 ≤ k < 64 → wbit (bitmap_bswap (tail_mask m)) k = (64 * (m / 64) + k <? m).
Proof. intros Hk. rewrite wbit_tail_mask by done. bdivs. Qed.
Lemma head_tail_bits n m k : n / 64 = m / 64 → 0 ≤ k < 64 →
  wbit (bitmap_bswap (Z.land (head_mask n) (tail_mask m))) k = (n <=? 64 * (n / 64) + k) && (64 * (n / 64) + k <? m).
Proof.
  intros E Hk. rewrite wbit_bswap, Z.land_spec, testbit_head_mask, testbit_tail_mask; try done; [bdivs|].
  apply word_land; [apply word_head_mask|apply word_tail_mask].
Qed.

Definition in_range (n m i : Z) : bool := (n <=? i) && (i <? m).

Lemma paint_range_ok bm n m : wf bm → 0 ≤ n ≤ m → m ≤ nbits_of bm → nbits_of bm < 2 ^ 63 →
  ∃ bm', paint_range f full bm n m = Ok bm' ∧ becomes bm (λ i, if in_range n m i then v else bit bm i) bm'.
Proof.
  intros Hwf Hnm Hm Hmax. unfold paint_range, assert_, BITMAP_WORD_BITS. rewrite align_up, align_down by lia.
  replace (n <=? m) with true by lia. cbn [mbind res_bind]. unfold nbits_of in Hm.
  destruct (Z.ltb_spec (64 * (m / 64)) (64 * ((n + 63) / 64))) as [Hlt|Hge].
  - assert (E : n / 64 = m / 64) by divs.
    destruct (paint_word bm n (bitmap_bswap (Z.land (head_mask n) (tail_mask m))) (λ i, (n <=? i) && (i <? m))) as (bm' & -> & Hb).
    { done. } { unfold nbits_of. divs. } { apply word_bswap. } { intros k Hk. by apply head_tail_bits. }
    exists bm'. split; [done|]. eapply becomes_ext, Hb. intros i Hi. cbv beta. unfold in_range.
    replace ((i / 64 =? n / 64) && ((n <=? i) && (i <? m))) with ((n <=? i) && (i <? m)); [done|]. bdivs.
  - assert (Hstep1 : ∃ bm1, (if n <? 64 * ((n + 63) / 64) then on_word bm n (f (bitmap_bswap (head_mask n))) else Ok bm) = Ok bm1 ∧
      becomes bm (λ i, if in_range n (64 * ((n + 63) / 64)) i then v else bit bm i) bm1).
    { destruct (Z.ltb_spec n (64 * ((n + 63) / 64))).
      - destruct (paint_word bm n (bitmap_bswap (head_mask n)) (λ i, n <=? i)) as (bm' & -> & Hb).
        { done. } { unfold nbits_of. divs. } { apply word_bswap. } { intros k Hk. by apply head_bits. }
        exists bm'. split; [done|]. eapply becomes_ext, Hb. intros i Hi. cbv beta. unfold in_range.
        replace ((i / 64 =? n / 64) && (n <=? i)) with ((n <=? i) && (i <? 64 * ((n + 63) / 64))); [done|]. bdivs.
      - exists bm. split; [done|]. eapply becomes_ext, becomes_refl; [|done]. intros i Hi. cbv beta. unfold in_range.
        by replace ((n <=? i) && (i <? 64 * ((n + 63) / 64))) with false by lia. }
    destruct Hstep1 as (bm1 & -> & Hb1). cbn [mbind res_bind].
    set (an := (n + 63) / 64) in *. set (am := m / 64) in *.
    assert (Ha : 0 ≤ an ≤ am) by (subst an am; divs). assert (Hz1 : zlen bm1 = zlen bm) by (apply becomes_nbits in Hb1; unfold nbits_of in Hb1; lia).
    assert (Ham : 64 * am ≤ m < 64 * am + 64) by (subst am; divs). assert (Han : n ≤ 64 * an) by (subst an; divs).
    assert (Hstep2 : ∃ bm2, (if 64 * an <? 64 * am then set_words bm1 (64 * an / 64) ((64 * am - 64 * an) / 64) full else Ok bm1) = Ok bm2 ∧
      becomes bm (λ i, if in_range n (64 * am) i then v else bit bm i) bm2).
    { destruct (Z.ltb_spec (64 * an) (64 * am)).
      - replace (64 * an / 64) with an by divs. replace ((64 * am - 64 * an) / 64) with (am - an) by divs.
        destruct (set_words_ok bm1 an (am - an) full v) as (bm2 & -> & Hb2); [apply Hb1|lia|lia|lia|done|done|].
        exists bm2. split; [done|]. eapply becomes_chain; [exact Hb1|exact Hb2|]. intros i Hi Hbi. cbv beta. rewrite Hbi. unfold in_range.
        bdivs.
      - exists bm1. split; [done|]. eapply becomes_ext, Hb1. intros i Hi. cbv beta. by replace (64 * am) with (64 * an) by lia. }
    destruct Hstep2 as (bm2 & -> & Hb2). cbn [mbind res_bind]. assert (Hn2 := becomes_nbits _ _ _ Hb2).
    destruct (Z.ltb_spec (64 * am) m).
    + destruct (paint_word bm2 m (bitmap_bswap (tail_mask m)) (λ i, i <? m)) as (bm3 & -> & Hb3).
      { apply Hb2. } { rewrite Hn2. unfold nbits_of. lia. } { apply word_bswap. } { intros k Hk. by apply tail_bits. }
      exists bm3. split; [done|]. eapply becomes_chain; [exact Hb2|exact Hb3|]. intros i Hi Hbi. cbv beta. rewrite Hbi. unfold in_range.
      fold am. bdivs.
    + exists bm2. split; [done|]. eapply becomes_ext, Hb2. intros i Hi. cbv beta. by replace (64 * am) with m by lia.
Qed.
End paint.

Lemma zero_range_ok bm n m : wf bm → 0 ≤ n ≤ m → m ≤ nbits_of bm → nbits_of bm < 2 ^ 63 →
  ∃ bm', bitmap_zero_range bm n m = Ok bm' ∧ becomes bm (λ i, if in_range n m i then false else bit bm i) bm'.
Proof.
  intros. apply (paint_range_ok (λ mask w, Z.land w (unot mask)) 0 false); try done.
  - intros mask w Hm Hw. apply word_land; [done|]. by apply word_unot.
  - intros mask w k Hm Hw Hk. rewrite wbit_land, wbit_unot by done. destruct (wbit mask k), (wbit w k); done.
  - intros k Hk. apply wbit_0.
Qed.

Lemma fill_range_ok bm n m : wf bm → 0 ≤ n ≤ m → m ≤ nbits_of bm → nbits_of bm < 2 ^ 63 →
  ∃ bm', bitmap_fill_range bm n m = Ok bm' ∧ becomes bm (λ i, if in_range n m i then true else bit bm i) bm'.
Proof.
  intros. apply (paint_range_ok (λ mask w, Z.lor w mask) ULONG_MAX true); try done.
  - intros mask w Hm Hw. by apply word_lor.
  - intros mask w k Hm Hw Hk. rewrite wbit_lor. destruct (wbit mask k), (wbit w k); done.
  - apply wbit_max.
Qed.

(** * Comparing and searching bitmaps (ccan/bitmap)

    Whole bitmaps, the tests over a number of bits, the search for the first set bit, and
    allocation. *)

(** ** Whole bitmaps *)
Definition covers (bm : list Z) (nbits : Z) : Prop := wf bm ∧ 0 ≤ nbits ≤ nbits_of bm ∧ nbits < 2 ^ 62.

Lemma covers_words bm nbits : covers bm nbits → BITMAP_NWORDS nbits = (nbits + 63) / 64 ∧ 0 ≤ BITMAP_NWORDS nbits ≤ zlen bm.
Proof. intros (_ & Hn & Hm). rewrite nwords by lia. unfold nbits_of in Hn. split; [done|divs]. Qed.

Lemma covers_word bm nbits j : covers bm nbits → 0 ≤ j < BITMAP_NWORDS nbits →
  ∃ w, aget bm j = Ok w ∧ word w ∧ ∀ k, 0 ≤ k < 64 → wbit w k = bit bm (64 * j + k).
Proof.
  intros Hc Hj. destruct (covers_words bm nbits Hc) as [_ Hw]. destruct Hc as (Hwf & _).
  destruct (word_at bm (64 * j)) as (w & Hg & Hww & Hb); [done|unfold nbits_of; lia|].
  replace (64 * j / 64) with j in * by divs. by exists w.
Qed.

(** The words of the first [nbits] bits, written from the bits of sources. *)
Definition rewritten (dst : list Z) (nbits : Z) (f : Z → bool) (dst' : list Z) : Prop :=
  becomes dst (λ i, if i <? 64 * BITMAP_NWORDS nbits then f i else bit dst i) dst'.

Lemma write_all_ok dst nbits g f : covers dst nbits →
  (∀ j, 0 ≤ j < BITMAP_NWORDS nbits → ∃ w, g j = Ok w ∧ word w ∧ ∀ k, 0 ≤ k < 64 → wbit w k = f (64 * j + k)) →
  ∃ dst', mfor 0 (BITMAP_NWORDS nbits) (λ j bm, w ← g j; aset bm j w) dst = Ok dst' ∧ rewritten dst nbits f dst'.
Proof.
  intros Hc Hg. destruct (covers_words dst nbits Hc) as [_ Hw]. destruct Hc as (Hwf & _).
  destruct (write_words_ok dst 0 (BITMAP_NWORDS nbits) g f) as (d & E & Hb); [done|lia|lia|lia|by rewrite Z.add_0_l|].
  rewrite Z.add_0_l in *. exists d. split; [done|]. eapply becomes_ext, Hb. intros i Hi. cbv beta. by replace (64 * 0 <=? i) with true by lia.
Qed.

Lemma zero_ok bm nbits : covers bm nbits → ∃ bm', bitmap_zero bm nbits = Ok bm' ∧ rewritten bm nbits (λ _, false) bm'.
Proof.
  intros Hc. apply (write_all_ok bm nbits (λ _, Ok 0) (λ _, false) Hc). intros j Hj. exists 0. split_and!; [done|by unfold word|]. intros; apply wbit_0.
Qed.
Lemma fill_ok bm nbits : covers bm nbits → ∃ bm', bitmap_fill bm nbits = Ok bm' ∧ rewritten bm nbits (λ _, true) bm'.
Proof.
  intros Hc. apply (write_all_ok bm nbits (λ _, Ok ULONG_MAX) (λ _, true) Hc). intros j Hj. exists ULONG_MAX. split_and!; [done|apply word_max|]. apply wbit_max.
Qed.
Lemma copy_ok dst src nbits : covers dst nbits → covers src nbits →
  ∃ dst', bitmap_copy dst src nbits = Ok dst' ∧ rewritten dst nbits (bit src) dst'.
Proof. intros Hd Hs. apply write_all_ok; [done|]. intros j Hj. by apply (covers_word src nbits). Qed.
Lemma complement_ok dst src nbits : covers dst nbits → covers src nbits →
  ∃ dst', bitmap_complement dst src nbits = Ok dst' ∧ rewritten dst nbits (λ i, negb (bit src i)) dst'.
Proof.
  intros Hd Hs. destruct (write_all_ok dst nbits (λ j, w ← aget src j; Ok (unot w)) (λ i, negb (bit src i)) Hd) as (d & E & Hr).
  - intros j Hj. destruct (covers_word src nbits j Hs Hj) as (w & -> & Hw & Hb). exists (unot w). split_and!; [done|by apply word_unot|].
    intros k Hk. rewrite wbit_unot by done. by rewrite Hb.
  - exists d. split; [|done]. rewrite <- E. apply mfold_ext. intros j s _. by destruct (aget src j).
Qed.

Lemma binop_ok (op : Z → Z → Z) (bop : bool → bool → bool) dst src1 src2 nbits :
  (∀ a b, word a → word b → word (op a b)) → (∀ a b k, word a → word b → 0 ≤ k < 64 → wbit (op a b) k = bop (wbit a k) (wbit b k)) →
  covers dst nbits → covers src1 nbits → covers src2 nbits →
  ∃ dst', bitmap_binop op dst src1 src2 nbits = Ok dst' ∧ rewritten dst nbits (λ i, bop (bit src1 i) (bit src2 i)) dst'.
Proof.
  intros Hop Hbop Hd H1 H2.
  destruct (write_all_ok dst nbits (λ j, x ← aget src1 j; y ← aget src2 j; Ok (op x y)) (λ i, bop (bit src1 i) (bit src2 i)) Hd) as (d & E & Hr).
  - intros j Hj. destruct (covers_word src1 nbits j H1 Hj) as (x & -> & Hx & Hbx). destruct (covers_word src2 nbits j H2 Hj) as (y & -> & Hy & Hby).
    exists (op x y). split_and!; [done|by apply Hop|]. intros k Hk. rewrite Hbop by done. by rewrite Hbx, Hby.
  - exists d. split; [|done]. rewrite <- E. apply mfold_ext. intros j s _. destruct (aget src1 j), (aget src2 j); done.
Qed.

(** ** Tests *)
Lemma nonzero w : word w → negb (w =? 0) = true ↔ ∃ k, 0 ≤ k < 64 ∧ wbit w k = true.
Proof.
  intros Hw. split.
  - intros Hne. destruct (decide (Exists (λ k, wbit w k = true) (seqZ 0 64))) as [He|He].
    + apply Exists_exists in He as (k & Hk & Hb). apply elem_of_seqZ in Hk. exists k. split; [lia|done].
    + exfalso. rewrite (wbit_inj w 0) in Hne; [done|done|by unfold word|]. intros k Hk. rewrite wbit_0.
      destruct (wbit w k) eqn:E; [|done]. exfalso. apply He, Exists_exists. exists k. split; [apply elem_of_seqZ; lia|done].
  - intros (k & Hk & Hb). destruct (Z.eqb_spec w 0) as [->|]; [by rewrite wbit_0 in Hb|done].
Qed.

Lemma differ_lxor x y : negb (x =? y) = negb (Z.lxor x y =? 0).
Proof. f_equal. destruct (Z.eqb_spec x y) as [->|Hne]; [by rewrite Z.lxor_nilpotent|]. symmetry. apply Z.eqb_neq. by rewrite Z.lxor_eq_0_iff. Qed.

(** A scan of the whole words and of the tail looks at the first [nbits] bits. *)
Definition scan (test : Z → res bool) (tail : res bool) (nbits : Z) : res bool :=
  hit ← any_word test 0 (Z.to_nat (BITMAP_HEADWORDS nbits));
  if (hit : bool) then Ok true else tail_test nbits tail.

Definition some_bit (P : Z → bool) (from count : Z) : Prop := ∃ i, from ≤ i < from + count ∧ P i = true.

Lemma any_word_ext f g i count : (∀ j, f j = g j) → any_word f i count = any_word g i count.
Proof. intros Hfg. revert i. induction count as [|count IH]; intros i; cbn [any_word]; [done|]. rewrite Hfg. destruct (g i) as [[]|]; cbn [mbind res_bind]; done || apply IH. Qed.

Lemma any_word_ok (P : Z → bool) test i count : (∀ j, i ≤ j < i + Z.of_nat count → ∃ b, test j = Ok b ∧ (b = true ↔ some_bit P (64 * j) 64)) →
  ∃ b, any_word test i count = Ok b ∧ (b = true ↔ some_bit P (64 * i) (64 * Z.of_nat count)).
Proof.
  revert i. induction count as [|count IH]; intros i Ht; cbn [any_word].
  - exists false. split; [done|]. split; [done|]. intros (k & Hk & _). lia.
  - destruct (Ht i) as (b & -> & Hb); [lia|]. cbn [mbind res_bind]. destruct b.
    + exists true. split; [done|]. split; [|done]. intros _. destruct (proj1 Hb eq_refl) as (k & Hk & HP). exists k. split; [lia|done].
    + destruct (IH (i + 1)) as (b & -> & Hb'); [intros j Hj; apply Ht; lia|]. exists b. split; [done|]. rewrite Hb'. split.
      * intros (k & Hk & HP). exists k. split; [lia|done].
      * intros (k & Hk & HP). destruct (Z.lt_ge_cases k (64 * i + 64)) as [Hlt|Hge].
        -- assert (false = true) by (apply Hb; exists k; split; [lia|done]). done.
        -- exists k. split; [lia|done].
Qed.

Lemma scan_ok (P : Z → bool) test tail nbits : 0 ≤ nbits →
  (∀ j, 0 ≤ j < nbits / 64 → ∃ b, test j = Ok b ∧ (b = true ↔ some_bit P (64 * j) 64)) →
  (nbits mod 64 ≠ 0 → ∃ b, tail = Ok b ∧ (b = true ↔ some_bit P (64 * (nbits / 64)) (nbits mod 64))) →
  ∃ b, scan test tail nbits = Ok b ∧ (b = true ↔ some_bit P 0 nbits).
Proof.
  intros Hn Ht Htail. unfold scan, tail_test, BITMAP_HASTAIL, BITMAP_HEADWORDS, BITMAP_WORD_BITS. assert (Hd : 0 ≤ nbits / 64) by divs.
  pose proof (Z.div_mod nbits 64 ltac:(lia)) as Hdm. pose proof (mod64 nbits).
  destruct (any_word_ok P test 0 (Z.to_nat (nbits / 64))) as (b & -> & Hb); [intros j Hj; apply Ht; lia|].
  rewrite Z2Nat.id in Hb by done. cbn [mbind res_bind]. destruct b.
  - exists true. split; [done|]. split; [|done]. intros _. destruct (proj1 Hb eq_refl) as (k & Hk & HP). exists k. split; [lia|done].
  - assert (Hno : ∀ k, 0 ≤ k < 64 * (nbits / 64) → P k ≠ true).
    { intros k Hk HP. assert (false = true) by (apply Hb; exists k; split; [lia|done]). done. }
    destruct (Z.eqb_spec (nbits mod 64) 0) as [E|E]; cbn [negb].
    + exists false. split; [done|]. split; [done|]. intros (k & Hk & HP). exfalso. apply (Hno k); [lia|done].
    + destruct (Htail E) as (b & -> & Hb'). exists b. split; [done|]. rewrite Hb'. split.
      * intros (k & Hk & HP). exists k. split; [lia|done].
      * intros (k & Hk & HP). destruct (Z.lt_ge_cases k (64 * (nbits / 64))); [exfalso; apply (Hno k); [lia|done]|]. exists k. split; [lia|done].
Qed.

(** The words of a scan: a word whose bits are [P], and the tail masked. *)
Lemma word_some (P : Z → bool) j w : word w → (∀ k, 0 ≤ k < 64 → wbit w k = P (64 * j + k)) → negb (w =? 0) = true ↔ some_bit P (64 * j) 64.
Proof.
  intros Hw Hb. rewrite nonzero by done. split.
  - intros (k & Hk & E). exists (64 * j + k). split; [lia|]. by rewrite <- Hb.
  - intros (i & Hi & HP). exists (i - 64 * j). split; [lia|]. rewrite Hb by lia. by replace (64 * j + (i - 64 * j)) with i by lia.
Qed.
Lemma tail_some (P : Z → bool) nbits w : 0 ≤ nbits → word w →
  (∀ k, 0 ≤ k < 64 → wbit w k = P (64 * (nbits / 64) + k) && (k <? nbits mod 64)) →
  negb (w =? 0) = true ↔ some_bit P (64 * (nbits / 64)) (nbits mod 64).
Proof.
  intros Hn Hw Hb. rewrite nonzero by done. pose proof (mod64 nbits). split.
  - intros (k & Hk & E). rewrite Hb in E by done. apply andb_true_iff in E as [HP Hlt]. exists (64 * (nbits / 64) + k). split; [lia|done].
  - intros (i & Hi & HP). exists (i - 64 * (nbits / 64)). split; [lia|]. rewrite Hb by lia.
    replace (64 * (nbits / 64) + (i - 64 * (nbits / 64))) with i by lia. rewrite HP. cbn [andb]. lia.
Qed.

Lemma tail_word bm nbits : covers bm nbits → nbits mod 64 ≠ 0 →
  ∃ t, BITMAP_TAIL bm nbits = Ok t ∧ word t ∧ ∀ k, 0 ≤ k < 64 → wbit t k = bit bm (64 * (nbits / 64) + k) && (k <? nbits mod 64).
Proof.
  intros (Hwf & Hn & _) Hm. unfold nbits_of in Hn. destruct (word_at bm nbits) as (w & Hg & Hw & Hb); [done|unfold nbits_of; divs|].
  unfold BITMAP_TAIL, BITMAP_HEADWORDS, BITMAP_WORD_BITS. rewrite Hg. cbn [mbind res_bind]. eexists. split; [done|]. split.
  - apply word_land; [done|apply word_bswap].
  - intros k Hk. rewrite wbit_land, Hb by done. f_equal. by apply wbit_tail_mask.
Qed.

Lemma head_word bm nbits j : covers bm nbits → 0 ≤ j < nbits / 64 →
  ∃ w, aget bm j = Ok w ∧ word w ∧ ∀ k, 0 ≤ k < 64 → wbit w k = bit bm (64 * j + k).
Proof. intros Hc Hj. apply (covers_word bm nbits); [done|]. destruct (covers_words bm nbits Hc) as [-> _]. destruct Hc as (_ & Hn & _). divs. Qed.

(** *** Two bitmaps *)
Section two.
Context (src1 src2 : list Z) (nbits : Z) (H1 : covers src1 nbits) (H2 : covers src2 nbits).

(** A scan with a test on pairs of words that works bit by bit. *)
Lemma scan_two (op : Z → Z → Z) (bop : bool → bool → bool) :
  (∀ a b, word a → word b → word (op a b)) → (∀ a b k, word a → word b → 0 ≤ k < 64 → wbit (op a b) k = bop (wbit a k) (wbit b k)) →
  bop false false = false →
  ∃ b, scan (λ i, x ← aget src1 i; y ← aget src2 i; Ok (negb (op x y =? 0)))
         (x ← BITMAP_TAIL src1 nbits; y ← BITMAP_TAIL src2 nbits; Ok (negb (op x y =? 0))) nbits = Ok b ∧
    (b = true ↔ some_bit (λ i, bop (bit src1 i) (bit src2 i)) 0 nbits).
Proof.
  intros Hop Hbop Hff. apply scan_ok; [destruct H1 as (_ & ? & _); lia|..].
  - intros j Hj. destruct (head_word src1 nbits j H1 Hj) as (x & -> & Hx & Hbx). destruct (head_word src2 nbits j H2 Hj) as (y & -> & Hy & Hby).
    eexists. split; [done|]. apply word_some; [by apply Hop|]. intros k Hk. rewrite Hbop by done. by rewrite Hbx, Hby.
  - intros Hm. destruct (tail_word src1 nbits H1 Hm) as (x & -> & Hx & Hbx). destruct (tail_word src2 nbits H2 Hm) as (y & -> & Hy & Hby).
    eexists. split; [done|]. apply tail_some; [destruct H1 as (_ & ? & _); lia|by apply Hop|]. intros k Hk. rewrite Hbop by done. rewrite Hbx, Hby by done.
    destruct (k <? nbits mod 64); [by rewrite !andb_true_r|by rewrite !andb_false_r].
Qed.

Lemma intersects_ok : ∃ b, bitmap_intersects src1 src2 nbits = Ok b ∧ (b = true ↔ some_bit (λ i, bit src1 i && bit src2 i) 0 nbits).
Proof. apply (scan_two Z.land andb); [intros a b Ha [Hb _]; by apply word_land|intros; apply wbit_land|done]. Qed.

Lemma subset_scan : ∃ b, bitmap_subset src1 src2 nbits = Ok (negb b) ∧ (b = true ↔ some_bit (λ i, bit src1 i && negb (bit src2 i)) 0 nbits).
Proof.
  destruct (scan_two (λ x y, Z.land x (unot y)) (λ x y, x && negb y)) as (b & E & Hb).
  - intros x y Hx Hy. apply word_land; [done|]. by apply word_unot.
  - intros x y k Hx Hy Hk. by rewrite wbit_land, wbit_unot.
  - done.
  - exists b. split; [|done]. unfold bitmap_subset. unfold scan in E. apply bind_Ok in E as (hit & -> & E). cbn [mbind res_bind].
    destruct hit; [by simplify_eq|]. by rewrite E.
Qed.

Lemma equal_scan : ∃ b, bitmap_equal src1 src2 nbits = Ok (negb b) ∧ (b = true ↔ some_bit (λ i, xorb (bit src1 i) (bit src2 i)) 0 nbits).
Proof.
  destruct (scan_two Z.lxor xorb) as (b & E & Hb); [intros; by apply word_lxor|intros; apply wbit_lxor|done|].
  exists b. split; [|done]. unfold bitmap_equal. unfold scan in E. apply bind_Ok in E as (hit & Eh & E).
  assert (Hsame : any_word (λ i, x ← aget src1 i; y ← aget src2 i; Ok (negb (x =? y))) 0 (Z.to_nat (BITMAP_HEADWORDS nbits)) = Ok hit).
  { rewrite <- Eh. apply any_word_ext. intros j. destruct (aget src1 j), (aget src2 j); cbn [mbind res_bind]; try done. by rewrite differ_lxor. }
  rewrite Hsame. cbn [mbind res_bind]. destruct hit; [by simplify_eq|]. unfold tail_test in E.
  destruct (BITMAP_HASTAIL nbits); cbn [negb] in *; [|by simplify_eq].
  apply bind_Ok in E as (x & -> & E). apply bind_Ok in E as (y & -> & E). cbn [mbind res_bind]. injection E as <-.
  rewrite <- differ_lxor. by rewrite negb_involutive.
Qed.
End two.

(** *** One bitmap *)
Section one.
Context (bm : list Z) (nbits : Z) (Hc : covers bm nbits).

(** The negation of a scan. *)
Lemma unscan test tail b : scan test tail nbits = Ok b →
  (hit ← any_word test 0 (Z.to_nat (BITMAP_HEADWORDS nbits));
   if (hit : bool) then Ok false else t ← tail_test nbits tail; Ok (negb t)) = Ok (negb b).
Proof. unfold scan. intros E. apply bind_Ok in E as (hit & -> & E). cbn [mbind res_bind]. destruct hit; [by simplify_eq|]. by rewrite E. Qed.

Lemma empty_scan : ∃ b, bitmap_empty bm nbits = Ok (negb b) ∧ (b = true ↔ some_bit (bit bm) 0 nbits).
Proof.
  destruct (scan_ok (bit bm) (λ i, x ← aget bm i; Ok (negb (x =? 0))) (x ← BITMAP_TAIL bm nbits; Ok (negb (x =? 0))) nbits) as (b & E & Hb).
  - destruct Hc as (_ & ? & _); lia.
  - intros j Hj. destruct (head_word bm nbits j Hc Hj) as (x & -> & Hx & Hbx). eexists. split; [done|]. by apply word_some.
  - intros Hm. destruct (tail_word bm nbits Hc Hm) as (x & -> & Hx & Hbx). eexists. split; [done|]. apply tail_some; [destruct Hc as (_ & ? & _); lia|done|done].
  - exists b. split; [|done]. by apply unscan.
Qed.

Lemma full_scan : ∃ b, bitmap_full bm nbits = Ok (negb b) ∧ (b = true ↔ some_bit (λ i, negb (bit bm i)) 0 nbits).
Proof.
  destruct (scan_ok (λ i, negb (bit bm i)) (λ i, x ← aget bm i; Ok (negb (x =? ULONG_MAX)))
    (x ← BITMAP_TAIL bm nbits; Ok (negb (x =? BITMAP_TAILBITS nbits))) nbits) as (b & E & Hb).
  - destruct Hc as (_ & ? & _); lia.
  - intros j Hj. destruct (head_word bm nbits j Hc Hj) as (x & -> & Hx & Hbx). eexists. split; [done|]. rewrite differ_lxor.
    apply word_some; [apply word_lxor; [done|apply word_max]|]. intros k Hk. rewrite wbit_lxor, wbit_max, Hbx by done. by destruct (bit bm _).
  - intros Hm. destruct (tail_word bm nbits Hc Hm) as (x & -> & Hx & Hbx). eexists. split; [done|]. rewrite differ_lxor.
    apply tail_some; [destruct Hc as (_ & ? & _); lia|apply word_lxor; [done|apply word_bswap]|]. intros k Hk. rewrite wbit_lxor, Hbx by done.
    assert (Et : wbit (BITMAP_TAILBITS nbits) k = (k <? nbits mod 64)) by (by apply wbit_tail_mask). rewrite Et.
    destruct (bit bm _), (k <? nbits mod 64); done.
  - exists b. split; [|done]. by apply unscan.
Qed.
End one.

(** ** The first set bit *)
Definition first_set (bm : list Z) (n m r : Z) : Prop :=
  n ≤ r ≤ m ∧ (∀ i, n ≤ i < r → bit bm i = false) ∧ (r < m → bit bm r = true).

Lemma clz_first w : word w → w ≠ 0 →
  0 ≤ bitmap_clz w < 64 ∧ Z.testbit w (63 - bitmap_clz w) = true ∧ ∀ k, 0 ≤ k < bitmap_clz w → Z.testbit w (63 - k) = false.
Proof.
  intros [Hw1 Hw2] Hne. unfold bitmap_clz, clz64. pose proof (Z.log2_nonneg w). assert (Z.log2 w < 64) by (apply Z.log2_lt_pow2; lia).
  split_and!; [lia|lia| |].
  - replace (63 - (63 - Z.log2 w)) with (Z.log2 w) by lia. apply Z.bit_log2. lia.
  - intros k Hk. apply Z.bits_above_log2; lia.
Qed.

Section ffs.
Context (bm : list Z) (Hwf : wf bm) (Hmax : nbits_of bm < 2 ^ 63).

(** The masked word of the code: its first bit, or none. *)
Lemma masked_word n mask (c : Z → bool) : 0 ≤ n < nbits_of bm → word mask → (∀ k, 0 ≤ k < 64 → Z.testbit mask (63 - k) = c (64 * (n / 64) + k)) →
  ∃ w, BITMAP_WORD bm n = Ok w ∧
    let w' := Z.land (bitmap_bswap w) mask in
    (negb (w' =? 0) = true → let r := 64 * (n / 64) + bitmap_clz w' in 64 * (n / 64) ≤ r < 64 * (n / 64) + 64 ∧ c r = true ∧ bit bm r = true ∧
       ∀ i, 64 * (n / 64) ≤ i < r → c i = true → bit bm i = false) ∧
    (negb (w' =? 0) = false → ∀ i, 64 * (n / 64) ≤ i < 64 * (n / 64) + 64 → c i = true → bit bm i = false).
Proof.
  intros Hn Hm Hc. destruct (word_at bm n Hwf Hn) as (w & Hg & Hw & Hb). exists w. split; [done|]. cbv zeta.
  set (w' := Z.land (bitmap_bswap w) mask). assert (Hw' : word w') by (apply word_land; [apply word_bswap|apply Hm]).
  assert (Ht : ∀ k, 0 ≤ k < 64 → Z.testbit w' (63 - k) = bit bm (64 * (n / 64) + k) && c (64 * (n / 64) + k)).
  { intros k Hk. subst w'. rewrite Z.land_spec, testbit_bswap_63, Hb, Hc by done. done. }
  split.
  - intros Hne. destruct (Z.eqb_spec w' 0) as [|Hne']; [done|]. destruct (clz_first w' Hw' Hne') as (Hr & Hset & Hclear).
    rewrite Ht in Hset by done. apply andb_true_iff in Hset as [Hbit Hcr]. split_and!; [lia|lia|done|done|].
    intros i Hi Hci. specialize (Hclear (i - 64 * (n / 64)) ltac:(lia)). rewrite Ht in Hclear by lia.
    replace (64 * (n / 64) + (i - 64 * (n / 64))) with i in Hclear by lia. rewrite Hci, andb_true_r in Hclear. done.
  - intros Hz i Hi Hci. destruct (Z.eqb_spec w' 0) as [E|]; [|done]. specialize (Ht (i - 64 * (n / 64)) ltac:(lia)).
    replace (64 * (n / 64) + (i - 64 * (n / 64))) with i in Ht by lia. rewrite E, Z.bits_0, Hci, andb_true_r in Ht. done.
Qed.

(** The first set bit of a range, or none. *)
Definition found (a b : Z) (o : option Z) : Prop :=
  match o with
  | Some r => a ≤ r < b ∧ bit bm r = true ∧ ∀ i, a ≤ i < r → bit bm i = false
  | None => ∀ i, a ≤ i < b → bit bm i = false
  end.

(** The loop over whole words. *)
Lemma ffs_words_ok fuel a b : 0 ≤ a → a ≤ b → 64 * b ≤ nbits_of bm → b - a < Z.of_nat fuel →
  ∃ o, ffs_words fuel bm (64 * a) (64 * b) = Ok o ∧ found (64 * a) (64 * b) o.
Proof.
  revert a. induction fuel as [|fuel IH]; intros a Ha Hab Hb Hf; [lia|]. cbn [ffs_words]. destruct (Z.ltb_spec (64 * a) (64 * b)).
  - destruct (masked_word (64 * a) ULONG_MAX (λ _, true)) as (w & -> & Hyes & Hno); [lia|apply word_max|..].
    { intros k Hk. change ULONG_MAX with (Z.ones 64). apply Z.ones_spec_low. lia. }
    cbn [mbind res_bind]. replace (64 * a / 64) with a in * by divs.
    replace (Z.land (bitmap_bswap w) ULONG_MAX) with (bitmap_bswap w) in *.
    2: { change ULONG_MAX with (Z.ones 64). rewrite Z.land_ones by lia. symmetry. apply Z.mod_small, word_bswap. }
    destruct (negb (bitmap_bswap w =? 0)).
    + exists (Some (64 * a + bitmap_clz (bitmap_bswap w))). split; [done|]. destruct (Hyes eq_refl) as (Hr & _ & Hbit & Hclear).
      split_and!; [lia|lia|done|]. intros i Hi. by apply Hclear.
    + unfold BITMAP_WORD_BITS. replace (64 * a + 64) with (64 * (a + 1)) by lia. destruct (IH (a + 1)) as (o & -> & Ho); [lia..|].
      exists o. split; [done|]. assert (Hclear : ∀ i, 64 * a ≤ i < 64 * (a + 1) → bit bm i = false) by (intros i Hi; apply (Hno eq_refl); [lia|done]).
      destruct o as [r|].
      * destruct Ho as (Hr & Hbit & Hbefore). split_and!; [lia|lia|done|]. intros i Hi. destruct (Z.lt_ge_cases i (64 * (a + 1))); [apply Hclear|apply Hbefore]; lia.
      * intros i Hi. destruct (Z.lt_ge_cases i (64 * (a + 1))); [apply Hclear|apply Ho]; lia.
  - exists None. split; [done|]. intros i Hi. lia.
Qed.

Lemma ffs_ok n m : 0 ≤ n ≤ m → m ≤ nbits_of bm → ∃ r, bitmap_ffs bm n m = Ok r ∧ first_set bm n m r.
Proof.
  intros Hnm Hm. unfold bitmap_ffs, assert_, BITMAP_WORD_BITS. cbv zeta. rewrite align_up, !align_down by lia. replace (n <=? m) with true by lia. cbn [mbind res_bind].
  unfold nbits_of in Hm. change (Z.shiftr ULONG_MAX (n mod 64)) with (head_mask n). change (unot (Z.shiftr ULONG_MAX (m mod 64))) with (tail_mask m).
  destruct (Z.ltb_spec (64 * (m / 64)) (64 * ((n + 63) / 64))) as [Hlt|Hge].
  - assert (E : n / 64 = m / 64) by divs.
    destruct (masked_word n (Z.land (head_mask n) (tail_mask m)) (in_range n m)) as (w & -> & Hyes & Hno).
    { unfold nbits_of. divs. } { apply word_land; [apply word_head_mask|apply word_tail_mask]. }
    { intros k Hk. rewrite Z.land_spec, testbit_head_mask, testbit_tail_mask by done. unfold in_range. bdivs. }
    cbn [mbind res_bind]. rewrite <- E. eexists. split; [done|]. unfold in_range in *. destruct (negb _).
    + destruct (Hyes eq_refl) as (Hr & Hcr & Hbit & Hclear). split_and!; [lia|lia| |done]. intros i Hi. apply Hclear; [divs|]. bdivs.
    + split_and!; [lia|lia| |lia]. intros i Hi. apply (Hno eq_refl); [divs|lia].
  - assert (Hhead : ∃ o, (if n <? 64 * ((n + 63) / 64) then
        w ← BITMAP_WORD bm n;
        Ok (if negb (Z.land (bitmap_bswap w) (head_mask n) =? 0) then Some (64 * (n / 64) + bitmap_clz (Z.land (bitmap_bswap w) (head_mask n))) else None)
      else Ok None) = Ok o ∧ found n (64 * ((n + 63) / 64)) o).
    { destruct (Z.ltb_spec n (64 * ((n + 63) / 64))).
      - destruct (masked_word n (head_mask n) (λ i, n <=? i)) as (w & -> & Hyes & Hno).
        { unfold nbits_of. divs. } { apply word_head_mask. } { intros k Hk. rewrite testbit_head_mask by done. bdivs. }
        cbn [mbind res_bind]. eexists. split; [done|]. destruct (negb _); cbn [found].
        + destruct (Hyes eq_refl) as (Hr & Hcr & Hbit & Hclear). split_and!; [lia|divs|done|]. intros i Hi. apply Hclear; [divs|lia].
        + intros i Hi. apply (Hno eq_refl); [divs|lia].
      - exists None. split; [done|]. intros i Hi. lia. }
    destruct Hhead as (head & -> & Hhead). cbn [mbind res_bind]. set (an := (n + 63) / 64) in *. set (am := m / 64) in *.
    assert (Ha : 0 ≤ an ≤ am) by (subst an am; divs). assert (Ham : 64 * am ≤ m < 64 * am + 64) by (subst am; divs). assert (Han : n ≤ 64 * an) by (subst an; divs).
    destruct head as [r|]; cbn [found] in Hhead.
    { exists r. split; [done|]. destruct Hhead as (Hr & Hbit & Hclear). split_and!; [lia|lia|done|done]. }
    replace (64 * am / 64) with am by divs.
    destruct (ffs_words_ok (S (Z.to_nat am)) an am) as (o & -> & Ho); [lia|lia|unfold nbits_of; lia|lia|]. cbn [mbind res_bind]. destruct o as [r|].
    { exists r. split; [done|]. destruct Ho as (Hr & Hbit & Hclear). split_and!; [lia|lia| |done]. intros i Hi.
      destruct (Z.lt_ge_cases i (64 * an)); [apply Hhead|apply Hclear]; lia. }
    assert (Hbefore : ∀ i, n ≤ i < 64 * am → bit bm i = false).
    { intros i Hi. destruct (Z.lt_ge_cases i (64 * an)); [apply Hhead|apply Ho]; lia. }
    destruct (Z.ltb_spec (64 * am) m).
    + destruct (masked_word m (tail_mask m) (λ i, i <? m)) as (w & -> & Hyes & Hno).
      { unfold nbits_of. lia. } { apply word_tail_mask. } { intros k Hk. rewrite testbit_tail_mask by done. fold am. bdivs. }
      fold am in Hyes, Hno. cbn [mbind res_bind]. eexists. split; [done|]. destruct (negb _).
      * destruct (Hyes eq_refl) as (Hr & Hcr & Hbit & Hclear). split_and!; [lia|lia| |done]. intros i Hi.
        destruct (Z.lt_ge_cases i (64 * am)); [apply Hbefore; lia|]. apply Hclear; lia.
      * split_and!; [lia|lia| |lia]. intros i Hi. destruct (Z.lt_ge_cases i (64 * am)); [apply Hbefore; lia|]. apply (Hno eq_refl); lia.
    + exists m. split; [done|]. split_and!; [lia|lia| |lia]. intros i Hi. apply Hbefore. lia.
Qed.
End ffs.
