(* ===== verification/BitArrayProps.v ===== *)
(** * What bitmaps promise (ccan/bitmap)

    A bitmap of words behaves like a function from numbers to bits under every sequence of
    operations; tests and the search see exactly these bits. *)
From S2P Require Import Prelude.
From S2P Require Import Rule.
From S2P Require Import BitArray.
From S2P Require Import BitArraySpec.
#[local] Open Scope Z_scope.

(** ** Allocation *)
Section alloc.
Context `{Allocator} (junk : Z → Z) (Hjunk : ∀ i, word (junk i)).

Lemma sizeof_words nbits : 0 ≤ nbits < 2 ^ 62 → bitmap_sizeof nbits / 8 = BITMAP_NWORDS nbits.
Proof.
  intros Hn. unfold bitmap_sizeof, u64. rewrite nwords by lia. rewrite Z.mod_small by divs. by rewrite Z.div_mul by lia.
Qed.

Lemma alloc_covers nbits bm : 0 ≤ nbits < 2 ^ 62 → bitmap_alloc junk nbits = Some bm → covers bm nbits ∧ zlen bm = BITMAP_NWORDS nbits.
Proof.
  intros Hn. unfold bitmap_alloc. destruct (alloc_ok _); [|done]. intros [= <-].
  assert (Hl : zlen (junk <$> seqZ 0 (bitmap_sizeof nbits / 8)) = BITMAP_NWORDS nbits).
  { unfold zlen. rewrite length_fmap, length_seqZ, sizeof_words by done. rewrite nwords by lia. divs. }
  split; [|done]. split_and!; [|lia| |lia].
  - apply Forall_fmap, Forall_forall. intros i _. apply Hjunk.
  - unfold nbits_of. rewrite Hl, nwords by lia. divs.
Qed.

Lemma alloc1_ok nbits : 0 ≤ nbits < 2 ^ 62 → alloc_ok (bitmap_sizeof nbits) = true →
  ∃ bm, bitmap_alloc1 junk nbits = Ok (Some bm) ∧ covers bm nbits ∧ zlen bm = BITMAP_NWORDS nbits ∧ ∀ i, 0 ≤ i < nbits → bit bm i = true.
Proof.
  intros Hn Ha. unfold bitmap_alloc1. assert (Hal : ∃ b, bitmap_alloc junk nbits = Some b) by (unfold bitmap_alloc; rewrite Ha; eauto).
  destruct Hal as [b Hb]. rewrite Hb. destruct (alloc_covers nbits b Hn Hb) as [Hc Hl].
  destruct (fill_ok b nbits Hc) as (bm & -> & Hr). cbn [mbind res_bind]. exists bm. split; [done|].
  assert (Hnb := becomes_nbits _ _ _ Hr). destruct Hr as (Hwf & Hlen & Hbits). destruct Hc as (_ & Hc & Hmx). unfold covers. split_and!; [exact Hwf|lia|lia|lia|unfold zlen in *; by rewrite Hlen|].
  intros i Hi. rewrite Hbits by lia. replace (i <? 64 * BITMAP_NWORDS nbits) with true; [done|]. symmetry. rewrite nwords by lia. apply Z.ltb_lt. divs.
Qed.

(** [bitmap_resize] keeps the bits that fit. *)
Lemma resize_ok bm nbits : wf bm → 0 ≤ nbits < 2 ^ 62 → alloc_ok (bitmap_sizeof nbits) = true →
  ∃ b, bitmap_resize junk bm nbits = Some b ∧ wf b ∧ zlen b = BITMAP_NWORDS nbits ∧
    ∀ i, 0 ≤ i < nbits_of bm → i < nbits_of b → bit b i = bit bm i.
Proof.
  intros Hwf Hn Ha. unfold bitmap_resize. rewrite Ha. eexists. split; [done|].
  set (b := (λ i, default (junk i) (bm !! Z.to_nat i)) <$> seqZ 0 (bitmap_sizeof nbits / 8)).
  assert (Hlb : zlen b = BITMAP_NWORDS nbits).
  { subst b. unfold zlen. rewrite length_fmap, length_seqZ, sizeof_words by lia. rewrite nwords by lia. divs. }
  split_and!; [|done|].
  - apply Forall_fmap, Forall_forall. intros i _. cbn. destruct (bm !! Z.to_nat i) eqn:E; cbn; [by eapply Forall_lookup_1|apply Hjunk].
  - intros i Hi Hib. unfold bit, nbits_of in *. assert (Hj : 0 ≤ i / 64) by divs.
    assert (Hlk : b !! Z.to_nat (i / 64) = Some (default (junk (i / 64)) (bm !! Z.to_nat (i / 64)))).
    { subst b. rewrite list_lookup_fmap, lookup_seqZ_lt; [cbn; f_equal; by rewrite Z.add_0_l, Z2Nat.id by lia|].
      rewrite sizeof_words, <- Hlb by lia. divs. }
    rewrite Hlk. destruct (bm !! Z.to_nat (i / 64)) eqn:E; [done|]. apply lookup_ge_None in E. unfold zlen in Hi. divs.
Qed.

Lemma realloc1_ok bm obits nbits : wf bm → 0 ≤ obits ≤ nbits → obits ≤ nbits_of bm → nbits < 2 ^ 62 → alloc_ok (bitmap_sizeof nbits) = true →
  ∃ bm', bitmap_realloc1 junk bm obits nbits = Ok (Some bm') ∧ wf bm' ∧ zlen bm' = BITMAP_NWORDS nbits ∧
    ∀ i, 0 ≤ i < nbits → bit bm' i = if i <? obits then bit bm i else true.
Proof.
  intros Hwf Ho Hob Hn Ha. unfold bitmap_realloc1. destruct (resize_ok bm nbits Hwf ltac:(lia) Ha) as (b & -> & Hwb & Hlb & Hkeep).
  assert (Hnw : 64 * BITMAP_NWORDS nbits < nbits + 64 ∧ nbits ≤ 64 * BITMAP_NWORDS nbits) by (rewrite nwords by lia; divs).
  unfold nbits_of in Hkeep at 2. rewrite Hlb in Hkeep. destruct (Z.ltb_spec obits nbits) as [Hlt|Hge].
  - destruct (fill_range_ok b obits nbits) as (bm' & -> & Hb'); [done|lia|unfold nbits_of; lia|unfold nbits_of; lia|]. cbn [mbind res_bind].
    exists bm'. split; [done|]. destruct Hb' as (Hw' & Hlen & Hbits). split_and!; [done|unfold zlen in *; congruence|].
    intros i Hi. rewrite Hbits by (unfold nbits_of; lia). unfold in_range. destruct (Z.ltb_spec i obits).
    + replace (obits <=? i) with false by lia. apply Hkeep; lia.
    + by replace ((obits <=? i) && (i <? nbits)) with true by lia.
  - exists b. split_and!; [done..|]. intros i Hi. replace (i <? obits) with true by lia. apply Hkeep; lia.
Qed.
End alloc.

(** ** Sequences of operations *)
Inductive bitmap_op :=
  | OpSet (n : Z) | OpClear (n : Z) | OpChange (n : Z)
  | OpZeroRange (n m : Z) | OpFillRange (n m : Z).

Definition run_op (o : bitmap_op) (bm : list Z) : res (list Z) :=
  match o with
  | OpSet n => bitmap_set_bit bm n
  | OpClear n => bitmap_clear_bit bm n
  | OpChange n => bitmap_change_bit bm n
  | OpZeroRange n m => bitmap_zero_range bm n m
  | OpFillRange n m => bitmap_fill_range bm n m
  end.

(** What an operation does to the bits. *)
Definition op_bits (o : bitmap_op) (b : Z → bool) (i : Z) : bool :=
  match o with
  | OpSet n => (i =? n) || b i
  | OpClear n => negb (i =? n) && b i
  | OpChange n => xorb (i =? n) (b i)
  | OpZeroRange n m => if in_range n m i then false else b i
  | OpFillRange n m => if in_range n m i then true else b i
  end.

Definition op_ok (nbits : Z) (o : bitmap_op) : Prop :=
  match o with
  | OpSet n | OpClear n | OpChange n => 0 ≤ n < nbits
  | OpZeroRange n m | OpFillRange n m => 0 ≤ n ≤ m ∧ m ≤ nbits
  end.

Lemma op_bits_ext o b b' : (∀ i, 0 ≤ i → b i = b' i) → ∀ i, 0 ≤ i → op_bits o b i = op_bits o b' i.
Proof. intros Hb i Hi. destruct o; cbn [op_bits]; by rewrite Hb. Qed.

Lemma run_op_ok o bm : wf bm → op_ok (nbits_of bm) o → nbits_of bm < 2 ^ 63 →
  ∃ bm', run_op o bm = Ok bm' ∧ becomes bm (op_bits o (bit bm)) bm'.
Proof.
  intros Hwf Ho Hmax. destruct o as [n|n|n|n m|n m]; cbn [run_op op_ok] in *.
  - by apply set_bit_ok.
  - by apply clear_bit_ok.
  - by apply change_bit_ok.
  - by apply zero_range_ok; destruct Ho.
  - by apply fill_range_ok; destruct Ho.
Qed.

Lemma run_ops_ok ops : ∀ bm, wf bm → Forall (op_ok (nbits_of bm)) ops → nbits_of bm < 2 ^ 63 →
  ∃ bm', mfold run_op ops bm = Ok bm' ∧ becomes bm (foldl (λ b o, op_bits o b) (bit bm) ops) bm'.
Proof.
  induction ops as [|o ops IH] using rev_ind; intros bm Hwf Ho Hmax.
  - exists bm. split; [done|]. by apply becomes_refl.
  - apply Forall_app in Ho as [Hos Ho]. apply Forall_cons_1 in Ho as [Ho _]. destruct (IH bm Hwf Hos Hmax) as (b1 & E1 & Hb1).
    assert (Hn1 := becomes_nbits _ _ _ Hb1). rewrite mfold_app, E1. cbn [mbind res_bind mfold].
    destruct (run_op_ok o b1) as (b2 & -> & Hb2); [apply Hb1|by rewrite Hn1|lia|]. exists b2. split; [done|].
    eapply becomes_chain; [exact Hb1|exact Hb2|]. intros i Hi Hbi. rewrite foldl_app. cbn [foldl]. destruct o; cbn [op_bits]; by rewrite Hbi.
Qed.

(** C25: bitmaps refine functions to bits.  Any sequence of bitmap_set_bit, bitmap_clear_bit,
    bitmap_change_bit, bitmap_zero_range and bitmap_fill_range inside a bitmap succeeds and
    changes exactly the bits it names, on the byte-swapped words of the machine; then
    bitmap_test_bit reads each bit, and bitmap_ffs returns the first set bit of any range,
    or its end. *)
Theorem bitmap_refines_bits bm ops : wf bm → nbits_of bm < 2 ^ 63 → Forall (op_ok (nbits_of bm)) ops →
  let bits := foldl (λ b o, op_bits o b) (bit bm) ops in
  ∃ bm', mfold run_op ops bm = Ok bm' ∧ length bm' = length bm ∧
    (∀ i, 0 ≤ i < nbits_of bm → bitmap_test_bit bm' i = Ok (bits i)) ∧
    (∀ n m, 0 ≤ n ≤ m → m ≤ nbits_of bm → ∃ r, bitmap_ffs bm' n m = Ok r ∧
       n ≤ r ≤ m ∧ (∀ i, n ≤ i < r → bits i = false) ∧ (r < m → bits r = true)).
Proof.
  intros Hwf Hmax Hops bits. destruct (run_ops_ok ops bm Hwf Hops Hmax) as (bm' & E & Hb). assert (Hn := becomes_nbits _ _ _ Hb).
  destruct Hb as (Hw & Hl & Hb). exists bm'. split_and!; [done|done| |].
  - intros i Hi. rewrite test_bit_ok by (done || by rewrite Hn). by rewrite Hb.
  - intros n m Hnm Hm. destruct (ffs_ok bm' Hw ltac:(lia) n m Hnm ltac:(lia)) as (r & Er & Hr & Hbefore & Hset).
    exists r. split_and!; [done|lia|lia| |].
    + intros i Hi. rewrite <- (Hbefore i Hi). symmetry. apply Hb. lia.
    + intros Hlt. rewrite <- (Hset Hlt). symmetry. apply Hb. lia.
Qed.

Lemma bitmap_refines_bits_witness :
  let bits := foldl (λ b o, op_bits o b) (bit [0; 5; 7]) [OpFillRange 3 140; OpClear 100; OpChange 191] in
  ∃ bm', mfold run_op [OpFillRange 3 140; OpClear 100; OpChange 191] [0; 5; 7] = Ok bm' ∧ length bm' = length [0; 5; 7] ∧
    (∀ i, 0 ≤ i < nbits_of [0; 5; 7] → bitmap_test_bit bm' i = Ok (bits i)) ∧
    (∀ n m, 0 ≤ n ≤ m → m ≤ nbits_of [0; 5; 7] → ∃ r, bitmap_ffs bm' n m = Ok r ∧
       n ≤ r ≤ m ∧ (∀ i, n ≤ i < r → bits i = false) ∧ (r < m → bits r = true)).
Proof.
  apply bitmap_refines_bits; [repeat constructor; vm_compute; congruence|vm_compute; congruence|].
  repeat constructor; vm_compute; congruence.
Defined.

(** The tests over the first bits: equality, intersection, inclusion, fullness, emptiness. *)
Theorem bitmap_tests_exact src1 src2 nbits : covers src1 nbits → covers src2 nbits →
  (∃ b, bitmap_equal src1 src2 nbits = Ok b ∧ (b = true ↔ ∀ i, 0 ≤ i < nbits → bit src1 i = bit src2 i)) ∧
  (∃ b, bitmap_intersects src1 src2 nbits = Ok b ∧ (b = true ↔ ∃ i, 0 ≤ i < nbits ∧ bit src1 i = true ∧ bit src2 i = true)) ∧
  (∃ b, bitmap_subset src1 src2 nbits = Ok b ∧ (b = true ↔ ∀ i, 0 ≤ i < nbits → bit src1 i = true → bit src2 i = true)) ∧
  (∃ b, bitmap_full src1 nbits = Ok b ∧ (b = true ↔ ∀ i, 0 ≤ i < nbits → bit src1 i = true)) ∧
  (∃ b, bitmap_empty src1 nbits = Ok b ∧ (b = true ↔ ∀ i, 0 ≤ i < nbits → bit src1 i = false)).
Proof.
  intros H1 H2.
  assert (Hneg : ∀ (P : Z → bool) b, (b = true ↔ some_bit P 0 nbits) → negb b = true ↔ ∀ i, 0 ≤ i < nbits → P i = false).
  { intros P b Hb. split.
    - intros Hn i Hi. destruct (P i) eqn:E; [|done]. assert (b = true) as -> by (apply Hb; exists i; split; [lia|done]). done.
    - intros Hall. destruct b; [|done]. destruct (proj1 Hb eq_refl) as (i & Hi & HP). rewrite Hall in HP by lia. done. }
  split_and!.
  - destruct (equal_scan src1 src2 nbits H1 H2) as (b & -> & Hb). eexists. split; [done|]. rewrite (Hneg _ _ Hb).
    split; intros Hall i Hi; specialize (Hall i Hi); by destruct (bit src1 i), (bit src2 i).
  - destruct (intersects_ok src1 src2 nbits H1 H2) as (b & -> & Hb). eexists. split; [done|]. rewrite Hb. split.
    + intros (i & Hi & HP). apply andb_true_iff in HP. exists i. split; [lia|done].
    + intros (i & Hi & HP). exists i. split; [lia|]. by apply andb_true_iff.
  - destruct (subset_scan src1 src2 nbits H1 H2) as (b & -> & Hb). eexists. split; [done|]. rewrite (Hneg _ _ Hb).
    split; intros Hall i Hi; specialize (Hall i Hi); destruct (bit src1 i), (bit src2 i); try done. by specialize (Hall eq_refl).
  - destruct (full_scan src1 nbits H1) as (b & -> & Hb). eexists. split; [done|]. rewrite (Hneg _ _ Hb).
    split; intros Hall i Hi; specialize (Hall i Hi); by destruct (bit src1 i).
  - destruct (empty_scan src1 nbits H1) as (b & -> & Hb). eexists. split; [done|]. by rewrite (Hneg _ _ Hb).
Qed.
