(* ===== verification/PrimeGap.v ===== *)
(** * A prime between a number and its square

    The sieve of ccan/eratosthenes asserts that it never runs out of primes: below the
    limit there is a prime after every prime [p] whose square is below it.  The reason is
    counted with the central binomial coefficient: it is at least [2 ^ m], each prime
    power in it is at most [2 * m], and without a prime between [n] and [n * n] only the
    primes up to [n] divide it. *)
From Stdlib Require Import Lia PeanoNat.
From mathcomp Require Import ssreflect ssrfun ssrbool eqtype ssrnat seq div fintype bigop prime binomial.

Set Implicit Arguments.
Unset Strict Implicit.
Unset Printing Implicit Defensive.


(** ** The central binomial coefficient *)
Lemma central_bin m : 2 ^ m <= 'C(m.*2, m).
Proof.
elim: m => [|m IH]; first by rw bin0.
have -> : 'C(m.+1.*2, m.+1) = 'C(m.*2.+1, m) * 2.
  rw doubleS binS muln2 -[RHS]addnn; congr (_ + _).
  by rw -bin_sub ?ltnS -?addnn ?leq_addr // subSS addnK.
rw expnSr leq_pmul2r //; apply: leq_trans IH _.
by case: m => [|m] //; rw [X in _ <= X]binS leq_addr.
Qed.

(** Each power of a prime takes part once at most. *)
Lemma double_div m d : 0 < d -> m.*2 %/ d <= (m %/ d).*2 + (d <= m.*2).
Proof.
move=> d_gt0; case: (leqP d m.*2) => [_|lt]; last by rw divn_small.
rw addn1 -ltnS ltn_divLR // {1}(divn_eq m d) doubleD doubleMl !mulSn addnA addnC ltn_add2r -addnn.
by rw -addSn leq_add ?ltn_pmod // ltnW ?ltn_pmod.
Qed.

Lemma logn_fact_upto p n N : prime p -> n <= N -> logn p n`! = \sum_(1 <= k < N.+1) n %/ p ^ k.
Proof.
move=> pr_p le_nN; rw logn_fact // [RHS](@big_cat_nat _ _ _ n.+1) //=.
rw [X in _ = _ + X]big_nat_cond [X in _ = _ + X]big1 ?addn0 // => k /andP[/andP[lt_nk _] _]; apply: divn_small.
exact: ltn_trans lt_nk (ltn_expl _ (prime_gt1 pr_p)).
Qed.

Lemma count_upto N T : \sum_(1 <= k < N.+1) (k <= T) <= T.
Proof.
have -> : \sum_(1 <= k < N.+1) (k <= T) = minn N T; last exact: geq_minr.
elim: N => [|N IH]; first by rw big_geq // min0n.
rw big_nat_recr //= IH; case: (leqP N.+1 T) => [lt|le].
  by rw addn1 (minn_idPl (ltnW lt)).
by rw addn0 (minn_idPr _).
Qed.

Lemma sum_double (F : nat -> nat) N : (\sum_(1 <= k < N) F k).*2 = \sum_(1 <= k < N) (F k).*2.
Proof. by rw -addnn -big_split; apply: eq_bigr => k _; rw -addnn. Qed.

(** The power of a prime in it is at most [2 * m]. *)
Lemma bin_part q m : prime q -> 0 < m -> q ^ logn q 'C(m.*2, m) <= m.*2.
Proof.
move=> pr_q m_gt0; set v := logn _ _; have q_gt1 := prime_gt1 pr_q.
have m2_gt0 : 0 < m.*2 by rw double_gt0.
apply: leq_trans (trunc_logP q_gt1 m2_gt0); rw leq_exp2l //.
have le_m : m <= m.*2 by rw -addnn leq_addr.
have := congr1 (logn q) (bin_fact le_m); rw -addnn addnK addnn !lognM ?muln_gt0 ?fact_gt0 ?bin_gt0 // -/v addnn.
rw !(logn_fact_upto pr_q (leqnn m.*2)) (logn_fact_upto pr_q le_m) => E.
apply: leq_trans (count_upto m.*2 (trunc_log q m.*2)).
rw -(leq_add2r (\sum_(1 <= k < m.*2.+1) m %/ q ^ k).*2) E.
rw addnC sum_double -big_split /=; apply: leq_sum => k _.
have qk_gt0 : 0 < q ^ k by rw expn_gt0 prime_gt0.
apply: leq_trans (double_div m qk_gt0) _.
rw leq_add2l; case: (leqP (q ^ k) m.*2) => // le; by rw trunc_log_max.
Qed.

(** ** Counting the primes up to [n] *)
Lemma primes_few n M : odd n -> (forall q, q \in primes M -> q <= n) -> size (primes M) <= n.+1./2.
Proof.
move=> odd_n le_n; have -> : n.+1./2 = size (2 :: [seq i.*2.+1 | i <- iota 1 n./2]).
  by rw /= size_map size_iota uphalf_half odd_n.
apply: uniq_leq_size (primes_uniq M) _ => q q_in.
have := q_in; rw mem_primes => /andP[pr_q _]; rw inE.
case: eqP => //= ne2; apply/mapP; exists q./2; last first.
  by rw -[LHS]odd_double_half; case: (even_prime pr_q) => [//|->].
rw mem_iota add1n ltnS half_leq ?le_n // andbT half_gt0; exact: prime_gt1.
Qed.

Lemma prod_bound (r : seq nat) (F : nat -> nat) M : {in r, forall q, F q <= M} -> \prod_(q <- r) F q <= M ^ size r.
Proof.
elim: r => [|q r IH] le_M; first by rw big_nil.
rw big_cons expnS leq_mul ?le_M ?mem_head ?IH // => x x_in; apply: le_M; by rw inE x_in orbT.
Qed.

Lemma bin_few n m : odd n -> 0 < m -> (forall q, prime q -> n < q -> q <= m.*2 -> False) ->
  'C(m.*2, m) <= m.*2 ^ n.+1./2.
Proof.
move=> odd_n m_gt0 gap; set B := 'C(_, _).
have B_gt0 : 0 < B by rw bin_gt0 -addnn leq_addr.
have in_le q : q \in primes B -> q <= n.
  rw mem_primes => /and3P[pr_q _ dv]; rw leqNgt; apply/negP => lt; apply: (gap q) => //.
  apply: leq_trans (bin_part pr_q m_gt0); rw -{1}[q]expn1 leq_exp2l ?prime_gt1 //.
  by rw -pfactor_dvdn // expn1.
rw {1}(prod_prime_decomp B_gt0) prime_decompE big_map /=.
apply: (@leq_trans (m.*2 ^ size (primes B))).
  by apply: prod_bound => q; rw mem_primes => /andP[pr_q _]; apply: bin_part.
by rw leq_pexp2l ?double_gt0 // primes_few.
Qed.

(** Exponentials win from 3 on. *)
Lemma exp_wins k : 3 <= k -> k.*2.+1 < 2 ^ k.
Proof.
elim: k => // k IH; rw ltnS leq_eqVlt => /orP[/eqP <- //|/IH lt].
have two : 2 <= 2 ^ k by apply: leq_trans lt.
by rw doubleS expnS mul2n -[(2 ^ k).*2]addnn -[k.*2.+2.+2]addn2; apply: leq_add.
Qed.

(** The argument for [n = 2 * k + 1 >= 7], with [2 * m = n * n - 1]. *)
Lemma gap_big k : 3 <= k -> let n := k.*2.+1 in (forall q, prime q -> n < q -> q < n * n -> False) -> False.
Proof.
move=> k_big n gap; pose m := (k * k.+1).*2.
have m2 : m.*2.+1 = n * n.
  by rw /n /m -!muln2 -!multE; lia.
have m_gt0 : 0 < m by rw double_gt0 muln_gt0 (ltnW (ltnW k_big)).
have few : 2 ^ m <= (n * n) ^ k.+1.
  apply: leq_trans (central_bin m) _; have odd_n : odd n by rw /n /= odd_double.
  have := bin_few odd_n m_gt0; rw -doubleS doubleK => bound.
  apply: leq_trans (bound _) _; last by rw leq_exp2r // -m2.
  by move=> q pr_q lo hi; apply: (gap q pr_q lo); rw -m2 ltnS.
have := exp_wins k_big; rw ltnNge -(@leq_exp2r _ _ k.+1.*2) //.
by rw -expnM -doubleMr -[k.+1.*2]addnn expnD -expnMn few.
Qed.

Lemma prime_in_gap n : odd n -> 2 < n -> exists2 q, prime q & n < q < n * n.
Proof.
move=> odd_n n_gt2; have n_lt : n < n * n by rw -{1}[n]muln1 ltn_pmul2l ltnW // ltnW.
case: (boolP (has prime (iota n.+1 (n * n - n.+1)))) => [/hasP[q]|/hasPn none].
  by rw mem_iota subnKC // => hi pr_q; exists q.
exfalso; have gap q : prime q -> n < q -> q < n * n -> False.
  by move=> pr_q lo hi; have := none q; rw mem_iota lo subnKC ?hi //= pr_q => /(_ isT).
have n_k : n = n./2.*2.+1 by rw -{1}(odd_double_half n) odd_n.
have [k_small|k_big] := leqP n./2 2; last by apply: (gap_big k_big); rw -n_k.
have [k_eq|k_eq] : n./2 = 1 \/ n./2 = 2.
- by move: n_gt2 k_small; rw {1}n_k; case: n./2 => [|[|[|]]] //; auto.
- by rw k_eq in n_k; apply: (gap 5); rw ?n_k.
- by rw k_eq in n_k; apply: (gap 7); rw ?n_k.
Qed.

(** The same with the order and the divisors of the Standard Library. *)
Lemma prime_before_square (k : nat) : Nat.lt 0 k -> let n := S (Nat.mul 2 k) in
  exists q, Nat.lt n q /\ Nat.lt q (Nat.mul n n) /\ forall d, Nat.divide d q -> d = 1 \/ d = q.
Proof.
move=> /ltP k_gt0 n; have n_k : n = k.*2.+1 by rw /n multE mul2n.
have n_gt2 : 2 < k.*2.+1 by rw ltnS -[2]/(1.*2) leq_double.
have [|q pr_q /andP[]] := @prime_in_gap k.*2.+1 _ n_gt2; first by rw /= odd_double.
rw -n_k => /ltP lo /ltP hi; exists q; split=> //; split=> // d [z q_eq].
have /primeP[_ /(_ d) divs] := pr_q; have : d %| q by apply/dvdnP; exists z.
by move/divs => /orP[/eqP|/eqP]; [left|right].
Qed.
