(* ===== verification/Sieve.v ===== *)
(** * The sieve of Eratosthenes (ccan/eratosthenes)

    A bitmap with a bit for each odd number from 3 below the limit, set for the primes; a
    larger limit extends it.  [junk] is what fresh memory holds. *)
From S2P Require Import Prelude.
From S2P Require Import Rule.
From S2P Require Import BitArray.
From S2P Require Import BitArraySpec.
From S2P Require Import BitArrayProps.
From S2P Require Import PrimeGap.
From Stdlib Require Import Znumtheory.
#[local] Open Scope Z_scope.

Definition VAL_TO_BIT (v : Z) : Z := u64 (v - 3) / 2.
Definition LIMIT_TO_NBITS (l : Z) : Z := if 2 <? l then u64 (l - 2) / 2 else 0.
Definition BIT_TO_VAL (b : Z) : Z := u64 (u64 (b * 2) + 3).

Record eratosthenes := Eratosthenes { er_limit : Z; er_b : option (list Z) }.

Definition eratosthenes_init : eratosthenes := Eratosthenes 0 None.
(** The bitmap is freed. *)
Definition eratosthenes_reset (s : eratosthenes) : eratosthenes := eratosthenes_init.

(** [s->b], followed. *)
Definition the_bitmap (s : eratosthenes) : res (list Z) :=
  match er_b s with Some bm => Ok bm | None => Err ENull end.

(** [while (n < LIMIT_TO_NBITS(limit))] of [eratosthenes_once]. *)
Fixpoint clear_every (fuel : nat) (s : eratosthenes) (n p nbits : Z) : res eratosthenes :=
  match fuel with
  | O => Err EFuel
  | S fuel =>
    if n <? nbits then
      bm ← the_bitmap s;
      bm ← bitmap_clear_bit bm n;
      clear_every fuel (Eratosthenes (er_limit s) (Some bm)) (u64 (n + p)) p nbits
    else Ok s
  end.

(** Where [eratosthenes_once] starts. *)
Definition first_multiple (obits p : Z) : Z :=
  let n := VAL_TO_BIT (u64 (3 * p)) in
  if n <? obits then u64 (u64 (obits + p - 1) - u64 (obits - n - 1) mod p) else n.

Definition eratosthenes_once (s : eratosthenes) (limit p : Z) : res eratosthenes :=
  let obits := LIMIT_TO_NBITS (er_limit s) in
  let n := first_multiple obits p in
  _ ← assert_ (BIT_TO_VAL n mod p =? 0);
  _ ← assert_ (1 <? BIT_TO_VAL n / p);
  clear_every (S (Z.to_nat (LIMIT_TO_NBITS limit))) s n p (LIMIT_TO_NBITS limit).

Fixpoint sieve_loop (fuel : nat) (s : eratosthenes) (limit p : Z) : res eratosthenes :=
  match fuel with
  | O => Err EFuel
  | S fuel =>
    if u64 (p * p) <? limit then
      s ← eratosthenes_once s limit p;
      bm ← the_bitmap s;
      n ← bitmap_ffs bm (u64 (VAL_TO_BIT p + 1)) (LIMIT_TO_NBITS limit);
      _ ← assert_ (n <? LIMIT_TO_NBITS limit);
      sieve_loop fuel s limit (BIT_TO_VAL n)
    else Ok s
  end.
Definition eratosthenes_sieve_ (s : eratosthenes) (limit : Z) : res eratosthenes :=
  sieve_loop (S (Z.to_nat limit)) s limit 3.

Definition eratosthenes_isprime (s : eratosthenes) (n : Z) : res bool :=
  _ ← assert_ (n <? er_limit s);
  if n mod 2 =? 0 then Ok (n =? 2) else
  if n <? 3 then _ ← assert_ (n =? 1); Ok false else
  bm ← the_bitmap s;
  bitmap_test_bit bm (VAL_TO_BIT n).

Definition eratosthenes_nextprime (s : eratosthenes) (n : Z) : res Z :=
  if er_limit s <=? u64 (n + 1) then Ok 0 else
  if n <? 2 then Ok 2 else
  if n =? 2 then Ok 3 else
  bm ← the_bitmap s;
  i ← bitmap_ffs bm (u64 (VAL_TO_BIT n + 1)) (LIMIT_TO_NBITS (er_limit s));
  Ok (if i =? LIMIT_TO_NBITS (er_limit s) then 0 else BIT_TO_VAL i).

Section sieve.
Context `{Allocator} (junk : Z → Z).

Definition eratosthenes_sieve (limit : Z) (s : eratosthenes) : res eratosthenes :=
  if (limit <? 3) || (limit <=? er_limit s) then Ok s else
  b ← (if er_limit s <? 3 then bitmap_alloc1 junk (LIMIT_TO_NBITS limit)
       else bm ← the_bitmap s; bitmap_realloc1 junk bm (LIMIT_TO_NBITS (er_limit s)) (LIMIT_TO_NBITS limit));
  match b with
  | None => Err EAbort
  | Some bm =>
    s ← eratosthenes_sieve_ (Eratosthenes (er_limit s) (Some bm)) limit;
    Ok (Eratosthenes limit (er_b s))
  end.
End sieve.

(** * The sieve finds the primes (ccan/eratosthenes) *)

#[global] Instance prime_decision n : Decision (prime n) := prime_dec n.

(** ** Primes *)
Lemma prime_big n : prime n → 1 < n.
Proof. by intros []. Qed.

Lemma prime_only n d : prime n → 1 < d → (d | n) → d = n.
Proof. intros Hn Hd Hdiv. assert (H1 := prime_big n Hn). destruct (prime_divisors n Hn d Hdiv) as [|[|[|]]]; lia. Qed.

Lemma prime_factor n : 1 < n → ∃ r, prime r ∧ (r | n).
Proof.
  intros Hn. induction (Z.lt_wf 0 n) as [n _ IH]. destruct (prime_dec n) as [Hp|Hp]; [exists n; split; [done|apply Z.divide_refl]|].
  destruct (not_prime_divide n Hn Hp) as (d & Hd & Hdn). destruct (IH d) as (r & Hr & Hrd); [lia|lia|].
  exists r. split; [done|]. by apply (Z.divide_trans _ d).
Qed.

(** A number that is not prime has a prime factor up to its square root. *)
Lemma small_factor n : 1 < n → ¬ prime n → ∃ r, prime r ∧ (r | n) ∧ r * r ≤ n.
Proof.
  intros Hn Hp. destruct (not_prime_divide n Hn Hp) as (d & Hd & [e He]).
  assert (Hm : ∃ m, 1 < m ∧ (m | n) ∧ m * m ≤ n).
  { assert (1 < e) by nia. destruct (Z.le_ge_cases d e); [exists d|exists e]; (split_and!; [lia| |nia]); [exists e|exists d]; lia. }
  destruct Hm as (m & Hm1 & Hmn & Hmm). destruct (prime_factor m Hm1) as (r & Hr & Hrm). exists r.
  assert (Hle : r ≤ m) by (apply Z.divide_pos_le; [lia|done]). assert (Hr1 := prime_big r Hr).
  split_and!; [done|by apply (Z.divide_trans _ m)|nia].
Qed.

Lemma prime_odd n : prime n → n ≠ 2 → n mod 2 = 1.
Proof.
  intros Hn Hne. destruct (decide (n mod 2 = 0)) as [E|]; [|pose proof (Z.mod_pos_bound n 2); lia].
  apply Z.mod_divide in E; [|lia]. by apply (prime_only n 2) in E.
Qed.

(** The numbers of the sieve never run out of primes. *)
Lemma prime_after p : 3 ≤ p → p mod 2 = 1 → ∃ q, prime q ∧ p < q < p * p.
Proof.
  intros Hp Ho. destruct (@prime_before_square (Z.to_nat (p / 2))) as (q & Hlo & Hhi & Hdiv); [divs|].
  exists (Z.of_nat q). assert (Hk : Z.of_nat (S (2 * Z.to_nat (p / 2))) = p) by divs. split; [|nia].
  destruct (prime_dec (Z.of_nat q)) as [|Hnp]; [done|]. exfalso.
  destruct (not_prime_divide (Z.of_nat q) ltac:(lia) Hnp) as (d & Hd & [z Hz]). assert (0 < z) by nia.
  destruct (Hdiv (Z.to_nat d)) as [|]; [exists (Z.to_nat z); nia|lia|lia].
Qed.

(** ** Survivors: no divisor below [p] *)
Definition survives (p v : Z) : Prop := ∀ d, 1 < d < p → (d | v) → d = v.

Lemma prime_survives p v : prime v → survives p v.
Proof. intros Hv d Hd Hdv. apply prime_only; [done|lia|done]. Qed.

Lemma survives_prime p v : 1 < v < p * p → 0 < p → survives p v → prime v.
Proof.
  intros Hv Hp Hs. destruct (prime_dec v) as [|Hnp]; [done|]. exfalso. destruct (small_factor v ltac:(lia) Hnp) as (r & Hr & Hrv & Hrr).
  assert (Hr1 := prime_big r Hr). assert (E : r = v) by (apply Hs; [nia|done]). by subst.
Qed.

Lemma survives_3 v : v mod 2 = 1 → survives 3 v.
Proof. intros Ho d Hd Hdv. assert (d = 2) as -> by lia. apply Z.mod_divide in Hdv; lia. Qed.

Lemma survives_clear p v : 1 < p → survives (p + 1) v ↔ survives p v ∧ ((p | v) → p = v).
Proof.
  intros Hp. split.
  - intros Hs. split; [|intros Hd; apply Hs; [lia|done]]. intros d Hd. apply Hs. lia.
  - intros [Hs Hc] d Hd Hdv. destruct (decide (d = p)) as [->|]; [by apply Hc|]. apply Hs; [lia|done].
Qed.

(** Between [p] and the next prime [q] the survivors stay. *)
Lemma survives_gap p q v : p < q → 0 < v → (∀ w, p < w < q → ¬ prime w) → survives (p + 1) v → survives q v.
Proof.
  intros Hpq Hv Hgap Hs d Hd Hdv. destruct (decide (d ≤ p)); [apply Hs; [lia|done]|].
  destruct (prime_factor d) as (r & Hr & Hrd); [lia|]. assert (Hr1 := prime_big r Hr).
  assert (r ≤ d) by (apply Z.divide_pos_le; [lia|done]). assert (d ≤ v) by (apply Z.divide_pos_le; [lia|done]).
  assert (r ≤ p). { destruct (decide (r ≤ p)); [done|]. exfalso. apply (Hgap r); [lia|done]. }
  assert (r = v) by (apply Hs; [lia|by apply (Z.divide_trans _ d)]). lia.
Qed.

Lemma next_survivor p q : 1 < q → p < q → (∀ w, p < w < q → ¬ prime w) → survives (p + 1) q → prime q.
Proof.
  intros Hq Hpq Hgap Hs. destruct (prime_dec q) as [|Hnp]; [done|]. exfalso. destruct (small_factor q Hq Hnp) as (r & Hr & Hrq & Hrr).
  assert (Hr1 := prime_big r Hr). assert (r < q) by nia. apply (Hgap r); [|done]. split; [|lia].
  destruct (decide (r ≤ p)); [|lia]. assert (r = q) by (apply Hs; [lia|done]). lia.
Qed.

(** ** Numbers and bits *)
Definition val (i : Z) : Z := 2 * i + 3.

Lemma val_odd i : val i mod 2 = 1.
Proof. unfold val. divs. Qed.
Lemma bit_to_val b : 0 ≤ b < 2 ^ 62 → BIT_TO_VAL b = val b.
Proof. intros Hb. unfold BIT_TO_VAL, val, u64. rewrite (Z.mod_small (b * 2)), Z.mod_small; lia. Qed.
Lemma val_to_bit v : 3 ≤ v < 2 ^ 64 → VAL_TO_BIT v = (v - 3) / 2.
Proof. intros Hv. unfold VAL_TO_BIT, u64. rewrite Z.mod_small; lia. Qed.
Lemma limit_to_nbits l : 2 < l < 2 ^ 64 → LIMIT_TO_NBITS l = (l - 2) / 2.
Proof. intros Hl. unfold LIMIT_TO_NBITS, u64. replace (2 <? l) with true by lia. rewrite Z.mod_small; lia. Qed.
Lemma nbits_val l i : 3 ≤ l < 2 ^ 64 → 0 ≤ i → i < LIMIT_TO_NBITS l ↔ val i < l.
Proof. intros Hl Hi. rewrite limit_to_nbits by lia. unfold val. divs. Qed.
Lemma val_of_odd v : v mod 2 = 1 → val ((v - 3) / 2) = v.
Proof. intros Hv. unfold val. divs. Qed.

(** ** One prime *)
Lemma first_multiple_ok obits p : 0 ≤ obits < 2 ^ 61 → 3 ≤ p < 2 ^ 31 → p mod 2 = 1 →
  let n := first_multiple obits p in let n0 := (3 * p - 3) / 2 in
  Z.max obits n0 ≤ n ∧ n < Z.max obits n0 + p ∧ (n - n0) mod p = 0.
Proof.
  intros Ho Hp Hodd n n0. subst n. unfold first_multiple. assert (E : VAL_TO_BIT (u64 (3 * p)) = n0).
  { unfold u64. rewrite Z.mod_small by lia. rewrite val_to_bit by lia. done. }
  rewrite E. assert (0 ≤ n0) by (subst n0; divs). destruct (Z.ltb_spec n0 obits) as [Hlt|Hge].
  - unfold u64. rewrite (Z.mod_small (obits - n0 - 1)) by lia. pose proof (Z.mod_pos_bound (obits - n0 - 1) p ltac:(lia)).
    rewrite (Z.mod_small (obits + p - 1)) by lia. rewrite Z.mod_small by lia. split_and!; [lia|lia|].
    pose proof (Z.div_mod (obits - n0 - 1) p ltac:(lia)).
    replace (obits + p - 1 - (obits - n0 - 1) mod p - n0) with ((1 + (obits - n0 - 1) / p) * p) by lia. by apply Z.mod_mul; lia.
  - split_and!; [lia|lia|]. by rewrite Z.sub_diag, Z.mod_0_l by lia.
Qed.

(** The cleared bits: the values divisible by [p], but for [p], from the old bits on. *)
Lemma multiple_bit p i n : 3 ≤ p → p mod 2 = 1 → 0 ≤ i → (n - (3 * p - 3) / 2) mod p = 0 → (i - n) mod p = 0 ↔ (p | val i).
Proof.
  intros Hp Ho Hi Hn. apply Z.mod_divide in Hn as [a Ha]; [|lia]. set (n0 := (3 * p - 3) / 2) in *.
  assert (Hn0 : val n0 = 3 * p) by (subst n0; unfold val; divs). unfold val in *. split.
  - intros H. apply Z.mod_divide in H as [c Hc]; [|lia]. exists (2 * (c + a) + 3). lia.
  - intros [c Hc]. apply Z.mod_divide; [lia|]. assert (Hc2 : c mod 2 = 1).
    { destruct (decide (c mod 2 = 0)) as [E|E]; [|pose proof (Z.mod_pos_bound c 2); lia]. apply Z.mod_divide in E as [e ->]; [|lia].
      exfalso. assert (2 * (i - e * p) = -3) by lia. lia. }
    exists (c / 2 - 1 - a). assert (c = 2 * (c / 2) + 1) by divs. nia.
Qed.

Lemma clear_every_ok fuel lim p nbits : 0 < p < 2 ^ 62 → nbits < 2 ^ 62 → ∀ bm n, wf bm → 0 ≤ n < 2 ^ 62 + p → nbits ≤ nbits_of bm →
  Z.max 0 (nbits - n) < Z.of_nat fuel →
  ∃ bm', clear_every fuel (Eratosthenes lim (Some bm)) n p nbits = Ok (Eratosthenes lim (Some bm')) ∧
    becomes bm (λ i, negb (in_range n nbits i && ((i - n) mod p =? 0)) && bit bm i) bm'.
Proof.
  intros Hp Hnb. induction fuel as [|fuel IH]; intros bm n Hwf Hn Hle Hf; cbn [clear_every]; unfold in_range.
  - lia.
  - destruct (Z.ltb_spec n nbits) as [Hlt|Hge].
    + cbn [the_bitmap er_b er_limit mbind res_bind]. destruct (clear_bit_ok bm n Hwf ltac:(lia)) as (b1 & -> & H1). cbn [mbind res_bind].
      assert (Hn1 := becomes_nbits _ _ _ H1). unfold u64. rewrite Z.mod_small by lia.
      destruct (IH b1 (n + p)) as (b2 & -> & H2); [apply H1|lia|lia|lia|]. exists b2. split; [done|].
      eapply becomes_chain; [exact H1|exact H2|]. intros i Hi Hb1. cbv beta. rewrite Hb1. unfold in_range. rewrite andb_assoc. f_equal.
      destruct (Z.eqb_spec i n) as [->|Hne].
      * rewrite Z.sub_diag, Z.mod_0_l by lia. replace (n <? nbits) with true by lia. replace (n <=? n) with true by lia. by rewrite andb_false_r.
      * rewrite andb_true_r. f_equal. replace ((i - (n + p)) mod p) with ((i - n) mod p).
        2:{ rewrite <- (Z.mod_add (i - (n + p)) 1 p) by lia. f_equal. lia. }
        destruct (Z.eqb_spec ((i - n) mod p) 0) as [E|]; [|by rewrite !andb_false_r]. apply Z.mod_divide in E as [c Hc]; [|lia].
        destruct (Z.leb_spec n i), (Z.leb_spec (n + p) i); try done; exfalso; [|lia]. assert (c = 0 ∨ c < 0 ∨ 1 ≤ c) by lia. nia.
    + exists bm. split; [done|]. eapply becomes_ext; [|by apply becomes_refl]. intros i Hi. cbv beta.
      by replace ((n <=? i) && (i <? nbits)) with false by lia.
Qed.

(** [eratosthenes_once] clears the multiples of [p] above the old bits. *)
Lemma once_ok lim limit p bm : 0 ≤ lim < 2 ^ 62 → 3 ≤ limit < 2 ^ 62 → 3 ≤ p < 2 ^ 31 → p mod 2 = 1 →
  wf bm → LIMIT_TO_NBITS limit ≤ nbits_of bm →
  ∃ bm', eratosthenes_once (Eratosthenes lim (Some bm)) limit p = Ok (Eratosthenes lim (Some bm')) ∧
    becomes bm (λ i, negb (in_range (LIMIT_TO_NBITS lim) (LIMIT_TO_NBITS limit) i && (val i mod p =? 0) && negb (val i =? p)) && bit bm i) bm'.
Proof.
  intros Hl Hlim Hp Ho Hwf Hle. assert (Hob : 0 ≤ LIMIT_TO_NBITS lim < 2 ^ 61).
  { destruct (decide (2 < lim)); [rewrite limit_to_nbits by lia; divs|]. unfold LIMIT_TO_NBITS. replace (2 <? lim) with false by lia. lia. }
  assert (Hnb : 0 ≤ LIMIT_TO_NBITS limit < 2 ^ 61) by (rewrite limit_to_nbits by lia; divs).
  destruct (first_multiple_ok (LIMIT_TO_NBITS lim) p Hob Hp Ho) as (Hmax & Hub & Hmod). unfold eratosthenes_once. cbn [er_limit].
  set (n := first_multiple _ _) in *. set (ob := LIMIT_TO_NBITS lim) in *. set (nb := LIMIT_TO_NBITS limit) in *.
  assert (Hn0 : val ((3 * p - 3) / 2) = 3 * p) by (unfold val; divs). unfold val in Hn0.
  assert (Hdiv : (p | val n)) by (apply (multiple_bit p n n); [lia|done|lia|done|]; by rewrite Z.sub_diag, Z.mod_0_l by lia).
  rewrite bit_to_val by lia. unfold assert_. assert (Hm0 : val n mod p = 0) by (apply Z.mod_divide; [lia|done]). rewrite Hm0.
  assert (Hgt : 1 < val n / p) by (apply (Z.lt_le_trans _ 3); [lia|]; apply Z.div_le_lower_bound; [lia|unfold val; lia]).
  replace (1 <? val n / p) with true by lia. cbn [mbind res_bind Z.eqb].
  destruct (clear_every_ok (S (Z.to_nat nb)) lim p nb ltac:(lia) ltac:(lia) bm n) as (bm' & -> & Hb); [done|lia|done|lia|].
  exists bm'. split; [done|]. eapply becomes_ext, Hb. intros i Hi. cbv beta. f_equal. f_equal. unfold in_range.
  assert (Hiff := multiple_bit p i n ltac:(lia) Ho ltac:(lia) Hmod). rewrite <- Z.mod_divide in Hiff by lia.
  destruct (Z.eqb_spec (val i mod p) 0) as [E|E], (Z.eqb_spec ((i - n) mod p) 0) as [E'|E']; try tauto; [|by rewrite !andb_false_r].
  apply Z.mod_divide in E as [c Hc]; [|lia]. apply Z.mod_divide in E' as [e He]; [|lia]. unfold val in *. rewrite !andb_true_r.
  destruct (Z.ltb_spec i nb); [|by rewrite !andb_false_r]. rewrite !andb_true_r.
  assert (c ≠ 2) by (intros ->; lia). assert (0 < c) by (apply (Z.mul_pos_cancel_r c p); lia).
  destruct (Z.leb_spec n i), (Z.leb_spec ob i), (Z.eqb_spec (2 * i + 3) p); cbn [andb negb]; try done; exfalso; [lia|lia|lia|].
  assert (c ≠ 1) by (intros ->; lia). assert (3 * p ≤ c * p) by (apply Z.mul_le_mono_nonneg_r; lia).
  assert (e < 0) by (apply Z.nle_gt; intros ?; assert (0 ≤ e * p) by (apply Z.mul_nonneg_nonneg; lia); lia).
  assert (e * p ≤ (-1) * p) by (apply Z.mul_le_mono_nonneg_r; lia). lia.
Qed.

(** ** All primes *)
Lemma nb_small limit : 3 ≤ limit ≤ 2 ^ 32 → 0 ≤ LIMIT_TO_NBITS limit < 2 ^ 32.
Proof. intros Hl. rewrite limit_to_nbits by lia. divs. Qed.

Section loop.
Context (lim limit : Z) (Hlim : 0 ≤ lim < limit) (Hlimit : 3 ≤ limit ≤ 2 ^ 32).
#[local] Abbreviation ob := (LIMIT_TO_NBITS lim).
#[local] Abbreviation nb := (LIMIT_TO_NBITS limit).

(** The bits when the multiples of the primes below [p] are cleared. *)
Definition sieved (p : Z) (bm : list Z) : Prop :=
  ∀ i, 0 ≤ i < nb → bit bm i = true ↔ if i <? ob then prime (val i) else survives p (val i).
Definition roomy (bm : list Z) : Prop := wf bm ∧ nb ≤ nbits_of bm < 2 ^ 62.

Lemma sieved_prime p bm i : sieved p bm → 0 ≤ i < nb → prime (val i) → bit bm i = true.
Proof. intros Hs Hi Hp. apply Hs; [done|]. destruct (i <? ob); [done|]. by apply prime_survives. Qed.

Lemma sieved_once p bm : roomy bm → 3 ≤ p < 2 ^ 31 → p mod 2 = 1 → sieved p bm →
  ∃ bm', eratosthenes_once (Eratosthenes lim (Some bm)) limit p = Ok (Eratosthenes lim (Some bm')) ∧
    roomy bm' ∧ length bm' = length bm ∧ sieved (p + 1) bm'.
Proof.
  intros (Hwf & Hnb) Hp Ho Hs. destruct (once_ok lim limit p bm) as (bm' & -> & Hb); [lia|lia|done|done|done|lia|].
  exists bm'. split; [done|]. assert (Hnb' := becomes_nbits _ _ _ Hb). destruct Hb as (Hw & Hl & Hb).
  split; [split; [done|by rewrite Hnb']|]. split; [done|]. intros i Hi. rewrite Hb by lia. unfold in_range. specialize (Hs i Hi).
  destruct (Z.ltb_spec i ob).
  - replace (ob <=? i) with false by lia. cbn [andb negb]. done.
  - replace ((ob <=? i) && (i <? nb)) with true by lia. cbn [andb]. rewrite survives_clear, andb_true_iff, Hs by lia.
    rewrite <- Z.mod_divide by lia. destruct (Z.eqb_spec (val i mod p) 0), (Z.eqb_spec (val i) p); cbn; intuition lia.
Qed.

(** The next set bit is the next prime. *)
Lemma next_prime_bit p bm r : 3 ≤ p → p mod 2 = 1 → sieved (p + 1) bm → r < nb → first_set bm ((p - 3) / 2 + 1) nb r →
  p < val r ∧ prime (val r) ∧ sieved (val r) bm.
Proof.
  intros Hp Ho Hs Hr (Hlo & Hbefore & Hset). assert (Hpr : p < val r) by (unfold val; divs).
  assert (Hgap : ∀ w, p < w < val r → ¬ prime w).
  { intros w Hw Hpw. assert (Hwo : w mod 2 = 1) by (apply prime_odd; [done|lia]). rewrite <- (val_of_odd w Hwo) in Hpw, Hw. unfold val in Hw at 2.
    assert (Hb := Hbefore ((w - 3) / 2)). rewrite (sieved_prime (p + 1) bm) in Hb; [|done|unfold val in *; divs|done].
    assert (true = false) by (apply Hb; unfold val in *; divs). done. }
  assert (Hr0 : 0 ≤ r) by divs. split; [done|]. split.
  - specialize (Hset Hr). apply Hs in Hset; [|lia]. destruct (r <? ob); [done|]. by apply (next_survivor p); [lia|..].
  - intros i Hi. specialize (Hs i Hi). destruct (i <? ob); [done|]. rewrite Hs. split.
    + apply survives_gap; [lia|unfold val; lia|done].
    + intros Hv d Hd. apply Hv. lia.
Qed.

Lemma sieve_loop_ok fuel : ∀ p bm, roomy bm → prime p → 3 ≤ p < limit ∨ p = 3 → sieved p bm → Z.max 0 (limit - p) < Z.of_nat fuel →
  ∃ bm', sieve_loop fuel (Eratosthenes lim (Some bm)) limit p = Ok (Eratosthenes lim (Some bm')) ∧
    wf bm' ∧ length bm' = length bm ∧ ∀ i, 0 ≤ i < nb → bit bm' i = bool_decide (prime (val i)).
Proof.
  pose proof (nb_small limit Hlimit) as Hnb. induction fuel as [|fuel IH]; intros p bm Hroom Hpr Hp Hs Hf; [lia|]. cbn [sieve_loop].
  assert (Hpp : u64 (p * p) = p * p) by (unfold u64; apply Z.mod_small; nia). rewrite Hpp.
  assert (Ho : p mod 2 = 1) by (apply prime_odd; [done|lia]).
  destruct (Z.ltb_spec (p * p) limit) as [Hlt|Hge].
  - destruct (sieved_once p bm Hroom) as (b1 & -> & Hroom1 & Hl1 & Hs1); [nia|done|done|]. cbn [mbind res_bind the_bitmap er_b].
    rewrite val_to_bit by lia. unfold u64. rewrite Z.mod_small by divs.
    assert (Hrange : 0 ≤ (p - 3) / 2 + 1 ≤ nb) by (rewrite limit_to_nbits by lia; assert (p + 2 ≤ limit) by nia; divs).
    destruct (ffs_ok b1 (proj1 Hroom1) ltac:(destruct Hroom1; lia) _ nb Hrange ltac:(destruct Hroom1; lia)) as (r & -> & Hr). cbn [mbind res_bind].
    assert (Hrn : r < nb).
    { destruct (prime_after p ltac:(lia) Ho) as (q & Hq & Hpq). assert (Hqo : q mod 2 = 1) by (apply prime_odd; [done|lia]).
      destruct (decide (r < nb)); [done|]. exfalso. destruct Hr as (Hr & Hbefore & _). assert (Hval := val_of_odd q Hqo).
      assert (Hqn : (q - 3) / 2 < nb) by (apply nbits_val; [lia|divs|lia]). rewrite <- Hval in Hq.
      assert (Hb := Hbefore ((q - 3) / 2)). rewrite (sieved_prime (p + 1) b1) in Hb; [|done|divs|done].
      assert (true = false) by (apply Hb; divs). done. }
    unfold assert_. replace (r <? nb) with true by lia. cbn [mbind res_bind].
    destruct (next_prime_bit p b1 r) as (Hlt' & Hpr' & Hs'); [lia|done|done|done|done|]. assert (Hr0 : 0 ≤ r) by (unfold val in *; lia).
    rewrite bit_to_val by lia. assert (val r < limit) by (apply nbits_val; lia).
    destruct (IH (val r) b1) as (b2 & -> & Hw2 & Hl2 & Hb2); [done|done|left; lia|done|lia|]. exists b2. split_and!; [done|done|congruence|done].
  - exists bm. split_and!; [done|apply Hroom|done|]. intros i Hi. assert (Hv : val i < limit) by (apply nbits_val; lia).
    apply eq_true_iff_eq. rewrite bool_decide_eq_true. specialize (Hs i Hi). destruct (i <? ob); [done|]. rewrite Hs. split.
    + apply survives_prime; [unfold val in *; lia|lia].
    + apply prime_survives.
Qed.
End loop.

(** ** The sieve *)
Definition primes_below (s : eratosthenes) : Prop :=
  s = eratosthenes_init ∨
  3 ≤ er_limit s ≤ 2 ^ 32 ∧ ∃ bm, er_b s = Some bm ∧ wf bm ∧ zlen bm = BITMAP_NWORDS (LIMIT_TO_NBITS (er_limit s)) ∧
    ∀ i, 0 ≤ i < LIMIT_TO_NBITS (er_limit s) → bit bm i = bool_decide (prime (val i)).

Lemma words_room limit : 3 ≤ limit ≤ 2 ^ 32 →
  LIMIT_TO_NBITS limit ≤ 64 * BITMAP_NWORDS (LIMIT_TO_NBITS limit) < 2 ^ 62.
Proof. intros Hl. pose proof (nb_small limit Hl). rewrite nwords by lia. divs. Qed.

Section sieve.
Context `{AllocTotal} (junk : Z → Z) (Hjunk : ∀ i, word (junk i)).

(** The bitmap before the loop: the old primes, then ones. *)
Lemma grown s limit : primes_below s → 3 ≤ limit ≤ 2 ^ 32 → er_limit s < limit →
  ∃ bm, (if er_limit s <? 3 then bitmap_alloc1 junk (LIMIT_TO_NBITS limit)
         else bm ← the_bitmap s; bitmap_realloc1 junk bm (LIMIT_TO_NBITS (er_limit s)) (LIMIT_TO_NBITS limit)) = Ok (Some bm) ∧
    wf bm ∧ zlen bm = BITMAP_NWORDS (LIMIT_TO_NBITS limit) ∧ sieved (er_limit s) limit 3 bm.
Proof.
  intros Hs Hl Hlt. pose proof (nb_small limit Hl) as Hnb. destruct Hs as [->|(Hsl & bm & Eb & Hwf & Hlen & Hbits)].
  - cbn [er_limit eratosthenes_init Z.ltb Z.compare]. destruct (alloc1_ok junk Hjunk (LIMIT_TO_NBITS limit)) as (bm & -> & Hc & Hz & Hb); [lia|apply alloc_total|].
    exists bm. split_and!; [done|apply Hc|done|]. intros i Hi. rewrite Hb by done. replace (i <? LIMIT_TO_NBITS 0) with false by (unfold LIMIT_TO_NBITS; cbn; lia).
    split; [|done]. intros _. apply survives_3, val_odd.
  - replace (er_limit s <? 3) with false by lia. unfold the_bitmap. rewrite Eb. cbn [mbind res_bind]. pose proof (words_room (er_limit s) ltac:(lia)) as Hr.
    pose proof (nb_small (er_limit s) ltac:(lia)).
    destruct (realloc1_ok junk Hjunk bm (LIMIT_TO_NBITS (er_limit s)) (LIMIT_TO_NBITS limit)) as (b & -> & Hwb & Hzb & Hbb).
    { done. } { rewrite !limit_to_nbits in * by lia. divs. } { unfold nbits_of. lia. } { lia. } { apply alloc_total. }
    exists b. split_and!; [done..|]. intros i Hi. rewrite Hbb by done. destruct (Z.ltb_spec i (LIMIT_TO_NBITS (er_limit s))).
    + by rewrite Hbits, bool_decide_eq_true by lia.
    + split; [|done]. intros _. apply survives_3, val_odd.
Qed.

Lemma sieve_ok limit s : primes_below s → 0 ≤ limit ≤ 2 ^ 32 →
  ∃ s', eratosthenes_sieve junk limit s = Ok s' ∧ primes_below s' ∧ er_limit s' = if limit <? 3 then er_limit s else Z.max (er_limit s) limit.
Proof.
  intros Hs Hl. unfold eratosthenes_sieve. destruct (Z.ltb_spec limit 3); cbn [orb]; [by exists s|].
  destruct (Z.leb_spec limit (er_limit s)); [exists s; split_and!; [done|done|lia]|].
  assert (Hlim : 0 ≤ er_limit s) by (destruct Hs as [->|[? _]]; [done|lia]).
  destruct (grown s limit Hs ltac:(lia) ltac:(lia)) as (bm & -> & Hwf & Hz & Hsv). cbn [mbind res_bind]. pose proof (words_room limit ltac:(lia)).
  unfold eratosthenes_sieve_. destruct (sieve_loop_ok (er_limit s) limit ltac:(lia) ltac:(lia) (S (Z.to_nat limit)) 3 bm) as (b & -> & Hwb & Hlb & Hb).
  { split; [done|]. unfold nbits_of. lia. } { apply prime_3. } { by right. } { done. } { lia. }
  cbn [mbind res_bind er_b]. eexists. split; [done|]. cbn [er_limit]. split; [|lia]. right. cbn [er_limit er_b]. split; [lia|].
  exists b. split_and!; [done|done|unfold zlen in *; congruence|done].
Qed.
End sieve.

(** ** Queries *)
Lemma isprime_ok s n : primes_below s → 0 ≤ n < er_limit s → eratosthenes_isprime s n = Ok (bool_decide (prime n)).
Proof.
  intros [->|(Hl & bm & Eb & Hwf & Hlen & Hbits)] Hn; [cbn in Hn; lia|]. unfold eratosthenes_isprime, assert_.
  replace (n <? er_limit s) with true by lia. cbn [mbind res_bind]. destruct (Z.eqb_spec (n mod 2) 0) as [He|Ho].
  - f_equal. apply eq_true_iff_eq. rewrite Z.eqb_eq, bool_decide_eq_true. split; [intros ->; apply prime_2|].
    intros Hp. destruct (decide (n = 2)); [done|]. apply prime_odd in Hp; lia.
  - destruct (Z.ltb_spec n 3).
    + assert (n = 1) as -> by (destruct (decide (n = 2)) as [->|]; [done|]; destruct (decide (n = 0)) as [->|]; [done|lia]).
      by rewrite (bool_decide_eq_false_2 (prime 1)) by apply not_prime_1.
    + unfold the_bitmap. rewrite Eb. cbn [mbind res_bind]. pose proof (words_room (er_limit s) ltac:(lia)).
      assert (Hv : val ((n - 3) / 2) = n) by (apply val_of_odd; divs).
      assert (Hi : (n - 3) / 2 < LIMIT_TO_NBITS (er_limit s)) by (apply nbits_val; [lia|divs|lia]). assert (0 ≤ (n - 3) / 2) by divs.
      rewrite val_to_bit by lia. rewrite test_bit_ok; [|done|unfold nbits_of; lia]. rewrite Hbits by lia. by rewrite Hv.
Qed.

Definition least_prime_after (n limit q : Z) : Prop :=
  (q = 0 ∧ ∀ v, n < v < limit → ¬ prime v) ∨ (n < q < limit ∧ prime q ∧ ∀ v, n < v < q → ¬ prime v).

Lemma nextprime_ok s n : primes_below s → 0 ≤ n < 2 ^ 64 - 1 →
  ∃ q, eratosthenes_nextprime s n = Ok q ∧ least_prime_after n (er_limit s) q.
Proof.
  intros Hs Hn. unfold eratosthenes_nextprime, u64. rewrite Z.mod_small by lia. destruct (Z.leb_spec (er_limit s) (n + 1)).
  { exists 0. split; [done|]. left. split; [done|]. lia. }
  destruct Hs as [->|(Hl & bm & Eb & Hwf & Hlen & Hbits)]; [cbn in *; lia|].
  destruct (Z.ltb_spec n 2).
  { exists 2. split; [done|]. right. split_and!; [lia|lia|apply prime_2|]. intros v Hv Hp. apply prime_big in Hp. lia. }
  destruct (Z.eqb_spec n 2) as [->|].
  { exists 3. split; [done|]. right. split_and!; [lia|lia|apply prime_3|]. lia. }
  unfold the_bitmap. rewrite Eb. cbn [mbind res_bind]. pose proof (words_room (er_limit s) ltac:(lia)) as Hr. set (nb := LIMIT_TO_NBITS (er_limit s)) in *.
  rewrite val_to_bit by lia. rewrite (Z.mod_small ((n - 3) / 2 + 1)) by divs.
  assert (Hrange : 0 ≤ (n - 3) / 2 + 1 ≤ nb) by (subst nb; rewrite limit_to_nbits by lia; divs).
  destruct (ffs_ok bm Hwf ltac:(unfold nbits_of; lia) _ nb Hrange ltac:(unfold nbits_of; lia)) as (r & -> & Hrr & Hbefore & Hset).
  cbn [mbind res_bind]. eexists. split; [done|].
  assert (Hgap : ∀ v, n < v → v < er_limit s → v < val r → ¬ prime v).
  { intros v Hv Hvl Hvr Hp. assert (Ho : v mod 2 = 1) by (apply prime_odd; [done|lia]). assert (Hval := val_of_odd v Ho). rewrite <- Hval in Hp.
    assert (Hvn : (v - 3) / 2 < nb) by (apply nbits_val; [lia|divs|lia]).
    assert (Hb := Hbefore ((v - 3) / 2)). rewrite Hbits in Hb by divs. rewrite bool_decide_eq_true_2 in Hb by done.
    assert (true = false) by (apply Hb; unfold val in Hvr; divs). done. }
  destruct (Z.eqb_spec r nb) as [->|Hne].
  - left. split; [done|]. intros v Hv. apply Hgap; [lia|lia|]. unfold val. subst nb. rewrite limit_to_nbits by lia. divs.
  - rewrite bit_to_val by lia. assert (val r < er_limit s) by (apply nbits_val; [lia|lia|subst nb; lia]). right. split_and!; [unfold val; divs|done| |].
    + specialize (Hset ltac:(lia)). rewrite Hbits in Hset by lia. by apply bool_decide_eq_true in Hset.
    + intros v Hv. apply Hgap; lia.
Qed.

Lemma sieves_ok `{AllocTotal} junk limits : (∀ i, word (junk i)) → Forall (λ l, 0 ≤ l ≤ 2 ^ 32) limits → ∀ s, primes_below s →
  ∃ s', mfold (eratosthenes_sieve junk) limits s = Ok s' ∧ primes_below s' ∧
    er_limit s' = foldl (λ m l, if l <? 3 then m else Z.max m l) (er_limit s) limits.
Proof.
  intros Hjunk Hl. induction Hl as [|l limits Hl _ IH]; intros s Hs; cbn [mfold foldl]; [by exists s|].
  destruct (sieve_ok junk Hjunk l s Hs Hl) as (s1 & -> & Hs1 & <-). cbn [mbind res_bind]. apply (IH s1 Hs1).
Qed.

(** C24: the sieve is exact.  After any sequence of eratosthenes_sieve calls with limits up to
    2^32, which extend the bitmap from limit to limit, no assertion fails ("We should never
    run out of primes" included), every loop ends, the limit is the largest one asked for,
    eratosthenes_isprime answers whether a number below it is prime, and
    eratosthenes_nextprime gives the least prime after a number, or 0 if it is not below
    the limit. *)
Theorem eratosthenes_finds_primes `{AllocTotal} (junk : Z → Z) (limits : list Z) :
  (∀ i, word (junk i)) → Forall (λ l, 0 ≤ l ≤ 2 ^ 32) limits →
  ∃ s, mfold (eratosthenes_sieve junk) limits eratosthenes_init = Ok s ∧
    er_limit s = foldl (λ m l, if l <? 3 then m else Z.max m l) 0 limits ∧
    (∀ n, 0 ≤ n < er_limit s → eratosthenes_isprime s n = Ok (bool_decide (prime n))) ∧
    (∀ n, 0 ≤ n < 2 ^ 64 - 1 → ∃ q, eratosthenes_nextprime s n = Ok q ∧ least_prime_after n (er_limit s) q).
Proof.
  intros Hjunk Hl. destruct (sieves_ok junk limits Hjunk Hl eratosthenes_init) as (s & E & Hs & El); [by left|].
  exists s. split_and!; [done|done| |].
  - intros n. by apply isprime_ok.
  - intros n. by apply nextprime_ok.
Qed.

Lemma eratosthenes_finds_primes_witness :
  let _ : Allocator := λ _, true in
  ∃ s, mfold (eratosthenes_sieve (λ i, i mod 2)) [10; 200; 50] eratosthenes_init = Ok s ∧
    er_limit s = foldl (λ m l, if l <? 3 then m else Z.max m l) 0 [10; 200; 50] ∧
    (∀ n, 0 ≤ n < er_limit s → eratosthenes_isprime s n = Ok (bool_decide (prime n))) ∧
    (∀ n, 0 ≤ n < 2 ^ 64 - 1 → ∃ q, eratosthenes_nextprime s n = Ok q ∧ least_prime_after n (er_limit s) q).
Proof.
  cbv zeta. apply (@eratosthenes_finds_primes (λ _, true) (λ _, eq_refl)).
  - intros i. unfold word. pose proof (Z.mod_pos_bound i 2). lia.
  - repeat constructor; vm_compute; congruence.
Defined.

(** The sum [n + 1] of [eratosthenes_nextprime] wraps for the largest number: the search then
    starts after its end, and its assertion fails. *)
Theorem nextprime_largest s : primes_below s → 3 ≤ er_limit s → eratosthenes_nextprime s (2 ^ 64 - 1) = Err EAssert.
Proof.
  intros [->|(Hl & bm & Eb & _)] H3; [cbn in H3; lia|]. unfold eratosthenes_nextprime, the_bitmap. rewrite Eb.
  replace (u64 (2 ^ 64 - 1 + 1)) with 0 by done. replace (er_limit s <=? 0) with false by lia. cbn [Z.ltb Z.eqb mbind res_bind].
  assert (Hnb := nb_small (er_limit s) Hl). unfold bitmap_ffs, assert_.
  replace (u64 (VAL_TO_BIT (2 ^ 64 - 1) + 1) <=? LIMIT_TO_NBITS (er_limit s)) with false; [done|].
  replace (u64 (VAL_TO_BIT (2 ^ 64 - 1) + 1)) with (2 ^ 63 - 1) by done. symmetry. lia.
Qed.

(** The primes below 64, found in two steps. *)
Example primes_64 :
  let _ : Allocator := λ _, true in
  (s ← mfold (eratosthenes_sieve (λ _, 0)) [20; 64] eratosthenes_init;
   Ok (List.filter (λ n, match eratosthenes_isprime s n with Ok b => b | Err _ => false end) (seqZ 0 64))) =
  Ok [2; 3; 5; 7; 11; 13; 17; 19; 23; 29; 31; 37; 41; 43; 47; 53; 59; 61].
Proof. vm_compute. reflexivity. Qed.
