(* ===== verification/Intmap.v ===== *)
(** * Maps from integers (ccan/intmap)

    A crit-bit tree.  A [struct intmap] is empty (both fields null), a member (its value is
    not null) or a pointer to a node with two children; the tree owns its nodes, so the
    model is the tree itself, and an operation returns the new one.  A value is a pointer,
    0 when null.  [undef] is what the builtin under [ilog64] gives for 0. *)
From S2P Require Import Prelude.
From S2P Require Import Rule.
From S2P Require Import Ilog.
From stdpp Require Import gmap.
#[local] Open Scope Z_scope.

Inductive intmap :=
  | IEmpty
  | IMember (i v : Z)
  | INode (bit_num : Z) (child0 child1 : intmap).

Inductive errno := ENOENT | EEXIST | ENOMEM.
#[global] Instance errno_eq_dec : EqDecision errno.
Proof. solve_decision. Defined.

Definition intmap_init_ : intmap := IEmpty.
Definition intmap_empty_ (map : intmap) : bool := match map with IEmpty => true | _ => false end.

(** [(index >> bit_num) & 1] *)
Definition direction (index bit_num : Z) : bool := negb (Z.land (Z.shiftr index bit_num) 1 =? 0).

(** The member that is reached; an empty child would be a null node. *)
Fixpoint closest (n : intmap) (index : Z) : res (Z * Z) :=
  match n with
  | IEmpty => Err ENull
  | IMember i v => Ok (i, v)
  | INode bit_num c0 c1 => if direction index bit_num then closest c1 index else closest c0 index
  end.

Definition intmap_get_ (map : intmap) (index : Z) : res (Z + errno) :=
  if intmap_empty_ map then Ok (inr ENOENT) else
  '(i, v) ← closest map index;
  Ok (if index =? i then inl v else inr ENOENT).

(** The second descent of [intmap_add_], to the place of the new node. *)
Fixpoint add_at (n : intmap) (index value bit_num : Z) : intmap :=
  let new_dir := direction index bit_num in
  let here := if new_dir then INode bit_num n (IMember index value) else INode bit_num (IMember index value) n in
  match n with
  | INode b c0 c1 =>
    if b <? bit_num then here else
    if direction index b then INode b c0 (add_at c1 index value bit_num) else INode b (add_at c0 index value bit_num) c1
  | _ => here
  end.

Definition sizeof_node : Z := 40.

Definition intmap_add_ `{Allocator} (undef : Z) (map : intmap) (index value : Z) : res (intmap * (unit + errno)) :=
  _ ← assert_ (negb (value =? 0));
  if intmap_empty_ map then Ok (IMember index value, inl ()) else
  '(i, _) ← closest map index;
  let bit_num := u8 (macro_ilog64 undef (Z.lxor i index)) in
  if bit_num =? 0 then Ok (map, inr EEXIST) else
  let bit_num := u8 (bit_num - 1) in
  _ ← assert_ (bit_num <? 64);
  if negb (alloc_ok sizeof_node) then Ok (map, inr ENOMEM) else
  Ok (add_at map index value bit_num, inl ()).

(** The descent of [intmap_del_]: what is left of the tree below, and the value; the parent of
    the member takes its other child. *)
Fixpoint del_below (n : intmap) (index : Z) : res (option (intmap * Z)) :=
  match n with
  | IEmpty => Err ENull
  | IMember i v => Ok (if index =? i then Some (IEmpty, v) else None)
  | INode b c0 c1 =>
    let d := direction index b in
    r ← (if d then del_below c1 index else del_below c0 index);
    Ok (match r with
        | None => None
        | Some (rest, v) =>
          Some (match (if d then c1 else c0) with
                | INode _ _ _ => if d then INode b c0 rest else INode b rest c1
                | _ => if d then c0 else c1
                end, v)
        end)
  end.

Definition intmap_del_ (map : intmap) (index : Z) : res (intmap * (Z + errno)) :=
  if intmap_empty_ map then Ok (map, inr ENOENT) else
  r ← del_below map index;
  Ok (match r with Some (rest, v) => (rest, inl v) | None => (map, inr ENOENT) end).

Fixpoint leftmost (n : intmap) : res (Z * Z) :=
  match n with IEmpty => Err ENull | IMember i v => Ok (i, v) | INode _ c0 _ => leftmost c0 end.
(** The index and the value found. *)
Definition intmap_first_ (map : intmap) : res (Z * Z + errno) :=
  if intmap_empty_ map then Ok (inr ENOENT) else m ← leftmost map; Ok (inl m).

(** The descent of [intmap_after_], with the last node left by its first child. *)
Fixpoint after_walk (n : intmap) (prev : option intmap) (index : Z) : res (Z * Z * option intmap) :=
  match n with
  | IEmpty => Err ENull
  | IMember i v => Ok (i, v, prev)
  | INode b c0 c1 => if direction index b then after_walk c1 prev index else after_walk c0 (Some n) index
  end.
(** [prev->u.n->child[1]] *)
Definition child1 (n : intmap) : res intmap := match n with INode _ _ c1 => Ok c1 | _ => Err ENull end.

Definition intmap_after_ (map : intmap) (index : Z) : res (Z * Z + errno) :=
  if intmap_empty_ map then Ok (inr ENOENT) else
  '(i, v, prev) ← after_walk map None index;
  if index <? i then Ok (inl (i, v)) else
  match prev with
  | None => Ok (inr ENOENT)
  | Some p => c ← child1 p; intmap_first_ c
  end.

(** [clear] frees the nodes. *)
Definition intmap_clear_ (map : intmap) : intmap := intmap_init_.

(** ** Signed indices *)
Definition SINTMAP_OFFSET : Z := u64 (Z.shiftl 1 (8 * 8 - 1)).
Definition SINTMAP_OFF (index : Z) : Z := u64 (u64 index + SINTMAP_OFFSET).
(** Stored to an [int64_t]. *)
Definition s64 (z : Z) : Z := (z + 2 ^ 63) mod 2 ^ 64 - 2 ^ 63.
Definition SINTMAP_UNOFF (index : Z) : Z := s64 (u64 (u64 index - SINTMAP_OFFSET)).

Definition sintmap_get (map : intmap) (index : Z) : res (Z + errno) := intmap_get_ map (SINTMAP_OFF index).
Definition sintmap_add `{Allocator} (undef : Z) (map : intmap) (index value : Z) : res (intmap * (unit + errno)) :=
  intmap_add_ undef map (SINTMAP_OFF index) value.
Definition sintmap_del (map : intmap) (index : Z) : res (intmap * (Z + errno)) := intmap_del_ map (SINTMAP_OFF index).
Definition unoff (r : Z * Z + errno) : Z * Z + errno :=
  match r with inl (i, v) => inl (SINTMAP_UNOFF i, v) | inr e => inr e end.
Definition sintmap_first_ (map : intmap) : res (Z * Z + errno) := r ← intmap_first_ map; Ok (unoff r).
Definition sintmap_after_ (map : intmap) (index : Z) : res (Z * Z + errno) :=
  r ← intmap_after_ map (SINTMAP_OFF index); Ok (unoff r).

(** * Integer maps are ordered maps (ccan/intmap)

    The crit-bit tree implements a finite map from 64-bit numbers; the order of its members is
    the order of the numbers. *)

(** ** Bits *)
Lemma direction_testbit i b : 0 ≤ b → direction i b = Z.testbit i b.
Proof.
  intros Hb. unfold direction. change 1 with (Z.ones 1). rewrite Z.land_ones by lia. change (2 ^ 1) with 2.
  rewrite <- Z.bit0_mod, Z.shiftr_spec by lia. rewrite Z.add_0_l. by destruct (Z.testbit i b).
Qed.

Definition same_above (b i j : Z) : Prop := ∀ k, b < k → Z.testbit i k = Z.testbit j k.

(** The highest bit where two numbers differ orders them. *)
Lemma bits_lt b i j : 0 ≤ b → same_above b i j → Z.testbit i b = false → Z.testbit j b = true → i < j.
Proof.
  intros Hb Hs Hi Hj. assert (E : Z.shiftr j b = Z.shiftr i b + 1).
  { assert (Hh : Z.shiftr i b / 2 = Z.shiftr j b / 2).
    { rewrite <- !Z.div2_div, !Z.div2_spec, !Z.shiftr_shiftr by lia. apply Z.bits_inj'. intros k Hk. rewrite !Z.shiftr_spec by lia. apply Hs. lia. }
    assert (Hi0 : Z.shiftr i b mod 2 = 0) by (rewrite <- Z.bit0_mod, Z.shiftr_spec, Z.add_0_l, Hi by lia; done).
    assert (Hj0 : Z.shiftr j b mod 2 = 1) by (rewrite <- Z.bit0_mod, Z.shiftr_spec, Z.add_0_l, Hj by lia; done).
    Z.to_euclidean_division_equations; lia. }
  rewrite !Z.shiftr_div_pow2 in E by lia. assert (0 < 2 ^ b) by (apply Z.pow_pos_nonneg; lia).
  apply Z.nle_gt. intros Hle. apply (Z.div_le_mono _ _ (2 ^ b)) in Hle; lia.
Qed.

(** The bit that [ilog64] finds. *)
Lemma top_difference i j : 0 ≤ i < 2 ^ 64 → 0 ≤ j < 2 ^ 64 → i ≠ j →
  let b := Z.log2 (Z.lxor i j) in 0 ≤ b < 64 ∧ same_above b i j ∧ Z.testbit i b ≠ Z.testbit j b.
Proof.
  intros Hi Hj Hne b. assert (Hx : 0 ≤ Z.lxor i j) by (apply Z.lxor_nonneg; lia).
  assert (Hx0 : Z.lxor i j ≠ 0) by (by rewrite Z.lxor_eq_0_iff). assert (Hb : Z.testbit (Z.lxor i j) b = true) by (apply Z.bit_log2; lia).
  rewrite Z.lxor_spec in Hb. split_and!; [apply Z.log2_nonneg| | |by intros E; rewrite E, xorb_nilpotent in Hb].
  - apply Z.nle_gt. intros Hge. assert (Hhigh : ∀ x, 0 ≤ x < 2 ^ 64 → Z.testbit x b = false).
    { intros x Hxx. destruct (decide (x = 0)) as [->|]; [apply Z.bits_0|]. apply Z.bits_above_log2; [lia|].
      apply (Z.lt_le_trans _ 64); [apply Z.log2_lt_pow2; lia|done]. }
    by rewrite !Hhigh in Hb.
  - intros k Hk. assert (Hkx : Z.testbit (Z.lxor i j) k = false) by (apply Z.bits_above_log2; lia).
    rewrite Z.lxor_spec in Hkx. by destruct (Z.testbit i k), (Z.testbit j k).
Qed.

(** ** Trees *)
Fixpoint members (n : intmap) : list (Z * Z) :=
  match n with IEmpty => [] | IMember i v => [(i, v)] | INode _ c0 c1 => members c0 ++ members c1 end.

(** The members below a node agree above its bit, and the bit tells them apart. *)
Fixpoint good (n : intmap) : Prop :=
  match n with
  | IEmpty => False
  | IMember i v => 0 ≤ i < 2 ^ 64 ∧ v ≠ 0
  | INode b c0 c1 => good c0 ∧ good c1 ∧ 0 ≤ b < 64 ∧
      (∀ i v, (i, v) ∈ members c0 → Z.testbit i b = false) ∧ (∀ i v, (i, v) ∈ members c1 → Z.testbit i b = true) ∧
      (∀ i v j w, (i, v) ∈ members c0 ++ members c1 → (j, w) ∈ members c0 ++ members c1 → same_above b i j)
  end.

Lemma good_node b c0 c1 : good c0 → good c1 → 0 ≤ b < 64 →
  (∀ i v, (i, v) ∈ members c0 → Z.testbit i b = false) → (∀ i v, (i, v) ∈ members c1 → Z.testbit i b = true) →
  (∀ i v j w, (i, v) ∈ members c0 ++ members c1 → (j, w) ∈ members c0 ++ members c1 → same_above b i j) → good (INode b c0 c1).
Proof. done. Qed.

Lemma good_member n i v : good n → (i, v) ∈ members n → 0 ≤ i < 2 ^ 64 ∧ v ≠ 0.
Proof.
  induction n as [|j w|b c0 IH0 c1 IH1]; cbn [good members]; [done|by intros Hg ?%list_elem_of_singleton; simplify_eq|].
  intros (H0 & H1 & _) [Hi|Hi]%elem_of_app; auto.
Qed.

(** The children in order. *)
Lemma children_lt b c0 c1 i v j w : good (INode b c0 c1) → (i, v) ∈ members c0 → (j, w) ∈ members c1 → i < j.
Proof.
  intros (_ & _ & Hb & Hc0 & Hc1 & Hs) Hi Hj. apply (bits_lt b); [lia| |by eapply Hc0|by eapply Hc1].
  eapply Hs; apply elem_of_app; [left|right]; done.
Qed.

Lemma closest_ok n i : good n → ∃ m, closest n i = Ok m ∧ m ∈ members n ∧ ∀ v, (i, v) ∈ members n → m = (i, v).
Proof.
  induction n as [|j w|b c0 IH0 c1 IH1]; cbn [good members closest]; [done| |].
  - intros _. exists (j, w). split_and!; [done|by constructor|]. by intros v ->%list_elem_of_singleton.
  - intros (H0 & H1 & Hb & Hc0 & Hc1 & _). rewrite direction_testbit by lia.
    destruct (Z.testbit i b) eqn:E; [destruct (IH1 H1) as (m & -> & Hm & Hu)|destruct (IH0 H0) as (m & -> & Hm & Hu)];
      exists m; (split_and!; [done|apply elem_of_app; auto|]); intros v [Hv|Hv]%elem_of_app; try (by apply Hu).
    + apply Hc0 in Hv. congruence.
    + apply Hc1 in Hv. congruence.
Qed.

Lemma members_unique n i v w : good n → (i, v) ∈ members n → (i, w) ∈ members n → v = w.
Proof. intros Hg Hv Hw. destruct (closest_ok n i Hg) as (m & _ & _ & Hu). rewrite (Hu v Hv) in Hu. by specialize (Hu w Hw) as [= ->]. Qed.

(** ** Insertion *)
Lemma same_extend b i v (l : list (Z * Z)) : (∀ j w, (j, w) ∈ l → same_above b j i) →
  ∀ j w j' w', (j, w) = (i, v) ∨ (j, w) ∈ l → (j', w') = (i, v) ∨ (j', w') ∈ l → same_above b j j'.
Proof.
  intros Hl j w j' w' Hj Hj'. assert (Hto : ∀ x y, (x, y) = (i, v) ∨ (x, y) ∈ l → same_above b x i).
  { intros x y [[= -> ->]|Hx]; [by intros k|by apply (Hl x y)]. }
  intros k Hk. rewrite (Hto j w Hj k Hk). symmetry. by apply (Hto j' w' Hj').
Qed.

Lemma here_ok n i v bit : good n → 0 ≤ i < 2 ^ 64 → v ≠ 0 → 0 ≤ bit < 64 →
  (∀ j w, (j, w) ∈ members n → same_above bit j i ∧ Z.testbit j bit ≠ Z.testbit i bit) →
  let here := if direction i bit then INode bit n (IMember i v) else INode bit (IMember i v) n in
  good here ∧ ∀ p, p ∈ members here ↔ p = (i, v) ∨ p ∈ members n.
Proof.
  intros Hg Hi Hv Hb Hd here. subst here. rewrite direction_testbit by lia.
  assert (Hs := same_extend bit i v (members n) (λ j w Hj, proj1 (Hd j w Hj))).
  assert (Hm : ∀ j w, (j, w) ∈ members (IMember i v) → Z.testbit j bit = Z.testbit i bit) by (by intros j w [= -> ->]%list_elem_of_singleton).
  assert (Hn : ∀ j w, (j, w) ∈ members n → Z.testbit j bit = negb (Z.testbit i bit)).
  { intros j w Hj. apply Hd in Hj as [_ Hj]. by destruct (Z.testbit j bit), (Z.testbit i bit). }
  destruct (Z.testbit i bit); (split; [apply good_node; try done|cbn [members]; set_solver]);
    intros j w j' w' Hj Hj'; apply (Hs j w j' w'); cbn [members] in *; set_solver.
Qed.

Lemma add_at_ok n i v bit c w : good n → closest n i = Ok (c, w) → 0 ≤ bit < 64 → same_above bit c i → Z.testbit c bit ≠ Z.testbit i bit →
  0 ≤ i < 2 ^ 64 → v ≠ 0 →
  good (add_at n i v bit) ∧ ∀ p, p ∈ members (add_at n i v bit) ↔ p = (i, v) ∨ p ∈ members n.
Proof.
  intros Hg Hc Hb Hs Hd Hi Hv. induction n as [|j u|b c0 IH0 c1 IH1]; cbn [closest add_at] in *; [done| |].
  - simplify_eq. apply here_ok; try done. by intros j w' [= -> ->]%list_elem_of_singleton.
  - destruct (closest_ok (INode b c0 c1) i Hg) as (m & Hm & Hin & _). cbn [closest members] in *. rewrite Hc in Hm. injection Hm as <-.
    destruct (Z.ltb_spec b bit) as [Hlt|Hge].
    + apply here_ok; try done. destruct Hg as (_ & _ & _ & _ & _ & Hall). intros j u Hj. cbn [members] in Hj.
      specialize (Hall j u c w Hj Hin). split.
      * intros k Hk. rewrite (Hall k) by lia. by apply Hs.
      * by rewrite (Hall bit) by lia.
    + assert (Hg' := Hg). destruct Hg' as (H0 & H1 & Hbb & Hc0 & Hc1 & Hall). rewrite direction_testbit in * by lia.
      assert (Hneq : b ≠ bit).
      { intros ->. destruct (Z.testbit i bit) eqn:E; [destruct (closest_ok c1 i H1) as (m & E1 & Hm & _)|destruct (closest_ok c0 i H0) as (m & E1 & Hm & _)];
          rewrite Hc in E1; injection E1 as <-; [apply Hc1 in Hm|apply Hc0 in Hm]; congruence. }
      assert (Hsame := same_extend b i v (members c0 ++ members c1)
        (λ j u Hj k Hk, eq_trans (Hall j u c w Hj Hin k Hk) (Hs k ltac:(lia)))).
      destruct (Z.testbit i b) eqn:E; [destruct (IH1 H1 Hc) as [Hg1 Hm1]|destruct (IH0 H0 Hc) as [Hg0 Hm0]].
      * assert (Hto : ∀ p, p ∈ members c0 ++ members (add_at c1 i v bit) ↔ p = (i, v) ∨ p ∈ members c0 ++ members c1)
          by (intros p; rewrite !elem_of_app, Hm1; tauto).
        split; [apply good_node; try done|exact Hto].
        -- intros j u [[= -> ->]|Hj]%Hm1; [done|by eapply Hc1].
        -- intros j u j' u' Hj%Hto Hj'%Hto. by apply (Hsame j u j' u').
      * assert (Hto : ∀ p, p ∈ members (add_at c0 i v bit) ++ members c1 ↔ p = (i, v) ∨ p ∈ members c0 ++ members c1)
          by (intros p; rewrite !elem_of_app, Hm0; tauto).
        split; [apply good_node; try done|exact Hto].
        -- intros j u [[= -> ->]|Hj]%Hm0; [done|by eapply Hc0].
        -- intros j u j' u' Hj%Hto Hj'%Hto. by apply (Hsame j u j' u').
Qed.

(** ** Deletion *)
Definition left_over (n rest : intmap) : Prop := match n with IMember _ _ => rest = IEmpty | _ => good rest end.

Lemma good_shrink b c0 c1 d0 d1 : good (INode b c0 c1) → good d0 → good d1 →
  (∀ p, p ∈ members d0 → p ∈ members c0) → (∀ p, p ∈ members d1 → p ∈ members c1) → good (INode b d0 d1).
Proof.
  intros (_ & _ & Hb & Hc0 & Hc1 & Hs) H0 H1 Hs0 Hs1. apply good_node; try done.
  - intros i v Hi. eapply Hc0, Hs0, Hi.
  - intros i v Hi. eapply Hc1, Hs1, Hi.
  - intros i v j w Hi Hj. apply (Hs i v j w); set_solver.
Qed.

Lemma del_below_ok n i : good n → ∃ r, del_below n i = Ok r ∧
  match r with
  | None => ∀ v, (i, v) ∉ members n
  | Some (rest, v) => (i, v) ∈ members n ∧ left_over n rest ∧ ∀ p, p ∈ members rest ↔ p ∈ members n ∧ p.1 ≠ i
  end.
Proof.
  induction n as [|j u|b c0 IH0 c1 IH1]; cbn [del_below]; [done| |].
  - intros _. eexists. split; [done|]. destruct (Z.eqb_spec i j) as [->|Hne]; cbn [members].
    + split_and!; [by constructor|done|]. intros p. split; [set_solver|]. by intros [->%list_elem_of_singleton Hp].
    + by intros v [= -> ->]%list_elem_of_singleton.
  - intros Hg. assert (Hg' := Hg). destruct Hg' as (H0 & H1 & Hb & Hc0 & Hc1 & Hs). rewrite direction_testbit by lia.
    assert (Hne0 : Z.testbit i b = true → ∀ p, p ∈ members c0 → p.1 ≠ i) by (intros E [j u] Hj%Hc0; cbn; congruence).
    assert (Hne1 : Z.testbit i b = false → ∀ p, p ∈ members c1 → p.1 ≠ i) by (intros E [j u] Hj%Hc1; cbn; congruence).
    destruct (Z.testbit i b); [clear Hne1; specialize (Hne0 eq_refl)|clear Hne0; specialize (Hne1 eq_refl)].
    + destruct (IH1 H1) as (r & -> & Hr). cbn [mbind res_bind]. eexists. split; [done|]. destruct r as [[rest v]|].
      * destruct Hr as (Hin & Hlo & Hm). split; [cbn [members]; set_solver|]. destruct c1 as [|j u|b1 d0 d1]; cbn [left_over] in *; [done| |].
        -- subst rest. split; [done|]. intros p. specialize (Hm p). specialize (Hne0 p). cbn [members] in *. set_solver.
        -- split; [eapply good_shrink; set_solver|]. intros p. specialize (Hm p). specialize (Hne0 p). cbn [members] in *. set_solver.
      * intros v. specialize (Hr v). specialize (Hne0 (i, v)). cbn [members] in *. set_solver.
    + destruct (IH0 H0) as (r & -> & Hr). cbn [mbind res_bind]. eexists. split; [done|]. destruct r as [[rest v]|].
      * destruct Hr as (Hin & Hlo & Hm). split; [cbn [members]; set_solver|]. destruct c0 as [|j u|b1 d0 d1]; cbn [left_over] in *; [done| |].
        -- subst rest. split; [done|]. intros p. specialize (Hm p). specialize (Hne1 p). cbn [members] in *. set_solver.
        -- split; [eapply good_shrink; set_solver|]. intros p. specialize (Hm p). specialize (Hne1 p). cbn [members] in *. set_solver.
      * intros v. specialize (Hr v). specialize (Hne1 (i, v)). cbn [members] in *. set_solver.
Qed.

(** ** Order *)
Lemma leftmost_ok n : good n → ∃ i v, leftmost n = Ok (i, v) ∧ (i, v) ∈ members n ∧ ∀ j w, (j, w) ∈ members n → i ≤ j.
Proof.
  induction n as [|i v|b c0 IH0 c1 IH1]; [done| |]; intros Hg; cbn [leftmost members].
  - exists i, v. split_and!; [done|by constructor|]. by intros j w [= -> ->]%list_elem_of_singleton.
  - destruct (IH0 (proj1 Hg)) as (i & v & -> & Hin & Hle). exists i, v. split_and!; [done|by apply elem_of_app; left|].
    intros j w [Hj|Hj]%elem_of_app; [by eapply Hle|]. apply Z.lt_le_incl. by eapply children_lt.
Qed.

(** Where [intmap_after_] turns back from a member. *)
Definition turns_at (n : intmap) (i : Z) (c1 : intmap) : Prop :=
  good c1 ∧ (∀ p, p ∈ members c1 → p ∈ members n ∧ i < p.1) ∧
  ∀ j w, (j, w) ∈ members n → i < j → (j, w) ∈ members c1 ∨ ∀ l u, (l, u) ∈ members c1 → l < j.

Lemma after_walk_ok n i v : good n → (i, v) ∈ members n → ∀ prev, ∃ prev', after_walk n prev i = Ok (i, v, prev') ∧
  ((prev' = prev ∧ ∀ j w, (j, w) ∈ members n → j ≤ i) ∨ ∃ b c0 c1, prev' = Some (INode b c0 c1) ∧ turns_at n i c1).
Proof.
  induction n as [|j u|b c0 IH0 c1 IH1]; intros Hg Hin prev; [done| |].
  - apply list_elem_of_singleton in Hin as [= -> ->]. exists prev. split; [done|]. left. split; [done|]. by intros ? ? [= -> ->]%list_elem_of_singleton.
  - assert (Hlt := children_lt b c0 c1). assert (Hg' := Hg). destruct Hg' as (H0 & H1 & Hb & Hc0 & Hc1 & _). cbn [after_walk members] in *.
    rewrite direction_testbit by lia. apply elem_of_app in Hin as [Hin|Hin].
    + rewrite (Hc0 i v Hin). destruct (IH0 H0 Hin (Some (INode b c0 c1))) as (prev' & -> & Hp). exists prev'. split; [done|]. right.
      destruct Hp as [[-> Hmax]|(b' & d0 & d1 & -> & Hd1 & Hsub & Hnext)].
      * exists b, c0, c1. split; [done|]. split_and!; [done|intros [j w] Hj; split; [apply elem_of_app; by right|by eapply Hlt]|].
        intros j w [Hj|Hj]%elem_of_app Hij; [apply Hmax in Hj; lia|by left].
      * exists b', d0, d1. split; [done|]. split_and!; [done|intros p Hp; apply Hsub in Hp as [? ?]; split; [apply elem_of_app; by left|done]|].
        intros j w [Hj|Hj]%elem_of_app Hij; [by apply Hnext|]. right. intros l u Hl. apply Hsub in Hl as [Hl _]. by eapply Hlt.
    + rewrite (Hc1 i v Hin). destruct (IH1 H1 Hin prev) as (prev' & -> & Hp). exists prev'. split; [done|].
      destruct Hp as [[-> Hmax]|(b' & d0 & d1 & -> & Hd1 & Hsub & Hnext)]; [left|right].
      * split; [done|]. intros j w [Hj|Hj]%elem_of_app; [|by eapply Hmax]. apply Z.lt_le_incl. by eapply Hlt.
      * exists b', d0, d1. split; [done|]. split_and!; [done|intros p Hp; apply Hsub in Hp as [? ?]; split; [apply elem_of_app; by right|done]|].
        intros j w [Hj|Hj]%elem_of_app Hij; [|by apply Hnext]. assert (j < i) by (by eapply Hlt). lia.
Qed.

(** ** Refinement: a finite map *)
Definition represents (n : intmap) (m : gmap Z Z) : Prop :=
  (n = IEmpty ∨ good n) ∧ ∀ i v, (i, v) ∈ members n ↔ m !! i = Some v.

(** The least index with [P], or none. *)
Definition least_in (m : gmap Z Z) (P : Z → Prop) (r : Z * Z + errno) : Prop :=
  match r with
  | inl (i, v) => m !! i = Some v ∧ P i ∧ ∀ j, is_Some (m !! j) → P j → i ≤ j
  | inr e => e = ENOENT ∧ ∀ j, is_Some (m !! j) → ¬ P j
  end.

Lemma represents_empty : represents IEmpty ∅.
Proof. split; [by left|]. intros i v. rewrite lookup_empty. cbn. set_solver. Qed.

Lemma get_ok n m i : represents n m → intmap_get_ n i = Ok (match m !! i with Some v => inl v | None => inr ENOENT end).
Proof.
  intros [[->|Hg] Hm]; unfold intmap_get_.
  - cbn. destruct (m !! i) as [v|] eqn:E; [|done]. apply Hm in E. by apply not_elem_of_nil in E.
  - destruct (closest_ok n i Hg) as ([j w] & Hc & Hin & Hu). assert (He : intmap_empty_ n = false) by (by destruct n). rewrite He, Hc.
    cbn [mbind res_bind]. f_equal. destruct (Z.eqb_spec i j) as [->|Hne].
    + by apply Hm in Hin as ->.
    + destruct (m !! i) as [v|] eqn:E; [|done]. apply Hm, Hu in E. congruence.
Qed.

Lemma ilog_diff undef i j : 0 ≤ i < 2 ^ 64 → 0 ≤ j < 2 ^ 64 →
  u8 (macro_ilog64 undef (Z.lxor i j)) = if i =? j then 0 else Z.log2 (Z.lxor i j) + 1.
Proof.
  intros Hi Hj. assert (Hx : 0 ≤ Z.lxor i j) by (apply Z.lxor_nonneg; lia).
  destruct (Z.eqb_spec i j) as [->|Hne].
  - rewrite Z.lxor_nilpotent. unfold macro_ilog64, b2z. cbn [Z.eqb negb]. change (- 0) with 0. by rewrite Z.land_0_r.
  - destruct (top_difference i j Hi Hj Hne) as [Hb _]. assert (Hx0 : Z.lxor i j ≠ 0) by (by rewrite Z.lxor_eq_0_iff).
    assert (Hlt : Z.lxor i j < 2 ^ 64) by (apply Z.log2_lt_pow2; lia).
    destruct (macro_ilog_ok undef (Z.lxor i j)) as [_ ->]; [lia|]. unfold bit_length. replace (Z.lxor i j =? 0) with false by lia.
    unfold u8. apply Z.mod_small. lia.
Qed.

Lemma add_ok `{Allocator} undef n m i v : represents n m → 0 ≤ i < 2 ^ 64 → v ≠ 0 → ∃ n' r, intmap_add_ undef n i v = Ok (n', r) ∧
  match m !! i with
  | Some _ => r = inr EEXIST ∧ n' = n
  | None => if bool_decide (m = ∅) || alloc_ok sizeof_node then r = inl () ∧ represents n' (<[i := v]> m) else r = inr ENOMEM ∧ n' = n
  end.
Proof.
  intros [Hn Hm] Hi Hv. unfold intmap_add_, assert_. replace (v =? 0) with false by lia. cbn [negb mbind res_bind].
  destruct Hn as [->|Hg].
  - assert (m = ∅) as ->.
    { apply map_empty. intros j. destruct (m !! j) as [w|] eqn:E; [|done]. apply Hm in E. by apply not_elem_of_nil in E. }
    eexists _, _. split; [done|]. rewrite lookup_empty, bool_decide_eq_true_2 by done. split; [done|]. split; [by right|].
    intros j w. cbn [members]. rewrite list_elem_of_singleton, lookup_insert_Some, lookup_empty. naive_solver.
  - assert (He : intmap_empty_ n = false) by (by destruct n). rewrite He. destruct (closest_ok n i Hg) as ([c w] & Hc & Hin & Hu). rewrite Hc. cbn [mbind res_bind].
    assert (Hcr := good_member n c w Hg Hin). rewrite ilog_diff by (done || apply Hcr). assert (Hne : m ≠ ∅) by (intros ->; apply Hm in Hin; by rewrite lookup_empty in Hin).
    rewrite bool_decide_eq_false_2 by done. cbn [orb]. destruct (Z.eqb_spec c i) as [->|Hci].
    + eexists _, _. split; [done|]. by apply Hm in Hin as ->.
    + destruct (top_difference c i ltac:(apply Hcr) Hi Hci) as (Hb & Hs & Hd). replace (Z.log2 (Z.lxor c i) + 1 =? 0) with false by lia.
      replace (u8 (Z.log2 (Z.lxor c i) + 1 - 1)) with (Z.log2 (Z.lxor c i)) by (unfold u8; rewrite Z.mod_small; lia).
      replace (Z.log2 (Z.lxor c i) <? 64) with true by lia. cbn [mbind res_bind].
      assert (Hmi : m !! i = None) by (destruct (m !! i) as [u|] eqn:E; [|done]; apply Hm, Hu in E; congruence). rewrite Hmi.
      destruct (alloc_ok sizeof_node); cbn [negb]; [|by eexists _, _]. eexists _, _. split; [done|]. split; [done|].
      destruct (add_at_ok n i v _ c w Hg Hc Hb Hs Hd Hi Hv) as [Hg' Hm']. split; [by right|]. intros j u. rewrite Hm', lookup_insert_Some, Hm.
      split; [intros [[= -> ->]|E]; [by left|right; split; [congruence|done]]|naive_solver].
Qed.

Lemma del_ok n m i : represents n m → ∃ n', intmap_del_ n i = Ok (n', match m !! i with Some v => inl v | None => inr ENOENT end) ∧ represents n' (delete i m).
Proof.
  intros [Hn Hm]. unfold intmap_del_. destruct Hn as [->|Hg].
  - assert (Hmi : m !! i = None) by (destruct (m !! i) as [u|] eqn:E; [|done]; apply Hm in E; by apply not_elem_of_nil in E).
    exists IEmpty. rewrite Hmi, delete_id by done. split; [done|]. split; [by left|done].
  - assert (He : intmap_empty_ n = false) by (by destruct n). rewrite He. destruct (del_below_ok n i Hg) as (r & -> & Hr). cbn [mbind res_bind].
    destruct r as [[rest v]|].
    + destruct Hr as (Hin & Hlo & Hrest). exists rest. apply Hm in Hin as Hmi. rewrite Hmi. split; [done|]. split.
      * destruct n; [done|by left|by right].
      * intros j w. rewrite Hrest, lookup_delete_Some, Hm. cbn. naive_solver.
    + assert (Hmi : m !! i = None) by (destruct (m !! i) as [u|] eqn:E; [|done]; apply Hm in E; by apply Hr in E).
      exists n. rewrite Hmi, delete_id by done. split; [done|]. split; [by right|done].
Qed.

Lemma first_ok n m : represents n m → ∃ r, intmap_first_ n = Ok r ∧ least_in m (λ _, True) r.
Proof.
  intros [Hn Hm]. unfold intmap_first_. destruct Hn as [->|Hg].
  - exists (inr ENOENT). split; [done|]. split; [done|]. intros j [w Hj]. apply Hm in Hj. by apply not_elem_of_nil in Hj.
  - assert (He : intmap_empty_ n = false) by (by destruct n). rewrite He. destruct (leftmost_ok n Hg) as (i & v & -> & Hin & Hle). cbn [mbind res_bind].
    exists (inl (i, v)). split; [done|]. split_and!; [by apply Hm|done|]. intros j [w Hj] _. apply Hm in Hj. by eapply Hle.
Qed.

Lemma after_ok n m i : represents n m → is_Some (m !! i) → ∃ r, intmap_after_ n i = Ok r ∧ least_in m (λ j, i < j) r.
Proof.
  intros [Hn Hm] [v Hi]. apply Hm in Hi. unfold intmap_after_. destruct Hn as [->|Hg]; [by apply not_elem_of_nil in Hi|].
  assert (He : intmap_empty_ n = false) by (by destruct n). rewrite He. destruct (after_walk_ok n i v Hg Hi None) as (prev & -> & Hp). cbn [mbind res_bind].
  replace (i <? i) with false by lia. destruct Hp as [[-> Hmax]|(b & c0 & c1 & -> & Hg1 & Hsub & Hnext)].
  - exists (inr ENOENT). split; [done|]. split; [done|]. intros j [w Hj] Hij. apply Hm, Hmax in Hj. lia.
  - cbn [child1 mbind res_bind]. unfold intmap_first_. assert (He1 : intmap_empty_ c1 = false) by (by destruct c1). rewrite He1.
    destruct (leftmost_ok c1 Hg1) as (l & u & -> & Hl & Hle). cbn [mbind res_bind]. exists (inl (l, u)). split; [done|].
    destruct (Hsub _ Hl) as [Hln Hil]. split_and!; [by apply Hm|done|]. intros j [w Hj] Hij. apply Hm in Hj.
    destruct (Hnext j w Hj Hij) as [Hj1|Hj1]; [by eapply Hle|]. specialize (Hj1 l u Hl). lia.
Qed.

(** ** Sequences of operations *)
Inductive map_op := Add (i v : Z) | Del (i : Z) | Get (i : Z) | Clear.
Inductive answer := Done | Value (v : Z) | Failed (e : errno).

Definition answer_of {A} (f : A → answer) (r : A + errno) : answer := match r with inl a => f a | inr e => Failed e end.

Section sequences.
Context `{Allocator} (undef : Z).

(** An operation of the library, with what it answers. *)
Definition run_map (o : map_op) (st : intmap * list answer) : res (intmap * list answer) :=
  let '(n, out) := st in
  match o with
  | Add i v => '(n, r) ← intmap_add_ undef n i v; Ok (n, out ++ [answer_of (λ _, Done) r])
  | Del i => '(n, r) ← intmap_del_ n i; Ok (n, out ++ [answer_of Value r])
  | Get i => r ← intmap_get_ n i; Ok (n, out ++ [answer_of Value r])
  | Clear => Ok (intmap_clear_ n, out ++ [Done])
  end.

(** The operation on a finite map.  Only a second member takes memory. *)
Definition spec_map (st : gmap Z Z * list answer) (o : map_op) : gmap Z Z * list answer :=
  let '(m, out) := st in
  match o with
  | Add i v =>
    match m !! i with
    | Some _ => (m, out ++ [Failed EEXIST])
    | None => if bool_decide (m = ∅) || alloc_ok sizeof_node then (<[i := v]> m, out ++ [Done]) else (m, out ++ [Failed ENOMEM])
    end
  | Del i => (delete i m, out ++ [match m !! i with Some v => Value v | None => Failed ENOENT end])
  | Get i => (m, out ++ [match m !! i with Some v => Value v | None => Failed ENOENT end])
  | Clear => (∅, out ++ [Done])
  end.

Definition map_op_ok (o : map_op) : Prop := match o with Add i v => 0 ≤ i < 2 ^ 64 ∧ v ≠ 0 | _ => True end.

Lemma run_map_ok o n m out : represents n m → map_op_ok o →
  ∃ n', run_map o (n, out) = Ok (n', (spec_map (m, out) o).2) ∧ represents n' (spec_map (m, out) o).1.
Proof.
  intros Hr Ho. destruct o as [i v|i|i|]; cbn [run_map spec_map].
  - destruct Ho as [Hi Hv]. destruct (add_ok undef n m i v Hr Hi Hv) as (n' & r & -> & Hx). cbn [mbind res_bind]. exists n'.
    destruct (m !! i); [destruct Hx as [-> ->]; done|]. destruct (bool_decide (m = ∅) || alloc_ok sizeof_node); destruct Hx as [-> Hx]; [done|by subst].
  - destruct (del_ok n m i Hr) as (n' & -> & Hx). cbn [mbind res_bind fst snd]. exists n'. split; [|done]. by destruct (m !! i).
  - rewrite (get_ok n m i Hr). cbn [mbind res_bind fst snd]. exists n. split; [|done]. by destruct (m !! i).
  - exists IEmpty. split; [done|]. apply represents_empty.
Qed.

Lemma run_maps_ok ops : Forall map_op_ok ops → ∀ n m out, represents n m →
  ∃ n', mfold run_map ops (n, out) = Ok (n', (foldl spec_map (m, out) ops).2) ∧ represents n' (foldl spec_map (m, out) ops).1.
Proof.
  induction 1 as [|o ops Ho _ IH]; intros n m out Hr; cbn [mfold foldl]; [by exists n|].
  destruct (run_map_ok o n m out Hr Ho) as (n1 & -> & Hr1). cbn [mbind res_bind]. destruct (spec_map (m, out) o) as [m1 out1]. by apply IH.
Qed.

(** C22: integer maps are ordered finite maps.  Any sequence of intmap_add_, intmap_del_,
    intmap_get_ and intmap_clear_ on an empty map, with indices of 64 bits and values that
    are not null, answers as a finite map does (EEXIST for an index that is there, ENOENT for
    one that is not, ENOMEM without memory, which leaves the map as it was); then
    intmap_first_ finds the least index, and intmap_after_ of an index in the map the least
    one above it. *)
Theorem intmap_refines_map (ops : list map_op) : Forall map_op_ok ops →
  let m := (foldl spec_map (∅, []) ops).1 in
  ∃ n, mfold run_map ops (intmap_init_, []) = Ok (n, (foldl spec_map (∅, []) ops).2) ∧
    (∃ r, intmap_first_ n = Ok r ∧ least_in m (λ _, True) r) ∧
    ∀ i, is_Some (m !! i) → ∃ r, intmap_after_ n i = Ok r ∧ least_in m (λ j, i < j) r.
Proof.
  intros Hops m. destruct (run_maps_ok ops Hops IEmpty ∅ [] represents_empty) as (n & E & Hr).
  exists n. split_and!; [done|by apply first_ok|]. intros i. by apply after_ok.
Qed.
End sequences.

Lemma intmap_refines_map_witness :
  let _ : Allocator := λ _, true in
  let ops := [Add 5 1; Add 9 2; Add 5 3; Add 4 7; Del 9; Get 4; Get 9; Add (2 ^ 64 - 1) 6] in
  let m := (foldl spec_map (∅, []) ops).1 in
  ∃ n, mfold (run_map 0) ops (intmap_init_, []) = Ok (n, (foldl spec_map (∅, []) ops).2) ∧
    (∃ r, intmap_first_ n = Ok r ∧ least_in m (λ _, True) r) ∧
    ∀ i, is_Some (m !! i) → ∃ r, intmap_after_ n i = Ok r ∧ least_in m (λ j, i < j) r.
Proof.
  cbv zeta. apply (@intmap_refines_map (λ _, true)). repeat constructor; vm_compute; congruence.
Defined.

(** The indices of a signed map keep their order. *)
Theorem sintmap_order i j : - 2 ^ 63 ≤ i < 2 ^ 63 → - 2 ^ 63 ≤ j < 2 ^ 63 →
  0 ≤ SINTMAP_OFF i < 2 ^ 64 ∧ SINTMAP_UNOFF (SINTMAP_OFF i) = i ∧ (SINTMAP_OFF i < SINTMAP_OFF j ↔ i < j).
Proof.
  assert (Hoff : ∀ x, - 2 ^ 63 ≤ x < 2 ^ 63 → SINTMAP_OFF x = x + 2 ^ 63).
  { intros x Hx. unfold SINTMAP_OFF, u64. change SINTMAP_OFFSET with (2 ^ 63). rewrite Z.add_mod_idemp_l by lia. apply Z.mod_small. lia. }
  intros Hi Hj. rewrite !Hoff by done. split_and!; [lia|lia| |lia].
  unfold SINTMAP_UNOFF, s64, u64. change SINTMAP_OFFSET with (2 ^ 63). rewrite (Z.mod_small (i + 2 ^ 63)) by lia.
  replace (i + 2 ^ 63 - 2 ^ 63) with i by lia. rewrite Z.add_mod_idemp_l by lia. rewrite Z.mod_small by lia. lia.
Qed.

(** [intmap_after_] of an index that is not in the map can be wrong: bits that the tree skips are
    not compared.  Above 1 the map with 4 and 5 has 4, and it has nothing above 8. *)
Theorem after_absent_index :
  let _ : Allocator := λ _, true in
  (st ← mfold (run_map 0) [Add 4 1; Add 5 2] (intmap_init_, []);
   a ← intmap_after_ st.1 1; b ← intmap_after_ st.1 8; Ok (a, b)) = Ok (inl (5, 2), inl (5, 2)).
Proof. vm_compute. reflexivity. Qed.
