(* ===== verification/Crcsync.v ===== *)
(** * Finding blocks by their checksums (ccan/crcsync)

    [crc_read_block] scans a stream for blocks whose checksums the other side knows, with a
    checksum that rolls over the last [block_size] bytes.  A context is a record; [buffer]
    holds the bytes that a later call still needs.  The checksums are upper bits of crc64. *)
From S2P Require Import Prelude.
From S2P Require Import Rule.
From S2P Require Import Crc.
#[local] Open Scope Z_scope.

Definition mask_of (crcbits : Z) : res Z :=
  let n := u32 (64 - crcbits) in
  if 64 <=? n then Err EShift else Ok (u64 (Z.shiftl (2 ^ 64 - 1) n)).

(** [n] bytes of an array from [off]. *)
Definition bytes_at (l : list Z) (off n : Z) : res (list Z) :=
  if (0 <=? off) && (0 <=? n) && (off + n <=? zlen l) then Ok (take (Z.to_nat n) (drop (Z.to_nat off) l)) else Err EOob.
(** [memcpy] and [memmove] of these bytes to [off] of an array. *)
Definition copy_to (dst : list Z) (off : Z) (src : list Z) : res (list Z) :=
  if (0 <=? off) && (off + zlen src <=? zlen dst)
  then Ok (take (Z.to_nat off) dst ++ src ++ drop (Z.to_nat (off + zlen src)) dst) else Err EOob.

(** The loop of [crc_of_blocks]. *)
Fixpoint blocks_loop (fuel : nat) (data : list Z) (off len block_size mask i : Z) (crc : list Z) : res (list Z) :=
  match fuel with
  | O => Err EFuel
  | S fuel =>
    if block_size <=? len then
      b ← bytes_at data off block_size;
      c ← crc64_iso 0 b;
      crc ← aset crc i (Z.land c mask);
      blocks_loop fuel data (off + block_size) (len - block_size) block_size mask (u32 (i + 1)) crc
    else if len =? 0 then Ok crc else
      b ← bytes_at data off len;
      c ← crc64_iso 0 b;
      aset crc i (Z.land c mask)
  end.
Definition crc_of_blocks (data : list Z) (len block_size crcbits : Z) (crc : list Z) : res (list Z) :=
  mask ← mask_of crcbits;
  blocks_loop (S (Z.to_nat len)) data 0 len block_size mask 0 crc.

Record crc_context := CrcContext {
  block_size : Z;
  crcmask : Z;
  buffer : list Z;
  buffer_start : Z;
  buffer_end : Z;
  running_crc : Z;
  literal_bytes : Z;
  total_bytes : Z;
  have_match : Z;
  tail_size : Z;
  tail_crc : Z;
  uncrc_tab : list Z;
  num_crcs : Z;
  crcs : list Z;
}.

(** [uncrc_tab[i]] for a window of [wsize] bytes. *)
Definition init_uncrc_tab (wsize : Z) : res (list Z) :=
  when wsize =? 0 throw EOob;
  part_crc ← crc64_iso 0 (replicate (Z.to_nat (wsize - 1)) 0);
  mfor 0 256 (λ i tab,
    c ← crc64_iso 0 (i :: replicate (Z.to_nat (wsize - 1)) 0);
    aset tab i (Z.lxor c part_crc)) (replicate 256 0).

(** [undef] is [tail_crc] when it is not set; [junk] what the new buffer holds. *)
Definition crc_context_new `{Allocator} (undef : Z) (junk : Z → Z) (block_size crcbits : Z) (crc : list Z) (num_crcs tail_size : Z) : res (option crc_context) :=
  _ ← assert_ (0 <? num_crcs);
  _ ← assert_ (0 <? block_size);
  _ ← assert_ (tail_size <? block_size);
  if negb (alloc_ok (u64 (2144 + 8 * num_crcs))) then Ok None else
  '(tail, num_crcs) ← (if tail_size =? 0 then Ok (undef, num_crcs) else t ← aget crc (num_crcs - 1); Ok (t, num_crcs - 1));
  mask ← mask_of crcbits;
  known ← bytes_at crc 0 num_crcs;
  tab ← init_uncrc_tab (u32 block_size);
  if negb (alloc_ok block_size) then Ok None else
  Ok (Some (CrcContext block_size mask (junk <$> seqZ 0 block_size) 0 0 0 0 0 (-1) tail_size tail tab num_crcs known)).

(** The first index with the checksum. *)
Fixpoint find_crc (c i : Z) (l : list Z) : Z :=
  match l with [] => -1 | x :: l => if c =? x then i else find_crc c (i + 1) l end.
Definition crc_matches (ctx : crc_context) : Z :=
  if literal_bytes ctx <? block_size ctx then -1 else find_crc (Z.land (running_crc ctx) (crcmask ctx)) 0 (crcs ctx).

Definition tail_matches (ctx : crc_context) : bool :=
  if negb (literal_bytes ctx =? tail_size ctx) then false else Z.land (running_crc ctx) (crcmask ctx) =? tail_crc ctx.

Definition crc_add_byte (crc newbyte : Z) : res Z := crc64_iso crc [newbyte].
Definition crc_remove_byte (crc oldbyte : Z) (uncrc_tab : list Z) : res Z :=
  t ← aget uncrc_tab oldbyte; Ok (Z.lxor crc t).
Definition crc_roll (crc oldbyte newbyte : Z) (uncrc_tab : list Z) : res Z :=
  c ← crc_remove_byte crc oldbyte uncrc_tab; crc_add_byte c newbyte.

Definition buffer_size (ctx : crc_context) : Z := u64 (buffer_end ctx - buffer_start ctx).

(** The trailing edge of the window: nowhere, in the buffer or in the input. *)
Inductive edge := Nowhere | InBuffer (k : Z) | InInput (k : Z).

Definition set_literal (ctx : crc_context) (literal : Z) : crc_context :=
  CrcContext (block_size ctx) (crcmask ctx) (buffer ctx) (buffer_start ctx) (buffer_end ctx) (running_crc ctx) literal (total_bytes ctx)
    (have_match ctx) (tail_size ctx) (tail_crc ctx) (uncrc_tab ctx) (num_crcs ctx) (crcs ctx).
(** The counters of a byte read, and the checksum with it. *)
Definition count_byte (ctx : crc_context) (crc : Z) : crc_context :=
  CrcContext (block_size ctx) (crcmask ctx) (buffer ctx) (buffer_start ctx) (buffer_end ctx) crc (u64 (literal_bytes ctx + 1))
    (u64 (total_bytes ctx + 1)) (have_match ctx) (tail_size ctx) (tail_crc ctx) (uncrc_tab ctx) (num_crcs ctx) (crcs ctx).
Definition set_match (ctx : crc_context) (m : Z) : crc_context :=
  CrcContext (block_size ctx) (crcmask ctx) (buffer ctx) (buffer_start ctx) (buffer_end ctx) (running_crc ctx) (literal_bytes ctx)
    (total_bytes ctx) m (tail_size ctx) (tail_crc ctx) (uncrc_tab ctx) (num_crcs ctx) (crcs ctx).
Definition set_buffer (ctx : crc_context) (buf : list Z) (s e : Z) : crc_context :=
  CrcContext (block_size ctx) (crcmask ctx) buf s e (running_crc ctx) (literal_bytes ctx)
    (total_bytes ctx) (have_match ctx) (tail_size ctx) (tail_crc ctx) (uncrc_tab ctx) (num_crcs ctx) (crcs ctx).
Definition set_crc (ctx : crc_context) (crc : Z) : crc_context :=
  CrcContext (block_size ctx) (crcmask ctx) (buffer ctx) (buffer_start ctx) (buffer_end ctx) crc (literal_bytes ctx)
    (total_bytes ctx) (have_match ctx) (tail_size ctx) (tail_crc ctx) (uncrc_tab ctx) (num_crcs ctx) (crcs ctx).

(** One byte of the loop: the checksum and the next edge. *)
Definition read_byte (ctx : crc_context) (buf : list Z) (consumed : Z) (old : edge) : res (crc_context * edge) :=
  p ← aget buf consumed;
  match old with
  | Nowhere =>
    crc ← crc_add_byte (running_crc ctx) p;
    Ok (count_byte ctx crc, if consumed =? block_size ctx - 1 then InInput 0 else Nowhere)
  | InBuffer k =>
    o ← aget (buffer ctx) k;
    crc ← crc_roll (running_crc ctx) o p (uncrc_tab ctx);
    Ok (count_byte ctx crc, if k + 1 =? buffer_end ctx then InInput 0 else InBuffer (k + 1))
  | InInput k =>
    o ← aget buf k;
    crc ← crc_roll (running_crc ctx) o p (uncrc_tab ctx);
    Ok (count_byte ctx crc, InInput (k + 1))
  end.

(** How the loop ends: with [crcmatch], or by the jump to [have_match]. *)
Inductive loop_end := Ends (crcmatch : Z) | Jumps (crcmatch : Z).

Definition is_nowhere (old : edge) : bool := match old with Nowhere => true | _ => false end.

Fixpoint read_loop (fuel : nat) (ctx : crc_context) (buf : list Z) (consumed : Z) (old : edge) : res (crc_context * Z * loop_end) :=
  match fuel with
  | O => Err EFuel
  | S fuel =>
    let crcmatch := if literal_bytes ctx <? block_size ctx then -1 else crc_matches ctx in
    if negb (crcmatch <? 0) then Ok (ctx, consumed, Ends crcmatch) else
    if consumed =? zlen buf then Ok (ctx, consumed, Ends crcmatch) else
    '(ctx, old') ← read_byte ctx buf consumed old;
    if is_nowhere old && tail_matches ctx then Ok (ctx, consumed + 1, Jumps (num_crcs ctx)) else
    read_loop fuel ctx buf (consumed + 1) old'
  end.

(** The code at [have_match]. *)
Definition take_match (ctx : crc_context) (crcmatch : Z) : res (crc_context * Z) :=
  _ ← (if crcmatch =? num_crcs ctx then assert_ (literal_bytes ctx =? tail_size ctx) else assert_ (literal_bytes ctx =? block_size ctx));
  Ok (set_buffer (set_crc (set_match (set_literal ctx 0) (-1)) 0) (buffer ctx) 0 0, - crcmatch - 1).

(** Without a match: the literal that is more than a block ago. *)
Definition old_literal (ctx : crc_context) : crc_context * Z :=
  if block_size ctx <? literal_bytes ctx then
    let result := literal_bytes ctx - block_size ctx in
    let ctx := set_literal ctx (literal_bytes ctx - result) in
    (if buffer_size ctx <=? result then set_buffer ctx (buffer ctx) 0 0
     else set_buffer ctx (buffer ctx) (buffer_start ctx + result) (buffer_end ctx), result)
  else (ctx, 0).

(** The literal bytes that a later call needs go to the buffer. *)
Definition save_literal (ctx : crc_context) (buf : list Z) : res crc_context :=
  let len := u64 (literal_bytes ctx - buffer_size ctx) in
  ctx ← (if block_size ctx <? buffer_end ctx + len then
           old ← bytes_at (buffer ctx) (buffer_start ctx) (buffer_size ctx);
           b ← copy_to (buffer ctx) 0 old;
           Ok (set_buffer ctx b 0 (buffer_end ctx - buffer_start ctx))
         else Ok ctx);
  new ← bytes_at buf (zlen buf - len) len;
  b ← copy_to (buffer ctx) (buffer_end ctx) new;
  let ctx := set_buffer ctx b (buffer_start ctx) (buffer_end ctx + len) in
  _ ← assert_ (buffer_size ctx <=? block_size ctx);
  Ok ctx.

(** The new context, the bytes consumed and [*result]. *)
Definition crc_read_block (ctx : crc_context) (buf : list Z) : res (crc_context * Z * Z) :=
  if 0 <=? have_match ctx then
    '(ctx, result) ← take_match ctx (have_match ctx); Ok (ctx, 0, result)
  else
    let old := if block_size ctx <=? buffer_size ctx then InBuffer (buffer_start ctx) else Nowhere in
    '(ctx, consumed, e) ← read_loop (S (length buf)) ctx buf 0 old;
    '(ctx, result) ←
      match e with
      | Jumps crcmatch => take_match ctx crcmatch
      | Ends crcmatch =>
        if 0 <=? crcmatch then
          if block_size ctx <? literal_bytes ctx then
            let result := literal_bytes ctx - block_size ctx in
            Ok (set_match (set_literal ctx (block_size ctx)) crcmatch, result)
          else take_match ctx crcmatch
        else let '(ctx, result) := old_literal ctx in ctx ← save_literal ctx buf; Ok (ctx, result)
      end;
    Ok (ctx, consumed, result).

Definition crc_read_flush (ctx : crc_context) : res (crc_context * Z) :=
  if negb (have_match ctx =? -1) then
    let ctx' := set_literal ctx (u64 (literal_bytes ctx - block_size ctx)) in
    _ ← assert_ (literal_bytes ctx' =? 0);
    Ok (set_buffer (set_crc (set_match ctx' (-1)) 0) (buffer ctx') (buffer_end ctx') (buffer_end ctx'), - have_match ctx - 1)
  else
    let ret := buffer_size ctx in
    _ ← assert_ (literal_bytes ctx =? ret);
    Ok (set_literal (set_buffer ctx (buffer ctx) 0 0) 0, ret).

(** ** Checksums of windows *)
Definition is_byte (c : Z) : Prop := 0 ≤ c < 256.
Definition crc_of (l : list Z) : Z := register iso3309 0 (message l).

Lemma shift1_0 poly : shift1 poly 0 = 0.
Proof. done. Qed.

Lemma message_app l l' : message (l ++ l') = message l ++ message l'.
Proof. apply flat_map_app. Qed.

Lemma register_lxor poly l l' : length l = length l' → ∀ c d,
  register poly (Z.lxor c d) (zip_with xorb l l') = Z.lxor (register poly c l) (register poly d l').
Proof.
  unfold register. revert l'. induction l as [|b l IH]; intros [|b' l'] Hlen c d; try done. cbn [zip_with foldl]. rewrite <- IH by (injection Hlen; lia).
  f_equal. rewrite <- shift1_lxor. f_equal. replace (Z.b2z (xorb b b')) with (Z.lxor (Z.b2z b) (Z.b2z b')) by (by destruct b, b').
  rewrite !Z.lxor_assoc. f_equal. rewrite <- !Z.lxor_assoc. f_equal. apply Z.lxor_comm.
Qed.

Lemma register_false poly n : register poly 0 (replicate n false) = 0.
Proof. induction n as [|n IH]; [done|]. exact IH. Qed.

Lemma message_zeros n : message (replicate n 0) = replicate (8 * n) false.
Proof. induction n as [|n IH]; [done|]. rewrite Nat.mul_succ_r, Nat.add_comm, replicate_add. cbn [replicate message flat_map]. f_equal. exact IH. Qed.

Lemma length_message l : length (message l) = (8 * length l)%nat.
Proof. induction l as [|c l IH]; [done|]. cbn [message flat_map length]. rewrite length_app. change (flat_map (low_bits 8) l) with (message l). rewrite IH. cbn [low_bits length]. lia. Qed.

Lemma zip_false l : zip_with xorb (replicate (length l) false) l = l.
Proof. induction l as [|b l IH]; [done|]. cbn [length replicate zip_with]. by rewrite xorb_false_l, IH. Qed.

(** Taking the first byte out of a window. *)
Lemma crc_of_cons c l : crc_of (c :: l) = Z.lxor (crc_of (c :: replicate (length l) 0)) (crc_of l).
Proof.
  unfold crc_of. change (c :: l) with ([c] ++ l). change (c :: replicate (length l) 0) with ([c] ++ replicate (length l) 0).
  rewrite !message_app, !register_app. set (r := register iso3309 0 (message [c])). rewrite message_zeros, <- length_message.
  rewrite <- (register_lxor iso3309 _ (message l)) by (by rewrite length_replicate). by rewrite Z.lxor_0_r, zip_false.
Qed.

Lemma crc64_of l : Forall is_byte l → crc64_iso 0 l = Ok (crc_of l).
Proof. apply crc64_register. Qed.

Lemma is_byte_0 : is_byte 0.
Proof. done. Qed.
Lemma zeros_bytes n : Forall is_byte (replicate n 0).
Proof. apply Forall_replicate, is_byte_0. Qed.

(** The table of a window size. *)
Definition uncrc_ok (wsize : Z) (tab : list Z) : Prop :=
  ∀ c, is_byte c → aget tab c = Ok (crc_of (c :: replicate (Z.to_nat (wsize - 1)) 0)).

Lemma uncrc_tab_ok wsize : 0 < wsize → ∃ tab, init_uncrc_tab wsize = Ok tab ∧ uncrc_ok wsize tab.
Proof.
  intros Hw. unfold init_uncrc_tab. replace (wsize =? 0) with false by lia. rewrite crc64_of by apply zeros_bytes. cbn [mbind res_bind].
  destruct (mfor_rule (λ i tab, zlen tab = 256 ∧ ∀ c, 0 ≤ c < i → aget tab c = Ok (crc_of (c :: replicate (Z.to_nat (wsize - 1)) 0)))
    0 256 (λ i tab, c ← crc64_iso 0 (i :: replicate (Z.to_nat (wsize - 1)) 0); aset tab i (Z.lxor c (crc_of (replicate (Z.to_nat (wsize - 1)) 0)))) (replicate 256 0))
    as (tab & E & _ & Ht); [lia|split; [done|lia]| |by exists tab].
  intros i tab Hi [Hl Ht]. rewrite crc64_of by (constructor; [done|apply zeros_bytes]). cbn [mbind res_bind].
  destruct (aset_spec tab i (Z.lxor (crc_of (i :: replicate (Z.to_nat (wsize - 1)) 0)) (crc_of (replicate (Z.to_nat (wsize - 1)) 0))) ltac:(lia)) as (t & -> & Hlt & Hi' & Hne).
  exists t. split; [done|]. split; [lia|]. intros c Hc. destruct (decide (c = i)) as [->|]; [|rewrite Hne by done; apply Ht; lia].
  rewrite Hi'. f_equal. unfold crc_of at 2. by rewrite message_zeros, register_false, Z.lxor_0_r.
Qed.

Lemma add_byte_ok l c : is_byte c → crc_add_byte (crc_of l) c = Ok (crc_of (l ++ [c])).
Proof. intros Hc. unfold crc_add_byte. rewrite crc64_register by (by constructor). unfold crc_of. by rewrite message_app, register_app. Qed.

(** The checksum rolls. *)
Lemma roll_ok wsize tab o w c : uncrc_ok wsize tab → is_byte o → is_byte c → zlen (o :: w) = wsize →
  crc_roll (crc_of (o :: w)) o c tab = Ok (crc_of (w ++ [c])).
Proof.
  intros Ht Ho Hc Hlen. unfold crc_roll, crc_remove_byte. rewrite Ht by done. cbn [mbind res_bind].
  replace (Z.to_nat (wsize - 1)) with (length w) by (unfold zlen in Hlen; cbn [length] in Hlen; lia).
  rewrite (crc_of_cons o w). rewrite (Z.lxor_comm (crc_of (o :: _))), Z.lxor_assoc, Z.lxor_nilpotent, Z.lxor_0_r. by apply add_byte_ok.
Qed.

(** ** The checksums of blocks *)
Lemma bytes_at_ok l off n : 0 ≤ off → 0 ≤ n → off + n ≤ zlen l → bytes_at l off n = Ok (take (Z.to_nat n) (drop (Z.to_nat off) l)).
Proof. intros. unfold bytes_at. by replace ((0 <=? off) && (0 <=? n) && (off + n <=? zlen l)) with true by lia. Qed.

Lemma mask_ok crcbits : 1 ≤ crcbits ≤ 64 → mask_of crcbits = Ok (2 ^ 64 - 2 ^ (64 - crcbits)).
Proof.
  intros Hc. unfold mask_of, u32. rewrite Z.mod_small by lia. replace (64 <=? 64 - crcbits) with false by lia. f_equal. unfold u64.
  rewrite Z.shiftl_mul_pow2 by lia. assert (Hp : 0 < 2 ^ (64 - crcbits)) by (apply Z.pow_pos_nonneg; lia).
  assert (Hle : 2 ^ (64 - crcbits) ≤ 2 ^ 64) by (apply Z.pow_le_mono_r; lia).
  replace ((2 ^ 64 - 1) * 2 ^ (64 - crcbits)) with (2 ^ 64 - 2 ^ (64 - crcbits) + (2 ^ (64 - crcbits) - 1) * 2 ^ 64) by lia.
  rewrite Z.mod_add by lia. apply Z.mod_small. lia.
Qed.

Definition block (data : list Z) (bs j : Z) : list Z := take (Z.to_nat bs) (drop (Z.to_nat (j * bs)) data).

Lemma blocks_loop_ok data bs mask : 0 < bs → Forall is_byte data → ∀ fuel off len i crc, 0 ≤ i → off = i * bs → 0 ≤ len → off + len = zlen data →
  i + (len + bs - 1) / bs ≤ zlen crc → zlen crc < 2 ^ 32 → len < Z.of_nat fuel →
  ∃ crc', blocks_loop fuel data off len bs mask i crc = Ok crc' ∧ zlen crc' = zlen crc ∧
    ∀ j, aget crc' j = if (i <=? j) && (j <? i + (len + bs - 1) / bs) then Ok (Z.land (crc_of (block data bs j)) mask) else aget crc j.
Proof.
  intros Hbs Hd. induction fuel as [|fuel IH]; intros off len i crc Hi Hoff Hlen Hz Hroom Hmax Hf; [lia|]. cbn [blocks_loop].
  assert (Hoff0 : 0 ≤ off) by (subst; apply Z.mul_nonneg_nonneg; lia).
  destruct (Z.leb_spec bs len) as [Hle|Hgt].
  - rewrite bytes_at_ok by lia. cbn [mbind res_bind]. rewrite crc64_of by (by apply Forall_take, Forall_drop). cbn [mbind res_bind].
    assert (Hdiv : (len + bs - 1) / bs = 1 + (len - bs + bs - 1) / bs).
    { replace (len + bs - 1) with (len - bs + bs - 1 + 1 * bs) by lia. rewrite Z.div_add by lia. lia. }
    assert (0 ≤ (len - bs + bs - 1) / bs) by (apply Z.div_pos; lia).
    destruct (aset_spec crc i (Z.land (crc_of (take (Z.to_nat bs) (drop (Z.to_nat off) data))) mask)) as (c1 & -> & Hl1 & Hi1 & Hne1); [lia|].
    cbn [mbind res_bind]. unfold u32. rewrite Z.mod_small by lia.
    destruct (IH (off + bs) (len - bs) (i + 1) c1) as (c2 & -> & Hl2 & H2); [lia|lia|lia|lia|lia|lia|lia|]. exists c2. split; [done|]. split; [lia|].
    intros j. rewrite H2. rewrite Hdiv. destruct (decide (j = i)) as [->|Hji].
    + replace ((i + 1 <=? i) && (i <? i + 1 + (len - bs + bs - 1) / bs)) with false by lia.
      replace ((i <=? i) && (i <? i + (1 + (len - bs + bs - 1) / bs))) with true by lia. rewrite Hi1. unfold block. by subst off.
    + rewrite Hne1 by done. replace ((i <=? j) && (j <? i + (1 + (len - bs + bs - 1) / bs))) with ((i + 1 <=? j) && (j <? i + 1 + (len - bs + bs - 1) / bs)); [done|].
      destruct (Z.leb_spec i j), (Z.leb_spec (i + 1) j); try lia; cbn [andb]; f_equal; lia.
  - destruct (Z.eqb_spec len 0) as [->|Hne].
    + exists crc. split; [done|]. split; [done|]. intros j. rewrite (Z.div_small (0 + bs - 1)) by lia. by replace ((i <=? j) && (j <? i + 0)) with false by lia.
    + rewrite bytes_at_ok by lia. cbn [mbind res_bind]. rewrite crc64_of by (by apply Forall_take, Forall_drop). cbn [mbind res_bind].
      assert (E1 : (len + bs - 1) / bs = 1). { symmetry. apply (Z.div_unique _ _ 1 (len - 1)); lia. }
      rewrite E1 in *. destruct (aset_spec crc i (Z.land (crc_of (take (Z.to_nat len) (drop (Z.to_nat off) data))) mask)) as (c1 & -> & Hl1 & Hi1 & Hne1); [lia|].
      exists c1. split; [done|]. split; [done|]. intros j. destruct (decide (j = i)) as [->|Hji].
      * replace ((i <=? i) && (i <? i + 1)) with true by lia. rewrite Hi1. unfold block. subst off. do 3 f_equal.
        rewrite !take_ge; [done|rewrite length_drop; unfold zlen in Hz; lia|rewrite length_drop; unfold zlen in Hz; lia].
      * rewrite Hne1 by done. by replace ((i <=? j) && (j <? i + 1)) with false by lia.
Qed.

(** The array of [crc_of_blocks] holds the upper bits of the checksum of each block, the last one
    shorter. *)
Theorem crc_of_blocks_exact data bs crcbits crc : Forall is_byte data → 0 < bs → 1 ≤ crcbits ≤ 64 →
  (zlen data + bs - 1) / bs ≤ zlen crc < 2 ^ 32 →
  ∃ crc', crc_of_blocks data (zlen data) bs crcbits crc = Ok crc' ∧ zlen crc' = zlen crc ∧
    ∀ j, 0 ≤ j < (zlen data + bs - 1) / bs → aget crc' j = Ok (Z.land (crc_of (block data bs j)) (2 ^ 64 - 2 ^ (64 - crcbits))).
Proof.
  intros Hd Hbs Hc Hroom. unfold crc_of_blocks. rewrite mask_ok by done. cbn [mbind res_bind].
  destruct (blocks_loop_ok data bs (2 ^ 64 - 2 ^ (64 - crcbits)) Hbs Hd (S (Z.to_nat (zlen data))) 0 (zlen data) 0 crc) as (c & -> & Hl & Hcells);
    [lia|lia|apply zlen_nonneg|lia|lia|lia|pose proof (zlen_nonneg data); lia|].
  exists c. split; [done|]. split; [done|]. intros j Hj. rewrite Hcells. by replace ((0 <=? j) && (j <? 0 + (zlen data + bs - 1) / bs)) with true by lia.
Qed.

(** ** Contexts *)
(** The bytes in the buffer. *)
Definition contents (ctx : crc_context) : list Z :=
  take (Z.to_nat (buffer_end ctx - buffer_start ctx)) (drop (Z.to_nat (buffer_start ctx)) (buffer ctx)).

Record shape (ctx : crc_context) : Prop := {
  shape_bs : 0 < block_size ctx < 2 ^ 32;
  shape_buffer : zlen (buffer ctx) = block_size ctx;
  shape_ends : 0 ≤ buffer_start ctx ≤ buffer_end ctx ∧ buffer_end ctx ≤ block_size ctx;
  shape_bytes : Forall is_byte (contents ctx);
  shape_tab : uncrc_ok (block_size ctx) (uncrc_tab ctx);
  shape_crcs : zlen (crcs ctx) = num_crcs ctx;
  shape_tail : 0 ≤ tail_size ctx < block_size ctx;
}.

(** The loop changes the checksum and the counters only. *)
Definition counted (ctx : crc_context) (crc literal total : Z) : crc_context :=
  CrcContext (block_size ctx) (crcmask ctx) (buffer ctx) (buffer_start ctx) (buffer_end ctx) crc literal total
    (have_match ctx) (tail_size ctx) (tail_crc ctx) (uncrc_tab ctx) (num_crcs ctx) (crcs ctx).

Lemma counted_same ctx : counted ctx (running_crc ctx) (literal_bytes ctx) (total_bytes ctx) = ctx.
Proof. by destruct ctx. Qed.

Lemma shape_size ctx : shape ctx → buffer_size ctx = buffer_end ctx - buffer_start ctx ∧ zlen (contents ctx) = buffer_end ctx - buffer_start ctx.
Proof.
  intros [Hbs Hbuf Hends _ _ _ _]. split; [unfold buffer_size, u64; apply Z.mod_small; lia|].
  unfold contents, zlen in *. rewrite length_take, length_drop. lia.
Qed.

Lemma contents_at ctx k : shape ctx → buffer_start ctx ≤ k < buffer_end ctx →
  ∃ o, aget (buffer ctx) k = Ok o ∧ is_byte o ∧ contents ctx !! Z.to_nat (k - buffer_start ctx) = Some o.
Proof.
  intros Hs Hk. destruct (shape_size ctx Hs) as [_ Hz]. destruct Hs as [Hbs Hbuf Hends Hb _ _ _].
  destruct (aget_in (buffer ctx) k) as [o Ho]; [lia|]. exists o. split; [done|].
  assert (Hc : contents ctx !! Z.to_nat (k - buffer_start ctx) = Some o).
  { unfold contents. rewrite lookup_take_lt by lia. rewrite lookup_drop. unfold aget in Ho. case_bool_decide; [|done].
    replace (Z.to_nat (buffer_start ctx) + Z.to_nat (k - buffer_start ctx))%nat with (Z.to_nat k) by lia. destruct (buffer ctx !! Z.to_nat k); congruence. }
  split; [|done]. by eapply Forall_lookup_1.
Qed.

Definition edge_ok (ctx : crc_context) (consumed : Z) (old : edge) : Prop :=
  match old with Nowhere => True | InBuffer k => buffer_start ctx ≤ k < buffer_end ctx | InInput k => 0 ≤ k < consumed end.

Lemma input_at buf k : Forall is_byte buf → 0 ≤ k < zlen buf → ∃ c, aget buf k = Ok c ∧ is_byte c ∧ buf !! Z.to_nat k = Some c.
Proof.
  intros Hb Hk. destruct (aget_in buf k Hk) as [c Hc]. exists c. split; [done|]. unfold aget in Hc. case_bool_decide; [|lia].
  destruct (buf !! Z.to_nat k) eqn:E; [|done]. injection Hc as ->. split; [by eapply Forall_lookup_1|done].
Qed.

Lemma roll_total ctx crc o c : shape ctx → is_byte o → is_byte c → ∃ crc', crc_roll crc o c (uncrc_tab ctx) = Ok crc'.
Proof.
  intros Hs Ho Hc. unfold crc_roll, crc_remove_byte. rewrite (shape_tab ctx Hs) by done. cbn [mbind res_bind]. unfold crc_add_byte.
  rewrite crc64_register by (by constructor). eauto.
Qed.

Lemma read_byte_total ctx buf consumed old : shape ctx → Forall is_byte buf → 0 ≤ consumed < zlen buf → edge_ok ctx consumed old →
  ∃ crc old', read_byte ctx buf consumed old = Ok (counted ctx crc (u64 (literal_bytes ctx + 1)) (u64 (total_bytes ctx + 1)), old') ∧ edge_ok ctx (consumed + 1) old'.
Proof.
  intros Hs Hb Hc He. unfold read_byte. destruct (input_at buf consumed Hb Hc) as (c & -> & Hbc & _). cbn [mbind res_bind].
  destruct old as [|k|k]; cbn [edge_ok] in He.
  - unfold crc_add_byte. rewrite crc64_register by (by constructor). cbn [mbind res_bind]. eexists _, _. split; [done|]. by destruct (consumed =? block_size ctx - 1); cbn; [lia|].
  - destruct (contents_at ctx k Hs He) as (o & -> & Ho & _). cbn [mbind res_bind]. destruct (roll_total ctx (running_crc ctx) o c Hs Ho Hbc) as [crc ->].
    cbn [mbind res_bind]. eexists _, _. split; [done|]. destruct (Z.eqb_spec (k + 1) (buffer_end ctx)); cbn; lia.
  - destruct (input_at buf k Hb) as (o & -> & Ho & _); [lia|]. cbn [mbind res_bind]. destruct (roll_total ctx (running_crc ctx) o c Hs Ho Hbc) as [crc ->].
    cbn [mbind res_bind]. eexists _, _. split; [done|]. cbn. lia.
Qed.

Lemma find_crc_range c i l : find_crc c i l = -1 ∨ i ≤ find_crc c i l < i + zlen l.
Proof.
  revert i. induction l as [|x l IH]; intros i; cbn [find_crc]; [by left|]. replace (zlen (x :: l)) with (1 + zlen l) by (unfold zlen; cbn [length]; lia). pose proof (zlen_nonneg l).
  destruct (c =? x); [right; lia|]. destruct (IH (i + 1)) as [->|?]; [by left|right; lia].
Qed.

Lemma crc_matches_range ctx : shape ctx → crc_matches ctx = -1 ∨ (0 ≤ crc_matches ctx < num_crcs ctx ∧ block_size ctx ≤ literal_bytes ctx).
Proof.
  intros Hs. unfold crc_matches. destruct (Z.ltb_spec (literal_bytes ctx) (block_size ctx)); [by left|]. rewrite <- (shape_crcs ctx Hs).
  destruct (find_crc_range (Z.land (running_crc ctx) (crcmask ctx)) 0 (crcs ctx)) as [->|?]; [by left|right; lia].
Qed.

(** How the loop of a call can end. *)
Definition ends_ok (ctx : crc_context) (literal left : Z) (e : loop_end) : Prop :=
  match e with
  | Ends m => (m = -1 ∧ left = 0) ∨ (0 ≤ m < num_crcs ctx ∧ block_size ctx ≤ literal)
  | Jumps m => m = num_crcs ctx ∧ literal = tail_size ctx
  end.

Lemma read_loop_total fuel : ∀ ctx buf consumed old, shape ctx → Forall is_byte buf → edge_ok ctx consumed old → 0 ≤ consumed ≤ zlen buf →
  0 ≤ literal_bytes ctx → literal_bytes ctx + (zlen buf - consumed) < 2 ^ 63 → zlen buf - consumed < Z.of_nat fuel →
  ∃ n crc total e, read_loop fuel ctx buf consumed old = Ok (counted ctx crc (literal_bytes ctx + n) total, consumed + n, e) ∧
    0 ≤ n ≤ zlen buf - consumed ∧ ends_ok ctx (literal_bytes ctx + n) (zlen buf - consumed - n) e.
Proof.
  induction fuel as [|fuel IH]; intros ctx buf consumed old Hs Hb He Hc Hl Hmax Hf; [lia|]. cbn [read_loop].
  set (m := if literal_bytes ctx <? block_size ctx then -1 else crc_matches ctx).
  assert (Hm : m = -1 ∨ (0 ≤ m < num_crcs ctx ∧ block_size ctx ≤ literal_bytes ctx)).
  { subst m. destruct (literal_bytes ctx <? block_size ctx); [by left|by apply crc_matches_range]. }
  destruct (Z.ltb_spec m 0) as [Hneg|Hpos]; cbn [negb].
  - destruct (Z.eqb_spec consumed (zlen buf)) as [Heq|Hne].
    + exists 0, (running_crc ctx), (total_bytes ctx), (Ends m). rewrite !Z.add_0_r, counted_same. split; [done|]. split; [lia|]. left. lia.
    + destruct (read_byte_total ctx buf consumed old Hs Hb ltac:(lia) He) as (crc & old' & -> & He'). cbn [mbind res_bind].
      set (c1 := counted ctx crc (u64 (literal_bytes ctx + 1)) (u64 (total_bytes ctx + 1))).
      assert (Hlit : literal_bytes c1 = literal_bytes ctx + 1) by (cbn; unfold u64; apply Z.mod_small; lia).
      destruct (is_nowhere old && tail_matches c1) eqn:Ht.
      * exists 1, crc, (u64 (total_bytes ctx + 1)), (Jumps (num_crcs ctx)). split; [subst c1; cbn in Hlit; by rewrite Hlit|]. split; [lia|].
        apply andb_true_iff in Ht as [_ Ht]. unfold tail_matches in Ht. destruct (Z.eqb_spec (literal_bytes c1) (tail_size c1)) as [E|]; [|done].
        split; [done|]. rewrite Hlit in E. exact E.
      * destruct (IH c1 buf (consumed + 1) old') as (n & crc' & total & e & -> & Hn & Hend); [|done|exact He'|lia|lia|lia|lia|].
        { destruct Hs. by constructor. }
        exists (n + 1), crc', total, e. rewrite Hlit in *. replace (literal_bytes ctx + (n + 1)) with (literal_bytes ctx + 1 + n) by lia.
        replace (consumed + (n + 1)) with (consumed + 1 + n) by lia. split; [done|]. split; [lia|].
        by replace (zlen buf - consumed - (n + 1)) with (zlen buf - (consumed + 1) - n) by lia.
  - exists 0, (running_crc ctx), (total_bytes ctx), (Ends m). rewrite !Z.add_0_r, counted_same. split; [done|]. split; [lia|]. right. lia.
Qed.

(** ** Saving bytes *)
Lemma copy_to_ok dst off src : 0 ≤ off → off + zlen src ≤ zlen dst → ∃ b, copy_to dst off src = Ok b ∧ zlen b = zlen dst ∧
  ∀ s, 0 ≤ s ≤ off → take (Z.to_nat (off + zlen src - s)) (drop (Z.to_nat s) b) = take (Z.to_nat (off - s)) (drop (Z.to_nat s) dst) ++ src.
Proof.
  intros Ho Hl. unfold copy_to. replace ((0 <=? off) && (off + zlen src <=? zlen dst)) with true by (symmetry; apply andb_true_iff; lia).
  eexists. split; [done|]. unfold zlen in *. split; [rewrite !length_app, length_take, length_drop; lia|].
  intros s Hs. rewrite drop_app_le by (rewrite length_take; lia). rewrite take_drop_commute.
  replace (Z.to_nat s + Z.to_nat (off - s))%nat with (Z.to_nat off) by lia. rewrite app_assoc. apply take_app_length'.
  rewrite length_app, length_drop, length_take. lia.
Qed.

Lemma shape_set ctx b s e : shape ctx → zlen b = block_size ctx → 0 ≤ s ≤ e → e ≤ block_size ctx → Forall is_byte (contents (set_buffer ctx b s e)) → shape (set_buffer ctx b s e).
Proof. intros [] ? ? ? ?. by constructor. Qed.

Lemma contents_set ctx b s e : contents (set_buffer ctx b s e) = take (Z.to_nat (e - s)) (drop (Z.to_nat s) b).
Proof. done. Qed.

Lemma drop_bytes n l : Forall is_byte l → Forall is_byte (drop n l).
Proof. apply Forall_drop. Qed.

Lemma save_ok ctx buf : shape ctx → Forall is_byte buf → zlen (contents ctx) ≤ literal_bytes ctx ≤ block_size ctx →
  literal_bytes ctx - zlen (contents ctx) ≤ zlen buf →
  ∃ b s e, save_literal ctx buf = Ok (set_buffer ctx b s e) ∧ shape (set_buffer ctx b s e) ∧
    contents (set_buffer ctx b s e) = contents ctx ++ drop (Z.to_nat (zlen buf - (literal_bytes ctx - zlen (contents ctx)))) buf.
Proof.
  intros Hs Hb Hl Hlen. destruct (shape_size ctx Hs) as [Hsz Hz]. unfold save_literal. rewrite Hsz.
  assert (Hbs := shape_bs ctx Hs). assert (Hends := shape_ends ctx Hs). assert (Hbuf := shape_buffer ctx Hs).
  set (len := literal_bytes ctx - zlen (contents ctx)) in *.
  replace (u64 (literal_bytes ctx - (buffer_end ctx - buffer_start ctx))) with len by (unfold u64; rewrite Z.mod_small; lia).
  assert (Hroom : ∃ b1 s1 e1, (if block_size ctx <? buffer_end ctx + len then
      old ← bytes_at (buffer ctx) (buffer_start ctx) (buffer_end ctx - buffer_start ctx); b ← copy_to (buffer ctx) 0 old;
      Ok (set_buffer ctx b 0 (buffer_end ctx - buffer_start ctx)) else Ok ctx) = Ok (set_buffer ctx b1 s1 e1) ∧
    zlen b1 = block_size ctx ∧ 0 ≤ s1 ≤ e1 ∧ e1 + len ≤ block_size ctx ∧ take (Z.to_nat (e1 - s1)) (drop (Z.to_nat s1) b1) = contents ctx ∧ e1 - s1 = zlen (contents ctx)).
  { destruct (Z.ltb_spec (block_size ctx) (buffer_end ctx + len)).
    - rewrite bytes_at_ok by lia. cbn [mbind res_bind]. change (take (Z.to_nat (buffer_end ctx - buffer_start ctx)) (drop (Z.to_nat (buffer_start ctx)) (buffer ctx))) with (contents ctx).
      destruct (copy_to_ok (buffer ctx) 0 (contents ctx)) as (b & -> & Hzb & Hcb); [lia|lia|]. cbn [mbind res_bind].
      eexists _, _, _. split; [done|]. split_and!; [lia|lia|lia|lia| |lia]. specialize (Hcb 0 ltac:(lia)).
      replace (0 + zlen (contents ctx) - 0) with (buffer_end ctx - buffer_start ctx - 0) in Hcb by lia. rewrite Hcb. done.
    - exists (buffer ctx), (buffer_start ctx), (buffer_end ctx). split; [by destruct ctx|]. split_and!; [done|lia|lia|lia|done|done]. }
  destruct Hroom as (b1 & s1 & e1 & -> & Hzb1 & Hse & Hroom & Hc1 & Hd1). cbn [mbind res_bind]. rewrite bytes_at_ok by lia. cbn [mbind res_bind].
  set (new := take (Z.to_nat len) (drop (Z.to_nat (zlen buf - len)) buf)).
  assert (Enew : new = drop (Z.to_nat (zlen buf - len)) buf) by (apply take_ge; rewrite length_drop; unfold zlen in *; lia).
  assert (Hznew : zlen new = len) by (rewrite Enew; unfold zlen in *; rewrite length_drop; lia).
  cbn [buffer buffer_end buffer_start set_buffer]. destruct (copy_to_ok b1 e1 new) as (b2 & -> & Hzb2 & Hcb2); [lia|lia|]. cbn [mbind res_bind].
  specialize (Hcb2 s1 ltac:(lia)). rewrite Hc1, Hznew in Hcb2. unfold assert_, buffer_size. cbn [buffer_end buffer_start block_size set_buffer].
  replace (u64 (e1 + len - s1) <=? block_size ctx) with true by (unfold u64; rewrite Z.mod_small by lia; lia). cbn [mbind res_bind].
  exists b2, s1, (e1 + len). split; [done|]. rewrite contents_set, Hcb2, Enew. split; [|done]. apply shape_set; [done|lia|lia|lia|].
  rewrite contents_set, Hcb2, Enew. apply Forall_app. split; [apply (shape_bytes ctx Hs)|by apply drop_bytes].
Qed.

Definition last_n (n : Z) (l : list Z) : list Z := drop (Z.to_nat (zlen l - n)) l.

Definition same_setup (ctx ctx' : crc_context) : Prop :=
  block_size ctx' = block_size ctx ∧ crcmask ctx' = crcmask ctx ∧ tail_size ctx' = tail_size ctx ∧ tail_crc ctx' = tail_crc ctx ∧
  num_crcs ctx' = num_crcs ctx ∧ crcs ctx' = crcs ctx.

Lemma shape_literal ctx n : shape ctx → shape (set_literal ctx n).
Proof. intros []. by constructor. Qed.
Lemma shape_counted ctx crc n t : shape ctx → shape (counted ctx crc n t).
Proof. intros []. by constructor. Qed.
Lemma shape_empty ctx : shape ctx → shape (set_buffer ctx (buffer ctx) 0 0).
Proof. intros Hs. destruct Hs as [Hbs ? ? ? ? ? ?]. constructor; try done. cbn in *. lia. Qed.

(** A call without a match keeps the last block of what it read. *)
Lemma keep_ok ctx buf : shape ctx → Forall is_byte buf → literal_bytes ctx = zlen (contents ctx ++ buf) → literal_bytes ctx < 2 ^ 63 →
  ∃ ctx', (let '(c, r) := old_literal ctx in c ← save_literal c buf; Ok (c, r)) = Ok (ctx', Z.max 0 (literal_bytes ctx - block_size ctx)) ∧
    shape ctx' ∧ same_setup ctx ctx' ∧ have_match ctx' = have_match ctx ∧ running_crc ctx' = running_crc ctx ∧
    contents ctx' = last_n (block_size ctx) (contents ctx ++ buf) ∧ literal_bytes ctx' = zlen (contents ctx').
Proof.
  intros Hs Hb Hl Hmax. destruct (shape_size ctx Hs) as [Hsz Hz]. assert (Hbs := shape_bs ctx Hs). assert (Hends := shape_ends ctx Hs).
  assert (Hbuf := shape_buffer ctx Hs). rewrite zlen_app in Hl. unfold old_literal, last_n. rewrite zlen_app, <- Hl.
  destruct (Z.ltb_spec (block_size ctx) (literal_bytes ctx)) as [Hlt|Hge].
  - set (r := literal_bytes ctx - block_size ctx) in *. change (buffer_size (set_literal ctx _)) with (buffer_size ctx). rewrite Hsz.
    replace (Z.max 0 r) with r by lia. destruct (Z.leb_spec (buffer_end ctx - buffer_start ctx) r) as [Hle|Hgt].
    + set (c2 := set_buffer (set_literal ctx (literal_bytes ctx - r)) (buffer ctx) 0 0).
      assert (Hnil : contents c2 = []) by done. assert (Hlit : literal_bytes c2 = block_size ctx) by (cbn; lia). assert (Hbs2 : block_size c2 = block_size ctx) by done.
      destruct (save_ok c2 buf) as (b & s & e & E & Hs' & Hc); [by apply (shape_empty (set_literal ctx _)), shape_literal|done|..].
      { rewrite Hnil, Hlit, Hbs2. change (zlen []) with 0. lia. } { rewrite Hnil, Hlit. change (zlen []) with 0. lia. }
      rewrite Hnil, Hlit in Hc. change (zlen []) with 0 in Hc. cbn [app] in Hc. rewrite Z.sub_0_r in Hc.
      change (set_buffer (set_literal ctx (literal_bytes ctx - r)) (buffer (set_literal ctx (literal_bytes ctx - r))) 0 0) with c2.
      rewrite E. cbn [mbind res_bind]. eexists. split; [done|]. split; [done|]. split_and!; [done..| |].
      * rewrite Hc. rewrite drop_app_ge by (unfold zlen in *; lia). f_equal. unfold zlen in *. lia.
      * rewrite Hc. change (literal_bytes (set_buffer c2 b s e)) with (literal_bytes c2). rewrite Hlit. unfold zlen in *. rewrite length_drop. lia.
    + set (c2 := set_buffer (set_literal ctx (literal_bytes ctx - r)) (buffer ctx) (buffer_start ctx + r) (buffer_end ctx)).
      assert (Hc2 : contents c2 = drop (Z.to_nat r) (contents ctx)).
      { subst c2. rewrite contents_set. unfold contents. rewrite skipn_firstn_comm, drop_drop. f_equal; [lia|]. f_equal. lia. }
      assert (Hzc2 : zlen (contents c2) = zlen (contents ctx) - r) by (rewrite Hc2; unfold zlen in *; rewrite length_drop; lia).
      assert (Hlit : literal_bytes c2 = block_size ctx) by (cbn; lia). assert (Hbs2 : block_size c2 = block_size ctx) by done.
      destruct (save_ok c2 buf) as (b & s & e & E & Hs' & Hc).
      { apply (shape_set (set_literal ctx (literal_bytes ctx - r))); [by apply shape_literal|done|lia|cbn; lia|].
        fold c2. rewrite Hc2. apply drop_bytes, (shape_bytes ctx Hs). }
      { done. } { rewrite Hzc2, Hlit, Hbs2. lia. } { rewrite Hzc2, Hlit. lia. }
      change (set_buffer (set_literal ctx (literal_bytes ctx - r)) (buffer (set_literal ctx (literal_bytes ctx - r))) (buffer_start (set_literal ctx (literal_bytes ctx - r)) + r) (buffer_end (set_literal ctx (literal_bytes ctx - r)))) with c2.
      rewrite E. cbn [mbind res_bind]. eexists. split; [done|]. split; [done|].
      assert (Hall : contents (set_buffer c2 b s e) = drop (Z.to_nat r) (contents ctx ++ buf)).
      { rewrite Hc, Hzc2, Hc2. rewrite drop_app_le by (unfold zlen in *; lia). f_equal. rewrite Hlit. by replace (zlen buf - (block_size ctx - (zlen (contents ctx) - r))) with 0 by lia. }
      split_and!; [done..|]. rewrite Hall. change (literal_bytes (set_buffer c2 b s e)) with (literal_bytes c2). rewrite Hlit. unfold zlen in *. rewrite length_drop, length_app. lia.
  - pose proof (zlen_nonneg buf). destruct (save_ok ctx buf Hs Hb ltac:(lia) ltac:(lia)) as (b & s & e & -> & Hs' & Hc). cbn [mbind res_bind]. exists (set_buffer ctx b s e).
    replace (zlen buf - (literal_bytes ctx - zlen (contents ctx))) with 0 in Hc by lia. rewrite drop_0 in Hc.
    replace (Z.max 0 (literal_bytes ctx - block_size ctx)) with 0 by lia. split; [done|]. split; [done|].
    replace (Z.to_nat (literal_bytes ctx - block_size ctx)) with 0%nat by lia. rewrite drop_0. split_and!; [done..|]. rewrite Hc, zlen_app. exact Hl.
Qed.

(** ** A call *)
Definition ctx_ok (ctx : crc_context) : Prop :=
  shape ctx ∧ ((have_match ctx = -1 ∧ literal_bytes ctx = zlen (contents ctx)) ∨
               (0 ≤ have_match ctx < num_crcs ctx ∧ literal_bytes ctx = block_size ctx)).

(** The bytes a result stands for. *)
Definition covered (ctx : crc_context) (result : Z) : Z :=
  if 0 <=? result then result else if - result - 1 =? num_crcs ctx then tail_size ctx else block_size ctx.

Lemma same_setup_refl ctx : same_setup ctx ctx.
Proof. done. Qed.

(** A match that is reported: the context is empty again. *)
Lemma take_match_ok ctx m : shape ctx → (m = num_crcs ctx ∧ literal_bytes ctx = tail_size ctx) ∨ (m ≠ num_crcs ctx ∧ literal_bytes ctx = block_size ctx) →
  ∃ ctx', take_match ctx m = Ok (ctx', - m - 1) ∧ ctx_ok ctx' ∧ same_setup ctx ctx' ∧ have_match ctx' = -1 ∧ contents ctx' = [] ∧ running_crc ctx' = 0 ∧
    literal_bytes ctx' = 0.
Proof.
  intros Hs Hm. unfold take_match, assert_.
  assert (E : (if m =? num_crcs ctx then (if literal_bytes ctx =? tail_size ctx then Ok () else Err EAssert)
               else (if literal_bytes ctx =? block_size ctx then Ok () else Err EAssert)) = Ok ()).
  { destruct (Z.eqb_spec m (num_crcs ctx)), Hm as [[? ->]|[? ->]]; try done; by rewrite Z.eqb_refl. }
  rewrite E. cbn [mbind res_bind]. eexists. split; [done|]. split_and!; [|done..].
  assert (Hs' : shape (set_buffer ctx (buffer ctx) 0 0)) by (by apply shape_empty). split; [destruct Hs'; by constructor|]. by left.
Qed.

Lemma read_block_ok ctx buf : ctx_ok ctx → Forall is_byte buf → zlen buf < 2 ^ 62 →
  ∃ ctx' consumed result, crc_read_block ctx buf = Ok (ctx', consumed, result) ∧ ctx_ok ctx' ∧ same_setup ctx ctx' ∧
    0 ≤ consumed ≤ zlen buf ∧ - num_crcs ctx - 1 ≤ result ∧
    literal_bytes ctx' + covered ctx result = literal_bytes ctx + consumed ∧
    (consumed = zlen buf ∨ result < 0 ∨ 0 ≤ have_match ctx').
Proof.
  intros [Hs Hst] Hb Hmax. pose proof (zlen_nonneg buf) as Hbuf0. destruct (shape_size ctx Hs) as [Hsz Hz]. assert (Hbs := shape_bs ctx Hs).
  assert (Hends := shape_ends ctx Hs). unfold crc_read_block.
  assert (Hcov : ∀ m, 0 ≤ m → covered ctx (- m - 1) = if m =? num_crcs ctx then tail_size ctx else block_size ctx).
  { intros m Hm. unfold covered. replace (0 <=? - m - 1) with false by lia. by replace (- (- m - 1) - 1) with m by lia. }
  destruct (Z.leb_spec 0 (have_match ctx)) as [Hm|Hm].
  - destruct Hst as [[? _]|[Hr Hl]]; [lia|]. destruct (take_match_ok ctx (have_match ctx) Hs) as (c' & -> & Hok & Hset & _ & _ & _ & Hl'); [right; lia|].
    cbn [mbind res_bind]. eexists _, _, _. split; [done|]. split_and!; [done|done|lia|lia|lia| |lia].
    rewrite Hcov by lia. replace (have_match ctx =? num_crcs ctx) with false by lia. lia.
  - destruct Hst as [[Hm1 Hl]|[Hr _]]; [|lia]. set (old := if block_size ctx <=? buffer_size ctx then InBuffer (buffer_start ctx) else Nowhere).
    assert (He : edge_ok ctx 0 old) by (subst old; rewrite Hsz; destruct (Z.leb_spec (block_size ctx) (buffer_end ctx - buffer_start ctx)); cbn; lia).
    destruct (read_loop_total (S (length buf)) ctx buf 0 old Hs Hb He) as (n & crc & total & e & -> & Hn & Hend); [lia|lia|lia|unfold zlen; lia|].
    cbn [mbind res_bind]. rewrite Z.sub_0_r in *. rewrite Z.add_0_l. set (c1 := counted ctx crc (literal_bytes ctx + n) total).
    assert (Hs1 : shape c1) by (by apply shape_counted). destruct e as [m|m]; cbn [ends_ok] in Hend.
    + destruct (Z.leb_spec 0 m) as [Hpos|Hneg].
      * destruct Hend as [?|[Hmr Hfull]]; [lia|]. change (block_size c1) with (block_size ctx). change (literal_bytes c1) with (literal_bytes ctx + n).
        destruct (Z.ltb_spec (block_size ctx) (literal_bytes ctx + n)) as [Hlt|Hge].
        -- cbn [mbind res_bind]. eexists _, _, _. split; [done|]. split_and!; [|done|lia|lia|lia| |cbn; lia].
           ++ split; [destruct Hs1; by constructor|]. right. done.
           ++ unfold covered. cbn [literal_bytes set_match set_literal]. replace (0 <=? literal_bytes ctx + n - block_size ctx) with true by lia. lia.
        -- destruct (take_match_ok c1 m Hs1) as (c' & -> & Hok & Hset & _ & _ & _ & Hl'); [right; cbn; lia|]. cbn [mbind res_bind].
           eexists _, _, _. split; [done|]. split_and!; [done|done|lia|lia|lia| |lia]. rewrite Hcov by lia. replace (m =? num_crcs ctx) with false by lia. lia.
      * destruct Hend as [[-> Hall]|?]; [|lia]. assert (n = zlen buf) as -> by lia.
        destruct (keep_ok c1 buf Hs1 Hb) as (c' & Ek & Hs' & Hset & Hm' & _ & Hc & Hl').
        { change (contents c1) with (contents ctx). rewrite zlen_app. change (literal_bytes c1) with (literal_bytes ctx + zlen buf). lia. }
        { change (literal_bytes c1) with (literal_bytes ctx + zlen buf). lia. }
        rewrite Ek. cbn [mbind res_bind]. change (literal_bytes c1) with (literal_bytes ctx + zlen buf) in *. change (block_size c1) with (block_size ctx) in *.
        change (contents c1) with (contents ctx) in *. eexists _, _, _. split; [done|]. split_and!; [|done|lia|lia| | |lia].
        -- split; [done|]. left. split; [by rewrite Hm'|done].
        -- assert (H0 := shape_crcs ctx Hs). pose proof (zlen_nonneg (crcs ctx)). lia.
        -- rewrite Hl', Hc. unfold last_n, covered. replace (0 <=? Z.max 0 (literal_bytes ctx + zlen buf - block_size ctx)) with true by lia.
           unfold zlen in *. rewrite length_drop, length_app. lia.
    + destruct Hend as [-> Htail]. destruct (take_match_ok c1 (num_crcs ctx) Hs1) as (c' & -> & Hok & Hset & _ & _ & _ & Hl'); [left; done|]. cbn [mbind res_bind].
      assert (H0 := shape_crcs ctx Hs). pose proof (zlen_nonneg (crcs ctx)).
      eexists _, _, _. split; [done|]. split_and!; [done|done|lia|lia|lia| |lia]. rewrite Hcov by lia. rewrite Z.eqb_refl. lia.
Qed.

Lemma read_flush_ok ctx : ctx_ok ctx → ∃ ctx' r, crc_read_flush ctx = Ok (ctx', r) ∧ ctx_ok ctx' ∧ same_setup ctx ctx' ∧
  have_match ctx' = -1 ∧ literal_bytes ctx' = 0 ∧ covered ctx r = literal_bytes ctx.
Proof.
  intros [Hs Hst]. destruct (shape_size ctx Hs) as [Hsz Hz]. assert (Hbs := shape_bs ctx Hs). assert (Hends := shape_ends ctx Hs). unfold crc_read_flush, assert_.
  destruct Hst as [[Hm Hl]|[Hm Hl]].
  - rewrite Hm, Hsz, Hl, Hz. cbn [Z.eqb negb]. rewrite Z.eqb_refl. cbn [mbind res_bind]. eexists _, _. split; [done|]. split_and!; [|done|done|done|].
    + assert (Hs' : shape (set_buffer ctx (buffer ctx) 0 0)) by (by apply shape_empty). split; [destruct Hs'; by constructor|]. left. done.
    + unfold covered. replace (0 <=? buffer_end ctx - buffer_start ctx) with true by lia. done.
  - replace (have_match ctx =? -1) with false by lia. cbn [negb]. rewrite Hl, Z.sub_diag. cbn [literal_bytes set_literal]. change (u64 0) with 0. cbn [Z.eqb mbind res_bind].
    eexists _, _. split; [done|]. split_and!; [|done|done|done|].
    + assert (Hs' : shape (set_buffer ctx (buffer ctx) (buffer_end ctx) (buffer_end ctx))).
      { apply shape_set; [done|apply (shape_buffer ctx Hs)|lia|lia|]. rewrite contents_set, Z.sub_diag. constructor. }
      split; [destruct Hs'; by constructor|]. left. split; [done|]. unfold contents. cbn. by rewrite Z.sub_diag.
    + unfold covered. replace (0 <=? - have_match ctx - 1) with false by lia. replace (- (- have_match ctx - 1) - 1 =? num_crcs ctx) with false by lia. done.
Qed.

(** ** The reference: checksums computed afresh *)
Section reference.
Context (ctx : crc_context).

(** The known block that the last bytes are, and the tail that all of them are. *)
Definition known (pend : list Z) : Z :=
  if zlen pend <? block_size ctx then -1 else find_crc (Z.land (crc_of (last_n (block_size ctx) pend)) (crcmask ctx)) 0 (crcs ctx).
Definition tail_here (pend : list Z) : bool :=
  (zlen pend =? tail_size ctx) && (Z.land (crc_of pend) (crcmask ctx) =? tail_crc ctx).

(** Byte by byte: all bytes read, those left, and why the scan stops. *)
Fixpoint scan (pend input : list Z) : list Z * list Z * loop_end :=
  if negb (known pend <? 0) then (pend, input, Ends (known pend)) else
  match input with
  | [] => (pend, [], Ends (known pend))
  | c :: rest =>
    if (zlen pend <? block_size ctx) && tail_here (pend ++ [c]) then (pend ++ [c], rest, Jumps (num_crcs ctx)) else scan (pend ++ [c]) rest
  end.
End reference.

Lemma last_n_small n l : zlen l ≤ n → last_n n l = l.
Proof. intros Hl. unfold last_n. replace (Z.to_nat (zlen l - n)) with 0%nat by lia. apply drop_0. Qed.

(** A full window moves by a byte. *)
Lemma last_n_roll n l c : 0 < n ≤ zlen l →
  ∃ o w, last_n n l = o :: w ∧ zlen (o :: w) = n ∧ last_n n (l ++ [c]) = w ++ [c] ∧ l !! Z.to_nat (zlen l - n) = Some o.
Proof.
  intros Hn. destruct (lookup_lt_is_Some_2 l (Z.to_nat (zlen l - n))) as [o Ho]; [unfold zlen in *; lia|].
  exists o, (drop (S (Z.to_nat (zlen l - n))) l). unfold last_n. rewrite (drop_S l o _ Ho). split_and!; [done| | |done].
  - unfold zlen in *. cbn [length]. rewrite length_drop. lia.
  - rewrite zlen_app. change (zlen [c]) with 1. replace (Z.to_nat (zlen l + 1 - n)) with (S (Z.to_nat (zlen l - n))) by (unfold zlen in *; lia).
    apply drop_app_le. unfold zlen in *. lia.
Qed.

(** ** Calls that keep the window *)
(** The pending bytes and the input of a call after which the window is still in step: nothing or
    a whole block is pending, or the input does not fill the block. *)
Definition in_step (ctx : crc_context) (buf : list Z) : Prop :=
  zlen (contents ctx) = 0 ∨ zlen (contents ctx) = block_size ctx ∨ zlen (contents ctx) + zlen buf ≤ block_size ctx.

Definition edge_at (ctx : crc_context) (buf : list Z) (consumed : Z) (old : edge) : Prop :=
  (0 < zlen (contents ctx) < block_size ctx ∧ zlen (contents ctx) + zlen buf ≤ block_size ctx ∧ old = Nowhere) ∨
  (zlen (contents ctx) = 0 ∧ old = if consumed <? block_size ctx then Nowhere else InInput (consumed - block_size ctx)) ∨
  (zlen (contents ctx) = block_size ctx ∧
   old = if consumed <? block_size ctx then InBuffer (buffer_start ctx + consumed) else InInput (consumed - block_size ctx)).

Lemma take_snoc (l : list Z) k c : 0 ≤ k → l !! Z.to_nat k = Some c → take (Z.to_nat (k + 1)) l = take (Z.to_nat k) l ++ [c].
Proof. intros Hk Hc. replace (Z.to_nat (k + 1)) with (S (Z.to_nat k)) by lia. by apply take_S_r. Qed.

(** A byte read in step. *)
Lemma read_byte_in_step ctx buf consumed old c (pend := contents ctx ++ take (Z.to_nat consumed) buf) :
  shape ctx → Forall is_byte buf → 0 ≤ consumed < zlen buf → buf !! Z.to_nat consumed = Some c → edge_at ctx buf consumed old →
  running_crc ctx = crc_of (last_n (block_size ctx) pend) →
  ∃ old', read_byte ctx buf consumed old =
      Ok (counted ctx (crc_of (last_n (block_size ctx) (pend ++ [c]))) (u64 (literal_bytes ctx + 1)) (u64 (total_bytes ctx + 1)), old') ∧
    edge_at ctx buf (consumed + 1) old' ∧ is_nowhere old = (zlen pend <? block_size ctx).
Proof.
  intros Hs Hb Hc Hbc He Hrun. assert (Hbs := shape_bs ctx Hs). assert (Hends := shape_ends ctx Hs). destruct (shape_size ctx Hs) as [_ Hz].
  assert (Hzp : zlen pend = zlen (contents ctx) + consumed) by (subst pend; unfold zlen in *; rewrite length_app, length_take; lia).
  unfold read_byte. destruct (input_at buf consumed Hb Hc) as (c' & -> & Hbyte & Hc'). cbn [mbind res_bind]. assert (c' = c) as -> by congruence.
  assert (Hnew : zlen pend < block_size ctx → crc_add_byte (running_crc ctx) c = Ok (crc_of (last_n (block_size ctx) (pend ++ [c])))).
  { intros Hlt. rewrite Hrun, !last_n_small by (rewrite ?zlen_app; change (zlen [c]) with 1; lia). by apply add_byte_ok. }
  assert (Hroll : ∀ o, block_size ctx ≤ zlen pend → pend !! Z.to_nat (zlen pend - block_size ctx) = Some o → is_byte o →
    crc_roll (running_crc ctx) o c (uncrc_tab ctx) = Ok (crc_of (last_n (block_size ctx) (pend ++ [c])))).
  { intros o Hge Ho Hbo. destruct (last_n_roll (block_size ctx) pend c ltac:(lia)) as (o' & w & E & Hlen & E' & Ho'). assert (o' = o) as -> by congruence.
    rewrite Hrun, E, E'. by apply (roll_ok (block_size ctx)); [apply (shape_tab ctx Hs)|..]. }
  assert (Hinput : ∀ k, 0 ≤ k < consumed → pend !! Z.to_nat (zlen (contents ctx) + k) = buf !! Z.to_nat k).
  { intros k Hk. subst pend. rewrite lookup_app_r by (unfold zlen; lia). rewrite lookup_take_lt by (unfold zlen; lia). f_equal. unfold zlen. lia. }
  destruct He as [(Hp & Hlen & ->)|[[Hp ->]|[Hp ->]]].
  - rewrite Hnew by lia. cbn [mbind res_bind]. eexists. split; [done|]. split; [|by replace (zlen pend <? block_size ctx) with true by lia].
    replace (consumed =? block_size ctx - 1) with false by lia. by left.
  - rewrite Hp, Z.add_0_l in Hzp. rewrite Hzp. destruct (Z.ltb_spec consumed (block_size ctx)).
    + rewrite Hnew by lia. cbn [mbind res_bind]. eexists. split; [done|]. split; [|done]. right; left. split; [done|].
      destruct (Z.eqb_spec consumed (block_size ctx - 1)) as [->|]; [|by replace (consumed + 1 <? block_size ctx) with true by lia].
      replace (block_size ctx - 1 + 1 <? block_size ctx) with false by lia. f_equal. lia.
    + destruct (input_at buf (consumed - block_size ctx) Hb) as (o & -> & Ho & Hbo); [lia|]. cbn [mbind res_bind].
      rewrite (Hroll o) by (done || lia || (rewrite Hzp, <- Hbo, <- (Hinput (consumed - block_size ctx)) by lia; f_equal; lia)).
      cbn [mbind res_bind]. eexists. split; [done|]. split; [|done]. right; left. split; [done|].
      replace (consumed + 1 <? block_size ctx) with false by lia. f_equal. lia.
  - rewrite Hp in Hzp. replace (zlen pend <? block_size ctx) with false by lia. destruct (Z.ltb_spec consumed (block_size ctx)).
    + destruct (contents_at ctx (buffer_start ctx + consumed) Hs) as (o & -> & Ho & Hbo); [lia|]. cbn [mbind res_bind].
      rewrite (Hroll o); [|lia| |done].
      2:{ subst pend. rewrite lookup_app_l by (unfold zlen in *; lia). rewrite <- Hbo. f_equal. lia. }
      cbn [mbind res_bind]. eexists. split; [done|]. split; [|done]. right; right. split; [done|].
      destruct (Z.eqb_spec (buffer_start ctx + consumed + 1) (buffer_end ctx)).
      * replace (consumed + 1 <? block_size ctx) with false by lia. f_equal. lia.
      * replace (consumed + 1 <? block_size ctx) with true by lia. f_equal. lia.
    + destruct (input_at buf (consumed - block_size ctx) Hb) as (o & -> & Ho & Hbo); [lia|]. cbn [mbind res_bind].
      rewrite (Hroll o); [|lia| |done].
      2:{ rewrite Hzp, <- Hbo, <- (Hinput (consumed - block_size ctx)) by lia. f_equal. lia. }
      cbn [mbind res_bind]. eexists. split; [done|]. split; [|done]. right; right. split; [done|].
      replace (consumed + 1 <? block_size ctx) with false by lia. f_equal. lia.
Qed.

Lemma read_loop_scan fuel : ∀ ctx buf consumed old pend' rest e (pend := contents ctx ++ take (Z.to_nat consumed) buf),
  shape ctx → Forall is_byte buf → 0 ≤ consumed ≤ zlen buf → edge_at ctx buf consumed old →
  running_crc ctx = crc_of (last_n (block_size ctx) pend) → literal_bytes ctx = zlen pend → zlen (contents ctx) + zlen buf < 2 ^ 63 →
  zlen buf - consumed < Z.of_nat fuel → scan ctx pend (drop (Z.to_nat consumed) buf) = (pend', rest, e) →
  ∃ total, read_loop fuel ctx buf consumed old = Ok (counted ctx (crc_of (last_n (block_size ctx) pend')) (zlen pend') total, zlen buf - zlen rest, e) ∧
    pend' ++ rest = contents ctx ++ buf.
Proof.
  induction fuel as [|fuel IH]; intros ctx buf consumed old pend' rest e pend Hs Hb Hc He Hrun Hlit Hmax Hf Hscan; [lia|]. cbn [read_loop].
  assert (Hm : (if literal_bytes ctx <? block_size ctx then -1 else crc_matches ctx) = known ctx pend).
  { unfold crc_matches, known. rewrite Hlit, Hrun. by destruct (zlen pend <? block_size ctx). }
  assert (Hall : pend ++ drop (Z.to_nat consumed) buf = contents ctx ++ buf) by (subst pend; by rewrite <- app_assoc, take_drop).
  assert (Hzd : zlen (drop (Z.to_nat consumed) buf) = zlen buf - consumed) by (unfold zlen in *; rewrite length_drop; lia).
  assert (Hsame : counted ctx (crc_of (last_n (block_size ctx) pend)) (zlen pend) (total_bytes ctx) = ctx) by (rewrite <- Hrun, <- Hlit; apply counted_same).
  rewrite Hm. destruct (drop (Z.to_nat consumed) buf) as [|c tl] eqn:Ed; cbn [scan] in Hscan.
  - assert (consumed = zlen buf) as -> by (change (zlen []) with 0 in Hzd; lia).
    exists (total_bytes ctx). destruct (known ctx pend <? 0); cbn [negb] in *; simplify_eq; rewrite Hsame; (split; [|done]); rewrite ?Z.eqb_refl; f_equal; f_equal; f_equal; change (zlen []) with 0; lia.
  - destruct (known ctx pend <? 0) eqn:Ek; cbn [negb] in *.
    2:{ injection Hscan as <- <- <-. exists (total_bytes ctx). rewrite Hsame. split; [|done]. f_equal. f_equal. f_equal. lia. }
    assert (Hcb : buf !! Z.to_nat consumed = Some c) by (rewrite <- (Nat.add_0_r (Z.to_nat consumed)), <- lookup_drop, Ed; done).
    assert (Hlt : consumed < zlen buf) by (unfold zlen in *; cbn [length] in Hzd; lia). replace (consumed =? zlen buf) with false by lia.
    destruct (read_byte_in_step ctx buf consumed old c Hs Hb ltac:(lia) Hcb He Hrun) as (old' & -> & He' & Hno). fold pend in Hno. cbn [mbind res_bind].
    set (c1 := counted ctx _ _ _). rewrite Hno.
    assert (Hlit1 : literal_bytes c1 = zlen (pend ++ [c])).
    { rewrite zlen_app. change (zlen [c]) with 1. subst c1. cbn. rewrite Hlit. unfold u64. apply Z.mod_small.
      assert (zlen pend ≤ zlen (contents ctx) + zlen buf) by (rewrite <- zlen_app, <- Hall, zlen_app; pose proof (zlen_nonneg (c :: tl)); lia). pose proof (zlen_nonneg pend). lia. }
    assert (Ht : (zlen pend <? block_size ctx) && tail_matches c1 = (zlen pend <? block_size ctx) && tail_here ctx (pend ++ [c])).
    { destruct (Z.ltb_spec (zlen pend) (block_size ctx)); [|done]. cbn [andb]. unfold tail_matches, tail_here. rewrite Hlit1.
      change (tail_size c1) with (tail_size ctx). destruct (zlen (pend ++ [c]) =? tail_size ctx); cbn [negb andb]; [|done].
      subst c1. cbn [running_crc crcmask tail_crc counted]. fold pend. by rewrite last_n_small by (rewrite zlen_app; change (zlen [c]) with 1; lia). }
    assert (Hpc : pend ++ [c] = contents ctx ++ take (Z.to_nat (consumed + 1)) buf) by (subst pend; by rewrite (take_snoc buf consumed c), app_assoc by (done || lia)).
    assert (Hdr : drop (Z.to_nat (consumed + 1)) buf = tl) by (replace (Z.to_nat (consumed + 1)) with (S (Z.to_nat consumed)) by lia; rewrite (drop_S buf c _ Hcb) in Ed; congruence).
    rewrite Ht. destruct ((zlen pend <? block_size ctx) && tail_here ctx (pend ++ [c])).
    + injection Hscan as <- <- <-. exists (u64 (total_bytes ctx + 1)). split; [|by rewrite <- app_assoc].
      f_equal. f_equal. f_equal; [|unfold zlen in *; cbn [length] in Hzd; lia]. unfold c1. unfold counted. f_equal. exact Hlit1.
    + destruct (IH c1 buf (consumed + 1) old' pend' rest e) as (total & E & Hpr); [by apply shape_counted|done|lia|exact He'| | |done|lia| |].
      { change (contents c1) with (contents ctx). rewrite <- Hpc. done. } { change (contents c1) with (contents ctx). by rewrite <- Hpc. }
      { change (contents c1) with (contents ctx). rewrite <- Hpc, Hdr. exact Hscan. }
      exists total. rewrite E. split; [done|exact Hpr].
Qed.

(** ** New contexts *)
Lemma new_ok `{Allocator} undef junk bs crcbits crc num tail c0 : 0 < bs < 2 ^ 32 → 0 ≤ tail →
  crc_context_new undef junk bs crcbits crc num tail = Ok (Some c0) →
  ctx_ok c0 ∧ have_match c0 = -1 ∧ contents c0 = [] ∧ running_crc c0 = 0 ∧ literal_bytes c0 = 0.
Proof.
  intros Hbs Htail E. unfold crc_context_new, assert_ in E. destruct (0 <? num); [|done]. cbn [mbind res_bind] in E.
  destruct (0 <? bs); [|done]. destruct (Z.ltb_spec tail bs) as [Htb|]; [|done]. cbn [mbind res_bind] in E. destruct (alloc_ok (u64 (2144 + 8 * num))); [|done]. cbn [negb] in E.
  destruct (if tail =? 0 then Ok (undef, num) else t ← aget crc (num - 1); Ok (t, num - 1)) as [[t n]|]; [|done]. cbn [mbind res_bind] in E.
  destruct (mask_of crcbits) as [mask|]; [|done]. cbn [mbind res_bind] in E. unfold bytes_at in E.
  destruct ((0 <=? 0) && (0 <=? n) && (0 + n <=? zlen crc)) eqn:En; [|done]. cbn [mbind res_bind] in E.
  destruct (uncrc_tab_ok bs ltac:(lia)) as (tab & Et & Htab). replace (u32 bs) with bs in E by (unfold u32; rewrite Z.mod_small; lia). rewrite Et in E. cbn [mbind res_bind] in E.
  destruct (alloc_ok bs); [|done]. cbn [negb] in E. injection E as <-. split_and!; [|done..]. split; [|by left].
  assert (Hn : 0 ≤ n ≤ zlen crc) by lia. constructor; cbn [block_size buffer buffer_start buffer_end uncrc_tab crcs num_crcs tail_size]; [done| |lia| |done| |lia].
  - unfold zlen. rewrite length_fmap, length_seqZ. lia.
  - by constructor.
  - unfold zlen in *. rewrite length_take, length_drop. cbn. lia.
Qed.

(** ** Properties *)

(** A run of calls: the context, the results and the bytes read. *)
Definition run_call (buf : list Z) (st : crc_context * list Z * Z) : res (crc_context * list Z * Z) :=
  let '(ctx, out, n) := st in
  '(ctx, consumed, result) ← crc_read_block ctx buf; Ok (ctx, out ++ [result], n + consumed).

Lemma covered_setup c c' r : same_setup c c' → covered c' r = covered c r.
Proof. intros (Hb & _ & Ht & _ & Hn & _). unfold covered. by rewrite Hb, Ht, Hn. Qed.

Lemma same_setup_trans c c' c'' : same_setup c c' → same_setup c' c'' → same_setup c c''.
Proof. unfold same_setup. intuition congruence. Qed.

Lemma run_calls_ok bufs : Forall (λ b, Forall is_byte b ∧ zlen b < 2 ^ 62) bufs → ∀ c out n, ctx_ok c →
  ∃ c' more m, mfold run_call bufs (c, out, n) = Ok (c', out ++ more, n + m) ∧ ctx_ok c' ∧ same_setup c c' ∧
    foldr Z.add 0 (covered c <$> more) + literal_bytes c' = literal_bytes c + m.
Proof.
  induction 1 as [|buf bufs [Hb Hz] _ IH]; intros c out n Hok; cbn [mfold].
  - exists c, [], 0. rewrite app_nil_r, Z.add_0_r. by split_and!; [..|cbn; lia].
  - cbn [run_call]. destruct (read_block_ok c buf Hok Hb Hz) as (c1 & k & r & -> & Hok1 & Hset & _ & _ & Hcov & _). cbn [mbind res_bind].
    destruct (IH c1 (out ++ [r]) (n + k) Hok1) as (c' & more & m & -> & Hok' & Hset' & Hsum). exists c', (r :: more), (k + m).
    rewrite <- app_assoc, Z.add_assoc. split_and!; [done|done|by eapply same_setup_trans|]. cbn [fmap list_fmap foldr].
    assert (Ef : covered c1 <$> more = covered c <$> more) by (apply list_fmap_ext; intros; by apply covered_setup). rewrite Ef in Hsum. change (list_fmap Z Z (covered c) more) with (covered c <$> more). lia.
Qed.

(** C28: scanning is safe and loses no byte.  Whatever buffers crc_read_block is given, from a context of
    crc_context_new on, it stays in its arrays and fails no assertion; the blocks, tails and
    literal lengths it reports and the bytes it still holds are together the bytes it has
    read, and crc_read_flush reports the rest. *)
Theorem crcsync_conserves `{Allocator} undef junk bs crcbits crc num tail c0 bufs : 0 < bs < 2 ^ 32 → 0 ≤ tail →
  crc_context_new undef junk bs crcbits crc num tail = Ok (Some c0) → Forall (λ b, Forall is_byte b ∧ zlen b < 2 ^ 62) bufs →
  ∃ c out n c' r, mfold run_call bufs (c0, [], 0) = Ok (c, out, n) ∧ crc_read_flush c = Ok (c', r) ∧
    foldr Z.add 0 (covered c0 <$> out) + covered c0 r = n.
Proof.
  intros Hbs Htail E Hb. destruct (new_ok undef junk bs crcbits crc num tail c0 Hbs Htail E) as (Hok & _ & _ & _ & Hl).
  destruct (run_calls_ok bufs Hb c0 [] 0 Hok) as (c & out & n & Er & Hc & Hset & Hsum). destruct (read_flush_ok c Hc) as (c' & r & Ef & _ & _ & _ & _ & Hcov).
  exists c, out, n, c', r. rewrite (covered_setup c0 c r Hset) in Hcov. split_and!; [exact Er|done|lia].
Qed.

(** Contexts reached by calls that keep the window in step. *)
Inductive reached (c0 : crc_context) : crc_context → Prop :=
  | reached_new : reached c0 c0
  | reached_call c buf c' n r : reached c0 c → Forall is_byte buf → zlen buf < 2 ^ 62 → 0 ≤ have_match c ∨ in_step c buf →
      crc_read_block c buf = Ok (c', n, r) → reached c0 c'.

(** What a call does by the reference. *)
Definition scanned (c : crc_context) (buf : list Z) (c' : crc_context) (n r : Z) : Prop :=
  let '(pend, rest, e) := scan c (contents c) buf in
  n = zlen buf - zlen rest ∧
  let found m := r = - m - 1 ∧ have_match c' = -1 ∧ contents c' = [] in
  match e with
  | Jumps m => found m
  | Ends m =>
    if 0 <=? m then if block_size c <? zlen pend then r = zlen pend - block_size c ∧ have_match c' = m else found m
    else r = Z.max 0 (zlen pend - block_size c) ∧ have_match c' = -1 ∧ contents c' = last_n (block_size c) pend
  end.

Definition window_ok (c : crc_context) : Prop := have_match c = -1 → running_crc c = crc_of (contents c).

Lemma call_scanned c buf : ctx_ok c → have_match c = -1 → window_ok c → in_step c buf → Forall is_byte buf → zlen buf < 2 ^ 62 →
  ∃ c' n r, crc_read_block c buf = Ok (c', n, r) ∧ ctx_ok c' ∧ window_ok c' ∧ scanned c buf c' n r.
Proof.
  intros [Hs Hst] Hm Hw Hstep Hb Hmax. destruct (shape_size c Hs) as [Hsz Hz]. assert (Hbs := shape_bs c Hs). assert (Hends := shape_ends c Hs).
  destruct Hst as [[_ Hl]|[? _]]; [|lia]. unfold crc_read_block, scanned. rewrite Hm. cbn [Z.leb Z.compare].
  destruct (scan c (contents c) buf) as [[pend rest] e] eqn:Hscan. pose proof (zlen_nonneg buf).
  set (old := if block_size c <=? buffer_size c then InBuffer (buffer_start c) else Nowhere).
  assert (He : edge_at c buf 0 old).
  { subst old. rewrite Hsz, <- Hz. unfold edge_at. replace (0 <? block_size c) with true by lia. rewrite Z.add_0_r.
    destruct Hstep as [H0|[H0|H0]], (Z.leb_spec (block_size c) (zlen (contents c))); try lia; [right; left; by split|right; right; by split|right; right; split; [lia|done]|].
    destruct (decide (zlen (contents c) = 0)); [right; left; by split|left; split_and!; [pose proof (zlen_nonneg (contents c)); lia|lia|done|done]]. }
  assert (Ht0 : contents c ++ take (Z.to_nat 0) buf = contents c) by (cbn; apply app_nil_r).
  destruct (read_loop_scan (S (length buf)) c buf 0 old pend rest e) as (total & -> & Hall); [done|done|lia|done|..].
  { rewrite Ht0, last_n_small by lia. by apply Hw. } { by rewrite Ht0. } { lia. } { unfold zlen; lia. } { by rewrite Ht0. }
  cbn [mbind res_bind]. set (c1 := counted c _ _ _). assert (Hs1 : shape c1) by (by apply shape_counted).
  assert (Hend : ends_ok c (zlen pend) (zlen rest) e).
  { destruct (read_loop_total (S (length buf)) c buf 0 old Hs Hb) as (k & crc & tot & e' & E1 & Hk & Hends1).
    { subst old. destruct (block_size c <=? buffer_size c) eqn:Eb; cbn; [|done]. apply Z.leb_le in Eb. lia. } { lia. } { lia. } { lia. } { unfold zlen; lia. }
    destruct (read_loop_scan (S (length buf)) c buf 0 old pend rest e) as (tot' & E2 & _); [done|done|lia|done|..].
    { rewrite Ht0, last_n_small by lia. by apply Hw. } { by rewrite Ht0. } { lia. } { unfold zlen; lia. } { by rewrite Ht0. }
    rewrite E1 in E2. injection E2 as _ Elit _ Ek ->. replace (literal_bytes c + k) with (zlen pend) in Hends1. by replace (zlen buf - 0 - k) with (zlen rest) in Hends1 by lia. }
  assert (Hempty : ∀ c', running_crc c' = 0 → contents c' = [] → window_ok c') by (intros c' Hr Hc' _; by rewrite Hr, Hc').
  destruct e as [m|m]; cbn [ends_ok] in Hend.
  - destruct (Z.leb_spec 0 m) as [Hpos|Hneg].
    + destruct Hend as [?|[Hmr Hfull]]; [lia|]. change (block_size c1) with (block_size c). change (literal_bytes c1) with (zlen pend).
      destruct (Z.ltb_spec (block_size c) (zlen pend)) as [Hlt|Hge].
      * cbn [mbind res_bind]. eexists _, _, _. split; [done|]. split_and!; [|cbn; intros ?; cbn in *; lia|done|done|done].
        split; [destruct Hs1; by constructor|]. by right.
      * destruct (take_match_ok c1 m Hs1) as (c' & -> & Hok & Hset & Hm' & Hc' & Hr' & _); [right; cbn; lia|]. cbn [mbind res_bind].
        eexists _, _, _. split; [done|]. split_and!; auto.
    + destruct Hend as [[-> Hrest]|?]; [|lia]. assert (rest = []) as -> by (destruct rest; [done|unfold zlen in Hrest; cbn in Hrest; lia]).
      rewrite app_nil_r in Hall. destruct (keep_ok c1 buf Hs1 Hb) as (c' & Ek & Hs' & Hset & Hm' & Hr' & Hc & Hl').
      { change (contents c1) with (contents c). by rewrite <- Hall. } { change (literal_bytes c1) with (zlen pend). rewrite Hall, zlen_app. lia. }
      change (contents c1) with (contents c) in Hc. rewrite <- Hall in Hc. change (block_size c1) with (block_size c) in *. change (literal_bytes c1) with (zlen pend) in *.
      rewrite Ek. cbn [mbind res_bind]. eexists _, _, _. split; [done|]. split_and!; [|intros _; rewrite Hr', Hc; done|done|done|by rewrite Hm'|done].
      split; [done|]. left. split; [by rewrite Hm'|done].
  - destruct Hend as [-> Htail]. destruct (take_match_ok c1 (num_crcs c) Hs1) as (c' & -> & Hok & Hset & Hm' & Hc' & Hr' & _); [by left|]. cbn [mbind res_bind].
    eexists _, _, _. split; [done|]. split_and!; auto.
Qed.

Lemma reached_ok c0 c : ctx_ok c0 → window_ok c0 → reached c0 c → ctx_ok c ∧ window_ok c.
Proof.
  intros Hok0 Hw0. induction 1 as [|c buf c' n r _ [Hok Hw] Hb Hz Hstep E]; [done|]. assert (Hok1 := Hok). destruct Hok1 as [Hs Hst].
  destruct (decide (have_match c = -1)) as [Hm|Hm].
  - destruct Hstep as [?|Hstep]; [lia|]. destruct (call_scanned c buf Hok Hm Hw Hstep Hb Hz) as (c1 & n1 & r1 & E1 & Hok' & Hw' & _).
    rewrite E in E1. by simplify_eq.
  - destruct Hst as [[? _]|[Hr Hl]]; [done|]. unfold crc_read_block in E. replace (0 <=? have_match c) with true in E by lia.
    destruct (take_match_ok c (have_match c) Hs) as (c1 & E1 & Hok' & _ & _ & Hc & Hr' & _); [right; lia|]. rewrite E1 in E. cbn [mbind res_bind] in E.
    simplify_eq. split; [done|]. intros _. by rewrite Hr', Hc.
Qed.

(** C27: the rolling checksum finds what checksums computed afresh would.  As long as every call gets its
    buffer with nothing or a whole block pending, or does not fill the pending block, a call
    of crc_read_block stops at the first byte where the last block_size bytes (or, before a
    block is full, all bytes, for the tail) have a known checksum, with the literal before it
    first, and otherwise keeps exactly the last block; a match put off is the next result. *)
Theorem crcsync_scans `{Allocator} undef junk bs crcbits crc num tail c0 c buf : 0 < bs < 2 ^ 32 → 0 ≤ tail →
  crc_context_new undef junk bs crcbits crc num tail = Ok (Some c0) → reached c0 c → Forall is_byte buf → zlen buf < 2 ^ 62 →
  (have_match c = -1 → in_step c buf → ∃ c' n r, crc_read_block c buf = Ok (c', n, r) ∧ scanned c buf c' n r) ∧
  (have_match c ≠ -1 → ∃ c', crc_read_block c buf = Ok (c', 0, - have_match c - 1) ∧ have_match c' = -1 ∧ contents c' = []).
Proof.
  intros Hbs Htail E Hr Hb Hz. destruct (new_ok undef junk bs crcbits crc num tail c0 Hbs Htail E) as (Hok0 & _ & Hc0 & Hr0 & _).
  destruct (reached_ok c0 c Hok0) as [Hok Hw]; [intros _; by rewrite Hr0, Hc0|done|]. split.
  - intros Hm Hstep. destruct (call_scanned c buf Hok Hm Hw Hstep Hb Hz) as (c' & n & r & E' & _ & _ & Hsc). by exists c', n, r.
  - intros Hm. destruct Hok as [Hs [[? _]|[Hrange Hl]]]; [done|]. unfold crc_read_block. replace (0 <=? have_match c) with true by lia.
    destruct (take_match_ok c (have_match c) Hs) as (c1 & -> & _ & _ & Hm' & Hc & _); [right; lia|]. cbn [mbind res_bind]. by exists c1.
Qed.

(** ** Examples *)
(** A context that knows the block "abcd". *)
Definition abcd : list Z := [97; 98; 99; 100].
Definition demo_context : crc_context :=
  match @crc_context_new (λ _, true) 0 (λ _, 7) 4 64 [crc_of abcd] 1 0 with
  | Ok (Some c) => c
  | _ => CrcContext 0 0 [] 0 0 0 0 0 0 0 0 [] 0 []
  end.

Lemma crcsync_conserves_witness :
  let bufs := [[120]; [121; 97; 98; 99; 100; 101; 102]] in
  ∃ c out n c' r, mfold run_call bufs (demo_context, [], 0) = Ok (c, out, n) ∧ crc_read_flush c = Ok (c', r) ∧
    foldr Z.add 0 (covered demo_context <$> out) + covered demo_context r = n.
Proof.
  apply (@crcsync_conserves (λ _, true) 0 (λ _, 7) 4 64 [crc_of abcd] 1 0 demo_context); [lia|lia|vm_compute; reflexivity|].
  repeat constructor; vm_compute; congruence.
Defined.

Lemma crcsync_scans_witness :
  let buf := [120; 121; 97; 98; 99; 100; 101] in
  (have_match demo_context = -1 → in_step demo_context buf →
     ∃ c' n r, crc_read_block demo_context buf = Ok (c', n, r) ∧ scanned demo_context buf c' n r) ∧
  (have_match demo_context ≠ -1 → ∃ c', crc_read_block demo_context buf = Ok (c', 0, - have_match demo_context - 1) ∧ have_match c' = -1 ∧ contents c' = []).
Proof.
  cbv zeta. apply (@crcsync_scans (λ _, true) 0 (λ _, 7) 4 64 [crc_of abcd] 1 0 demo_context); [lia|lia|vm_compute; reflexivity|apply reached_new| |vm_compute; reflexivity].
  repeat constructor; vm_compute; congruence.
Defined.

(** The results of calls on buffers, each buffer to its end, and of the flush. *)
Fixpoint feed (fuel : nat) (ctx : crc_context) (bufs : list (list Z)) : res (list Z) :=
  match fuel with
  | O => Err EFuel
  | S fuel =>
    match bufs with
    | [] => '(_, r) ← crc_read_flush ctx; Ok [r]
    | buf :: bufs =>
      '(ctx, n, r) ← crc_read_block ctx buf;
      let rest := drop (Z.to_nat n) buf in
      out ← feed fuel ctx (if (zlen rest =? 0) && (have_match ctx =? -1) then bufs else rest :: bufs);
      Ok (r :: out)
    end
  end.

(** The block is found behind two other bytes when they come in one buffer or byte by byte, but not when
    the first byte comes alone and the rest together: the window is then not in step, because
    the trailing edge is only looked for in the new buffer. *)
Theorem block_missed :
  feed 20 demo_context [[120; 121; 97; 98; 99; 100]] = Ok [2; -1; 0] ∧
  feed 20 demo_context [[120]; [121]; [97]; [98]; [99]; [100]] = Ok [0; 0; 0; 0; 1; 1; -1; 0] ∧
  feed 20 demo_context [[120]; [121; 97; 98; 99; 100]] = Ok [0; 2; 4].
Proof. vm_compute. done. Qed.

(** A flush of literal bytes leaves their checksum: the block that follows is not found. *)
Theorem flush_keeps_checksum :
  ('(c, _, _) ← crc_read_block demo_context [120; 121];
   '(c, r) ← crc_read_flush c;
   '(_, _, r') ← crc_read_block c abcd; Ok (r, r')) = Ok (2, 0).
Proof. vm_compute. reflexivity. Qed.
