(* ===== verification/Strmap.v ===== *)
(** * Maps from strings (ccan/strmap)

    A crit-bit tree over the bytes of strings, the older sibling of ccan/intmap: a node has the
    byte and the bit where its members differ first.  A string is the list of its bytes before
    the null.  A [struct strmap] whose [u] is null is empty whatever its [v] is. *)
From S2P Require Import Prelude.
From S2P Require Import Rule.
From S2P Require Import CString.
From S2P Require Import Ilog.
From S2P Require Import Intmap.
From stdpp Require Import gmap.
#[local] Open Scope Z_scope.

Inductive strmap :=
  | SEmpty
  | SMember (s : list Z) (v : Z)
  | SNode (byte_num bit_num : Z) (child0 child1 : strmap).

Definition strmap_init_ : strmap := SEmpty.
Definition strmap_empty_ (map : strmap) : bool := match map with SEmpty => true | _ => false end.

(** The direction at a node: 0 when the string is too short. *)
Definition str_direction (member : list Z) (byte_num bit_num : Z) : bool :=
  if byte_num <? zlen member then direction (default 0 (member !! Z.to_nat byte_num)) bit_num else false.

Fixpoint str_closest (n : strmap) (member : list Z) : res (list Z * Z) :=
  match n with
  | SEmpty => Err ENull
  | SMember s v => Ok (s, v)
  | SNode byte bit c0 c1 => if str_direction member byte bit then str_closest c1 member else str_closest c0 member
  end.

Definition strmap_get_ (map : strmap) (member : list Z) : res (Z + errno) :=
  if strmap_empty_ map then Ok (inr ENOENT) else
  '(s, v) ← str_closest map member;
  Ok (if str_eqb member s then inl v else inr ENOENT).

(** The loop of [strmap_add_] to the first byte that differs, or to the end of equal strings. *)
Fixpoint first_diff (fuel : nat) (s member : list Z) (byte_num : nat) : res (option nat) :=
  match fuel with
  | O => Err EFuel
  | S fuel =>
    c ← char_at s byte_num;
    d ← char_at member byte_num;
    if c =? d then if d =? 0 then Ok None else first_diff fuel s member (S byte_num) else Ok (Some byte_num)
  end.

(** The second descent of [strmap_add_]. *)
Fixpoint str_add_at (n : strmap) (member : list Z) (value byte_num bit_num : Z) (new_dir : bool) : strmap :=
  let here := if new_dir then SNode byte_num bit_num n (SMember member value) else SNode byte_num bit_num (SMember member value) n in
  match n with
  | SNode byte bit c0 c1 =>
    if byte_num <? byte then here else
    if (byte =? byte_num) && (bit <? bit_num) then here else
    if str_direction member byte bit then SNode byte bit c0 (str_add_at c1 member value byte_num bit_num new_dir)
    else SNode byte bit (str_add_at c0 member value byte_num bit_num new_dir) c1
  | _ => here
  end.

Definition sizeof_str_node : Z := 48.

Definition strmap_add_ `{Allocator} (undef : Z) (map : strmap) (member : list Z) (value : Z) : res (strmap * (unit + errno)) :=
  _ ← assert_ (negb (value =? 0));
  if strmap_empty_ map then Ok (SMember member value, inl ()) else
  '(s, _) ← str_closest map member;
  d ← first_diff (S (length member)) s member 0;
  match d with
  | None => Ok (map, inr EEXIST)
  | Some k =>
    a ← char_at s k;
    b ← char_at member k;
    let bit_num := u8 (builtin_ilog32_nz undef (Z.lxor a b) - 1) in
    _ ← assert_ (bit_num <? 8);
    if negb (alloc_ok sizeof_str_node) then Ok (map, inr ENOMEM) else
    Ok (str_add_at map member value (Z.of_nat k) bit_num (direction b bit_num), inl ())
  end.

(** The descent of [strmap_del_]: what is left below, the string of the map and its value. *)
Fixpoint str_del_below (n : strmap) (member : list Z) : res (option (strmap * (list Z * Z))) :=
  match n with
  | SEmpty => Err ENull
  | SMember s v => Ok (if str_eqb member s then Some (SEmpty, (s, v)) else None)
  | SNode byte bit c0 c1 =>
    let d := str_direction member byte bit in
    r ← (if d then str_del_below c1 member else str_del_below c0 member);
    Ok (match r with
        | None => None
        | Some (rest, sv) =>
          Some (match (if d then c1 else c0) with
                | SNode _ _ _ _ => if d then SNode byte bit c0 rest else SNode byte bit rest c1
                | _ => if d then c0 else c1
                end, sv)
        end)
  end.

Definition strmap_del_ (map : strmap) (member : list Z) : res (strmap * (list Z * Z + errno)) :=
  if strmap_empty_ map then Ok (map, inr ENOENT) else
  r ← str_del_below map member;
  Ok (match r with Some (rest, sv) => (rest, inl sv) | None => (map, inr ENOENT) end).

(** [iterate], with the state that the handler works on. *)
Fixpoint iterate {D} (n : strmap) (handle : list Z → Z → D → bool * D) (data : D) : res (bool * D) :=
  match n with
  | SEmpty => Err ENull
  | SMember s v => Ok (handle s v data)
  | SNode _ _ c0 c1 =>
    '(go, data) ← iterate c0 handle data;
    if (go : bool) then iterate c1 handle data else Ok (false, data)
  end.
Definition strmap_iterate_ {D} (map : strmap) (handle : list Z → Z → D → bool * D) (data : D) : res D :=
  if strmap_empty_ map then Ok data else '(_, data) ← iterate map handle data; Ok data.

(** The walk of [strmap_prefix_]: the member reached and the top. *)
Fixpoint prefix_walk (n top : strmap) (prefix : list Z) : res (list Z * strmap) :=
  match n with
  | SEmpty => Err ENull
  | SMember s _ => Ok (s, top)
  | SNode byte bit c0 c1 =>
    let c := if byte <? zlen prefix then default 0 (prefix !! Z.to_nat byte) else 0 in
    if direction c bit then prefix_walk c1 (if negb (c =? 0) then c1 else top) prefix
    else prefix_walk c0 (if negb (c =? 0) then c0 else top) prefix
  end.
Definition strmap_prefix_ (map : strmap) (prefix : list Z) : res strmap :=
  if strmap_empty_ map then Ok map else
  '(s, top) ← prefix_walk map map prefix;
  Ok (if strncmp_eq s prefix (length prefix) then top else SEmpty).

Definition strmap_clear_ (map : strmap) : strmap := SEmpty.

(** ** Strings by their bits *)
(** The bytes of a string, with the null and nothing behind it. *)
Definition chr (s : list Z) (k : Z) : Z := default 0 (s !! Z.to_nat k).
Definition is_str (s : list Z) : Prop := Forall (λ c, 0 < c < 256) s.

(** Bit [p] of a string: the most significant bit of the first byte first. *)
Definition sbit (s : list Z) (p : Z) : bool := Z.testbit (chr s (p / 8)) (7 - p mod 8).
(** The place of a node. *)
Definition place (byte bit : Z) : Z := 8 * byte + (7 - bit).

Definition agree_below (p : Z) (s t : list Z) : Prop := ∀ q, 0 ≤ q < p → sbit s q = sbit t q.
(** The order of [strcmp]. *)
Definition str_lt (s t : list Z) : Prop := ∃ k, 0 ≤ k ∧ (∀ j, 0 ≤ j < k → chr s j = chr t j) ∧ chr s k < chr t k.

Ltac sdivs := Z.to_euclidean_division_equations; lia.

Lemma chr_range s k : is_str s → 0 ≤ k → 0 ≤ chr s k < 256 ∧ (chr s k = 0 ↔ zlen s ≤ k).
Proof.
  intros Hs Hk. unfold chr. destruct (s !! Z.to_nat k) as [c|] eqn:E; cbn.
  - assert (Hc : 0 < c < 256) by (by apply (Forall_lookup_1 _ _ _ _ Hs E)). apply lookup_lt_Some in E. unfold zlen. lia.
  - apply lookup_ge_None in E. unfold zlen. lia.
Qed.

Lemma byte_high c b : 0 ≤ c < 256 → 8 ≤ b → Z.testbit c b = false.
Proof.
  intros Hc Hb. destruct (decide (c = 0)) as [->|]; [apply Z.bits_0|]. apply Z.bits_above_log2; [lia|].
  apply (Z.lt_le_trans _ 8); [apply Z.log2_lt_pow2; lia|done].
Qed.

Lemma sbit_place s byte bit : 0 ≤ byte → 0 ≤ bit < 8 → sbit s (place byte bit) = Z.testbit (chr s byte) bit.
Proof. intros Hk Hb. unfold sbit, place. f_equal; [f_equal; sdivs|sdivs]. Qed.

Lemma str_direction_sbit s byte bit : is_str s → 0 ≤ byte → 0 ≤ bit < 8 → str_direction s byte bit = sbit s (place byte bit).
Proof.
  intros Hs Hk Hb. rewrite sbit_place by done. unfold str_direction. destruct (chr_range s byte Hs Hk) as [_ Hz]. destruct (Z.ltb_spec byte (zlen s)).
  - by rewrite direction_testbit by lia.
  - by rewrite (proj2 Hz), Z.bits_0 by done.
Qed.

(** Bytes are equal where their bits are. *)
Lemma chr_agree s t p k : is_str s → is_str t → 0 ≤ k → 8 * k + 8 ≤ p → agree_below p s t → chr s k = chr t k.
Proof.
  intros Hs Ht Hk Hp Ha. apply Z.bits_inj'. intros b Hb. destruct (decide (b < 8)).
  - rewrite <- !sbit_place by lia. apply Ha. unfold place. lia.
  - rewrite !byte_high; [done| |lia| |lia]; by apply chr_range.
Qed.

Lemma sbit_lt s t p : is_str s → is_str t → 0 ≤ p → agree_below p s t → sbit s p = false → sbit t p = true → str_lt s t.
Proof.
  intros Hs Ht Hp Ha H0 H1. exists (p / 8). split; [sdivs|]. split.
  - intros j Hj. apply (chr_agree s t p); try done; [lia|sdivs].
  - apply (bits_lt (7 - p mod 8)); [sdivs| |done|done]. intros b Hb. destruct (decide (b < 8)).
    + rewrite <- !sbit_place by sdivs. apply Ha. unfold place. sdivs.
    + rewrite !byte_high; [done| |lia| |lia]; apply chr_range; first [done|sdivs].
Qed.

Lemma str_lt_irrefl s : ¬ str_lt s s.
Proof. intros (k & _ & _ & Hlt). lia. Qed.

Lemma str_lt_trans s t u : str_lt s t → str_lt t u → str_lt s u.
Proof.
  intros (k & Hk & Ha & Hlt) (k' & Hk' & Ha' & Hlt'). exists (Z.min k k'). split; [lia|]. split.
  - intros j Hj. rewrite Ha by lia. apply Ha'. lia.
  - destruct (Z.lt_trichotomy k k') as [?|[->|?]].
    + rewrite Z.min_l by lia. rewrite <- (Ha' k) by lia. done.
    + rewrite Z.min_id. lia.
    + rewrite Z.min_r by lia. rewrite (Ha k') by lia. done.
Qed.

(** ** Trees *)
Fixpoint smembers (n : strmap) : list (list Z * Z) :=
  match n with SEmpty => [] | SMember s v => [(s, v)] | SNode _ _ c0 c1 => smembers c0 ++ smembers c1 end.

Fixpoint sgood (n : strmap) : Prop :=
  match n with
  | SEmpty => False
  | SMember s v => is_str s ∧ v ≠ 0
  | SNode byte bit c0 c1 => sgood c0 ∧ sgood c1 ∧ (0 ≤ byte ∧ 0 ≤ bit < 8) ∧
      (∀ s v, (s, v) ∈ smembers c0 → sbit s (place byte bit) = false) ∧ (∀ s v, (s, v) ∈ smembers c1 → sbit s (place byte bit) = true) ∧
      (∀ s v t w, (s, v) ∈ smembers c0 ++ smembers c1 → (t, w) ∈ smembers c0 ++ smembers c1 → agree_below (place byte bit) s t)
  end.

Lemma sgood_node byte bit c0 c1 : sgood c0 → sgood c1 → 0 ≤ byte ∧ 0 ≤ bit < 8 →
  (∀ s v, (s, v) ∈ smembers c0 → sbit s (place byte bit) = false) → (∀ s v, (s, v) ∈ smembers c1 → sbit s (place byte bit) = true) →
  (∀ s v t w, (s, v) ∈ smembers c0 ++ smembers c1 → (t, w) ∈ smembers c0 ++ smembers c1 → agree_below (place byte bit) s t) →
  sgood (SNode byte bit c0 c1).
Proof. done. Qed.

Lemma sgood_member n s v : sgood n → (s, v) ∈ smembers n → is_str s ∧ v ≠ 0.
Proof.
  induction n as [|t w|byte bit c0 IH0 c1 IH1]; cbn [sgood smembers]; [done|by intros Hg ?%list_elem_of_singleton; simplify_eq|].
  intros (H0 & H1 & _) [Hi|Hi]%elem_of_app; auto.
Qed.

Lemma schildren_lt byte bit c0 c1 s v t w : sgood (SNode byte bit c0 c1) → (s, v) ∈ smembers c0 → (t, w) ∈ smembers c1 → str_lt s t.
Proof.
  intros (H0 & H1 & Hb & Hc0 & Hc1 & Hs) Hi Hj. apply (sbit_lt s t (place byte bit));
    [by eapply sgood_member in Hi as [? _]|by eapply sgood_member in Hj as [? _]|unfold place; lia| |by eapply Hc0|by eapply Hc1].
  eapply Hs; apply elem_of_app; [left|right]; done.
Qed.

Lemma str_closest_ok n m : sgood n → is_str m → ∃ p, str_closest n m = Ok p ∧ p ∈ smembers n ∧ ∀ v, (m, v) ∈ smembers n → p = (m, v).
Proof.
  intros Hg Hm. induction n as [|t w|byte bit c0 IH0 c1 IH1]; cbn [sgood smembers str_closest] in *; [done| |].
  - exists (t, w). split_and!; [done|by constructor|]. by intros v ->%list_elem_of_singleton.
  - destruct Hg as (H0 & H1 & [Hk Hb] & Hc0 & Hc1 & _). rewrite str_direction_sbit by done.
    destruct (sbit m (place byte bit)) eqn:E; [destruct (IH1 H1) as (p & -> & Hp & Hu)|destruct (IH0 H0) as (p & -> & Hp & Hu)];
      exists p; (split_and!; [done|apply elem_of_app; auto|]); intros v [Hv|Hv]%elem_of_app; try (by apply Hu).
    + apply Hc0 in Hv. congruence.
    + apply Hc1 in Hv. congruence.
Qed.

(** ** Insertion *)
Lemma agree_extend p s v (l : list (list Z * Z)) : (∀ t w, (t, w) ∈ l → agree_below p t s) →
  ∀ t w t' w', (t, w) = (s, v) ∨ (t, w) ∈ l → (t', w') = (s, v) ∨ (t', w') ∈ l → agree_below p t t'.
Proof.
  intros Hl t w t' w' Ht Ht'. assert (Hto : ∀ x y, (x, y) = (s, v) ∨ (x, y) ∈ l → agree_below p x s).
  { intros x y [[= -> ->]|Hx]; [by intros k|by apply (Hl x y)]. }
  intros k Hk. rewrite (Hto t w Ht k Hk). symmetry. by apply (Hto t' w' Ht').
Qed.

Lemma shere_ok n s v byte bit : sgood n → is_str s → v ≠ 0 → 0 ≤ byte → 0 ≤ bit < 8 →
  (∀ t w, (t, w) ∈ smembers n → agree_below (place byte bit) t s ∧ sbit t (place byte bit) ≠ sbit s (place byte bit)) →
  let here := if sbit s (place byte bit) then SNode byte bit n (SMember s v) else SNode byte bit (SMember s v) n in
  sgood here ∧ ∀ p, p ∈ smembers here ↔ p = (s, v) ∨ p ∈ smembers n.
Proof.
  intros Hg Hs Hv Hk Hb Hd here. subst here.
  assert (Ha := agree_extend (place byte bit) s v (smembers n) (λ t w Ht, proj1 (Hd t w Ht))).
  assert (Hm : ∀ t w, (t, w) ∈ smembers (SMember s v) → sbit t (place byte bit) = sbit s (place byte bit)) by (by intros t w [= -> ->]%list_elem_of_singleton).
  assert (Hn : ∀ t w, (t, w) ∈ smembers n → sbit t (place byte bit) = negb (sbit s (place byte bit))).
  { intros t w Ht. apply Hd in Ht as [_ Ht]. by destruct (sbit t (place byte bit)), (sbit s (place byte bit)). }
  destruct (sbit s (place byte bit)); (split; [apply sgood_node; try done|cbn [smembers]; set_solver]);
    intros t w t' w' Ht Ht'; apply (Ha t w t' w'); cbn [smembers] in *; set_solver.
Qed.

Lemma place_lt byte bit byte' bit' : 0 ≤ bit < 8 → 0 ≤ bit' < 8 →
  (byte <? byte') || ((byte' =? byte) && (bit' <? bit)) = (place byte bit <? place byte' bit').
Proof.
  intros Hb Hb'. unfold place. destruct (Z.ltb_spec byte byte'), (Z.eqb_spec byte' byte), (Z.ltb_spec bit' bit),
    (Z.ltb_spec (8 * byte + (7 - bit)) (8 * byte' + (7 - bit'))); cbn [orb andb]; done || lia.
Qed.

Lemma place_inj byte bit byte' bit' : 0 ≤ bit < 8 → 0 ≤ bit' < 8 → place byte bit = place byte' bit' → byte = byte' ∧ bit = bit'.
Proof. unfold place. intros. lia. Qed.

Lemma str_add_at_ok n s v byte bit c w : sgood n → is_str s → str_closest n s = Ok (c, w) → 0 ≤ byte → 0 ≤ bit < 8 →
  agree_below (place byte bit) c s → sbit c (place byte bit) ≠ sbit s (place byte bit) → v ≠ 0 →
  let n' := str_add_at n s v byte bit (sbit s (place byte bit)) in
  sgood n' ∧ ∀ p, p ∈ smembers n' ↔ p = (s, v) ∨ p ∈ smembers n.
Proof.
  intros Hg Hs Hc Hk Hb Ha Hd Hv. induction n as [|t u|byte' bit' c0 IH0 c1 IH1]; cbn [str_closest str_add_at] in *; [done| |].
  - simplify_eq. apply shere_ok; try done. by intros t w' [= -> ->]%list_elem_of_singleton.
  - destruct (str_closest_ok (SNode byte' bit' c0 c1) s Hg Hs) as (m & Hm & Hin & _). cbn [str_closest smembers] in *. rewrite Hc in Hm. injection Hm as <-.
    assert (Hg' := Hg). destruct Hg' as (H0 & H1 & [Hk' Hb'] & Hc0 & Hc1 & Hall). rewrite str_direction_sbit in * by done.
    assert (Hpl := place_lt byte bit byte' bit' Hb Hb').
    assert (Hhere : place byte bit < place byte' bit' →
      let here := if sbit s (place byte bit) then SNode byte bit (SNode byte' bit' c0 c1) (SMember s v) else SNode byte bit (SMember s v) (SNode byte' bit' c0 c1) in
      sgood here ∧ ∀ p, p ∈ smembers here ↔ p = (s, v) ∨ p ∈ smembers c0 ++ smembers c1).
    { intros Hlt. apply (shere_ok (SNode byte' bit' c0 c1)); try done. intros t u Ht. specialize (Hall t u c w Ht Hin). split.
      - intros k Hkk. rewrite (Hall k) by lia. by apply Ha.
      - rewrite (Hall (place byte bit)) by (unfold place in *; lia). done. }
    destruct (Z.ltb_spec byte byte'); cbn [orb] in Hpl; [apply Hhere; lia|]. destruct ((byte' =? byte) && (bit' <? bit)); [apply Hhere; lia|].
    assert (Hge : place byte' bit' ≤ place byte bit) by lia.
    assert (Hneq : place byte' bit' ≠ place byte bit).
    { intros E. destruct (sbit s (place byte' bit')) eqn:Es; [destruct (str_closest_ok c1 s H1 Hs) as (m & E1 & Hm & _)|destruct (str_closest_ok c0 s H0 Hs) as (m & E1 & Hm & _)];
        rewrite Hc in E1; injection E1 as <-; [apply Hc1 in Hm|apply Hc0 in Hm]; congruence. }
    assert (Hsame := agree_extend (place byte' bit') s v (smembers c0 ++ smembers c1)
      (λ t u Ht k Hkk, eq_trans (Hall t u c w Ht Hin k Hkk) (Ha k ltac:(lia)))).
    destruct (sbit s (place byte' bit')) eqn:E; [destruct (IH1 H1 Hc) as [Hg1 Hm1]|destruct (IH0 H0 Hc) as [Hg0 Hm0]].
    + set (c1' := str_add_at c1 _ _ _ _ _) in *.
      assert (Hto : ∀ p, p ∈ smembers c0 ++ smembers c1' ↔ p = (s, v) ∨ p ∈ smembers c0 ++ smembers c1) by (intros p; rewrite !elem_of_app, Hm1; tauto).
      split; [apply sgood_node; try done|exact Hto].
      * intros t u [[= -> ->]|Ht]%Hm1; [done|by eapply Hc1].
      * intros t u t' u' Ht%Hto Ht'%Hto. by apply (Hsame t u t' u').
    + set (c0' := str_add_at c0 _ _ _ _ _) in *.
      assert (Hto : ∀ p, p ∈ smembers c0' ++ smembers c1 ↔ p = (s, v) ∨ p ∈ smembers c0 ++ smembers c1) by (intros p; rewrite !elem_of_app, Hm0; tauto).
      split; [apply sgood_node; try done|exact Hto].
      * intros t u [[= -> ->]|Ht]%Hm0; [done|by eapply Hc0].
      * intros t u t' u' Ht%Hto Ht'%Hto. by apply (Hsame t u t' u').
Qed.

(** ** Deletion *)
Definition sleft_over (n rest : strmap) : Prop := match n with SMember _ _ => rest = SEmpty | _ => sgood rest end.

Lemma sgood_shrink byte bit c0 c1 d0 d1 : sgood (SNode byte bit c0 c1) → sgood d0 → sgood d1 →
  (∀ p, p ∈ smembers d0 → p ∈ smembers c0) → (∀ p, p ∈ smembers d1 → p ∈ smembers c1) → sgood (SNode byte bit d0 d1).
Proof.
  intros (_ & _ & Hb & Hc0 & Hc1 & Hs) H0 H1 Hs0 Hs1. apply sgood_node; try done.
  - intros i v Hi. eapply Hc0, Hs0, Hi.
  - intros i v Hi. eapply Hc1, Hs1, Hi.
  - intros i v j w Hi Hj. apply (Hs i v j w); set_solver.
Qed.

Lemma str_del_below_ok n m : sgood n → is_str m → ∃ r, str_del_below n m = Ok r ∧
  match r with
  | None => ∀ v, (m, v) ∉ smembers n
  | Some (rest, (s, v)) => s = m ∧ (m, v) ∈ smembers n ∧ sleft_over n rest ∧ ∀ p, p ∈ smembers rest ↔ p ∈ smembers n ∧ p.1 ≠ m
  end.
Proof.
  intros Hg Hm. induction n as [|t u|byte bit c0 IH0 c1 IH1]; cbn [str_del_below]; [done| |].
  - eexists. split; [done|]. unfold str_eqb. case_bool_decide as E; cbn [smembers].
    + subst t. split_and!; [done|by constructor|done|]. intros p. split; [set_solver|]. by intros [->%list_elem_of_singleton Hp].
    + by intros v [= -> ->]%list_elem_of_singleton.
  - assert (Hg' := Hg). destruct Hg' as (H0 & H1 & [Hk Hb] & Hc0 & Hc1 & Hs). rewrite str_direction_sbit by done.
    assert (Hne0 : sbit m (place byte bit) = true → ∀ p, p ∈ smembers c0 → p.1 ≠ m) by (intros E [j u] Hj%Hc0; cbn; congruence).
    assert (Hne1 : sbit m (place byte bit) = false → ∀ p, p ∈ smembers c1 → p.1 ≠ m) by (intros E [j u] Hj%Hc1; cbn; congruence).
    destruct (sbit m (place byte bit)); [clear Hne1; specialize (Hne0 eq_refl)|clear Hne0; specialize (Hne1 eq_refl)].
    + destruct (IH1 H1) as (r & -> & Hr). cbn [mbind res_bind]. eexists. split; [done|]. destruct r as [[rest [s v]]|].
      * destruct Hr as (-> & Hin & Hlo & Hmm). split; [done|]. split; [cbn [smembers]; set_solver|]. destruct c1 as [|j u|b1 b2 d0 d1]; cbn [sleft_over] in *; [done| |].
        -- subst rest. split; [done|]. intros p. specialize (Hmm p). specialize (Hne0 p). cbn [smembers] in *. set_solver.
        -- split; [eapply sgood_shrink; set_solver|]. intros p. specialize (Hmm p). specialize (Hne0 p). cbn [smembers] in *. set_solver.
      * intros v. specialize (Hr v). specialize (Hne0 (m, v)). cbn [smembers] in *. set_solver.
    + destruct (IH0 H0) as (r & -> & Hr). cbn [mbind res_bind]. eexists. split; [done|]. destruct r as [[rest [s v]]|].
      * destruct Hr as (-> & Hin & Hlo & Hmm). split; [done|]. split; [cbn [smembers]; set_solver|]. destruct c0 as [|j u|b1 b2 d0 d1]; cbn [sleft_over] in *; [done| |].
        -- subst rest. split; [done|]. intros p. specialize (Hmm p). specialize (Hne1 p). cbn [smembers] in *. set_solver.
        -- split; [eapply sgood_shrink; set_solver|]. intros p. specialize (Hmm p). specialize (Hne1 p). cbn [smembers] in *. set_solver.
      * intros v. specialize (Hr v). specialize (Hne1 (m, v)). cbn [smembers] in *. set_solver.
Qed.

(** ** The first difference *)
Lemma char_at_chr s k : (k ≤ length s)%nat → char_at s k = Ok (chr s (Z.of_nat k)).
Proof.
  intros Hk. unfold char_at, chr, nget. rewrite Nat2Z.id. destruct (Nat.eqb_spec k (length s)) as [->|Hne].
  - by rewrite (lookup_ge_None_2 s (length s)) by lia.
  - destruct (lookup_lt_is_Some_2 s k) as [c Hc]; [lia|]. by rewrite Hc.
Qed.

Lemma first_diff_ok s m : is_str s → is_str m → ∀ fuel k, (∀ j, (j < k)%nat → s !! j = m !! j) → (k ≤ length s)%nat → (k ≤ length m)%nat → (length m - k < fuel)%nat →
  ∃ r, first_diff fuel s m k = Ok r ∧
    match r with
    | None => s = m
    | Some d => (d ≤ length s)%nat ∧ (d ≤ length m)%nat ∧ (∀ j, (j < d)%nat → s !! j = m !! j) ∧ chr s (Z.of_nat d) ≠ chr m (Z.of_nat d)
    end.
Proof.
  intros Hs Hm. induction fuel as [|fuel IH]; intros k Hj Hks Hkm Hf; [lia|]. cbn [first_diff]. rewrite !char_at_chr by done. cbn [mbind res_bind].
  destruct (chr_range s (Z.of_nat k) Hs ltac:(lia)) as [_ Hzs]. destruct (chr_range m (Z.of_nat k) Hm ltac:(lia)) as [_ Hzm]. unfold zlen in Hzs, Hzm.
  destruct (Z.eqb_spec (chr s (Z.of_nat k)) (chr m (Z.of_nat k))) as [E|E]; [|by exists (Some k)].
  destruct (Z.eqb_spec (chr m (Z.of_nat k)) 0) as [E0|E0].
  - exists None. split; [done|]. apply list_eq. intros j. destruct (decide (j < k)%nat); [by apply Hj|].
    assert (Hs0 := proj1 Hzs ltac:(congruence)). assert (Hm0 := proj1 Hzm E0). by rewrite !lookup_ge_None_2 by lia.
  - assert (Hkm' : (k < length m)%nat) by (destruct (decide (k < length m)%nat); [done|]; exfalso; apply E0, Hzm; lia).
    assert (Hks' : (k < length s)%nat) by (destruct (decide (k < length s)%nat); [done|]; exfalso; apply E0; rewrite <- E; apply Hzs; lia).
    apply IH; [|lia|lia|lia]. intros j Hjk. destruct (decide (j = k)) as [->|]; [|apply Hj; lia]. unfold chr in E. rewrite Nat2Z.id in E.
    destruct (lookup_lt_is_Some_2 s k ltac:(lia)) as [c Hc]. destruct (lookup_lt_is_Some_2 m k ltac:(lia)) as [d Hd]. rewrite Hc, Hd in *. cbn in E. congruence.
Qed.

Lemma diff_place s m d (b := Z.log2 (Z.lxor (chr s (Z.of_nat d)) (chr m (Z.of_nat d)))) : is_str s → is_str m →
  (∀ j, (j < d)%nat → s !! j = m !! j) → chr s (Z.of_nat d) ≠ chr m (Z.of_nat d) →
  0 ≤ b < 8 ∧ agree_below (place (Z.of_nat d) b) s m ∧ sbit s (place (Z.of_nat d) b) ≠ sbit m (place (Z.of_nat d) b).
Proof.
  intros Hs Hm Hj Hne. destruct (chr_range s (Z.of_nat d) Hs ltac:(lia)) as [Hrs _]. destruct (chr_range m (Z.of_nat d) Hm ltac:(lia)) as [Hrm _].
  destruct (top_difference (chr s (Z.of_nat d)) (chr m (Z.of_nat d)) ltac:(lia) ltac:(lia) Hne) as (Hb & Hsame & Hd). fold b in Hb, Hsame, Hd.
  assert (Hb8 : 0 ≤ b < 8). { split; [lia|]. destruct (decide (b < 8)); [done|]. rewrite !byte_high in Hd by lia. done. }
  split; [done|]. rewrite !sbit_place by lia. split; [|done]. intros q Hq. unfold sbit, place in *. destruct (decide (q / 8 = Z.of_nat d)) as [E|Hqd].
  - rewrite E. apply Hsame. sdivs.
  - f_equal. unfold chr. f_equal. apply Hj. sdivs.
Qed.

(** ** Order and prefixes *)
Definition sorted_members : list (list Z * Z) → Prop := StronglySorted (λ p q, str_lt p.1 q.1).

Lemma sorted_app l l' : sorted_members l → sorted_members l' → (∀ p q, p ∈ l → q ∈ l' → str_lt p.1 q.1) → sorted_members (l ++ l').
Proof.
  intros Hl Hl' Hx. induction Hl as [|p l Hl IH Hp]; [done|]. cbn [app]. constructor.
  - apply IH. intros p' q Hp' Hq. apply Hx; [by apply elem_of_cons; right|done].
  - apply Forall_app. split; [done|]. apply Forall_forall. intros q Hq. apply Hx; [by apply elem_of_cons; left|done].
Qed.

Lemma smembers_sorted n : sgood n → sorted_members (smembers n).
Proof.
  induction n as [|s v|byte bit c0 IH0 c1 IH1]; cbn [smembers]; [done|by repeat constructor|].
  intros Hg. apply sorted_app; [by apply IH0, Hg|by apply IH1, Hg|]. intros [s v] [t w] Hs Ht. by eapply schildren_lt.
Qed.

Fixpoint visit {D} (handle : list Z → Z → D → bool * D) (l : list (list Z * Z)) (data : D) : bool * D :=
  match l with
  | [] => (true, data)
  | (s, v) :: l => let '(go, data) := handle s v data in if (go : bool) then visit handle l data else (false, data)
  end.

Lemma visit_app {D} (handle : list Z → Z → D → bool * D) l l' data :
  visit handle (l ++ l') data = let '(go, data) := visit handle l data in if (go : bool) then visit handle l' data else (false, data).
Proof. revert data. induction l as [|[s v] l IH]; intros data; cbn [visit app]; [done|]. destruct (handle s v data) as [[] data']; [apply IH|done]. Qed.

Lemma iterate_ok {D} n (handle : list Z → Z → D → bool * D) data : sgood n → iterate n handle data = Ok (visit handle (smembers n) data).
Proof.
  revert data. induction n as [|s v|byte bit c0 IH0 c1 IH1]; intros data Hg; cbn [iterate smembers visit]; [done| |].
  - by destruct (handle s v data) as [[] ?].
  - rewrite visit_app, IH0 by apply Hg. cbn [mbind res_bind]. destruct (visit handle (smembers c0) data) as [[] data']; [|done]. apply IH1, Hg.
Qed.

Lemma some_member n : sgood n → ∃ s v, (s, v) ∈ smembers n.
Proof. intros Hg. destruct (str_closest_ok n [] Hg) as ([s v] & _ & Hin & _); [by constructor|eauto]. Qed.

(** A node below another one looks at a later bit. *)
Lemma child_place byte bit c0 c1 byte' bit' d0 d1 : sgood (SNode byte bit c0 c1) → c0 = SNode byte' bit' d0 d1 ∨ c1 = SNode byte' bit' d0 d1 → place byte bit < place byte' bit'.
Proof.
  intros (H0 & H1 & Hb & Hc0 & Hc1 & Hall) Hc.
  assert (Hin : ∀ p, p ∈ smembers d0 ++ smembers d1 → p ∈ smembers c0 ++ smembers c1) by (intros p Hp; apply elem_of_app; destruct Hc as [-> | ->]; [by left|by right]).
  assert (Hg : sgood (SNode byte' bit' d0 d1)) by (destruct Hc as [ <- | <- ]; done). destruct Hg as (G0 & G1 & Hb' & D0 & D1 & _).
  destruct (some_member d0 G0) as (s & v & Hs). destruct (some_member d1 G1) as (t & w & Ht).
  assert (Hs' : (s, v) ∈ smembers d0 ++ smembers d1) by (apply elem_of_app; by left). assert (Ht' : (t, w) ∈ smembers d0 ++ smembers d1) by (apply elem_of_app; by right).
  assert (Hne : sbit s (place byte' bit') ≠ sbit t (place byte' bit')) by (rewrite (D0 s v Hs), (D1 t w Ht); done).
  assert (Heq : sbit s (place byte bit) = sbit t (place byte bit)).
  { destruct Hc as [-> | ->]; [by rewrite (Hc0 s v Hs'), (Hc0 t w Ht')|by rewrite (Hc1 s v Hs'), (Hc1 t w Ht')]. }
  apply Z.nle_gt. intros Hle. destruct (decide (place byte' bit' = place byte bit)) as [E|]; [congruence|].
  apply Hne. apply (Hall s v t w); [by apply Hin|by apply Hin|unfold place in *; lia].
Qed.

Lemma direction_0 bit : direction 0 bit = false.
Proof. unfold direction. by rewrite Z.shiftr_0_l. Qed.

(** Behind the end of the prefix the walk only looks for a member. *)
Lemma walk_beyond p n top : sgood n → (∀ byte bit c0 c1, n = SNode byte bit c0 c1 → zlen p ≤ byte) → ∃ s v, prefix_walk n top p = Ok (s, top) ∧ (s, v) ∈ smembers n.
Proof.
  induction n as [|s v|byte bit c0 IH0 c1 _]; intros Hg Hb; [done|exists s, v; split; [done|by constructor]|]. cbn [prefix_walk].
  assert (Hp := Hb byte bit c0 c1 eq_refl). replace (byte <? zlen p) with false by lia. rewrite direction_0. cbn [Z.eqb negb].
  destruct IH0 as (s & v & -> & Hin); [apply Hg| |exists s, v; split; [done|apply elem_of_app; by left]].
  intros byte' bit' d0 d1 ->. assert (Hlt := child_place byte bit _ c1 byte' bit' d0 d1 Hg (or_introl eq_refl)).
  destruct Hg as ((_ & _ & Hb' & _) & _ & Hbb & _). unfold place in Hlt. lia.
Qed.

Lemma strncmp_prefix s p : strncmp_eq s p (length p) = bool_decide (p `prefix_of` s).
Proof.
  revert s. induction p as [|c p IH]; intros s; cbn [length strncmp_eq]; [by rewrite bool_decide_eq_true_2 by apply prefix_nil|].
  destruct s as [|x s]; [symmetry; apply bool_decide_eq_false; by apply prefix_nil_not|]. rewrite IH. apply eq_true_iff_eq.
  rewrite andb_true_iff, Z.eqb_eq, !bool_decide_eq_true. split; [intros [-> ?]; by apply prefix_cons|].
  intros H. split; [by apply prefix_cons_inv_1 in H|by apply prefix_cons_inv_2 in H].
Qed.

(** A prefix by the bytes. *)
Lemma prefix_chr p s : is_str p → p `prefix_of` s ↔ ∀ k, 0 ≤ k < zlen p → chr s k = chr p k.
Proof.
  intros Hp. split.
  - intros [l ->] k Hk. unfold chr, zlen in *. by rewrite lookup_app_l by lia.
  - intros H. exists (drop (length p) s). rewrite <- (take_drop (length p) s) at 1. f_equal. apply list_eq. intros j.
    destruct (decide (j < length p)%nat) as [Hj|Hj].
    + rewrite lookup_take_lt by done. specialize (H (Z.of_nat j)). unfold chr, zlen in H. rewrite Nat2Z.id in H.
      destruct (lookup_lt_is_Some_2 p j Hj) as [c Hc]. rewrite Hc in *. assert (Hc0 : 0 < c < 256) by (by apply (Forall_lookup_1 _ _ _ _ Hp Hc)).
      destruct (s !! j) as [x|]; cbn in H; [f_equal; apply H; lia|]. assert (0 = c) by (apply H; lia). lia.
    + rewrite lookup_take_ge by lia. symmetry. apply lookup_ge_None. lia.
Qed.

Lemma prefix_agree p s t q : is_str p → is_str s → is_str t → 8 * zlen p ≤ q → agree_below q s t → p `prefix_of` s ↔ p `prefix_of` t.
Proof.
  intros Hp Hs Ht Hq Ha. rewrite !prefix_chr by done. assert (Hc : ∀ k, 0 ≤ k < zlen p → chr s k = chr t k) by (intros k Hk; apply (chr_agree s t q); try done; lia).
  split; intros H k Hk; [rewrite <- Hc by done|rewrite Hc by done]; by apply H.
Qed.

Lemma prefix_walk_ok p n : is_str p → sgood n → ∃ s v top, prefix_walk n n p = Ok (s, top) ∧ sgood top ∧ (s, v) ∈ smembers top ∧
  (∀ q, q ∈ smembers top → q ∈ smembers n) ∧ (∀ t w, (t, w) ∈ smembers n → p `prefix_of` t → (t, w) ∈ smembers top) ∧
  (∀ t w, (t, w) ∈ smembers top → p `prefix_of` t ↔ p `prefix_of` s).
Proof.
  intros Hp. induction n as [|s v|byte bit c0 IH0 c1 IH1]; intros Hg; [done| |].
  - exists s, v, (SMember s v). split_and!; [done|done|by constructor|done|done|]. by intros t w [= -> ->]%list_elem_of_singleton.
  - assert (Hg' := Hg). destruct Hg' as (H0 & H1 & [Hk Hb] & Hc0 & Hc1 & Hall). cbn [prefix_walk]. destruct (chr_range p byte Hp Hk) as [_ Hz].
    destruct (Z.ltb_spec byte (zlen p)) as [Hlt|Hge].
    + change (default 0 (p !! Z.to_nat byte)) with (chr p byte). rewrite direction_testbit by lia. rewrite <- sbit_place by done.
      assert (Hnz : chr p byte ≠ 0) by (rewrite Hz; lia). replace (chr p byte =? 0) with false by lia. cbn [negb].
      assert (Hside : ∀ t, p `prefix_of` t → sbit t (place byte bit) = sbit p (place byte bit)).
      { intros t Ht. rewrite !sbit_place by done. f_equal. apply prefix_chr; [done|done|lia]. }
      destruct (sbit p (place byte bit)).
      * destruct (IH1 H1) as (s & v & top & -> & Hgt & Hin & Hsub & Hpre & Hsame). exists s, v, top. split_and!; [done|done|done| | |done].
        -- intros q Hq. apply elem_of_app. right. by apply Hsub.
        -- intros t w [Ht|Ht]%elem_of_app Hpt; [|by apply Hpre]. apply Hc0 in Ht. rewrite Hside in Ht by done. done.
      * destruct (IH0 H0) as (s & v & top & -> & Hgt & Hin & Hsub & Hpre & Hsame). exists s, v, top. split_and!; [done|done|done| | |done].
        -- intros q Hq. apply elem_of_app. left. by apply Hsub.
        -- intros t w [Ht|Ht]%elem_of_app Hpt; [by apply Hpre|]. apply Hc1 in Ht. rewrite Hside in Ht by done. done.
    + rewrite direction_0. cbn [Z.eqb negb]. destruct (walk_beyond p c0 (SNode byte bit c0 c1) H0) as (s & v & -> & Hin).
      { intros byte' bit' d0 d1 ->. assert (Hlt := child_place byte bit _ c1 byte' bit' d0 d1 Hg (or_introl eq_refl)).
        destruct H0 as (_ & _ & Hb' & _). unfold place in Hlt. lia. }
      assert (Hin' : (s, v) ∈ smembers c0 ++ smembers c1) by (apply elem_of_app; by left).
      exists s, v, (SNode byte bit c0 c1). split_and!; [done|done|done|done|done|]. intros t w Ht. cbn [smembers] in Ht.
      apply (prefix_agree p t s (place byte bit)); [done|by eapply (sgood_member (SNode byte bit c0 c1))|by eapply (sgood_member (SNode byte bit c0 c1))|unfold place; lia|by eapply Hall].
Qed.

(** ** Refinement *)
Definition srepresents (n : strmap) (P : list Z → Z → Prop) : Prop := (n = SEmpty ∨ sgood n) ∧ ∀ s v, (s, v) ∈ smembers n ↔ P s v.

(** What iteration over a map shows: its members in the order of [strcmp]. *)
Definition lists (n : strmap) (P : list Z → Z → Prop) : Prop :=
  ∃ l, sorted_members l ∧ (∀ s v, (s, v) ∈ l ↔ P s v) ∧
    ∀ D (handle : list Z → Z → D → bool * D) data, strmap_iterate_ n handle data = Ok (visit handle l data).2.

Lemma represents_lists n P : srepresents n P → lists n P.
Proof.
  intros [Hn HP]. exists (smembers n). split; [destruct Hn as [->|]; [constructor|by apply smembers_sorted]|]. split; [done|].
  intros D handle data. unfold strmap_iterate_. destruct Hn as [->|Hg]; [done|]. assert (He : strmap_empty_ n = false) by (by destruct n).
  rewrite He, iterate_ok by done. cbn [mbind res_bind]. by destruct (visit handle (smembers n) data).
Qed.

Lemma strmap_prefix_ok n P p : srepresents n P → is_str p →
  ∃ n', strmap_prefix_ n p = Ok n' ∧ srepresents n' (λ s v, P s v ∧ p `prefix_of` s).
Proof.
  intros [Hn HP] Hp. unfold strmap_prefix_. destruct Hn as [->|Hg].
  - exists SEmpty. split; [done|]. split; [by left|]. intros s v. rewrite HP. split; [|tauto]. intros HPs. apply HP in HPs. by apply not_elem_of_nil in HPs.
  - assert (He : strmap_empty_ n = false) by (by destruct n). rewrite He. destruct (prefix_walk_ok p n Hp Hg) as (s & v & top & -> & Hgt & Hin & Hsub & Hpre & Hsame).
    cbn [mbind res_bind]. rewrite strncmp_prefix. eexists. split; [done|]. case_bool_decide as Hs.
    + split; [by right|]. intros t w. split; [intros Ht; split; [by apply HP, Hsub|by apply (Hsame t w)]|]. intros [Ht Hpt]. apply HP in Ht. by apply Hpre.
    + split; [by left|]. intros t w. split; [intros Ht; by apply not_elem_of_nil in Ht|]. intros [Ht Hpt]. exfalso. apply Hs. apply HP in Ht. by apply (Hsame t w), Hpt; apply Hpre.
Qed.

Definition smap (m : gmap (list Z) Z) : list Z → Z → Prop := λ s v, m !! s = Some v.

Lemma strmap_get_ok n m s : srepresents n (smap m) → is_str s → strmap_get_ n s = Ok (match m !! s with Some v => inl v | None => inr ENOENT end).
Proof.
  intros [[->|Hg] Hm] Hs; unfold strmap_get_.
  - cbn. destruct (m !! s) as [v|] eqn:E; [|done]. apply Hm in E. by apply not_elem_of_nil in E.
  - destruct (str_closest_ok n s Hg Hs) as ([t w] & Hc & Hin & Hu). assert (He : strmap_empty_ n = false) by (by destruct n). rewrite He, Hc.
    cbn [mbind res_bind]. f_equal. unfold str_eqb. case_bool_decide as E.
    + subst t. by apply Hm in Hin as ->.
    + destruct (m !! s) as [v|] eqn:Em; [|done]. apply Hm, Hu in Em. congruence.
Qed.

Lemma strmap_add_ok `{Allocator} undef n m s v : srepresents n (smap m) → is_str s → v ≠ 0 → ∃ n' r, strmap_add_ undef n s v = Ok (n', r) ∧
  match m !! s with
  | Some _ => r = inr EEXIST ∧ n' = n
  | None => if bool_decide (m = ∅) || alloc_ok sizeof_str_node then r = inl () ∧ srepresents n' (smap (<[s := v]> m)) else r = inr ENOMEM ∧ n' = n
  end.
Proof.
  intros [Hn Hm] Hs Hv. unfold strmap_add_, assert_. replace (v =? 0) with false by lia. cbn [negb mbind res_bind]. destruct Hn as [->|Hg].
  - assert (m = ∅) as ->.
    { apply map_empty. intros t. destruct (m !! t) as [w|] eqn:E; [|done]. apply Hm in E. by apply not_elem_of_nil in E. }
    eexists _, _. split; [done|]. rewrite lookup_empty, bool_decide_eq_true_2 by done. split; [done|]. split; [by right|].
    intros t w. cbn [smembers]. unfold smap. rewrite list_elem_of_singleton, lookup_insert_Some, lookup_empty. naive_solver.
  - assert (He : strmap_empty_ n = false) by (by destruct n). rewrite He. destruct (str_closest_ok n s Hg Hs) as ([c w] & Hc & Hin & Hu). rewrite Hc. cbn [mbind res_bind].
    destruct (sgood_member n c w Hg Hin) as [Hcs _]. assert (Hne : m ≠ ∅) by (intros ->; apply Hm in Hin; unfold smap in Hin; by rewrite lookup_empty in Hin).
    rewrite bool_decide_eq_false_2 by done. cbn [orb].
    destruct (first_diff_ok c s Hcs Hs (S (length s)) 0) as (r & -> & Hr); [lia|lia|lia|lia|]. cbn [mbind res_bind]. destruct r as [d|].
    + destruct Hr as (Hdc & Hds & Hbelow & Hdiff). rewrite !char_at_chr by done. cbn [mbind res_bind].
      destruct (diff_place c s d Hcs Hs Hbelow Hdiff) as (Hb & Ha & Hd). set (b := Z.log2 (Z.lxor (chr c (Z.of_nat d)) (chr s (Z.of_nat d)))) in *.
      assert (Hx0 : Z.lxor (chr c (Z.of_nat d)) (chr s (Z.of_nat d)) ≠ 0) by (by rewrite Z.lxor_eq_0_iff).
      assert (Hbit : u8 (builtin_ilog32_nz undef (Z.lxor (chr c (Z.of_nat d)) (chr s (Z.of_nat d))) - 1) = b).
      { unfold builtin_ilog32_nz, builtin_clz. replace (Z.lxor (chr c (Z.of_nat d)) (chr s (Z.of_nat d)) =? 0) with false by lia. fold b. unfold u8. rewrite Z.mod_small; lia. }
      rewrite Hbit. replace (b <? 8) with true by lia. cbn [mbind res_bind].
      assert (Hms : m !! s = None) by (destruct (m !! s) as [u|] eqn:E; [|done]; apply Hm, Hu in E; simplify_eq). rewrite Hms.
      destruct (alloc_ok sizeof_str_node); cbn [negb]; [|by eexists _, _]. eexists _, _. split; [done|]. split; [done|].
      rewrite direction_testbit by lia. rewrite <- sbit_place by lia.
      destruct (str_add_at_ok n s v (Z.of_nat d) b c w Hg Hs Hc ltac:(lia) Hb Ha Hd Hv) as [Hg' Hm']. split; [by right|]. intros t u. unfold smap.
      rewrite Hm', lookup_insert_Some, Hm. split; [intros [[= -> ->]|E]; [by left|right; split; [unfold smap in E; congruence|done]]|naive_solver].
    + subst c. eexists _, _. split; [done|]. apply Hm in Hin as ->. done.
Qed.

Lemma strmap_del_ok n m s : srepresents n (smap m) → is_str s →
  ∃ n', strmap_del_ n s = Ok (n', match m !! s with Some v => inl (s, v) | None => inr ENOENT end) ∧ srepresents n' (smap (delete s m)).
Proof.
  intros [Hn Hm] Hs. unfold strmap_del_. destruct Hn as [->|Hg].
  - assert (Hms : m !! s = None) by (destruct (m !! s) as [u|] eqn:E; [|done]; apply Hm in E; by apply not_elem_of_nil in E).
    exists SEmpty. rewrite Hms, delete_id by done. split; [done|]. split; [by left|done].
  - assert (He : strmap_empty_ n = false) by (by destruct n). rewrite He. destruct (str_del_below_ok n s Hg Hs) as (r & -> & Hr). cbn [mbind res_bind].
    destruct r as [[rest [t v]]|].
    + destruct Hr as (-> & Hin & Hlo & Hrest). exists rest. apply Hm in Hin as Hms. unfold smap in Hms. rewrite Hms. split; [done|]. split.
      * destruct n; [done|by left|by right].
      * intros j w. unfold smap. rewrite Hrest, lookup_delete_Some, Hm. cbn. unfold smap. naive_solver.
    + assert (Hms : m !! s = None) by (destruct (m !! s) as [u|] eqn:E; [|done]; apply Hm in E; by apply Hr in E).
      exists n. rewrite Hms, delete_id by done. split; [done|]. split; [by right|done].
Qed.

(** ** Sequences of operations *)
Inductive str_op := SAdd (s : list Z) (v : Z) | SDel (s : list Z) | SGet (s : list Z) | SClear.

Section sequences.
Context `{Allocator} (undef : Z).

Definition run_str (o : str_op) (st : strmap * list answer) : res (strmap * list answer) :=
  let '(n, out) := st in
  match o with
  | SAdd s v => '(n, r) ← strmap_add_ undef n s v; Ok (n, out ++ [answer_of (λ _, Done) r])
  | SDel s => '(n, r) ← strmap_del_ n s; Ok (n, out ++ [answer_of (λ sv, Value sv.2) r])
  | SGet s => r ← strmap_get_ n s; Ok (n, out ++ [answer_of Value r])
  | SClear => Ok (strmap_clear_ n, out ++ [Done])
  end.

Definition spec_str (st : gmap (list Z) Z * list answer) (o : str_op) : gmap (list Z) Z * list answer :=
  let '(m, out) := st in
  match o with
  | SAdd s v =>
    match m !! s with
    | Some _ => (m, out ++ [Failed EEXIST])
    | None => if bool_decide (m = ∅) || alloc_ok sizeof_str_node then (<[s := v]> m, out ++ [Done]) else (m, out ++ [Failed ENOMEM])
    end
  | SDel s => (delete s m, out ++ [match m !! s with Some v => Value v | None => Failed ENOENT end])
  | SGet s => (m, out ++ [match m !! s with Some v => Value v | None => Failed ENOENT end])
  | SClear => (∅, out ++ [Done])
  end.

Definition str_op_ok (o : str_op) : Prop :=
  match o with SAdd s v => is_str s ∧ v ≠ 0 | SDel s | SGet s => is_str s | SClear => True end.

Lemma srepresents_empty : srepresents SEmpty (smap ∅).
Proof. split; [by left|]. intros s v. unfold smap. rewrite lookup_empty. cbn. set_solver. Qed.

Lemma run_str_ok o n m out : srepresents n (smap m) → str_op_ok o →
  ∃ n', run_str o (n, out) = Ok (n', (spec_str (m, out) o).2) ∧ srepresents n' (smap (spec_str (m, out) o).1).
Proof.
  intros Hr Ho. destruct o as [s v|s|s|]; cbn [run_str spec_str].
  - destruct Ho as [Hs Hv]. destruct (strmap_add_ok undef n m s v Hr Hs Hv) as (n' & r & -> & Hx). cbn [mbind res_bind]. exists n'.
    destruct (m !! s); [destruct Hx as [-> ->]; done|]. destruct (bool_decide (m = ∅) || alloc_ok sizeof_str_node); destruct Hx as [-> Hx]; [done|by subst].
  - destruct (strmap_del_ok n m s Hr Ho) as (n' & -> & Hx). cbn [mbind res_bind fst snd]. exists n'. split; [|done]. by destruct (m !! s).
  - rewrite (strmap_get_ok n m s Hr Ho). cbn [mbind res_bind fst snd]. exists n. split; [|done]. by destruct (m !! s).
  - exists SEmpty. split; [done|]. apply srepresents_empty.
Qed.

Lemma run_strs_ok ops : Forall str_op_ok ops → ∀ n m out, srepresents n (smap m) →
  ∃ n', mfold run_str ops (n, out) = Ok (n', (foldl spec_str (m, out) ops).2) ∧ srepresents n' (smap (foldl spec_str (m, out) ops).1).
Proof.
  induction 1 as [|o ops Ho _ IH]; intros n m out Hr; cbn [mfold foldl]; [by exists n|].
  destruct (run_str_ok o n m out Hr Ho) as (n1 & -> & Hr1). cbn [mbind res_bind]. destruct (spec_str (m, out) o) as [m1 out1]. by apply IH.
Qed.

(** C23: string maps are ordered finite maps.  Any sequence of strmap_add_, strmap_del_, strmap_get_ and
    strmap_clear_ on an empty map answers as a finite map from strings does, errors
    included; then strmap_iterate_ gives the members to its handler in the order of strcmp
    until the handler stops, and strmap_prefix_ is a map of exactly the members that begin
    with the prefix. *)
Theorem strmap_refines_map (ops : list str_op) : Forall str_op_ok ops →
  let m := (foldl spec_str (∅, []) ops).1 in
  ∃ n, mfold run_str ops (strmap_init_, []) = Ok (n, (foldl spec_str (∅, []) ops).2) ∧
    lists n (λ s v, m !! s = Some v) ∧
    ∀ p, is_str p → ∃ n', strmap_prefix_ n p = Ok n' ∧ lists n' (λ s v, m !! s = Some v ∧ p `prefix_of` s).
Proof.
  intros Hops m. destruct (run_strs_ok ops Hops SEmpty ∅ [] srepresents_empty) as (n & E & Hr). exists n. split; [done|].
  split; [by apply represents_lists|]. intros p Hp. destruct (strmap_prefix_ok n _ p Hr Hp) as (n' & E' & Hr'). exists n'. split; [done|]. by apply represents_lists.
Qed.
End sequences.

Lemma strmap_refines_map_witness :
  let _ : Allocator := λ _, true in
  let ops := [SAdd [97; 98] 1; SAdd [97] 2; SAdd [98; 200; 1] 3; SAdd [97] 4; SDel [98]; SGet [97; 98]] in
  let m := (foldl spec_str (∅, []) ops).1 in
  ∃ n, mfold (run_str 0) ops (strmap_init_, []) = Ok (n, (foldl spec_str (∅, []) ops).2) ∧
    lists n (λ s v, m !! s = Some v) ∧
    ∀ p, is_str p → ∃ n', strmap_prefix_ n p = Ok n' ∧ lists n' (λ s v, m !! s = Some v ∧ p `prefix_of` s).
Proof.
  cbv zeta. apply (@strmap_refines_map (λ _, true)). repeat constructor; vm_compute; congruence.
Defined.
